(* ===== verification/_CoqProject ===== *)
-Q . S2P
Prelude.v
Buffer.v
Lock.v
Queue.v
Loader.v
Timer.v
Handle.v
Netpack.v
Des.v
Crypt.v
Dump.v
Pixel.v
Sched.v
SchedLive.v
Sha1.v
Stm.v
Multicast.v
SprotoPack.v
Sproto.v
SprotoOk.v
SprotoSchema.v
SprotoSchemaOk.v
SprotoLua.v
SprotoLuaOk.v
SprotoLuaRead.v
SockBuf.v
Lalloc.v
LallocInv.v
LallocHuge.v
LallocOk.v
Lshare.v
LshareOk.v
LshareRead.v
Serial.v
Socket.v
SocketOk.v
SocketInv.v
