(* ===== verification/Prelude.v ===== *)
(** * Routine: services, messages and the libraries around them

    A development that verifies the C code of [routine], an actor runtime for
    Lua in the style of skynet.  A process runs many services; a service has a
    handle, a queue of messages and a callback.  Worker threads take a service
    from a global list and dispatch its messages; a timer thread and a socket
    thread turn time and network into messages.  Messages between services go
    through memory that the sender gives up; libraries for Lua frame, pack,
    encrypt and share data.

    ** The parts, and where they are

    Files under [src/src] (the runtime):
    - [lock.h]: [Lock], the spinlock and the reader-writer lock at the
      granularity of single atomic accesses, for any number of threads.  The
      other files take a critical section, or taking a lock, as one step;
      [lock_exclusion] is why they may.
    - [queue.c]: [Queue], the ring buffer of a service and the list of
      runnable queues, on a heap of queues ([qw_heap]).
    - [module.c]: [Loader], the table of shared libraries, with its unlocked
      first search, for any number of threads.
    - [timer.c]: [Timer], the timing wheel, the clock and the interleaving of
      [timer_timeout] with the thread that fires ([tstep]).
    - [handle.c]: [Handle], the open hash of handles with reference counts, and
      the sorted table of names; [hstep] is the interleaving of its callers,
      whatever they do, and [act_ok] says which steps the code is safe for.
    - [pixel.c], [harbor.c], [monitor.c], [log.c]: [Pixel], services, sending,
      dispatching, commands, remote handles, log files, as programs on a
      [world] whose modules, callbacks, files and allocator are the class
      [Runtime].  [dump.h]: [Dump], the lines of a hexadecimal dump.
    - [pixel.c] and [start.c] again: [Sched], every interleaving of the timer
      thread, workers, senders, launches and kills, one critical section a
      step, on the operations of [Queue] and [Handle] and on [watcher], the
      mutex and condition variable that workers sleep on; [SchedLive] is about
      its fair runs.
    - [socket.c], [epoll.c]: [Socket], the one thread that serves descriptors
      and the requests that others write into its pipe, over the class [Os] of
      system calls; [SocketOk] and [SocketInv] have the proofs.
    - [lserial.c]: [Serial], Lua values packed into a chain of blocks and back.

    Files under [src/lualib] (libraries for Lua):
    - [lnetpack.c]: [Netpack], packets out of byte streams.
    - [lcrypt.c]: [Des] (the cipher) and [Crypt] (encodings, hashes, key
      exchange).  [lsha1.c]: [Sha1].
    - [lstm.c]: [Stm], versions of a message shared by reference counts.
    - [lmulticast.c]: [Multicast], a message with many receivers.
    - [sproto/sproto.c], [sproto/lsproto.c]: [SprotoPack], the packing of
      zeros; [Sproto], the encoder and the decoder with their callbacks, and
      [SprotoOk], the proofs, on writes into a buffer that [Buffer] describes;
      [SprotoSchema], the pool of memory, the reader of schemas and the queries
      on them, with the proofs in [SprotoSchemaOk]; [SprotoLua], the functions
      called from Lua with the two callbacks, on a Lua stack with its limit and
      a heap of tables, with the proofs in [SprotoLuaOk] (encoding) and
      [SprotoLuaRead] (decoding, the round trip).
    - [lsocket.c]: [SockBuf], the buffers that a Lua service reads from, and
      the pool of their nodes.
    - [lsharedata.c]: [Lshare], a Lua table copied into memory that services
      share; [LshareOk] (construction) and [LshareRead] (lookup and iteration)
      have the proofs.

    Files under [src/service]:
    - [lalloc.c]: [Lalloc], the allocator of the Lua states, over memory by
      bytes; [LallocInv] (invariant, small and big blocks), [LallocHuge] (huge
      blocks) and [LallocOk] (the contract) have the proofs.

    How they meet: [Pixel] pushes into [Queue] and looks handles up in
    [Handle]; [Sched] runs the same operations under all interleavings, with
    the state of [Queue] and [Handle] as parts of its own.  [Timer], [Socket]
    and [Serial] meet the runtime in the messages they produce.  [Stm] uses the
    lock of [Lock] as one step.  [Prelude] (this file) has what they share.

    ** Conventions

    A definition has the name of the C function it translates.  Integers of the
    C program are integers [Z]; where the code depends on their width the wrap
    is written ([u8], [u16], [u32], [u64], [i32], [shl]).  An array is a list
    with its length; a read or write out of bounds, a null pointer, a failed
    assertion or use of freed memory is [None] (or [Fault]), so a theorem that
    an operation returns [Some] says that none of these happens.  A Lua error
    is [LErr] (or [Error]).  State is passed explicitly, in the larger parts by
    the monads [ust], with [wp] and [wlp], and [seff], which also has Lua errors;
    where threads interleave it is a step relation and the properties hold for all reachable states.  Recursion that
    is not structural has fuel: the length of the input, or a bound that a
    theorem or a lemma shows to be enough (the theorems state that a result is
    returned, so too little fuel would make them false).  What the code calls
    and does not define (system calls, modules, the clock, random numbers, the
    contents of new memory, addresses that the allocator returns) is an
    argument or the operation of a class.

    ** What is shown

    - [Lock]: mutual exclusion, for any number of threads.
    - [Queue]: a queue is a first-in first-out list with the overload marks of
      the code, and any run of operations refines that list; nothing is lost
      when the ring grows.
    - [Loader]: no interleaving of queries loads a module twice, overruns the
      table or hands out an entry that is not ready; a module found once stays;
      the one fault is a file name that does not fit, and it stops its thread.
    - [Timer]: every timer fires exactly once and at its time, whatever the
      other threads add; the wheel is never stuck, also when the tick wraps
      around; which nodes are left behind when the wheel is taken down.
    - [Handle]: no released service is ever found and none is lost, and new
      handles are fresh, as long as an expansion loses no service and handles
      stay below 2^24; names refine a finite map; which handle is lost when the
      table grows.
    - [Pixel]: what a message sent reaches, with which session and source, on
      every branch of [pixel_send]; what a dispatch gives to any callback that
      keeps the world in order; launches, accepted and refused, with any module;
      handles printed are read back.
    - [Sched]: no interleaving dispatches a service twice at once, forgets a
      queue or uses a service after its release, if each service is killed once
      and launches and sends are those of [sstep]; under a fair scheduler every
      message is dispatched sometime while the node is not stopped
      ([SchedLive]).
    - [Socket]: a connection with requests of high priority sends its bytes
      once and in order and releases each buffer once, for all answers of the
      system; an invariant of all slots; a bound on the work between two waits.
    - [Netpack], [Serial], [Des], [Crypt], [Pixel], [SprotoPack], [SprotoOk]:
      what is written is read back (round trips), the format, and the errors of
      the readers; [Sha1] equals FIPS 180 and RFC 2104.
    - [SprotoSchemaOk]: a schema that is written is read back; whatever bytes
      are read as a schema, the types that come out are the ones [Sproto] relies
      on; blocks of the pool do not overlap up to the first that is refused.
      The bytes of a message are [SprotoOk.message], which follows the code
      where the README differs ([SprotoOk.bob_message]).
    - [SprotoLuaRead]: a Lua table that a schema describes goes through
      [lencode] and [ldecode] to a table that represents the same values, and
      neither leaves the stack, the buffer or the message.
    - [SockBuf]: read buffers refine streams of bytes, and give every block
      back once, for blocks that are not empty and counts that are not negative.
    - [LshareRead]: a shared table answers like the table it was copied from,
      for lookup and iteration, whatever collides; it is freed once.
    - [LallocOk]: the allocator refines a map of blocks; what clients write into
      a block stays there, whatever is allocated, resized and freed around it.
    - [Stm], [Multicast]: counted memory is freed once, when the last holder
      leaves, and not used after.

    Where the code does not do what it means to, the theorem states what it
    does and a lemma or example shows the case: reading past a buffer
    ([SprotoPack.pack_overread], [SprotoPack.unpack_overread],
    [SprotoOk.decode_overreads], [Dump.dump_overread], [SockBuf.pop_negative],
    [SockBuf.push_empty]), writing past one ([SprotoOk.encode_overruns],
    [Loader.long_name_overruns], [Socket.open_long_host]),
    leaving the Lua stack ([SprotoLuaRead.encode_stack_overflow],
    [SprotoLuaRead.encode_leaves_slots]), a slot of the stack that is none
    ([SprotoLuaRead.decode_key_no_array]), a template of the module path that is
    never tried ([Loader.second_template]),
    blocks of the pool that overlap or wrap ([SprotoSchemaOk.pool_overlap],
    [SprotoSchemaOk.pool_wraps]), schemas
    that crash the reader or that it refuses ([SprotoSchemaOk.empty_schema],
    [SprotoSchemaOk.no_fields]), sizes that wrap around
    ([SprotoSchemaOk.size_wraps]),
    keys that a shared table confuses ([Lshare.large_key],
    [Lshare.table_key]), messages that
    [lpack] refuses ([SprotoPack.lpack_nine]), the release of the last two
    readers at once ([Stm.stm_release_race]), requests of low priority written
    in part ([SocketOk.socket_low_asserts]), a service killed twice
    ([Pixel.kill_twice_frees]), a message to another node without a harbor
    service ([Pixel.harbor_missing]), strings of 2^31 bytes
    ([Multicast.packstring_long]), the count of services, which can stop a node
    that has one ([Sched.sched_total_wrong]), the mutex that the end of the node
    leaves locked ([Sched.sched_quit_hangs]), a handle that is lost when the table grows
    ([Handle.handle_expand_loses]), an odd number of hexadecimal digits
    ([Crypt.hex_decode_odd]), the split of the only free big block and the
    pages that stay mapped ([Lalloc.lone_split_overlap],
    [Lalloc.free_leaves_page]), the wheel at exit ([Timer.timer_unit_leaks]).

    ** What is not modelled

    - [env.c], [main.c]: a Lua state as a table of strings, and configuration.
      [start.c] but for the loops of the workers and of the timer thread:
      creating threads, the monitor thread, the signals of the socket thread.
    - [sproto_dump] and [allocator_info], which print.
    - [lsocket.c] but for the read buffers: arguments of Lua passed on to
      [Socket].  [lclientsocket.c]: blocking calls of the system.
    - [lua.c], [log.c] under [src/service], and what the bindings do with the
      Lua stack, but for those of sproto: calls of the Lua interface.  In
      [SprotoLua] that interface is what the manual of Lua says of the functions
      that are called, without metatables.
    - [src/3rd/lpeg]: a library of others.  Code in Lua.
    - Memory is sequentially consistent; the allocator does not fail where the
      code does not test it.  Sizes that the code holds as [int] are below
      [2^31]; where a size comes as a [size_t] and is narrowed, the wrap is
      written ([int_of], [i32]) or the bound is in the theorem. *)

From stdpp Require Export base tactics option list numbers fin_maps gmap strings.
From Stdlib Require Export ZArith Lia ZifyBool.

#[global] Open Scope Z_scope.

(** ** Machine integers *)

Definition u8 (z : Z) : Z := z mod 2 ^ 8.
Definition u16 (z : Z) : Z := z mod 2 ^ 16.
Definition u32 (z : Z) : Z := z mod 2 ^ 32.
Definition u64 (z : Z) : Z := z mod 2 ^ 64.
Definition i32 (z : Z) : Z := (z + 2 ^ 31) mod 2 ^ 32 - 2 ^ 31.
Definition i64 (z : Z) : Z := (z + 2 ^ 63) mod 2 ^ 64 - 2 ^ 63.

(** A result of signed arithmetic on [int]; an overflow is undefined. *)
Definition int_of (z : Z) : option Z := if (- 2 ^ 31 <=? z) && (z <? 2 ^ 31) then Some z else None.

(** C's operators on [uint32_t]: a shift to the left is cut to 32 bits. *)
Definition shl (x n : Z) : Z := u32 (Z.shiftl x n).

Declare Scope word_scope.
Delimit Scope word_scope with w.
Infix "<<<" := shl (at level 35, no associativity) : word_scope.
Infix ">>>" := Z.shiftr (at level 35, no associativity) : word_scope.
Infix ".&" := Z.land (at level 41, left associativity) : word_scope.
Infix ".^" := Z.lxor (at level 42, left associativity) : word_scope.
Infix ".|" := Z.lor (at level 43, left associativity) : word_scope.

(** ** Arrays of the C program *)

Abbreviation zlen l := (Z.of_nat (length l)).

Definition aget {A} (l : list A) (i : Z) : option A :=
  if 0 <=? i then l !! Z.to_nat i else None.

Definition aset {A} (l : list A) (i : Z) (x : A) : option (list A) :=
  if (0 <=? i) && (i <? zlen l) then Some (<[Z.to_nat i := x]> l) else None.

(** [memcpy(dst + d, src + o, n)] between separate buffers. *)
Definition memcpy {A} (dst : list A) (d : Z) (src : list A) (o n : Z) : option (list A) :=
  if (0 <=? d) && (0 <=? o) && (0 <=? n) && (d + n <=? zlen dst) && (o + n <=? zlen src) then
    Some (take (Z.to_nat d) dst ++ take (Z.to_nat n) (drop (Z.to_nat o) src) ++
          drop (Z.to_nat (d + n)) dst)
  else None.

(** The bytes of a string. *)
Definition ascii (s : string) : list Z := map (fun a => Z.of_N (Ascii.N_of_ascii a)) (String.list_ascii_of_string s).

(** What a function called from Lua does: it returns a value, or raises a Lua
    error.  Undefined behaviour stays [None] around it. *)
Inductive lua (A : Type) := LOk (a : A) | LErr.
Arguments LOk {A} _.
Arguments LErr {A}.

#[export] Instance lua_eq_dec {A} `{EqDecision A} : EqDecision (lua A).
Proof. solve_decision. Defined.

(** Undefined behaviour, a Lua error, or a value. *)
Definition eff (A : Type) : Type := option (lua A).
Definition eret {A} (a : A) : eff A := Some (LOk a).
Definition ebind {A B} (m : eff A) (k : A -> eff B) : eff B :=
  match m with None => None | Some LErr => Some LErr | Some (LOk a) => k a end.
Definition elift {A} (o : option A) : eff A := match o with None => None | Some a => Some (LOk a) end.

Declare Scope eff_scope.
Notation "'let*' x ':=' m 'in' k" := (ebind m (fun x => k)) (at level 10, x name, m at level 200, k at level 200) : eff_scope.
Notation "'let*' ' p ':=' m 'in' k" := (ebind m (fun p => k))
  (at level 10, p strict pattern, m at level 200, k at level 200) : eff_scope.

(** The same with a state that the function hands on. *)
Definition seff (S A : Type) : Type := S -> eff (A * S).
Definition sret {S A} (a : A) : seff S A := fun s => eret (a, s).
Definition sbind {S A B} (m : seff S A) (k : A -> seff S B) : seff S B :=
  fun s => match m s with None => None | Some LErr => Some LErr | Some (LOk (a, s)) => k a s end.
Definition slift {S A} (o : option A) : seff S A := fun s => match o with None => None | Some a => eret (a, s) end.

Notation "'let+' x ':=' m 'in' k" := (sbind m (fun x => k)) (at level 10, x name, m at level 200, k at level 200) : eff_scope.
Notation "'let+' ' p ':=' m 'in' k" := (sbind m (fun p => k))
  (at level 10, p strict pattern, m at level 200, k at level 200) : eff_scope.

(** ** Programs over a state

    A C function that works on the state [S]: undefined behaviour and a failed
    assertion are [None]. *)

Definition ust (S A : Type) : Type := S -> option (A * S).

#[export] Instance ust_ret {S} : MRet (ust S) := fun A x s => Some (x, s).
#[export] Instance ust_bind {S} : MBind (ust S) := fun A B f m s => '(x, s) ← m s; f x s.

Definition uget {S A} (f : S -> A) : ust S A := fun s => Some (f s, s).
Definition umod {S} (f : S -> S) : ust S unit := fun s => Some (tt, f s).
Definition ulift {S A} (x : option A) : ust S A := fun s => a ← x; Some (a, s).
(** [assert] *)
Definition uassert {S} (b : bool) : ust S unit := fun s => if b then Some (tt, s) else None.
Definition uwhen {S} (b : bool) (m : ust S unit) : ust S unit := if b then m else mret tt.

(** ** Ring buffers *)

Definition ring_idx (cap h i : Z) : Z := if h + i <? cap then h + i else h + i - cap.

Fixpoint ring_take {A} (l : list A) (h : Z) (n : nat) : list A :=
  match n with
  | O => []
  | S n' =>
      match aget l h with
      | Some x => x :: ring_take l (ring_idx (zlen l) h 1) n'
      | None => []
      end
  end.

Definition ring_view {A} (l : list A) (h : Z) (xs : list A) : Prop :=
  0 <= h < zlen l /\ zlen xs <= zlen l /\
  forall i, 0 <= i < zlen xs -> aget l (ring_idx (zlen l) h i) = aget xs i.

(** ** Automation *)

#[global] Arguments Z.gtb : simpl never.
#[global] Arguments Z.geb : simpl never.
#[global] Arguments Z.pow : simpl never.

Create HintDb carray.
Create Rewrite HintDb clen.

(** Case analysis on the tests of the program, closed by arithmetic. *)
Ltac zcase := repeat case_match; simplify_eq; lia.

(** Arithmetic with division and remainder by constants. *)
Ltac zdiv := Z.to_euclidean_division_equations; lia.

Ltac invc H := inversion H; subst; clear H.

(** ** Weakest preconditions of programs over a state

    [wp] also states that there is no undefined behaviour; [wlp] does not. *)

Definition wp {S A} (m : ust S A) (s : S) (Q : A -> S -> Prop) : Prop :=
  match m s with Some (x, s') => Q x s' | None => False end.
Definition wlp {S A} (m : ust S A) (s : S) (Q : A -> S -> Prop) : Prop :=
  match m s with Some (x, s') => Q x s' | None => True end.

Section Wp.
Context {S A B : Type}.
Implicit Types (m : ust S A) (f : A -> ust S B) (s : S).

Lemma ust_bind_run m f s :
  (m ≫= f) s = match m s with Some (x, s') => f x s' | None => None end.
Proof. unfold mbind, ust_bind. by destruct (m s) as [[x s']|]. Qed.

Lemma wp_bind m f s Q : wp m s (fun x s' => wp (f x) s' Q) -> wp (m ≫= f) s Q.
Proof. unfold wp. rewrite ust_bind_run. by destruct (m s) as [[x s']|]. Qed.
Lemma wlp_bind m f s Q : wlp m s (fun x s' => wlp (f x) s' Q) -> wlp (m ≫= f) s Q.
Proof. unfold wlp. rewrite ust_bind_run. by destruct (m s) as [[x s']|]. Qed.

Lemma wp_mono m s (Q Q' : A -> S -> Prop) : wp m s Q -> (forall x s', Q x s' -> Q' x s') -> wp m s Q'.
Proof. unfold wp. destruct (m s) as [[x s']|]; auto. Qed.
Lemma wlp_mono m s (Q Q' : A -> S -> Prop) : wlp m s Q -> (forall x s', Q x s' -> Q' x s') -> wlp m s Q'.
Proof. unfold wlp. destruct (m s) as [[x s']|]; auto. Qed.

Lemma wp_run m s Q : wp m s Q -> exists x s', m s = Some (x, s') /\ Q x s'.
Proof. unfold wp. destruct (m s) as [[x s']|]; [eauto|done]. Qed.
Lemma wlp_run m s Q x s' : wlp m s Q -> m s = Some (x, s') -> Q x s'.
Proof. unfold wlp. intros HQ E. by rewrite E in HQ. Qed.

Lemma wp_ret (x : A) s Q : Q x s -> wp (mret x) s Q.
Proof. done. Qed.
Lemma wlp_ret (x : A) s Q : Q x s -> wlp (mret x) s Q.
Proof. done. Qed.
End Wp.

(** ** Lemmas on arrays *)

Section Arrays.
Context {A : Type}.
Implicit Types (l xs dst src : list A) (i j : Z) (x y : A).

Lemma aget_nat l (n : nat) : aget l (Z.of_nat n) = l !! n.
Proof. unfold aget. rewrite (proj2 (Z.leb_le 0 _)) by lia. by rewrite Nat2Z.id. Qed.

Lemma aget_Some l i x : aget l i = Some x -> 0 <= i < zlen l.
Proof.
  unfold aget. destruct (Z.leb_spec 0 i); [|done].
  intros H1%lookup_lt_Some. lia.
Qed.

Lemma aget_is_Some l i : 0 <= i < zlen l -> exists x, aget l i = Some x.
Proof.
  intros Hi. unfold aget. rewrite (proj2 (Z.leb_le 0 _)) by lia.
  destruct (lookup_lt_is_Some_2 l (Z.to_nat i)) as [x Hx]; [lia|eauto].
Qed.

Lemma aget_None l i : i < 0 \/ zlen l <= i -> aget l i = None.
Proof.
  intros Hi. unfold aget. destruct (Z.leb_spec 0 i); [|done].
  apply lookup_ge_None. lia.
Qed.

Lemma aget_ext l xs :
  zlen l = zlen xs -> (forall i, 0 <= i < zlen l -> aget l i = aget xs i) -> l = xs.
Proof.
  intros Hlen Hext. apply list_eq. intros n.
  destruct (decide (n < length l)%nat).
  - rewrite <- !aget_nat. apply Hext. lia.
  - rewrite !lookup_ge_None_2 by lia. done.
Qed.

Lemma aset_Some l i x : 0 <= i < zlen l -> aset l i x = Some (<[Z.to_nat i := x]> l).
Proof.
  intros Hi. unfold aset. rewrite (proj2 (Z.leb_le _ _)), (proj2 (Z.ltb_lt _ _)) by lia. done.
Qed.

Lemma aset_inv l i x l' : aset l i x = Some l' ->
  0 <= i < zlen l /\ l' = <[Z.to_nat i := x]> l.
Proof.
  unfold aset. destruct (Z.leb_spec 0 i), (Z.ltb_spec i (zlen l)); cbn; intros; simplify_eq.
  split; [lia|done].
Qed.

Lemma aget_insert_eq l i x : 0 <= i < zlen l -> aget (<[Z.to_nat i := x]> l) i = Some x.
Proof.
  intros Hi. unfold aget. rewrite (proj2 (Z.leb_le 0 _)) by lia.
  apply list_lookup_insert_eq. lia.
Qed.

Lemma aget_insert_ne l i j x : 0 <= i -> i <> j -> aget (<[Z.to_nat i := x]> l) j = aget l j.
Proof.
  intros Hi Hij. unfold aget. destruct (Z.leb_spec 0 j); [|done].
  apply list_lookup_insert_ne. lia.
Qed.

Lemma aget_app_l l xs i : i < zlen l -> aget (l ++ xs) i = aget l i.
Proof.
  intros Hi. unfold aget. destruct (Z.leb_spec 0 i); [|done]. apply lookup_app_l. lia.
Qed.

Lemma aget_app_r l xs i : zlen l <= i -> aget (l ++ xs) i = aget xs (i - zlen l).
Proof.
  intros Hi. unfold aget. rewrite !(proj2 (Z.leb_le 0 _)) by lia.
  rewrite lookup_app_r by lia. f_equal. lia.
Qed.

Lemma aget_cons_0 x l : aget (x :: l) 0 = Some x.
Proof. done. Qed.

Lemma aget_cons_S x l i : 0 <= i -> aget (x :: l) (i + 1) = aget l i.
Proof.
  intros Hi. unfold aget. rewrite !(proj2 (Z.leb_le 0 _)) by lia.
  replace (Z.to_nat (i + 1)) with (S (Z.to_nat i)) by lia. done.
Qed.

Lemma aget_replicate (n : nat) x i : 0 <= i < Z.of_nat n -> aget (replicate n x) i = Some x.
Proof.
  intros Hi. unfold aget. rewrite (proj2 (Z.leb_le 0 _)) by lia.
  apply lookup_replicate_2. lia.
Qed.

Lemma aget_replicate_inv (n : nat) x i y : aget (replicate n x) i = Some y -> y = x.
Proof. unfold aget. case_match; [|done]. by intros [-> _]%lookup_replicate_1. Qed.

Lemma aget_insert_at l p x i :
  0 <= p <= zlen l ->
  aget (take (Z.to_nat p) l ++ x :: drop (Z.to_nat p) l) i =
  if i <? p then aget l i else if i =? p then Some x else aget l (i - 1).
Proof.
  intros Hp. assert (Hl : zlen (take (Z.to_nat p) l) = p) by (rewrite length_take; lia).
  destruct (Z.ltb_spec i p).
  - rewrite aget_app_l by lia. unfold aget. case_match; [|done]. apply lookup_take_lt. lia.
  - rewrite aget_app_r, Hl by lia. destruct (Z.eqb_spec i p) as [->|].
    + by rewrite Z.sub_diag.
    + replace (i - p) with ((i - p - 1) + 1) by lia. rewrite aget_cons_S by lia.
      unfold aget. rewrite !(proj2 (Z.leb_le 0 _)) by lia. rewrite lookup_drop. f_equal. lia.
Qed.

Lemma memcpy_Some dst d src o n :
  0 <= d -> 0 <= o -> 0 <= n -> d + n <= zlen dst -> o + n <= zlen src ->
  memcpy dst d src o n = Some (take (Z.to_nat d) dst ++ take (Z.to_nat n) (drop (Z.to_nat o) src) ++
    drop (Z.to_nat (d + n)) dst).
Proof. intros. unfold memcpy. case_match; [done|lia]. Qed.

Lemma memcpy_length dst d src o n r : memcpy dst d src o n = Some r -> length r = length dst.
Proof.
  unfold memcpy. case_match eqn:E; [|done]. intros [= <-].
  rewrite !length_app, !length_take, !length_drop. lia.
Qed.

(** Copying a prefix of [src] over the whole of a buffer of that size. *)
Lemma memcpy_fill dst src n :
  zlen dst = n -> n <= zlen src -> memcpy dst 0 src 0 n = Some (take (Z.to_nat n) src).
Proof.
  intros Hd Hs. rewrite memcpy_Some by lia. cbn [Z.to_nat take drop app].
  rewrite (drop_ge dst) by lia. by rewrite app_nil_r.
Qed.

End Arrays.

#[export] Hint Rewrite @length_app @length_insert @length_replicate @length_take @length_drop
  @length_map @length_cons : clen.
#[export] Hint Resolve aget_insert_eq aset_Some aget_is_Some : carray.

Ltac clen := autorewrite with clen in *; cbn [length] in *.

(** ** Lemmas on ring buffers *)

Section Rings.
Context {A : Type}.
Implicit Types (l xs : list A) (h : Z) (x : A).

Lemma ring_idx_bound cap h i :
  0 <= h < cap -> 0 <= i <= cap -> 0 <= ring_idx cap h i < cap.
Proof. unfold ring_idx. intros. destruct (Z.ltb_spec (h + i) cap); lia. Qed.

Lemma ring_idx_mod cap h i :
  0 <= h < cap -> 0 <= i < cap -> ring_idx cap h i = (h + i) mod cap.
Proof.
  intros Hh Hi. unfold ring_idx. destruct (Z.ltb_spec (h + i) cap).
  - by rewrite Z.mod_small by lia.
  - apply (Z.mod_unique_pos _ _ 1); lia.
Qed.

Lemma ring_view_nil l h : 0 <= h < zlen l -> ring_view l h [].
Proof. intros. split; [done|]. cbn. split; [lia|]. intros. lia. Qed.

Lemma ring_view_push l h xs x :
  ring_view l h xs -> zlen xs < zlen l ->
  ring_view (<[Z.to_nat (ring_idx (zlen l) h (zlen xs)) := x]> l) h (xs ++ [x]).
Proof.
  intros (Hh & Hn & Hv) Hlt. unfold ring_view. rewrite length_insert, length_app; cbn [length].
  split; [done|]. split; [lia|]. intros i Hi.
  pose proof (ring_idx_bound (zlen l) h (zlen xs)) as Hb.
  destruct (Z.eq_dec i (zlen xs)) as [->|Hne].
  - rewrite aget_insert_eq by lia. rewrite aget_app_r by lia. by rewrite Z.sub_diag.
  - rewrite aget_insert_ne, aget_app_l by (unfold ring_idx in *;
      zcase).
    apply Hv. lia.
Qed.

Lemma ring_view_pop l h x xs :
  ring_view l h (x :: xs) ->
  aget l h = Some x /\ ring_view l (ring_idx (zlen l) h 1) xs.
Proof.
  intros (Hh & Hn & Hv). cbn [length] in *. split.
  - specialize (Hv 0). replace (ring_idx (zlen l) h 0) with h in Hv.
    + rewrite Hv by lia. done.
    + unfold ring_idx. rewrite Z.add_0_r, (proj2 (Z.ltb_lt _ _)) by lia. done.
  - destruct (Z.eq_dec (zlen l) 1) as [H1|H1].
    + split; [|split].
      * unfold ring_idx. destruct (Z.ltb_spec (h + 1) (zlen l)); lia.
      * lia.
      * intros; lia.
    + split; [apply ring_idx_bound; lia|]. split; [lia|]. intros i Hi.
      rewrite <- (aget_cons_S x xs i), <- Hv by lia. f_equal.
      unfold ring_idx. zcase.
Qed.

Lemma ring_view_take l h xs : ring_view l h xs -> ring_take l h (length xs) = xs.
Proof.
  revert h. induction xs as [|x xs IH]; intros h Hv; [done|]. cbn.
  apply ring_view_pop in Hv as [-> Hv]. f_equal. by apply IH.
Qed.

Lemma ring_view_unique l h xs ys :
  ring_view l h xs -> ring_view l h ys -> length xs = length ys -> xs = ys.
Proof.
  intros H1%ring_view_take H2%ring_view_take Hlen. rewrite <- H1, <- H2. by rewrite Hlen.
Qed.

End Rings.

(** A ring of capacity [cap] between [h] and [t] that holds [xs] and has a free
    slot. *)
Record ring_ok {A} (cap h t : Z) (l xs : list A) : Prop := {
  ro_cap : cap = zlen l;
  ro_view : ring_view l h xs;
  ro_room : zlen xs < cap;
  ro_tail : t = ring_idx cap h (zlen xs)
}.

Definition ring_len (cap h t : Z) : Z := if h <=? t then t - h else t + cap - h.

Section RingOk.
Context {A : Type}.
Implicit Types (l xs : list A) (x : A).

Lemma ring_ok_head cap h t l xs : ring_ok cap h t l xs -> 0 <= h < cap /\ 0 <= t < cap.
Proof.
  intros [-> [Hh _] Hr ->]. split; [done|]. apply ring_idx_bound; lia.
Qed.

Lemma ring_ok_len cap h t l xs : ring_ok cap h t l xs -> ring_len cap h t = zlen xs.
Proof. intros [-> [Hh _] Hr ->]. unfold ring_len, ring_idx. zcase. Qed.

Lemma ring_ok_take cap h t l xs :
  ring_ok cap h t l xs -> ring_take l h (Z.to_nat (ring_len cap h t)) = xs.
Proof.
  intros Hr. rewrite (ring_ok_len _ _ _ _ _ Hr), Nat2Z.id. apply ring_view_take. by destruct Hr.
Qed.

Lemma ring_ok_empty cap h t l xs : ring_ok cap h t l xs -> (h =? t) = true <-> xs = [].
Proof.
  intros Hr. pose proof (ring_ok_len _ _ _ _ _ Hr) as Hl. unfold ring_len in Hl.
  pose proof (ring_ok_head _ _ _ _ _ Hr). split.
  - intros E. apply length_zero_iff_nil. zcase.
  - intros ->. cbn in Hl. zcase.
Qed.

Lemma ring_ok_pop cap h t l x xs :
  ring_ok cap h t l (x :: xs) ->
  aget l h = Some x /\
  ring_ok cap (if h + 1 >=? cap then 0 else h + 1) t l xs.
Proof.
  intros [-> Hv Hr ->]. destruct (ring_view_pop _ _ _ _ Hv) as [Hx Hv']. split; [done|].
  destruct Hv as [Hh _]. cbn [length] in *.
  assert (ring_idx (zlen l) h 1 = if h + 1 >=? zlen l then 0 else h + 1) as <-
    by (unfold ring_idx; zcase).
  split; [done|done|lia|]. unfold ring_idx. zcase.
Qed.

(** The slot written by a push, and the tail after it. *)
Lemma ring_ok_write cap h t l xs x :
  ring_ok cap h t l xs ->
  aset l t x = Some (<[Z.to_nat t := x]> l) /\
  ring_view (<[Z.to_nat t := x]> l) h (xs ++ [x]) /\
  (if t + 1 >=? cap then t + 1 - cap else t + 1) = ring_idx cap h ((zlen xs + 1) mod cap) /\
  (zlen xs + 1 < cap ->
    ring_ok cap h (if t + 1 >=? cap then t + 1 - cap else t + 1) (<[Z.to_nat t := x]> l) (xs ++ [x])).
Proof.
  intros Hr. pose proof (ring_ok_head _ _ _ _ _ Hr) as [Hh Ht]. destruct Hr as [-> Hv Hr E].
  assert (Hv' : ring_view (<[Z.to_nat t := x]> l) h (xs ++ [x])).
  { rewrite E. apply ring_view_push; [done|lia]. }
  split; [by apply aset_Some|]. split; [done|]. split.
  - destruct (Z.eq_dec (zlen xs + 1) (zlen l)) as [Ef|Ef].
    + rewrite Ef, Z.mod_same by lia. unfold ring_idx in *. zcase.
    + rewrite Z.mod_small by lia. unfold ring_idx in *. zcase.
  - intros Hlt. split; [by rewrite length_insert|done|rewrite length_app; cbn; lia|].
    rewrite length_app. cbn [length]. unfold ring_idx in *. zcase.
Qed.

(** A push that fills the ring leaves head and tail equal. *)
Lemma ring_ok_full cap h t l xs :
  ring_ok cap h t l xs ->
  (h =? (if t + 1 >=? cap then t + 1 - cap else t + 1)) = (zlen xs + 1 =? cap).
Proof.
  intros Hr. pose proof (ring_ok_head _ _ _ _ _ Hr) as [Hh Ht]. destruct Hr as [-> Hv Hr E].
  unfold ring_idx in E. zcase.
Qed.

(** The whole of a full ring, oldest first. *)
Lemma ring_full_copy l h xs :
  ring_view l h xs -> zlen xs = zlen l ->
  mapM (fun i => aget l ((h + i) mod zlen l)) (seqZ 0 (zlen l)) = Some xs.
Proof.
  intros (Hh & _ & Hv) Hfull. apply mapM_Some_2, Forall2_same_length_lookup_2.
  { rewrite length_seqZ. lia. }
  intros i y z Hy Hz. apply lookup_seqZ in Hy as [-> Hi].
  rewrite <- ring_idx_mod, Hv by lia. by rewrite Z.add_0_l, aget_nat.
Qed.

End RingOk.

(** ** Counting *)

Definition countb {A} (f : A -> bool) (l : list A) : Z := zlen (filter f l).

Lemma countb_cons {A} (f : A -> bool) x l : countb f (x :: l) = Z.b2z (f x) + countb f l.
Proof.
  unfold countb. rewrite filter_cons. destruct (f x); cbn [Is_true]; case_decide; cbn [length Z.b2z];
    (done || lia).
Qed.

Lemma countb_insert {A} (f : A -> bool) (l : list A) (i : nat) x y :
  l !! i = Some x -> countb f (<[i := y]> l) = countb f l - Z.b2z (f x) + Z.b2z (f y).
Proof.
  revert i. induction l as [|z l IH]; intros [|i] Hi; cbn in Hi; simplify_eq.
  - change (<[0%nat := y]> (x :: l)) with (y :: l). rewrite !countb_cons. lia.
  - change (<[S i := y]> (z :: l)) with (z :: <[i := y]> l). rewrite !countb_cons, (IH i) by done. lia.
Qed.

Lemma countb_pos {A} (f : A -> bool) l i x : l !! i = Some x -> f x = true -> 0 < countb f l.
Proof.
  revert i. induction l as [|z l IH]; intros [|i] Hi Hf; cbn in Hi; simplify_eq.
  - rewrite countb_cons, Hf. unfold countb. cbn. lia.
  - rewrite countb_cons. specialize (IH i Hi Hf). destruct (f z); cbn; lia.
Qed.

Lemma countb_nonneg {A} (f : A -> bool) l : 0 <= countb f l.
Proof. unfold countb. lia. Qed.

(** Two positions that satisfy [f]. *)
Lemma countb_two {A} (f : A -> bool) l (i j : nat) x y :
  l !! i = Some x -> l !! j = Some y -> i <> j -> f x = true -> f y = true -> 2 <= countb f l.
Proof.
  revert i j. induction l as [|z l IH]; intros [|i] [|j] Hi Hj Hij Hx Hy; cbn in *; simplify_eq.
  - rewrite countb_cons, Hx. pose proof (countb_pos f l j y Hj Hy). cbn. lia.
  - rewrite countb_cons, Hy. pose proof (countb_pos f l i x Hi Hx). cbn. lia.
  - rewrite countb_cons. specialize (IH i j Hi Hj ltac:(lia) Hx Hy). destruct (f z); cbn; lia.
Qed.

(** ** Filtered lists *)

Lemma filter_nodup {A} (P : A -> Prop) `{forall x, Decision (P x)} (l : list A) :
  (forall i j x, l !! i = Some x -> l !! j = Some x -> P x -> i = j) -> NoDup (filter P l).
Proof.
  induction l as [|x l IH]; intros Hinj; [constructor|].
  assert (IHl : NoDup (filter P l)).
  { apply IH. intros i j y Hi Hj HP. specialize (Hinj (S i) (S j) y Hi Hj HP). lia. }
  rewrite filter_cons. case_decide as HP; [|done]. constructor; [|done].
  intros [_ [j Hj]%list_elem_of_lookup]%list_elem_of_filter.
  specialize (Hinj 0%nat (S j) x eq_refl Hj HP). lia.
Qed.

(** ** Lists of lists under permutation *)

Section Joins.
Context {A : Type}.
Implicit Types (ls : list (list A)) (l : list A).

Lemma join_Permutation ls ls' : ls ≡ₚ ls' -> mjoin ls ≡ₚ mjoin ls'.
Proof.
  induction 1 as [| x l l' _ IH | x y l | l l' l'' _ IH1 _ IH2]; cbn.
  - done.
  - by rewrite IH.
  - solve_Permutation.
  - by rewrite IH1.
Qed.

Lemma join_insert ls (i : nat) l l0 :
  ls !! i = Some l0 -> mjoin (<[i := l]> ls) ++ l0 ≡ₚ mjoin ls ++ l.
Proof.
  revert i. induction ls as [|x ls IH]; intros [|i]; cbn; intros Hi; simplify_eq.
  - solve_Permutation.
  - by rewrite <- !(assoc (++)), IH.
Qed.

End Joins.

(** A list of lists: one of them, and the others. *)
Lemma join_split {A} (nss : list (list A)) k ns : nss !! k = Some ns ->
  exists others, mjoin nss ≡ₚ ns ++ others /\ (forall ns', mjoin (<[k := ns']> nss) ≡ₚ ns' ++ others) /\
    (forall j ns', nss !! j = Some ns' -> j <> k -> ns' ⊆ others).
Proof.
  intros H. exists (mjoin (take k nss) ++ mjoin (drop (S k) nss)). pose proof (lookup_lt_Some _ _ _ H). split_and!.
  - rewrite <- (take_drop_middle nss k ns H) at 1. rewrite join_app. cbn [mjoin list_join concat]. fold (mjoin (M := list) (A := A)). solve_Permutation.
  - intros ns'. rewrite insert_take_drop by done. rewrite join_app. solve_Permutation.
  - intros j ns' Hj Hne x Hx. apply elem_of_app. destruct (Nat.lt_trichotomy j k) as [L|[?|L]]; [left|done|right].
    + apply list_elem_of_join. exists ns'. split; [done|]. apply list_elem_of_lookup. exists j. by rewrite lookup_take_lt.
    + apply list_elem_of_join. exists ns'. split; [done|]. apply list_elem_of_lookup. exists (j - S k)%nat. rewrite lookup_drop. by replace (S k + (j - S k))%nat with j by lia.
Qed.

Lemma join_join_insert {A} (t : list (list (list A))) (i j : nat) row l l0 :
  t !! i = Some row -> row !! j = Some l0 ->
  mjoin (mjoin (<[i := <[j := l]> row]> t)) ++ l0 ≡ₚ mjoin (mjoin t) ++ l.
Proof.
  intros Hi Hj. pose proof (join_insert row j l l0 Hj) as H1.
  pose proof (join_insert t i (<[j := l]> row) row Hi) as H2.
  apply join_Permutation in H2. rewrite !join_app in H2.
  apply (Permutation_app_inv_r (mjoin row)).
  transitivity (mjoin (mjoin t) ++ (mjoin (<[j:=l]> row) ++ l0)).
  - rewrite (assoc (++)), <- H2. solve_Permutation.
  - rewrite H1. solve_Permutation.
Qed.

(** ** Shifts, masks and powers of two *)

Lemma int_of_small z : - 2 ^ 31 <= z < 2 ^ 31 -> int_of z = Some z.
Proof. intros Hz. unfold int_of. destruct (Z.leb_spec (- 2 ^ 31) z), (Z.ltb_spec z (2 ^ 31)); done || lia. Qed.

Lemma i32_id z : - 2 ^ 31 <= z < 2 ^ 31 -> i32 z = z.
Proof. intros H. unfold i32. rewrite Z.mod_small; lia. Qed.

Lemma ascii_code x y : Z.of_N (Ascii.N_of_ascii x) = Z.of_N (Ascii.N_of_ascii y) -> x = y.
Proof.
  intros E%N2Z.inj. rewrite <- (Ascii.ascii_N_embedding x), <- (Ascii.ascii_N_embedding y).
  by rewrite E.
Qed.

Lemma ascii_inj s1 s2 : ascii s1 = ascii s2 -> s1 = s2.
Proof.
  unfold ascii. revert s2. induction s1 as [|x s1 IH]; intros [|y s2]; cbn [String.list_ascii_of_string map]; [done..|].
  intros [= E1 E2]. f_equal; [|by apply IH]. apply ascii_code. congruence.
Qed.

Lemma i64_wrap z : - 2 ^ 63 <= z < 2 ^ 63 -> i64 (z mod 2 ^ 64) = z.
Proof. intros Hz. unfold i64. change (2 ^ 64) with (2 * 2 ^ 63) in *. zdiv. Qed.

Lemma pow2_pred (k : Z) : 2 ^ k - 1 = Z.ones k.
Proof. rewrite Z.ones_equiv. lia. Qed.

Lemma land_pow2_pred a k : 0 <= k -> Z.land a (2 ^ k - 1) = a mod 2 ^ k.
Proof. intros Hk. rewrite pow2_pred. by apply Z.land_ones. Qed.

Lemma lor_pow2_pred (k a b : Z) :
  0 <= k -> (Z.lor a (2 ^ k - 1) =? Z.lor b (2 ^ k - 1)) = (a / 2 ^ k =? b / 2 ^ k).
Proof.
  intros Hk. rewrite pow2_pred. apply Bool.eq_true_iff_eq.
  rewrite !Z.eqb_eq, <- !Z.shiftr_div_pow2 by done. split; intros H.
  - apply (f_equal (fun x => Z.shiftr x k)) in H.
    rewrite !Z.shiftr_lor, !(Z.shiftr_div_pow2 (Z.ones k)) in H by done.
    rewrite Z.ones_equiv, Z.div_small in H by lia. by rewrite !Z.lor_0_r in H.
  - apply Z.bits_inj'. intros i Hi. rewrite !Z.lor_spec.
    destruct (Z.lt_ge_cases i k).
    + rewrite Z.ones_spec_low by lia. by rewrite !orb_true_r.
    + replace i with ((i - k) + k) by lia. rewrite <- !Z.shiftr_spec by lia. by rewrite H.
Qed.

(** ** Words of 32 bits *)

Definition word (x : Z) : Prop := 0 <= x < 2 ^ 32.

Lemma testbit_u32 x i : 0 <= i -> Z.testbit (u32 x) i = (i <? 32) && Z.testbit x i.
Proof.
  intros Hi. unfold u32. destruct (Z.ltb_spec i 32).
  - by rewrite Z.mod_pow2_bits_low.
  - by rewrite Z.mod_pow2_bits_high by lia.
Qed.

Lemma word_u32 x : word (u32 x).
Proof. apply Z.mod_pos_bound. lia. Qed.

Lemma u32_word x : word x -> u32 x = x.
Proof. intros Hx. by apply Z.mod_small. Qed.

Lemma word_bit x i : word x -> 32 <= i -> Z.testbit x i = false.
Proof.
  intros Hx Hi. rewrite <- (u32_word x) by done. rewrite testbit_u32 by lia.
  by rewrite (proj2 (Z.ltb_ge i 32)).
Qed.

Lemma word_bits x : (forall i, 32 <= i -> Z.testbit x i = false) -> word x.
Proof.
  intros Hb. replace x with (u32 x); [apply word_u32|].
  apply Z.bits_inj'. intros i Hi. rewrite testbit_u32 by done.
  destruct (Z.ltb_spec i 32); [done|]. by rewrite Hb.
Qed.

Lemma testbit_shl x n i :
  0 <= i -> 0 <= n -> Z.testbit (shl x n) i = (i <? 32) && (n <=? i) && Z.testbit x (i - n).
Proof.
  intros Hi Hn. unfold shl. rewrite testbit_u32 by done.
  destruct (Z.ltb_spec i 32); [|done]. destruct (Z.leb_spec n i); cbn [andb].
  - by rewrite Z.shiftl_spec by lia.
  - by rewrite Z.shiftl_spec_low by lia.
Qed.

Lemma word_shl x n : word (shl x n).
Proof. apply word_u32. Qed.

Lemma word_lxor x y : word x -> word y -> word (Z.lxor x y).
Proof. intros Hx Hy. apply word_bits. intros i Hi. by rewrite Z.lxor_spec, !word_bit. Qed.

Lemma word_lor x y : word x -> word y -> word (Z.lor x y).
Proof. intros Hx Hy. apply word_bits. intros i Hi. by rewrite Z.lor_spec, !word_bit. Qed.

Lemma word_land x y : word y -> word (Z.land x y).
Proof.
  intros Hy. apply word_bits. intros i Hi. by rewrite Z.land_spec, (word_bit y), andb_false_r.
Qed.

Lemma word_shiftr x n : word x -> 0 <= n -> word (Z.shiftr x n).
Proof.
  intros Hx Hn. apply word_bits. intros i Hi. rewrite Z.shiftr_spec by lia.
  apply word_bit; [done|lia].
Qed.

(** Two words with the same 32 bits. *)
Lemma word_eq x y :
  word x -> word y -> (forall i, 0 <= i < 32 -> Z.testbit x i = Z.testbit y i) -> x = y.
Proof.
  intros Hx Hy Hb. apply Z.bits_inj'. intros i Hi. destruct (Z.lt_ge_cases i 32).
  - apply Hb. lia.
  - by rewrite !word_bit.
Qed.

(** ** Bytes *)

Definition bytes (l : list Z) : Prop := Forall (fun b => 0 <= b < 256) l.

Lemma bytes_cons b l : bytes (b :: l) -> 0 <= b < 256 /\ bytes l.
Proof. intros H. by apply Forall_cons in H. Qed.

Lemma bytes_drop n l : bytes l -> bytes (drop n l).
Proof. apply Forall_drop. Qed.

Lemma bytes_take n l : bytes l -> bytes (take n l).
Proof. apply Forall_take. Qed.

Lemma byte_bit b i : 0 <= b < 256 -> 8 <= i -> Z.testbit b i = false.
Proof.
  intros Hb Hi. change 256 with (2 ^ 8) in Hb. rewrite <- (Z.mod_small b (2 ^ 8)) by done.
  apply Z.mod_pow2_bits_high. lia.
Qed.

Lemma testbit_u8 x i : 0 <= i -> Z.testbit (u8 x) i = (i <? 8) && Z.testbit x i.
Proof.
  intros Hi. unfold u8. destruct (Z.ltb_spec i 8).
  - by rewrite Z.mod_pow2_bits_low.
  - by rewrite Z.mod_pow2_bits_high by lia.
Qed.

Lemma byte_u8 x : 0 <= u8 x < 256.
Proof. apply (Z.mod_pos_bound x (2 ^ 8)). lia. Qed.

Lemma byte_eq x y :
  0 <= x < 256 -> 0 <= y < 256 -> (forall i, 0 <= i < 8 -> Z.testbit x i = Z.testbit y i) -> x = y.
Proof.
  intros Hx Hy Hb. apply Z.bits_inj'. intros i Hi. destruct (Z.lt_ge_cases i 8).
  - apply Hb. lia.
  - by rewrite !byte_bit.
Qed.

(** A fact that holds of every byte, by computation. *)
Lemma byte_forall (f : Z -> bool) :
  forallb f (seqZ 0 256) = true -> forall b, 0 <= b < 256 -> f b = true.
Proof.
  intros H b Hb. rewrite forallb_forall in H. apply H, list_elem_of_In, elem_of_seqZ. lia.
Qed.

(** A value above [n] bits, and one below. *)
Lemma lor_shiftl a b n : 0 <= n -> 0 <= b < 2 ^ n -> Z.lor (Z.shiftl a n) b = a * 2 ^ n + b.
Proof.
  intros Hn Hb. rewrite <- Z.shiftl_mul_pow2, <- Z.add_lor_land by done.
  enough (Z.land (Z.shiftl a n) b = 0) by lia.
  apply Z.bits_inj'. intros i Hi. rewrite Z.land_spec, Z.bits_0. destruct (Z.lt_ge_cases i n).
  - by rewrite Z.shiftl_spec_low.
  - rewrite <- (Z.mod_small b (2 ^ n)), Z.mod_pow2_bits_high by lia. by rewrite andb_false_r.
Qed.

Lemma land_ones_mod a k : 0 <= k -> Z.land a (Z.ones k) = a mod 2 ^ k.
Proof. apply Z.land_ones. Qed.

(** ** Little-endian integers *)

(** The bytes of a little-endian integer of [n] bytes, and back. *)
Fixpoint put_le (n : nat) (v : Z) : list Z :=
  match n with O => [] | S n => v mod 256 :: put_le n (v / 256) end.
Fixpoint get_le (l : list Z) : Z :=
  match l with [] => 0 | b :: l => b + 256 * get_le l end.

Lemma put_le_length n v : length (put_le n v) = n.
Proof. revert v. induction n as [|n IH]; intros v; [done|]. cbn. by rewrite IH. Qed.

Lemma get_put_le n v : get_le (put_le n v) = v mod 256 ^ Z.of_nat n.
Proof.
  revert v. induction n as [|n IH]; intros v; cbn [put_le get_le].
  - by rewrite Z.mod_1_r.
  - rewrite IH, Nat2Z.inj_succ, Z.pow_succ_r by lia. rewrite Z.rem_mul_r by lia. done.
Qed.

Lemma put_le_bytes n v : bytes (put_le n v).
Proof.
  revert v. induction n as [|n IH]; intros v; constructor; [apply Z.mod_pos_bound; lia|apply IH].
Qed.

Lemma put_le_cons n b r : 0 <= b < 256 -> put_le (S n) (b + 256 * r) = b :: put_le n r.
Proof. intros Hb. cbn [put_le]. f_equal; [|f_equal]; zdiv. Qed.

Lemma put_le_app n m v : put_le (n + m) v = put_le n v ++ put_le m (v / 256 ^ Z.of_nat n).
Proof.
  revert v. induction n as [|n IH]; intros v; cbn [put_le Nat.add app].
  - by rewrite Z.div_1_r.
  - rewrite IH, Z.div_div, Nat2Z.inj_succ, Z.pow_succ_r by lia. done.
Qed.

Lemma put_le_mod n v : put_le n (v mod 256 ^ Z.of_nat n) = put_le n v.
Proof.
  revert v. induction n as [|n IH]; intros v; cbn [put_le]; [done|].
  rewrite Nat2Z.inj_succ, Z.pow_succ_r by lia. rewrite Z.rem_mul_r by lia. f_equal.
  - rewrite (Z.mul_comm 256), Z.mod_add by lia. by rewrite Z.mod_mod.
  - rewrite (Z.mul_comm 256), Z.div_add by lia. rewrite (Z.div_small (v mod 256)) by (apply Z.mod_pos_bound; lia).
    apply IH.
Qed.
