(* ===== verification/Buffer.v ===== *)
(** * Writing into a buffer of bytes

    What a sequence of bounds-checked writes leaves in an array: the pieces
    that were written and the parts that were kept. *)

From S2P Require Import Prelude.

(** [buf'] is [buf] with [w] at [b]. *)
Definition wrote (buf buf' : list Z) (b : Z) (w : list Z) : Prop :=
  length buf' = length buf /\ take (Z.to_nat (b + zlen w)) buf' = take (Z.to_nat b) buf ++ w /\
  drop (Z.to_nat (b + zlen w)) buf' = drop (Z.to_nat (b + zlen w)) buf.

(** [buf'] is [buf] up to [b]. *)
Definition kept (buf buf' : list Z) (b : Z) : Prop :=
  length buf' = length buf /\ take (Z.to_nat b) buf' = take (Z.to_nat b) buf.

Lemma wrote_nil buf b : wrote buf buf b [].
Proof. split_and!; [done| |done]. by rewrite Z.add_0_r, app_nil_r. Qed.

Lemma wrote_app buf1 buf2 buf3 b w1 w2 : 0 <= b ->
  wrote buf1 buf2 b w1 -> wrote buf2 buf3 (b + zlen w1) w2 -> wrote buf1 buf3 b (w1 ++ w2).
Proof.
  intros Hb (H1 & H2 & H3) (H4 & H5 & H6). split; [congruence|].
  rewrite length_app, Nat2Z.inj_add, Z.add_assoc, H5, H2, H6. split; [by rewrite app_assoc|].
  replace (Z.to_nat (b + zlen w1 + zlen w2)) with (Z.to_nat (b + zlen w1) + length w2)%nat by lia.
  by rewrite <- !drop_drop, H3.
Qed.

Lemma kept_trans buf1 buf2 buf3 b : kept buf1 buf2 b -> kept buf2 buf3 b -> kept buf1 buf3 b.
Proof. intros [H1 H2] [H3 H4]. split; congruence. Qed.

Lemma kept_le buf buf' b c : c <= b -> kept buf buf' b -> kept buf buf' c.
Proof.
  intros Hc [H1 H2]. split; [done|]. apply (f_equal (take (Z.to_nat c))) in H2.
  rewrite !take_take, !Nat.min_l in H2 by lia. done.
Qed.

Lemma wrote_kept buf buf' b w : 0 <= b <= zlen buf -> wrote buf buf' b w -> kept buf buf' b.
Proof.
  intros Hb (H1 & H2 & _). split; [done|]. apply (f_equal (take (Z.to_nat b))) in H2.
  rewrite take_take, take_app_le, take_take, !Nat.min_l in H2 by (rewrite ?length_take; lia). done.
Qed.

Lemma aset_wrote buf b x : 0 <= b < zlen buf -> exists buf', aset buf b x = Some buf' /\ wrote buf buf' b [x].
Proof.
  intros Hb. exists (<[Z.to_nat b := x]> buf). split; [by apply aset_Some|]. split; [apply length_insert|].
  cbn [length]. replace (Z.to_nat (b + Z.of_nat 1)) with (S (Z.to_nat b)) by lia. split.
  - rewrite (take_S_r _ _ x) by (apply list_lookup_insert_eq; lia). by rewrite take_insert_ge by lia.
  - apply drop_insert_lt. lia.
Qed.

(** A byte that was left out is written after those that follow it. *)
Lemma wrote_over buf b1 b2 b x w : aset b1 b x = Some b2 -> 0 <= b < zlen buf ->
  wrote buf b1 (b + 1) w -> wrote buf b2 b (x :: w).
Proof.
  intros Hs Hb (H3 & H4 & H5). rewrite aset_Some in Hs by lia. injection Hs as <-.
  split; [by rewrite length_insert|]. cbn [length].
  replace (Z.to_nat (b + Z.of_nat (S (length w)))) with (Z.to_nat (b + 1 + zlen w)) by lia.
  split; [|rewrite drop_insert_lt by lia; done].
  rewrite take_insert_lt, H4 by lia.
  replace (Z.to_nat (b + 1)) with (S (Z.to_nat b)) by lia.
  destruct (lookup_lt_is_Some_2 buf (Z.to_nat b)) as [y Hy]; [lia|]. rewrite (take_S_r _ _ y Hy).
  rewrite <- app_assoc, insert_app_r_alt by (rewrite length_take; lia). rewrite length_take, Nat.min_l, Nat.sub_diag by lia. done.
Qed.

Lemma memcpy_wrote buf b src o n : 0 <= b -> 0 <= o -> 0 <= n -> o + n <= zlen src -> b + n <= zlen buf ->
  exists buf', memcpy buf b src o n = Some buf' /\ wrote buf buf' b (take (Z.to_nat n) (drop (Z.to_nat o) src)).
Proof.
  intros Hb Ho Hn Hs Hl. rewrite memcpy_Some by lia. eexists. split; [done|].
  assert (zlen (take (Z.to_nat n) (drop (Z.to_nat o) src)) = n) as E by (rewrite length_take, length_drop; lia). unfold wrote. rewrite E.
  assert (length (take (Z.to_nat b) buf ++ take (Z.to_nat n) (drop (Z.to_nat o) src)) = Z.to_nat (b + n)) as E2
    by (rewrite length_app, length_take; lia).
  split; [rewrite app_assoc, length_app, E2, length_drop; lia|]. rewrite app_assoc.
  split; [by apply take_app_length'|by apply drop_app_length'].
Qed.

Lemma aget_drop (l : list Z) s x rest : 0 <= s -> drop (Z.to_nat s) l = x :: rest ->
  aget l s = Some x /\ drop (Z.to_nat (s + 1)) l = rest.
Proof.
  intros Hs Hd. split.
  - unfold aget. rewrite (proj2 (Z.leb_le _ _)) by lia. rewrite <- (Nat.add_0_r (Z.to_nat s)), <- lookup_drop. by rewrite Hd.
  - replace (Z.to_nat (s + 1)) with (Z.to_nat s + 1)%nat by lia. by rewrite <- drop_drop, Hd.
Qed.

(** ** Pieces *)

Definition slice (buf : list Z) (o n : Z) : list Z := take (Z.to_nat n) (drop (Z.to_nat o) buf).

(** The bytes [l] are at [o]. *)
Definition piece (buf : list Z) (o : Z) (l : list Z) : Prop := slice buf o (zlen l) = l.

Lemma piece_nil buf o : piece buf o [].
Proof. done. Qed.

Lemma piece_app buf o l1 l2 : 0 <= o -> piece buf o (l1 ++ l2) <-> piece buf o l1 /\ piece buf (o + zlen l1) l2.
Proof.
  intros Ho. unfold piece, slice. rewrite length_app, !Nat2Z.id.
  replace (Z.to_nat (Z.of_nat (length l1 + length l2))) with (length l1 + length l2)%nat by lia.
  replace (Z.to_nat (o + zlen l1)) with (Z.to_nat o + length l1)%nat by lia.
  rewrite <- take_take_drop, <- drop_drop. split.
  - intros H. assert (length (take (length l1) (drop (Z.to_nat o) buf)) = length l1 \/
      take (length l2) (drop (length l1) (drop (Z.to_nat o) buf)) = []) as [Hl|Hl].
    { rewrite length_take. destruct (Nat.le_gt_cases (length l1) (length (drop (Z.to_nat o) buf))); [left; lia|right].
      rewrite (drop_ge (drop _ _)) by lia. apply take_nil. }
    + by apply app_inj_1 in H.
    + rewrite Hl, app_nil_r in H. assert (length l2 = 0)%nat as E2.
      { apply (f_equal length) in H. rewrite length_take, length_app in H. lia. }
      destruct l2; [|done]. rewrite app_nil_r in H. done.
  - intros [-> ->]. done.
Qed.

Lemma piece_wrote buf buf' b w : 0 <= b <= zlen buf -> wrote buf buf' b w -> piece buf' b w.
Proof.
  intros Hb (_ & H & _). unfold piece, slice. rewrite Nat2Z.id. apply (f_equal (drop (Z.to_nat b))) in H.
  rewrite drop_app_length' in H by (rewrite length_take; lia). rewrite <- H at 2. rewrite skipn_firstn_comm. f_equal. lia.
Qed.

Lemma piece_kept buf buf' b o l : 0 <= o -> o + zlen l <= b -> kept buf buf' b -> piece buf o l -> piece buf' o l.
Proof.
  intros Ho Hb [_ H]. unfold piece, slice. rewrite Nat2Z.id. intros Hl.
  assert (forall x : list Z, take (length l) (drop (Z.to_nat o) x) = drop (Z.to_nat o) (take (Z.to_nat o + length l) (take (Z.to_nat b) x))) as E.
  { intros x. rewrite take_take, Nat.min_l by lia. rewrite skipn_firstn_comm. f_equal. lia. }
  by rewrite (E buf'), H, <- E.
Qed.

(** A piece behind what was written. *)
Lemma piece_behind buf buf' b w o l : 0 <= b -> b + zlen w <= o -> wrote buf buf' b w -> piece buf o l -> piece buf' o l.
Proof.
  intros Hb Ho (_ & _ & H). unfold piece, slice. intros Hl. rewrite <- Hl at 2.
  replace (Z.to_nat o) with (Z.to_nat (b + zlen w) + (Z.to_nat o - Z.to_nat (b + zlen w)))%nat by lia.
  by rewrite <- !drop_drop, H.
Qed.

(** Writes in the order of falling addresses. *)
Lemma wrote_app_rev buf1 buf2 buf3 b w1 w2 : 0 <= b -> b + zlen w1 + zlen w2 <= zlen buf1 ->
  wrote buf1 buf2 (b + zlen w1) w2 -> wrote buf2 buf3 b w1 -> wrote buf1 buf3 b (w1 ++ w2).
Proof.
  intros Hb Hl (H1 & H2 & H3) (H4 & H5 & H6). split; [congruence|].
  rewrite length_app, Nat2Z.inj_add, Z.add_assoc.
  assert (take (Z.to_nat b) buf2 = take (Z.to_nat b) buf1) as E1.
  { apply (f_equal (take (Z.to_nat b))) in H2.
    rewrite take_take, take_app_le, take_take, !Nat.min_l in H2 by (rewrite ?length_take; lia). done. }
  assert (drop (Z.to_nat (b + zlen w1 + zlen w2)) buf3 = drop (Z.to_nat (b + zlen w1 + zlen w2)) buf2) as E2.
  { replace (Z.to_nat (b + zlen w1 + zlen w2)) with (Z.to_nat (b + zlen w1) + length w2)%nat by lia.
    by rewrite <- !drop_drop, H6. }
  split; [|congruence].
  replace (Z.to_nat (b + zlen w1 + zlen w2)) with (Z.to_nat (b + zlen w1) + length w2)%nat by lia.
  rewrite <- take_take_drop, H5, H6, E1, <- app_assoc. f_equal. f_equal.
  apply (f_equal (drop (Z.to_nat (b + zlen w1)))) in H2. rewrite drop_app_length' in H2 by (rewrite length_take; lia).
  rewrite <- H2 at 2. rewrite skipn_firstn_comm. f_equal. lia.
Qed.

(** [memcpy] of a whole list. *)
Definition put (buf : list Z) (o : Z) (l : list Z) : option (list Z) := memcpy buf o l 0 (zlen l).

Lemma put_wrote buf o l : 0 <= o -> o + zlen l <= zlen buf -> exists buf', put buf o l = Some buf' /\ wrote buf buf' o l.
Proof.
  intros Ho Hl. destruct (memcpy_wrote buf o l 0 (zlen l)) as (buf' & E & W); [lia..|].
  rewrite drop_0, Nat2Z.id, take_ge in W by lia. by exists buf'.
Qed.

Lemma wrote_keeps buf buf' b w c : 0 <= b <= zlen buf -> c <= b -> wrote buf buf' b w -> kept buf buf' c.
Proof. intros Hb Hc H. apply (kept_le _ _ b); [done|]. by apply (wrote_kept _ _ b w). Qed.
