(* ===== verification/Lock.v ===== *)
(** * Locks (src/lock.h)

    The spinlock and the reader-writer lock built on atomic operations, as
    step relations of any number of threads: each step is one atomic access
    to the lock's words.  Memory is sequentially consistent, which the
    [__sync] operations and their barriers provide. *)

From S2P Require Import Prelude.

(** ** The reader-writer lock *)

(** A thread between its accesses: [RSpin] loops while [write] is set, [RInc]
    is about to increment [read], [RTest] tests [write] again, [RBack] undoes
    the increment, [RHold] is between [rwlock_rlock] and [rwlock_runlock];
    [WSpin] test-and-sets [write], [WWait] waits for the readers, [WHold] is
    between [rwlock_wlock] and [rwlock_wunlock]. *)
Inductive rwpc := RWOut | RSpin | RInc | RTest | RBack | RHold | WSpin | WWait | WHold.

Record rwlock := RWLock { rw_read : Z; rw_write : Z }.

Definition rwlock_init : rwlock := RWLock 0 0.

(** One access by a thread at a point of [rwlock_rlock], [rwlock_runlock],
    [rwlock_wlock] or [rwlock_wunlock]. *)
Inductive rwaccess : rwpc -> rwlock -> rwpc -> rwlock -> Prop :=
  | rw_rlock l : rwaccess RWOut l RSpin l
  | rw_rlock_busy r w : w <> 0 -> rwaccess RSpin (RWLock r w) RSpin (RWLock r w)
  | rw_rlock_free r w : w = 0 -> rwaccess RSpin (RWLock r w) RInc (RWLock r w)
  | rw_rlock_inc r w : rwaccess RInc (RWLock r w) RTest (RWLock (r + 1) w)
  | rw_rlock_fail r w : w <> 0 -> rwaccess RTest (RWLock r w) RBack (RWLock r w)
  | rw_rlock_ok r w : w = 0 -> rwaccess RTest (RWLock r w) RHold (RWLock r w)
  | rw_rlock_dec r w : rwaccess RBack (RWLock r w) RSpin (RWLock (r - 1) w)
  | rw_runlock r w : rwaccess RHold (RWLock r w) RWOut (RWLock (r - 1) w)
  | rw_wlock l : rwaccess RWOut l WSpin l
  | rw_wlock_busy r w : w <> 0 -> rwaccess WSpin (RWLock r w) WSpin (RWLock r 1)
  | rw_wlock_take r w : w = 0 -> rwaccess WSpin (RWLock r w) WWait (RWLock r 1)
  | rw_wlock_wait r w : r <> 0 -> rwaccess WWait (RWLock r w) WWait (RWLock r w)
  | rw_wlock_ok r w : r = 0 -> rwaccess WWait (RWLock r w) WHold (RWLock r w)
  | rw_wunlock r w : rwaccess WHold (RWLock r w) RWOut (RWLock r 0).

(** Thread [i] makes an access. *)
Inductive rwstep : list rwpc * rwlock -> list rwpc * rwlock -> Prop :=
  | rwstep_thread i pcs pc pc' l l' :
      pcs !! i = Some pc -> rwaccess pc l pc' l' ->
      rwstep (pcs, l) (<[i := pc']> pcs, l').

Definition counted (pc : rwpc) : bool := match pc with RTest | RBack | RHold => true | _ => false end.
Definition reading (pc : rwpc) : bool := match pc with RHold => true | _ => false end.
Definition claiming (pc : rwpc) : bool := match pc with WWait | WHold => true | _ => false end.
Definition writing (pc : rwpc) : bool := match pc with WHold => true | _ => false end.

Definition rw_start (threads : nat) : list rwpc * rwlock := (replicate threads RWOut, rwlock_init).

Record rw_wf (s : list rwpc * rwlock) : Prop := {
  rw_count : rw_read s.2 = countb counted s.1;
  rw_claim : rw_write s.2 = countb claiming s.1;
  rw_one : countb claiming s.1 <= 1;
  rw_excl : 0 < countb writing s.1 -> countb reading s.1 = 0
}.

(** ** The spinlock *)

Inductive sppc := SPOut | SPSpin | SPHold.

Definition spinlock_init : Z := 0.

Inductive spaccess : sppc -> Z -> sppc -> Z -> Prop :=
  | sp_lock l : spaccess SPOut l SPSpin l
  | sp_busy l : l <> 0 -> spaccess SPSpin l SPSpin 1
  | sp_take l : l = 0 -> spaccess SPSpin l SPHold 1
  | sp_unlock l : spaccess SPHold l SPOut 0.

Inductive spstep : list sppc * Z -> list sppc * Z -> Prop :=
  | spstep_thread i pcs pc pc' l l' :
      pcs !! i = Some pc -> spaccess pc l pc' l' -> spstep (pcs, l) (<[i := pc']> pcs, l').

Definition sp_holding (pc : sppc) : bool := match pc with SPHold => true | _ => false end.
Definition sp_start (threads : nat) : list sppc * Z := (replicate threads SPOut, spinlock_init).

Record sp_wf (s : list sppc * Z) : Prop := {
  sp_count : s.2 = countb sp_holding s.1;
  sp_one : countb sp_holding s.1 <= 1
}.

(** ** Invariants *)

Lemma countb_replicate {A} (f : A -> bool) x n : f x = false -> countb f (replicate n x) = 0.
Proof. intros Hf. induction n as [|n IH]; [done|]. cbn [replicate]. by rewrite countb_cons, Hf, IH. Qed.

Lemma countb_le {A} (f g : A -> bool) l :
  (forall x, f x = true -> g x = true) -> countb f l <= countb g l.
Proof.
  intros Hfg. induction l as [|x l IH]; [done|]. rewrite !countb_cons.
  specialize (Hfg x). destruct (f x), (g x); cbn; lia.
Qed.

Lemma rwstep_wf s s' : rw_wf s -> rwstep s s' -> rw_wf s'.
Proof.
  intros HW Hst. destruct Hst as [i pcs pc pc' l l' Hi Ha]. destruct HW as [C K O E]. cbn [fst snd] in *.
  pose proof (countb_le reading counted pcs) as Hrc.
  pose proof (countb_nonneg reading pcs). pose proof (countb_nonneg claiming pcs).
  pose proof (countb_le writing claiming pcs) as Hwc. pose proof (countb_nonneg writing pcs).
  assert (reading pc = true -> 0 < countb reading pcs) by (intros; by eapply countb_pos).
  assert (writing pc = true -> 0 < countb writing pcs) by (intros; by eapply countb_pos).
  assert (claiming pc = true -> 0 < countb claiming pcs) by (intros; by eapply countb_pos).
  lapply Hrc; [|by intros []]. lapply Hwc; [|by intros []]. intros Hwc' Hrc'.
  split; cbn [fst snd]; rewrite !(countb_insert _ _ _ _ _ Hi); destruct Ha; cbn in *;
    simplify_eq; try lia; intros; lia.
Qed.

Lemma rw_reachable n s : rtc rwstep (rw_start n) s -> rw_wf s.
Proof.
  intros H. assert (H0 : rw_wf (rw_start n)).
  { split; cbn; rewrite ?countb_replicate by done; lia. }
  revert H0. induction H as [|s1 s2 s3 Hst _ IH]; [done|]. intros H1. apply IH. by eapply rwstep_wf.
Qed.

Lemma spstep_wf s s' : sp_wf s -> spstep s s' -> sp_wf s'.
Proof.
  intros HW Hst. destruct Hst as [i pcs pc pc' l l' Hi Ha]. destruct HW as [C O]. cbn [fst snd] in *.
  pose proof (countb_nonneg sp_holding pcs).
  assert (sp_holding pc = true -> 0 < countb sp_holding pcs) by (intros; by eapply countb_pos).
  split; cbn [fst snd]; rewrite !(countb_insert _ _ _ _ _ Hi); destruct Ha; cbn in *;
    simplify_eq; lia.
Qed.

Lemma sp_reachable n s : rtc spstep (sp_start n) s -> sp_wf s.
Proof.
  intros H. assert (H0 : sp_wf (sp_start n)).
  { unfold sp_start, spinlock_init. split; cbn; rewrite ?countb_replicate by done; lia. }
  revert H0. induction H as [|s1 s2 s3 Hst _ IH]; [done|]. intros H1. apply IH. by eapply spstep_wf.
Qed.

(** ** Properties *)

(** Whatever the number of threads and their interleaving, while a thread
    is between [rwlock_wlock] and [rwlock_wunlock] no other thread is between
    a lock and an unlock, for reading or for writing. *)
Lemma rwlock_exclusion n pcs l i j pc :
  rtc rwstep (rw_start n) (pcs, l) ->
  pcs !! i = Some WHold -> pcs !! j = Some pc -> i <> j -> reading pc = false /\ writing pc = false.
Proof.
  intros [_ _ O E]%rw_reachable Hi Hj Hij. cbn [fst snd] in *. split.
  - destruct (reading pc) eqn:Er; [|done].
    pose proof (countb_pos reading pcs j pc Hj Er). pose proof (countb_pos writing pcs i _ Hi eq_refl).
    lia.
  - destruct (writing pc) eqn:Ew; [|done].
    pose proof (countb_two claiming pcs i j WHold pc Hi Hj Hij eq_refl) as H2.
    lapply H2; [lia|]. by destruct pc.
Qed.

(** At most one thread at a time is between [spinlock_lock] and
    [spinlock_unlock]. *)
Lemma spinlock_exclusion n pcs l i j :
  rtc spstep (sp_start n) (pcs, l) ->
  pcs !! i = Some SPHold -> pcs !! j = Some SPHold -> i = j.
Proof.
  intros [_ O]%sp_reachable Hi Hj. cbn [fst snd] in *.
  destruct (Nat.eq_dec i j) as [|Hij]; [done|].
  pose proof (countb_two sp_holding pcs i j _ _ Hi Hj Hij eq_refl eq_refl). lia.
Qed.

(** C10: for any number of threads and any interleaving: while a thread is
    between [rwlock_wlock] and [rwlock_wunlock] no other thread is between a
    lock and an unlock, for reading or for writing; and at most one thread is
    between [spinlock_lock] and [spinlock_unlock]. *)
Theorem lock_exclusion n rw l sp k i j :
  rtc rwstep (rw_start n) (rw, l) -> rtc spstep (sp_start n) (sp, k) ->
  (forall pc, rw !! i = Some WHold -> rw !! j = Some pc -> i <> j -> reading pc = false /\ writing pc = false) /\
  (sp !! i = Some SPHold -> sp !! j = Some SPHold -> i = j).
Proof.
  intros Hrw Hsp. split; [intros pc|]; [by apply (rwlock_exclusion n rw l)|by apply (spinlock_exclusion n sp k)].
Qed.

(** ** Concrete runs *)

(** Thread 0 writes while thread 1 increments [read], sees the writer and
    backs off. *)
Lemma demo_rw : rtc rwstep (rw_start 2) ([WHold; RBack], RWLock 1 1).
Proof.
  eapply rtc_l; [by apply (rwstep_thread 1 _ RWOut RSpin); [|apply rw_rlock]|].
  eapply rtc_l; [by apply (rwstep_thread 1 _ RSpin RInc); [|apply rw_rlock_free]|].
  eapply rtc_l; [by apply (rwstep_thread 0 _ RWOut WSpin); [|apply rw_wlock]|].
  eapply rtc_l; [by apply (rwstep_thread 0 _ WSpin WWait); [|apply rw_wlock_take]|].
  eapply rtc_l; [by apply (rwstep_thread 0 _ WWait WHold); [|apply rw_wlock_ok]|].
  eapply rtc_l; [by apply (rwstep_thread 1 _ RInc RTest); [|apply rw_rlock_inc]|].
  eapply rtc_l; [by apply (rwstep_thread 1 _ RTest RBack); [|apply rw_rlock_fail]|].
  apply rtc_refl.
Qed.

Lemma demo_sp : rtc spstep (sp_start 2) ([SPSpin; SPHold], 1).
Proof.
  eapply rtc_l; [by apply (spstep_thread 1 _ SPOut SPSpin); [|apply sp_lock]|].
  eapply rtc_l; [by apply (spstep_thread 1 _ SPSpin SPHold); [|apply sp_take]|].
  eapply rtc_l; [by apply (spstep_thread 0 _ SPOut SPSpin); [|apply sp_lock]|].
  eapply rtc_l; [by apply (spstep_thread 0 _ SPSpin SPSpin); [|apply sp_busy]|].
  apply rtc_refl.
Qed.

Lemma lock_exclusion_witness : (reading RBack = false /\ writing RBack = false) /\ 1%nat = 1%nat.
Proof.
  split.
  - exact (proj1 (lock_exclusion 2 _ _ _ _ 0 1 demo_rw demo_sp) RBack eq_refl eq_refl ltac:(discriminate)).
  - exact (proj2 (lock_exclusion 2 _ _ _ _ 1 1 demo_rw demo_sp) eq_refl eq_refl).
Defined.
