(* ===== verification/Queue.v ===== *)
(** * Message queues (src/queue.c)

    The per-service ring buffer of messages and the global list of runnable
    queues.  Pointers to [struct queue] are integers ([0] is [NULL]); the
    C heap restricted to queues is the map [qw_heap].  An operation returns
    [None] where the C program would dereference a pointer that is not a live
    queue, index outside [mqueue] or fail an [assert]. *)

From S2P Require Import Prelude.

Definition QUEUE_SIZE : Z := 64.
Definition QUEUE_OVERLOAD : Z := 1024.

(** [struct message]. *)
Record message := Message {
  m_source : Z;
  m_session : Z;
  m_data : Z;
  m_size : Z
}.

(** The bytes [pixel_alloc] returns are zero. *)
Definition message0 : message := Message 0 0 0 0.

(** [struct queue]; the spinlock is in [Lock]. *)
Record queue := Queue {
  q_handle : Z;
  q_cap : Z;
  q_head : Z;
  q_tail : Z;
  q_global : Z;
  q_release : Z;
  q_overload : Z;
  q_overload_threshold : Z;
  q_mqueue : list message;
  q_next : Z
}.

(** [struct queue_global Q] and the queues it can reach. *)
Record qworld := QWorld {
  qw_heap : gmap Z queue;
  qw_head : Z;
  qw_tail : Z
}.

Definition set_next (n : Z) (q : queue) : queue :=
  Queue (q_handle q) (q_cap q) (q_head q) (q_tail q) (q_global q) (q_release q)
        (q_overload q) (q_overload_threshold q) (q_mqueue q) n.

Definition set_global (g : Z) (q : queue) : queue :=
  Queue (q_handle q) (q_cap q) (q_head q) (q_tail q) g (q_release q)
        (q_overload q) (q_overload_threshold q) (q_mqueue q) (q_next q).

Definition set_release (r : Z) (q : queue) : queue :=
  Queue (q_handle q) (q_cap q) (q_head q) (q_tail q) (q_global q) r
        (q_overload q) (q_overload_threshold q) (q_mqueue q) (q_next q).

Definition set_overload (o thr : Z) (q : queue) : queue :=
  Queue (q_handle q) (q_cap q) (q_head q) (q_tail q) (q_global q) (q_release q)
        o thr (q_mqueue q) (q_next q).

Definition set_ring (cap head tail : Z) (ms : list message) (q : queue) : queue :=
  Queue (q_handle q) cap head tail (q_global q) (q_release q)
        (q_overload q) (q_overload_threshold q) ms (q_next q).

Definition qupdate (p : Z) (q : queue) (w : qworld) : qworld :=
  QWorld (<[p := q]> (qw_heap w)) (qw_head w) (qw_tail w).

Definition queue_init (w : qworld) : qworld := QWorld (qw_heap w) 0 0.

Definition queue_push_global (p : Z) (w : qworld) : option qworld :=
  if negb (qw_tail w =? 0) then
    t ← qw_heap w !! qw_tail w;
    Some (QWorld (<[qw_tail w := set_next p t]> (qw_heap w)) (qw_head w) p)
  else Some (QWorld (qw_heap w) p p).

Definition queue_pop_global (w : qworld) : option (Z * qworld) :=
  let p := qw_head w in
  if p =? 0 then Some (0, w) else
  q ← qw_heap w !! p;
  let head := q_next q in
  let tail := if head =? 0 then 0 else qw_tail w in
  Some (p, QWorld (<[p := set_next 0 q]> (qw_heap w)) head tail).

(** The loop that copies [cap] messages from the full ring, oldest first. *)
Definition expand_copy (q : queue) : option (list message) :=
  mapM (fun i => aget (q_mqueue q) ((q_head q + i) mod q_cap q)) (seqZ 0 (q_cap q)).

Definition _queue_expand (q : queue) : option queue :=
  copied ← expand_copy q;
  let newq := copied ++ replicate (Z.to_nat (q_cap q)) message0 in
  Some (set_ring (q_cap q * 2) 0 (q_cap q) newq q).

(** The part of [queue_push] that works on the ring. *)
Definition queue_enqueue (m : message) (q : queue) : option queue :=
  ms ← aset (q_mqueue q) (q_tail q) m;
  let tail := q_tail q + 1 in
  let tail := if tail >=? q_cap q then 0 else tail in
  let q := set_ring (q_cap q) (q_head q) tail ms q in
  if q_head q =? q_tail q then _queue_expand q else Some q.

Definition queue_push (p : Z) (m : message) (w : qworld) : option qworld :=
  q ← qw_heap w !! p;
  q ← queue_enqueue m q;
  if q_global q =? 0 then
    queue_push_global p (qupdate p (set_global 1 q) w)
  else Some (qupdate p q w).

(** [while (len > q->overload_threshold) { ... }]; the threshold doubles, so
    [log2_up len] iterations are enough from any positive threshold. *)
Fixpoint overload_loop (fuel : nat) (len overload thr : Z) : option (Z * Z) :=
  if len >? thr then
    match fuel with
    | O => None
    | S fuel => overload_loop fuel len len (thr * 2)
    end
  else Some (overload, thr).

Definition overload_fuel (len : Z) : nat := S (Z.to_nat (Z.log2_up len)).

(** [queue_pop]: [inl m] when a message is returned ([ret = 0]), [inr tt] on
    the empty queue ([ret = 1]). *)
Definition queue_dequeue (q : queue) : option ((message + unit) * queue) :=
  if negb (q_head q =? q_tail q) then
    m ← aget (q_mqueue q) (q_head q);
    let head := q_head q + 1 in
    let head := if head >=? q_cap q then 0 else head in
    let len := q_tail q - head in
    let len := if len <? 0 then len + q_cap q else len in
    '(o, thr) ← overload_loop (overload_fuel len) len (q_overload q) (q_overload_threshold q);
    Some (inl m, set_overload o thr (set_ring (q_cap q) head (q_tail q) (q_mqueue q) q))
  else
    Some (inr tt, set_global 0 (set_overload (q_overload q) QUEUE_OVERLOAD q)).

Definition queue_pop (p : Z) (w : qworld) : option ((message + unit) * qworld) :=
  q ← qw_heap w !! p;
  '(r, q) ← queue_dequeue q;
  Some (r, qupdate p q w).

(** [queue_new]: [p] is the address the allocator returned; the structure is
    zeroed before the fields are set. *)
Definition queue0 (handle : Z) : queue :=
  Queue handle QUEUE_SIZE 0 0 1 0 0 QUEUE_OVERLOAD
        (replicate (Z.to_nat QUEUE_SIZE) message0) 0.

Definition queue_new (p handle : Z) (w : qworld) : qworld := qupdate p (queue0 handle) w.

(** [_queue_drop]: the messages given to [drop], in order. *)
Fixpoint _queue_drop (fuel : nat) (q : queue) : option (list message * queue) :=
  match fuel with
  | O => None
  | S fuel =>
      '(r, q) ← queue_dequeue q;
      match r with
      | inl m => '(ms, q) ← _queue_drop fuel q; Some (m :: ms, q)
      | inr _ => Some ([], q)
      end
  end.

(** [queue_free]: the messages dropped, and the heap without the queue when it
    was released. *)
Definition queue_free (p : Z) (w : qworld) : option (list message * qworld) :=
  q ← qw_heap w !! p;
  if negb (q_release q =? 0) then
    '(ms, _) ← _queue_drop (S (length (q_mqueue q))) q;
    Some (ms, QWorld (delete p (qw_heap w)) (qw_head w) (qw_tail w))
  else
    w ← queue_push_global p w;
    Some ([], w).

Definition queue_mark_free (p : Z) (w : qworld) : option qworld :=
  q ← qw_heap w !! p;
  if negb (q_release q =? 0) then None else
  let w := qupdate p (set_release 1 q) w in
  if q_global q =? 0 then queue_push_global p w else Some w.

Definition queue_handle (p : Z) (w : qworld) : option Z := q_handle <$> qw_heap w !! p.

Definition queue_length (q : queue) : Z :=
  if q_head q <=? q_tail q then q_tail q - q_head q else q_tail q + q_cap q - q_head q.

Definition queue_len (p : Z) (w : qworld) : option Z := queue_length <$> qw_heap w !! p.

Definition queue_overload (p : Z) (w : qworld) : option (Z * qworld) :=
  q ← qw_heap w !! p;
  if negb (q_overload q =? 0) then
    Some (q_overload q, qupdate p (set_overload 0 (q_overload_threshold q) q) w)
  else Some (0, w).

(** ** Abstract specification

    A queue is a list of messages, the global list a list of queue
    addresses. *)

Record aqueue := AQueue {
  aq_handle : Z;
  aq_msgs : list message;
  aq_global : Z;
  aq_release : Z;
  aq_overload : Z;
  aq_threshold : Z
}.

Record aworld := AWorld {
  aw_queues : gmap Z aqueue;
  aw_ready : list Z
}.

Definition aupdate (p : Z) (q : aqueue) (a : aworld) : aworld :=
  AWorld (<[p := q]> (aw_queues a)) (aw_ready a).

Definition aw_enqueue_ready (p : Z) (a : aworld) : aworld :=
  AWorld (aw_queues a) (aw_ready a ++ [p]).

(** The specification of an operation is undefined ([None]) where its caller
    breaks the contract: pushing on the global list, or freeing, a queue that
    is in the list already. *)
Definition spec_push_global (p : Z) (a : aworld) : option aworld :=
  if decide (is_Some (aw_queues a !! p) /\ p ∉ aw_ready a)
  then Some (aw_enqueue_ready p a) else None.

Definition spec_push (p : Z) (m : message) (a : aworld) : option aworld :=
  q ← aw_queues a !! p;
  let push g := AQueue (aq_handle q) (aq_msgs q ++ [m]) g (aq_release q)
                       (aq_overload q) (aq_threshold q) in
  if aq_global q =? 0 then spec_push_global p (aupdate p (push 1) a)
  else Some (aupdate p (push (aq_global q)) a).

(** A pop that leaves [n] messages reports [n] when it passes the threshold,
    and the threshold becomes the first [thr * 2 ^ k] that is at least [n]. *)
Definition spec_overload (n overload thr : Z) : Z * Z :=
  (if n >? thr then n else overload, thr * 2 ^ Z.log2_up ((n + thr - 1) / thr)).

Definition spec_pop (p : Z) (a : aworld) : option ((message + unit) * aworld) :=
  q ← aw_queues a !! p;
  match aq_msgs q with
  | m :: ms =>
      let '(o, thr) := spec_overload (zlen ms) (aq_overload q) (aq_threshold q) in
      Some (inl m, aupdate p (AQueue (aq_handle q) ms (aq_global q) (aq_release q) o thr) a)
  | [] =>
      Some (inr tt, aupdate p (AQueue (aq_handle q) [] 0 (aq_release q) (aq_overload q) QUEUE_OVERLOAD) a)
  end.

Definition spec_pop_global (a : aworld) : Z * aworld :=
  match aw_ready a with
  | [] => (0, a)
  | p :: l => (p, AWorld (aw_queues a) l)
  end.

Definition spec_free (p : Z) (a : aworld) : option (list message * aworld) :=
  q ← aw_queues a !! p;
  if aq_release q =? 0 then a' ← spec_push_global p a; Some ([], a')
  else if decide (p ∈ aw_ready a) then None
  else Some (aq_msgs q, AWorld (delete p (aw_queues a)) (aw_ready a)).

Definition spec_mark_free (p : Z) (a : aworld) : option aworld :=
  q ← aw_queues a !! p;
  if negb (aq_release q =? 0) then None else
  let a' := aupdate p (AQueue (aq_handle q) (aq_msgs q) (aq_global q) 1
                              (aq_overload q) (aq_threshold q)) a in
  if aq_global q =? 0 then spec_push_global p a' else Some a'.

Definition spec_new (p handle : Z) (a : aworld) : option aworld :=
  if decide (p <> 0 /\ aw_queues a !! p = None) then
    Some (aupdate p (AQueue handle [] 1 0 0 QUEUE_OVERLOAD) a)
  else None.

Definition spec_len (p : Z) (a : aworld) : option Z :=
  (fun q => zlen (aq_msgs q)) <$> aw_queues a !! p.

Definition spec_take_overload (p : Z) (a : aworld) : option (Z * aworld) :=
  q ← aw_queues a !! p;
  if negb (aq_overload q =? 0) then
    Some (aq_overload q, aupdate p (AQueue (aq_handle q) (aq_msgs q) (aq_global q) (aq_release q)
                                           0 (aq_threshold q)) a)
  else Some (0, a).

(** The interface of queue.h as one operation type, run on either world. *)
Inductive qop :=
  | OpNew (p handle : Z) | OpPushGlobal (p : Z) | OpPopGlobal
  | OpPush (p : Z) (m : message) | OpPop (p : Z) | OpFree (p : Z) | OpMarkFree (p : Z)
  | OpLen (p : Z) | OpOverload (p : Z) | OpHandle (p : Z).

Inductive qres :=
  | ResUnit | ResInt (z : Z) | ResMsg (r : message + unit) | ResDropped (ms : list message).

Definition run_op (o : qop) (w : qworld) : option (qres * qworld) :=
  match o with
  | OpNew p h => Some (ResUnit, queue_new p h w)
  | OpPushGlobal p => w ← queue_push_global p w; Some (ResUnit, w)
  | OpPopGlobal => '(p, w) ← queue_pop_global w; Some (ResInt p, w)
  | OpPush p m => w ← queue_push p m w; Some (ResUnit, w)
  | OpPop p => '(r, w) ← queue_pop p w; Some (ResMsg r, w)
  | OpFree p => '(ms, w) ← queue_free p w; Some (ResDropped ms, w)
  | OpMarkFree p => w ← queue_mark_free p w; Some (ResUnit, w)
  | OpLen p => n ← queue_len p w; Some (ResInt n, w)
  | OpOverload p => '(n, w) ← queue_overload p w; Some (ResInt n, w)
  | OpHandle p => h ← queue_handle p w; Some (ResInt h, w)
  end.

Definition spec_op (o : qop) (a : aworld) : option (qres * aworld) :=
  match o with
  | OpNew p h => a ← spec_new p h a; Some (ResUnit, a)
  | OpPushGlobal p => a ← spec_push_global p a; Some (ResUnit, a)
  | OpPopGlobal => let '(p, a) := spec_pop_global a in Some (ResInt p, a)
  | OpPush p m => a ← spec_push p m a; Some (ResUnit, a)
  | OpPop p => '(r, a) ← spec_pop p a; Some (ResMsg r, a)
  | OpFree p => '(ms, a) ← spec_free p a; Some (ResDropped ms, a)
  | OpMarkFree p => a ← spec_mark_free p a; Some (ResUnit, a)
  | OpLen p => n ← spec_len p a; Some (ResInt n, a)
  | OpOverload p => '(n, a) ← spec_take_overload p a; Some (ResInt n, a)
  | OpHandle p => h ← aq_handle <$> aw_queues a !! p; Some (ResInt h, a)
  end.

Fixpoint run_ops {S} (step : qop -> S -> option (qres * S)) (os : list qop) (s : S)
    : option (list qres * S) :=
  match os with
  | [] => Some ([], s)
  | o :: os => '(r, s) ← step o s; '(rs, s) ← run_ops step os s; Some (r :: rs, s)
  end.

(** ** The abstraction relation *)

Definition queue_contents (q : queue) : list message :=
  ring_take (q_mqueue q) (q_head q) (Z.to_nat (queue_length q)).

Definition abs_queue (q : queue) : aqueue :=
  AQueue (q_handle q) (queue_contents q) (q_global q) (q_release q)
         (q_overload q) (q_overload_threshold q).

(** Well-formed ring: [xs] are the messages between [head] and [tail], and one
    slot is always free. *)
Record queue_wf (q : queue) : Prop := {
  wf_cap : q_cap q = zlen (q_mqueue q);
  wf_tail : 0 <= q_tail q < q_cap q;
  wf_thr : 0 < q_overload_threshold q;
  wf_view : ring_view (q_mqueue q) (q_head q) (queue_contents q);
  wf_len : zlen (queue_contents q) = queue_length q
}.

(** [p] starts the linked list [l] through [next]. *)
Fixpoint chain (h : gmap Z queue) (p : Z) (l : list Z) : Prop :=
  match l with
  | [] => p = 0
  | x :: l => p = x /\ x <> 0 /\ exists q, h !! x = Some q /\ chain h (q_next q) l
  end.

Record global_wf (w : qworld) (l : list Z) : Prop := {
  gw_chain : chain (qw_heap w) (qw_head w) l;
  gw_nodup : NoDup l;
  gw_tail : qw_tail w = default 0 (last l);
  gw_idle : forall p q, qw_heap w !! p = Some q -> p ∉ l -> q_next q = 0
}.

Record refines (w : qworld) (a : aworld) : Prop := {
  rf_queues : aw_queues a = abs_queue <$> qw_heap w;
  rf_wf : map_Forall (fun _ q => queue_wf q) (qw_heap w);
  rf_null : qw_heap w !! 0 = None;
  rf_global : global_wf w (aw_ready a)
}.

(** ** The ring *)

Lemma wf_intro q xs :
  q_cap q = zlen (q_mqueue q) -> 0 < q_overload_threshold q ->
  ring_view (q_mqueue q) (q_head q) xs -> zlen xs < q_cap q ->
  q_tail q = ring_idx (q_cap q) (q_head q) (zlen xs) ->
  queue_wf q /\ queue_contents q = xs.
Proof.
  intros Hcap Hthr Hv Hlt Htail. pose proof Hv as (Hh & _ & _).
  assert (Hl : queue_length q = zlen xs).
  { unfold queue_length. rewrite Htail. unfold ring_idx.
    zcase. }
  assert (Hc : queue_contents q = xs).
  { unfold queue_contents. rewrite Hl, Nat2Z.id. by apply ring_view_take. }
  split; [|done]. split; rewrite ?Hc, ?Hl; try done.
  rewrite Htail. apply ring_idx_bound; lia.
Qed.

(** [queue_wf q /\ queue_contents q = xs /\ R] from [wf_intro]; the sub-goals
    are its premises, when [R] is immediate. *)
Ltac intro_wf xs :=
  match goal with
  | |- queue_wf ?q /\ _ =>
      let H1 := fresh in let H2 := fresh in
      destruct (wf_intro q xs) as [H1 H2]; [..|split; [exact H1|split; [exact H2|done]]]
  end.

Lemma wf_tail_idx q :
  queue_wf q -> q_tail q = ring_idx (q_cap q) (q_head q) (zlen (queue_contents q)) /\
                zlen (queue_contents q) < q_cap q.
Proof.
  intros []. destruct wf_view0 as (Hh & _ & _). rewrite wf_len0.
  unfold queue_length, ring_idx.
  zcase.
Qed.

Lemma wf_empty q : queue_wf q -> (q_head q = q_tail q <-> queue_contents q = []).
Proof.
  intros Hwf. destruct (wf_tail_idx q Hwf) as [Ht Hlt]. destruct Hwf.
  destruct wf_view0 as (Hh & _ & _). split.
  - intros He. apply length_zero_iff_nil. unfold ring_idx in Ht.
    zcase.
  - intros Hc. rewrite Hc in *. cbn in *. rewrite Ht. unfold ring_idx.
    zcase.
Qed.

Lemma queue0_wf h : queue_wf (queue0 h) /\ queue_contents (queue0 h) = [].
Proof. apply wf_intro; try done. apply ring_view_nil. done. Qed.

Lemma expand_copy_full q xs :
  q_cap q = zlen (q_mqueue q) -> ring_view (q_mqueue q) (q_head q) xs ->
  zlen xs = q_cap q -> expand_copy q = Some xs.
Proof.
  intros Hcap (Hh & _ & Hv) Hfull. unfold expand_copy.
  apply mapM_Some_2, Forall2_same_length_lookup_2.
  { rewrite length_seqZ. lia. }
  intros i y z Hy Hz. apply lookup_seqZ in Hy as [-> Hi].
  rewrite Hcap, <- ring_idx_mod, Hv by lia. rewrite Z.add_0_l, aget_nat. done.
Qed.

Lemma _queue_expand_spec q xs :
  q_cap q = zlen (q_mqueue q) -> 0 < q_overload_threshold q ->
  ring_view (q_mqueue q) (q_head q) xs -> zlen xs = q_cap q ->
  exists q', _queue_expand q = Some q' /\ queue_wf q' /\ queue_contents q' = xs /\
    q' = set_ring (q_cap q * 2) 0 (q_cap q) (q_mqueue q') q.
Proof.
  intros Hcap Hthr Hv Hfull. unfold _queue_expand.
  rewrite (expand_copy_full q xs) by done. cbn. eexists. split; [done|].
  pose proof Hv as (Hh & _ & _).
  intro_wf xs; cbn; try done.
  - rewrite length_app, length_replicate. lia.
  - unfold ring_view. rewrite length_app, length_replicate.
    split; [lia|]. split; [lia|]. intros i Hi.
    unfold ring_idx. rewrite Z.add_0_l, (proj2 (Z.ltb_lt _ _)) by lia.
    rewrite aget_app_l; [done|lia].
  - lia.
  - unfold ring_idx. rewrite Hfull, (proj2 (Z.ltb_lt _ _)); lia.
Qed.

(** What the operations on the ring leave alone. *)
Definition same_flags (q q' : queue) : Prop :=
  q_handle q' = q_handle q /\ q_global q' = q_global q /\ q_release q' = q_release q /\
  q_overload q' = q_overload q /\ q_overload_threshold q' = q_overload_threshold q /\
  q_next q' = q_next q.

Lemma queue_enqueue_spec q m :
  queue_wf q -> exists q', queue_enqueue m q = Some q' /\ queue_wf q' /\
    queue_contents q' = queue_contents q ++ [m] /\ same_flags q q'.
Proof.
  intros Hwf. destruct (wf_tail_idx q Hwf) as [Ht Hlt]. destruct Hwf as [Hcap Htb Hthr Hv Hlen].
  unfold queue_enqueue. rewrite aset_Some by lia. cbn.
  pose proof (ring_view_push _ _ _ m Hv ltac:(lia)) as Hv'.
  rewrite <- Hcap, <- Ht in Hv'. pose proof Hv as (Hh & _ & _).
  destruct (Z.eqb_spec (q_head q) (if q_tail q + 1 >=? q_cap q then 0 else q_tail q + 1)) as [He|He].
  - edestruct (_queue_expand_spec
      (set_ring (q_cap q) (q_head q) (if q_tail q + 1 >=? q_cap q then 0 else q_tail q + 1)
         (<[Z.to_nat (q_tail q):=m]> (q_mqueue q)) q)) as (q' & -> & Hwf' & Hc' & Hq'); cbn.
    + by rewrite length_insert.
    + done.
    + exact Hv'.
    + rewrite length_app; cbn. rewrite Ht in He. unfold ring_idx in He.
      zcase.
    + eexists. split; [done|]. split; [done|]. split; [done|].
      rewrite Hq'. done.
  - eexists. split; [done|].
    intro_wf (queue_contents q ++ [m]); cbn; rewrite ?length_insert; try done.
    + rewrite length_app; cbn. rewrite Ht in He. unfold ring_idx in *.
      zcase.
    + rewrite length_app; cbn. rewrite Ht. unfold ring_idx in *.
      zcase.
Qed.

Lemma overload_loop_iter (k fuel : nat) n o thr :
  0 < thr -> (forall j : nat, (j < k)%nat -> thr * 2 ^ Z.of_nat j < n) ->
  n <= thr * 2 ^ Z.of_nat k -> (k <= fuel)%nat ->
  overload_loop fuel n o thr = Some (if k is O then o else n, thr * 2 ^ Z.of_nat k).
Proof.
  revert fuel o thr. induction k as [|k IH]; intros fuel o thr Hthr Hlow Hhigh Hf.
  - change (2 ^ Z.of_nat 0) with 1 in *. rewrite Z.mul_1_r in *.
    destruct fuel; cbn [overload_loop]; destruct (Z.gtb_spec n thr); done || lia.
  - pose proof (Hlow 0%nat ltac:(lia)) as H0. change (2 ^ Z.of_nat 0) with 1 in H0. rewrite Z.mul_1_r in H0.
    destruct fuel as [|fuel]; [lia|]. cbn [overload_loop]. destruct (Z.gtb_spec n thr); [|lia].
    assert (Hp : forall j : nat, thr * 2 * 2 ^ Z.of_nat j = thr * 2 ^ Z.of_nat (S j)).
    { intros j. rewrite Nat2Z.inj_succ, Z.pow_succ_r by lia. lia. }
    rewrite IH; rewrite ?Hp; try lia.
    + destruct k; done.
    + intros j Hj. rewrite Hp. apply Hlow. lia.
Qed.

#[local] Arguments overload_loop : simpl never.
#[local] Arguments overload_fuel : simpl never.

Lemma overload_loop_spec n o thr :
  0 < thr -> 0 <= n ->
  overload_loop (overload_fuel n) n o thr = Some (spec_overload n o thr).
Proof.
  intros Hthr Hn. unfold spec_overload. set (c := (n + thr - 1) / thr).
  assert (Hc : forall x, n <= thr * x <-> c <= x).
  { intros x. unfold c. split; intros H.
    - apply Z.lt_succ_r, Z.div_lt_upper_bound; nia.
    - pose proof (Z.div_mod (n + thr - 1) thr ltac:(lia)).
      pose proof (Z.mod_pos_bound (n + thr - 1) thr ltac:(lia)). fold c in H0. nia. }
  assert (Hc0 : 0 <= c) by (apply Z.div_pos; lia).
  pose proof (Z.log2_up_nonneg c) as Hl0.
  rewrite (overload_loop_iter (Z.to_nat (Z.log2_up c))); try done.
  - rewrite Z2Nat.id by done. f_equal. f_equal. destruct (Z.gtb_spec n thr).
    + assert (1 < c) by (apply Z.lt_nge; rewrite <- Hc; lia).
      pose proof (Z.log2_up_pos c ltac:(lia)). by destruct (Z.to_nat (Z.log2_up c)) eqn:?; [lia|].
    + assert (c <= 1) by (rewrite <- Hc; lia). rewrite Z.log2_up_eqn0 by lia. done.
  - intros j Hj. apply Z.lt_nge. rewrite Hc. apply Z.lt_nge.
    assert (1 < c). { apply Z.lt_nge. intros ?. rewrite Z.log2_up_eqn0 in Hj by lia. lia. }
    apply Z.log2_up_lt_pow2; lia.
  - rewrite Z2Nat.id by done. rewrite Hc. destruct (Z.le_gt_cases c 0).
    + pose proof (Z.pow_pos_nonneg 2 (Z.log2_up c)). lia.
    + apply Z.log2_up_le_pow2; lia.
  - unfold overload_fuel. assert (Z.log2_up c <= Z.log2_up n); [|lia].
    apply Z.log2_up_le_mono. apply Hc. nia.
Qed.

(** A pop takes the oldest message. *)
Lemma queue_dequeue_cons q m ms :
  queue_wf q -> queue_contents q = m :: ms ->
  exists q', queue_dequeue q = Some (inl m, q') /\ queue_wf q' /\
    queue_contents q' = ms /\ q_handle q' = q_handle q /\ q_global q' = q_global q /\
    q_release q' = q_release q /\ q_next q' = q_next q /\
    (q_overload q', q_overload_threshold q')
      = spec_overload (zlen ms) (q_overload q) (q_overload_threshold q).
Proof.
  intros Hwf Hc. destruct (wf_tail_idx q Hwf) as [Ht Hlt]. pose proof (wf_empty q Hwf) as He.
  destruct Hwf as [Hcap Htb Hthr Hv Hlen]. rewrite Hc in *. cbn [length] in *.
  pose proof (ring_view_pop _ _ _ _ Hv) as [Hm Hv']. pose proof Hv as (Hh & _ & _).
  unfold queue_dequeue. destruct (Z.eqb_spec (q_head q) (q_tail q)) as [E|E].
  { apply He in E. done. }
  cbn. rewrite Hm. cbn.
  set (head := if q_head q + 1 >=? q_cap q then 0 else q_head q + 1).
  assert (Hhead : head = ring_idx (q_cap q) (q_head q) 1) by (unfold head, ring_idx; zcase).
  rewrite <- Hcap, <- Hhead in Hv'.
  assert (Hl : (if q_tail q - head <? 0 then q_tail q - head + q_cap q else q_tail q - head) = zlen ms).
  { rewrite Ht, Hhead. unfold ring_idx. zcase. }
  rewrite Hl, overload_loop_spec by lia.
  destruct (spec_overload _ _ _) as [o thr] eqn:Ho. cbn.
  assert (Hthr' : 0 < thr).
  { injection Ho as <- <-. apply Z.mul_pos_pos; [lia|].
    apply Z.pow_pos_nonneg; [lia|apply Z.log2_up_nonneg]. }
  eexists. split; [done|]. intro_wf ms; cbn; try done; try lia.
  rewrite Ht, Hhead. unfold ring_idx. zcase.
Qed.

Lemma queue_dequeue_nil q :
  queue_wf q -> queue_contents q = [] ->
  exists q', queue_dequeue q = Some (inr tt, q') /\ queue_wf q' /\ queue_contents q' = [] /\
    abs_queue q' = AQueue (q_handle q) [] 0 (q_release q) (q_overload q) QUEUE_OVERLOAD /\
    q_next q' = q_next q.
Proof.
  intros Hwf Hc. pose proof (proj2 (wf_empty q Hwf) Hc) as He. unfold queue_dequeue.
  rewrite He, Z.eqb_refl. cbn. eexists. split; [done|].
  assert (queue_wf (set_global 0 (set_overload (q_overload q) QUEUE_OVERLOAD q))).
  { destruct Hwf. split; try done. }
  split; [done|]. unfold abs_queue. cbn. unfold queue_contents, queue_length in *. cbn in *.
  rewrite Hc. done.
Qed.

Lemma _queue_drop_spec q fuel :
  queue_wf q -> (length (queue_contents q) < fuel)%nat ->
  exists q', _queue_drop fuel q = Some (queue_contents q, q') /\ queue_contents q' = [].
Proof.
  revert q. induction fuel as [|fuel IH]; intros q Hwf Hf; [lia|].
  destruct (queue_contents q) as [|m ms] eqn:Hc; cbn [_queue_drop].
  - destruct (queue_dequeue_nil q Hwf Hc) as (q' & -> & _ & Hc' & _). cbn. eauto.
  - destruct (queue_dequeue_cons q m ms Hwf Hc) as (q' & -> & Hwf' & Hc' & _). cbn.
    destruct (IH q' Hwf') as (q'' & Hd & Hc''); [rewrite Hc'; cbn in Hf; lia|].
    rewrite Hd, Hc'. cbn. eauto.
Qed.

(** ** The global list *)

Lemma chain_ext h h' p l :
  chain h p l ->
  (forall x q, x ∈ l -> h !! x = Some q -> exists q', h' !! x = Some q' /\ q_next q' = q_next q) ->
  chain h' p l.
Proof.
  revert p. induction l as [|x l IH]; intros p; [done|]. cbn.
  intros (-> & Hx & q & Hq & Hc) Hext. split; [done|]. split; [done|].
  destruct (Hext x q) as (q' & Hq' & Hn); [set_solver|done|].
  exists q'. split; [done|]. rewrite Hn. apply IH; [done|]. intros y qy Hy. apply Hext. set_solver.
Qed.

Lemma chain_heap h p l x : chain h p l -> x ∈ l -> x <> 0 /\ is_Some (h !! x).
Proof.
  revert p. induction l as [|y l IH]; intros p; cbn; [set_solver|].
  intros (-> & Hy & q & Hq & Hc) [->|Hx]%elem_of_cons; [by eauto|]. by eapply IH.
Qed.

Lemma chain_snoc h p l t x tq :
  chain h p (l ++ [t]) -> NoDup (l ++ [t]) -> x ∉ l ++ [t] -> x <> 0 ->
  h !! t = Some tq ->
  (exists xq, h !! x = Some xq /\ q_next xq = 0) ->
  chain (<[t := set_next x tq]> h) p ((l ++ [t]) ++ [x]).
Proof.
  intros Hc Hnd Hx Hx0 Ht (xq & Hxq & Hxn). revert p Hc Hnd Hx.
  induction l as [|y l IH]; intros p; cbn.
  - intros (-> & Ht0 & q & Hq & Hn) _ Hx. split; [done|]. split; [done|].
    exists (set_next x tq). rewrite lookup_insert_eq. split; [done|]. cbn.
    split; [done|]. split; [done|]. exists xq. rewrite lookup_insert_ne by set_solver. done.
  - intros (-> & Hy & q & Hq & Hc) [Hyl Hnd]%NoDup_cons Hx.
    split; [done|]. split; [done|]. exists q. rewrite lookup_insert_ne by set_solver.
    split; [done|]. apply IH; [done|done|set_solver].
Qed.

Lemma global_wf_push w l x xq :
  global_wf w l -> qw_heap w !! x = Some xq -> x <> 0 -> x ∉ l ->
  exists w', queue_push_global x w = Some w' /\ global_wf w' (l ++ [x]) /\
    abs_queue <$> qw_heap w' = abs_queue <$> qw_heap w /\
    (forall p q, qw_heap w' !! p = Some q -> exists n q0, qw_heap w !! p = Some q0 /\ q = set_next n q0).
Proof.
  intros [Hc Hnd Ht Hi] Hx Hx0 Hxl. unfold queue_push_global.
  destruct (last l) as [t|] eqn:El.
  - apply last_Some in El as [l0 ->]. cbn in Ht.
    destruct (chain_heap _ _ _ t Hc ltac:(set_solver)) as [Ht0 [tq Htq]].
    rewrite Ht, (proj2 (Z.eqb_neq t 0) Ht0). cbn. rewrite Htq. cbn.
    eexists. split; [done|]. split; [|split].
    + split; cbn.
      * apply chain_snoc; try done. exists xq. split; [done|]. by eapply Hi.
      * apply NoDup_app. split; [done|]. split; [set_solver|apply NoDup_singleton].
      * by rewrite last_snoc.
      * intros p q Hp Hpl. assert (p <> t) by set_solver.
        rewrite lookup_insert_ne in Hp by done. eapply Hi; [done|set_solver].
    + cbn. rewrite fmap_insert. apply insert_id. rewrite lookup_fmap, Htq. done.
    + cbn. intros p q. rewrite lookup_insert. case_decide; intros; simplify_eq; [by eauto|].
      exists (q_next q), q. split; [done|]. by destruct q.
  - apply last_None in El as ->. cbn in *. rewrite Ht. cbn.
    eexists. split; [done|]. split; [|split; [done|]].
    + split; cbn; try done.
      * split; [done|]. split; [done|]. exists xq. split; [done|]. by eapply Hi.
      * apply NoDup_singleton.
      * intros p q Hp Hpl. eapply Hi; [done|set_solver].
    + intros p q Hp. exists (q_next q), q. split; [done|]. by destruct q.
Qed.

Lemma global_wf_pop w l x :
  global_wf w (x :: l) ->
  exists w', queue_pop_global w = Some (x, w') /\ global_wf w' l /\ qw_head w = x /\
    abs_queue <$> qw_heap w' = abs_queue <$> qw_heap w /\
    (forall p q, qw_heap w' !! p = Some q -> exists n q0, qw_heap w !! p = Some q0 /\ q = set_next n q0).
Proof.
  intros [Hc Hnd Ht Hi]. cbn in Hc. destruct Hc as (Hh & Hx0 & xq & Hxq & Hc).
  apply NoDup_cons in Hnd as [Hxl Hnd]. unfold queue_pop_global.
  rewrite Hh, (proj2 (Z.eqb_neq x 0) Hx0), Hxq. cbn. eexists. split; [done|].
  split; [|split; [done|split]]; cbn.
  - split; cbn; try done.
    + eapply chain_ext; [exact Hc|]. intros y q Hy Hq. exists q.
      rewrite lookup_insert_ne by set_solver. done.
    + destruct l as [|y l]; cbn in Hc.
      * by rewrite Hc.
      * destruct Hc as (-> & Hy0 & _). rewrite (proj2 (Z.eqb_neq y 0) Hy0), Ht.
        cbn. destruct (last l); done.
    + intros p q. rewrite lookup_insert. case_decide; intros; simplify_eq; [done|].
      eapply Hi; [done|set_solver].
  - rewrite fmap_insert. apply insert_id. rewrite lookup_fmap, Hxq. done.
  - intros p q. rewrite lookup_insert. case_decide; intros; simplify_eq; [by eauto|].
    exists (q_next q), q. split; [done|]. by destruct q.
Qed.

(** Changing a queue without touching [next] does not disturb the list. *)
Lemma global_wf_update w l p q q' :
  global_wf w l -> qw_heap w !! p = Some q -> q_next q' = q_next q ->
  global_wf (qupdate p q' w) l.
Proof.
  intros [Hc Hnd Ht Hi] Hp Hn. split; cbn; try done.
  - eapply chain_ext; [exact Hc|]. intros y qy Hy Hq. rewrite lookup_insert.
    case_decide; simplify_eq; eauto.
  - intros p' q''. rewrite lookup_insert. case_decide; intros; simplify_eq; [|by eauto].
    rewrite Hn. by eauto.
Qed.

Lemma queue_wf_set_next n q : queue_wf q -> queue_wf (set_next n q).
Proof. intros []. by split. Qed.

(** ** Refinement steps *)

Lemma refines_lookup w a p :
  refines w a -> aw_queues a !! p = abs_queue <$> qw_heap w !! p.
Proof. intros []. rewrite rf_queues0. apply lookup_fmap. Qed.

Lemma refines_queue w a p aq :
  refines w a -> aw_queues a !! p = Some aq ->
  exists q, qw_heap w !! p = Some q /\ queue_wf q /\ aq = abs_queue q /\ p <> 0.
Proof.
  intros Hr Hp. rewrite (refines_lookup w) in Hp by done.
  destruct (qw_heap w !! p) as [q|] eqn:E; [|done]. cbn in Hp. simplify_eq.
  exists q. destruct Hr. split_and!; try done; [by eapply rf_wf0|]. intros ->. congruence.
Qed.

Lemma refines_null w a p aq : refines w a -> aw_queues a !! p = Some aq -> p <> 0.
Proof. intros Hr Hp. by destruct (refines_queue _ _ _ _ Hr Hp) as (_ & _ & _ & _ & ?). Qed.

Lemma refines_update w a p q q' :
  refines w a -> qw_heap w !! p = Some q -> queue_wf q' -> q_next q' = q_next q ->
  refines (qupdate p q' w) (aupdate p (abs_queue q') a).
Proof.
  intros [Hq Hwf H0 Hg] Hp Hwf' Hn. split; cbn.
  - rewrite fmap_insert, Hq. done.
  - apply map_Forall_insert_2; done.
  - rewrite lookup_insert_ne; [done|]. intros ->. congruence.
  - by eapply global_wf_update.
Qed.

Lemma refines_heap w w' a l :
  refines w a -> global_wf w' l -> abs_queue <$> qw_heap w' = abs_queue <$> qw_heap w ->
  (forall p q, qw_heap w' !! p = Some q -> exists n q0, qw_heap w !! p = Some q0 /\ q = set_next n q0) ->
  refines w' (AWorld (aw_queues a) l).
Proof.
  intros [Hq Hwf H0 Hg] Hg' Hh Hs. split; cbn; [congruence| | |done].
  - intros p q (n & q0 & Hp & ->)%Hs. apply queue_wf_set_next. by eapply Hwf.
  - destruct (qw_heap w' !! 0) eqn:E; [|done]. apply Hs in E as (? & ? & ? & ?). congruence.
Qed.

Lemma refines_push_global w a a' p :
  refines w a -> spec_push_global p a = Some a' ->
  exists w', queue_push_global p w = Some w' /\ refines w' a'.
Proof.
  unfold spec_push_global. intros Hr Hs. case_decide as Hd; [|done]. simplify_eq.
  destruct Hd as [[aq Hp] Hn]. destruct (refines_queue _ _ _ _ Hr Hp) as (q & Hq & _ & _ & H0).
  destruct (global_wf_push w (aw_ready a) p q) as (w' & Hw' & Hg & Hh & Hs); try done.
  { by destruct Hr. }
  exists w'. split; [done|]. by eapply refines_heap.
Qed.

#[export] Hint Resolve queue_wf_set_next : carray.

#[local] Arguments spec_overload : simpl never.
#[local] Arguments _queue_drop : simpl never.

(** [refines_queue] for a lookup hypothesis of the abstract world. *)
Ltac refine_queue Hr H :=
  let q := fresh "q" in let Hq := fresh "Hq" in let Hwf := fresh "Hwf" in
  let E := fresh "E" in let H0 := fresh "Hp0" in
  destruct (refines_queue _ _ _ _ Hr H) as (q & Hq & Hwf & E & H0); subst; cbn in *.

Lemma queue_push_sim w a a' p m :
  refines w a -> spec_push p m a = Some a' ->
  exists w', queue_push p m w = Some w' /\ refines w' a'.
Proof.
  intros Hr. unfold spec_push. destruct (aw_queues a !! p) as [aq|] eqn:Hp; [|done]. cbn.
  intros Hs. refine_queue Hr Hp.
  destruct (queue_enqueue_spec q m Hwf) as (q' & He & Hwf' & Hc & (Hh & Hg & Hrel & Ho & Ht & Hn)).
  unfold queue_push. rewrite Hq. cbn. rewrite He. cbn. rewrite Hg.
  destruct (Z.eqb_spec (q_global q) 0) as [G|G].
  - eapply refines_push_global; [|exact Hs].
    replace (AQueue _ _ _ _ _ _) with (abs_queue (set_global 1 q')).
    + eapply refines_update; [done..| |done]. by destruct Hwf'.
    + unfold abs_queue, queue_contents, queue_length in *. cbn. congruence.
  - simplify_eq. eexists. split; [done|].
    replace (AQueue _ _ _ _ _ _) with (abs_queue q').
    + by eapply refines_update.
    + unfold abs_queue in *. congruence.
Qed.

Lemma queue_pop_sim w a a' p r :
  refines w a -> spec_pop p a = Some (r, a') ->
  exists w', queue_pop p w = Some (r, w') /\ refines w' a'.
Proof.
  intros Hr. unfold spec_pop. destruct (aw_queues a !! p) as [aq|] eqn:Hp; [|done]. cbn.
  intros Hs. refine_queue Hr Hp. unfold queue_pop. rewrite Hq. cbn.
  destruct (queue_contents q) as [|m ms] eqn:Hc.
  - destruct (queue_dequeue_nil q Hwf Hc) as (q' & -> & Hwf' & Hc' & Ha & Hn). cbn. simplify_eq.
    eexists. split; [done|]. rewrite <- Ha. by eapply refines_update.
  - destruct (queue_dequeue_cons q m ms Hwf Hc) as (q' & -> & Hwf' & Hc' & Hh & Hg & Hrel & Hn & Ho).
    rewrite <- Ho in Hs. cbn in *. injection Hs as <- <-.
    eexists. split; [done|].
    replace (AQueue _ _ _ _ _ _) with (abs_queue q') by (unfold abs_queue; congruence).
    by eapply refines_update.
Qed.

Lemma queue_pop_global_sim w a :
  refines w a -> exists w', queue_pop_global w = Some (fst (spec_pop_global a), w') /\
    refines w' (snd (spec_pop_global a)).
Proof.
  intros Hr. unfold spec_pop_global. destruct (aw_ready a) as [|p l] eqn:El; cbn.
  - unfold queue_pop_global. destruct (rf_global _ _ Hr) as [Hc _ _ _]. rewrite El in Hc.
    cbn in Hc. rewrite Hc. eauto.
  - pose proof (rf_global _ _ Hr) as Hg. rewrite El in Hg.
    destruct (global_wf_pop _ _ _ Hg) as (w' & Hw' & Hg' & _ & Hh & Hs).
    exists w'. split; [done|]. by eapply refines_heap.
Qed.

Lemma global_wf_delete w l p :
  global_wf w l -> p ∉ l -> global_wf (QWorld (delete p (qw_heap w)) (qw_head w) (qw_tail w)) l.
Proof.
  intros [Hc Hnd Ht Hi] Hp. split; cbn; try done.
  - eapply chain_ext; [exact Hc|]. intros x q Hx Hq. exists q.
    rewrite lookup_delete_ne by set_solver. done.
  - intros p' q [_ Hq]%lookup_delete_Some. by eauto.
Qed.

Lemma queue_free_sim w a a' p ms :
  refines w a -> spec_free p a = Some (ms, a') ->
  exists w', queue_free p w = Some (ms, w') /\ refines w' a'.
Proof.
  intros Hr. unfold spec_free. destruct (aw_queues a !! p) as [aq|] eqn:Hp; [|done]. cbn.
  refine_queue Hr Hp. unfold queue_free. rewrite Hq. cbn.
  destruct (Z.eqb_spec (q_release q) 0) as [R|R]; cbn.
  - destruct (spec_push_global p a) as [a1|] eqn:Ha; [|done]. cbn. intros. simplify_eq.
    destruct (refines_push_global _ _ _ _ Hr Ha) as (w' & -> & Hr'). eauto.
  - case_decide; [done|]. intros. simplify_eq.
    destruct (_queue_drop_spec q (S (length (q_mqueue q))) Hwf) as (q' & -> & _).
    { destruct Hwf. destruct wf_view0 as (_ & ? & _). lia. }
    cbn. eexists. split; [done|]. destruct Hr as [Hqs Hws H0 Hg]. split; cbn.
    + by rewrite Hqs, fmap_delete.
    + by apply map_Forall_delete.
    + rewrite lookup_delete_ne by done. done.
    + by apply global_wf_delete.
Qed.

Lemma queue_mark_free_sim w a a' p :
  refines w a -> spec_mark_free p a = Some a' ->
  exists w', queue_mark_free p w = Some w' /\ refines w' a'.
Proof.
  intros Hr. unfold spec_mark_free. destruct (aw_queues a !! p) as [aq|] eqn:Hp; [|done]. cbn.
  refine_queue Hr Hp. unfold queue_mark_free. rewrite Hq. cbn.
  destruct (negb _); [done|]. intros Hs.
  assert (Hr' : refines (qupdate p (set_release 1 q) w) (aupdate p (abs_queue (set_release 1 q)) a)).
  { eapply refines_update; try done. by destruct Hwf. }
  destruct (q_global q =? 0).
  - by eapply refines_push_global.
  - simplify_eq. eauto.
Qed.

Lemma queue_new_sim w a a' p h :
  refines w a -> spec_new p h a = Some a' -> refines (queue_new p h w) a'.
Proof.
  intros Hr Hs. unfold spec_new in Hs. case_decide as Hd; [|done]. simplify_eq.
  destruct Hd as [Hp0 Hp]. rewrite (refines_lookup w) in Hp by done. apply fmap_None in Hp.
  destruct (queue0_wf h) as [Hwf Hc]. destruct Hr as [Hqs Hws H0 Hg]. split; cbn.
  - rewrite fmap_insert, Hqs. unfold abs_queue at 2. by rewrite Hc.
  - by apply map_Forall_insert_2.
  - by rewrite lookup_insert_ne.
  - destruct Hg as [Gc Gn Gt Gi]. split; cbn; try done.
    + eapply chain_ext; [exact Gc|]. intros x q Hx Hq. exists q.
      rewrite lookup_insert_ne by congruence. done.
    + intros x q. rewrite lookup_insert. case_decide; intros; simplify_eq; [done|]. by eauto.
Qed.

Lemma queue_overload_sim w a a' p n :
  refines w a -> spec_take_overload p a = Some (n, a') ->
  exists w', queue_overload p w = Some (n, w') /\ refines w' a'.
Proof.
  intros Hr. unfold spec_take_overload. destruct (aw_queues a !! p) as [aq|] eqn:Hp; [|done]. cbn.
  refine_queue Hr Hp. unfold queue_overload. rewrite Hq. cbn.
  destruct (negb _); intros; simplify_eq; [|by eauto].
  eexists. split; [done|].
  change (AQueue _ _ _ _ _ _) with (abs_queue (set_overload 0 (q_overload_threshold q) q)).
  eapply refines_update; try done. by destruct Hwf.
Qed.

Lemma run_op_sim w a a' o r :
  refines w a -> spec_op o a = Some (r, a') ->
  exists w', run_op o w = Some (r, w') /\ refines w' a'.
Proof.
  intros Hr. destruct o; cbn; intros Hs.
  - destruct (spec_new _ _ _) eqn:E; [|done]. cbn in Hs. simplify_eq.
    eexists. split; [done|]. by eapply queue_new_sim.
  - destruct (spec_push_global _ _) eqn:E; [|done]. cbn in Hs. simplify_eq.
    destruct (refines_push_global _ _ _ _ Hr E) as (? & -> & ?). cbn. eauto.
  - destruct (queue_pop_global_sim _ _ Hr) as (? & -> & ?).
    destruct (spec_pop_global a). cbn in *. simplify_eq. eauto.
  - destruct (spec_push _ _ _) eqn:E; [|done]. cbn in Hs. simplify_eq.
    destruct (queue_push_sim _ _ _ _ _ Hr E) as (? & -> & ?). cbn. eauto.
  - destruct (spec_pop _ _) as [[]|] eqn:E; [|done]. cbn in Hs. simplify_eq.
    destruct (queue_pop_sim _ _ _ _ _ Hr E) as (? & -> & ?). cbn. eauto.
  - destruct (spec_free _ _) as [[]|] eqn:E; [|done]. cbn in Hs. simplify_eq.
    destruct (queue_free_sim _ _ _ _ _ Hr E) as (? & -> & ?). cbn. eauto.
  - destruct (spec_mark_free _ _) eqn:E; [|done]. cbn in Hs. simplify_eq.
    destruct (queue_mark_free_sim _ _ _ _ Hr E) as (? & -> & ?). cbn. eauto.
  - unfold spec_len in Hs. destruct (aw_queues a !! p) as [aq|] eqn:Hp; [|done]. cbn in Hs.
    refine_queue Hr Hp. unfold queue_len. rewrite Hq. cbn. simplify_eq.
    rewrite (wf_len _ Hwf). eauto.
  - destruct (spec_take_overload _ _) as [[]|] eqn:E; [|done]. cbn in Hs. simplify_eq.
    destruct (queue_overload_sim _ _ _ _ _ Hr E) as (? & -> & ?). cbn. eauto.
  - destruct (aw_queues a !! p) as [aq|] eqn:Hp; [|done]. cbn in Hs.
    refine_queue Hr Hp. unfold queue_handle. rewrite Hq. cbn. simplify_eq. eauto.
Qed.

Lemma run_ops_sim os : forall w a a' rs,
  refines w a -> run_ops spec_op os a = Some (rs, a') ->
  exists w', run_ops run_op os w = Some (rs, w') /\ refines w' a'.
Proof.
  induction os as [|o os IH]; intros w a a' rs Hr; cbn; intros Hs; [by simplify_eq; eauto|].
  destruct (spec_op o a) as [[r a1]|] eqn:E; [|done]. cbn in Hs.
  destruct (run_ops spec_op os a1) as [[rs1 a2]|] eqn:E2; [|done]. cbn in Hs. simplify_eq.
  destruct (run_op_sim _ _ _ _ _ Hr E) as (w1 & -> & Hr1).
  destruct (IH _ _ _ _ Hr1 E2) as (w2 & Hw2 & Hr2). cbn. rewrite Hw2. cbn. eauto.
Qed.

Lemma run_ops_app {S} (step : qop -> S -> option (qres * S)) os1 os2 s :
  run_ops step (os1 ++ os2) s =
  '(rs1, s) ← run_ops step os1 s; '(rs2, s) ← run_ops step os2 s; Some (rs1 ++ rs2, s).
Proof.
  revert s. induction os1 as [|o os1 IH]; intros s; cbn.
  - by destruct (run_ops step os2 s) as [[]|].
  - destruct (step o s) as [[r s1]|]; [|done]. cbn. rewrite IH.
    destruct (run_ops step os1 s1) as [[rs1 s2]|]; [|done]. cbn.
    by destruct (run_ops step os2 s2) as [[]|].
Qed.

Lemma refines_init h : map_Forall (fun _ q => queue_wf q /\ q_next q = 0) h -> h !! 0 = None ->
  refines (queue_init (QWorld h 0 0)) (AWorld (abs_queue <$> h) []).
Proof.
  intros Hwf H0. split; cbn; try done.
  - intros p q Hp. by destruct (Hwf p q Hp).
  - split; cbn; try done; [constructor|]. intros p q Hp _. by destruct (Hwf p q Hp).
Qed.

Lemma spec_run_push p ms : forall q a,
  aw_queues a !! p = Some q -> aq_global q <> 0 ->
  run_ops spec_op (OpPush p <$> ms) a =
  Some (replicate (length ms) ResUnit,
        aupdate p (AQueue (aq_handle q) (aq_msgs q ++ ms) (aq_global q) (aq_release q)
                          (aq_overload q) (aq_threshold q)) a).
Proof.
  induction ms as [|m ms IH]; intros q a Hq Hg; cbn.
  - rewrite app_nil_r. destruct q. unfold aupdate. cbn in *. rewrite insert_id by done.
    by destruct a.
  - unfold spec_push. rewrite Hq. cbn. rewrite (proj2 (Z.eqb_neq _ _)) by done. cbn.
    erewrite IH; cbn; [|apply lookup_insert_eq|done]. cbn. f_equal. f_equal.
    unfold aupdate. cbn. by rewrite insert_insert_eq, <- app_assoc.
Qed.

Lemma spec_run_pop p ms : forall q a,
  aw_queues a !! p = Some q -> aq_msgs q = ms ->
  exists a', run_ops spec_op ((fun _ => OpPop p) <$> ms) a = Some (ResMsg ∘ inl <$> ms, a') /\
    exists q', aw_queues a' !! p = Some q' /\ aq_msgs q' = [].
Proof.
  induction ms as [|m ms IH]; intros q a Hq Hm; cbn; [by eauto|].
  unfold spec_pop at 1. rewrite Hq. cbn. rewrite Hm. cbn.
  destruct (spec_overload _ _ _) as [o thr]. cbn.
  set (q1 := AQueue (aq_handle q) ms (aq_global q) (aq_release q) o thr).
  destruct (IH q1 (aupdate p q1 a)) as (a' & Ha' & q' & Hq' & Hm'); [apply lookup_insert_eq|done|].
  rewrite Ha'. cbn. eauto.
Qed.

(** ** Properties *)

(** C1: the implementation of queue.c refines its specification: on any
    sequence of interface calls that respects the contract of the global
    list, from any well-formed world, no call reads or writes outside a ring
    or through a dangling queue pointer, the results are those of plain lists
    of messages, and the world is well formed again. *)
Theorem queue_run_refines w a os rs a' :
  refines w a -> run_ops spec_op os a = Some (rs, a') ->
  exists w', run_ops run_op os w = Some (rs, w') /\ refines w' a'.
Proof. apply run_ops_sim. Qed.

Example queue_run_refines_witness :
  exists w', run_ops run_op
    [OpNew 4096 9; OpPushGlobal 4096; OpNew 8192 10; OpPush 4096 (Message 9 1 0 0);
     OpPop 8192; OpPush 8192 (Message 9 2 0 0); OpPopGlobal; OpPop 4096; OpPop 4096;
     OpMarkFree 4096; OpPopGlobal; OpPopGlobal; OpFree 4096; OpLen 8192]
    (queue_init (QWorld ∅ 0 0)) =
    Some ([ResUnit; ResUnit; ResUnit; ResUnit; ResMsg (inr tt); ResUnit; ResInt 4096;
           ResMsg (inl (Message 9 1 0 0)); ResMsg (inr tt); ResUnit; ResInt 8192; ResInt 4096;
           ResDropped []; ResInt 1], w') /\
    refines w' (AWorld {[8192 := AQueue 10 [Message 9 2 0 0] 1 0 0 1024]} []).
Proof.
  apply (queue_run_refines _ (AWorld ∅ [])); [|vm_compute; reflexivity].
  apply refines_init; [apply map_Forall_empty|done].
Defined.

(** Messages leave a queue in the order they entered it, however many
    there are: the ring grows when it is full and loses nothing. *)
Lemma queue_fifo w a p q ms :
  refines w a -> aw_queues a !! p = Some q -> aq_global q <> 0 -> aq_msgs q = [] ->
  exists w', run_ops run_op ((OpPush p <$> ms) ++ ((fun _ => OpPop p) <$> ms)) w =
      Some (replicate (length ms) ResUnit ++ (ResMsg ∘ inl <$> ms), w').
Proof.
  intros Hr Hq Hg Hm. pose proof (spec_run_push p ms _ _ Hq Hg) as Hpush.
  set (q1 := AQueue _ _ _ _ _ _) in Hpush.
  destruct (spec_run_pop p ms q1 (aupdate p q1 a)) as (a' & Hpop & _);
    [apply lookup_insert_eq|cbn; by rewrite Hm|].
  edestruct (run_ops_sim ((OpPush p <$> ms) ++ ((fun _ => OpPop p) <$> ms))) as (w' & Hw & _);
    [exact Hr| |eauto].
  rewrite run_ops_app, Hpush. cbn. rewrite Hpop. done.
Qed.

Example queue_fifo_200 :
  exists w', run_ops run_op
    ((OpPush 4096 <$> ((fun i => Message 1 i 0 0) <$> seqZ 0 200)) ++
     ((fun _ => OpPop 4096) <$> ((fun i => Message 1 i 0 0) <$> seqZ 0 200)))
    (queue_init (QWorld {[4096 := queue0 9]} 0 0)) =
  Some (replicate (length ((fun i => Message 1 i 0 0) <$> seqZ 0 200)) ResUnit ++
        (ResMsg ∘ inl <$> ((fun i => Message 1 i 0 0) <$> seqZ 0 200)), w').
Proof.
  apply (queue_fifo _ (AWorld (abs_queue <$> ({[4096 := queue0 9]} : gmap Z queue)) [])
           4096 (abs_queue (queue0 9))).
  - apply refines_init; [|done].
    apply map_Forall_singleton. split; [apply queue0_wf|done].
  - done.
  - done.
  - done.
Defined.
