(* ===== verification/Loader.v ===== *)
(** * The module loader (src/src/module.c)

    Services are made by modules, shared libraries that are opened by name along
    a path of templates.  A string is a list of bytes without the zero at its
    end, a character array a list of bytes with it; a write outside of an array
    and a search that finds no zero are [None].  Any number of threads ask for
    modules: they first search the table without its lock, entry by entry, then
    with it ([qstep]).

    [loader_safe] is about all interleavings of the threads, [module_path] about
    the names of the files that are tried. *)

From S2P Require Import Prelude Buffer.

Definition MODULE_SIZE : Z := 64.

(** Addresses of functions; 0 is the null pointer. *)
Record module := Mod { name : list Z; dl : Z; dl_new : Z; dl_init : Z; dl_free : Z; dl_signal : Z }.

Record module_global := Global { path : list Z; modules : list module; count : Z }.

Definition no_module : module := Mod [] 0 0 0 0 0.
Definition module_init (p : list Z) : module_global := Global p (replicate (Z.to_nat MODULE_SIZE) no_module) 0.

(** The dynamic linker: a library by the name of its file, a symbol of it by
    name; 0 when there is none. *)
Class Linker := { dlopen : list Z -> Z; dlsym : Z -> list Z -> Z }.

(** [exit(1)] ends the process. *)
Inductive result (A : Type) := Returned (a : A) | Exited.
Arguments Returned {A} _.
Arguments Exited {A}.

(** ** Strings *)

Fixpoint strchr (s : list Z) (c : Z) : option Z :=
  match s with [] => None | x :: s => if x =? c then Some 0 else i ← strchr s c; Some (i + 1) end.

(** The length of the string in an array. *)
Definition strlen (a : list Z) : option Z := strchr a 0.
Definition cstring (a : list Z) : list Z := match strlen a with Some n => take (Z.to_nat n) a | None => a end.

(** [n] characters are copied, zeros behind the end of [s]; no zero is added. *)
Definition strncpy (a s : list Z) (n : Z) : option (list Z) :=
  put a 0 (take (Z.to_nat n) s ++ replicate (Z.to_nat n - length s) 0).
Definition strcat (a s : list Z) : option (list Z) := o ← strlen a; put a o (s ++ [0]).
Definition strncat (a s : list Z) (n : Z) : option (list Z) := o ← strlen a; put a o (take (Z.to_nat n) s ++ [0]).

Definition bytes (s : string) : list Z := map (fun c => Z.of_N (Ascii.N_of_ascii c)) (String.list_ascii_of_string s).

(** ** Opening a library *)

Definition semicolon : Z := 59.
Definition question : Z := 63.

Fixpoint skip_semicolons (p : list Z) : list Z :=
  match p with [] => [] | x :: q => if x =? semicolon then skip_semicolons q else p end.

Section Loader.
Context {linker : Linker}.

(** The loop over the path, [tmp] is the array. *)
Fixpoint open_loop (fuel : nat) (nm p tmp : list Z) : option (result Z) :=
  match fuel with
  | O => None
  | S fuel =>
      let p := skip_semicolons p in
      match p with
      | [] => Some (Returned 0)
      | _ =>
          let s := strchr p semicolon in
          let size := match s with None => zlen p | Some s => s end in
          match strchr p question with
          | None => Some Exited
          | Some l =>
              tmp ← strncpy tmp p l;
              tmp ← strcat tmp nm;
              tmp ← strncat tmp (drop (Z.to_nat (l + 1)) p) (u64 (size - l - 1));
              let d := dlopen (cstring tmp) in
              match s with
              | None => Some (Returned d)
              | Some s => if d =? 0 then open_loop fuel nm (drop (Z.to_nat s) p) tmp else Some (Returned d)
              end
          end
      end
  end.

Definition _module_open (M : module_global) (nm : list Z) : option (result Z) :=
  open_loop (S (length (path M))) nm (path M) (replicate 256 0).

(** [sprintf] into an array of [size + 8] bytes, and [dlsym]. *)
Definition symbol (d : Z) (nm suffix : list Z) : option Z :=
  if zlen (nm ++ suffix) + 1 <=? zlen nm + 8 then Some (dlsym d (nm ++ suffix)) else None.

(** The module with its functions, and whether there is [dl_init]. *)
Definition _module_sym (m : module) : option (module * Z) :=
  a ← symbol (dl m) (name m) (bytes "_new");
  b ← symbol (dl m) (name m) (bytes "_init");
  c ← symbol (dl m) (name m) (bytes "_free");
  d ← symbol (dl m) (name m) (bytes "_signal");
  Some (Mod (name m) (dl m) a b c d, if b =? 0 then -1 else 0).

(** ** The table *)

Definition at_name (M : module_global) (i : Z) (nm : list Z) : option bool :=
  m ← aget (modules M) i; Some (bool_decide (name m = nm)).

(** [_query] from [i] on, [k] entries. *)
Fixpoint query_loop (k : nat) (M : module_global) (i : Z) (nm : list Z) : option (option Z) :=
  match k with
  | O => Some None
  | S k => b ← at_name M i nm; if b : bool then Some (Some i) else query_loop k M (i + 1) nm
  end.

Definition _query (M : module_global) (nm : list Z) : option (option Z) := query_loop (Z.to_nat (count M)) M 0 nm.

Definition set_module (M : module_global) (m : module) : option module_global :=
  l ← aset (modules M) (count M) m; Some (Global (path M) l (count M)).

(** [module_query] with the lock: the index of the module. *)
Definition query_locked (nm : list Z) (M : module_global) : option (result (option Z) * module_global) :=
  r ← _query M nm;
  match r with
  | Some i => Some (Returned (Some i), M)
  | None =>
      if count M <? MODULE_SIZE then
        o ← _module_open M nm;
        match o with
        | Exited => Some (Exited, M)
        | Returned d =>
            if negb (d =? 0) then
              M ← set_module M (Mod nm d 0 0 0 0);
              '(m, r) ← _module_sym (Mod nm d 0 0 0 0);
              M ← set_module M m;
              if r =? 0 then Some (Returned (Some (count M)), Global (path M) (modules M) (count M + 1)) else Some (Returned None, M)
            else Some (Returned None, M)
        end
      else Some (Returned None, M)
  end.

(** [module_query] of a thread that is alone. *)
Definition module_query (nm : list Z) (M : module_global) : option (result (option Z) * module_global) :=
  r ← _query M nm;
  match r with Some i => Some (Returned (Some i), M) | None => query_locked nm M end.

(** The libraries that [module_unit] closes. *)
Definition module_unit (M : module_global) : list Z := map dl (take (Z.to_nat (count M)) (modules M)).

(** ** Instances *)

Section Instances.
Context {St : Type} (call_new : Z -> ust St Z) (call_init : Z -> Z -> Z -> option (list Z) -> ust St Z)
  (call_free : Z -> Z -> ust St unit) (call_signal : Z -> Z -> Z -> ust St unit).

Definition module_inst_new (m : module) : ust St Z := if negb (dl_new m =? 0) then call_new (dl_new m) else mret (2 ^ 64 - 1).
Definition module_inst_init (m : module) (inst ud : Z) (param : option (list Z)) : ust St Z := call_init (dl_init m) inst ud param.
Definition module_inst_free (m : module) (inst : Z) : ust St unit :=
  if negb (dl_free m =? 0) then call_free (dl_free m) inst else mret tt.
Definition module_inst_signal (m : module) (inst sig : Z) : ust St unit :=
  if negb (dl_signal m =? 0) then call_signal (dl_signal m) inst sig else mret tt.
End Instances.

(** ** Threads *)

(** A thread in [module_query]: the search without the lock is before entry
    [i]; [QWait] waits for the lock; [QDone] has the result; [QFault] left an
    array: the name of a file is made in 256 characters whatever its length. *)
Inductive qpc :=
  | QOut | QScan (nm : list Z) (i : Z) | QWait (nm : list Z) | QDone (nm : list Z) (r : option Z) | QFault (nm : list Z).

Inductive qlocal (M : module_global) : qpc -> qpc -> Prop :=
  | q_call nm : qlocal M QOut (QScan nm 0)
  | q_hit nm i : i < count M -> at_name M i nm = Some true -> qlocal M (QScan nm i) (QDone nm (Some i))
  | q_miss nm i : i < count M -> at_name M i nm = Some false -> qlocal M (QScan nm i) (QScan nm (i + 1))
  | q_end nm i : count M <= i -> qlocal M (QScan nm i) (QWait nm)
  | q_return nm r : qlocal M (QDone nm r) QOut.

(** One step of a thread; what is done under the lock is one step. *)
Inductive qstep : list qpc * module_global -> list qpc * module_global -> Prop :=
  | q_local ts M (n : nat) t t' : ts !! n = Some t -> qlocal M t t' -> qstep (ts, M) (<[n := t']> ts, M)
  | q_locked ts M (n : nat) nm r M' : ts !! n = Some (QWait nm) -> query_locked nm M = Some (Returned r, M') ->
      qstep (ts, M) (<[n := QDone nm r]> ts, M')
  | q_fault ts M (n : nat) nm : ts !! n = Some (QWait nm) -> query_locked nm M = None ->
      qstep (ts, M) (<[n := QFault nm]> ts, M).

Definition q_start (n : nat) (p : list Z) : list qpc * module_global := (replicate n QOut, module_init p).

End Loader.

(** ** Templates *)

Record template := Template { pre : list Z; suf : list Z }.

Definition plain (s : list Z) : Prop := Forall (fun c => c <> 0 /\ c <> semicolon /\ c <> question) s.

Fixpoint join (ts : list template) : list Z :=
  match ts with
  | [] => []
  | [t] => pre t ++ question :: suf t
  | t :: ts => pre t ++ question :: suf t ++ semicolon :: join ts
  end.

(** The files that are tried: what the array still has from the one before
    stays behind the part of the template that is copied over it. *)
Fixpoint tried (nm last : list Z) (ts : list template) : list (list Z) :=
  match ts with
  | [] => []
  | t :: ts => let f := pre t ++ drop (length (pre t)) last ++ nm ++ suf t in f :: tried nm f ts
  end.

(** The first library that opens. *)
Fixpoint first_open {linker : Linker} (fs : list (list Z)) : Z :=
  match fs with [] => 0 | f :: fs => if dlopen f =? 0 then first_open fs else dlopen f end.

(** The second template never has a chance. *)
Example second_template :
  tried (bytes "log") [] [Template (bytes "./a/") (bytes ".so"); Template (bytes "./b/") (bytes ".so")] =
  [bytes "./a/log.so"; bytes "./b/log.solog.so"].
Proof. reflexivity. Qed.

(** ** Strings in arrays *)

Section Strings.
Implicit Types (c s w : list Z).

Definition nonzero s : Prop := Forall (fun x => x <> 0) s.

Lemma plain_nonzero s : plain s -> nonzero s.
Proof. intros H. eapply Forall_impl; [exact H|]. by intros x (? & _). Qed.

Lemma strchr_app s c x : Forall (fun y => y <> x) s -> strchr (s ++ x :: c) x = Some (zlen s).
Proof.
  induction 1 as [|y s Hy _ IH]; cbn [app strchr length]; [by rewrite Z.eqb_refl|].
  rewrite (proj2 (Z.eqb_neq y x)), IH by done. cbn [mbind option_bind]. f_equal. lia.
Qed.

Lemma strchr_none s x : Forall (fun y => y <> x) s -> strchr s x = None.
Proof. induction 1 as [|y s Hy _ IH]; cbn [strchr]; [done|]. by rewrite (proj2 (Z.eqb_neq y x)), IH. Qed.

(** An array of 256 bytes with the string [c]. *)
Definition array c : list Z := c ++ replicate (256 - length c) 0.

Lemma array_bytes c : zlen c < 256 -> length (array c) = 256%nat.
Proof. intros H. unfold array. rewrite length_app, length_replicate. lia. Qed.

Lemma strlen_array c : nonzero c -> zlen c < 256 -> strlen (array c) = Some (zlen c).
Proof.
  intros Hc Hl. unfold strlen, array. replace (256 - length c)%nat with (S (255 - length c)) by lia. cbn [replicate]. by apply strchr_app.
Qed.

Lemma cstring_array c : nonzero c -> zlen c < 256 -> cstring (array c) = c.
Proof. intros Hc Hl. unfold cstring. rewrite strlen_array by done. unfold array. by rewrite Nat2Z.id, take_app_length. Qed.

Lemma put_at (a l b : list Z) : put (a ++ l) (zlen a) b = if zlen b <=? zlen l then Some (a ++ b ++ drop (length b) l) else None.
Proof.
  unfold put. destruct (Z.leb_spec (zlen b) (zlen l)).
  - rewrite memcpy_Some by (rewrite ?length_app; lia). rewrite Nat2Z.id, drop_0, Nat2Z.id, take_app_length, take_ge by lia. do 3 f_equal.
    rewrite drop_app_ge by lia. f_equal. lia.
  - unfold memcpy. case_match; [|done]. rewrite length_app in *. lia.
Qed.

Lemma append_array c s : nonzero c -> zlen (c ++ s) < 256 -> strcat (array c) s = Some (array (c ++ s)).
Proof.
  intros Hc Hl. unfold strcat. rewrite length_app in Hl. rewrite strlen_array by (done || lia). cbn [mbind option_bind]. unfold array at 1.
  rewrite put_at. rewrite length_app, length_replicate. rewrite (proj2 (Z.leb_le _ _)) by (cbn [length]; lia). f_equal. unfold array.
  rewrite drop_replicate, <- !(assoc (++)). do 2 f_equal. change ([0] ++ ?l) with (0 :: l). rewrite length_app. cbn [length].
  replace (256 - (length c + length s))%nat with (S (256 - length c - (length s + 1))) by lia. done.
Qed.

Lemma strncpy_array c s (n : nat) : (n <= length s)%nat -> zlen c < 256 -> (n < 256)%nat ->
  strncpy (array c) s (Z.of_nat n) = Some (array (take n s ++ drop n c)).
Proof.
  intros Hn Hc H256. unfold strncpy. rewrite Nat2Z.id. replace (n - length s)%nat with 0%nat by lia. cbn [replicate]. rewrite app_nil_r.
  pose proof (put_at [] (array c) (take n s)) as E. cbn [app length] in E. change (Z.of_nat 0) with 0 in E. rewrite E. rewrite array_bytes, length_take, (proj2 (Z.leb_le _ _)) by lia.
  f_equal. replace (n `min` length s)%nat with n by lia. unfold array. rewrite <- (assoc (++)). f_equal.
  rewrite length_app, length_take, length_drop. destruct (decide (n <= length c)%nat).
  - rewrite drop_app_le by lia. do 2 f_equal. lia.
  - rewrite drop_app_ge, (drop_ge c) by lia. rewrite drop_replicate. cbn [app]. f_equal. lia.
Qed.

End Strings.

(** ** The files that are tried *)

Section Path.
Context {linker : Linker}.

Definition template_ok (t : template) : Prop := plain (pre t) /\ plain (suf t).

Lemma join_cons t ts : exists rest, join (t :: ts) = pre t ++ question :: suf t ++ rest /\
  (ts = [] /\ rest = [] \/ rest = semicolon :: join ts).
Proof.
  destruct ts as [|t' ts]; [exists []; rewrite app_nil_r; auto|]. exists (semicolon :: join (t' :: ts)). split; [done|by right].
Qed.

Lemma skip_join t ts : template_ok t -> skip_semicolons (join (t :: ts)) = join (t :: ts).
Proof.
  intros [Hp _]. destruct (join_cons t ts) as (rest & -> & _). destruct (pre t) as [|x s]; [done|].
  apply Forall_cons_1 in Hp as [(_ & Hx & _) _]. cbn [app skip_semicolons]. by rewrite (proj2 (Z.eqb_neq x semicolon)).
Qed.

Lemma open_loop_ok nm ts : nonzero nm -> forall fuel p c, Forall template_ok ts -> skip_semicolons p = join ts -> (length p < fuel)%nat ->
  nonzero c -> zlen c < 256 -> Forall (fun f => zlen f < 256) (tried nm c ts) ->
  open_loop fuel nm p (array c) = Some (Returned (first_open (tried nm c ts))).
Proof.
  intros Hnm. induction ts as [|t ts IH]; intros [|fuel] p c Hts Hp Hf Hc Hl Htr; try lia; cbn [open_loop]; rewrite Hp; [done|].
  apply Forall_cons_1 in Hts as [[Hpre Hsuf] Hts]. cbn [tried] in Htr |- *. set (f := pre t ++ drop (length (pre t)) c ++ nm ++ suf t) in *.
  apply Forall_cons_1 in Htr as [Hlf Htr]. cbn [first_open].
  assert (Hnf : nonzero f) by (unfold nonzero; unfold f; repeat (apply Forall_app; split); [by apply plain_nonzero|by apply Forall_drop|done|by apply plain_nonzero]).
  assert (Hlens : zlen (pre t) + zlen (nm ++ suf t) < 256 /\ zlen ((pre t ++ drop (length (pre t)) c) ++ nm) < 256 /\ zlen (suf t) < 256)
    by (unfold f in Hlf; rewrite !length_app in *; lia).
  assert (Hpl : (length (join (t :: ts)) <= length p)%nat).
  { rewrite <- Hp. clear. induction p as [|x p IH]; [done|]. cbn [skip_semicolons]. destruct (x =? semicolon); cbn [length]; lia. }
  destruct (join_cons t ts) as (rest & Ej & Hrest). rewrite Ej in *.
  set (q := pre t ++ question :: suf t ++ rest) in *.
  assert (Hnq : Forall (fun y => y <> question) (pre t)) by (eapply Forall_impl; [exact Hpre|]; by intros y (_ & _ & ?)).
  assert (Hq : strchr q question = Some (zlen (pre t))) by by apply strchr_app.
  assert (Hns : Forall (fun y => y <> semicolon) (pre t ++ question :: suf t)).
  { apply Forall_app. split; [eapply Forall_impl; [exact Hpre|]; by intros y (_ & ? & _)|]. apply Forall_cons. split; [done|].
    eapply Forall_impl; [exact Hsuf|]; by intros y (_ & ? & _). }
  assert (Hqs : q = (pre t ++ question :: suf t) ++ rest) by (unfold q; by rewrite <- (assoc (++))).
  assert (Hdrop : drop (Z.to_nat (zlen (pre t) + 1)) q = suf t ++ rest).
  { unfold q. replace (Z.to_nat (zlen (pre t) + 1)) with (length (pre t) + 1)%nat by lia. by rewrite <- drop_drop, drop_app_length. }
  assert (Hsize : match strchr q semicolon with None => zlen q | Some s => s end - zlen (pre t) - 1 = zlen (suf t)).
  { rewrite Hqs. destruct Hrest as [[_ ->] | ->].
    - rewrite app_nil_r, strchr_none by done. rewrite length_app. cbn [length]. lia.
    - rewrite strchr_app by done. rewrite length_app. cbn [length]. lia. }
  assert (Hmatch : forall (A : Type) (a b : A), match q with [] => a | _ :: _ => b end = b) by (intros; unfold q; by destruct (pre t)).
  rewrite Hmatch, Hq. cbn [mbind option_bind].
  assert (Hlq : (length (pre t) < length q)%nat) by (unfold q; rewrite length_app; cbn [length]; lia).
  rewrite strncpy_array by lia. cbn [mbind option_bind]. replace (take (length (pre t)) q) with (pre t) by (unfold q; by rewrite take_app_length).
  assert (Hn1 : nonzero (pre t ++ drop (length (pre t)) c)) by (apply Forall_app; split; [by apply plain_nonzero|by apply Forall_drop]).
  rewrite append_array by (done || lia). cbn [mbind option_bind]. rewrite Hsize.
  replace (u64 (zlen (suf t))) with (zlen (suf t)) by (symmetry; apply Z.mod_small; lia). rewrite Hdrop.
  change (strncat ?a ?s ?n) with (strcat a (take (Z.to_nat n) s)). rewrite Nat2Z.id, take_app_length.
  assert (Ef : ((pre t ++ drop (length (pre t)) c) ++ nm) ++ suf t = f) by (unfold f; by rewrite <- !(assoc (++))).
  rewrite append_array, Ef; [|by apply Forall_app|by rewrite Ef]. cbn [mbind option_bind]. rewrite cstring_array by done.
  destruct Hrest as [[-> Er] | Er]; rewrite Er in Hqs.
  - rewrite app_nil_r in Hqs. rewrite Hqs, strchr_none by done. cbn [tried first_open]. by destruct (Z.eqb_spec (dlopen f) 0) as [->|].
  - rewrite Hqs at 1. rewrite strchr_app by done. destruct (Z.eqb_spec (dlopen f) 0); [|done].
    rewrite Nat2Z.id, Hqs, drop_app_length. apply IH; try done.
    + destruct ts as [|t' ts]; [done|]. cbn [skip_semicolons Z.eqb semicolon]. apply (skip_join t' ts). by apply Forall_cons_1 in Hts as [? _].
    + rewrite Hqs, !length_app in Hpl. cbn [length] in Hpl |- *. lia.
Qed.

End Path.

(** ** The table *)

Section Table.
Context {linker : Linker}.
Implicit Types (M : module_global) (nm : list Z).

Record loader_ok M : Prop := {
  lo_length : length (modules M) = 64%nat;
  lo_count : 0 <= count M <= 64;
  lo_distinct i j m m' : i < count M -> j < count M -> aget (modules M) i = Some m -> aget (modules M) j = Some m' -> name m = name m' -> i = j;
  lo_init i m : i < count M -> aget (modules M) i = Some m -> dl_init m <> 0
}.

(** Entry [i] is a module [nm] that can be used. *)
Definition is_module M nm i : Prop := 0 <= i < count M /\ exists m, aget (modules M) i = Some m /\ name m = nm /\ dl_init m <> 0.

(** No module is [nm]. *)
Definition unknown M nm : Prop := forall i m, i < count M -> aget (modules M) i = Some m -> name m <> nm.

Definition grows M M' : Prop :=
  path M' = path M /\ count M <= count M' /\ forall i, i < count M -> aget (modules M') i = aget (modules M) i.

Lemma grown_refl M : grows M M.
Proof. split_and!; [done|lia|done]. Qed.

Lemma grows_trans M1 M2 M3 : grows M1 M2 -> grows M2 M3 -> grows M1 M3.
Proof.
  intros (P1 & C1 & H1) (P2 & C2 & H2). split_and!; [congruence|lia|]. intros i Hi. rewrite H2 by lia. by apply H1.
Qed.

Lemma is_module_grows M M' nm i : grows M M' -> is_module M nm i -> is_module M' nm i.
Proof. intros (_ & Hc & Hg) [Hi (m & Hm & H)]. split; [lia|]. exists m. rewrite Hg by lia. done. Qed.

Lemma at_name_ok M nm i : loader_ok M -> 0 <= i < count M -> exists m, aget (modules M) i = Some m /\ at_name M i nm = Some (bool_decide (name m = nm)).
Proof.
  intros HM Hi. pose proof (lo_count M HM). pose proof (lo_length M HM). destruct (aget_is_Some (modules M) i) as [m Hm]; [lia|].
  exists m. split; [done|]. unfold at_name. by rewrite Hm.
Qed.

Lemma query_loop_ok M nm k i : loader_ok M -> 0 <= i -> i + Z.of_nat k = count M ->
  (forall j m, j < i -> aget (modules M) j = Some m -> name m <> nm) ->
  exists r, query_loop k M i nm = Some r /\ match r with Some j => is_module M nm j | None => unknown M nm end.
Proof.
  intros HM. revert i. induction k as [|k IH]; intros i Hi Hk Hno; cbn [query_loop].
  - eexists. split; [done|]. intros j m Hj. apply Hno. lia.
  - destruct (at_name_ok M nm i HM) as (m & Hm & ->); [lia|]. cbn [mbind option_bind]. destruct (bool_decide_reflect (name m = nm)) as [E|E].
    + eexists. split; [done|]. split; [lia|]. exists m. split_and!; [done..|]. eapply lo_init; [done| |done]. lia.
    + apply IH; [lia..|]. intros j m' Hj Hm'. destruct (decide (j = i)) as [->|]; [congruence|]. eapply Hno; [|done]. lia.
Qed.

Lemma query_ok M nm : loader_ok M -> exists r, _query M nm = Some r /\ match r with Some j => is_module M nm j | None => unknown M nm end.
Proof.
  intros HM. pose proof (lo_count M HM). apply query_loop_ok; [done|lia|lia|]. intros j m Hj Hm. apply aget_Some in Hm. lia.
Qed.

Lemma symbol_ok d nm suffix : zlen suffix <= 7 -> symbol d nm suffix = Some (dlsym d (nm ++ suffix)).
Proof. intros H. unfold symbol. rewrite length_app, (proj2 (Z.leb_le _ _)) by lia. done. Qed.

Lemma module_sym_ok nm d : exists m, _module_sym (Mod nm d 0 0 0 0) = Some (m, if dlsym d (nm ++ bytes "_init") =? 0 then -1 else 0) /\
  name m = nm /\ dl m = d /\ dl_init m = dlsym d (nm ++ bytes "_init").
Proof. unfold _module_sym. cbn [name dl]. rewrite !symbol_ok by (cbn; lia). cbn [mbind option_bind]. by eexists. Qed.

(** The entry behind the last one. *)
Lemma set_module_ok M m : loader_ok M -> count M < 64 -> exists M', set_module M m = Some M' /\ loader_ok M' /\ grows M M' /\
  count M' = count M /\ aget (modules M') (count M) = Some m.
Proof.
  intros HM Hc. pose proof (lo_length M HM) as Hl. pose proof (lo_count M HM) as Hc0. unfold set_module. rewrite aset_Some by lia. cbn [mbind option_bind].
  eexists. split; [done|]. assert (Hag : forall i, i < count M -> aget (<[Z.to_nat (count M) := m]> (modules M)) i = aget (modules M) i).
  { intros i Hi. apply aget_insert_ne; lia. }
  split_and!; cbn [count modules path]; [|split_and!; [done|cbn; lia|exact Hag]|done|apply aget_insert_eq; lia].
  split; cbn [count modules]; [by rewrite length_insert|done| |].
  - intros i j m1 m2 Hi Hj. rewrite !Hag by done. by apply (lo_distinct M HM).
  - intros i m1 Hi. rewrite Hag by done. by apply (lo_init M HM).
Qed.

(** A new module. *)
Lemma loader_ok_more M m : loader_ok M -> count M < 64 -> aget (modules M) (count M) = Some m -> unknown M (name m) -> dl_init m <> 0 ->
  loader_ok (Global (path M) (modules M) (count M + 1)).
Proof.
  intros HM Hc Hm Hu Hi. split; cbn [count modules]; [apply HM|pose proof (lo_count M HM); lia| |].
  - intros i j m1 m2 H1 H2 E1 E2 En. destruct (decide (i = count M)) as [->|], (decide (j = count M)) as [->|]; [done| | |].
    + exfalso. apply (Hu j m2); [lia|done|]. congruence.
    + exfalso. apply (Hu i m1); [lia|done|]. congruence.
    + eapply (lo_distinct M HM); [lia|lia|done..].
  - intros i m1 H1 E1. destruct (decide (i = count M)) as [->|]; [congruence|]. eapply (lo_init M HM); [|done]. lia.
Qed.

(** Templates along which the names of files fit into the array. *)
Definition fits (ts : list template) nm : Prop := nonzero nm /\ Forall (fun f => zlen f < 256) (tried nm [] ts).

Lemma module_open_ok M ts nm : path M = join ts -> Forall template_ok ts -> fits ts nm ->
  _module_open M nm = Some (Returned (first_open (tried nm [] ts))).
Proof.
  intros Hp Hts [Hn Hf]. unfold _module_open. change (replicate 256 0) with (array []).
  apply open_loop_ok; [done|done| |lia|constructor|done|done]. rewrite Hp. destruct ts as [|t ts]; [done|]. apply skip_join. by apply Forall_cons_1 in Hts as [? _].
Qed.

(** Why there is no module [nm]. *)
Definition no_way M ts nm : Prop :=
  unknown M nm /\ (count M = 64 \/ first_open (tried nm [] ts) = 0 \/ dlsym (first_open (tried nm [] ts)) (nm ++ bytes "_init") = 0).

Lemma query_locked_ok M ts nm : loader_ok M -> path M = join ts -> Forall template_ok ts -> fits ts nm ->
  exists r M', query_locked nm M = Some (Returned r, M') /\ (r = None -> no_way M ts nm).
Proof.
  intros HM Hp Hts Hf. unfold query_locked, no_way. destruct (query_ok M nm HM) as (r & -> & Hr). cbn [mbind option_bind].
  destruct r as [i|]; [by eexists _, _|]. change MODULE_SIZE with 64. destruct (Z.ltb_spec (count M) 64) as [Hc|Hc].
  2: { exists None, M. pose proof (lo_count M HM). split; [done|]. intros _. split; [done|left; lia]. }
  rewrite (module_open_ok M ts nm Hp Hts Hf). set (d := first_open (tried nm [] ts)) in *. cbn [mbind option_bind].
  destruct (Z.eqb_spec d 0) as [Hd|Hd]; cbn [negb]; [exists None, M; auto|].
  destruct (set_module_ok M (Mod nm d 0 0 0 0) HM Hc) as (M1 & -> & HM1 & _ & C1 & _). cbn [mbind option_bind].
  destruct (module_sym_ok nm d) as (m & -> & _ & _ & _). cbn [mbind option_bind].
  destruct (set_module_ok M1 m HM1) as (M2 & -> & _); [lia|]. cbn [mbind option_bind].
  destruct (Z.eqb_spec (dlsym d (nm ++ bytes "_init")) 0) as [H0|H0]; cbn [Z.eqb]; eexists _, _; (split; [done|]); [auto|done].
Qed.

End Table.

(** ** Threads *)

Section Threads.
Context {linker : Linker} (ts : list template) (Hts : Forall template_ok ts).
Implicit Types (M : module_global) (nm : list Z) (pcs : list qpc).

Definition thread_ok M (t : qpc) : Prop :=
  match t with QScan nm i => 0 <= i | QDone nm (Some i) => is_module M nm i | QFault nm => ~ fits ts nm | _ => True end.

Record sys_ok (s : list qpc * module_global) : Prop := {
  so_table : loader_ok s.2;
  so_path : path s.2 = join ts;
  so_threads : Forall (thread_ok s.2) s.1
}.

Lemma thread_ok_grows M M' t : grows M M' -> thread_ok M t -> thread_ok M' t.
Proof. intros HG. destruct t as [| |nm|nm [i|]|nm]; cbn [thread_ok]; try done. by apply is_module_grows. Qed.

Lemma threads_start_ok n : sys_ok (q_start n (join ts)).
Proof.
  split; cbn [q_start fst snd]; [|done|by apply Forall_replicate].
  split; cbn [module_init modules count]; [by rewrite length_replicate|lia|intros i j m m' Hi _ Hm; apply aget_Some in Hm; lia|intros i m Hi Hm; apply aget_Some in Hm; lia].
Qed.

Lemma at_name_true M nm i : loader_ok M -> i < count M -> at_name M i nm = Some true -> is_module M nm i.
Proof.
  intros HM Hi. unfold at_name. destruct (aget (modules M) i) as [m|] eqn:Hm; [|done]. cbn [mbind option_bind]. intros [= E%bool_decide_eq_true].
  pose proof (aget_Some _ _ _ Hm). split; [lia|]. exists m. split_and!; [done..|]. by apply (lo_init M HM i).
Qed.

Lemma local_ok M t t' : loader_ok M -> thread_ok M t -> qlocal M t t' -> thread_ok M t'.
Proof. intros HM Ht Hq. invc Hq; cbn [thread_ok] in *; try done; [by apply at_name_true|lia]. Qed.

(** What the lock is held for, when names of any length are asked for. *)
Lemma query_locked_inv M nm r M' : loader_ok M -> query_locked nm M = Some (Returned r, M') ->
  loader_ok M' /\ grows M M' /\ match r with Some i => is_module M' nm i | None => True end.
Proof.
  intros HM. unfold query_locked. destruct (query_ok M nm HM) as (q & -> & Hq). cbn [mbind option_bind].
  destruct q as [i|]; [intros [= <- <-]; split_and!; (done || apply grown_refl)|].
  change MODULE_SIZE with 64. destruct (Z.ltb_spec (count M) 64) as [Hc|Hc]; [|intros [= <- <-]; split_and!; (done || apply grown_refl)].
  destruct (_module_open M nm) as [[d|]|]; cbn [mbind option_bind]; [|done|done].
  destruct (Z.eqb_spec d 0) as [Hd|Hd]; cbn [negb]; [intros [= <- <-]; split_and!; (done || apply grown_refl)|].
  destruct (set_module_ok M (Mod nm d 0 0 0 0) HM Hc) as (M1 & -> & HM1 & G1 & C1 & _). cbn [mbind option_bind].
  destruct (module_sym_ok nm d) as (m & -> & Hn & _ & Hi). cbn [mbind option_bind].
  destruct (set_module_ok M1 m HM1) as (M2 & -> & HM2 & G2 & C2 & Hm); [lia|]. cbn [mbind option_bind].
  pose proof (grows_trans _ _ _ G1 G2) as G. rewrite <- C2 in Hm. destruct (Z.eqb_spec (dlsym d (nm ++ bytes "_init")) 0) as [H0|H0]; cbn [Z.eqb].
  - by intros [= <- <-].
  - intros [= <- <-]. split; [|split].
    + apply (loader_ok_more M2 m); [done|lia|done| |congruence]. rewrite Hn. intros i m' Hi' Hm'. destruct G as (_ & _ & G). rewrite G in Hm' by lia. eapply Hq; [|done]. lia.
    + destruct G as (Gp & Gc & Ga). split_and!; cbn [path count modules]; [done|lia|done].
    + split; cbn [count modules]; [pose proof (lo_count M2 HM2); lia|]. exists m. split_and!; [done..|]. congruence.
Qed.

Lemma step_ok s s' : sys_ok s -> qstep s s' -> sys_ok s' /\ grows s.2 s'.2.
Proof.
  intros [HM Hp Ht] Hs. destruct Hs as [pcs M n t t' Hn Hq|pcs M n nm r M' Hn Hq|pcs M n nm Hn Hq]; cbn [fst snd] in *.
  - split; [|apply grown_refl]. split; cbn [fst snd]; [done|done|]. apply Forall_insert; [done|].
    eapply local_ok; [done| |exact Hq]. by eapply Forall_lookup_1 in Hn.
  - destruct (query_locked_inv M nm r M' HM Hq) as (HM' & HG & Hr). split; [|done]. split; cbn [fst snd]; [done|destruct HG as (-> & _); done|].
    apply Forall_insert; [eapply Forall_impl; [exact Ht|]; intros t; by apply thread_ok_grows|]. by destruct r.
  - split; [|apply grown_refl]. split; cbn [fst snd]; [done|done|]. apply Forall_insert; [done|].
    intros Hf. destruct (query_locked_ok M ts nm HM Hp Hts Hf) as (r & M' & E & _). by rewrite E in Hq.
Qed.

Lemma run_ok s s' : sys_ok s -> rtc qstep s s' -> sys_ok s' /\ grows s.2 s'.2.
Proof.
  intros Hs Hr. induction Hr as [s|s1 s2 s3 Hq _ IH]; [split; [done|apply grown_refl]|]. destruct (step_ok s1 s2 Hs Hq) as [H2 G].
  destruct (IH H2) as [H3 G']. split; [done|]. by eapply grows_trans.
Qed.

(** A thread that does not wait for the lock and has not left an array goes on. *)
Definition running (t : qpc) : bool := match t with QWait _ | QFault _ => false | _ => true end.

Lemma local_step M t : loader_ok M -> thread_ok M t -> running t = true -> exists t', qlocal M t t'.
Proof.
  intros HM Ht Hw. destruct t as [|nm i|nm|nm r|nm]; [eexists; by apply (q_call _ [])| |done|eexists; apply q_return|done].
  destruct (Z.le_gt_cases (count M) i) as [Hc|Hc]; [eexists; by apply q_end|].
  destruct (at_name_ok M nm i HM) as (m & _ & Hn); [cbn in Ht; lia|]. destruct (bool_decide (name m = nm)); eexists; [by apply q_hit|by apply q_miss].
Qed.

End Threads.

(** The files that [module_query] tries along a path of templates, in this
    order, until one opens: each is made in an array that still has the name
    before it, so the first template alone gives the name that is meant. *)
Lemma module_path {linker : Linker} M ts nm : path M = join ts -> Forall template_ok ts -> fits ts nm ->
  _module_open M nm = Some (Returned (first_open (tried nm [] ts))) /\
  (forall t, ts = [t] -> tried nm [] ts = [pre t ++ nm ++ suf t]).
Proof.
  intros Hp Hts Hf. split; [by apply module_open_ok|]. intros t ->. cbn [tried]. by rewrite drop_nil.
Qed.

(** C2: for any number of threads that ask for modules along a path of proper
    templates ([template_ok]: one question mark each), in every interleaving:
    no two modules of the table have one name; a thread that gets a module gets
    the one with the name it asked for, which can be initialised; what is in the
    table stays where it is; a thread leaves an array only for a name some file
    name of which does not fit into 256 characters ([fits] fails); every other
    thread can go on, and one that has the lock, with a name that fits, returns,
    and if it gets no module that is because the table is full, no file opens or
    the library has no function [init]. *)
Theorem loader_safe {linker : Linker} ts n pcs M : Forall template_ok ts -> rtc qstep (q_start n (join ts)) (pcs, M) ->
  (forall i j m m', i < count M -> j < count M -> aget (modules M) i = Some m -> aget (modules M) j = Some m' -> name m = name m' -> i = j) /\
  (forall k nm i, pcs !! k = Some (QDone nm (Some i)) -> is_module M nm i) /\
  (forall pcs' M' i, rtc qstep (pcs, M) (pcs', M') -> i < count M -> i < count M' /\ aget (modules M') i = aget (modules M) i) /\
  (forall k nm, pcs !! k = Some (QFault nm) -> ~ fits ts nm) /\
  (forall k t, pcs !! k = Some t -> running t = true -> exists t', qstep (pcs, M) (<[k := t']> pcs, M)) /\
  (forall k nm, pcs !! k = Some (QWait nm) -> fits ts nm -> exists r M', qstep (pcs, M) (<[k := QDone nm r]> pcs, M') /\
    (r = None -> no_way M ts nm)).
Proof.
  intros Hts Hr. destruct (run_ok ts Hts _ _ (threads_start_ok ts n) Hr) as [Hs _]. pose proof Hs as [HM Hp Ht]. cbn [fst snd] in *. split_and!.
  - apply (lo_distinct M HM).
  - intros k nm i Hk. exact (Forall_lookup_1 _ _ _ _ Ht Hk).
  - intros pcs' M' i Hr' Hi. destruct (run_ok ts Hts _ _ Hs Hr') as [_ (_ & Hc & Hg)]. cbn [snd] in *. split; [lia|by apply Hg].
  - intros k nm Hk. exact (Forall_lookup_1 _ _ _ _ Ht Hk).
  - intros k t Hk Hw. destruct (local_step ts M t HM (Forall_lookup_1 _ _ _ _ Ht Hk) Hw) as [t' Hq]. exists t'. by eapply q_local.
  - intros k nm Hk Hf. destruct (query_locked_ok M ts nm HM Hp Hts Hf) as (r & M' & Hq & Hres). exists r, M'. split; [by apply q_locked|done].
Qed.

(** ** A linker *)

Definition demo_linker : Linker := {|
  dlopen f := if bool_decide (f = bytes "./log.so") then 5 else 0;
  dlsym d s := if bool_decide (s = bytes "log_init") then 7 else 0
|}.
Definition demo_path : list template := [Template (bytes "./") (bytes ".so")].

Lemma demo_path_ok : Forall template_ok demo_path /\ fits demo_path (bytes "log").
Proof.
  split; [|split; [|by repeat constructor]].
  - apply Forall_singleton. split; repeat (apply Forall_cons_2; [by vm_compute|]); apply Forall_nil_2.
  - repeat (apply Forall_cons_2; [done|]); apply Forall_nil_2.
Qed.

Lemma demo_threads : exists M, rtc (qstep (linker := demo_linker)) (q_start 2 (join demo_path)) ([QDone (bytes "log") (Some 0); QWait (bytes "log")], M).
Proof.
  eexists. eapply rtc_l; [eapply (q_local _ _ 0%nat); [reflexivity|apply (q_call _ (bytes "log"))]|].
  eapply rtc_l; [eapply (q_local _ _ 1%nat); [reflexivity|apply (q_call _ (bytes "log"))]|].
  eapply rtc_l; [eapply (q_local _ _ 0%nat); [reflexivity|by apply q_end]|].
  eapply rtc_l; [eapply (q_local _ _ 1%nat); [reflexivity|by apply q_end]|].
  eapply rtc_l; [eapply (q_locked _ _ 0%nat _ (Some 0)); [reflexivity|vm_compute; reflexivity]|]. apply rtc_refl.
Qed.

Lemma loader_safe_witness : exists M pcs, is_module M (bytes "log") 0 /\
  exists r M', qstep (linker := demo_linker) (pcs, M) (<[1%nat := QDone (bytes "log") r]> pcs, M').
Proof.
  destruct demo_threads as [M Hr]. destruct demo_path_ok as [H1 H2].
  destruct (loader_safe (linker := demo_linker) demo_path 2 _ M H1 Hr) as (_ & Hd & _ & _ & _ & Hw). eexists M, _. split; [by apply (Hd 0%nat)|].
  destruct (Hw 1%nat (bytes "log") eq_refl H2) as (r & M' & Hs & _). exists r, M'. exact Hs.
Defined.

(** [module_open] does not test the length of a name: one of 250 characters
    still fits between "./" and ".so", one of 251 overruns the array. *)
Example long_name_overruns :
  let open k := _module_open (linker := demo_linker) (module_init (join demo_path)) (repeat 97 k) in
  open 250%nat = Some (Returned 0) /\ open 251%nat = None.
Proof. vm_compute. done. Qed.
