(* ===== verification/Timer.v ===== *)
(** * The timing wheel (src/timer.c)

    A wheel of 256 near slots and four levels of 64 lists.  A linked list
    with a tail pointer is the list of its nodes in order; [link] appends and
    [link_clear] empties.  [U] is the user data copied behind a node.  The
    clock readings are arguments.  [None] is an access outside the wheel.

    [_timer_execute] releases the lock while callbacks run, so other threads
    add timers between the callbacks: [tstep] is the interleaving semantics,
    at the granularity of the critical sections. *)

From stdpp Require Import sorting.
From S2P Require Import Prelude.

Definition TIMER_NEAR_SHIFT : Z := 8.
Definition TIMER_NEAR : Z := Z.shiftl 1 TIMER_NEAR_SHIFT.
Definition TIMER_NEAR_MASK : Z := TIMER_NEAR - 1.
Definition TIMER_LEVEL_SHIFT : Z := 6.
Definition TIMER_LEVEL : Z := Z.shiftl 1 TIMER_LEVEL_SHIFT.
Definition TIMER_LEVEL_MASK : Z := TIMER_LEVEL - 1.

(** [struct timer_node] with the data that follows it. *)
Record timer_node (U : Type) := TNode { tn_expire : Z; tn_ud : U }.
Arguments TNode {U} _ _.
Arguments tn_expire {U} _.
Arguments tn_ud {U} _.

(** [struct timer]. *)
Record timer (U : Type) := Timer {
  T_near : list (list (timer_node U));
  T_t : list (list (list (timer_node U)));
  T_time : Z;
  T_current : Z;
  T_start : Z;
  T_cur_pt : Z
}.
Arguments Timer {U} _ _ _ _ _ _.
Arguments T_near {U} _.
Arguments T_t {U} _.
Arguments T_time {U} _.
Arguments T_current {U} _.
Arguments T_start {U} _.
Arguments T_cur_pt {U} _.

(** The lists of a wheel: a near slot or slot [idx] of level [i]. *)
Inductive slot := Near (i : Z) | Level (i idx : Z).

#[export] Instance slot_eq_dec : EqDecision slot.
Proof. solve_decision. Defined.

Section Operations.
Context {U : Type}.
Implicit Types (T : timer U) (n : timer_node U) (l : list (timer_node U)).

Definition set_near near T : timer U :=
  Timer near (T_t T) (T_time T) (T_current T) (T_start T) (T_cur_pt T).
Definition set_t t T : timer U :=
  Timer (T_near T) t (T_time T) (T_current T) (T_start T) (T_cur_pt T).
Definition set_time time T : timer U :=
  Timer (T_near T) (T_t T) time (T_current T) (T_start T) (T_cur_pt T).
Definition set_clock current start pt T : timer U :=
  Timer (T_near T) (T_t T) (T_time T) current start pt.

Definition slot_get (s : slot) T : option (list (timer_node U)) :=
  match s with
  | Near i => aget (T_near T) i
  | Level i idx => row ← aget (T_t T) i; aget row idx
  end.

Definition slot_set (s : slot) l T : option (timer U) :=
  match s with
  | Near i => near ← aset (T_near T) i l; Some (set_near near T)
  | Level i idx =>
      row ← aget (T_t T) i; row ← aset row idx l; t ← aset (T_t T) i row;
      Some (set_t t T)
  end.

Definition link_clear (s : slot) T : option (list (timer_node U) * timer U) :=
  l ← slot_get s T; T ← slot_set s [] T; Some (l, T).

Definition link (s : slot) n T : option (timer U) :=
  l ← slot_get s T; slot_set s (l ++ [n]) T.

(** [for (i=0; i<3; i++)]: [k] iterations are left. *)
Fixpoint add_level (k : nat) (i mask expire time : Z) : Z :=
  match k with
  | O => i
  | S k =>
      if Z.lor expire (mask - 1) =? Z.lor time (mask - 1) then i
      else add_level k (i + 1) (u32 (Z.shiftl mask TIMER_LEVEL_SHIFT)) expire time
  end.

Definition add_slot (expire time : Z) : slot :=
  if Z.lor expire TIMER_NEAR_MASK =? Z.lor time TIMER_NEAR_MASK then
    Near (Z.land expire TIMER_NEAR_MASK)
  else
    let i := add_level 3 0 (Z.shiftl TIMER_NEAR TIMER_LEVEL_SHIFT) expire time in
    Level i (Z.land (Z.shiftr expire (TIMER_NEAR_SHIFT + i * TIMER_LEVEL_SHIFT)) TIMER_LEVEL_MASK).

Definition _timer_add_node n T : option (timer U) :=
  link (add_slot (tn_expire n) (T_time T)) n T.

Fixpoint add_nodes l T : option (timer U) :=
  match l with
  | [] => Some T
  | n :: l => T ← _timer_add_node n T; add_nodes l T
  end.

Definition _timer_move_list (level idx : Z) T : option (timer U) :=
  '(l, T) ← link_clear (Level level idx) T; add_nodes l T.

(** The loop of [_timer_shift]: which list moves, if any.  Four iterations are
    enough since [ct] is not zero. *)
Fixpoint shift_loop (fuel : nat) (i mask time ct : Z) : option (option (Z * Z)) :=
  if Z.land ct (mask - 1) =? 0 then
    match fuel with
    | O => None
    | S fuel =>
        let idx := Z.land time TIMER_LEVEL_MASK in
        if negb (idx =? 0) then Some (Some (i, idx))
        else shift_loop fuel (i + 1) (Z.shiftl mask TIMER_LEVEL_SHIFT)
                        (Z.shiftr time TIMER_LEVEL_SHIFT) ct
    end
  else Some None.

Definition _timer_shift T : option (timer U) :=
  let ct := u32 (T_time T + 1) in
  let T := set_time ct T in
  if ct =? 0 then _timer_move_list 3 0 T
  else
    mv ← shift_loop 4 0 TIMER_NEAR (Z.shiftr ct TIMER_NEAR_SHIFT) ct;
    match mv with
    | Some (i, idx) => _timer_move_list i idx T
    | None => Some T
    end.

(** [_timer_execute] with no other thread running: the nodes dispatched, in
    order. *)
Fixpoint _timer_execute (fuel : nat) T : option (list (timer_node U) * timer U) :=
  let s := Near (Z.land (T_time T) TIMER_NEAR_MASK) in
  l ← slot_get s T;
  match l with
  | [] => Some ([], T)
  | _ =>
      match fuel with
      | O => None
      | S fuel =>
          '(cur, T) ← link_clear s T;
          '(rest, T) ← _timer_execute fuel T;
          Some (cur ++ rest, T)
      end
  end.

Definition _timer_update T : option (list (timer_node U) * timer U) :=
  '(l1, T) ← _timer_execute 1 T;
  T ← _timer_shift T;
  '(l2, T) ← _timer_execute 1 T;
  Some (l1 ++ l2, T).

(** [timer_init] on the zeroed static [T]. *)
Definition timer_init (sec cs now : Z) : timer U :=
  Timer (replicate 256 []) (replicate 4 (replicate 64 [])) 0 cs sec now.

Definition timer_timeout (time : Z) (ud : U) T : option (timer U) :=
  _timer_add_node (TNode (u32 (T_time T + time)) ud) T.

(** [for (i=0; i<diff; i++) _timer_update();] *)
Fixpoint update_loop (diff : nat) T : option (list (timer_node U) * timer U) :=
  match diff with
  | O => Some ([], T)
  | S diff =>
      '(l1, T) ← _timer_update T;
      '(l2, T) ← update_loop diff T;
      Some (l1 ++ l2, T)
  end.

Definition timer_update (cp : Z) T : option (list (timer_node U) * timer U) :=
  if cp <? T_cur_pt T then Some ([], set_clock (T_current T) (T_start T) cp T)
  else if negb (cp =? T_cur_pt T) then
    let oc := T_current T in
    let diff := u32 (cp - T_cur_pt T) in
    let current := u32 (T_current T + diff) in
    let start := if current <? oc then u32 (T_start T + 0xffffffff / 100) else T_start T in
    update_loop (Z.to_nat diff) (set_clock current start cp T)
  else Some ([], T).

Definition timer_starttime T : Z := T_start T.
Definition timer_now T : Z := T_current T.

(** [timer_unit]: the nodes given back to the allocator. *)
Fixpoint unit_slots (ss : list slot) T : option (list (timer_node U) * timer U) :=
  match ss with
  | [] => Some ([], T)
  | s :: ss =>
      '(l, T) ← link_clear s T; '(ls, T) ← unit_slots ss T; Some (l ++ ls, T)
  end.

Definition timer_unit T : option (list (timer_node U) * timer U) :=
  unit_slots ((Near <$> seqZ 0 TIMER_NEAR) ++
              (i ← seqZ 0 4; Level i <$> seqZ 0 TIMER_LEVEL_MASK)) T.

(** ** Interleaving with other threads *)

(** The timer thread between its critical sections: [PcRun first] holds the
    lock in the first ([true]) or second [_timer_execute], [PcDispatch] runs
    callbacks without the lock, [PcShift] holds the lock at [_timer_shift]. *)
Inductive tpc :=
  | PcIdle | PcRun (first : bool) | PcDispatch (first : bool) (cur : list (timer_node U)) | PcShift.

(** [ts_requested] and [ts_fired] record the history: the node of every
    [timer_timeout], and every dispatched node with the tick it was
    dispatched at. *)
Record tsys := TSys {
  ts_timer : timer U;
  ts_pc : tpc;
  ts_requested : list (timer_node U);
  ts_fired : list (Z * timer_node U)
}.

Definition unlocked (pc : tpc) : bool :=
  match pc with PcIdle | PcDispatch _ _ => true | _ => false end.

Inductive tstep : tsys -> tsys -> Prop :=
  | step_timeout T T' pc req fired time ud :
      unlocked pc = true -> 0 <= time < 2 ^ 31 ->
      timer_timeout time ud T = Some T' ->
      tstep (TSys T pc req fired)
            (TSys T' pc (TNode (u32 (T_time T + time)) ud :: req) fired)
  | step_lock T req fired :
      tstep (TSys T PcIdle req fired) (TSys T (PcRun true) req fired)
  | step_take T T' b req fired n l :
      link_clear (Near (Z.land (T_time T) TIMER_NEAR_MASK)) T = Some (n :: l, T') ->
      tstep (TSys T (PcRun b) req fired) (TSys T' (PcDispatch b (n :: l)) req fired)
  | step_empty T b req fired :
      slot_get (Near (Z.land (T_time T) TIMER_NEAR_MASK)) T = Some [] ->
      tstep (TSys T (PcRun b) req fired)
            (TSys T (if b then PcShift else PcIdle) req fired)
  | step_dispatch T b n l req fired :
      tstep (TSys T (PcDispatch b (n :: l)) req fired)
            (TSys T (PcDispatch b l) req ((T_time T, n) :: fired))
  | step_relock T b req fired :
      tstep (TSys T (PcDispatch b []) req fired) (TSys T (PcRun b) req fired)
  | step_shift T T' req fired :
      _timer_shift T = Some T' ->
      tstep (TSys T PcShift req fired) (TSys T' (PcRun false) req fired).

(** ** Pending nodes and the wheel invariant *)

Definition pending T : list (timer_node U) := mjoin (T_near T) ++ mjoin (mjoin (T_t T)).

Definition dispatching (pc : tpc) : list (timer_node U) :=
  match pc with PcDispatch _ cur => cur | _ => [] end.

(** Ticks until node [n] expires. *)
Definition remaining (time : Z) n : Z := u32 (tn_expire n - time).

(** Where a node belongs at [time], by comparing digits of the two ticks. *)
Definition place (e time : Z) : slot :=
  if e / 2 ^ 8 =? time / 2 ^ 8 then Near (e mod 2 ^ 8)
  else if e / 2 ^ 14 =? time / 2 ^ 14 then Level 0 (e / 2 ^ 8 mod 2 ^ 6)
  else if e / 2 ^ 20 =? time / 2 ^ 20 then Level 1 (e / 2 ^ 14 mod 2 ^ 6)
  else if e / 2 ^ 26 =? time / 2 ^ 26 then Level 2 (e / 2 ^ 20 mod 2 ^ 6)
  else Level 3 (e / 2 ^ 26 mod 2 ^ 6).

Definition slot_ok (s : slot) : Prop :=
  match s with Near i => 0 <= i < 2 ^ 8 | Level i idx => 0 <= i < 4 /\ 0 <= idx < 2 ^ 6 end.

Definition node_ok (time : Z) n : Prop :=
  0 <= tn_expire n < 2 ^ 32 /\ remaining time n < 2 ^ 31.

Record wheel_shape T : Prop := {
  ws_near : length (T_near T) = 256%nat;
  ws_t : length (T_t T) = 4%nat;
  ws_rows : Forall (fun row => length row = 64%nat) (T_t T);
  ws_time : 0 <= T_time T < 2 ^ 32
}.

(** Every node is in the list it belongs to and is not overdue. *)
Record wheel_wf T : Prop := {
  wh_shape : wheel_shape T;
  wh_place : forall s l n, slot_get s T = Some l -> n ∈ l ->
    node_ok (T_time T) n /\ place (tn_expire n) (T_time T) = s
}.

Definition sys_init (sec cs now : Z) : tsys := TSys (timer_init sec cs now) PcIdle [] [].

Record sys_wf (s : tsys) : Prop := {
  sw_wheel : wheel_wf (ts_timer s);
  sw_shift : ts_pc s = PcShift ->
    slot_get (Near (T_time (ts_timer s) mod 2 ^ 8)) (ts_timer s) = Some [];
  sw_cur : Forall (fun n => tn_expire n = T_time (ts_timer s)) (dispatching (ts_pc s));
  sw_fired : Forall (fun '(t, n) => t = tn_expire n) (ts_fired s);
  sw_all : ts_requested s ≡ₚ pending (ts_timer s) ++ dispatching (ts_pc s) ++ (snd <$> ts_fired s)
}.

End Operations.

Arguments tpc : clear implicits.
Arguments tsys : clear implicits.

(** ** The slot of a node *)

Lemma add_slot_place e time : add_slot e time = place e time.
Proof.
  unfold add_slot, place.
  change TIMER_NEAR_MASK with (2 ^ 8 - 1). rewrite lor_pow2_pred, land_pow2_pred by lia.
  destruct (e / 2 ^ 8 =? time / 2 ^ 8); [done|]. cbn [add_level].
  change (Z.shiftl TIMER_NEAR TIMER_LEVEL_SHIFT - 1) with (2 ^ 14 - 1).
  change (u32 (Z.shiftl (Z.shiftl TIMER_NEAR TIMER_LEVEL_SHIFT) TIMER_LEVEL_SHIFT) - 1) with (2 ^ 20 - 1).
  change (u32 (Z.shiftl (u32 (Z.shiftl (Z.shiftl TIMER_NEAR TIMER_LEVEL_SHIFT) TIMER_LEVEL_SHIFT))
               TIMER_LEVEL_SHIFT) - 1) with (2 ^ 26 - 1).
  rewrite !lor_pow2_pred by lia. change TIMER_LEVEL_MASK with (2 ^ 6 - 1).
  rewrite land_pow2_pred by lia.
  change TIMER_NEAR_SHIFT with 8. change TIMER_LEVEL_SHIFT with 6.
  rewrite Z.shiftr_div_pow2 by (repeat case_match; lia).
  by repeat case_match.
Qed.

Lemma place_ok e time : slot_ok (place e time).
Proof.
  unfold place. repeat case_match; cbn; repeat split; try lia; apply Z.mod_pos_bound; lia.
Qed.

(** The list that moves when the clock reaches [ct]: the first digit of [ct]
    above the near digit that is not zero. *)
Definition moved (ct : Z) : option slot :=
  if ct =? 0 then Some (Level 3 0)
  else if negb (ct mod 2 ^ 8 =? 0) then None
  else if negb (ct / 2 ^ 8 mod 2 ^ 6 =? 0) then Some (Level 0 (ct / 2 ^ 8 mod 2 ^ 6))
  else if negb (ct / 2 ^ 14 mod 2 ^ 6 =? 0) then Some (Level 1 (ct / 2 ^ 14 mod 2 ^ 6))
  else if negb (ct / 2 ^ 20 mod 2 ^ 6 =? 0) then Some (Level 2 (ct / 2 ^ 20 mod 2 ^ 6))
  else Some (Level 3 (ct / 2 ^ 26 mod 2 ^ 6)).

Lemma shift_loop_moved ct :
  0 < ct < 2 ^ 32 ->
  shift_loop 4 0 TIMER_NEAR (Z.shiftr ct TIMER_NEAR_SHIFT) ct =
  Some (match moved ct with Some (Level i idx) => Some (i, idx) | _ => None end).
Proof.
  intros Hct. unfold moved. rewrite (proj2 (Z.eqb_neq ct 0)) by lia. cbn [shift_loop].
  change TIMER_LEVEL_MASK with (2 ^ 6 - 1). change (TIMER_NEAR - 1) with (2 ^ 8 - 1).
  change (Z.shiftl TIMER_NEAR TIMER_LEVEL_SHIFT - 1) with (2 ^ 14 - 1).
  change (Z.shiftl (Z.shiftl TIMER_NEAR TIMER_LEVEL_SHIFT) TIMER_LEVEL_SHIFT - 1) with (2 ^ 20 - 1).
  change (Z.shiftl (Z.shiftl (Z.shiftl TIMER_NEAR TIMER_LEVEL_SHIFT) TIMER_LEVEL_SHIFT)
            TIMER_LEVEL_SHIFT - 1) with (2 ^ 26 - 1).
  change TIMER_NEAR_SHIFT with 8. change TIMER_LEVEL_SHIFT with 6.
  rewrite !Z.shiftr_shiftr, !land_pow2_pred, !Z.shiftr_div_pow2 by lia. 
  change (8 + 6) with 14. change (14 + 6) with 20. change (20 + 6) with 26.
  destruct (Z.eqb_spec (ct mod 2 ^ 8) 0) as [E0|E0]; [|done]. cbn [negb].
  destruct (Z.eqb_spec (ct / 2 ^ 8 mod 2 ^ 6) 0) as [E1|E1]; [|done]. cbn [negb].
  rewrite (proj2 (Z.eqb_eq (ct mod 2 ^ 14) 0)) by (Z.to_euclidean_division_equations; lia).
  destruct (Z.eqb_spec (ct / 2 ^ 14 mod 2 ^ 6) 0) as [E2|E2]; [|done]. cbn [negb].
  rewrite (proj2 (Z.eqb_eq (ct mod 2 ^ 20) 0)) by (Z.to_euclidean_division_equations; lia).
  destruct (Z.eqb_spec (ct / 2 ^ 20 mod 2 ^ 6) 0) as [E3|E3]; [|done]. cbn [negb].
  rewrite (proj2 (Z.eqb_eq (ct mod 2 ^ 26) 0)) by (Z.to_euclidean_division_equations; lia).
  destruct (Z.eqb_spec (ct / 2 ^ 26 mod 2 ^ 6) 0) as [E4|E4]; [|done].
  exfalso. Z.to_euclidean_division_equations; lia.
Qed.

Lemma u32_succ time :
  0 <= time < 2 ^ 32 ->
  (time = 2 ^ 32 - 1 /\ u32 (time + 1) = 0) \/ (time < 2 ^ 32 - 1 /\ u32 (time + 1) = time + 1).
Proof.
  intros Ht. unfold u32. destruct (Z.eq_dec time (2 ^ 32 - 1)) as [->|]; [by left|].
  right. rewrite Z.mod_small; lia.
Qed.

Lemma u32_sub e time :
  0 <= e < 2 ^ 32 -> 0 <= time < 2 ^ 32 ->
  u32 (e - time) = if e <? time then e - time + 2 ^ 32 else e - time.
Proof.
  intros He Ht. unfold u32. destruct (Z.ltb_spec e time).
  - symmetry. apply (Z.mod_unique_pos _ _ (-1)); lia.
  - rewrite Z.mod_small; lia.
Qed.

(** The next tick keeps the digits above a digit that does not become zero;
    when the low [k] bits become zero, no pending node shares the higher bits
    of the old tick. *)
Lemma tick_split k e time :
  0 <= k <= 31 ->
  0 <= e < 2 ^ 32 -> 0 <= time < 2 ^ 32 -> 0 < u32 (e - time) < 2 ^ 31 ->
  (u32 (time + 1) mod 2 ^ k <> 0 -> u32 (time + 1) / 2 ^ k = time / 2 ^ k) /\
  (u32 (time + 1) mod 2 ^ k = 0 -> e / 2 ^ k <> time / 2 ^ k).
Proof.
  intros Hk He Ht Hd. rewrite u32_sub in Hd by done.
  pose proof (Z.pow_pos_nonneg 2 k). pose proof (Z.pow_le_mono_r 2 k 31).
  pose proof (Z.mul_div_le e (2 ^ k)). pose proof (Z.mul_succ_div_gt e (2 ^ k)).
  pose proof (Z.div_mod time (2 ^ k)). pose proof (Z.mod_pos_bound time (2 ^ k)).
  destruct (u32_succ time Ht) as [[E ->]|[E ->]]; split.
  - rewrite Z.mod_0_l by lia. done.
  - intros _ Heq. rewrite Heq in *. destruct (e <? time) eqn:?; lia.
  - intros Hne. symmetry. apply (Z.div_unique_pos _ _ _ (time mod 2 ^ k + 1)); [|lia].
    destruct (Z.eq_dec (time mod 2 ^ k + 1) (2 ^ k)) as [E1|]; [|lia].
    destruct Hne. apply Z.mod_divide; [lia|]. exists (time / 2 ^ k + 1). lia.
  - intros Hm Heq. apply Z.mod_divide in Hm as [c Hc]; [|lia].
    assert (c = time / 2 ^ k + 1) as -> by nia. rewrite Heq in *.
    destruct (e <? time) eqn:?; lia.
Qed.

Lemma digit_zero a k j :
  0 <= k -> 0 <= j -> a mod 2 ^ k = 0 -> (a mod 2 ^ (k + j) = 0 <-> a / 2 ^ k mod 2 ^ j = 0).
Proof.
  intros Hk Hj Ha. pose proof (Z.pow_pos_nonneg 2 k). pose proof (Z.pow_pos_nonneg 2 j).
  rewrite Z.pow_add_r, Z.rem_mul_r, Ha by lia. nia.
Qed.

Lemma mod_nonzero a k j : 0 <= k -> 0 <= j -> a mod 2 ^ k <> 0 -> a mod 2 ^ (k + j) <> 0.
Proof.
  intros Hk Hj Ha H0. destruct Ha. pose proof (Z.pow_pos_nonneg 2 k).
  rewrite Z.pow_add_r in H0 by lia. apply Z.mod_divide in H0 as [c ->]; [|lia].
  apply Z.mod_divide; [lia|]. exists (c * 2 ^ j). lia.
Qed.

Lemma div_up a b k j : 0 <= k -> 0 <= j -> a / 2 ^ k = b / 2 ^ k -> a / 2 ^ (k + j) = b / 2 ^ (k + j).
Proof.
  intros Hk Hj E. pose proof (Z.pow_pos_nonneg 2 k). pose proof (Z.pow_pos_nonneg 2 j).
  rewrite Z.pow_add_r, <- !Z.div_div by lia. by rewrite E.
Qed.

(** [k] is one of the digit boundaries of the wheel. *)
Definition boundary (k : Z) : Prop := k = 8 \/ k = 14 \/ k = 20 \/ k = 26.

Ltac no_eqb H := rewrite (proj2 (Z.eqb_neq _ _) H).
Ltac yes_eqb H := rewrite (proj2 (Z.eqb_eq _ _) H).

Section Shift.
Context (e time ct : Z).
Hypothesis Hkeep : forall k, 0 <= k <= 31 -> ct mod 2 ^ k <> 0 -> ct / 2 ^ k = time / 2 ^ k.
Hypothesis Hend : forall k, 0 <= k <= 31 -> ct mod 2 ^ k = 0 -> e / 2 ^ k <> time / 2 ^ k.

Lemma boundary_up k j :
  boundary k -> boundary j -> k <= j -> e / 2 ^ k = ct / 2 ^ k -> e / 2 ^ j = ct / 2 ^ j.
Proof.
  intros Hk Hj Hle E. replace j with (k + (j - k)) by lia.
  apply div_up; [destruct Hk as [->|[->|[->| ->]]]; lia|lia|done].
Qed.

Lemma boundary_low k j :
  boundary k -> boundary j -> k <= j -> ct mod 2 ^ j = 0 -> ct mod 2 ^ k = 0.
Proof.
  intros Hk Hj Hle E. destruct (Z.eq_dec (ct mod 2 ^ k) 0) as [|N]; [done|].
  exfalso. apply (mod_nonzero ct k (j - k)); [destruct Hk as [->|[->|[->| ->]]]; lia|lia|done|].
  by replace (k + (j - k)) with j by lia.
Qed.

(** If the low [j] digits of the new tick are not all zero, [k] is below [j]. *)
Lemma boundary_hit k i j :
  boundary k -> boundary i -> boundary j -> j = i + 6 -> ct mod 2 ^ k = 0 -> ct mod 2 ^ j <> 0 ->
  e / 2 ^ k = ct / 2 ^ k ->
  e / 2 ^ i = ct / 2 ^ i /\ e / 2 ^ j = time / 2 ^ j.
Proof.
  intros Hk Hi Hj -> C N E.
  assert (k <= i).
  { destruct (Z.le_gt_cases k i); [done|]. destruct N. eapply boundary_low; [done|exact Hk| |done].
    unfold boundary in *. lia. }
  assert (Hup : forall b, boundary b -> i <= b -> e / 2 ^ b = ct / 2 ^ b).
  { intros b Hb Hib. eapply boundary_up; [exact Hk|done|lia|done]. }
  split; [apply Hup; [done|lia]|]. rewrite Hup by (done || lia). apply Hkeep; [|done].
  unfold boundary in *. lia.
Qed.

(** A pending node that shares the new prefix is in the list that moves. *)
Lemma hit_moved k :
  boundary k -> ct mod 2 ^ k = 0 -> e / 2 ^ k = ct / 2 ^ k -> moved ct = Some (place e time).
Proof.
  intros Hk C E. unfold moved, place.
  assert (B8 : boundary 8) by (unfold boundary; lia).
  assert (B14 : boundary 14) by (unfold boundary; lia).
  assert (B20 : boundary 20) by (unfold boundary; lia).
  assert (B26 : boundary 26) by (unfold boundary; lia).
  assert (C8 : ct mod 2 ^ 8 = 0).
  { eapply boundary_low; [done|exact Hk| |done]. unfold boundary in Hk; lia. }
  assert (E26 : e / 2 ^ 26 = ct / 2 ^ 26).
  { eapply boundary_up; [exact Hk|done| |done]. unfold boundary in Hk; lia. }
  no_eqb (Hend 8 ltac:(lia) C8). yes_eqb C8. cbn [negb].
  destruct (Z.eqb_spec ct 0) as [->|C0].
  { no_eqb (Hend 14 ltac:(lia) eq_refl). no_eqb (Hend 20 ltac:(lia) eq_refl).
    no_eqb (Hend 26 ltac:(lia) eq_refl). by rewrite E26. }
  destruct (Z.eqb_spec (ct / 2 ^ 8 mod 2 ^ 6) 0) as [Z|N].
  2: { rewrite <- (digit_zero ct 8 6) in N by (done || lia).
       destruct (boundary_hit k 8 14) as [-> ->]; try done. by rewrite Z.eqb_refl. }
  apply (digit_zero ct 8 6) in Z as C14; [|lia..|done]. clear Z.
  no_eqb (Hend 14 ltac:(lia) C14).
  destruct (Z.eqb_spec (ct / 2 ^ 14 mod 2 ^ 6) 0) as [Z|N].
  2: { rewrite <- (digit_zero ct 14 6) in N by (done || lia).
       destruct (boundary_hit k 14 20) as [-> ->]; try done. by rewrite Z.eqb_refl. }
  apply (digit_zero ct 14 6) in Z as C20; [|lia..|done]. clear Z.
  no_eqb (Hend 20 ltac:(lia) C20).
  destruct (Z.eqb_spec (ct / 2 ^ 20 mod 2 ^ 6) 0) as [Z|N].
  2: { rewrite <- (digit_zero ct 20 6) in N by (done || lia).
       destruct (boundary_hit k 20 26) as [-> ->]; try done. by rewrite Z.eqb_refl. }
  apply (digit_zero ct 20 6) in Z as C26; [|lia..|done].
  no_eqb (Hend 26 ltac:(lia) C26). by rewrite E26.
Qed.

(** Only the moved list can hold nodes whose place changes. *)
Lemma place_kept : moved ct <> Some (place e time) -> place e ct = place e time.
Proof.
  intros Hm.
  assert (Hk : forall k, boundary k -> (e / 2 ^ k =? ct / 2 ^ k) = (e / 2 ^ k =? time / 2 ^ k)).
  { intros k Hk. destruct (Z.eq_dec (ct mod 2 ^ k) 0) as [C|C].
    - no_eqb (Hend k ltac:(unfold boundary in Hk; lia) C). apply Z.eqb_neq. intros E.
      by destruct Hm; eapply hit_moved.
    - rewrite Hkeep; [done| |done]. unfold boundary in Hk; lia. }
  unfold place. by rewrite !Hk by (unfold boundary; lia).
Qed.
End Shift.

Lemma place_shift e time :
  0 <= e < 2 ^ 32 -> 0 <= time < 2 ^ 32 -> 0 < u32 (e - time) < 2 ^ 31 ->
  moved (u32 (time + 1)) <> Some (place e time) ->
  place e (u32 (time + 1)) = place e time.
Proof.
  intros He Ht Hd. apply place_kept; intros k Hk;
    destruct (tick_split k e time) as [H1 H2]; auto.
Qed.

(** ** Reading and writing slots *)

Section Slots.
Context {U : Type}.
Implicit Types (T : timer U) (n : timer_node U) (l : list (timer_node U)) (s : slot).

(** The fields [link] and [link_clear] leave alone. *)
Definition same_clock T T' : Prop :=
  T_time T' = T_time T /\ T_current T' = T_current T /\ T_start T' = T_start T /\
  T_cur_pt T' = T_cur_pt T.

Lemma level_row T i :
  wheel_shape T -> 0 <= i < 4 -> exists row, aget (T_t T) i = Some row /\ length row = 64%nat.
Proof.
  intros [_ H4 Hrows _] Hi. destruct (aget_is_Some (T_t T) i) as [row Hrow]; [lia|].
  exists row. split; [done|]. rewrite Forall_forall in Hrows. apply Hrows.
  unfold aget in Hrow. case_match; [|done]. by eapply list_elem_of_lookup_2.
Qed.

Lemma slot_get_total T s : wheel_shape T -> slot_ok s -> exists l, slot_get s T = Some l.
Proof.
  intros HT Hs. destruct s as [i|i idx]; cbn in *.
  - apply aget_is_Some. rewrite (ws_near _ HT). lia.
  - destruct (level_row T i HT) as (row & Hr & Hlen); [lia|]. rewrite Hr. cbn.
    apply aget_is_Some. lia.
Qed.

(** What [slot_set] does. *)
Record slot_written s l T T' : Prop := {
  sl_shape : wheel_shape T';
  sl_clock : same_clock T T';
  sl_same : slot_get s T' = Some l;
  sl_other : forall s', s' <> s -> slot_get s' T' = slot_get s' T;
  sl_pending : forall l0, slot_get s T = Some l0 -> pending T' ++ l0 ≡ₚ pending T ++ l
}.

Lemma slot_set_near T i l :
  wheel_shape T -> 0 <= i < 2 ^ 8 ->
  exists T', slot_set (Near i) l T = Some T' /\ slot_written (Near i) l T T'.
Proof.
  intros HT Hi. destruct HT as [H1 H2 H3 H4]. cbn. rewrite aset_Some by lia. cbn.
  eexists. split; [done|]. split; cbn.
  - split; cbn; by rewrite ?length_insert.
  - done.
  - apply aget_insert_eq. lia.
  - intros [j|j idx] Hne; cbn; [|done]. apply aget_insert_ne; [lia|congruence].
  - intros l0 Hl0. unfold pending; cbn. unfold aget in Hl0. case_match; [|done].
    pose proof (join_insert _ _ l _ Hl0) as Hp.
    rewrite (Permutation_app_comm (mjoin _) (mjoin (mjoin _))), <- (assoc (++)), Hp.
    solve_Permutation.
Qed.

Lemma slot_set_level T i idx l :
  wheel_shape T -> 0 <= i < 4 -> 0 <= idx < 2 ^ 6 ->
  exists T', slot_set (Level i idx) l T = Some T' /\ slot_written (Level i idx) l T T'.
Proof.
  intros HT Hi Hidx. destruct (level_row T i HT Hi) as (row & Hr & Hlen).
  destruct HT as [H1 H2 H3 H4]. cbn. rewrite Hr. cbn.
  rewrite aset_Some by lia. cbn. rewrite aset_Some by lia. cbn.
  eexists. split; [done|]. split; cbn.
  - split; cbn; [done|by rewrite length_insert| |done].
    apply Forall_insert; [done|]. by rewrite length_insert.
  - done.
  - rewrite aget_insert_eq by lia. cbn. apply aget_insert_eq. lia.
  - intros [j|j jdx] Hne; cbn; [done|]. destruct (Z.eq_dec i j) as [<-|].
    + rewrite aget_insert_eq by lia. cbn. rewrite Hr. cbn.
      apply aget_insert_ne; [lia|congruence].
    + by rewrite aget_insert_ne by lia.
  - intros l0. rewrite Hr. cbn. intros Hl0. unfold pending; cbn.
    unfold aget in Hr, Hl0. repeat case_match; try done.
    by rewrite <- (assoc (++)), (join_join_insert _ _ _ _ l _ Hr Hl0), (assoc (++)).
Qed.

Lemma slot_set_spec T s l :
  wheel_shape T -> slot_ok s -> exists T', slot_set s l T = Some T' /\ slot_written s l T T'.
Proof.
  intros HT Hs. destruct s as [i|i idx]; cbn in Hs;
    [by apply slot_set_near|apply slot_set_level; by try apply Hs].
Qed.

Lemma link_spec T s n :
  wheel_shape T -> slot_ok s ->
  exists l T', slot_get s T = Some l /\ link s n T = Some T' /\ slot_written s (l ++ [n]) T T'.
Proof.
  intros HT Hs. unfold link. destruct (slot_get_total T s HT Hs) as [l Hl].
  destruct (slot_set_spec T s (l ++ [n]) HT Hs) as (T' & Hset & Hw).
  exists l, T'. rewrite Hl. by cbn.
Qed.

Lemma link_clear_spec T s :
  wheel_shape T -> slot_ok s ->
  exists l T', slot_get s T = Some l /\ link_clear s T = Some (l, T') /\ slot_written s [] T T'.
Proof.
  intros HT Hs. unfold link_clear. destruct (slot_get_total T s HT Hs) as [l Hl].
  destruct (slot_set_spec T s [] HT Hs) as (T' & Hset & Hw).
  exists l, T'. rewrite Hl. cbn. rewrite Hset. by cbn.
Qed.

Lemma link_pending T T' s n l :
  slot_get s T = Some l -> slot_written s (l ++ [n]) T T' -> pending T' ≡ₚ n :: pending T.
Proof.
  intros Hl Hw. apply (Permutation_app_inv_r l). rewrite (sl_pending _ _ _ _ Hw l Hl).
  solve_Permutation.
Qed.

Lemma link_clear_pending T T' s l :
  slot_get s T = Some l -> slot_written s [] T T' -> l ++ pending T' ≡ₚ pending T.
Proof.
  intros Hl Hw. pose proof (sl_pending _ _ _ _ Hw l Hl) as H. rewrite app_nil_r in H.
  by rewrite <- H, Permutation_app_comm.
Qed.

(** ** The wheel invariant *)

(** All nodes are in their places at [time]; inside [_timer_shift] the wheel's
    own clock may already be ahead. *)
Definition placed_at (time : Z) T : Prop :=
  forall s l n, slot_get s T = Some l -> n ∈ l ->
    node_ok time n /\ place (tn_expire n) time = s.

Lemma add_node_spec T n :
  wheel_shape T -> placed_at (T_time T) T -> node_ok (T_time T) n ->
  exists T', _timer_add_node n T = Some T' /\ wheel_shape T' /\ same_clock T T' /\
    placed_at (T_time T) T' /\ pending T' ≡ₚ n :: pending T.
Proof.
  intros HT HP Hn. unfold _timer_add_node. rewrite add_slot_place.
  set (s := place (tn_expire n) (T_time T)).
  destruct (link_spec T s n HT) as (l & T' & Hl & -> & Hw); [apply place_ok|].
  exists T'. split; [done|]. split; [by eapply sl_shape|]. split; [by eapply sl_clock|].
  split; [|by eapply link_pending].
  intros s' l' m Hs' Hm. destruct (decide (s' = s)) as [->|Hne].
  - rewrite (sl_same _ _ _ _ Hw) in Hs'. simplify_eq.
    apply elem_of_app in Hm as [Hm|Hm%list_elem_of_singleton]; [by eapply HP|by subst].
  - rewrite (sl_other _ _ _ _ Hw) in Hs' by done. by eapply HP.
Qed.

Lemma add_nodes_spec l T :
  wheel_shape T -> placed_at (T_time T) T -> Forall (node_ok (T_time T)) l ->
  exists T', add_nodes l T = Some T' /\ wheel_shape T' /\ same_clock T T' /\
    placed_at (T_time T) T' /\ pending T' ≡ₚ l ++ pending T.
Proof.
  revert T. induction l as [|n l IH]; intros T HT HP Hl; cbn.
  - by exists T.
  - apply Forall_cons in Hl as [Hn Hl].
    destruct (add_node_spec T n HT HP Hn) as (T1 & -> & HT1 & Hc1 & HP1 & Hp1). cbn.
    pose proof Hc1 as [Ht1 _].
    destruct (IH T1) as (T2 & -> & HT2 & Hc2 & HP2 & Hp2); rewrite ?Ht1; try done.
    exists T2. rewrite Ht1 in HP2. split; [done|]. split; [done|].
    split; [unfold same_clock in *; intuition congruence|]. split; [done|].
    rewrite Hp2, Hp1. solve_Permutation.
Qed.

(** ** [_timer_shift] *)

Lemma moved_level ct s : moved ct = Some s -> exists i idx, s = Level i idx /\ slot_ok s.
Proof.
  unfold moved. intros H. repeat case_match; simplify_eq; eexists _, _; (split; [done|]);
    cbn; (split; [lia|]); try lia; apply Z.mod_pos_bound; lia.
Qed.

Lemma timer_shift_moved T :
  0 <= T_time T < 2 ^ 32 ->
  let ct := u32 (T_time T + 1) in
  _timer_shift T =
  match moved ct with
  | Some (Level i idx) => _timer_move_list i idx (set_time ct T)
  | _ => Some (set_time ct T)
  end.
Proof.
  intros HT ct. unfold _timer_shift. fold ct. destruct (Z.eqb_spec ct 0) as [E|E].
  - rewrite E. done.
  - rewrite shift_loop_moved.
    + cbn. destruct (moved ct) as [[]|] eqn:Em; [|done|done].
      by apply moved_level in Em as (? & ? & ? & _).
    + destruct (u32_succ _ HT) as [[??]|[??]]; subst ct; lia.
Qed.

(** No pending node is due at [T_time T]. *)
Definition not_due T : Prop := slot_get (Near (T_time T mod 2 ^ 8)) T = Some [].

Lemma remaining_pos T s l n :
  wheel_wf T -> not_due T -> slot_get s T = Some l -> n ∈ l -> 0 < remaining (T_time T) n < 2 ^ 31.
Proof.
  intros [Hsh HP] Hdue Hs Hn. destruct (HP s l n Hs Hn) as [[He Hr] Hpl].
  pose proof (ws_time _ Hsh). unfold remaining in *. split; [|done].
  assert (0 <= u32 (tn_expire n - T_time T)) by (apply Z.mod_pos_bound; lia).
  destruct (Z.eq_dec (u32 (tn_expire n - T_time T)) 0) as [E|]; [|lia].
  rewrite u32_sub in E by done. assert (tn_expire n = T_time T) as E2 by zcase.
  unfold place in Hpl. rewrite E2, Z.eqb_refl in Hpl. subst s.
  rewrite Hdue in Hs. simplify_eq. by apply elem_of_nil in Hn.
Qed.

Lemma remaining_succ time n :
  0 <= tn_expire n < 2 ^ 32 -> 0 <= time < 2 ^ 32 -> 0 < remaining time n ->
  remaining (u32 (time + 1)) n = remaining time n - 1.
Proof.
  unfold remaining. intros He Ht.
  destruct (u32_succ time Ht) as [[-> ->]|[? ->]]; rewrite !u32_sub by lia; intros; zcase.
Qed.

Lemma shift_nodes T s l n :
  wheel_wf T -> not_due T -> slot_get s T = Some l -> n ∈ l ->
  let ct := u32 (T_time T + 1) in
  node_ok ct n /\ (moved ct <> Some s -> place (tn_expire n) ct = s).
Proof.
  intros HT Hdue Hs Hn ct. pose proof (remaining_pos T s l n HT Hdue Hs Hn) as Hr.
  destruct HT as [Hsh HP]. destruct (HP s l n Hs Hn) as [[He _] Hpl].
  pose proof (ws_time _ Hsh) as Ht. split.
  - split; [done|]. unfold ct. rewrite remaining_succ by (done || lia). lia.
  - subst s. by apply place_shift.
Qed.

Lemma timer_shift_spec T :
  wheel_wf T -> not_due T ->
  exists T', _timer_shift T = Some T' /\ wheel_wf T' /\
    same_clock (set_time (u32 (T_time T + 1)) T) T' /\ pending T' ≡ₚ pending T.
Proof.
  intros HT Hdue. pose proof (ws_time _ (wh_shape _ HT)) as Ht.
  rewrite timer_shift_moved by done. set (ct := u32 (T_time T + 1)). cbn zeta.
  assert (Hct : 0 <= ct < 2 ^ 32) by (apply Z.mod_pos_bound; lia).
  assert (HT1 : wheel_shape (set_time ct T)) by (destruct HT as [[] _]; by split).
  assert (Hnodes := fun s l n => shift_nodes T s l n HT Hdue). fold ct in Hnodes.
  destruct (moved ct) as [s|] eqn:Em.
  - destruct (moved_level ct s Em) as (i & idx & -> & Hok).
    destruct (link_clear_spec (set_time ct T) (Level i idx) HT1 Hok)
      as (l & T1 & Hl & Hclear & Hw).
    unfold _timer_move_list. rewrite Hclear. cbn [mbind option_bind].
    pose proof (sl_clock _ _ _ _ Hw) as Hc. pose proof Hc as [Et _]. cbn in Et.
    destruct (add_nodes_spec l T1) as (T2 & -> & Hsh2 & Hc2 & HP2 & Hp2).
    + by eapply sl_shape.
    + rewrite Et. intros s' l' n Hs' Hn. destruct (decide (s' = Level i idx)) as [->|Hne].
      * rewrite (sl_same _ _ _ _ Hw) in Hs'. simplify_eq. by apply elem_of_nil in Hn.
      * rewrite (sl_other _ _ _ _ Hw) in Hs' by done.
        destruct (Hnodes s' l' n Hs' Hn). split; [done|]. naive_solver.
    + rewrite Et. apply Forall_forall. intros n Hn. by destruct (Hnodes (Level i idx) l n Hl Hn).
    + exists T2. split; [done|]. split; [split; [done|by destruct Hc2 as [-> _]]|].
      split; [unfold same_clock in *; intuition congruence|].
      rewrite Hp2. by apply (link_clear_pending (set_time ct T)) with (Level i idx).
  - exists (set_time ct T). split; [done|]. split; [split; [done|]|done].
    intros s l n Hs Hn. destruct (Hnodes s l n Hs Hn) as [? Hpl]. split; [done|]. apply Hpl. by rewrite Em.
Qed.

(** ** [_timer_execute] *)

Lemma near_idx T : Z.land (T_time T) TIMER_NEAR_MASK = T_time T mod 2 ^ 8.
Proof. change TIMER_NEAR_MASK with (2 ^ 8 - 1). by apply land_pow2_pred. Qed.

Lemma near_ok time : slot_ok (Near (time mod 2 ^ 8)).
Proof. cbn. apply Z.mod_pos_bound. lia. Qed.

(** The near list of the current tick holds exactly the nodes due now. *)
Lemma due_expire T l n :
  wheel_wf T -> slot_get (Near (T_time T mod 2 ^ 8)) T = Some l -> n ∈ l ->
  tn_expire n = T_time T.
Proof.
  intros [Hsh HP] Hl Hn. destruct (HP _ _ _ Hl Hn) as [[He _] Hpl].
  pose proof (ws_time _ Hsh). unfold place in Hpl. repeat case_match; simplify_eq.
  Z.to_euclidean_division_equations; lia.
Qed.

Lemma take_due T :
  wheel_wf T ->
  exists l T', link_clear (Near (Z.land (T_time T) TIMER_NEAR_MASK)) T = Some (l, T') /\
    slot_get (Near (Z.land (T_time T) TIMER_NEAR_MASK)) T = Some l /\
    wheel_wf T' /\ same_clock T T' /\ not_due T' /\
    Forall (fun n => tn_expire n = T_time T) l /\ l ++ pending T' ≡ₚ pending T.
Proof.
  intros HT. pose proof HT as [Hsh HP]. rewrite near_idx.
  destruct (link_clear_spec T _ Hsh (near_ok (T_time T))) as (l & T' & Hl & Hc & Hw).
  pose proof (sl_clock _ _ _ _ Hw) as [Et _].
  exists l, T'. split; [done|]. split; [done|]. split_and!.
  - split; [by eapply sl_shape|]. rewrite Et. intros s l' n Hs Hn.
    destruct (decide (s = Near (T_time T mod 2 ^ 8))) as [->|Hne].
    + rewrite (sl_same _ _ _ _ Hw) in Hs. simplify_eq. by apply elem_of_nil in Hn.
    + rewrite (sl_other _ _ _ _ Hw) in Hs by done. by eapply HP.
  - by eapply sl_clock.
  - unfold not_due. rewrite Et. by eapply sl_same.
  - apply Forall_forall. intros n Hn. by eapply due_expire.
  - by apply link_clear_pending with (Near (T_time T mod 2 ^ 8)).
Qed.

(** ** Ticks *)

Lemma pending_slot T n :
  n ∈ pending T -> exists s l, slot_get s T = Some l /\ n ∈ l.
Proof.
  unfold pending. rewrite elem_of_app. intros [H|H].
  - apply list_elem_of_join in H as (l & Hn & Hl).
    apply list_elem_of_lookup in Hl as [i Hi]. exists (Near (Z.of_nat i)), l. cbn. by rewrite aget_nat.
  - apply list_elem_of_join in H as (l & Hn & Hl).
    apply list_elem_of_join in Hl as (row & Hl & Hrow).
    apply list_elem_of_lookup in Hl as [j Hj]. apply list_elem_of_lookup in Hrow as [i Hi].
    exists (Level (Z.of_nat i) (Z.of_nat j)), l. cbn. rewrite aget_nat, Hi. cbn. by rewrite aget_nat.
Qed.

Lemma pending_ok T n : wheel_wf T -> n ∈ pending T -> node_ok (T_time T) n.
Proof. intros HT (s & l & Hs & Hn)%pending_slot. by destruct (wh_place _ HT s l n Hs Hn). Qed.

Lemma pending_not_due T n :
  wheel_wf T -> not_due T -> n ∈ pending T -> 0 < remaining (T_time T) n.
Proof. intros HT Hd (s & l & Hs & Hn)%pending_slot. by eapply remaining_pos. Qed.

Lemma remaining_add time d n :
  0 <= tn_expire n < 2 ^ 32 -> 0 <= time < 2 ^ 32 -> 0 <= d < remaining time n ->
  remaining (u32 (time + d)) n = remaining time n - d.
Proof.
  unfold remaining, u32. intros He Ht Hd.
  rewrite Zminus_mod_idemp_r. symmetry.
  apply (Z.mod_unique_pos _ _ ((tn_expire n - time) / 2 ^ 32)).
  - pose proof (Z.mod_pos_bound (tn_expire n - time) (2 ^ 32)). lia.
  - pose proof (Z.div_mod (tn_expire n - time) (2 ^ 32)). lia.
Qed.

(** [fires d T l T']: [d] ticks after [T] the wheel is [T'], and [l] are the
    nodes of [T] due within the [d] ticks, in the order they expire. *)
Record fires (d : Z) T l T' : Prop := {
  fi_wf : wheel_wf T';
  fi_time : T_time T' = u32 (T_time T + d);
  fi_clock : T_current T' = T_current T /\ T_start T' = T_start T /\ T_cur_pt T' = T_cur_pt T;
  fi_all : l ++ pending T' ≡ₚ pending T;
  fi_due : Forall (fun n => remaining (T_time T) n <= d) l;
  fi_later : Forall (fun n => d < remaining (T_time T) n) (pending T');
  fi_order : StronglySorted (fun n m => remaining (T_time T) n <= remaining (T_time T) m) l
}.

Lemma sorted_equal (f : timer_node U -> Z) c l :
  Forall (fun n => f n = c) l -> StronglySorted (fun n m => f n <= f m) l.
Proof.
  induction 1 as [|n l Hn Hl IH]; constructor; [done|].
  eapply Forall_impl; [exact Hl|]. cbn. lia.
Qed.

Lemma sorted_app (f : timer_node U -> Z) c l1 l2 :
  StronglySorted (fun n m => f n <= f m) l1 -> StronglySorted (fun n m => f n <= f m) l2 ->
  Forall (fun n => f n <= c) l1 -> Forall (fun n => c <= f n) l2 ->
  StronglySorted (fun n m => f n <= f m) (l1 ++ l2).
Proof.
  intros H1 H2 Hl1 Hl2. induction H1 as [|n l1 H1 IH Hn]; cbn; [done|].
  apply Forall_cons in Hl1 as [? ?]. constructor; [by apply IH|].
  apply Forall_app. split; [done|]. eapply Forall_impl; [exact Hl2|]. cbn. lia.
Qed.

Lemma sorted_shift (f g : timer_node U -> Z) c l :
  Forall (fun n => g n = f n - c) l ->
  StronglySorted (fun n m => g n <= g m) l -> StronglySorted (fun n m => f n <= f m) l.
Proof.
  intros Hl H. induction H as [|n l H IH Hn]; constructor.
  - apply IH. by apply Forall_cons in Hl as [_ ?].
  - apply Forall_cons in Hl as [E Hl]. rewrite Forall_forall in *. intros m Hm.
    specialize (Hn m Hm). rewrite E, (Hl m Hm) in Hn. lia.
Qed.

(** Successive periods compose. *)
Lemma fires_trans d1 d2 T l1 T1 l2 T2 :
  wheel_wf T -> 0 <= d1 -> 0 <= d2 ->
  fires d1 T l1 T1 -> fires d2 T1 l2 T2 -> fires (d1 + d2) T (l1 ++ l2) T2.
Proof.
  intros HT Hd1 Hd2 F1 F2. destruct F1 as [W1 E1 C1 A1 D1 L1 O1], F2 as [W2 E2 C2 A2 D2 L2 O2].
  assert (Hmem : forall n, n ∈ l2 ++ pending T2 ->
    d1 < remaining (T_time T) n /\ remaining (T_time T1) n = remaining (T_time T) n - d1).
  { intros n Hn. rewrite A2 in Hn. rewrite Forall_forall in L1. specialize (L1 n Hn).
    split; [done|]. rewrite E1. apply remaining_add; [|by apply HT|lia].
    by destruct (pending_ok T1 n W1 Hn). }
  assert (Hm2 : Forall (fun n => remaining (T_time T1) n = remaining (T_time T) n - d1) l2).
  { apply Forall_forall. intros n Hn. apply Hmem, elem_of_app. by left. }
  assert (Hl2 : Forall (fun n => d1 < remaining (T_time T) n) l2).
  { apply Forall_forall. intros n Hn. apply Hmem, elem_of_app. by left. }
  split.
  - done.
  - rewrite E2, E1. unfold u32. rewrite Zplus_mod_idemp_l. f_equal. lia.
  - intuition congruence.
  - by rewrite <- (assoc (++)), A2.
  - apply Forall_app. split; (eapply Forall_impl; [|cbn; intros n ?]).
    + exact D1.
    + cbn in *. lia.
    + exact (proj2 (Forall_and _ _) (conj D2 Hm2)).
    + cbn in *. lia.
  - rewrite Forall_forall in *. intros n Hn. specialize (L2 n Hn).
    destruct (Hmem n) as [? Em]; [apply elem_of_app; by right|]. rewrite Em in L2. lia.
  - apply sorted_app with d1; [done|by eapply sorted_shift|done|].
    eapply Forall_impl; [exact Hl2|]. cbn. lia.
Qed.

Lemma fires_nil T : wheel_wf T -> not_due T -> fires 0 T [] T.
Proof.
  intros HT Hd. pose proof (ws_time _ (wh_shape _ HT)). split; [done| |done|done|constructor| |constructor].
  - unfold u32. rewrite Z.add_0_r, Z.mod_small; lia.
  - apply Forall_forall. intros n Hn. by apply pending_not_due.
Qed.

Lemma fires_not_due T T' l d : wheel_wf T -> 0 <= d -> fires d T l T' -> not_due T'.
Proof.
  intros HT Hd F. destruct F as [W E C A D L O]. unfold not_due.
  destruct (slot_get_total T' _ (wh_shape _ W) (near_ok (T_time T'))) as [l' Hl'].
  rewrite Hl'. f_equal. destruct l' as [|n l']; [done|]. exfalso.
  assert (Hn : n ∈ pending T').
  { apply elem_of_app. left. apply list_elem_of_join. exists (n :: l'). split; [by left|].
    cbn in Hl'. unfold aget in Hl'. case_match; [|done]. by eapply list_elem_of_lookup_2. }
  assert (He : tn_expire n = T_time T') by (eapply due_expire; [done|done|by left]).
  rewrite Forall_forall in L. specialize (L n Hn).
  assert (Hr : remaining (T_time T') n = remaining (T_time T) n - d).
  { rewrite E. apply remaining_add; [|by apply HT|lia]. by destruct (pending_ok T' n W Hn). }
  unfold remaining in Hr at 1. rewrite He, Z.sub_diag in Hr. change (u32 0) with 0 in Hr. lia.
Qed.

Lemma execute_fires T :
  wheel_wf T -> exists l T', _timer_execute 1 T = Some (l, T') /\ fires 0 T l T'.
Proof.
  intros HT. destruct (take_due T HT) as (l & T1 & Hc & Hl & W1 & E1 & D1 & Hdue & Hp).
  pose proof (ws_time _ (wh_shape _ HT)).
  assert (Hr : Forall (fun n => remaining (T_time T) n = 0) l).
  { eapply Forall_impl; [exact Hdue|]. cbn. unfold remaining. intros n ->. by rewrite Z.sub_diag. }
  assert (F : fires 0 T l T1).
  { destruct E1 as (Et & E1). split; [done| |done|done| | |by eapply sorted_equal].
    - rewrite Et. unfold u32. rewrite Z.add_0_r, Z.mod_small; lia.
    - eapply Forall_impl; [exact Hr|]. cbn. lia.
    - rewrite <- Et. apply Forall_forall. intros n Hn. by apply pending_not_due. }
  cbn [_timer_execute]. rewrite Hl. cbn [mbind option_bind]. destruct l as [|n l].
  - exists [], T. split; [done|]. apply fires_nil; [done|]. unfold not_due. by rewrite near_idx in Hl.
  - rewrite Hc. cbn [mbind option_bind]. destruct E1 as [Et _].
    rewrite near_idx. unfold not_due in D1. rewrite D1. cbn. exists (n :: l), T1.
    by rewrite app_nil_r.
Qed.

Lemma shift_execute_fires T :
  wheel_wf T -> not_due T ->
  exists T1 l T2, _timer_shift T = Some T1 /\ _timer_execute 1 T1 = Some (l, T2) /\ fires 1 T l T2.
Proof.
  intros HT Hd. destruct (timer_shift_spec T HT Hd) as (T1 & Hs & W1 & (Et & Ec) & Hp).
  cbn in Et, Ec. destruct (execute_fires T1 W1) as (l & T2 & Hx & F).
  exists T1, l, T2. split; [done|]. split; [done|]. destruct F as [W2 E2 C2 A2 D2 L2 O2].
  pose proof (ws_time _ (wh_shape _ HT)) as Ht.
  assert (Hrem : Forall (fun n => remaining (T_time T1) n = remaining (T_time T) n - 1)
                   (l ++ pending T2)).
  { apply Forall_forall. intros n Hn. rewrite A2, Hp in Hn. rewrite Et.
    pose proof (pending_not_due T n HT Hd Hn). destruct (pending_ok T n HT Hn).
    by apply remaining_succ. }
  apply Forall_app in Hrem as [Hl Hlater].
  split; [done| |intuition congruence|by rewrite A2| | |by eapply sorted_shift].
  - rewrite E2, Et. unfold u32. rewrite Z.add_0_r. by apply Z.mod_mod.
  - eapply Forall_impl; [exact (proj2 (Forall_and _ _) (conj D2 Hl))|]. cbn. lia.
  - eapply Forall_impl; [exact (proj2 (Forall_and _ _) (conj L2 Hlater))|]. cbn. lia.
Qed.

Lemma timer_update1_fires T :
  wheel_wf T -> exists l T', _timer_update T = Some (l, T') /\ fires 1 T l T'.
Proof.
  intros HT. destruct (execute_fires T HT) as (l1 & T1 & Hx & F1).
  pose proof (fi_wf _ _ _ _ F1) as W1.
  destruct (shift_execute_fires T1 W1) as (T2 & l2 & T3 & Hs & Hx2 & F2).
  { by apply (fires_not_due T T1 l1 0). }
  exists (l1 ++ l2), T3. split; [|by apply (fires_trans 0 1) with T1].
  unfold _timer_update. rewrite Hx. cbn [mbind option_bind]. rewrite Hs. cbn [mbind option_bind].
  by rewrite Hx2.
Qed.

Lemma update_loop_fires (d : nat) T :
  wheel_wf T -> exists l T', update_loop (S d) T = Some (l, T') /\ fires (Z.of_nat (S d)) T l T'.
Proof.
  revert T. induction d as [|d IH]; intros T HT;
    destruct (timer_update1_fires T HT) as (l1 & T1 & H1 & F1).
  - exists l1, T1. cbn [update_loop]. rewrite H1. cbn [mbind option_bind]. by rewrite app_nil_r.
  - destruct (IH T1) as (l2 & T2 & H2 & F2); [by eapply fi_wf|].
    exists (l1 ++ l2), T2. cbn [update_loop]. cbn [update_loop] in H2. rewrite H1.
    cbn [mbind option_bind]. rewrite H2. split; [done|].
    replace (Z.of_nat (S (S d))) with (1 + Z.of_nat (S d)) by lia.
    apply fires_trans with T1; done || lia.
Qed.
End Slots.

(** ** The interleaving semantics *)

Section System.
Context {U : Type}.
Implicit Types (T : timer U) (s : tsys U).

Lemma wheel_init sec cs now : wheel_wf (timer_init (U := U) sec cs now).
Proof.
  split.
  - split; cbn; [done|done| |lia]. repeat constructor.
  - intros sl l n Hl Hn. exfalso.
    assert (l = []) as ->; [|by apply elem_of_nil in Hn].
    destruct sl as [i|i idx]; cbn [slot_get timer_init T_near T_t] in Hl.
    + by apply aget_replicate_inv in Hl.
    + destruct (aget _ i) as [row|] eqn:Hr; [|done]. cbn [mbind option_bind] in Hl.
      apply aget_replicate_inv in Hr as ->. by apply aget_replicate_inv in Hl.
Qed.

Lemma sys_init_wf sec cs now : sys_wf (sys_init (U := U) sec cs now).
Proof. split; try done. apply wheel_init. Qed.

Lemma timeout_ok T time ud :
  wheel_wf T -> 0 <= time < 2 ^ 31 -> node_ok (T_time T) (TNode (U := U) (u32 (T_time T + time)) ud).
Proof.
  intros HT Ht. split; cbn.
  - apply Z.mod_pos_bound. lia.
  - unfold remaining, u32; cbn. rewrite Zminus_mod_idemp_l.
    replace (T_time T + time - T_time T) with time by lia. rewrite Z.mod_small; lia.
Qed.

Lemma timeout_spec T time ud :
  wheel_wf T -> 0 <= time < 2 ^ 31 ->
  exists T', timer_timeout time ud T = Some T' /\ wheel_wf T' /\ same_clock T T' /\
    pending T' ≡ₚ TNode (u32 (T_time T + time)) ud :: pending T.
Proof.
  intros HT Ht. destruct (add_node_spec T _ (wh_shape _ HT) (wh_place _ HT) (timeout_ok T time ud HT Ht))
    as (T' & HT' & Hsh & Hc & HP & Hp).
  exists T'. split; [done|]. split; [|done]. pose proof Hc as [Et _].
  split; [done|]. by rewrite Et.
Qed.

Lemma sys_step_wf s s' : sys_wf s -> tstep s s' -> sys_wf s'.
Proof.
  intros [HW HS HC HF HA] Hst. destruct Hst as
    [T T' pc req fired time ud Hu Ht Hto | T req fired | T T' b req fired n l Hc | T b req fired Hg
    | T b n l req fired | T b req fired | T T' req fired Hs];
    cbn [ts_timer ts_pc ts_requested ts_fired dispatching] in *.
  - destruct (timeout_spec T time ud HW Ht) as (T'' & HT'' & W & [Et Ec] & Hp). simplify_eq.
    split; cbn [ts_timer ts_pc ts_requested ts_fired dispatching]; [done| |by rewrite Et|done|by rewrite Hp, HA].
    intros ->. done.
  - by split.
  - destruct (take_due T HW) as (l' & T'' & Hc' & _ & W & [Et Ec] & _ & Hdue & Hp). simplify_eq.
    split; cbn [ts_timer ts_pc ts_requested ts_fired dispatching]; [done|done|by rewrite Et|done|]. rewrite HA, <- Hp. cbn. solve_Permutation.
  - split; cbn [ts_timer ts_pc ts_requested ts_fired dispatching]; [done| |by destruct b|done|by destruct b].
    intros _. by rewrite near_idx in Hg.
  - apply Forall_cons in HC as [E HC]. split; cbn [ts_timer ts_pc ts_requested ts_fired dispatching]; [done|done|done| |].
    + constructor; [done|done].
    + rewrite HA. cbn. solve_Permutation.
  - by split.
  - destruct (timer_shift_spec T HW) as (T'' & Hs' & W & Hc & Hp); [by apply HS|]. simplify_eq.
    split; cbn [ts_timer ts_pc ts_requested ts_fired dispatching]; [done|done|done|done|]. by rewrite Hp.
Qed.

Lemma reachable_wf sec cs now s : rtc tstep (sys_init sec cs now) s -> sys_wf s.
Proof.
  intros H. pose proof (sys_init_wf sec cs now) as H0. revert H0.
  induction H as [|s1 s2 s3 Hst _ IH]; [done|]. intros H1. apply IH. by eapply sys_step_wf.
Qed.

(** C3: Whatever other threads interleave with the timer thread, every
    timeout ever requested is in exactly one of three places: pending in the
    wheel, in the list being dispatched, or already dispatched.  A pending
    one is never overdue, and a dispatched one was dispatched at exactly the
    tick it was requested for. *)
Theorem timer_exactly_once sec cs now s :
  rtc tstep (sys_init sec cs now) s ->
  ts_requested s ≡ₚ pending (ts_timer s) ++ dispatching (ts_pc s) ++ (snd <$> ts_fired s) /\
  Forall (fun n => remaining (T_time (ts_timer s)) n < 2 ^ 31) (pending (ts_timer s)) /\
  Forall (fun '(tick, n) => tick = tn_expire n) (ts_fired s).
Proof.
  intros [HW _ _ HF HA]%reachable_wf. split; [done|]. split; [|done].
  apply Forall_forall. intros n Hn. by eapply pending_ok.
Qed.

(** C5: In every reachable state the timer thread has a next step and, when
    the lock is free, every timeout below 2^31 ticks is accepted: no list
    outside the wheel is ever addressed and the scan of [_timer_shift] ends. *)
Theorem timer_never_stuck sec cs now s :
  rtc tstep (sys_init sec cs now) s ->
  (exists s', tstep s s' /\ ts_requested s' = ts_requested s) /\
  (forall time ud, 0 <= time < 2 ^ 31 -> is_Some (timer_timeout time ud (ts_timer s))).
Proof.
  intros Hwf%reachable_wf. destruct s as [T pc req fired]. destruct Hwf as [HW HS _ _ _].
  cbn [ts_timer ts_pc ts_requested ts_fired dispatching] in *. split.
  - destruct pc as [|b|b [|n l]|].
    + eexists. split; [apply step_lock|done].
    + destruct (take_due T HW) as ([|n l] & T' & Hc & Hl & _); eexists.
      * split; [by apply step_empty|done].
      * split; [by apply step_take|done].
    + eexists. split; [apply step_relock|done].
    + eexists. split; [apply step_dispatch|done].
    + destruct (timer_shift_spec T HW) as (T' & Hs & _); [by apply HS|].
      eexists. split; [by apply step_shift|done].
  - intros time ud Ht. destruct (timeout_spec T time ud HW Ht) as (T' & -> & _). by eexists.
Qed.

(** C4: With no other thread running, [timer_update cp] at a clock reading
    [diff > 0] ticks ahead terminates, moves every clock forward by [diff],
    and dispatches exactly the pending timeouts that expire within the next
    [diff] ticks, in the order they expire; the others stay pending. *)
Theorem timer_update_fires T cp :
  wheel_wf T -> T_cur_pt T < cp -> u32 (cp - T_cur_pt T) <> 0 ->
  let diff := u32 (cp - T_cur_pt T) in
  exists l T',
    timer_update cp T = Some (l, T') /\ wheel_wf T' /\
    T_time T' = u32 (T_time T + diff) /\ T_current T' = u32 (T_current T + diff) /\
    T_cur_pt T' = cp /\
    l ++ pending T' ≡ₚ pending T /\
    Forall (fun n => remaining (T_time T) n <= diff) l /\
    Forall (fun n => diff < remaining (T_time T) n) (pending T') /\
    StronglySorted (fun n m => remaining (T_time T) n <= remaining (T_time T) m) l.
Proof.
  intros HT Hcp Hd diff. unfold timer_update.
  destruct (Z.ltb_spec cp (T_cur_pt T)); [lia|].
  destruct (Z.eqb_spec cp (T_cur_pt T)); [lia|]. cbn [negb]. fold diff.
  set (T1 := set_clock _ _ _ _).
  assert (HT1 : wheel_wf T1) by (destruct HT as [[] HP]; split; [by split|done]).
  assert (Hpos : 0 < diff) by (pose proof (Z.mod_pos_bound (cp - T_cur_pt T) (2 ^ 32));
    unfold diff, u32 in *; lia).
  destruct (update_loop_fires (pred (Z.to_nat diff)) T1 HT1) as (l & T' & Hl & F).
  replace (S (pred (Z.to_nat diff))) with (Z.to_nat diff) in * by lia.
  rewrite Z2Nat.id in F by lia. destruct F as [W E (C1 & C2 & C3) A D L O].
  exists l, T'. done.
Qed.

(** ** [timer_unit] *)

Lemma unit_slots_spec ss T :
  wheel_shape T -> Forall slot_ok ss ->
  exists l T', unit_slots ss T = Some (l, T') /\ l ++ pending T' ≡ₚ pending T /\
    (forall sl, sl ∈ ss -> slot_get sl T' = Some []) /\
    (forall sl, sl ∉ ss -> slot_get sl T' = slot_get sl T) /\
    (forall n, n ∈ l -> exists sl l0, sl ∈ ss /\ slot_get sl T = Some l0 /\ n ∈ l0).
Proof.
  revert T. induction ss as [|sl ss IH]; intros T HT Hss; cbn [unit_slots].
  { exists [], T. split_and!; try done; by intros ? ?%elem_of_nil. }
  apply Forall_cons in Hss as [Hsl Hss].
  destruct (link_clear_spec T sl HT Hsl) as (l1 & T1 & Hl1 & -> & Hw). cbn [mbind option_bind].
  destruct (IH T1 (sl_shape _ _ _ _ Hw) Hss) as (l2 & T2 & -> & Hp & Hin & Hout & Hl2).
  exists (l1 ++ l2), T2. split_and!.
  - done.
  - rewrite <- (assoc (++)), Hp. by apply link_clear_pending with sl.
  - intros s Hs. destruct (decide (s ∈ ss)) as [|Hn]; [by apply Hin|].
    apply elem_of_cons in Hs as [->|]; [|done]. rewrite Hout by done. by eapply sl_same.
  - intros s [Hne Hn]%not_elem_of_cons. rewrite Hout by done. by eapply sl_other.
  - intros n [Hn|Hn]%elem_of_app; [exists sl, l1; split; [by left|done]|].
    destruct (Hl2 n Hn) as (s & l0 & Hs & Hl0 & Hn0).
    destruct (decide (s = sl)) as [->|Hne].
    + rewrite (sl_same _ _ _ _ Hw) in Hl0. simplify_eq. by apply elem_of_nil in Hn0.
    + rewrite (sl_other _ _ _ _ Hw) in Hl0 by done. exists s, l0. split; [by right|done].
Qed.

Definition unit_list : list slot :=
  (Near <$> seqZ 0 TIMER_NEAR) ++ (i ← seqZ 0 4; Level i <$> seqZ 0 TIMER_LEVEL_MASK).

Lemma unit_list_elem sl :
  slot_ok sl -> sl ∈ unit_list <-> (forall i, sl <> Level i 63).
Proof.
  intros Hok. unfold unit_list. rewrite elem_of_app. split.
  - intros [H|H] i ->.
    + apply list_elem_of_fmap in H as (? & ? & _). done.
    + apply list_elem_of_bind in H as (j & H & _).
      apply list_elem_of_fmap in H as (k & E & Hk%elem_of_seqZ). simplify_eq.
      change TIMER_LEVEL_MASK with 63 in Hk. lia.
  - intros Hne. destruct sl as [i|i idx]; cbn in Hok.
    + left. apply list_elem_of_fmap_2, elem_of_seqZ. change TIMER_NEAR with (2 ^ 8). lia.
    + right. apply list_elem_of_bind. exists i. split; [|apply elem_of_seqZ; lia].
      apply list_elem_of_fmap_2, elem_of_seqZ. change TIMER_LEVEL_MASK with 63.
      assert (idx <> 63) by (intros ->; by destruct (Hne i)). lia.
Qed.

(** [timer_unit] gives back every pending node except exactly those in the
    last list of each level ([t[i][63]]), which its loop bound
    [TIMER_LEVEL_MASK] leaves out: they leak. *)
Lemma timer_unit_leaks T :
  wheel_wf T ->
  exists l T', timer_unit T = Some (l, T') /\ l ++ pending T' ≡ₚ pending T /\
    (forall n, n ∈ pending T' -> exists i, place (tn_expire n) (T_time T) = Level i 63) /\
    (forall n i, n ∈ l -> place (tn_expire n) (T_time T) <> Level i 63).
Proof.
  intros [HT HP]. fold unit_list.
  assert (Hok : Forall slot_ok unit_list).
  { apply Forall_forall. unfold unit_list. intros sl [H|H]%elem_of_app.
    - apply list_elem_of_fmap in H as (i & -> & Hi%elem_of_seqZ). done.
    - apply list_elem_of_bind in H as (i & H & Hi%elem_of_seqZ).
      apply list_elem_of_fmap in H as (j & -> & Hj%elem_of_seqZ).
      change TIMER_LEVEL_MASK with 63 in Hj. cbn. lia. }
  destruct (unit_slots_spec unit_list T HT Hok) as (l & T' & Hu & Hp & Hin & Hout & Hl).
  exists l, T'. split; [done|]. split; [done|]. split.
  - intros n (sl & l0 & Hl0 & Hn)%pending_slot.
    assert (Hni : sl ∉ unit_list).
    { intros Hi. rewrite Hin in Hl0 by done. simplify_eq. by apply elem_of_nil in Hn. }
    rewrite Hout in Hl0 by done. destruct (HP sl l0 n Hl0 Hn) as [_ Epl]. rewrite Epl.
    assert (Hslot : slot_ok sl) by (rewrite <- Epl; apply place_ok).
    rewrite unit_list_elem in Hni by done. destruct sl as [i|i idx]; [by destruct Hni|].
    exists i. destruct (Z.eq_dec idx 63) as [->|Hne]; [done|]. destruct Hni. congruence.
  - intros n i Hn E. destruct (Hl n Hn) as (sl & l0 & Hsl & Hl0 & Hn0).
    destruct (HP sl l0 n Hl0 Hn0) as [_ Epl]. rewrite E in Epl. subst sl.
    rewrite unit_list_elem in Hsl; [by destruct (Hsl i)|]. rewrite <- E. apply place_ok.
Qed.
End System.

(** ** Concrete runs *)

Definition demo_wheel : timer Z :=
  default (timer_init 0 0 0)
    (T ← timer_timeout 3 30 (timer_init 1000 0 50);
     T ← timer_timeout 300 31 T;
     T ← timer_timeout 16200 32 T;
     timer_timeout 1 33 T).

Lemma demo_wheel_wf : wheel_wf demo_wheel.
Proof.
  destruct (timeout_spec (timer_init 1000 0 50) 3 30) as (T1 & E1 & W1 & _);
    [apply wheel_init|lia|].
  destruct (timeout_spec T1 300 31) as (T2 & E2 & W2 & _); [done|lia|].
  destruct (timeout_spec T2 16200 32) as (T3 & E3 & W3 & _); [done|lia|].
  destruct (timeout_spec T3 1 33) as (T4 & E4 & W4 & _); [done|lia|].
  unfold demo_wheel. rewrite E1. cbn [mbind option_bind]. rewrite E2. cbn [mbind option_bind].
  rewrite E3. cbn [mbind option_bind]. by rewrite E4.
Qed.

Example demo_update :
  (fun r : list (timer_node Z) * timer Z => tn_ud <$> fst r) <$> timer_update 350 demo_wheel = Some [33; 30; 31].
Proof. vm_compute. reflexivity. Qed.

Lemma timer_update_fires_witness :
  u32 (350 - T_cur_pt demo_wheel) = 300 /\
  exists l T', timer_update 350 demo_wheel = Some (l, T') /\ wheel_wf T' /\
    l ++ pending T' ≡ₚ pending demo_wheel.
Proof.
  split; [vm_compute; reflexivity|].
  destruct (timer_update_fires demo_wheel 350) as (l & T' & H1 & H2 & _ & _ & _ & H3 & _).
  - exact demo_wheel_wf.
  - vm_compute. reflexivity.
  - vm_compute. discriminate.
  - exists l, T'. split; [exact H1|]. split; [exact H2|exact H3].
Defined.

Lemma timer_unit_leaks_witness :
  (fun r : list (timer_node Z) * timer Z => (tn_ud <$> fst r, tn_ud <$> pending (snd r)))
    <$> timer_unit demo_wheel
    = Some ([33; 30; 31], [32]) /\
  exists l T', timer_unit demo_wheel = Some (l, T') /\ l ++ pending T' ≡ₚ pending demo_wheel.
Proof.
  split; [vm_compute; reflexivity|].
  destruct (timer_unit_leaks demo_wheel demo_wheel_wf) as (l & T' & H1 & H2 & _).
  exists l, T'. split; [exact H1|exact H2].
Defined.

(** A run: a timeout of one tick, a second request while the first callback
    runs. *)
Definition demo_run : list (tsys Z) :=
  let T0 := timer_init 0 0 0 in
  let n1 := TNode 1 10 in
  let n2 := TNode 1 11 in
  let T1 := default T0 (timer_timeout 1 10 T0) in
  let T2 := default T0 (_timer_shift T1) in
  let T3 := default T0 (snd <$> link_clear (Near 1) T2) in
  let T4 := default T0 (timer_timeout 0 11 T3) in
  [TSys T1 PcIdle [n1] []; TSys T1 (PcRun true) [n1] []; TSys T1 PcShift [n1] [];
   TSys T2 (PcRun false) [n1] []; TSys T3 (PcDispatch false [n1]) [n1] [];
   TSys T4 (PcDispatch false [n1]) [n2; n1] []; TSys T4 (PcDispatch false []) [n2; n1] [(1, n1)]].

Definition demo_state : tsys Z := List.last demo_run (sys_init 0 0 0).

Lemma demo_reachable : rtc tstep (sys_init 0 0 0) demo_state.
Proof.
  eapply rtc_l; [eapply (step_timeout _ _ PcIdle [] [] 1 10); [done|done|vm_compute; reflexivity]|].
  eapply rtc_l; [apply step_lock|].
  eapply rtc_l; [eapply (step_empty _ true); vm_compute; reflexivity|].
  eapply rtc_l; [eapply step_shift; vm_compute; reflexivity|].
  eapply rtc_l; [eapply (step_take _ _ false); vm_compute; reflexivity|].
  eapply rtc_l; [eapply (step_timeout _ _ _ _ _ 0 11); [done|done|vm_compute; reflexivity]|].
  eapply rtc_l; [apply step_dispatch|].
  vm_compute. apply rtc_refl.
Qed.

Lemma timer_exactly_once_witness :
  tn_ud <$> ts_requested demo_state = [11; 10] /\
  ts_requested demo_state ≡ₚ
    pending (ts_timer demo_state) ++ dispatching (ts_pc demo_state) ++ (snd <$> ts_fired demo_state).
Proof.
  split; [vm_compute; reflexivity|].
  exact (proj1 (timer_exactly_once 0 0 0 demo_state demo_reachable)).
Defined.

Lemma timer_never_stuck_witness :
  exists s', tstep demo_state s' /\ ts_requested s' = ts_requested demo_state.
Proof. exact (proj1 (timer_never_stuck 0 0 0 demo_state demo_reachable)). Defined.
