(* ===== verification/Handle.v ===== *)
(** * Service handles and names (src/handle.c)

    The registry [H]: an open hash of [cap] slots indexed by the low bits of
    the handle, with a reference count per service, and the sorted table of
    names.  A service is its pointer ([0] is [NULL]).  [None] is an access
    outside an array or through a null name.  [alloc] says whether the
    allocation of the larger slot array succeeds.

    [hstep] is the interleaving semantics of threads that register, grab and
    release: a release is two critical sections ([handle_release_ref], then
    [handle_remove] when the count reached zero).  Its steps are labelled and
    unrestrained; [act_ok] says which of them the safety theorem covers. *)

From stdpp Require Import sorting.
From S2P Require Import Prelude.

(** [struct handle_slot]. *)
Record hslot := HSlot { s_handle : Z; s_ref : Z; s_ctx : Z }.
Definition hslot0 : hslot := HSlot 0 0 0.

(** [struct handle_name]; [None] is a null [name]. *)
Record hname := HName { n_name : option string; n_handle : Z }.
Definition hname0 : hname := HName None 0.

(** [struct handle_global]; the lock is in [Lock]. *)
Record hglobal := HGlobal {
  H_last_id : Z;
  H_harbor : Z;
  H_cap : Z;
  H_n : Z;
  H_slot : list hslot;
  H_name_cap : Z;
  H_name_count : Z;
  H_names : list hname
}.

Implicit Types (H : hglobal) (s : hslot).

Definition handle_init (harbor : Z) : hglobal :=
  HGlobal 0 (u32 (Z.shiftl (Z.land harbor 0xff) 24)) 16 0 (replicate 16 hslot0)
          16 0 (replicate 16 hname0).

Definition set_slots (cap : Z) (slots : list hslot) H : hglobal :=
  HGlobal (H_last_id H) (H_harbor H) cap (H_n H) slots (H_name_cap H) (H_name_count H) (H_names H).
Definition set_last_id (id : Z) H : hglobal :=
  HGlobal id (H_harbor H) (H_cap H) (H_n H) (H_slot H) (H_name_cap H) (H_name_count H) (H_names H).
Definition set_n (n : Z) H : hglobal :=
  HGlobal (H_last_id H) (H_harbor H) (H_cap H) n (H_slot H) (H_name_cap H) (H_name_count H) (H_names H).
Definition set_names (cap count : Z) (names : list hname) H : hglobal :=
  HGlobal (H_last_id H) (H_harbor H) (H_cap H) (H_n H) (H_slot H) cap count names.

Definition set_slot (i : Z) s H : option hglobal :=
  slots ← aset (H_slot H) i s; Some (set_slots (H_cap H) slots H).

(** [newslot[os->handle&(cap*2-1)] = *os] for the slots in order. *)
Fixpoint expand_slots (mask : Z) (old new : list hslot) : option (list hslot) :=
  match old with
  | [] => Some new
  | os :: old =>
      new ← aset new (Z.land (s_handle os) mask) os;
      expand_slots mask old new
  end.

Definition handle_expand (alloc : bool) H : option (Z * hglobal) :=
  let cap := H_cap H in
  if negb alloc then Some (-1, H)
  else
    new ← expand_slots (cap * 2 - 1) (H_slot H) (replicate (Z.to_nat (cap * 2)) hslot0);
    Some (0, set_slots (cap * 2) new H).

(** The endless loop of [handle_regist], [fuel] iterations at most. *)
Fixpoint regist_loop (fuel : nat) (ctx : Z) H : option (Z * hglobal) :=
  match fuel with
  | O => None
  | S fuel =>
      let handle := u32 (H_last_id H + 1) in
      let handle := if handle =? 0 then u32 (handle + 1) else handle in
      let H := set_last_id handle H in
      let i := Z.land handle (H_cap H - 1) in
      s ← aget (H_slot H) i;
      if negb (s_handle s =? 0) then regist_loop fuel ctx H
      else
        H ← set_slot i (HSlot handle 1 ctx) H;
        let H := set_n (H_n H + 1) H in
        Some (Z.lor handle (H_harbor H), H)
  end.

Definition handle_regist (alloc : bool) (ctx : Z) H : option (Z * hglobal) :=
  if H_n H >=? H_cap H * 3 / 4 then
    '(r, H) ← handle_expand alloc H;
    if negb (r =? 0) then Some (0, H)
    else regist_loop (Z.to_nat (2 * H_cap H)) ctx H
  else regist_loop (Z.to_nat (2 * H_cap H)) ctx H.

Definition handle_grab (handle : Z) H : option (Z * hglobal) :=
  let handle := Z.land handle 0xffffff in
  let i := Z.land handle (H_cap H - 1) in
  s ← aget (H_slot H) i;
  if negb (s_handle s =? handle) then Some (0, H)
  else
    H ← set_slot i (HSlot (s_handle s) (s_ref s + 1) (s_ctx s)) H;
    Some (s_ctx s, H).

Definition handle_release_ref (handle : Z) H : option (Z * hglobal) :=
  let i := Z.land handle (H_cap H - 1) in
  s ← aget (H_slot H) i;
  if negb (s_handle s =? handle) then Some (0, H)
  else
    H ← set_slot i (HSlot (s_handle s) (s_ref s - 1) (s_ctx s)) H;
    Some (if s_ref s - 1 >? 0 then s_ctx s else 0, H).

Definition handle_remove (handle : Z) H : option (Z * hglobal) :=
  let i := Z.land handle (H_cap H - 1) in
  s ← aget (H_slot H) i;
  if negb (s_handle s =? handle) then Some (0, H)
  else if s_ref s >? 0 then Some (0, H)
  else
    H ← set_slot i (HSlot 0 (s_ref s) (s_ctx s)) H;
    Some (s_ctx s, set_n (H_n H - 1) H).

(** [handle_release] without another thread: the pointer returned and the one
    given to [pixel_free], which ignores a null pointer. *)
Definition handle_release (handle : Z) H : option (Z * Z * hglobal) :=
  let handle := Z.land handle 0xffffff in
  '(ctx, H) ← handle_release_ref handle H;
  if ctx =? 0 then '(ctx, H) ← handle_remove handle H; Some (0, ctx, H)
  else Some (ctx, 0, H).

Fixpoint release_all (handles : list Z) H : option (list Z * hglobal) :=
  match handles with
  | [] => Some ([], H)
  | h :: handles =>
      '(_, freed, H) ← handle_release h H;
      '(fs, H) ← release_all handles H;
      Some (freed :: fs, H)
  end.

(** [handle_exit]: the pointers given to [pixel_free]. *)
Definition handle_exit H : option (list Z * hglobal) :=
  release_all (filter (fun h => h <> 0) (s_handle <$> H_slot H)) H.

(** ** Names *)

(** The sign of C's [strcmp] on strings without null characters. *)
Fixpoint strcmp (a b : string) : Z :=
  match a, b with
  | EmptyString, EmptyString => 0
  | EmptyString, String _ _ => -1
  | String _ _, EmptyString => 1
  | String x a, String y b =>
      let x := Z.of_N (Ascii.N_of_ascii x) in
      let y := Z.of_N (Ascii.N_of_ascii y) in
      if x <? y then -1 else if y <? x then 1 else strcmp a b
  end.

(** The binary search of [_query] and [_insert]: the handle found, or the
    final [beg]. *)
Fixpoint search (fuel : nat) (beg last : Z) (names : list hname) (name : string) : option (Z + Z) :=
  if beg <=? last then
    match fuel with
    | O => None
    | S fuel =>
        let mid := (beg + last) / 2 in
        node ← aget names mid;
        node_name ← n_name node;
        let c := strcmp node_name name in
        if c =? 0 then Some (inl (n_handle node))
        else if c <? 0 then search fuel (mid + 1) last names name
        else search fuel beg (mid - 1) names name
    end
  else Some (inr beg).

Definition name_search (name : string) H : option (Z + Z) :=
  search (Z.to_nat (H_name_count H)) 0 (H_name_count H - 1) (H_names H) name.

Definition _query (name : string) H : option Z :=
  r ← name_search name H;
  Some (match r with inl handle => handle | inr _ => 0 end).

(** [for (i=...; k times; i++) n[i+off] = names[i]]. *)
Fixpoint copy_names (k : nat) (i off : Z) (names n : list hname) : option (list hname) :=
  match k with
  | O => Some n
  | S k =>
      x ← aget names i;
      n ← aset n (i + off) x;
      copy_names k (i + 1) off names n
  end.

(** [for (i=...; k times; i--) names[i] = names[i-1]]. *)
Fixpoint shift_names (k : nat) (i : Z) (names : list hname) : option (list hname) :=
  match k with
  | O => Some names
  | S k =>
      x ← aget names (i - 1);
      names ← aset names i x;
      shift_names k (i - 1) names
  end.

Definition _insert_before (name : string) (handle pos : Z) H : option hglobal :=
  let count := H_name_count H in
  '(cap, names) ←
    (if count >=? H_name_cap H then
       let cap := H_name_cap H * 2 in
       n ← copy_names (Z.to_nat pos) 0 0 (H_names H) (replicate (Z.to_nat cap) hname0);
       n ← copy_names (Z.to_nat (count - pos)) pos 1 (H_names H) n;
       Some (cap, n)
     else
       names ← shift_names (Z.to_nat (count - pos)) count (H_names H);
       Some (H_name_cap H, names));
  names ← aset names pos (HName (Some name) handle);
  Some (set_names cap (count + 1) names H).

Definition _insert (name : string) (handle : Z) H : option (Z * hglobal) :=
  r ← name_search name H;
  match r with
  | inl _ => Some (0, H)
  | inr beg => H ← _insert_before name handle beg H; Some (handle, H)
  end.

Definition handle_name (name : string) (handle : Z) H : option (Z * hglobal) :=
  if handle =? 0 then handle ← _query name H; Some (handle, H)
  else _insert name handle H.

(** [handle_unit]: the names given back, after the two arrays. *)
Definition handle_unit H : option (list string) :=
  mapM n_name (take (Z.to_nat (H_name_count H)) (H_names H)).

(** ** The abstract registry

    A live handle maps to its reference count and its service. *)

Abbreviation registry := (gmap Z (Z * Z)).

Definition find (cap : Z) (slots : list hslot) (h : Z) : option (Z * Z) :=
  s ← aget slots (h mod cap);
  if s_handle s =? h then Some (s_ref s, s_ctx s) else None.

Record slots_wf (cap : Z) (slots : list hslot) : Prop := {
  sw_cap : exists k, 4 <= k /\ cap = 2 ^ k;
  sw_len : zlen slots = cap;
  sw_pos : forall i s, aget slots i = Some s -> s_handle s <> 0 ->
    i = s_handle s mod cap /\ 0 < s_handle s < 2 ^ 24
}.

Record repr H (M : registry) : Prop := {
  rp_slots : slots_wf (H_cap H) (H_slot H);
  rp_find : forall h, M !! h = if h =? 0 then None else find (H_cap H) (H_slot H) h;
  rp_n : H_n H = Z.of_nat (size M);
  rp_room : H_n H < H_cap H;
  rp_last : 0 <= H_last_id H < 2 ^ 24;
  rp_old : forall h, is_Some (M !! h) -> h <= H_last_id H;
  rp_harbor : exists c, 0 <= c < 2 ^ 8 /\ H_harbor H = c * 2 ^ 24
}.

(** The next expansion loses no service: none sits at slot 0 of both arrays. *)
Definition expand_safe H : bool :=
  (H_n H <? H_cap H * 3 / 4) ||
  match H_slot H with
  | [] => true
  | s :: _ => (s_handle s =? 0) || negb (s_handle s mod (2 * H_cap H) =? 0)
  end.

(** ** Threads

    [hs_held]: the references held, a handle per reference; [hs_removing]: the
    threads between the two critical sections of [handle_release];
    [hs_made] and [hs_freed]: the services ever registered and freed. *)
Record hsys := HSys {
  hs_reg : hglobal;
  hs_held : list Z;
  hs_removing : list Z;
  hs_made : list Z;
  hs_freed : list Z
}.

Definition low (handle : Z) : Z := Z.land handle 0xffffff.

(** What a thread does: it registers a service (with or without memory for a
    larger slot array), grabs a handle, or runs one of the two halves of a
    release. *)
Inductive hact :=
  | ARegist (mem : bool) (ctx : Z)
  | AGrab (handle : Z)
  | ARelease (h : Z)
  | ARemove (h : Z).

(** The steps.  A service is registered once; nothing else restrains a
    registration or a grab.  A refused registration returns 0, and so does a
    grab that finds nothing. *)
Inductive hstep : hact -> hsys -> hsys -> Prop :=
  | step_regist mem H H' held rem made freed ctx h :
      ctx <> 0 -> ctx ∉ made ->
      handle_regist mem ctx H = Some (h, H') ->
      hstep (ARegist mem ctx) (HSys H held rem made freed)
            (HSys H' (if h =? 0 then held else low h :: held) rem
                  (if h =? 0 then made else ctx :: made) freed)
  | step_grab H H' held rem made freed handle ctx :
      handle_grab handle H = Some (ctx, H') ->
      hstep (AGrab handle) (HSys H held rem made freed)
            (HSys H' (if ctx =? 0 then held else low handle :: held) rem made freed)
  | step_release H H' held held' rem made freed h ctx :
      held ≡ₚ h :: held' -> handle_release_ref h H = Some (ctx, H') ->
      hstep (ARelease h) (HSys H held rem made freed)
            (HSys H' held' (if ctx =? 0 then h :: rem else rem) made freed)
  | step_remove H H' held rem rem' made freed h ctx :
      rem ≡ₚ h :: rem' -> handle_remove h H = Some (ctx, H') ->
      hstep (ARemove h) (HSys H held rem made freed)
            (HSys H' held rem' made (if ctx =? 0 then freed else ctx :: freed)).

(** The actions [handle_no_dangling] is about: a registration loses no service
    to an expansion and stays below handle 2^24, and no handle is grabbed
    whose low bits are 0.  The code tests none of this, and
    [handle_expand_loses], [handle_regist_spills] and [handle_grab_stale] show
    what happens without. *)
Definition act_ok (a : hact) (s : hsys) : bool :=
  match a with
  | ARegist _ _ => expand_safe (hs_reg s) &&
                   (H_last_id (hs_reg s) + 4 * H_cap (hs_reg s) <? 2 ^ 24)
  | AGrab handle => negb (low handle =? 0)
  | ARelease _ | ARemove _ => true
  end.

Definition hstep_ok (s s' : hsys) : Prop := exists a, act_ok a s = true /\ hstep a s s'.

Definition hsys_init (harbor : Z) : hsys := HSys (handle_init harbor) [] [] [] [].

(** Occurrences of [h]. *)
Definition held_count (h : Z) (l : list Z) : Z := zlen (filter (fun x => x = h) l).

Record hsys_wf (s : hsys) (M : registry) : Prop := {
  hw_repr : repr (hs_reg s) M;
  hw_ref : forall h r c, M !! h = Some (r, c) -> r = held_count h (hs_held s);
  hw_held : forall h, h ∈ hs_held s -> is_Some (M !! h);
  hw_zero : forall h c, M !! h = Some (0, c) -> h ∈ hs_removing s;
  hw_removing : forall h, h ∈ hs_removing s -> 0 < h <= H_last_id (hs_reg s);
  hw_live : forall h r c, M !! h = Some (r, c) -> (c ∈ hs_made s) /\ (c ∉ hs_freed s) /\ c <> 0;
  hw_inj : forall h1 h2 r1 r2 c, M !! h1 = Some (r1, c) -> M !! h2 = Some (r2, c) -> h1 = h2;
  hw_made : forall c, c ∈ hs_made s -> (c ∈ hs_freed s) \/ exists h r, M !! h = Some (r, c);
  hw_sub : forall c, c ∈ hs_freed s -> c ∈ hs_made s;
  hw_freed : NoDup (hs_freed s)
}.

(** ** The abstract name table *)

Definition name_entry (kv : string * Z) : hname := HName (Some kv.1) kv.2.
Definition name_lt (a b : string * Z) : Prop := strcmp a.1 b.1 < 0.

(** The first [name_count] entries are the bindings of [N], sorted. *)
Record names_repr H (N : gmap string Z) : Prop := {
  nr_entries : exists kvs : list (string * Z),
    zlen kvs = H_name_count H /\ StronglySorted name_lt kvs /\ N = list_to_map kvs /\
    forall i, 0 <= i < zlen kvs -> aget (H_names H) i = name_entry <$> aget kvs i;
  nr_cap : zlen (H_names H) = H_name_cap H;
  nr_count : 0 <= H_name_count H <= H_name_cap H;
  nr_pos : 0 < H_name_cap H
}.

(** What [handle_name] means. *)
Definition spec_name (name : string) (handle : Z) (N : gmap string Z) : Z * gmap string Z :=
  match N !! name with
  | Some h => (if handle =? 0 then h else 0, N)
  | None => if handle =? 0 then (0, N) else (handle, <[name := handle]> N)
  end.

Fixpoint run_names (ops : list (string * Z)) H : option (list Z * hglobal) :=
  match ops with
  | [] => Some ([], H)
  | (name, handle) :: ops =>
      '(r, H) ← handle_name name handle H; '(rs, H) ← run_names ops H; Some (r :: rs, H)
  end.

Fixpoint spec_names (ops : list (string * Z)) (N : gmap string Z) : list Z * gmap string Z :=
  match ops with
  | [] => ([], N)
  | (name, handle) :: ops =>
      let '(r, N) := spec_name name handle N in
      let '(rs, N) := spec_names ops N in (r :: rs, N)
  end.

(** ** Lemmas on the slots *)

Lemma slots_land cap slots h : slots_wf cap slots -> Z.land h (cap - 1) = h mod cap.
Proof. intros [(k & Hk & ->) _ _]. apply land_pow2_pred. lia. Qed.

Lemma slots_cap_pos cap slots : slots_wf cap slots -> 16 <= cap.
Proof.
  intros [(k & Hk & ->) _ _]. change 16 with (2 ^ 4). apply Z.pow_le_mono_r; lia.
Qed.

Lemma slots_get cap slots h : slots_wf cap slots -> exists s, aget slots (h mod cap) = Some s.
Proof.
  intros Hw. pose proof (slots_cap_pos _ _ Hw). apply aget_is_Some.
  rewrite (sw_len _ _ Hw). apply Z.mod_pos_bound. lia.
Qed.

Lemma find_Some cap slots h s :
  aget slots (h mod cap) = Some s -> s_handle s = h -> find cap slots h = Some (s_ref s, s_ctx s).
Proof. intros Hs Hh. unfold find. rewrite Hs. cbn. by rewrite Hh, Z.eqb_refl. Qed.

Lemma find_None cap slots h s :
  aget slots (h mod cap) = Some s -> s_handle s <> h -> find cap slots h = None.
Proof. intros Hs Hh. unfold find. rewrite Hs. cbn. by rewrite (proj2 (Z.eqb_neq _ _) Hh). Qed.

(** Writing the slot of [h], which holds [h] or nothing. *)
Lemma slot_write cap slots h s s' :
  slots_wf cap slots -> 0 < h < 2 ^ 24 ->
  aget slots (h mod cap) = Some s -> (s_handle s = 0 \/ s_handle s = h) ->
  (s_handle s' = 0 \/ s_handle s' = h) ->
  let slots' := <[Z.to_nat (h mod cap) := s']> slots in
  aset slots (h mod cap) s' = Some slots' /\ slots_wf cap slots' /\
  (forall h', h' <> 0 -> find cap slots' h' =
    if h' =? h then (if s_handle s' =? h then Some (s_ref s', s_ctx s') else None)
    else find cap slots h').
Proof.
  intros Hw Hh Hs Hs0 Hs0' slots'. pose proof (aget_Some _ _ _ Hs) as Hi.
  split; [by apply aset_Some|]. split.
  - destruct Hw as [Hc Hl Hp]. split; [done|by unfold slots'; clen|].
    intros i t Ht Hne. destruct (Z.eq_dec i (h mod cap)) as [->|Hi2].
    + unfold slots' in Ht. rewrite aget_insert_eq in Ht by lia. simplify_eq.
      destruct Hs0' as [|E]; [done|]. by rewrite E.
    + unfold slots' in Ht. rewrite aget_insert_ne in Ht by lia. by apply Hp.
  - intros h' Hh'. unfold find, slots'. destruct (Z.eq_dec (h' mod cap) (h mod cap)) as [E|E].
    + rewrite E, Hs, aget_insert_eq by lia. cbn.
      destruct (Z.eqb_spec h' h) as [->|Hne]; [done|].
      rewrite !(proj2 (Z.eqb_neq _ _)); [done|lia..].
    + rewrite aget_insert_ne by lia. destruct (Z.eqb_spec h' h) as [->|]; [done|done].
Qed.

(** ** Each critical section against the abstract registry *)

Section Refinement.
Implicit Types (M : registry).

Lemma repr_slot H M h :
  repr H M -> h <> 0 -> exists s, aget (H_slot H) (h mod H_cap H) = Some s /\
    M !! h = (if s_handle s =? h then Some (s_ref s, s_ctx s) else None).
Proof.
  intros HR Hh. destruct (slots_get _ _ h (rp_slots _ _ HR)) as [s Hs].
  exists s. split; [done|]. rewrite (rp_find _ _ HR), (proj2 (Z.eqb_neq _ _) Hh).
  unfold find. by rewrite Hs.
Qed.

Lemma repr_range H M h : repr H M -> is_Some (M !! h) -> 0 < h < 2 ^ 24.
Proof.
  intros HR [x Hx]. rewrite (rp_find _ _ HR) in Hx. case_match; [done|].
  unfold find in Hx. destruct (aget _ _) as [s|] eqn:Hs; cbn in Hx; [|done].
  case_match; [|done]. assert (s_handle s = h) as <- by lia.
  eapply sw_pos; [by apply HR|done|lia].
Qed.

(** Changing the reference count of a live handle. *)
Lemma repr_set_ref H M h r c s r' :
  repr H M -> M !! h = Some (r, c) -> aget (H_slot H) (h mod H_cap H) = Some s ->
  exists H', set_slot (h mod H_cap H) (HSlot (s_handle s) r' (s_ctx s)) H = Some H' /\
    repr H' (<[h := (r', c)]> M) /\ H_last_id H' = H_last_id H /\ H_cap H' = H_cap H.
Proof.
  intros HR Hh Hs. assert (Hr : 0 < h < 2 ^ 24) by (eapply repr_range; [done|by eexists]).
  pose proof (rp_find _ _ HR h) as Hf. rewrite Hh, (proj2 (Z.eqb_neq _ _)) in Hf by lia.
  assert (s_handle s = h /\ s_ctx s = c) as [Es Ec].
  { unfold find in Hf. rewrite Hs in Hf. cbn in Hf. case_match; simplify_eq. split; [lia|done]. }
  destruct (slot_write _ _ h s (HSlot (s_handle s) r' (s_ctx s)) (rp_slots _ _ HR) Hr Hs)
    as (Hset & Hw & Hfind); [by right|by right|].
  unfold set_slot. rewrite Hset. cbn. eexists. split; [done|]. split; [|done].
  destruct HR as [R1 R2 R3 Rr R4 R5 R6]. split; cbn; try done.
  - intros h'. destruct (Z.eqb_spec h' 0) as [->|Hne].
    + rewrite lookup_insert_ne by lia. by rewrite R2.
    + rewrite Hfind by done. cbn. rewrite Es, Z.eqb_refl, Ec.
      destruct (Z.eqb_spec h' h) as [->|]; [by rewrite lookup_insert_eq|].
      rewrite lookup_insert_ne by done. by rewrite R2, (proj2 (Z.eqb_neq _ _) Hne).
  - rewrite map_size_insert, Hh. done.
  - intros h' Hh'. destruct (Z.eq_dec h' h) as [->|]; [apply R5; by eexists|].
    rewrite lookup_insert_ne in Hh' by done. by apply R5.
Qed.

Lemma grab_spec H M handle :
  repr H M -> low handle <> 0 ->
  match M !! low handle with
  | None => handle_grab handle H = Some (0, H)
  | Some (r, c) => exists H', handle_grab handle H = Some (c, H') /\
      repr H' (<[low handle := (r + 1, c)]> M) /\ H_last_id H' = H_last_id H
  end.
Proof.
  intros HR Hh. unfold handle_grab, low in *. set (h := Z.land handle 0xffffff) in *.
  rewrite (slots_land _ _ _ (rp_slots _ _ HR)).
  destruct (repr_slot H M h HR Hh) as (s & Hs & EM). rewrite Hs, EM. cbn [mbind option_bind].
  destruct (Z.eqb_spec (s_handle s) h); [|done]. cbn [negb].
  destruct (repr_set_ref H M h _ _ s (s_ref s + 1) HR EM Hs) as (H' & -> & HR' & Hl & _).
  cbn. by exists H'.
Qed.

Lemma release_ref_spec H M h :
  repr H M -> h <> 0 ->
  match M !! h with
  | None => handle_release_ref h H = Some (0, H)
  | Some (r, c) => exists H',
      handle_release_ref h H = Some (if r - 1 >? 0 then c else 0, H') /\
      repr H' (<[h := (r - 1, c)]> M) /\ H_last_id H' = H_last_id H
  end.
Proof.
  intros HR Hh. unfold handle_release_ref.
  rewrite (slots_land _ _ _ (rp_slots _ _ HR)).
  destruct (repr_slot H M h HR Hh) as (s & Hs & EM). rewrite Hs, EM. cbn [mbind option_bind].
  destruct (Z.eqb_spec (s_handle s) h); [|done]. cbn [negb].
  destruct (repr_set_ref H M h _ _ s (s_ref s - 1) HR EM Hs) as (H' & -> & HR' & Hl & _).
  cbn. by exists H'.
Qed.

Lemma remove_spec H M h :
  repr H M -> h <> 0 ->
  match M !! h with
  | None => handle_remove h H = Some (0, H)
  | Some (r, c) =>
      if r >? 0 then handle_remove h H = Some (0, H)
      else exists H', handle_remove h H = Some (c, H') /\ repr H' (delete h M) /\
        H_last_id H' = H_last_id H
  end.
Proof.
  intros HR Hh. unfold handle_remove.
  rewrite (slots_land _ _ _ (rp_slots _ _ HR)).
  destruct (repr_slot H M h HR Hh) as (s & Hs & EM). rewrite Hs, EM. cbn [mbind option_bind].
  destruct (Z.eqb_spec (s_handle s) h) as [Es|]; [|done]. cbn [negb].
  destruct (s_ref s >? 0); [done|].
  assert (Hr : 0 < h < 2 ^ 24) by (eapply repr_range; [done|by eexists]).
  destruct (slot_write _ _ h s (HSlot 0 (s_ref s) (s_ctx s)) (rp_slots _ _ HR) Hr Hs)
    as (Hset & Hw & Hfind); [by right|by left|].
  unfold set_slot. rewrite Hset. cbn. eexists. split; [done|]. split; [|done].
  destruct HR as [R1 R2 R3 Rr R4 R5 R6]. split; cbn; try done.
  - intros h'. destruct (Z.eqb_spec h' 0) as [->|Hne].
    + rewrite lookup_delete_ne by lia. by rewrite R2.
    + rewrite Hfind by done. cbn [s_handle s_ref s_ctx].
      rewrite (proj2 (Z.eqb_neq 0 h)) by lia.
      destruct (Z.eqb_spec h' h) as [->|]; [by rewrite lookup_delete_eq|].
      rewrite lookup_delete_ne by done. by rewrite R2, (proj2 (Z.eqb_neq _ _) Hne).
  - rewrite map_size_delete, EM, R3. assert (size M <> 0%nat); [|lia].
    intros ->%map_size_empty_iff. done.
  - lia.
  - intros h' Hh'. destruct (Z.eq_dec h' h) as [->|]; [apply R5; by eexists|].
    rewrite lookup_delete_ne in Hh' by done. by apply R5.
Qed.
End Refinement.

(** ** Expansion *)

Section Expand.
Context (cap : Z) (old : list hslot).
Hypothesis Hold : slots_wf cap old.

(** The new array after the first [i] slots were copied. *)
Record expanded (i : Z) (new : list hslot) : Prop := {
  ex_len : zlen new = 2 * cap;
  ex_from : forall j s, aget new j = Some s -> s = hslot0 \/
    (exists i', i' < i /\ aget old i' = Some s /\ j = s_handle s mod (2 * cap));
  ex_kept : forall i' s, i' < i -> aget old i' = Some s -> s_handle s mod (2 * cap) <> 0 ->
    aget new (s_handle s mod (2 * cap)) = Some s;
  ex_lost : (exists i' s, i' < i /\ aget old i' = Some s /\ s_handle s = 0) ->
    exists s, aget new 0 = Some s /\ s_handle s = 0
}.

Lemma mod_double h1 h2 : h1 mod (2 * cap) = h2 mod (2 * cap) -> h1 mod cap = h2 mod cap.
Proof.
  pose proof (slots_cap_pos _ _ Hold). intros E.
  assert (Hm : forall h, h mod (2 * cap) mod cap = h mod cap).
  { intros h. rewrite (Z.mul_comm 2), Z.rem_mul_r, (Z.mul_comm cap (_ mod _)), Z_mod_plus_full by lia.
    by apply Z.mod_mod; lia. }
  by rewrite <- (Hm h1), <- (Hm h2), E.
Qed.

Lemma double_zero h : h mod (2 * cap) = 0 -> h mod cap = 0.
Proof.
  intros E. rewrite (mod_double h 0); [by apply Z.mod_0_l; pose proof (slots_cap_pos _ _ Hold); lia|].
  rewrite E. symmetry. apply Z.mod_0_l. pose proof (slots_cap_pos _ _ Hold). lia.
Qed.

Lemma nonzero_live h : h mod (2 * cap) <> 0 -> h <> 0.
Proof. intros H ->. destruct H. apply Z.mod_0_l. pose proof (slots_cap_pos _ _ Hold). lia. Qed.

Lemma expanded_step i new os :
  expanded i new -> 0 <= i -> aget old i = Some os ->
  exists new', aset new (s_handle os mod (2 * cap)) os = Some new' /\ expanded (i + 1) new'.
Proof.
  intros [L F K Z0] Hi Hos. pose proof (slots_cap_pos _ _ Hold) as Hc.
  set (j := s_handle os mod (2 * cap)).
  assert (Hj : 0 <= j < zlen new) by (rewrite L; apply Z.mod_pos_bound; lia).
  eexists. split; [by apply aset_Some|]. split.
  - by clen.
  - intros j' s Hs. destruct (Z.eq_dec j' j) as [->|].
    + rewrite aget_insert_eq in Hs by done. simplify_eq. right. exists i. split; [lia|done].
    + rewrite aget_insert_ne in Hs by lia. destruct (F j' s Hs) as [|(i' & ? & ?)]; [by left|].
      right. exists i'. split; [lia|done].
  - intros i' s Hi' Hs Hnz. destruct (Z.eq_dec i' i) as [->|Hne].
    { rewrite Hos in Hs. simplify_eq. by apply aget_insert_eq. }
    rewrite aget_insert_ne; [apply (K i'); done || lia|lia|]. intros E. apply Hne.
    assert (Hz := Hnz). rewrite <- E in Hz. apply nonzero_live in Hnz, Hz.
    destruct (sw_pos _ _ Hold _ _ Hs Hnz) as [-> _], (sw_pos _ _ Hold _ _ Hos Hz) as [-> _].
    symmetry. by apply mod_double.
  - intros (i' & s & Hi' & Hs & Hs0). destruct (Z.eq_dec j 0) as [E|E].
    + rewrite E. exists os. rewrite aget_insert_eq by lia. split; [done|].
      destruct (Z.eq_dec (s_handle os) 0) as [|Hlive]; [done|]. exfalso.
      destruct (sw_pos _ _ Hold _ _ Hos Hlive) as [Ei _].
      rewrite (double_zero _ E) in Ei. pose proof (aget_Some _ _ _ Hs).
      assert (i' = i) as -> by lia. congruence.
    + rewrite aget_insert_ne by lia. apply Z0. exists i', s.
      destruct (Z.eq_dec i' i) as [->|]; [|split; [lia|done]]. exfalso. apply E.
      rewrite Hos in Hs. simplify_eq. unfold j. rewrite Hs0. apply Z.mod_0_l. lia.
Qed.

Lemma expand_slots_spec l pre new :
  old = pre ++ l -> expanded (zlen pre) new ->
  exists new', expand_slots (2 * cap - 1) l new = Some new' /\ expanded (zlen old) new'.
Proof.
  revert pre new. induction l as [|os l IH]; intros pre new E Hx.
  - exists new. rewrite app_nil_r in E. by subst pre.
  - cbn [expand_slots].
    assert (Hos : aget old (zlen pre) = Some os).
    { rewrite E, aget_app_r, Z.sub_diag by lia. done. }
    destruct (expanded_step _ _ _ Hx ltac:(lia) Hos) as (new' & Hset & Hx').
    destruct (sw_cap _ _ Hold) as (k & Hk & Ek).
    replace (Z.land (s_handle os) (2 * cap - 1)) with (s_handle os mod (2 * cap)).
    2: { rewrite Ek. replace (2 * 2 ^ k) with (2 ^ (k + 1)) by (rewrite Z.pow_add_r by lia; lia).
         symmetry. apply land_pow2_pred. lia. }
    rewrite Hset. cbn [mbind option_bind]. apply (IH (pre ++ [os])).
    + by rewrite E, <- (assoc (++)).
    + clen. by replace (Z.of_nat (length pre + 1)) with (zlen pre + 1) by lia.
Qed.

Lemma expanded_wf new : expanded (zlen old) new -> slots_wf (2 * cap) new.
Proof.
  intros [L F K _]. split.
  - destruct (sw_cap _ _ Hold) as (k & Hk & ->). exists (k + 1). split; [lia|].
    rewrite Z.pow_add_r by lia. lia.
  - done.
  - intros j s Hs Hne. destruct (F j s Hs) as [->|(i' & _ & Hi' & ->)]; [done|].
    split; [done|]. by eapply (sw_pos _ _ Hold).
Qed.

Lemma expanded_find new h :
  expanded (zlen old) new -> h <> 0 ->
  (h mod (2 * cap) = 0 -> find cap old h = None) ->
  find (2 * cap) new h = find cap old h.
Proof.
  intros Hx Hh Hsafe. pose proof (expanded_wf new Hx) as Hw.
  destruct (slots_get _ _ h Hold) as [s Hs], (slots_get _ _ h Hw) as [s' Hs'].
  destruct (Z.eq_dec (s_handle s) h) as [E|E].
  - pose proof (find_Some _ _ _ _ Hs E) as Ef. rewrite Ef in *. subst h.
    apply find_Some; [|done]. apply (ex_kept _ _ Hx (s_handle s mod cap)); [|done|].
    + apply aget_Some in Hs. lia.
    + intros H0. by specialize (Hsafe H0).
  - rewrite (find_None cap old h s) by done. apply find_None with s'; [done|].
    destruct (ex_from _ _ Hx _ _ Hs') as [->|(i' & _ & Hi' & _)]; [done|].
    intros Eh. destruct (sw_pos _ _ Hold _ _ Hi') as [-> _]; [congruence|].
    rewrite Eh in Hi'. congruence.
Qed.
End Expand.

(** What [handle_expand] does, and which services survive. *)
Lemma expand_ok H M :
  repr H M -> exists new, expand_slots (H_cap H * 2 - 1) (H_slot H)
      (replicate (Z.to_nat (H_cap H * 2)) hslot0) = Some new /\
    expanded (H_cap H) (H_slot H) (H_cap H) new.
Proof.
  intros HR. pose proof (rp_slots _ _ HR) as Hw. pose proof (slots_cap_pos _ _ Hw).
  rewrite (Z.mul_comm _ 2).
  destruct (expand_slots_spec _ _ Hw (H_slot H) [] (replicate (Z.to_nat (2 * H_cap H)) hslot0))
    as (new & Hn & Hx); [done| |].
  - split; clen; [lia| | |].
    + intros j s Hs. left. by apply aget_replicate_inv in Hs.
    + intros i' s Hi' Hs. apply aget_Some in Hs. lia.
    + intros (i' & s & Hi' & Hs & _). apply aget_Some in Hs. lia.
  - rewrite (sw_len _ _ Hw) in Hx. by exists new.
Qed.

Lemma expand_repr H M :
  repr H M -> (forall h, is_Some (M !! h) -> h mod (2 * H_cap H) <> 0) ->
  exists H', handle_expand true H = Some (0, H') /\ repr H' M /\
    H_cap H' = 2 * H_cap H /\ H_last_id H' = H_last_id H /\ H_harbor H' = H_harbor H /\
    H_n H' = H_n H.
Proof.
  intros HR Hsafe. destruct (expand_ok H M HR) as (new & Hn & Hx).
  pose proof (rp_slots _ _ HR) as Hw. rewrite <- (sw_len _ _ Hw) in Hx at 2.
  unfold handle_expand. cbn [negb]. rewrite Hn. cbn [mbind option_bind].
  eexists. split; [done|]. rewrite (Z.mul_comm _ 2). split; [|done].
  pose proof (expanded_wf _ _ Hw new Hx) as Hw'.
  pose proof (slots_cap_pos _ _ Hw) as Hc.
  destruct HR as [R1 R2 R3 Rr R4 R5 R6]. split; cbn [set_slots H_cap H_slot H_n H_last_id H_harbor];
    try done; [|lia].
  intros h. rewrite R2. destruct (Z.eqb_spec h 0) as [|Hne]; [done|].
  symmetry. apply expanded_find; [done|done|done|].
  intros H0. destruct (find _ _ h) eqn:Ef; [|done]. exfalso. apply (Hsafe h); [|done].
  rewrite R2, (proj2 (Z.eqb_neq _ _) Hne), Ef. by eexists.
Qed.

(** ** Registration *)

Lemma slots_nodup cap slots :
  slots_wf cap slots -> Forall (fun s => s_handle s <> 0) slots -> NoDup (s_handle <$> slots).
Proof.
  intros Hw Hall. apply NoDup_alt. intros i j h Hi Hj.
  apply list_lookup_fmap_Some in Hi as (s1 & -> & E1), Hj as (s2 & Ej & E2).
  rewrite <- aget_nat in E1, E2. rewrite Forall_forall in Hall.
  assert (Hin : forall (k : nat) s, aget slots (Z.of_nat k) = Some s -> s ∈ slots).
  { intros k s Hs. rewrite aget_nat in Hs. by eapply list_elem_of_lookup_2. }
  destruct (sw_pos _ _ Hw _ _ E1 (Hall _ (Hin _ _ E1))) as [P1 _].
  destruct (sw_pos _ _ Hw _ _ E2 (Hall _ (Hin _ _ E2))) as [P2 _].
  rewrite <- Ej in P2. lia.
Qed.

(** A registry that is not full has a vacant slot. *)
Lemma vacant_slot H M :
  repr H M -> exists i s, aget (H_slot H) i = Some s /\ s_handle s = 0.
Proof.
  intros HR. pose proof (rp_slots _ _ HR) as Hw.
  destruct (decide (Exists (fun s => s_handle s = 0) (H_slot H))) as [He|He].
  - apply Exists_exists in He as (s & Hin & Hs). apply list_elem_of_lookup in Hin as [i Hi].
    exists (Z.of_nat i), s. by rewrite aget_nat.
  - exfalso. rewrite <- Forall_Exists_neg in He.
    pose proof (slots_nodup _ _ Hw He) as Hnd.
    assert (Hsub : list_to_set (C := gset Z) (s_handle <$> H_slot H) ⊆ dom M).
    { intros h [s [-> Hin]]%elem_of_list_to_set%list_elem_of_fmap. apply elem_of_dom.
      rewrite Forall_forall in He. apply list_elem_of_lookup in Hin as Hlk.
      destruct Hlk as [i Hi]. rewrite <- aget_nat in Hi.
      destruct (sw_pos _ _ Hw _ _ Hi (He _ Hin)) as [Ep Hr].
      rewrite (rp_find _ _ HR), (proj2 (Z.eqb_neq (s_handle s) 0)) by lia.
      rewrite Ep in Hi. rewrite (find_Some _ _ _ s) by done. by eexists. }
    apply subseteq_size in Hsub. rewrite size_list_to_set, size_dom in Hsub by done.
    pose proof (rp_n _ _ HR). pose proof (rp_room _ _ HR). pose proof (sw_len _ _ Hw). clen. lia.
Qed.

Lemma low_harbor h c : 0 <= h < 2 ^ 24 -> low (Z.lor h (c * 2 ^ 24)) = h.
Proof.
  intros Hh. unfold low. change 0xffffff with (2 ^ 24 - 1).
  rewrite land_pow2_pred, <- Z.land_ones, Z.land_lor_distr_l, !Z.land_ones by lia.
  rewrite Z.mod_mul, Z.lor_0_r by lia. by apply Z.mod_small.
Qed.

Lemma low_range h : 0 <= low h < 2 ^ 24.
Proof.
  unfold low. change 0xffffff with (2 ^ 24 - 1). rewrite land_pow2_pred by lia.
  apply Z.mod_pos_bound. lia.
Qed.

Lemma repr_last_id H M id :
  repr H M -> H_last_id H <= id < 2 ^ 24 -> repr (set_last_id id H) M.
Proof.
  intros [R1 R2 R3 Rr R4 R5 R6] Hid. split; cbn; try done; [lia|].
  intros h Hh. specialize (R5 h Hh). lia.
Qed.

(** Writing a new handle into a vacant slot. *)
Lemma repr_add H M h ctx s :
  repr H M -> aget (H_slot H) (h mod H_cap H) = Some s -> s_handle s = 0 ->
  0 < h < 2 ^ 24 -> H_last_id H = h -> H_n H + 1 < H_cap H ->
  M !! h = None /\
  exists H', set_slot (h mod H_cap H) (HSlot h 1 ctx) H = Some H' /\
    repr (set_n (H_n H' + 1) H') (<[h := (1, ctx)]> M) /\
    H_last_id H' = H_last_id H /\ H_harbor H' = H_harbor H /\ H_cap H' = H_cap H.
Proof.
  intros HR Hs Hs0 Hr Hl Hn.
  assert (HM : M !! h = None).
  { rewrite (rp_find _ _ HR), (proj2 (Z.eqb_neq h 0)) by lia. apply find_None with s; [done|lia]. }
  split; [done|].
  destruct (slot_write _ _ h s (HSlot h 1 ctx) (rp_slots _ _ HR) Hr Hs)
    as (Hset & Hw & Hfind); [by left|by right|].
  unfold set_slot. rewrite Hset. cbn [mbind option_bind]. eexists. split; [done|]. split; [|done].
  destruct HR as [R1 R2 R3 Rr R4 R5 R6]. split; cbn [set_slots set_n H_cap H_slot H_n H_last_id H_harbor]; try done.
  - intros h'. destruct (Z.eqb_spec h' 0) as [->|Hne].
    + rewrite lookup_insert_ne by lia. by rewrite R2.
    + rewrite Hfind by done. cbn [s_handle s_ref s_ctx]. rewrite Z.eqb_refl.
      destruct (Z.eqb_spec h' h) as [->|]; [by rewrite lookup_insert_eq|].
      rewrite lookup_insert_ne by done. by rewrite R2, (proj2 (Z.eqb_neq _ _) Hne).
  - rewrite map_size_insert_None by done. lia.
  - intros h' Hh'. destruct (Z.eq_dec h' h) as [->|]; [lia|].
    rewrite lookup_insert_ne in Hh' by done. by apply R5.
Qed.

Lemma regist_loop_spec fuel ctx H M :
  repr H M -> H_n H + 1 < H_cap H -> H_last_id H + Z.of_nat fuel < 2 ^ 24 ->
  (exists j s, 1 <= j <= Z.of_nat fuel /\
     aget (H_slot H) ((H_last_id H + j) mod H_cap H) = Some s /\ s_handle s = 0) ->
  exists h H', regist_loop fuel ctx H = Some (Z.lor h (H_harbor H), H') /\
    H_last_id H < h < 2 ^ 24 /\ M !! h = None /\
    repr H' (<[h := (1, ctx)]> M) /\ H_last_id H' = h /\ H_cap H' = H_cap H.
Proof.
  revert H. induction fuel as [|fuel IH]; intros H HR Hn Hid (j & s & Hj & Hs & Hs0); [lia|].
  cbn [regist_loop]. pose proof (rp_last _ _ HR) as Hl.
  replace (u32 (H_last_id H + 1)) with (H_last_id H + 1) by (unfold u32; rewrite Z.mod_small; lia).
  rewrite (proj2 (Z.eqb_neq (H_last_id H + 1) 0)) by lia.
  change (H_slot (set_last_id (H_last_id H + 1) H)) with (H_slot H).
  change (H_cap (set_last_id (H_last_id H + 1) H)) with (H_cap H).
  rewrite (slots_land _ _ _ (rp_slots _ _ HR)).
  assert (HR1 : repr (set_last_id (H_last_id H + 1) H) M) by (apply repr_last_id; [done|lia]).
  destruct (slots_get _ _ (H_last_id H + 1) (rp_slots _ _ HR)) as [s1 Hs1].
  rewrite Hs1. cbn [mbind option_bind].
  destruct (Z.eqb_spec (s_handle s1) 0) as [E|E]; cbn [negb].
  - destruct (repr_add _ M (H_last_id H + 1) ctx s1 HR1 Hs1 E) as (HM & H' & Hset & HR' & E1 & E2 & E3);
      [lia|done|done|].
    cbn [set_last_id H_cap] in Hset. rewrite Hset. cbn [mbind option_bind].
    cbn [set_last_id H_last_id H_harbor H_cap] in E1, E2, E3.
    eexists (H_last_id H + 1), _. cbn [set_n H_harbor]. rewrite E2. split; [done|].
    split; [lia|]. split; [done|]. split; [exact HR'|]. by cbn.
  - destruct (IH (set_last_id (H_last_id H + 1) H) HR1 Hn) as (h & H' & Hx & Hh & HM & HR' & E1 & E2).
    + cbn. lia.
    + exists (j - 1), s. cbn. replace (H_last_id H + 1 + (j - 1)) with (H_last_id H + j) by lia.
      split; [|done]. destruct (Z.eq_dec j 1) as [->|]; [congruence|lia].
    + exists h, H'. cbn in Hh. split; [done|]. split; [lia|]. done.
Qed.

Lemma regist_loop_ok ctx H M :
  repr H M -> H_n H + 1 < H_cap H -> H_last_id H + 2 * H_cap H < 2 ^ 24 ->
  exists h H', regist_loop (Z.to_nat (2 * H_cap H)) ctx H = Some (Z.lor h (H_harbor H), H') /\
    H_last_id H < h < 2 ^ 24 /\ M !! h = None /\
    repr H' (<[h := (1, ctx)]> M) /\ H_last_id H' = h /\ H_cap H' = H_cap H.
Proof.
  intros HR Hn Hid. pose proof (slots_cap_pos _ _ (rp_slots _ _ HR)) as Hc.
  apply regist_loop_spec; [done|done|lia|].
  destruct (vacant_slot H M HR) as (i & s & Hs & Hs0).
  pose proof (aget_Some _ _ _ Hs) as Hi. rewrite (sw_len _ _ (rp_slots _ _ HR)) in Hi.
  exists ((i - H_last_id H - 1) mod H_cap H + 1), s.
  pose proof (Z.mod_pos_bound (i - H_last_id H - 1) (H_cap H)).
  split; [lia|]. split; [|done].
  replace (H_last_id H + ((i - H_last_id H - 1) mod H_cap H + 1)) with
    ((i - H_last_id H - 1) mod H_cap H + (H_last_id H + 1)) by lia.
  rewrite Zplus_mod_idemp_l. replace (i - H_last_id H - 1 + (H_last_id H + 1)) with i by lia.
  by rewrite Z.mod_small.
Qed.

Lemma expand_safe_spec H M h :
  repr H M -> expand_safe H = true -> H_cap H * 3 / 4 <= H_n H -> is_Some (M !! h) ->
  h mod (2 * H_cap H) <> 0.
Proof.
  intros HR Hsafe Hn Hh E. pose proof (repr_range _ _ _ HR Hh) as Hr.
  destruct (repr_slot H M h HR) as (s & Hs & EM); [lia|].
  rewrite (double_zero _ _ (rp_slots _ _ HR) h E) in Hs.
  rewrite EM in Hh. destruct (Z.eqb_spec (s_handle s) h) as [Es|]; [|by destruct Hh].
  unfold expand_safe in Hsafe. destruct (H_slot H) as [|s' l]; [done|].
  rewrite aget_cons_0 in Hs. simplify_eq. rewrite E in Hsafe. lia.
Qed.

Lemma regist_spec ctx H M :
  repr H M -> expand_safe H = true -> H_last_id H + 4 * H_cap H < 2 ^ 24 ->
  exists h H', handle_regist true ctx H = Some (Z.lor h (H_harbor H), H') /\
    H_last_id H < h < 2 ^ 24 /\ M !! h = None /\
    repr H' (<[h := (1, ctx)]> M) /\ H_last_id H' = h.
Proof.
  intros HR Hsafe Hid. pose proof (slots_cap_pos _ _ (rp_slots _ _ HR)) as Hc.
  pose proof (rp_room _ _ HR).
  unfold handle_regist. rewrite Z.geb_leb.
  destruct (Z.leb_spec (H_cap H * 3 / 4) (H_n H)) as [Hx|Hx].
  - destruct (expand_repr H M HR) as (H1 & -> & HR1 & Ec & El & <- & En).
    { intros h Hh. by eapply expand_safe_spec. }
    cbn [mbind option_bind negb Z.eqb].
    destruct (regist_loop_ok ctx H1 M HR1) as (h & H' & Hl & Hh & HM & HR' & E1 & E2); [lia|lia|].
    exists h, H'. rewrite El in Hh. done.
  - destruct (regist_loop_ok ctx H M HR) as (h & H' & Hl & Hh & HM & HR' & E1 & E2); [|lia|by exists h, H'].
    pose proof (Z.div_lt_upper_bound (H_cap H * 3) 4 (H_cap H)). Z.to_euclidean_division_equations; lia.
Qed.

(** ** Threads sharing the registry *)

Lemma held_count_cons h x l : held_count h (x :: l) = held_count h l + (if x =? h then 1 else 0).
Proof.
  unfold held_count. rewrite filter_cons.
  destruct (Z.eqb_spec x h); case_decide; cbn [length]; lia.
Qed.

Lemma held_count_perm h l l' : l ≡ₚ l' -> held_count h l = held_count h l'.
Proof. intros E. unfold held_count. by rewrite E. Qed.

Lemma held_count_pos h l : 0 <= held_count h l.
Proof. unfold held_count. lia. Qed.

Lemma held_count_zero h l : h ∉ l -> held_count h l = 0.
Proof.
  intros Hn. induction l as [|x l IH]; [done|]. apply not_elem_of_cons in Hn as [Hx Hl].
  rewrite held_count_cons, IH by done. by rewrite (proj2 (Z.eqb_neq x h)) by done.
Qed.

Lemma handle_init_repr harbor : repr (handle_init harbor) ∅.
Proof.
  assert (Hw : slots_wf 16 (replicate 16 hslot0)).
  { split; [exists 4; done|done|]. intros i s Hs%aget_replicate_inv. by subst s. }
  split; cbn [handle_init H_cap H_slot H_n H_last_id H_harbor]; [done| |done|lia|lia| |].
  - intros h. destruct (Z.eqb_spec h 0) as [->|Hne]; [done|].
    destruct (slots_get _ _ h Hw) as [s Hs]. rewrite (find_None _ _ h s), lookup_empty; [done|done|].
    apply aget_replicate_inv in Hs as ->. by cbn.
  - intros h [x Hx]. by rewrite lookup_empty in Hx.
  - exists (Z.land harbor 0xff). change 0xff with (2 ^ 8 - 1). rewrite land_pow2_pred by lia.
    pose proof (Z.mod_pos_bound harbor (2 ^ 8)). split; [lia|].
    rewrite Z.shiftl_mul_pow2 by lia. unfold u32. rewrite Z.mod_small; [done|].
    change (2 ^ 32) with (2 ^ 8 * 2 ^ 24). nia.
Qed.

Lemma hsys_init_wf harbor : hsys_wf (hsys_init harbor) ∅.
Proof.
  split; cbn [hsys_init hs_reg hs_held hs_removing hs_made hs_freed];
    [apply handle_init_repr|..]; try (intros; set_solver). constructor.
Qed.

Ltac hcbn := cbn [hs_reg hs_held hs_removing hs_made hs_freed] in *.
(** Look a handle up in an updated registry. *)
Ltac hlook h' h E := destruct (Z.eq_dec h' h) as [->|E];
  [rewrite ?lookup_insert_eq in *|rewrite ?lookup_insert_ne in * by done].

Lemma wf_regist H H' M held rem made freed ctx h :
  hsys_wf (HSys H held rem made freed) M -> ctx <> 0 -> ctx ∉ made ->
  H_last_id H < h -> M !! h = None -> repr H' (<[h := (1, ctx)]> M) -> H_last_id H' = h ->
  hsys_wf (HSys H' (h :: held) rem (ctx :: made) freed) (<[h := (1, ctx)]> M).
Proof.
  intros [W1 W2 W3 W4 W5 W6 W7 W8 W9 W10] Hc Hm Hl HM HR El. hcbn.
  assert (Hnl : forall h' r, M !! h' <> Some (r, ctx)).
  { intros h' r E. destruct Hm. by eapply W6. }
  split; hcbn; [done|..].
  - intros h' r c Hh. rewrite held_count_cons. hlook h' h E.
    + simplify_eq. rewrite Z.eqb_refl, held_count_zero; [done|].
      intros Hin. apply W3 in Hin as [x Hx]. congruence.
    + rewrite (proj2 (Z.eqb_neq h h')) by done. rewrite Z.add_0_r. by eapply W2.
  - intros h' Hin. hlook h' h E; [by eexists|]. apply elem_of_cons in Hin as [|]; [done|by apply W3].
  - intros h' c Hh. hlook h' h E; [done|by eapply W4].
  - intros h' Hin. specialize (W5 h' Hin). rewrite El. lia.
  - intros h' r c Hh. hlook h' h E.
    + simplify_eq. split; [by left|]. split; [|done]. by intros ?%W9.
    + destruct (W6 _ _ _ Hh) as (? & ? & ?). split; [by right|done].
  - intros h1 h2 r1 r2 c H1 H2. hlook h1 h E1; hlook h2 h E2; simplify_eq; try done;
      [by destruct (Hnl h2 r2)|by destruct (Hnl h1 r1)|by eapply W7].
  - intros c Hc'. apply elem_of_cons in Hc' as [->|Hin].
    + right. exists h, 1. apply lookup_insert_eq.
    + destruct (W8 c Hin) as [|(h' & r & Hh')]; [by left|]. right. exists h', r.
      rewrite lookup_insert_ne; [done|]. intros ->. congruence.
  - intros c Hin. right. by apply W9.
  - done.
Qed.

Lemma wf_count H H' M held held' rem made freed h r c r' :
  hsys_wf (HSys H held rem made freed) M -> M !! h = Some (r, c) ->
  r' = held_count h held' -> (forall h', h' <> h -> held_count h' held' = held_count h' held) ->
  (forall x, x ∈ held' -> x = h \/ x ∈ held) ->
  repr H' (<[h := (r', c)]> M) -> H_last_id H' = H_last_id H ->
  forall rem', (forall x, x ∈ rem -> x ∈ rem') -> (forall x, x ∈ rem' -> x = h \/ x ∈ rem) ->
  (r' = 0 -> h ∈ rem') ->
  hsys_wf (HSys H' held' rem' made freed) (<[h := (r', c)]> M).
Proof.
  intros [W1 W2 W3 W4 W5 W6 W7 W8 W9 W10] Hh Er Hoth Hin HR El rem' Hr1 Hr2 Hr0. hcbn.
  split; hcbn; [done|..].
  - intros h' r1 c1 Hh'. hlook h' h E; [by simplify_eq|]. rewrite Hoth by done. by eapply W2.
  - intros h' Hi. hlook h' h E; [by eexists|]. apply W3. by destruct (Hin h' Hi).
  - intros h' c1 Hh'. hlook h' h E; [simplify_eq; by apply Hr0|]. eapply Hr1, W4, Hh'.
  - intros h' Hi. rewrite El. destruct (Hr2 h' Hi) as [->|]; [|by apply W5].
    split; [eapply repr_range; [exact W1|by eexists]|]. eapply rp_old; [exact W1|by eexists].
  - intros h' r1 c1 Hh'. hlook h' h E; [simplify_eq; by eapply W6|by eapply W6].
  - intros h1 h2 r1 r2 c1 H1 H2. hlook h1 h E1; hlook h2 h E2; simplify_eq; try done;
      by eapply W7.
  - intros c1 Hc. destruct (W8 c1 Hc) as [|(h' & r1 & Hh')]; [by left|]. right.
    destruct (Z.eq_dec h' h) as [->|E].
    + rewrite Hh in Hh'. injection Hh' as <- <-. exists h, r'. apply lookup_insert_eq.
    + exists h', r1. by rewrite lookup_insert_ne.
  - done.
  - done.
Qed.

Lemma wf_remove H H' M held rem rem' made freed h c :
  hsys_wf (HSys H held rem made freed) M -> M !! h = Some (0, c) -> rem ≡ₚ h :: rem' ->
  repr H' (delete h M) -> H_last_id H' = H_last_id H ->
  hsys_wf (HSys H' held rem' made (c :: freed)) (delete h M).
Proof.
  intros [W1 W2 W3 W4 W5 W6 W7 W8 W9 W10] Hh Hr HR El. hcbn.
  assert (Hz : h ∉ held).
  { intros Hin. pose proof (W2 _ _ _ Hh) as E. apply list_elem_of_split in Hin as (l1 & l2 & ->).
    rewrite (held_count_perm _ _ (h :: l1 ++ l2)), held_count_cons, Z.eqb_refl in E
      by solve_Permutation.
    pose proof (held_count_pos h (l1 ++ l2)). lia. }
  split; hcbn; [done|..].
  - intros h' r1 c1 [_ Hh']%lookup_delete_Some. by eapply W2.
  - intros h' Hi. rewrite lookup_delete_ne; [by apply W3|congruence].
  - intros h' c1 [Hne Hh']%lookup_delete_Some. apply W4 in Hh'. rewrite Hr in Hh'.
    apply elem_of_cons in Hh' as [|]; [congruence|done].
  - intros h' Hi. rewrite El. apply W5. rewrite Hr. by right.
  - intros h' r1 c1 [Hne Hh']%lookup_delete_Some. destruct (W6 _ _ _ Hh') as (? & Hf & ?).
    split; [done|]. split; [|done]. apply not_elem_of_cons. split; [|done].
    intros ->. destruct Hne. by eapply W7.
  - intros h1 h2 r1 r2 c1 [_ H1]%lookup_delete_Some [_ H2]%lookup_delete_Some. by eapply W7.
  - intros c1 Hc. destruct (W8 c1 Hc) as [|(h' & r1 & Hh')]; [left; by right|].
    destruct (Z.eq_dec h' h) as [->|E]; [left; simplify_eq; by left|].
    right. exists h', r1. by rewrite lookup_delete_ne.
  - intros c1 [->|]%elem_of_cons; [by eapply W6|by apply W9].
  - constructor; [by eapply W6|done].
Qed.

Lemma wf_rem_drop H M held rem rem' made freed h :
  hsys_wf (HSys H held rem made freed) M -> rem ≡ₚ h :: rem' ->
  (forall c, M !! h <> Some (0, c)) -> hsys_wf (HSys H held rem' made freed) M.
Proof.
  intros [W1 W2 W3 W4 W5 W6 W7 W8 W9 W10] Hr Hn. hcbn. split; hcbn; try done.
  - intros h' c Hh'. pose proof (W4 _ _ Hh') as Hin. rewrite Hr in Hin.
    apply elem_of_cons in Hin as [->|]; [by destruct (Hn c)|done].
  - intros h' Hi. apply W5. rewrite Hr. by right.
Qed.

Lemma hsys_wf_perm H M held held' rem rem' made freed :
  hsys_wf (HSys H held rem made freed) M -> held ≡ₚ held' -> rem ≡ₚ rem' ->
  hsys_wf (HSys H held' rem' made freed) M.
Proof.
  intros [W1 W2 W3 W4 W5 W6 W7 W8 W9 W10] Eh Er. hcbn. split; hcbn; try done.
  - intros h r c E. rewrite <- (held_count_perm _ _ _ Eh). by eapply W2.
  - intros h. rewrite <- Eh. apply W3.
  - intros h c. rewrite <- Er. apply W4.
  - intros h. rewrite <- Er. apply W5.
Qed.

(** The operations in a well-formed system: what they return and the system
    after them. *)
Lemma reg_regist H M held rem made freed ctx :
  hsys_wf (HSys H held rem made freed) M -> ctx <> 0 -> ctx ∉ made -> expand_safe H = true ->
  H_last_id H + 4 * H_cap H < 2 ^ 24 ->
  exists h H', handle_regist true ctx H = Some (h, H') /\ M !! low h = None /\
    H_last_id H < low h /\ H_last_id H' = low h /\
    hsys_wf (HSys H' (low h :: held) rem (ctx :: made) freed) (<[low h := (1, ctx)]> M).
Proof.
  intros HW Hc Hm Hsafe Hid. pose proof (hw_repr _ _ HW) as HR. hcbn.
  destruct (regist_spec ctx H M HR Hsafe Hid) as (h0 & H0 & Hx0 & Hh0 & HM & HR0 & El).
  destruct (rp_harbor _ _ HR) as (c & Hc0 & Eh). pose proof (rp_last _ _ HR).
  exists (Z.lor h0 (H_harbor H)), H0. rewrite Eh in *. rewrite low_harbor by lia.
  split_and!; try done; [lia|]. eapply wf_regist; done || lia.
Qed.

Lemma reg_grab H M held rem made freed handle :
  hsys_wf (HSys H held rem made freed) M -> low handle <> 0 ->
  match M !! low handle with
  | None => handle_grab handle H = Some (0, H)
  | Some (r, c) => c <> 0 /\ exists H', handle_grab handle H = Some (c, H') /\
      H_last_id H' = H_last_id H /\
      hsys_wf (HSys H' (low handle :: held) rem made freed) (<[low handle := (r + 1, c)]> M)
  end.
Proof.
  intros HW Hh. pose proof (hw_repr _ _ HW) as HR. hcbn.
  pose proof (grab_spec H M handle HR Hh) as Hg.
  destruct (M !! low handle) as [[r c]|] eqn:EM; [|done].
  destruct Hg as (H0 & Hx0 & HR0 & El).
  destruct (hw_live _ _ HW _ _ _ EM) as (_ & _ & Hc0).
  pose proof (hw_ref _ _ HW _ _ _ EM) as Er. hcbn.
  split; [done|]. exists H0. split; [done|]. split; [done|].
  eapply wf_count; [done|done| | | |done|done|done|by right|].
  - rewrite held_count_cons, Z.eqb_refl. lia.
  - intros h' Hne. rewrite held_count_cons, (proj2 (Z.eqb_neq _ _)); [lia|done].
  - intros x. rewrite elem_of_cons. done.
  - pose proof (held_count_pos (low handle) held). lia.
Qed.

Lemma reg_release H M held rem made freed h :
  hsys_wf (HSys H (h :: held) rem made freed) M ->
  exists r c H', M !! h = Some (r, c) /\ c <> 0 /\ 0 < r /\
    handle_release_ref h H = Some (if r =? 1 then 0 else c, H') /\ H_last_id H' = H_last_id H /\
    hsys_wf (HSys H' held (if r =? 1 then h :: rem else rem) made freed) (<[h := (r - 1, c)]> M).
Proof.
  intros HW. pose proof (hw_repr _ _ HW) as HR. hcbn.
  destruct (hw_held _ _ HW h) as [[r c] EM]; [by left|].
  pose proof (release_ref_spec H M h HR) as Hg. rewrite EM in Hg.
  destruct Hg as (H0 & Hx0 & HR0 & El).
  { intros ->. rewrite (rp_find _ _ HR) in EM. done. }
  destruct (hw_live _ _ HW _ _ _ EM) as (_ & _ & Hc0).
  pose proof (hw_ref _ _ HW _ _ _ EM) as Er. hcbn.
  rewrite held_count_cons, Z.eqb_refl in Er. pose proof (held_count_pos h held).
  exists r, c, H0. split; [done|]. split; [done|]. split; [lia|]. split.
  { rewrite Hx0. do 2 f_equal. destruct (Z.gtb_spec (r - 1) 0), (Z.eqb_spec r 1); done || lia. }
  split; [done|].
  eapply wf_count; [done|done| | | |done|done| | |].
  - lia.
  - intros h' Hne. rewrite held_count_cons. rewrite (proj2 (Z.eqb_neq h h')); [lia|done].
  - intros x Hx'. right. by right.
  - intros x Hx'. destruct (r =? 1); [by right|done].
  - intros x Hx'. destruct (r =? 1); [by apply elem_of_cons|by right].
  - intros E. assert (r = 1) as -> by lia. by left.
Qed.

Lemma reg_remove H M held rem made freed h :
  hsys_wf (HSys H held (h :: rem) made freed) M ->
  (handle_remove h H = Some (0, H) /\ hsys_wf (HSys H held rem made freed) M) \/
  (exists c H', M !! h = Some (0, c) /\ c <> 0 /\ handle_remove h H = Some (c, H') /\
     H_last_id H' = H_last_id H /\ hsys_wf (HSys H' held rem made (c :: freed)) (delete h M)).
Proof.
  intros HW. pose proof (hw_repr _ _ HW) as HR. hcbn.
  assert (Hh0 : h <> 0) by (pose proof (hw_removing _ _ HW h ltac:(by left)); lia).
  pose proof (remove_spec H M h HR Hh0) as Hg. destruct (M !! h) as [[r c]|] eqn:EM.
  - pose proof (hw_ref _ _ HW _ _ _ EM) as Er. hcbn. pose proof (held_count_pos h held).
    destruct (Z.gtb_spec r 0).
    + left. split; [done|]. eapply wf_rem_drop; [done|done|]. intros c'. rewrite EM. intros [=]. lia.
    + assert (r = 0) as -> by lia. destruct Hg as (Hq & Hx1 & HR1 & El). right.
      destruct (hw_live _ _ HW _ _ _ EM) as (_ & _ & Hc0). exists c, Hq.
      split_and!; try done. by eapply wf_remove.
  - left. split; [done|]. eapply wf_rem_drop; [done|done|]. intros c'. by rewrite EM.
Qed.

(** Without memory a registration that has to expand is refused. *)
Lemma regist_no_mem ctx H :
  handle_regist false ctx H = Some (0, H) \/ handle_regist false ctx H = handle_regist true ctx H.
Proof.
  unfold handle_regist. destruct (H_n H >=? H_cap H * 3 / 4); [|by right].
  left. reflexivity.
Qed.

Lemma hstep_wf a (sy sy' : hsys) M :
  hsys_wf sy M -> act_ok a sy = true -> hstep a sy sy' -> exists M', hsys_wf sy' M'.
Proof.
  intros HW Ha Hst. destruct Hst as
    [mem H H' held rem made freed ctx h Hc Hm Hx|H H' held rem made freed handle ctx Hx
    |H H' held held' rem made freed h ctx Hp Hx|H H' held rem rem' made freed h ctx Hp Hx];
    cbn [act_ok hs_reg] in Ha.
  - apply andb_prop in Ha as [Hsafe Hid%Z.ltb_lt].
    destruct (reg_regist _ _ _ _ _ _ _ HW Hc Hm Hsafe Hid) as (h0 & H0 & Hx0 & _ & Hh0 & _ & HW').
    assert (Hor : handle_regist mem ctx H = Some (0, H) \/
                  handle_regist mem ctx H = handle_regist true ctx H).
    { destruct mem; [by right|apply regist_no_mem]. }
    destruct Hor as [E|E]; rewrite E in Hx; [simplify_eq; by exists M|].
    rewrite Hx in Hx0. simplify_eq. pose proof (rp_last _ _ (hw_repr _ _ HW)). hcbn.
    rewrite (proj2 (Z.eqb_neq h0 0)) by (intros ->; change (low 0) with 0 in Hh0; lia). by eexists.
  - apply negb_true_iff, Z.eqb_neq in Ha. pose proof (reg_grab _ _ _ _ _ _ _ HW Ha) as Hg.
    destruct (M !! low handle) as [[r c]|] eqn:EM; [|rewrite Hx in Hg; simplify_eq; by exists M].
    destruct Hg as (Hc0 & H0 & Hx0 & _ & HW'). rewrite Hx in Hx0. simplify_eq.
    rewrite (proj2 (Z.eqb_neq c 0)) by done. by eexists.
  - eapply hsys_wf_perm in HW; [|exact Hp|done].
    destruct (reg_release _ _ _ _ _ _ _ HW) as (r & c & H0 & _ & Hc0 & Hr & Hx0 & _ & HW').
    rewrite Hx in Hx0. simplify_eq. eexists.
    destruct (r =? 1); [exact HW'|]. rewrite (proj2 (Z.eqb_neq c 0)) by done. exact HW'.
  - eapply hsys_wf_perm in HW; [|done|exact Hp].
    destruct (reg_remove _ _ _ _ _ _ _ HW) as [[Hx0 HW']|(c & H0 & _ & Hc0 & Hx0 & _ & HW')];
      rewrite Hx in Hx0; simplify_eq; [by eexists|].
    rewrite (proj2 (Z.eqb_neq c 0)) by done. by eexists.
Qed.

Lemma hreachable_wf harbor (sy : hsys) :
  rtc hstep_ok (hsys_init harbor) sy -> exists M, hsys_wf sy M.
Proof.
  intros Hr. pose proof (hsys_init_wf harbor) as Hw0.
  assert (Hw : exists M, hsys_wf (hsys_init harbor) M) by (by eexists). clear Hw0.
  revert Hw. induction Hr as [|s1 s2 s3 Hst _ IH]; [done|]. intros [M HM].
  destruct Hst as (a & Ha & Hst). apply IH. by eapply hstep_wf.
Qed.

(** ** [strcmp] *)

Lemma strcmp_refl a : strcmp a a = 0.
Proof. induction a as [|x a IH]; cbn; [done|]. by rewrite Z.ltb_irrefl. Qed.

Lemma strcmp_eq a b : strcmp a b = 0 -> a = b.
Proof.
  revert b. induction a as [|x a IH]; intros [|y b]; cbn; try done.
  destruct (Z.ltb_spec (Z.of_N (Ascii.N_of_ascii x)) (Z.of_N (Ascii.N_of_ascii y))); [done|].
  destruct (Z.ltb_spec (Z.of_N (Ascii.N_of_ascii y)) (Z.of_N (Ascii.N_of_ascii x))); [done|].
  intros E. f_equal; [apply ascii_code; lia|by apply IH].
Qed.

Lemma strcmp_flip a b : strcmp b a = - strcmp a b.
Proof.
  revert b. induction a as [|x a IH]; intros [|y b]; cbn; try done.
  destruct (Z.ltb_spec (Z.of_N (Ascii.N_of_ascii x)) (Z.of_N (Ascii.N_of_ascii y)));
    destruct (Z.ltb_spec (Z.of_N (Ascii.N_of_ascii y)) (Z.of_N (Ascii.N_of_ascii x)));
    first [lia | apply IH].
Qed.

Lemma strcmp_trans a b c : strcmp a b < 0 -> strcmp b c < 0 -> strcmp a c < 0.
Proof.
  revert b c. induction a as [|x a IH]; intros [|y b] [|z c]; cbn; try (done || lia).
  destruct (Z.ltb_spec (Z.of_N (Ascii.N_of_ascii x)) (Z.of_N (Ascii.N_of_ascii y)));
    destruct (Z.ltb_spec (Z.of_N (Ascii.N_of_ascii y)) (Z.of_N (Ascii.N_of_ascii z)));
    destruct (Z.ltb_spec (Z.of_N (Ascii.N_of_ascii x)) (Z.of_N (Ascii.N_of_ascii z)));
    destruct (Z.ltb_spec (Z.of_N (Ascii.N_of_ascii y)) (Z.of_N (Ascii.N_of_ascii x)));
    destruct (Z.ltb_spec (Z.of_N (Ascii.N_of_ascii z)) (Z.of_N (Ascii.N_of_ascii y)));
    destruct (Z.ltb_spec (Z.of_N (Ascii.N_of_ascii z)) (Z.of_N (Ascii.N_of_ascii x)));
    first [lia | apply IH].
Qed.

(** ** The name table *)

Section Names.
Context (names : list hname) (kvs : list (string * Z)).
Hypothesis Hent : forall i, 0 <= i < zlen kvs -> aget names i = name_entry <$> aget kvs i.
Hypothesis Hsorted : StronglySorted name_lt kvs.

Lemma sorted_aget i j a b :
  i < j -> aget kvs i = Some a -> aget kvs j = Some b -> strcmp a.1 b.1 < 0.
Proof.
  intros Hij Ha Hb. pose proof (aget_Some _ _ _ Ha). pose proof (aget_Some _ _ _ Hb).
  clear Hent. revert i j Hij Ha Hb H H0.
  induction Hsorted as [|x l Hl IH Hx]; intros i j Hij Ha Hb Hi Hj; [cbn in Hi; lia|].
  replace j with (j - 1 + 1) in Hb by lia. rewrite aget_cons_S in Hb by lia.
  pose proof (aget_Some _ _ _ Hb) as Hj'.
  destruct (Z.eq_dec i 0) as [->|].
  - rewrite aget_cons_0 in Ha. simplify_eq. rewrite Forall_forall in Hx. apply Hx.
    unfold aget in Hb. case_match; [|done]. by eapply list_elem_of_lookup_2.
  - replace i with (i - 1 + 1) in Ha by lia. rewrite aget_cons_S in Ha by lia.
    pose proof (aget_Some _ _ _ Ha). apply (IH Hl (i - 1) (j - 1)); done || lia.
Qed.

(** The binary search finds the entry, or the place where it belongs. *)
Lemma search_spec fuel beg last name :
  0 <= beg -> last < zlen kvs -> last - beg + 1 <= Z.of_nat fuel -> beg <= last + 1 ->
  (forall i a, i < beg -> aget kvs i = Some a -> strcmp a.1 name < 0) ->
  (forall i a, last < i -> aget kvs i = Some a -> 0 < strcmp a.1 name) ->
  (exists i v, search fuel beg last names name = Some (inl v) /\ aget kvs i = Some (name, v)) \/
  (exists p, search fuel beg last names name = Some (inr p) /\ 0 <= p <= zlen kvs /\
    (forall i a, i < p -> aget kvs i = Some a -> strcmp a.1 name < 0) /\
    (forall i a, p <= i -> aget kvs i = Some a -> 0 < strcmp a.1 name)).
Proof.
  revert beg last. induction fuel as [|fuel IH]; intros beg last Hb Hl Hf Hbl Hlo Hhi;
    cbn [search]; destruct (Z.leb_spec beg last) as [Hle|Hle]; try lia.
  - right. exists beg. split; [done|]. split; [lia|]. split; [done|].
    intros i a Hi. apply Hhi. lia.
  - assert (Hm : beg <= (beg + last) / 2 <= last) by (Z.to_euclidean_division_equations; lia).
    destruct (aget_is_Some kvs ((beg + last) / 2)) as [[k v] Hk]; [lia|].
    rewrite Hent, Hk by lia. cbn [fmap option_fmap option_map mbind option_bind name_entry n_name n_handle fst snd].
    destruct (Z.eqb_spec (strcmp k name) 0) as [E|E].
    { left. exists ((beg + last) / 2), v. split; [done|]. apply strcmp_eq in E. by subst k. }
    destruct (Z.ltb_spec (strcmp k name) 0) as [Hlt|Hge].
    + apply IH; try lia; [|done]. intros i [k' v'] Hi Ha. cbn.
      destruct (Z.eq_dec i ((beg + last) / 2)) as [->|]; [by simplify_eq|].
      eapply strcmp_trans; [|exact Hlt]. apply (sorted_aget i ((beg + last) / 2) _ _ ltac:(lia) Ha Hk).
    + apply IH; try lia; [done|]. intros i [k' v'] Hi Ha. cbn.
      destruct (Z.eq_dec i ((beg + last) / 2)) as [->|]; [simplify_eq; lia|].
      rewrite strcmp_flip. enough (strcmp name k' < 0) by lia.
      apply (strcmp_trans _ k); [rewrite strcmp_flip; lia|].
      apply (sorted_aget ((beg + last) / 2) i _ _ ltac:(lia) Hk Ha).
  - right. exists beg. split; [done|]. split; [lia|]. split; [done|].
    intros i a Hi. apply Hhi. lia.
Qed.

Lemma sorted_nodup : NoDup kvs.*1.
Proof.
  apply NoDup_alt. intros i j k Hi Hj.
  apply list_lookup_fmap_Some in Hi as (a & -> & Ha), Hj as (b & Eb & Hb).
  rewrite <- aget_nat in Ha, Hb.
  destruct (Nat.lt_trichotomy i j) as [Hij|[|Hij]]; [|done|]; exfalso.
  - pose proof (sorted_aget (Z.of_nat i) (Z.of_nat j) a b ltac:(lia) Ha Hb) as Hc. rewrite Eb, strcmp_refl in Hc. lia.
  - pose proof (sorted_aget (Z.of_nat j) (Z.of_nat i) b a ltac:(lia) Hb Ha) as Hc. rewrite Eb, strcmp_refl in Hc. lia.
Qed.

(** Inserting at the place the search returns. *)
Lemma sorted_insert p name v :
  0 <= p <= zlen kvs ->
  (forall i a, i < p -> aget kvs i = Some a -> strcmp a.1 name < 0) ->
  (forall i a, p <= i -> aget kvs i = Some a -> 0 < strcmp a.1 name) ->
  StronglySorted name_lt (take (Z.to_nat p) kvs ++ (name, v) :: drop (Z.to_nat p) kvs).
Proof.
  intros Hp Hlo Hhi.
  assert (Hs := Hsorted). rewrite <- (take_drop (Z.to_nat p) kvs) in Hs.
  apply StronglySorted_app in Hs as (Hc & Ht & Hd).
  assert (Hin1 : forall x, x ∈ take (Z.to_nat p) kvs -> strcmp x.1 name < 0).
  { intros x [i Hi]%list_elem_of_lookup. apply lookup_take_Some in Hi as [Hi Hlt].
    apply (Hlo (Z.of_nat i)); [lia|by rewrite aget_nat]. }
  assert (Hin2 : forall x, x ∈ drop (Z.to_nat p) kvs -> 0 < strcmp x.1 name).
  { intros x [i Hi]%list_elem_of_lookup. rewrite lookup_drop in Hi.
    apply (Hhi (Z.of_nat (Z.to_nat p + i))); [lia|by rewrite aget_nat]. }
  assert (Hin3 : forall x, x ∈ drop (Z.to_nat p) kvs -> name_lt (name, v) x).
  { intros x Hx. unfold name_lt. cbn. rewrite strcmp_flip. specialize (Hin2 x Hx). lia. }
  apply StronglySorted_app. split; [|split; [done|]].
  - intros x y Hx [->|Hy]%elem_of_cons; [by apply Hin1|by apply Hc].
  - constructor; [done|]. apply Forall_forall. intros x Hx. by apply Hin3.
Qed.
End Names.

Lemma copy_names_spec k i off names n :
  0 <= i -> 0 <= i + off -> i + Z.of_nat k <= zlen names -> i + off + Z.of_nat k <= zlen n ->
  exists n', copy_names k i off names n = Some n' /\ zlen n' = zlen n /\
    forall j, aget n' j = if (i + off <=? j) && (j <? i + off + Z.of_nat k)
      then aget names (j - off) else aget n j.
Proof.
  revert i n. induction k as [|k IH]; intros i n Hi Hio Hk Hn; cbn [copy_names].
  - exists n. split; [done|]. split; [done|]. intros j. case_match; [lia|done].
  - destruct (aget_is_Some names i) as [x Hx]; [lia|]. rewrite Hx. cbn [mbind option_bind].
    rewrite aset_Some by lia. cbn [mbind option_bind].
    destruct (IH (i + 1) (<[Z.to_nat (i + off) := x]> n)) as (n' & -> & Hl & Hget); clen; try lia.
    exists n'. split; [done|]. split; [done|]. intros j. rewrite Hget.
    destruct (Z.eq_dec j (i + off)) as [->|Hne].
    + rewrite aget_insert_eq by lia. replace (i + off - off) with i by lia.
      repeat case_match; try lia. by rewrite Hx.
    + rewrite aget_insert_ne by lia. repeat case_match; try lia; done.
Qed.

Lemma shift_names_spec k i names :
  Z.of_nat k <= i < zlen names ->
  exists n', shift_names k i names = Some n' /\ zlen n' = zlen names /\
    forall j, aget n' j = if (i - Z.of_nat k <? j) && (j <=? i) then aget names (j - 1)
      else aget names j.
Proof.
  revert i names. induction k as [|k IH]; intros i names Hi; cbn [shift_names].
  - exists names. split; [done|]. split; [done|]. intros j. case_match; [lia|done].
  - destruct (aget_is_Some names (i - 1)) as [x Hx]; [lia|]. rewrite Hx. cbn [mbind option_bind].
    rewrite aset_Some by lia. cbn [mbind option_bind].
    destruct (IH (i - 1) (<[Z.to_nat i := x]> names)) as (n' & -> & Hl & Hget); clen; try lia.
    exists n'. split; [done|]. split; [done|]. intros j. rewrite Hget.
    destruct (Z.eq_dec j i) as [->|Hne].
    + rewrite aget_insert_eq, Hx by lia. repeat case_match; try lia; done.
    + repeat case_match; try lia; by rewrite aget_insert_ne by lia.
Qed.

(** The array after [_insert_before]. *)
Lemma insert_before_spec name handle p H :
  zlen (H_names H) = H_name_cap H -> 0 <= p <= H_name_count H ->
  H_name_count H <= H_name_cap H -> 0 < H_name_cap H ->
  exists cap names', _insert_before name handle p H = Some (set_names cap (H_name_count H + 1) names' H) /\
    zlen names' = cap /\ H_name_count H + 1 <= cap /\
    forall i, 0 <= i <= H_name_count H -> aget names' i =
      if i <? p then aget (H_names H) i
      else if i =? p then Some (HName (Some name) handle) else aget (H_names H) (i - 1).
Proof.
  intros Hl Hp Hc Hpos. unfold _insert_before.
  assert (exists cap ns, (if H_name_count H >=? H_name_cap H then
       n ← copy_names (Z.to_nat p) 0 0 (H_names H) (replicate (Z.to_nat (H_name_cap H * 2)) hname0);
       n ← copy_names (Z.to_nat (H_name_count H - p)) p 1 (H_names H) n;
       Some (H_name_cap H * 2, n)
     else
       names ← shift_names (Z.to_nat (H_name_count H - p)) (H_name_count H) (H_names H);
       Some (H_name_cap H, names)) = Some (cap, ns) /\ zlen ns = cap /\ H_name_count H + 1 <= cap /\
    forall i, 0 <= i <= H_name_count H -> i <> p -> aget ns i =
      if i <? p then aget (H_names H) i else aget (H_names H) (i - 1))
    as (cap & ns & Hbr & Hlen & Hroom & Hget).
  { rewrite Z.geb_leb. destruct (Z.leb_spec (H_name_cap H) (H_name_count H)).
    - destruct (copy_names_spec (Z.to_nat p) 0 0 (H_names H)
        (replicate (Z.to_nat (H_name_cap H * 2)) hname0)) as (n1 & -> & L1 & G1); clen; try lia.
      cbn [mbind option_bind].
      destruct (copy_names_spec (Z.to_nat (H_name_count H - p)) p 1 (H_names H) n1)
        as (n2 & -> & L2 & G2); clen; try lia.
      cbn [mbind option_bind]. eexists _, n2. split; [done|]. split; [lia|]. split; [lia|].
      intros i Hi Hne. rewrite G2. destruct (Z.ltb_spec i p); case_match; try lia; [|done].
      rewrite G1. case_match; [by rewrite Z.sub_0_r|lia].
    - destruct (shift_names_spec (Z.to_nat (H_name_count H - p)) (H_name_count H) (H_names H))
        as (n1 & -> & L1 & G1); [lia|].
      cbn [mbind option_bind]. eexists _, n1. split; [done|]. split; [lia|]. split; [lia|].
      intros i Hi Hne. rewrite G1. destruct (Z.ltb_spec i p); case_match; try lia; done. }
  cbn zeta. rewrite Hbr. cbn [mbind option_bind]. rewrite aset_Some by lia. cbn [mbind option_bind].
  exists cap, (<[Z.to_nat p:=HName (Some name) handle]> ns). split; [done|]. clen.
  split; [done|]. split; [done|]. intros i Hi.
  destruct (Z.eqb_spec i p) as [->|Hne].
  - rewrite aget_insert_eq by lia. by rewrite Z.ltb_irrefl.
  - rewrite aget_insert_ne by lia. by apply Hget.
Qed.

Lemma names_insert H N kvs p name handle :
  names_repr H N ->
  zlen kvs = H_name_count H -> StronglySorted name_lt kvs -> N = list_to_map kvs ->
  (forall i, 0 <= i < zlen kvs -> aget (H_names H) i = name_entry <$> aget kvs i) ->
  0 <= p <= zlen kvs -> 
  (forall i a, i < p -> aget kvs i = Some a -> strcmp a.1 name < 0) ->
  (forall i a, p <= i -> aget kvs i = Some a -> 0 < strcmp a.1 name) ->
  exists H', _insert_before name handle p H = Some H' /\ names_repr H' (<[name := handle]> N).
Proof.
  intros [_ Hcap Hcount Hpos] Hl Hs HN He Hp Hlo Hhi.
  destruct (insert_before_spec name handle p H) as (cap & ns & -> & Hlen & Hroom & Hget); try lia.
  eexists. split; [done|].
  assert (Hnd : name ∉ kvs.*1).
  { intros (a & -> & Ha)%list_elem_of_fmap. apply list_elem_of_lookup in Ha as [i Hi].
    rewrite <- aget_nat in Hi.
    destruct (Z.lt_ge_cases (Z.of_nat i) p) as [Hlt|Hge].
    - specialize (Hlo _ _ Hlt Hi). rewrite strcmp_refl in Hlo. lia.
    - specialize (Hhi _ _ Hge Hi). rewrite strcmp_refl in Hhi. lia. }
  split; cbn [set_names H_names H_name_cap H_name_count]; [|done|lia|lia].
  exists (take (Z.to_nat p) kvs ++ (name, handle) :: drop (Z.to_nat p) kvs). split_and!.
  - clen. lia.
  - by eapply sorted_insert.
  - rewrite HN. transitivity (list_to_map (M := gmap string Z) ((name, handle) :: kvs)); [done|].
    apply list_to_map_proper.
    + cbn. constructor; [done|by eapply sorted_nodup].
    + rewrite <- (take_drop (Z.to_nat p) kvs) at 1. solve_Permutation.
  - clen. intros i Hi. rewrite Hget, aget_insert_at by lia.
    destruct (Z.ltb_spec i p); [by apply He; lia|].
    destruct (Z.eqb_spec i p); [done|]. apply He. lia.
Qed.

(** Each call of [handle_name] against the finite map. *)
Lemma handle_name_spec name handle H N :
  names_repr H N ->
  exists H', handle_name name handle H = Some ((spec_name name handle N).1, H') /\
    names_repr H' (spec_name name handle N).2.
Proof.
  intros HN. pose proof HN as [(kvs & Hl & Hs & EN & He) Hcap Hcount Hpos].
  unfold handle_name, _query, _insert, name_search, spec_name.
  destruct (search_spec (H_names H) kvs He Hs (Z.to_nat (H_name_count H)) 0 (H_name_count H - 1) name)
    as [(i & v & -> & Hi)|(p & -> & Hp & Hlo & Hhi)]; try lia.
  - intros i a Hi Ha. apply aget_Some in Ha. lia.
  - intros i a Hi Ha. apply aget_Some in Ha. lia.
  - assert (EL : N !! name = Some v).
    { rewrite EN. apply elem_of_list_to_map_1; [by eapply sorted_nodup|].
      unfold aget in Hi. case_match; [|done]. by eapply list_elem_of_lookup_2. }
    rewrite EL. cbn [mbind option_bind]. exists H. by destruct (handle =? 0).
  - assert (EL : N !! name = None).
    { rewrite EN. apply not_elem_of_list_to_map_1. intros (a & -> & Ha)%list_elem_of_fmap.
      apply list_elem_of_lookup in Ha as [i Hi]. rewrite <- aget_nat in Hi.
      destruct (Z.lt_ge_cases (Z.of_nat i) p) as [Hlt|Hge].
      - specialize (Hlo _ _ Hlt Hi). rewrite strcmp_refl in Hlo. lia.
      - specialize (Hhi _ _ Hge Hi). rewrite strcmp_refl in Hhi. lia. }
    rewrite EL. cbn [mbind option_bind]. destruct (handle =? 0); [by exists H|].
    destruct (names_insert H N kvs p name handle HN Hl Hs EN He Hp Hlo Hhi) as (H' & -> & HN').
    cbn [mbind option_bind]. by exists H'.
Qed.

Lemma names_init harbor : names_repr (handle_init harbor) ∅.
Proof. split; [|done|done|done]. exists []. split_and!; try done; [constructor|intros; cbn in *; lia]. Qed.

Lemma run_names_spec ops H N :
  names_repr H N -> exists H', run_names ops H = Some ((spec_names ops N).1, H') /\
    names_repr H' (spec_names ops N).2.
Proof.
  revert H N. induction ops as [|[name handle] ops IH]; intros H N HN; cbn [run_names spec_names].
  - by exists H.
  - destruct (handle_name_spec name handle H N HN) as (H1 & -> & HN1). cbn [mbind option_bind].
    destruct (spec_name name handle N) as [r N1]. cbn [fst snd] in *.
    destruct (IH H1 N1 HN1) as (H2 & -> & HN2). cbn [mbind option_bind].
    destruct (spec_names ops N1) as [rs N2]. cbn [fst snd] in *. by exists H2.
Qed.

(** ** Release and exit *)

Lemma low_id h : 0 <= h < 2 ^ 24 -> low h = h.
Proof.
  intros Hh. unfold low. change 0xffffff with (2 ^ 24 - 1). rewrite land_pow2_pred by lia.
  by apply Z.mod_small.
Qed.

(** The registry after dropping a reference of a live handle. *)
Definition dropped (rc : Z * Z) : option (Z * Z) :=
  if rc.1 - 1 >? 0 then Some (rc.1 - 1, rc.2) else None.

Lemma release_spec H M h r c :
  repr H M -> M !! low h = Some (r, c) -> c <> 0 ->
  exists H', handle_release h H = Some (if r - 1 >? 0 then c else 0, if r - 1 >? 0 then 0 else c, H') /\
    repr H' (partial_alter (fun _ => dropped (r, c)) (low h) M).
Proof.
  intros HR EM Hc. unfold handle_release. fold (low h).
  assert (Hr : 0 < low h < 2 ^ 24) by (eapply repr_range; [done|by eexists]).
  pose proof (release_ref_spec H M (low h) HR ltac:(lia)) as H1. rewrite EM in H1.
  destruct H1 as (H1 & -> & HR1 & _). cbn [mbind option_bind]. unfold dropped; cbn [fst snd].
  destruct (Z.gtb_spec (r - 1) 0) as [Hgt|Hle].
  - rewrite (proj2 (Z.eqb_neq c 0)) by done. by exists H1.
  - cbn [Z.eqb]. pose proof (remove_spec H1 _ (low h) HR1 ltac:(lia)) as H2.
    rewrite lookup_insert_eq in H2. destruct (Z.gtb_spec (r - 1) 0); [lia|].
    destruct H2 as (H2 & -> & HR2 & _). cbn [mbind option_bind]. exists H2. split; [done|].
    by rewrite delete_insert_eq in HR2.
Qed.

Lemma release_all_spec hs H M :
  repr H M -> NoDup hs -> (forall h, h ∈ hs -> exists r c, M !! h = Some (r, c) /\ c <> 0) ->
  exists fs H' M', release_all hs H = Some (fs, H') /\ repr H' M' /\
    (forall h, M' !! h = if decide (h ∈ hs) then M !! h ≫= dropped else M !! h) /\
    (forall c, c <> 0 -> c ∈ fs <-> exists h r, h ∈ hs /\ M !! h = Some (r, c) /\ r <= 1).
Proof.
  revert H M. induction hs as [|h hs IH]; intros H M HR Hnd Hlive; cbn [release_all].
  { exists [], H, M. split_and!; [done|done|done|]. intros c Hc. split; set_solver. }
  apply NoDup_cons in Hnd as [Hh Hnd].
  destruct (Hlive h) as (r & c & EM & Hc); [by left|].
  assert (El : low h = h) by (apply low_id; pose proof (repr_range H M h HR ltac:(by eexists)); lia).
  destruct (release_spec H M h r c HR) as (H1 & -> & HR1); [by rewrite El|done|].
  rewrite El in HR1. cbn [mbind option_bind].
  destruct (IH H1 _ HR1 Hnd) as (fs & H2 & M2 & -> & HR2 & HM2 & Hfs).
  { intros h' Hh'. rewrite lookup_partial_alter_ne by congruence. apply Hlive. by right. }
  cbn [mbind option_bind]. eexists _, H2, M2. split; [done|]. split; [done|]. split.
  - intros h'. rewrite HM2. destruct (Z.eq_dec h' h) as [->|Hne].
    + rewrite lookup_partial_alter_eq, EM, decide_False, decide_True; [done|by left|done].
    + rewrite !lookup_partial_alter_ne by done.
      destruct (decide (h' ∈ hs)) as [Hi|Hi].
      * rewrite decide_True; [done|by right].
      * rewrite decide_False; [done|]. by rewrite not_elem_of_cons.
  - intros c' Hc'. rewrite elem_of_cons, Hfs by done. split.
    + intros [->|(h' & r' & Hin & Hl & Hr')].
      * destruct (Z.gtb_spec (r - 1) 0); [done|]. exists h, r. split; [by left|]. split; [done|lia].
      * rewrite lookup_partial_alter_ne in Hl by congruence. exists h', r'. split; [by right|done].
    + intros (h' & r' & Hin & Hl & Hr'). apply elem_of_cons in Hin as [->|Hin].
      * left. rewrite EM in Hl. simplify_eq. destruct (Z.gtb_spec (r' - 1) 0); [lia|done].
      * right. exists h', r'. by rewrite lookup_partial_alter_ne by congruence.
Qed.

Lemma live_handles H M :
  repr H M -> NoDup (filter (fun h => h <> 0) (s_handle <$> H_slot H)) /\
  forall h, h ∈ filter (fun h => h <> 0) (s_handle <$> H_slot H) <-> is_Some (M !! h).
Proof.
  intros HR. pose proof (rp_slots _ _ HR) as Hw.
  assert (Hpos : forall (i : nat) s, H_slot H !! i = Some s -> s_handle s <> 0 ->
    Z.of_nat i = s_handle s mod H_cap H /\ 0 < s_handle s).
  { intros i s Hi Hne. rewrite <- aget_nat in Hi.
    destruct (sw_pos _ _ Hw _ _ Hi Hne) as [? [? _]]. done. }
  split.
  - apply filter_nodup. intros i j h Hi Hj Hne.
    apply list_lookup_fmap_Some in Hi as (s1 & -> & Hi), Hj as (s2 & E & Hj).
    destruct (Hpos i s1 Hi Hne) as [P1 _], (Hpos j s2 Hj) as [P2 _]; [congruence|].
    rewrite <- E in P2. lia.
  - intros h. rewrite list_elem_of_filter, list_elem_of_fmap. split.
    + intros (Hne & s & -> & Hin). apply list_elem_of_lookup in Hin as [i Hi].
      destruct (Hpos i s Hi Hne) as [Ep _]. rewrite (rp_find _ _ HR), (proj2 (Z.eqb_neq _ 0)) by done.
      rewrite <- aget_nat, Ep in Hi. rewrite (find_Some _ _ _ s) by done. by eexists.
    + intros Hh. pose proof (repr_range _ _ _ HR Hh). split; [lia|].
      destruct (repr_slot H M h HR ltac:(lia)) as (s & Hs & EM). rewrite EM in Hh.
      destruct (Z.eqb_spec (s_handle s) h); [|by destruct Hh]. exists s. split; [done|].
      unfold aget in Hs. case_match; [|done]. by eapply list_elem_of_lookup_2.
Qed.

(** ** Properties *)

(** C6: In every interleaving of threads that register, grab and release
    handles, in which every registration is made while the expansion loses no
    service and handles are below 2^24, and in which nobody grabs a handle
    with low bits 0 ([act_ok]): each held reference still resolves to a
    service that was not freed, no service was freed twice, and when no
    reference is held and no release is in progress every service ever
    registered has been freed.  A registration without memory is refused and
    changes nothing. *)
Theorem handle_no_dangling harbor (sy : hsys) :
  rtc hstep_ok (hsys_init harbor) sy ->
  (forall h, h ∈ hs_held sy -> exists ctx H', handle_grab h (hs_reg sy) = Some (ctx, H') /\
     ctx <> 0 /\ (ctx ∈ hs_made sy) /\ (ctx ∉ hs_freed sy)) /\
  NoDup (hs_freed sy) /\
  (hs_held sy = [] -> hs_removing sy = [] -> forall ctx, ctx ∈ hs_made sy -> ctx ∈ hs_freed sy).
Proof.
  intros [M HW]%hreachable_wf. pose proof (hw_repr _ _ HW) as HR. split; [|split].
  - intros h Hh. destruct (hw_held _ _ HW h Hh) as [[r c] EM].
    assert (El : low h = h).
    { apply low_id. pose proof (repr_range _ M h HR ltac:(by eexists)). lia. }
    pose proof (repr_range _ M h HR ltac:(by eexists)) as Hr.
    pose proof (grab_spec (hs_reg sy) M h HR ltac:(lia)) as Hg. rewrite El, EM in Hg.
    destruct Hg as (H' & Hg & _). exists c, H'. split; [done|].
    destruct (hw_live _ _ HW h r c EM) as (? & ? & ?). done.
  - by eapply hw_freed.
  - intros E1 E2 c Hc. destruct (hw_made _ _ HW c Hc) as [|(h & r & EM)]; [done|]. exfalso.
    pose proof (hw_ref _ _ HW _ _ _ EM) as Er. rewrite E1 in Er. cbn in Er. subst r.
    apply (hw_zero _ _ HW) in EM. rewrite E2 in EM. by apply elem_of_nil in EM.
Qed.

(** C8: While [last_id] stays below 2^24 and an expansion, if one is due,
    loses no service ([expand_safe]: no live handle is a multiple of the new
    capacity), a registration returns a handle no live service has, with this
    node's harbor in the top byte; it resolves to the new service with one
    reference, and every other service keeps its handle and its count. *)
Theorem handle_regist_fresh ctx H M :
  repr H M -> expand_safe H = true -> H_last_id H + 4 * H_cap H < 2 ^ 24 ->
  exists handle H', handle_regist true ctx H = Some (handle, H') /\
    M !! low handle = None /\ low handle <> 0 /\
    Z.shiftr handle 24 = Z.shiftr (H_harbor H) 24 /\
    repr H' (<[low handle := (1, ctx)]> M).
Proof.
  intros HR Hs Hid. destruct (regist_spec ctx H M HR Hs Hid) as (h & H' & Hx & Hh & HM & HR' & _).
  destruct (rp_harbor _ _ HR) as (c & Hc & Eh). pose proof (rp_last _ _ HR).
  exists (Z.lor h (H_harbor H)), H'. rewrite Eh in *. rewrite low_harbor by lia.
  split; [done|]. split; [done|]. split; [lia|]. split; [|done].
  rewrite Z.shiftr_lor, !Z.shiftr_div_pow2 by lia. rewrite (Z.div_small h) by lia. done.
Qed.

(** C7: Any sequence of [handle_name] calls on a fresh registry behaves as a
    finite map that never rebinds a name: the binary search terminates inside
    the table, a query returns the binding or 0, an insertion of a bound name
    is refused with 0, and the table grows as needed. *)
Theorem handle_name_refines harbor ops :
  exists H', run_names ops (handle_init harbor) = Some ((spec_names ops ∅).1, H') /\
    names_repr H' (spec_names ops ∅).2.
Proof. apply run_names_spec, names_init. Qed.

(** C9: [handle_exit] drops one reference of every live service: the services
    given to [pixel_free] are exactly those with a single reference, the
    others stay registered with one reference less. *)
Theorem handle_exit_spec H M :
  repr H M -> (forall h r c, M !! h = Some (r, c) -> c <> 0) ->
  exists fs H' M', handle_exit H = Some (fs, H') /\ repr H' M' /\
    (forall h, M' !! h = M !! h ≫= dropped) /\
    (forall c, c <> 0 -> c ∈ fs <-> exists h r, M !! h = Some (r, c) /\ r <= 1).
Proof.
  intros HR Hc. destruct (live_handles H M HR) as [Hnd Hin].
  destruct (release_all_spec _ H M HR Hnd) as (fs & H' & M' & He & HR' & HM' & Hfs).
  { intros h [[r c] E]%Hin. exists r, c. split; [done|]. by eapply Hc. }
  exists fs, H', M'. split; [done|]. split; [done|]. split.
  - intros h. rewrite HM'. case_decide as Hd; [done|]. rewrite Hin in Hd.
    by apply eq_None_not_Some in Hd as ->.
  - intros c Hc0. rewrite Hfs by done. split.
    + intros (h & r & _ & ?). by exists h, r.
    + intros (h & r & EM & Hr). exists h, r. split; [apply Hin; by eexists|done].
Qed.

(** [handle_expand] loses a service: a live handle that is a multiple of
    the new capacity is overwritten by the copy of an empty slot, whose zero
    handle maps to the same place, and can no longer be grabbed. *)
Lemma handle_expand_loses H M h :
  repr H M -> is_Some (M !! h) -> h mod (2 * H_cap H) = 0 ->
  exists H', handle_expand true H = Some (0, H') /\ handle_grab h H' = Some (0, H').
Proof.
  intros HR Hh E. pose proof (repr_range _ _ _ HR Hh) as Hr.
  pose proof (rp_slots _ _ HR) as Hw.
  destruct (expand_ok H M HR) as (new & Hn & Hx).
  destruct (vacant_slot H M HR) as (i & s & Hs & Hs0).
  pose proof (aget_Some _ _ _ Hs) as Hi. rewrite (sw_len _ _ Hw) in Hi.
  destruct (ex_lost _ _ _ _ Hx) as (s' & Hs' & Hs0'); [by exists i, s; split; [lia|]|].
  unfold handle_expand. cbn [negb]. rewrite Hn. cbn [mbind option_bind].
  eexists. split; [done|]. unfold handle_grab. fold (low h). rewrite low_id by lia.
  rewrite <- (sw_len _ _ Hw) in Hx at 2.
  pose proof (expanded_wf _ _ Hw _ Hx) as Hw'. rewrite (Z.mul_comm _ 2).
  cbn [set_slots H_cap H_slot]. rewrite (slots_land _ _ _ Hw'), E, Hs'. cbn [mbind option_bind].
  rewrite Hs0', (proj2 (Z.eqb_neq 0 h)) by lia. done.
Qed.

(** ** Concrete runs *)

(** The registry an array of slots stands for, and a test that it is one. *)
Definition live_slots H : list hslot := filter (fun s => s_handle s <> 0) (H_slot H).
Definition registry_of H : registry :=
  list_to_map ((fun s => (s_handle s, (s_ref s, s_ctx s))) <$> live_slots H).

Definition slot_check H (i : nat) s : bool :=
  (s_handle s =? 0) ||
  (Z.of_nat i =? s_handle s mod H_cap H) && (0 <? s_handle s) && (s_handle s <? 2 ^ 24) &&
  (s_handle s <=? H_last_id H).

Definition repr_check H : bool :=
  (4 <=? Z.log2 (H_cap H)) && (H_cap H =? 2 ^ Z.log2 (H_cap H)) && (zlen (H_slot H) =? H_cap H) &&
  forallb id (imap (slot_check H) (H_slot H)) && (H_n H =? zlen (live_slots H)) &&
  (H_n H <? H_cap H) && (0 <=? H_last_id H) && (H_last_id H <? 2 ^ 24) &&
  (H_harbor H mod 2 ^ 24 =? 0) && (0 <=? H_harbor H) && (H_harbor H <? 2 ^ 32).

Lemma repr_checked H : repr_check H = true -> repr H (registry_of H).
Proof.
  unfold repr_check. rewrite !andb_true_iff.
  intros [[[[[[[[[[C1 C2] C3] C4] C5] C6] C7] C8] C9] C10] C11].
  assert (Hpos : forall (i : nat) s, H_slot H !! i = Some s -> s_handle s <> 0 ->
    Z.of_nat i = s_handle s mod H_cap H /\ 0 < s_handle s < 2 ^ 24 /\ s_handle s <= H_last_id H).
  { intros i s Hi Hne. rewrite forallb_forall in C4.
    specialize (C4 (slot_check H i s)). unfold id, slot_check in C4.
    lapply C4; [lia|]. apply list_elem_of_In. apply list_elem_of_lookup. exists i.
    by rewrite list_lookup_imap, Hi. }
  assert (Hw : slots_wf (H_cap H) (H_slot H)).
  { split; [exists (Z.log2 (H_cap H)); lia|lia|]. intros i s Hs Hne.
    unfold aget in Hs. destruct (Z.leb_spec 0 i); [|done].
    destruct (Hpos _ s Hs Hne) as (E & ? & ?). lia. }
  assert (Hnd : NoDup (s_handle <$> live_slots H)).
  { apply NoDup_fmap_2_strong; [|apply filter_nodup].
    - intros x y Hx Hy E. apply list_elem_of_filter in Hx as [Nx Hx], Hy as [Ny Hy].
      apply list_elem_of_lookup in Hx as [i Hi], Hy as [j Hj].
      destruct (Hpos i x Hi Nx) as (Ei & _), (Hpos j y Hj Ny) as (Ej & _).
      assert (i = j) as -> by (rewrite E in Ei; lia). congruence.
    - intros i j x Hi Hj Nx.
      destruct (Hpos i x Hi Nx) as (Ei & _), (Hpos j x Hj Nx) as (Ej & _). lia. }
  assert (Hkeys : ((fun s => (s_handle s, (s_ref s, s_ctx s))) <$> live_slots H).*1 =
    s_handle <$> live_slots H) by (by rewrite <- list_fmap_compose).
  assert (Hlook : forall h, registry_of H !! h = if h =? 0 then None else find (H_cap H) (H_slot H) h).
  { intros h. apply option_eq. intros x. unfold registry_of.
    etransitivity; [symmetry; apply elem_of_list_to_map; by rewrite Hkeys|].
    rewrite list_elem_of_fmap. split.
    - intros (s & [= -> ->] & [Ns Hs]%list_elem_of_filter). rewrite (proj2 (Z.eqb_neq _ 0)) by done.
      apply list_elem_of_lookup in Hs as [i Hi]. destruct (Hpos i s Hi Ns) as (Ei & _).
      apply find_Some; [|done]. by rewrite <- Ei, aget_nat.
    - destruct (Z.eqb_spec h 0) as [|Nh]; [done|]. unfold find.
      destruct (aget _ _) as [s|] eqn:Es; cbn; [|done].
      destruct (Z.eqb_spec (s_handle s) h) as [Eh|]; [|done]. intros [= <-].
      exists s. split; [by rewrite Eh|]. apply list_elem_of_filter. split; [congruence|].
      unfold aget in Es. case_match; [|done]. by eapply list_elem_of_lookup_2. }
  split; [done|done| |lia|lia| |].
  - unfold registry_of. rewrite map_size_list_to_map by (by rewrite Hkeys). clen. lia.
  - intros h [x Hx]. rewrite Hlook in Hx. destruct (Z.eqb_spec h 0); [done|]. unfold find in Hx.
    destruct (aget _ _) as [s|] eqn:Es; cbn in Hx; [|done].
    destruct (Z.eqb_spec (s_handle s) h) as [Eh|]; [|done].
    unfold aget in Es. case_match; [|done]. destruct (Hpos _ s Es) as (_ & _ & ?); lia.
  - exists (H_harbor H / 2 ^ 24). split; Z.to_euclidean_division_equations; lia.
Qed.

Definition after_regist (ctx : Z) H : hglobal :=
  default H (snd <$> handle_regist true ctx H).

(** Two services. *)
Definition demo_reg : hglobal := after_regist 222 (after_regist 111 (handle_init 5)).

Lemma handle_regist_fresh_witness :
  exists handle H' M', handle_regist true 333 demo_reg = Some (handle, H') /\
    Z.shiftr handle 24 = 5 /\ repr H' M' /\ M' !! low handle = Some (1, 333).
Proof.
  destruct (handle_regist_fresh 333 demo_reg (registry_of demo_reg)) as (h & H' & E & _ & _ & Eh & HR);
    [apply repr_checked; reflexivity|reflexivity|reflexivity|].
  exists h, H', (<[low h := (1, 333)]> (registry_of demo_reg)). split; [exact E|].
  split; [rewrite Eh; reflexivity|]. split; [exact HR|apply lookup_insert_eq].
Defined.

Lemma handle_exit_spec_witness :
  fst <$> handle_exit demo_reg = Some [111; 222] /\
  exists fs H' M', handle_exit demo_reg = Some (fs, H') /\ repr H' M' /\ M' !! 1 = None.
Proof.
  split; [vm_compute; reflexivity|].
  destruct (handle_exit_spec demo_reg (registry_of demo_reg)) as (fs & H' & M' & E & HR & HM & _).
  - apply repr_checked. reflexivity.
  - intros h r c EM.
    assert (Hall : map_Forall (fun _ rc => rc.2 <> 0) (registry_of demo_reg))
      by (apply map_Forall_to_list; vm_compute; repeat constructor; discriminate).
    exact (Hall h (r, c) EM).
  - exists fs, H', M'. split; [exact E|]. split; [exact HR|]. rewrite HM. reflexivity.
Defined.

(** 31 short-lived services, then 12 that stay: the registry of 16 slots is
    three quarters full with handle 32 alive, and grows at the next one. *)
Fixpoint churn (n : nat) H : hglobal :=
  match n with
  | O => H
  | S n => churn n (default H ('(h, H) ← handle_regist true 7 H; '(_, H) ← handle_release h H; Some H))
  end.

Fixpoint regists (n : nat) H : hglobal :=
  match n with O => H | S n => regists n (after_regist (Z.of_nat n + 100) H) end.

Definition demo_full : hglobal := regists 12 (churn 31 (handle_init 0)).

Lemma handle_expand_loses_witness :
  fst <$> handle_grab 32 demo_full = Some 111 /\
  exists H', handle_expand true demo_full = Some (0, H') /\ handle_grab 32 H' = Some (0, H').
Proof.
  split; [vm_compute; reflexivity|].
  apply (handle_expand_loses demo_full (registry_of demo_full) 32).
  - apply repr_checked. vm_compute. reflexivity.
  - vm_compute. eexists. reflexivity.
  - vm_compute. reflexivity.
Defined.

(** A service registered, grabbed by another thread, released by its owner
    and then by the other thread, which frees it. *)
Definition demo_threads : hsys :=
  HSys (default (handle_init 0) (snd <$> handle_release 1 (after_regist 55 (handle_init 0))))
    [] [] [55] [55].

Lemma hstep_act a (s s' : hsys) : act_ok a s = true -> hstep a s s' -> hstep_ok s s'.
Proof. by exists a. Qed.

Lemma demo_threads_reachable : rtc hstep_ok (hsys_init 0) demo_threads.
Proof.
  eapply rtc_l; [eapply hstep_act; [|eapply (step_regist true _ _ [] [] [] [] 55); [done|apply not_elem_of_nil|vm_compute; reflexivity]]; reflexivity|].
  eapply rtc_l; [eapply hstep_act; [|eapply (step_grab _ _ [1] _ _ _ 1); vm_compute; reflexivity]; reflexivity|].
  eapply rtc_l; [eapply hstep_act; [|eapply (step_release _ _ _ [1] _ _ _ 1); [reflexivity|vm_compute; reflexivity]]; reflexivity|].
  eapply rtc_l; [eapply hstep_act; [|eapply (step_release _ _ _ [] _ _ _ 1); [reflexivity|vm_compute; reflexivity]]; reflexivity|].
  eapply rtc_l; [eapply hstep_act; [|eapply (step_remove _ _ _ _ [] _ _ 1); [reflexivity|vm_compute; reflexivity]]; reflexivity|].
  apply reflexive_eq. vm_compute. reflexivity.
Qed.

Lemma handle_no_dangling_witness :
  NoDup (hs_freed demo_threads) /\
  (hs_held demo_threads = [] -> hs_removing demo_threads = [] ->
   forall ctx, ctx ∈ hs_made demo_threads -> ctx ∈ hs_freed demo_threads).
Proof. exact (proj2 (handle_no_dangling 0 demo_threads demo_threads_reachable)). Defined.

(** The empty slot 0 matches handle 0 and a stale service is returned. *)
Example handle_grab_stale :
  let H := churn 16 (handle_init 0) in
  registry_of H = ∅ /\ fst <$> handle_grab 0 H = Some 7.
Proof. vm_compute. done. Qed.

(** Past 2^24 - 1 the identifier spills into the harbor byte and the new
    service cannot be grabbed. *)
Example handle_regist_spills :
  let H := set_last_id 0xffffff (handle_init 1) in
  (r ← handle_regist true 7 H; '(ctx, _) ← handle_grab (fst r) (snd r); Some (fst r, ctx))
  = Some (0x1000000, 0).
Proof. vm_compute. done. Qed.
