(* ===== verification/Netpack.v ===== *)
(** * Packets in byte streams (src/lualib/lnetpack.c)

    A packet is two bytes of length, big-endian, and its content.  The filter
    is given the chunks each socket receives; it keeps the incomplete packet
    of a socket in a hash table and queues complete packets in a ring that
    grows.  Buffers are lists of bytes; [memcpy] checks their bounds, so
    [None] is an access outside a buffer or an array.  What a function leaves
    on the Lua stack is its result. *)

From S2P Require Import Prelude.

Definition QUEUESIZE : Z := 1024.
Definition HASHSIZE : Z := 4096.

(** The message types of socket.h. *)
Definition SOCKET_CLOSE : Z := 1.
Definition SOCKET_OPEN : Z := 2.
Definition SOCKET_DATA : Z := 3.
Definition SOCKET_ACCEPT : Z := 4.
Definition SOCKET_ERR : Z := 5.
Definition SOCKET_WARNING : Z := 7.

Record netpack := NetPack { np_id : Z; np_size : Z; np_buffer : list Z }.
Definition netpack0 : netpack := NetPack 0 0 [].

(** [struct uncomplete]; a linked list of them is a list. *)
Record uncomplete := Uncomplete { uc_pack : netpack; uc_read : Z; uc_header : Z }.

(** [struct queue]. *)
Record nqueue := NQueue {
  nq_cap : Z;
  nq_head : Z;
  nq_tail : Z;
  nq_hash : list (list uncomplete);
  nq_queue : list netpack
}.

(** [struct socket_message] without the owner; the data may be a null pointer. *)
Record socket_message := SocketMessage {
  sm_type : Z; sm_id : Z; sm_data : option (list Z); sm_size : Z
}.

(** What [lfilter] returns after the queue. *)
Inductive filtered :=
  | FNone | FData (fd : Z) (buffer : list Z) (size : Z) | FMore
  | FClose (fd : Z) | FOpen (fd : Z) (msg : list Z) | FError (fd : Z) (msg : list Z)
  | FWarning (fd size : Z).

Implicit Types (q : nqueue) (oq : option nqueue) (uc : uncomplete) (buffer : list Z).

Definition hash_fd (fd : Z) : Z :=
  let a := Z.shiftr fd 24 in let b := Z.shiftr fd 12 in let c := fd in
  u32 (a + b + c) mod HASHSIZE.

Definition set_hash (h : Z) (l : list uncomplete) q : option nqueue :=
  hash ← aset (nq_hash q) h l;
  Some (NQueue (nq_cap q) (nq_head q) (nq_tail q) hash (nq_queue q)).

(** Unlink the first record of [fd]. *)
Fixpoint unlink (fd : Z) (l : list uncomplete) : option (uncomplete * list uncomplete) :=
  match l with
  | [] => None
  | uc :: l =>
      if np_id (uc_pack uc) =? fd then Some (uc, l)
      else '(found, l) ← unlink fd l; Some (found, uc :: l)
  end.

Definition find_uncomplete (fd : Z) oq : option (option uncomplete * option nqueue) :=
  match oq with
  | None => Some (None, None)
  | Some q =>
      l ← aget (nq_hash q) (hash_fd fd);
      match unlink fd l with
      | None => Some (None, Some q)
      | Some (uc, l) => q ← set_hash (hash_fd fd) l q; Some (Some uc, Some q)
      end
  end.

(** The entries of a new queue are not initialised: nothing reads them. *)
Definition new_queue : nqueue :=
  NQueue QUEUESIZE 0 0 (replicate (Z.to_nat HASHSIZE) []) (replicate (Z.to_nat QUEUESIZE) netpack0).

Definition get_queue oq : nqueue := default new_queue oq.

Definition expand_queue q : option nqueue :=
  moved ← mapM (fun i => aget (nq_queue q) ((nq_head q + i) mod nq_cap q)) (seqZ 0 (nq_cap q));
  Some (NQueue (nq_cap q + QUEUESIZE) 0 (nq_cap q) (nq_hash q)
               (moved ++ replicate (Z.to_nat QUEUESIZE) netpack0)).

Definition push_data (fd : Z) buffer (size : Z) (clone : bool) oq : option nqueue :=
  buffer ← (if clone then memcpy (replicate (Z.to_nat size) 0) 0 buffer 0 size else Some buffer);
  let q := get_queue oq in
  queue ← aset (nq_queue q) (nq_tail q) (NetPack fd size buffer);
  let tail := nq_tail q + 1 in
  let tail := if tail >=? nq_cap q then tail - nq_cap q else tail in
  let q := NQueue (nq_cap q) (nq_head q) tail (nq_hash q) queue in
  if nq_head q =? nq_tail q then expand_queue q else Some q.

(** Link a record in front of its list ([save_uncomplete], then the fields). *)
Definition link_uncomplete (fd : Z) uc q : option nqueue :=
  l ← aget (nq_hash q) (hash_fd fd); set_hash (hash_fd fd) (uc :: l) q.

Definition save_uncomplete (fd : Z) uc oq : option nqueue := link_uncomplete fd uc (get_queue oq).

Definition read_size buffer : option Z :=
  b0 ← aget buffer 0; b1 ← aget buffer 1; Some (Z.lor (Z.shiftl b0 8) b1).

(** The record of an incomplete packet: the header and the beginning of the
    content are there. *)
Definition partial (fd pack_size : Z) buffer (size : Z) : option uncomplete :=
  b ← memcpy (replicate (Z.to_nat pack_size) 0) 0 buffer 0 size;
  Some (Uncomplete (NetPack fd pack_size b) size 0).

(** The record of half a header. *)
Definition half_header (fd : Z) buffer : option uncomplete :=
  b ← aget buffer 0; Some (Uncomplete (NetPack fd 0 []) (-1) b).

Fixpoint push_more (fuel : nat) (fd : Z) buffer (size : Z) oq : option (option nqueue) :=
  match fuel with
  | O => None
  | S fuel =>
      if size =? 1 then
        uc ← half_header fd buffer; q ← save_uncomplete fd uc oq; Some (Some q)
      else
        pack_size ← read_size buffer;
        let buffer := drop 2 buffer in
        let size := size - 2 in
        if size <? pack_size then
          uc ← partial fd pack_size buffer size; q ← save_uncomplete fd uc oq; Some (Some q)
        else
          q ← push_data fd buffer pack_size true oq;
          let buffer := drop (Z.to_nat pack_size) buffer in
          let size := size - pack_size in
          if size >? 0 then push_more fuel fd buffer size (Some q) else Some (Some q)
  end.

Definition close_uncomplete (fd : Z) oq : option (option nqueue) :=
  '(_, oq) ← find_uncomplete fd oq; Some oq.

(** The first lines of the branch that fills an incomplete packet: the rest of
    its header. *)
Definition complete_header uc buffer (size : Z) : option (uncomplete * list Z * Z) :=
  if uc_read uc <? 0 then
    if negb (uc_read uc =? -1) then None
    else
      b ← aget buffer 0;
      let pack_size := Z.lor b (Z.shiftl (uc_header uc) 8) in
      Some (Uncomplete (NetPack (np_id (uc_pack uc)) pack_size (replicate (Z.to_nat pack_size) 0))
              0 (uc_header uc), drop 1 buffer, size - 1)
  else Some (uc, buffer, size).

Definition fill_uncomplete (fd : Z) uc buffer (size : Z) q : option (filtered * option nqueue) :=
  '(uc, buffer, size) ← complete_header uc buffer size;
  let pack := uc_pack uc in
  let need := np_size pack - uc_read uc in
  if size <? need then
    b ← memcpy (np_buffer pack) (uc_read uc) buffer 0 size;
    q ← link_uncomplete fd (Uncomplete (NetPack (np_id pack) (np_size pack) b)
                              (uc_read uc + size) (uc_header uc)) q;
    Some (FNone, Some q)
  else
    b ← memcpy (np_buffer pack) (uc_read uc) buffer 0 need;
    let buffer := drop (Z.to_nat need) buffer in
    let size := size - need in
    if size =? 0 then Some (FData fd b (np_size pack), Some q)
    else
      q ← push_data fd b (np_size pack) false (Some q);
      oq ← push_more (S (Z.to_nat size)) fd buffer size (Some q);
      Some (FMore, oq).

(** A chunk of a socket with nothing pending. *)
Definition fresh_chunk (fd : Z) buffer (size : Z) oq : option (filtered * option nqueue) :=
  if size =? 1 then
    uc ← half_header fd buffer; q ← save_uncomplete fd uc oq; Some (FNone, Some q)
  else
    pack_size ← read_size buffer;
    let buffer := drop 2 buffer in
    let size := size - 2 in
    if size <? pack_size then
      uc ← partial fd pack_size buffer size; q ← save_uncomplete fd uc oq; Some (FNone, Some q)
    else if size =? pack_size then
      b ← memcpy (replicate (Z.to_nat pack_size) 0) 0 buffer 0 size;
      Some (FData fd b size, oq)
    else
      q ← push_data fd buffer pack_size true oq;
      let buffer := drop (Z.to_nat pack_size) buffer in
      let size := size - pack_size in
      oq ← push_more (S (Z.to_nat size)) fd buffer size (Some q);
      Some (FMore, oq).

Definition filter_data_ (fd : Z) buffer (size : Z) oq : option (filtered * option nqueue) :=
  '(found, oq) ← find_uncomplete fd oq;
  match found, oq with
  | Some uc, Some q => fill_uncomplete fd uc buffer size q
  | _, _ => fresh_chunk fd buffer size oq
  end.

(** [lfilter]; [size] is its third argument. *)
Definition pushstring (msg : option (list Z)) (size : Z) : option (list Z) :=
  match msg with
  | Some msg => if (0 <=? size) && (size <=? zlen msg) then Some (take (Z.to_nat size) msg) else None
  | None => Some []
  end.

Definition lfilter (m : socket_message) (size : Z) oq : option (filtered * option nqueue) :=
  let t := sm_type m in
  if t =? SOCKET_DATA then filter_data_ (sm_id m) (default [] (sm_data m)) (sm_size m) oq
  else if t =? SOCKET_OPEN then Some (FNone, oq)
  else if t =? SOCKET_CLOSE then oq ← close_uncomplete (sm_id m) oq; Some (FClose (sm_id m), oq)
  else if t =? SOCKET_ACCEPT then
    msg ← pushstring (sm_data m) size; Some (FOpen (sm_size m) msg, oq)
  else if t =? SOCKET_ERR then
    oq ← close_uncomplete (sm_id m) oq;
    msg ← pushstring (sm_data m) size; Some (FError (sm_id m) msg, oq)
  else if t =? SOCKET_WARNING then Some (FWarning (sm_id m) (sm_size m), oq)
  else Some (FNone, oq).

Definition lpop oq : option (option netpack * option nqueue) :=
  match oq with
  | None => Some (None, None)
  | Some q =>
      if nq_head q =? nq_tail q then Some (None, Some q)
      else
        np ← aget (nq_queue q) (nq_head q);
        let head := nq_head q + 1 in
        let head := if head >=? nq_cap q then 0 else head in
        Some (Some np, Some (NQueue (nq_cap q) head (nq_tail q) (nq_hash q) (nq_queue q)))
  end.

(** [lclear]: the packets freed from the queue. *)
Definition lclear oq : option (list netpack * option nqueue) :=
  match oq with
  | None => Some ([], None)
  | Some q =>
      let tail := if nq_head q >? nq_tail q then nq_tail q + nq_cap q else nq_tail q in
      freed ← mapM (fun i => aget (nq_queue q) (i mod nq_cap q))
                   (seqZ (nq_head q) (tail - nq_head q));
      Some (freed, Some (NQueue (nq_cap q) 0 0 (replicate (Z.to_nat HASHSIZE) []) (nq_queue q)))
  end.

Definition write_size (len : Z) : list Z :=
  [Z.land (Z.shiftr len 8) 0xff; Z.land len 0xff].

(** [lpack] and [lpack_string]; [None] is a Lua error. *)
Definition lpack (data : list Z) : option (list Z) :=
  let len := zlen data in
  if len >? 0x10000 then None else Some (write_size len ++ data).

Definition lpack_padding (cookie content : list Z) : option (list Z) :=
  let len := zlen cookie + zlen content in
  if len >? 0x10000 then None else Some (write_size len ++ content ++ cookie).

(** [ltostring] of a buffer of [size] bytes; [offset] is the third argument. *)
Definition ltostring (ptr : option (list Z)) (size : Z) (offset : option Z) : option (list Z) :=
  match ptr with
  | None => Some []
  | Some buffer =>
      match offset with
      | Some offset =>
          if offset <? 0 then None
          else
            let offset := if offset >? size then size else offset in
            Some (take (Z.to_nat (size - offset)) (drop (Z.to_nat offset) buffer))
      | None => Some (take (Z.to_nat size) buffer)
      end
  end.

(** ** Specification

    A stream is cut into packets from its start; the rest waits for more. *)

Fixpoint frames_fuel (fuel : nat) (s : list Z) : list (list Z) * list Z :=
  match fuel, s with
  | S fuel, b0 :: b1 :: t =>
      let n := Z.to_nat (b0 * 256 + b1) in
      if (length t <? n)%nat then ([], s)
      else let '(ps, rest) := frames_fuel fuel (drop n t) in (take n t :: ps, rest)
  | _, _ => ([], s)
  end.

Definition frames (s : list Z) : list (list Z) * list Z := frames_fuel (length s) s.

(** The bytes of the stream a record keeps. *)
Definition remainder uc : list Z :=
  if uc_read uc <? 0 then [uc_header uc]
  else [np_size (uc_pack uc) / 256; np_size (uc_pack uc) mod 256] ++
       take (Z.to_nat (uc_read uc)) (np_buffer (uc_pack uc)).

(** The bytes received on [fd] and not yet in a packet. *)
Definition pend (fd : Z) oq : list Z :=
  match oq with
  | None => []
  | Some q => match aget (nq_hash q) (hash_fd fd) ≫= unlink fd with
              | Some (uc, _) => remainder uc
              | None => []
              end
  end.

(** The result of a chunk that completes the packets [ps] and leaves [rest]. *)
Definition packed (fd : Z) (p : list Z) : netpack := NetPack fd (zlen p) p.

Definition outcome (fd : Z) (ps : list (list Z)) (rest : list Z) : filtered * list netpack :=
  match ps, rest with
  | [], _ => (FNone, [])
  | [p], [] => (FData fd p (zlen p), [])
  | _, _ => (FMore, packed fd <$> ps)
  end.

Definition uc_id uc : Z := np_id (uc_pack uc).

Record uc_ok uc : Prop := {
  uo_case : (uc_read uc = -1 /\ 0 <= uc_header uc < 256) \/
    (0 <= uc_read uc < np_size (uc_pack uc) /\ np_size (uc_pack uc) < 2 ^ 16 /\
     zlen (np_buffer (uc_pack uc)) = np_size (uc_pack uc))
}.

(** The table and the ring; [xs] are the packets queued. *)
Record queue_ok q (xs : list netpack) : Prop := {
  qo_hash : zlen (nq_hash q) = HASHSIZE;
  qo_bucket : forall h l, aget (nq_hash q) h = Some l ->
    NoDup (uc_id <$> l) /\
    Forall (fun uc => hash_fd (uc_id uc) = h /\ uc_ok uc) l;
  qo_ring : ring_ok (nq_cap q) (nq_head q) (nq_tail q) (nq_queue q) xs
}.

Definition net_ok oq (xs : list netpack) : Prop :=
  match oq with None => xs = [] | Some q => queue_ok q xs end.

(** A consumer that reads a chunk and then pops every queued packet, as the
    gate service does. *)
Fixpoint drain (fuel : nat) oq : option (list (Z * list Z) * option nqueue) :=
  match fuel with
  | O => None
  | S fuel =>
      '(np, oq) ← lpop oq;
      match np with
      | None => Some ([], oq)
      | Some np => '(l, oq) ← drain fuel oq; Some ((np_id np, np_buffer np) :: l, oq)
      end
  end.

Definition receive (fd : Z) (chunk : list Z) oq : option (list (Z * list Z) * option nqueue) :=
  '(r, oq) ← filter_data_ fd chunk (zlen chunk) oq;
  match r with
  | FData fd buffer _ => Some ([(fd, buffer)], oq)
  | FMore => drain (match oq with Some q => length (nq_queue q) | None => 1 end) oq
  | _ => Some ([], oq)
  end.

Fixpoint receive_all (chunks : list (Z * list Z)) oq : option (list (Z * list Z) * option nqueue) :=
  match chunks with
  | [] => Some ([], oq)
  | (fd, chunk) :: chunks =>
      '(l1, oq) ← receive fd chunk oq; '(l2, oq) ← receive_all chunks oq; Some (l1 ++ l2, oq)
  end.

(** The contents for [fd] in a sequence of pairs. *)
Definition of_fd (fd : Z) (l : list (Z * list Z)) : list (list Z) :=
  snd <$> filter (fun x => x.1 = fd) l.

(** ** Framing *)

Lemma frames_fuel_enough fuel s : (length s <= fuel)%nat -> frames_fuel fuel s = frames s.
Proof.
  unfold frames. enough (H : forall f1 f2 s, (length s <= f1)%nat -> (length s <= f2)%nat ->
    frames_fuel f1 s = frames_fuel f2 s) by (intros; by apply H).
  clear. intros f1. induction f1 as [|f1 IH]; intros f2 s H1 H2.
  - destruct s as [|b0 s]; cbn in H1; [|lia]. by destruct f2.
  - destruct s as [|b0 [|b1 t]]; [by destruct f2|by destruct f2|].
    destruct f2 as [|f2]; cbn in H2; [lia|]. cbn in H1. cbn [frames_fuel].
    destruct (Nat.ltb (length t) (Z.to_nat (b0 * 256 + b1))); [done|].
    rewrite (IH f2); [done|rewrite length_drop; lia..].
Qed.

Lemma frames_short s : (length s <= 1)%nat -> frames s = ([], s).
Proof. destruct s as [|b0 [|b1 t]]; cbn; [done|done|lia]. Qed.

Lemma frames_cons b0 b1 t :
  frames (b0 :: b1 :: t) =
  let n := Z.to_nat (b0 * 256 + b1) in
  if (length t <? n)%nat then ([], b0 :: b1 :: t)
  else (take n t :: (frames (drop n t)).1, (frames (drop n t)).2).
Proof.
  unfold frames at 1. cbn [length]. generalize (eq_refl (S (length t))).
  generalize (S (length t)) at 1 3 as f. intros f Ef. cbn [frames_fuel]. cbn zeta.
  destruct (Nat.ltb (length t) (Z.to_nat (b0 * 256 + b1))); [done|].
  rewrite frames_fuel_enough by (rewrite length_drop; lia). by destruct (frames _).
Qed.

(** Framing a stream piece by piece. *)
Lemma frames_app s1 s2 :
  frames (s1 ++ s2) =
  ((frames s1).1 ++ (frames ((frames s1).2 ++ s2)).1, (frames ((frames s1).2 ++ s2)).2).
Proof.
  remember (length s1) as n eqn:E. revert s1 E.
  induction n as [n IH] using lt_wf_ind. intros s1 ->.
  destruct s1 as [|b0 [|b1 t]].
  - change (frames []) with (@nil (list Z), @nil Z). cbn [fst snd app]. by destruct (frames s2).
  - rewrite (frames_short [b0]) by (cbn; lia). cbn [fst snd app]. by destruct (frames _).
  - rewrite (frames_cons b0 b1 t). cbn zeta.
    destruct (Nat.ltb_spec (length t) (Z.to_nat (b0 * 256 + b1))) as [Hlt|Hge]; cbn [fst snd app].
    + by destruct (frames _).
    + rewrite frames_cons. cbn zeta. rewrite (proj2 (Nat.ltb_ge _ _)) by (rewrite length_app; lia).
      rewrite take_app_le, drop_app_le by lia. rewrite (IH (length (drop (Z.to_nat (b0 * 256 + b1)) t)));
        [done|rewrite length_drop; cbn; lia|done].
Qed.

Lemma frames_rest s : frames (frames s).2 = ([], (frames s).2).
Proof.
  remember (length s) as n eqn:E. revert s E.
  induction n as [n IH] using lt_wf_ind. intros s ->.
  destruct s as [|b0 [|b1 t]]; [done|done|]. rewrite (frames_cons b0 b1 t). cbn zeta.
  destruct (Nat.ltb_spec (length t) (Z.to_nat (b0 * 256 + b1))) as [Hlt|Hge]; cbn [snd].
  - rewrite frames_cons. cbn zeta. by rewrite (proj2 (Nat.ltb_lt _ _)) by lia.
  - eapply IH; [|done]. rewrite length_drop. cbn. lia.
Qed.

Lemma lor_bytes b0 b1 : 0 <= b1 < 256 -> Z.lor (Z.shiftl b0 8) b1 = b0 * 256 + b1.
Proof.
  intros Hb. rewrite Z.shiftl_mul_pow2 by lia. change (2 ^ 8) with 256.
  assert (Hd : Z.land (b0 * 256) b1 = 0).
  { change 256 with (2 ^ 8). apply Z.bits_inj'. intros i Hi. rewrite Z.land_spec, Z.bits_0.
    destruct (Z.lt_ge_cases i 8).
    - rewrite Z.mul_pow2_bits_low by lia. done.
    - destruct (Z.eq_dec b1 0) as [->|]; [by rewrite Z.bits_0, andb_false_r|].
      rewrite (Z.bits_above_log2 b1), andb_false_r; [done|lia|].
      enough (Z.log2 b1 < 8) by lia. apply Z.log2_lt_pow2; [lia|]. change (2 ^ 8) with 256. lia. }
  pose proof (Z.add_lor_land (b0 * 256) b1). lia.
Qed.

(** ** Records *)

Lemma unlink_spec fd l :
  NoDup (uc_id <$> l) ->
  match unlink fd l with
  | None => fd ∉ uc_id <$> l
  | Some (uc, l') => np_id (uc_pack uc) = fd /\ l ≡ₚ uc :: l' /\
      (fd ∉ uc_id <$> l') /\
      forall fd', fd' <> fd -> fst <$> unlink fd' l' = fst <$> unlink fd' l
  end.
Proof.
  induction l as [|uc l IH]; intros Hnd; cbn [unlink]; [by apply not_elem_of_nil|].
  rewrite fmap_cons in *. fold (uc_id uc). apply NoDup_cons in Hnd as [Hn Hnd].
  destruct (Z.eqb_spec (uc_id uc) fd) as [E|E].
  - split; [done|]. split; [done|]. split; [by rewrite <- E|].
    intros fd' Hne. rewrite (proj2 (Z.eqb_neq _ _)) by congruence.
    by destruct (unlink fd' l) as [[? ?]|].
  - specialize (IH Hnd). destruct (unlink fd l) as [[uc' l']|]; cbn [mbind option_bind].
    + destruct IH as (Eu & Hp & Hni & Hoth). split; [done|]. split; [rewrite Hp; solve_Permutation|].
      split; [by apply not_elem_of_cons|]. intros fd' Hne. cbn [unlink]. fold (uc_id uc).
      destruct (uc_id uc =? fd'); [done|]. specialize (Hoth fd' Hne).
      destruct (unlink fd' l') as [[? ?]|], (unlink fd' l) as [[? ?]|]; cbn in *; congruence.
    + by apply not_elem_of_cons.
Qed.

Lemma unlink_none fd l : fd ∉ uc_id <$> l -> unlink fd l = None.
Proof.
  induction l as [|uc l IH]; [done|]. cbn [unlink]. rewrite fmap_cons. fold (uc_id uc).
  intros [Hne Hn]%not_elem_of_cons. rewrite (proj2 (Z.eqb_neq _ _)) by congruence.
  by rewrite IH.
Qed.

(** What a socket has pending depends on its first record only. *)
Lemma pend_unlink fd q l :
  aget (nq_hash q) (hash_fd fd) = Some l ->
  pend fd (Some q) = match fst <$> unlink fd l with Some uc => remainder uc | None => [] end.
Proof. intros Hl. cbn. rewrite Hl. cbn. by destruct (unlink fd l) as [[? ?]|]. Qed.

Lemma hash_range fd : 0 <= hash_fd fd < HASHSIZE.
Proof. apply Z.mod_pos_bound. done. Qed.

(** Replacing a bucket. *)
Lemma set_hash_ok q xs h l :
  queue_ok q xs -> 0 <= h < HASHSIZE ->
  NoDup (uc_id <$> l) -> Forall (fun uc => hash_fd (uc_id uc) = h /\ uc_ok uc) l ->
  exists q', set_hash h l q = Some q' /\ queue_ok q' xs /\
    aget (nq_hash q') h = Some l /\
    (forall h', h' <> h -> aget (nq_hash q') h' = aget (nq_hash q) h') /\
    nq_cap q' = nq_cap q.
Proof.
  intros [Hl Hb Hr] Hh Hnd Hf. unfold set_hash. rewrite aset_Some by lia. cbn [mbind option_bind].
  eexists. split; [done|]. split; [split; cbn [nq_hash nq_cap nq_head nq_tail nq_queue]|].
  - by rewrite length_insert.
  - intros h' l' Hl'. destruct (Z.eq_dec h' h) as [->|Hne].
    + rewrite aget_insert_eq in Hl' by lia. by simplify_eq.
    + rewrite aget_insert_ne in Hl' by lia. by apply Hb.
  - done.
  - cbn. split; [apply aget_insert_eq; lia|]. split; [|done]. intros h' Hne.
    apply aget_insert_ne; lia.
Qed.

Lemma pend_frame q q' fd :
  aget (nq_hash q') (hash_fd fd) = aget (nq_hash q) (hash_fd fd) ->
  pend fd (Some q') = pend fd (Some q).
Proof. intros E. cbn. by rewrite E. Qed.

Lemma find_uncomplete_spec fd oq xs :
  net_ok oq xs -> exists r oq', find_uncomplete fd oq = Some (r, oq') /\ net_ok oq' xs /\
    pend fd oq' = [] /\ (forall fd', fd' <> fd -> pend fd' oq' = pend fd' oq) /\
    match r with
    | None => oq' = oq /\ pend fd oq = []
    | Some uc => uc_ok uc /\ uc_id uc = fd /\ pend fd oq = remainder uc /\ is_Some oq'
    end.
Proof.
  destruct oq as [q|]; intros Hok; cbn [find_uncomplete].
  2: { exists None, None. done. }
  pose proof Hok as [Hl Hb Hr]. destruct (aget_is_Some (nq_hash q) (hash_fd fd)) as [l Hh].
  { rewrite Hl. apply hash_range. }
  rewrite Hh. cbn [mbind option_bind]. destruct (Hb _ _ Hh) as [Hnd Hf].
  pose proof (unlink_spec fd l Hnd) as Hu. destruct (unlink fd l) as [[uc l']|] eqn:Eu.
  - destruct Hu as (E & Hp & Hni & Hoth).
    assert (Hnd' : NoDup (uc_id <$> l')).
    { rewrite Hp, fmap_cons in Hnd. by apply NoDup_cons in Hnd as [_ ?]. }
    assert (Hf' := Hf). rewrite Hp in Hf'. apply Forall_cons in Hf' as [[_ Huc] Hf'].
    destruct (set_hash_ok q xs (hash_fd fd) l' Hok (hash_range fd) Hnd' Hf')
      as (q' & -> & Hok' & Hsame & Hother & _).
    cbn [mbind option_bind]. exists (Some uc), (Some q'). split; [done|]. split; [done|]. split_and!.
    + rewrite (pend_unlink _ _ _ Hsame), unlink_none by done. done.
    + intros fd' Hne. destruct (Z.eq_dec (hash_fd fd') (hash_fd fd)) as [Eh|Eh].
      * rewrite (pend_unlink fd' q' l'), (pend_unlink fd' q l) by (by rewrite Eh).
        by rewrite Hoth.
      * apply pend_frame, Hother, Eh.
    + done.
    + done.
    + rewrite (pend_unlink _ _ _ Hh), Eu. done.
    + by eexists.
  - exists None, (Some q). split; [done|]. split; [done|].
    assert (Hp : pend fd (Some q) = []) by (by rewrite (pend_unlink _ _ _ Hh), Eu). done.
Qed.

(** A socket with a record has bytes pending. *)
Lemma pend_nil_absent fd q xs l :
  queue_ok q xs -> aget (nq_hash q) (hash_fd fd) = Some l -> pend fd (Some q) = [] ->
  fd ∉ uc_id <$> l.
Proof.
  intros [Hl Hb Hr] Hh Hp. rewrite (pend_unlink _ _ _ Hh) in Hp. destruct (Hb _ _ Hh) as [Hnd _].
  pose proof (unlink_spec fd l Hnd) as Hu. destruct (unlink fd l) as [[uc l']|]; [|done].
  cbn in Hp. unfold remainder in Hp. by destruct (uc_read uc <? 0).
Qed.

Lemma link_uncomplete_spec fd uc q xs :
  queue_ok q xs -> pend fd (Some q) = [] -> uc_ok uc -> uc_id uc = fd ->
  exists q', link_uncomplete fd uc q = Some q' /\ queue_ok q' xs /\
    pend fd (Some q') = remainder uc /\
    forall fd', fd' <> fd -> pend fd' (Some q') = pend fd' (Some q).
Proof.
  intros Hok Hp Huc Eid. pose proof Hok as [Hl Hb Hr]. unfold link_uncomplete.
  destruct (aget_is_Some (nq_hash q) (hash_fd fd)) as [l Hh]; [rewrite Hl; apply hash_range|].
  rewrite Hh. cbn [mbind option_bind]. destruct (Hb _ _ Hh) as [Hnd Hf].
  assert (Hni : fd ∉ uc_id <$> l) by (by eapply pend_nil_absent).
  destruct (set_hash_ok q xs (hash_fd fd) (uc :: l) Hok (hash_range fd))
    as (q' & -> & Hok' & Hsame & Hother & _).
  { rewrite fmap_cons, Eid. by constructor. }
  { constructor; [by rewrite Eid|done]. }
  exists q'. split; [done|]. split; [done|]. split.
  - rewrite (pend_unlink _ _ _ Hsame). cbn [unlink]. fold (uc_id uc).
    by rewrite Eid, Z.eqb_refl.
  - intros fd' Hne. destruct (Z.eq_dec (hash_fd fd') (hash_fd fd)) as [Eh|Eh].
    + rewrite (pend_unlink fd' q' (uc :: l)), (pend_unlink fd' q l) by (by rewrite Eh).
      cbn [unlink]. fold (uc_id uc). rewrite Eid, (proj2 (Z.eqb_neq fd fd')) by congruence.
      by destruct (unlink fd' l) as [[? ?]|].
    + apply pend_frame, Hother, Eh.
Qed.

Lemma new_queue_ok : queue_ok new_queue [].
Proof.
  split.
  - done.
  - intros h l Hl. cbn [new_queue nq_hash] in Hl. apply aget_replicate_inv in Hl as ->.
    split; constructor.
  - split; [done| |done|done]. apply ring_view_nil. done.
Qed.

Lemma new_queue_pend fd : pend fd (Some new_queue) = [].
Proof.
  destruct (aget_is_Some (nq_hash new_queue) (hash_fd fd)) as [l Hl].
  { cbn [new_queue nq_hash]. rewrite length_replicate. apply hash_range. }
  rewrite (pend_unlink _ _ _ Hl). cbn [new_queue nq_hash] in Hl.
  by apply aget_replicate_inv in Hl as ->.
Qed.

(** [get_queue] makes an empty queue when there is none. *)
Lemma get_queue_ok oq xs :
  net_ok oq xs -> queue_ok (get_queue oq) xs /\ forall fd, pend fd (Some (get_queue oq)) = pend fd oq.
Proof.
  destruct oq as [q|]; cbn [net_ok get_queue default]; [done|]. intros ->.
  split; [apply new_queue_ok|apply new_queue_pend].
Qed.

Lemma save_uncomplete_spec fd uc oq xs :
  net_ok oq xs -> pend fd oq = [] -> uc_ok uc -> uc_id uc = fd ->
  exists q', save_uncomplete fd uc oq = Some q' /\ queue_ok q' xs /\
    pend fd (Some q') = remainder uc /\
    forall fd', fd' <> fd -> pend fd' (Some q') = pend fd' oq.
Proof.
  intros Hok Hp Huc Eid. destruct (get_queue_ok oq xs Hok) as [Hq Hpq].
  destruct (link_uncomplete_spec fd uc (get_queue oq) xs Hq) as (q' & Hs & Hok' & H1 & H2);
    [by rewrite Hpq|done|done|].
  exists q'. split; [done|]. split; [done|]. split; [done|]. intros fd' Hne. by rewrite H2, Hpq.
Qed.

(** Queuing a packet, with the expansion of the ring. *)
Lemma expand_queue_spec q xs :
  zlen (nq_hash q) = HASHSIZE ->
  (forall h l, aget (nq_hash q) h = Some l -> NoDup (uc_id <$> l) /\
     Forall (fun uc => hash_fd (uc_id uc) = h /\ uc_ok uc) l) ->
  nq_cap q = zlen (nq_queue q) -> ring_view (nq_queue q) (nq_head q) xs -> zlen xs = nq_cap q ->
  exists q', expand_queue q = Some q' /\ queue_ok q' xs /\ nq_hash q' = nq_hash q.
Proof.
  intros Hl Hb Hc Hv Hx. unfold expand_queue. rewrite Hc, ring_full_copy with (xs := xs) by (done || lia).
  cbn [mbind option_bind]. eexists. split; [done|]. split; [|done].
  split; cbn [nq_hash nq_cap nq_head nq_tail nq_queue]; [done|done|].
  destruct Hv as (Hh & _ & _). split.
  - clen. change QUEUESIZE with 1024. lia.
  - split; [clen; lia|]. split; [clen; lia|]. intros i Hi. clen.
    unfold ring_idx. rewrite (proj2 (Z.ltb_lt _ _)) by lia. rewrite Z.add_0_l.
    by rewrite aget_app_l by lia.
  - change QUEUESIZE with 1024. lia.
  - unfold ring_idx. change QUEUESIZE with 1024. zcase.
Qed.

Lemma push_data_spec fd buffer size clone oq xs :
  net_ok oq xs -> 0 <= size <= zlen buffer -> (clone = false -> size = zlen buffer) ->
  exists q', push_data fd buffer size clone oq = Some q' /\
    queue_ok q' (xs ++ [packed fd (take (Z.to_nat size) buffer)]) /\
    forall fd', pend fd' (Some q') = pend fd' oq.
Proof.
  intros Hok Hsz Hcl. destruct (get_queue_ok oq xs Hok) as [[Hl Hb Hr] Hp]. unfold push_data.
  assert (Eb : (if clone then memcpy (replicate (Z.to_nat size) 0) 0 buffer 0 size else Some buffer)
    = Some (take (Z.to_nat size) buffer)).
  { destruct clone; [apply memcpy_fill; clen; lia|]. rewrite take_ge; [done|]. specialize (Hcl eq_refl). lia. }
  rewrite Eb. cbn [mbind option_bind].
  assert (Enp : NetPack fd size (take (Z.to_nat size) buffer) = packed fd (take (Z.to_nat size) buffer)).
  { unfold packed. f_equal. rewrite length_take. lia. }
  rewrite Enp. set (np := packed fd _).
  destruct (ring_ok_write _ _ _ _ _ np Hr) as (-> & Hv & _ & Hok').
  cbn [mbind option_bind nq_head nq_tail nq_cap].
  rewrite (ring_ok_full _ _ _ _ _ Hr). pose proof (ro_room _ _ _ _ _ Hr).
  destruct (Z.eqb_spec (zlen xs + 1) (nq_cap (get_queue oq))) as [Ef|Ef].
  - edestruct (expand_queue_spec (NQueue (nq_cap (get_queue oq)) (nq_head (get_queue oq))
      (if nq_tail (get_queue oq) + 1 >=? nq_cap (get_queue oq)
       then nq_tail (get_queue oq) + 1 - nq_cap (get_queue oq) else nq_tail (get_queue oq) + 1)
      (nq_hash (get_queue oq)) (<[Z.to_nat (nq_tail (get_queue oq)):=np]> (nq_queue (get_queue oq)))) (xs ++ [np]))
      as (q' & Hx & Hq' & Eh); cbn [nq_hash nq_cap nq_head nq_tail nq_queue]; [done|done| |done| |].
    + rewrite length_insert. by apply ro_cap in Hr.
    + clen. lia.
    + exists q'. split; [exact Hx|]. split; [done|]. intros fd'. rewrite <- Hp. apply pend_frame.
      by rewrite Eh.
  - eexists. split; [done|]. split; [|intros fd'; rewrite <- Hp; by apply pend_frame].
    split; cbn [nq_hash nq_cap nq_head nq_tail nq_queue]; [done|done|]. apply Hok'. lia.
Qed.

(** ** Reading a chunk *)

Lemma read_size_spec b0 b1 t : 0 <= b1 < 256 -> read_size (b0 :: b1 :: t) = Some (b0 * 256 + b1).
Proof.
  intros Hb. unfold read_size. change (aget (b0 :: b1 :: t) 0) with (Some b0).
  change (aget (b0 :: b1 :: t) 1) with (Some b1). cbn [mbind option_bind]. by rewrite lor_bytes.
Qed.

Lemma half_header_spec fd b :
  0 <= b < 256 -> exists uc, half_header fd [b] = Some uc /\ uc_ok uc /\ uc_id uc = fd /\ remainder uc = [b].
Proof. intros Hb. eexists. split; [done|]. split; [|done]. split. left. done. Qed.

Lemma header_split b0 b1 :
  0 <= b0 < 256 -> 0 <= b1 < 256 ->
  (b0 * 256 + b1) / 256 = b0 /\ (b0 * 256 + b1) mod 256 = b1 /\ 0 <= b0 * 256 + b1 < 2 ^ 16.
Proof. intros. change (2 ^ 16) with 65536. Z.to_euclidean_division_equations. lia. Qed.

Lemma partial_spec fd b0 b1 t :
  0 <= b0 < 256 -> 0 <= b1 < 256 -> zlen t < b0 * 256 + b1 ->
  exists uc, partial fd (b0 * 256 + b1) t (zlen t) = Some uc /\ uc_ok uc /\ uc_id uc = fd /\
    remainder uc = b0 :: b1 :: t.
Proof.
  intros H0 H1 Ht. destruct (header_split b0 b1 H0 H1) as (E0 & E1 & En). unfold partial.
  rewrite memcpy_Some by (clen; lia). cbn [mbind option_bind Z.to_nat take app drop].
  eexists. split; [done|]. split; [|split; [done|]].
  - split. right. cbn [uc_read uc_pack np_size np_buffer]. split; [lia|]. split; [lia|]. clen. lia.
  - unfold remainder. cbn [uc_read uc_pack np_size np_buffer].
    rewrite (proj2 (Z.ltb_ge (zlen t) 0)) by lia. rewrite E0, E1. cbn [app]. do 2 f_equal.
    change (Z.to_nat 0) with 0%nat. rewrite take_0, drop_0. cbn [app].
    rewrite Nat2Z.id, (take_ge t) by lia. apply take_app_length.
Qed.

(** A whole packet at the start of a chunk. *)
Lemma frames_packet b0 b1 t n :
  n = b0 * 256 + b1 -> 0 <= n <= zlen t ->
  frames (b0 :: b1 :: t) =
  (take (Z.to_nat n) t :: (frames (drop (Z.to_nat n) t)).1, (frames (drop (Z.to_nat n) t)).2).
Proof. intros -> Hn. rewrite frames_cons. cbn zeta. by rewrite (proj2 (Nat.ltb_ge _ _)) by lia. Qed.

Lemma frames_wait b0 b1 t :
  zlen t < b0 * 256 + b1 -> frames (b0 :: b1 :: t) = ([], b0 :: b1 :: t).
Proof. intros Hn. rewrite frames_cons. cbn zeta. by rewrite (proj2 (Nat.ltb_lt _ _)) by lia. Qed.

Lemma push_more_spec fuel fd buffer oq xs :
  net_ok oq xs -> pend fd oq = [] -> bytes buffer -> 0 < zlen buffer <= Z.of_nat fuel ->
  exists oq', push_more fuel fd buffer (zlen buffer) oq = Some oq' /\
    net_ok oq' (xs ++ (packed fd <$> (frames buffer).1)) /\
    pend fd oq' = (frames buffer).2 /\
    forall fd', fd' <> fd -> pend fd' oq' = pend fd' oq.
Proof.
  revert buffer oq xs. induction fuel as [|fuel IH]; intros buffer oq xs Hok Hp Hb Hf; [lia|].
  cbn [push_more]. destruct buffer as [|b0 [|b1 t]]; cbn [length] in Hf; [lia| |].
  - apply bytes_cons in Hb as [Hb _]. cbn [length Z.of_nat Z.eqb Pos.eqb].
    destruct (half_header_spec fd b0 Hb) as (uc & -> & Huc & Eid & Er). cbn [mbind option_bind].
    destruct (save_uncomplete_spec fd uc oq xs Hok Hp Huc Eid) as (q' & -> & Hq & Hpq & Hoth).
    cbn [mbind option_bind]. exists (Some q'). rewrite frames_short by (cbn; lia). cbn.
    rewrite app_nil_r, Er in *. done.
  - apply bytes_cons in Hb as [H0 Hb]. apply bytes_cons in Hb as [H1 Hb].
    destruct (header_split b0 b1 H0 H1) as (_ & _ & En).
    rewrite (proj2 (Z.eqb_neq _ 1)) by (cbn [length]; lia). rewrite read_size_spec by done.
    cbn [mbind option_bind]. change (drop 2 (b0 :: b1 :: t)) with t. cbn zeta.
    replace (zlen (b0 :: b1 :: t) - 2) with (zlen t) by (cbn [length]; lia).
    destruct (Z.ltb_spec (zlen t) (b0 * 256 + b1)) as [Hlt|Hge].
    + destruct (partial_spec fd b0 b1 t H0 H1 Hlt) as (uc & -> & Huc & Eid & Er).
      cbn [mbind option_bind].
      destruct (save_uncomplete_spec fd uc oq xs Hok Hp Huc Eid) as (q' & -> & Hq & Hpq & Hoth).
      cbn [mbind option_bind]. exists (Some q'). rewrite frames_wait by done. cbn [fst snd fmap list_fmap].
      rewrite app_nil_r, Hpq, Er. done.
    + set (n := b0 * 256 + b1) in *. rewrite (frames_packet b0 b1 t n) by (done || lia). cbn [fst snd].
      destruct (push_data_spec fd t n true oq xs Hok) as (q' & -> & Hq & Hpq); [lia|done|].
      cbn [mbind option_bind].
      assert (Ed : zlen t - n = zlen (drop (Z.to_nat n) t)) by (rewrite length_drop; lia).
      rewrite Ed. rewrite fmap_cons, cons_middle, app_assoc.
      destruct (Z.gtb_spec (zlen (drop (Z.to_nat n) t)) 0) as [Hgt|Hle].
      * destruct (IH (drop (Z.to_nat n) t) (Some q') (xs ++ [packed fd (take (Z.to_nat n) t)]))
          as (oq' & -> & Hok' & Hp' & Hoth); [done|by rewrite Hpq|by apply bytes_drop|lia|].
        exists oq'. split; [done|]. split; [done|]. split; [done|].
        intros fd' Hne. by rewrite Hoth, Hpq.
      * assert (drop (Z.to_nat n) t = []) as -> by (apply length_zero_iff_nil; lia).
        exists (Some q'). cbn [frames fst snd fmap list_fmap]. rewrite app_nil_r.
        split; [done|]. split; [done|]. split; [by rewrite Hpq|]. intros; apply Hpq.
Qed.

(** The first step of filling a record leaves the same bytes. *)
Lemma complete_header_spec uc buffer :
  uc_ok uc -> 0 < zlen buffer -> bytes buffer ->
  exists uc' buffer', complete_header uc buffer (zlen buffer) = Some (uc', buffer', zlen buffer') /\
    uc_id uc' = uc_id uc /\ bytes buffer' /\
    0 <= uc_read uc' <= np_size (uc_pack uc') /\ np_size (uc_pack uc') < 2 ^ 16 /\
    zlen (np_buffer (uc_pack uc')) = np_size (uc_pack uc') /\
    remainder uc ++ buffer = remainder uc' ++ buffer'.
Proof.
  intros [Hc] Hl Hb. unfold complete_header.
  destruct Hc as [[Er Hh]|(Hr & Hs & Hbuf)].
  - rewrite Er. cbn [Z.ltb Z.compare Z.eqb Pos.eqb negb]. destruct buffer as [|b buffer]; [cbn in Hl; lia|].
    apply bytes_cons in Hb as [H1 Hb]. rewrite aget_cons_0. cbn [mbind option_bind].
    change (drop 1 (b :: buffer)) with buffer. cbn zeta.
    rewrite Z.lor_comm, lor_bytes by done.
    destruct (header_split (uc_header uc) b Hh H1) as (E0 & E1 & En).
    eexists _, buffer. cbn [length]. replace (Z.of_nat (S (length buffer)) - 1) with (zlen buffer) by lia.
    split; [done|]. split; [done|]. split; [done|]. cbn [uc_read uc_pack np_size np_buffer].
    split; [lia|]. split; [lia|]. split; [clen; lia|].
    unfold remainder. rewrite Er. cbn [uc_read uc_pack np_size Z.ltb Z.compare Z.to_nat take app].
    by rewrite E0, E1.
  - rewrite (proj2 (Z.ltb_ge _ 0)) by lia. exists uc, buffer. split_and!; done || lia.
Qed.

(** The bytes of a record that is past its header. *)
Lemma remainder_stream uc buffer :
  0 <= uc_read uc ->
  remainder uc ++ buffer = np_size (uc_pack uc) / 256 :: np_size (uc_pack uc) mod 256 ::
    (take (Z.to_nat (uc_read uc)) (np_buffer (uc_pack uc)) ++ buffer).
Proof. intros Hr. unfold remainder. by rewrite (proj2 (Z.ltb_ge _ 0)). Qed.

Lemma size_split n : 0 <= n < 2 ^ 16 -> n / 256 * 256 + n mod 256 = n.
Proof. intros Hn. Z.to_euclidean_division_equations; lia. Qed.

(** Completing a packet leaves its whole content in the record's buffer. *)
Lemma fill_buffer b r buffer need :
  0 <= r <= zlen b -> need = zlen b - r -> need <= zlen buffer ->
  memcpy b r buffer 0 need = Some (take (Z.to_nat (zlen b)) (take (Z.to_nat r) b ++ buffer)).
Proof.
  intros Hr -> Hn. rewrite memcpy_Some by lia. f_equal.
  change (Z.to_nat 0) with 0%nat. rewrite drop_0, (drop_ge b), app_nil_r by lia.
  rewrite take_app, take_take, length_take.
  rewrite (Nat.min_r (Z.to_nat (zlen b))) by lia. f_equal. f_equal. lia.
Qed.

Lemma more_outcome fd p buffer :
  buffer <> [] ->
  outcome fd (p :: (frames buffer).1) (frames buffer).2 =
  (FMore, packed fd p :: (packed fd <$> (frames buffer).1)).
Proof.
  intros Hne. unfold outcome. destruct (frames buffer).1 as [|p2 ps] eqn:E1; [|done].
  destruct (frames buffer).2 eqn:E2; [|done]. exfalso. apply Hne. clear - E1 E2.
  destruct buffer as [|b0 [|b1 t]]; [done|done|]. rewrite frames_cons in E1, E2. cbn zeta in *.
  by destruct (_ <? _)%nat.
Qed.

Lemma fill_uncomplete_spec fd uc buffer q xs :
  queue_ok q xs -> pend fd (Some q) = [] -> uc_ok uc -> uc_id uc = fd ->
  0 < zlen buffer -> bytes buffer ->
  let '(ps, rest) := frames (remainder uc ++ buffer) in
  exists oq', fill_uncomplete fd uc buffer (zlen buffer) q = Some ((outcome fd ps rest).1, oq') /\
    net_ok oq' (xs ++ (outcome fd ps rest).2) /\ pend fd oq' = rest /\
    forall fd', fd' <> fd -> pend fd' oq' = pend fd' (Some q).
Proof.
  intros Hok Hp Huc Eid Hl Hb. unfold fill_uncomplete.
  destruct (complete_header_spec uc buffer Huc Hl Hb)
    as (uc' & buf & -> & Eid' & Hb' & Hr & Hs & Hlen & ->).
  cbn [mbind option_bind]. set (b := np_buffer (uc_pack uc')) in *. set (r := uc_read uc') in *.
  set (n := np_size (uc_pack uc')) in *.
  rewrite remainder_stream by apply Hr. fold r b n.
  pose proof (size_split n ltac:(lia)) as En.
  destruct (Z.ltb_spec (zlen buf) (n - r)) as [Hlt|Hge].
  - rewrite frames_wait by (clen; lia). rewrite memcpy_Some by lia.
    change (Z.to_nat 0) with 0%nat. rewrite drop_0, Nat2Z.id, (take_ge buf) by lia.
    cbn [mbind option_bind]. set (uc2 := Uncomplete _ _ _).
    destruct (link_uncomplete_spec fd uc2 q xs Hok Hp) as (q' & -> & Hq & Hpq & Hoth).
    { split. right. subst uc2. cbn [uc_read uc_pack np_size np_buffer]. split; [lia|].
      split; [lia|]. clen. lia. }
    { unfold uc_id in *. cbn. congruence. }
    cbn [mbind option_bind outcome fst snd]. exists (Some q'). rewrite app_nil_r.
    split; [done|]. split; [done|]. split; [|done]. rewrite Hpq. unfold remainder, uc2.
    cbn [uc_read uc_pack np_size np_buffer]. rewrite (proj2 (Z.ltb_ge _ 0)) by lia. cbn [app].
    do 2 f_equal. rewrite (app_assoc (take _ b)), take_app_length'; [done|]. clen. lia.
  - rewrite (frames_packet _ _ _ n) by (clen; lia).
    rewrite (fill_buffer b r buf) by (lia || done). rewrite Hlen.
    cbn [mbind option_bind]. set (p := take (Z.to_nat n) (take (Z.to_nat r) b ++ buf)).
    assert (Hpl : zlen p = n) by (unfold p; clen; lia).
    assert (Ed : drop (Z.to_nat n) (take (Z.to_nat r) b ++ buf) = drop (Z.to_nat (n - r)) buf).
    { rewrite drop_app, drop_ge by (rewrite length_take; lia). cbn [app]. f_equal.
      rewrite length_take. lia. }
    rewrite Ed. set (buf2 := drop (Z.to_nat (n - r)) buf).
    assert (Hl2 : zlen buf - (n - r) = zlen buf2) by (unfold buf2; rewrite length_drop; lia).
    rewrite Hl2. destruct (Z.eqb_spec (zlen buf2) 0) as [E|E].
    + assert (buf2 = []) as -> by (apply length_zero_iff_nil; lia).
      exists (Some q). cbn [frames length frames_fuel outcome fst snd]. rewrite Hpl, app_nil_r. done.
    + rewrite more_outcome by (intros E2; by rewrite E2 in E). cbn [fst snd].
      destruct (push_data_spec fd p n false (Some q) xs Hok) as (q1 & -> & Hq1 & Hp1); [lia|lia|].
      cbn [mbind option_bind]. rewrite (take_ge p) in Hq1 by lia.
      destruct (push_more_spec (S (Z.to_nat (zlen buf2))) fd buf2 (Some q1) (xs ++ [packed fd p]))
        as (oq' & -> & Hok' & Hp' & Hoth); [done|by rewrite Hp1|by apply bytes_drop|lia|].
      cbn [mbind option_bind]. exists oq'. split; [done|]. rewrite cons_middle, app_assoc.
      split; [done|]. split; [done|]. intros fd' Hne. by rewrite Hoth, Hp1.
Qed.

Lemma fresh_chunk_spec fd chunk oq xs :
  net_ok oq xs -> pend fd oq = [] -> 0 < zlen chunk -> bytes chunk ->
  let '(ps, rest) := frames chunk in
  exists oq', fresh_chunk fd chunk (zlen chunk) oq = Some ((outcome fd ps rest).1, oq') /\
    net_ok oq' (xs ++ (outcome fd ps rest).2) /\ pend fd oq' = rest /\
    forall fd', fd' <> fd -> pend fd' oq' = pend fd' oq.
Proof.
  intros Hok Hp Hl Hb. unfold fresh_chunk.
  destruct chunk as [|b0 [|b1 t]]; [cbn in Hl; lia| |].
  + apply bytes_cons in Hb as [Hb _]. cbn [length Z.of_nat Z.eqb Pos.eqb Pos.of_succ_nat].
    destruct (half_header_spec fd b0 Hb) as (uc & -> & Huc & Eid & Er). cbn [mbind option_bind].
    destruct (save_uncomplete_spec fd uc oq xs Hok Hp Huc Eid) as (q' & -> & Hq & Hpq & Hoth).
    rewrite frames_short by (cbn; lia). cbn [mbind option_bind outcome fst snd]. exists (Some q').
    rewrite app_nil_r, Er in *. done.
  + apply bytes_cons in Hb as [H0 Hb]. apply bytes_cons in Hb as [H1 Hb].
    destruct (header_split b0 b1 H0 H1) as (_ & _ & En).
    rewrite (proj2 (Z.eqb_neq _ 1)) by (cbn [length]; lia). rewrite read_size_spec by done.
    cbn [mbind option_bind]. change (drop 2 (b0 :: b1 :: t)) with t. cbn zeta.
    replace (zlen (b0 :: b1 :: t) - 2) with (zlen t) by (cbn [length]; lia).
    set (n := b0 * 256 + b1) in *.
    destruct (Z.ltb_spec (zlen t) n) as [Hlt|Hge].
    * destruct (partial_spec fd b0 b1 t H0 H1 Hlt) as (uc & Hpa & Huc & Eid & Er). fold n in Hpa.
      rewrite Hpa. cbn [mbind option_bind].
      destruct (save_uncomplete_spec fd uc oq xs Hok Hp Huc Eid) as (q' & -> & Hq & Hpq & Hoth).
      rewrite frames_wait by done. cbn [mbind option_bind outcome fst snd]. exists (Some q').
      rewrite app_nil_r, Hpq, Er. done.
    * rewrite (frames_packet b0 b1 t n) by (done || lia).
      destruct (Z.eqb_spec (zlen t) n) as [E|E].
      -- rewrite memcpy_fill by (clen; lia). cbn [mbind option_bind].
         rewrite !(take_ge t), (drop_ge t) by lia.
         cbn [frames length frames_fuel outcome fst snd]. exists oq. by rewrite app_nil_r.
      -- rewrite more_outcome by (intros E2%(f_equal length); rewrite length_drop in E2; cbn in E2; lia).
         cbn [fst snd].
         destruct (push_data_spec fd t n true oq xs Hok) as (q1 & -> & Hq1 & Hpq); [lia|done|].
         cbn [mbind option_bind].
         assert (Ed : zlen t - n = zlen (drop (Z.to_nat n) t)) by (rewrite length_drop; lia).
         rewrite Ed.
         destruct (push_more_spec (S (Z.to_nat (zlen (drop (Z.to_nat n) t)))) fd
           (drop (Z.to_nat n) t) (Some q1) (xs ++ [packed fd (take (Z.to_nat n) t)]))
           as (oq' & -> & Hok' & Hp' & Hoth);
           [done|by rewrite Hpq|by apply bytes_drop|rewrite length_drop; lia|].
         cbn [mbind option_bind]. exists oq'. split; [done|]. rewrite cons_middle, app_assoc.
         split; [done|]. split; [done|]. intros fd' Hne. by rewrite Hoth, Hpq.
Qed.

Lemma filter_data_spec fd chunk oq xs :
  net_ok oq xs -> 0 < zlen chunk -> bytes chunk ->
  let '(ps, rest) := frames (pend fd oq ++ chunk) in
  exists oq', filter_data_ fd chunk (zlen chunk) oq = Some ((outcome fd ps rest).1, oq') /\
    net_ok oq' (xs ++ (outcome fd ps rest).2) /\ pend fd oq' = rest /\
    forall fd', fd' <> fd -> pend fd' oq' = pend fd' oq.
Proof.
  intros Hok Hl Hb. unfold filter_data_.
  destruct (find_uncomplete_spec fd oq xs Hok) as (r & oq1 & -> & Hok1 & Hp1 & Hoth1 & Hr).
  cbn [mbind option_bind]. destruct r as [uc|].
  - destruct Hr as (Huc & Eid & -> & [q ->]).
    pose proof (fill_uncomplete_spec fd uc chunk q xs Hok1 Hp1 Huc Eid Hl Hb) as Hf.
    destruct (frames (remainder uc ++ chunk)) as [ps rest].
    destruct Hf as (oq' & -> & ? & ? & Hoth). exists oq'. split; [done|]. split; [done|].
    split; [done|]. intros fd' Hne. by rewrite Hoth, Hoth1.
  - destruct Hr as [-> Hp]. rewrite Hp. cbn [app]. by apply fresh_chunk_spec.
Qed.

(** ** The consumer *)

Lemma lpop_spec oq xs :
  net_ok oq xs -> exists oq', lpop oq = Some (head xs, oq') /\ net_ok oq' (tail xs) /\
    forall fd, pend fd oq' = pend fd oq.
Proof.
  destruct oq as [q|]; cbn [net_ok lpop]; [|intros ->; by exists None].
  intros [Hl Hb Hr]. destruct (nq_head q =? nq_tail q) eqn:E.
  - apply (ring_ok_empty _ _ _ _ _ Hr) in E as ->. by exists (Some q).
  - destruct xs as [|np xs]; [by rewrite (proj2 (ring_ok_empty _ _ _ _ _ Hr)) in E|].
    destruct (ring_ok_pop _ _ _ _ _ _ Hr) as [-> Hr']. cbn [mbind option_bind].
    eexists. split; [done|]. split; [by split|]. intros fd. by apply pend_frame.
Qed.

Lemma drain_spec fuel oq xs :
  net_ok oq xs -> (length xs < fuel)%nat ->
  exists oq', drain fuel oq = Some ((fun np => (np_id np, np_buffer np)) <$> xs, oq') /\
    net_ok oq' [] /\ forall fd, pend fd oq' = pend fd oq.
Proof.
  revert oq xs. induction fuel as [|fuel IH]; intros oq xs Hok Hf; [lia|]. cbn [drain].
  destruct (lpop_spec oq xs Hok) as (oq1 & -> & Hok1 & Hp1). cbn [mbind option_bind].
  destruct xs as [|np xs]; cbn [head tail] in *; [by exists oq1|]. cbn [length] in Hf.
  destruct (IH oq1 xs Hok1 ltac:(lia)) as (oq2 & -> & Hok2 & Hp2). cbn [mbind option_bind].
  exists oq2. split; [done|]. split; [done|]. intros fd. by rewrite Hp2, Hp1.
Qed.

Lemma receive_spec fd chunk oq :
  net_ok oq [] -> 0 < zlen chunk -> bytes chunk ->
  exists oq', receive fd chunk oq = Some (pair fd <$> (frames (pend fd oq ++ chunk)).1, oq') /\
    net_ok oq' [] /\ pend fd oq' = (frames (pend fd oq ++ chunk)).2 /\
    forall fd', fd' <> fd -> pend fd' oq' = pend fd' oq.
Proof.
  intros Hok Hl Hb. pose proof (filter_data_spec fd chunk oq [] Hok Hl Hb) as Hf.
  unfold receive. destruct (frames (pend fd oq ++ chunk)) as [ps rest]. cbn [fst snd app] in *.
  destruct Hf as (oq1 & -> & Hok1 & Hp1 & Hoth). cbn [mbind option_bind].
  destruct ps as [|p ps]; [by exists oq1|].
  destruct ps as [|p2 ps]; [destruct rest|]; cbn [outcome fst snd] in *; [by exists oq1| |].
  all: destruct oq1 as [q1|]; cbn [net_ok] in Hok1; [|done].
  all: destruct (drain_spec (length (nq_queue q1)) (Some q1) _ Hok1) as (oq2 & -> & Hok2 & Hp2).
  1, 3: pose proof (ro_room _ _ _ _ _ (qo_ring _ _ Hok1)); pose proof (ro_cap _ _ _ _ _ (qo_ring _ _ Hok1)); lia.
  all: exists oq2; split; [|split; [done|]; split; [by rewrite Hp2|intros fd' Hne; by rewrite Hp2, Hoth]].
  - done.
  - do 2 f_equal. rewrite <- list_fmap_compose. by apply list_fmap_ext.
Qed.

Lemma of_fd_app fd l1 l2 : of_fd fd (l1 ++ l2) = of_fd fd l1 ++ of_fd fd l2.
Proof. unfold of_fd. by rewrite filter_app, fmap_app. Qed.

Lemma of_fd_pairs fd fd' ps : of_fd fd (pair fd' <$> ps) = if fd' =? fd then ps else [].
Proof.
  unfold of_fd. induction ps as [|p ps IH]; [by destruct (fd' =? fd)|].
  rewrite fmap_cons, filter_cons. cbn [fst]. destruct (Z.eqb_spec fd' fd); case_decide; try done.
  by rewrite fmap_cons, IH.
Qed.

(** What is pending is no whole packet. *)
Lemma pend_frames fd oq xs : net_ok oq xs -> frames (pend fd oq) = ([], pend fd oq).
Proof.
  destruct oq as [q|]; [|done]. intros [Hl Hb Hr].
  destruct (aget_is_Some (nq_hash q) (hash_fd fd)) as [l Hh]; [rewrite Hl; apply hash_range|].
  rewrite (pend_unlink _ _ _ Hh). destruct (Hb _ _ Hh) as [Hnd Hf].
  pose proof (unlink_spec fd l Hnd) as Hu. destruct (unlink fd l) as [[uc l']|]; [|done].
  destruct Hu as (_ & Hp & _). rewrite Hp in Hf. apply Forall_cons in Hf as [[_ [Hc]] _].
  cbn [fst fmap option_fmap option_map]. destruct Hc as [[Er _]|(Hr1 & Hs & Hlen)].
  - unfold remainder. rewrite Er. by apply frames_short.
  - rewrite <- (app_nil_r (remainder uc)), remainder_stream by lia.
    apply frames_wait. rewrite size_split by lia. clen. lia.
Qed.

Lemma receive_all_spec chunks oq :
  net_ok oq [] -> Forall (fun c => 0 < zlen c.2 /\ bytes c.2) chunks ->
  exists out oq', receive_all chunks oq = Some (out, oq') /\ net_ok oq' [] /\
    forall fd, of_fd fd out = (frames (pend fd oq ++ concat (of_fd fd chunks))).1 /\
      pend fd oq' = (frames (pend fd oq ++ concat (of_fd fd chunks))).2.
Proof.
  revert oq. induction chunks as [|[fd0 c] chunks IH]; intros oq Hok Hc; cbn [receive_all].
  - exists [], oq. split; [done|]. split; [done|]. intros fd. cbn. rewrite app_nil_r.
    by rewrite (pend_frames fd oq []).
  - apply Forall_cons in Hc as [[Hl Hb] Hc]. cbn [snd] in Hl, Hb.
    destruct (receive_spec fd0 c oq Hok Hl Hb) as (oq1 & -> & Hok1 & Hp1 & Hoth).
    cbn [mbind option_bind]. destruct (IH oq1 Hok1 Hc) as (out & oq2 & -> & Hok2 & Hfd).
    cbn [mbind option_bind]. eexists _, oq2. split; [done|]. split; [done|].
    intros fd. destruct (Hfd fd) as [E1 E2].
    rewrite of_fd_app, of_fd_pairs, E1, E2. clear E1 E2.
    destruct (Z.eqb_spec fd0 fd) as [<-|Hne].
    + assert (Ec : of_fd fd0 ((fd0, c) :: chunks) = c :: of_fd fd0 chunks).
      { unfold of_fd. rewrite filter_cons_True by done. done. }
      rewrite Ec, Hp1. cbn [concat]. by rewrite app_assoc, (frames_app (pend fd0 oq ++ c)).
    + assert (Ec : of_fd fd ((fd0, c) :: chunks) = of_fd fd chunks).
      { unfold of_fd. rewrite filter_cons_False by done. done. }
      by rewrite Ec, Hoth.
Qed.

(** ** Packing *)

Lemma write_size_bytes n :
  0 <= n < 2 ^ 16 -> write_size n = [n / 256; n mod 256].
Proof.
  intros Hn. unfold write_size. change 0xff with (2 ^ 8 - 1). rewrite !land_pow2_pred by lia.
  rewrite Z.shiftr_div_pow2 by lia. change (2 ^ 8) with 256. f_equal.
  apply Z.mod_small. change (2 ^ 16) with 65536 in Hn. Z.to_euclidean_division_equations; lia.
Qed.

Lemma lpack_spec p :
  zlen p < 2 ^ 16 -> lpack p = Some (zlen p / 256 :: zlen p mod 256 :: p).
Proof.
  intros Hp. unfold lpack. destruct (Z.gtb_spec (zlen p) 0x10000); [change (2 ^ 16) with 65536 in Hp; lia|].
  by rewrite write_size_bytes by lia.
Qed.

Lemma packed_bytes n p :
  0 <= n < 2 ^ 16 -> bytes p -> bytes (n / 256 :: n mod 256 :: p).
Proof.
  intros Hn Hp. change (2 ^ 16) with 65536 in Hn. unfold bytes.
  repeat constructor; try done; Z.to_euclidean_division_equations; lia.
Qed.

Lemma lpack_frames ps es :
  Forall2 (fun p e => zlen p < 2 ^ 16 /\ lpack p = Some e) ps es -> frames (concat es) = (ps, []).
Proof.
  induction 1 as [|p e ps es [Hp He] _ IH]; [done|].
  rewrite lpack_spec in He by done. injection He as <-. cbn [concat app].
  rewrite (frames_packet _ _ _ (zlen p)) by (rewrite ?size_split, ?length_app; lia).
  by rewrite Nat2Z.id, take_app_length, drop_app_length, IH.
Qed.

(** ** Properties *)

(** C11: Whatever chunks the sockets' streams arrive in and however they
    interleave, a consumer that pops the queue after each chunk gets for every
    socket exactly the packets of its stream, in order; the bytes that are no
    whole packet yet are kept.  No access leaves a buffer, the table or the
    ring, which grows as needed. *)
Theorem netpack_stream chunks :
  Forall (fun c => 0 < zlen c.2 /\ bytes c.2) chunks ->
  exists out oq, receive_all chunks None = Some (out, oq) /\
    forall fd, of_fd fd out = (frames (concat (of_fd fd chunks))).1 /\
      pend fd oq = (frames (concat (of_fd fd chunks))).2.
Proof.
  intros Hc. destruct (receive_all_spec chunks None) as (out & oq & Hr & _ & Hfd); [done|done|].
  exists out, oq. split; [done|]. exact Hfd.
Qed.

(** C12: Packets below 2^16 bytes survive the round trip: packed by [lpack],
    concatenated and cut into any non-empty chunks, they are delivered as they
    were sent, in order, with nothing left over. *)
Theorem netpack_roundtrip fd ps es chunks :
  Forall2 (fun p e => zlen p < 2 ^ 16 /\ lpack p = Some e) ps es ->
  Forall (fun c => 0 < zlen c /\ bytes c) chunks -> concat chunks = concat es ->
  exists out oq, receive_all (pair fd <$> chunks) None = Some (out, oq) /\
    of_fd fd out = ps /\ pend fd oq = [].
Proof.
  intros Hps Hc E.
  destruct (receive_all_spec (pair fd <$> chunks) None) as (out & oq & Hr & _ & Hfd); [done| |].
  { apply Forall_fmap. exact Hc. }
  exists out, oq. split; [done|]. destruct (Hfd fd) as [-> ->].
  rewrite of_fd_pairs, Z.eqb_refl, E. cbn [pend app]. by rewrite (lpack_frames _ _ Hps).
Qed.

(** C13: When a socket is closed or fails, the bytes it left incomplete are
    dropped; the queued packets and the other sockets are not touched. The
    message of a failure, if there is one, has the size that is given. *)
Theorem netpack_close m size oq xs :
  net_ok oq xs ->
  sm_type m = SOCKET_CLOSE \/ (sm_type m = SOCKET_ERR /\ forall l, sm_data m = Some l -> 0 <= size <= zlen l) ->
  exists r oq', lfilter m size oq = Some (r, oq') /\ net_ok oq' xs /\ pend (sm_id m) oq' = [] /\
    forall fd, fd <> sm_id m -> pend fd oq' = pend fd oq.
Proof.
  intros Hok Ht.
  destruct (find_uncomplete_spec (sm_id m) oq xs Hok) as (r & oq' & Hf & Hok' & Hp & Hoth & _).
  unfold lfilter, close_uncomplete. rewrite Hf.
  destruct Ht as [->|[-> Hs]]; cbn [mbind option_bind Z.eqb Pos.eqb SOCKET_CLOSE SOCKET_ERR
    SOCKET_DATA SOCKET_OPEN SOCKET_ACCEPT].
  - by eexists _, oq'.
  - unfold pushstring. destruct (sm_data m) as [l|]; [|by eexists _, oq'].
    specialize (Hs l eq_refl). destruct ((0 <=? size) && (size <=? zlen l)) eqn:E; [|lia]. by eexists _, oq'.
Qed.

(** The largest packet [lpack] accepts is one byte too long: its length is
    written as 0 and the reader loses the framing. *)
Example lpack_overflow :
  match lpack (replicate (Z.to_nat 0x10000) 7) with
  | Some e => take 4 e = [0; 0; 7; 7] /\ head (frames e).1 = Some []
  | None => False
  end.
Proof. vm_compute. done. Qed.

(** ** Concrete runs *)

Definition demo_chunks : list (Z * list Z) :=
  [(5, [0]); (9, [0; 1]); (5, [2; 65; 66; 0; 1]); (9, [90; 0; 0; 0; 2; 1]); (5, [67; 0; 3; 1])].

Lemma netpack_stream_witness :
  fst <$> receive_all demo_chunks None
    = Some [(5, [65; 66]); (9, [90]); (9, []); (5, [67])] /\
  exists out oq, receive_all demo_chunks None = Some (out, oq) /\
    of_fd 5 out = [[65; 66]; [67]] /\ pend 5 oq = [0; 3; 1] /\ pend 9 oq = [0; 2; 1].
Proof.
  split; [vm_compute; reflexivity|].
  destruct (netpack_stream demo_chunks) as (out & oq & Hr & Hfd).
  - repeat constructor; cbn; lia.
  - exists out, oq. split; [exact Hr|]. destruct (Hfd 5) as [E5 P5], (Hfd 9) as [_ P9].
    rewrite E5, P5, P9. vm_compute. repeat split; reflexivity.
Defined.

Lemma netpack_roundtrip_witness :
  exists out oq, receive_all (pair 5 <$> [[0; 2; 65]; [66; 0]; [1; 67]]) None = Some (out, oq) /\
    of_fd 5 out = [[65; 66]; [67]] /\ pend 5 oq = [].
Proof.
  apply (netpack_roundtrip 5 [[65; 66]; [67]] [[0; 2; 65; 66]; [0; 1; 67]]).
  - repeat constructor; vm_compute; reflexivity.
  - repeat constructor; cbn; lia.
  - reflexivity.
Defined.

Lemma netpack_close_witness :
  exists oq r oq', pend 5 oq = [0; 2; 1] /\ pend 9 oq = [0; 3] /\
    lfilter (SocketMessage SOCKET_CLOSE 5 None 0) 0 oq = Some (r, oq') /\
    pend 5 oq' = [] /\ pend 9 oq' = [0; 3].
Proof.
  destruct (receive_all_spec [(5, [0; 2]); (9, [0; 3]); (5, [1])] None) as (out & oq & _ & Hok & Hfd);
    [reflexivity|repeat constructor; cbn; lia|].
  destruct (Hfd 5) as [_ E5], (Hfd 9) as [_ E9].
  destruct (netpack_close (SocketMessage SOCKET_CLOSE 5 None 0) 0 oq [] Hok) as (r & oq' & H1 & _ & H3 & H4).
  - left. reflexivity.
  - exists oq, r, oq'. split; [exact E5|]. split; [exact E9|]. split; [exact H1|]. split; [exact H3|].
    rewrite (H4 9); [exact E9|discriminate].
Defined.
