(* ===== verification/Des.v ===== *)
(** * DES (src/lualib/lcrypt.c)

    The block cipher behind [desencode] and [desdecode].  Words of 32 bits are
    integers in [0, 2^32); a shift to the left is cut to 32 bits.  The macros
    take their variables as arguments and return their new values.  A Lua
    error is [LErr], a read outside a buffer [None]. *)

From S2P Require Import Prelude.

(** The eight S-boxes. *)
Definition SB1 : list Z :=
  [0x01010400; 0x00000000; 0x00010000; 0x01010404; 0x01010004; 0x00010404;
   0x00000004; 0x00010000; 0x00000400; 0x01010400; 0x01010404; 0x00000400;
   0x01000404; 0x01010004; 0x01000000; 0x00000004; 0x00000404; 0x01000400;
   0x01000400; 0x00010400; 0x00010400; 0x01010000; 0x01010000; 0x01000404;
   0x00010004; 0x01000004; 0x01000004; 0x00010004; 0x00000000; 0x00000404;
   0x00010404; 0x01000000; 0x00010000; 0x01010404; 0x00000004; 0x01010000;
   0x01010400; 0x01000000; 0x01000000; 0x00000400; 0x01010004; 0x00010000;
   0x00010400; 0x01000004; 0x00000400; 0x00000004; 0x01000404; 0x00010404;
   0x01010404; 0x00010004; 0x01010000; 0x01000404; 0x01000004; 0x00000404;
   0x00010404; 0x01010400; 0x00000404; 0x01000400; 0x01000400; 0x00000000;
   0x00010004; 0x00010400; 0x00000000; 0x01010004].

Definition SB2 : list Z :=
  [0x80108020; 0x80008000; 0x00008000; 0x00108020; 0x00100000; 0x00000020;
   0x80100020; 0x80008020; 0x80000020; 0x80108020; 0x80108000; 0x80000000;
   0x80008000; 0x00100000; 0x00000020; 0x80100020; 0x00108000; 0x00100020;
   0x80008020; 0x00000000; 0x80000000; 0x00008000; 0x00108020; 0x80100000;
   0x00100020; 0x80000020; 0x00000000; 0x00108000; 0x00008020; 0x80108000;
   0x80100000; 0x00008020; 0x00000000; 0x00108020; 0x80100020; 0x00100000;
   0x80008020; 0x80100000; 0x80108000; 0x00008000; 0x80100000; 0x80008000;
   0x00000020; 0x80108020; 0x00108020; 0x00000020; 0x00008000; 0x80000000;
   0x00008020; 0x80108000; 0x00100000; 0x80000020; 0x00100020; 0x80008020;
   0x80000020; 0x00100020; 0x00108000; 0x00000000; 0x80008000; 0x00008020;
   0x80000000; 0x80100020; 0x80108020; 0x00108000].

Definition SB3 : list Z :=
  [0x00000208; 0x08020200; 0x00000000; 0x08020008; 0x08000200; 0x00000000;
   0x00020208; 0x08000200; 0x00020008; 0x08000008; 0x08000008; 0x00020000;
   0x08020208; 0x00020008; 0x08020000; 0x00000208; 0x08000000; 0x00000008;
   0x08020200; 0x00000200; 0x00020200; 0x08020000; 0x08020008; 0x00020208;
   0x08000208; 0x00020200; 0x00020000; 0x08000208; 0x00000008; 0x08020208;
   0x00000200; 0x08000000; 0x08020200; 0x08000000; 0x00020008; 0x00000208;
   0x00020000; 0x08020200; 0x08000200; 0x00000000; 0x00000200; 0x00020008;
   0x08020208; 0x08000200; 0x08000008; 0x00000200; 0x00000000; 0x08020008;
   0x08000208; 0x00020000; 0x08000000; 0x08020208; 0x00000008; 0x00020208;
   0x00020200; 0x08000008; 0x08020000; 0x08000208; 0x00000208; 0x08020000;
   0x00020208; 0x00000008; 0x08020008; 0x00020200].

Definition SB4 : list Z :=
  [0x00802001; 0x00002081; 0x00002081; 0x00000080; 0x00802080; 0x00800081;
   0x00800001; 0x00002001; 0x00000000; 0x00802000; 0x00802000; 0x00802081;
   0x00000081; 0x00000000; 0x00800080; 0x00800001; 0x00000001; 0x00002000;
   0x00800000; 0x00802001; 0x00000080; 0x00800000; 0x00002001; 0x00002080;
   0x00800081; 0x00000001; 0x00002080; 0x00800080; 0x00002000; 0x00802080;
   0x00802081; 0x00000081; 0x00800080; 0x00800001; 0x00802000; 0x00802081;
   0x00000081; 0x00000000; 0x00000000; 0x00802000; 0x00002080; 0x00800080;
   0x00800081; 0x00000001; 0x00802001; 0x00002081; 0x00002081; 0x00000080;
   0x00802081; 0x00000081; 0x00000001; 0x00002000; 0x00800001; 0x00002001;
   0x00802080; 0x00800081; 0x00002001; 0x00002080; 0x00800000; 0x00802001;
   0x00000080; 0x00800000; 0x00002000; 0x00802080].

Definition SB5 : list Z :=
  [0x00000100; 0x02080100; 0x02080000; 0x42000100; 0x00080000; 0x00000100;
   0x40000000; 0x02080000; 0x40080100; 0x00080000; 0x02000100; 0x40080100;
   0x42000100; 0x42080000; 0x00080100; 0x40000000; 0x02000000; 0x40080000;
   0x40080000; 0x00000000; 0x40000100; 0x42080100; 0x42080100; 0x02000100;
   0x42080000; 0x40000100; 0x00000000; 0x42000000; 0x02080100; 0x02000000;
   0x42000000; 0x00080100; 0x00080000; 0x42000100; 0x00000100; 0x02000000;
   0x40000000; 0x02080000; 0x42000100; 0x40080100; 0x02000100; 0x40000000;
   0x42080000; 0x02080100; 0x40080100; 0x00000100; 0x02000000; 0x42080000;
   0x42080100; 0x00080100; 0x42000000; 0x42080100; 0x02080000; 0x00000000;
   0x40080000; 0x42000000; 0x00080100; 0x02000100; 0x40000100; 0x00080000;
   0x00000000; 0x40080000; 0x02080100; 0x40000100].

Definition SB6 : list Z :=
  [0x20000010; 0x20400000; 0x00004000; 0x20404010; 0x20400000; 0x00000010;
   0x20404010; 0x00400000; 0x20004000; 0x00404010; 0x00400000; 0x20000010;
   0x00400010; 0x20004000; 0x20000000; 0x00004010; 0x00000000; 0x00400010;
   0x20004010; 0x00004000; 0x00404000; 0x20004010; 0x00000010; 0x20400010;
   0x20400010; 0x00000000; 0x00404010; 0x20404000; 0x00004010; 0x00404000;
   0x20404000; 0x20000000; 0x20004000; 0x00000010; 0x20400010; 0x00404000;
   0x20404010; 0x00400000; 0x00004010; 0x20000010; 0x00400000; 0x20004000;
   0x20000000; 0x00004010; 0x20000010; 0x20404010; 0x00404000; 0x20400000;
   0x00404010; 0x20404000; 0x00000000; 0x20400010; 0x00000010; 0x00004000;
   0x20400000; 0x00404010; 0x00004000; 0x00400010; 0x20004010; 0x00000000;
   0x20404000; 0x20000000; 0x00400010; 0x20004010].

Definition SB7 : list Z :=
  [0x00200000; 0x04200002; 0x04000802; 0x00000000; 0x00000800; 0x04000802;
   0x00200802; 0x04200800; 0x04200802; 0x00200000; 0x00000000; 0x04000002;
   0x00000002; 0x04000000; 0x04200002; 0x00000802; 0x04000800; 0x00200802;
   0x00200002; 0x04000800; 0x04000002; 0x04200000; 0x04200800; 0x00200002;
   0x04200000; 0x00000800; 0x00000802; 0x04200802; 0x00200800; 0x00000002;
   0x04000000; 0x00200800; 0x04000000; 0x00200800; 0x00200000; 0x04000802;
   0x04000802; 0x04200002; 0x04200002; 0x00000002; 0x00200002; 0x04000000;
   0x04000800; 0x00200000; 0x04200800; 0x00000802; 0x00200802; 0x04200800;
   0x00000802; 0x04000002; 0x04200802; 0x04200000; 0x00200800; 0x00000000;
   0x00000002; 0x04200802; 0x00000000; 0x00200802; 0x04200000; 0x00000800;
   0x04000002; 0x04000800; 0x00000800; 0x00200002].

Definition SB8 : list Z :=
  [0x10001040; 0x00001000; 0x00040000; 0x10041040; 0x10000000; 0x10001040;
   0x00000040; 0x10000000; 0x00040040; 0x10040000; 0x10041040; 0x00041000;
   0x10041000; 0x00041040; 0x00001000; 0x00000040; 0x10040000; 0x10000040;
   0x10001000; 0x00001040; 0x00041000; 0x00040040; 0x10040040; 0x10041000;
   0x00001040; 0x00000000; 0x00000000; 0x10040040; 0x10000040; 0x10001000;
   0x00041040; 0x00040000; 0x00041040; 0x00040000; 0x10041000; 0x00001000;
   0x00000040; 0x10040040; 0x00001000; 0x00041040; 0x10001000; 0x00000040;
   0x10000040; 0x10040000; 0x10040040; 0x10000000; 0x00040000; 0x10001040;
   0x00000000; 0x10041040; 0x00040040; 0x10000040; 0x10040000; 0x10001000;
   0x10001040; 0x00000000; 0x10041040; 0x00041000; 0x00041000; 0x00001040;
   0x00001040; 0x00040040; 0x10000000; 0x10041000].

(** Permuted choice 1. *)
Definition LHs : list Z :=
  [0x00000000; 0x00000001; 0x00000100; 0x00000101; 0x00010000; 0x00010001;
   0x00010100; 0x00010101; 0x01000000; 0x01000001; 0x01000100; 0x01000101;
   0x01010000; 0x01010001; 0x01010100; 0x01010101].

Definition RHs : list Z :=
  [0x00000000; 0x01000000; 0x00010000; 0x01010000; 0x00000100; 0x01000100;
   0x00010100; 0x01010100; 0x00000001; 0x01000001; 0x00010001; 0x01010001;
   0x00000101; 0x01000101; 0x00010101; 0x01010101].

Open Scope word_scope.

(** [SB[i]] for an index below 64. *)
Definition sb (table : list Z) (i : Z) : Z := default 0 (aget table i).

(** [GET_UINT32(n, b, 0)] and [PUT_UINT32(n, b, 0)]. *)
Definition GET_UINT32 (b : list Z) : option (Z * list Z) :=
  match b with
  | b0 :: b1 :: b2 :: b3 :: b =>
      Some ((b0 <<< 24) .| (b1 <<< 16) .| (b2 <<< 8) .| b3, b)
  | _ => None
  end.

Definition PUT_UINT32 (n : Z) : list Z := [u8 (n >>> 24); u8 (n >>> 16); u8 (n >>> 8); u8 n].

(** [T = ((X >> s) ^ Y) & m; Y ^= T; X ^= (T << s);] *)
Definition delta (s m X Y : Z) : Z * Z :=
  let T := ((X >>> s) .^ Y) .& m in
  let Y := Y .^ T in
  let X := X .^ (T <<< s) in
  (X, Y).

(** [T = (X ^ Y) & 0xAAAAAAAA; Y ^= T; X ^= T;] *)
Definition exchange (X Y : Z) : Z * Z :=
  let T := (X .^ Y) .& 0xAAAAAAAA in (X .^ T, Y .^ T).

Definition DES_IP (X Y : Z) : Z * Z :=
  let '(X, Y) := delta 4 0x0F0F0F0F X Y in
  let '(X, Y) := delta 16 0x0000FFFF X Y in
  let '(Y, X) := delta 2 0x33333333 Y X in
  let '(Y, X) := delta 8 0x00FF00FF Y X in
  let Y := ((Y <<< 1) .| (Y >>> 31)) .& 0xFFFFFFFF in
  let '(X, Y) := exchange X Y in
  let X := ((X <<< 1) .| (X >>> 31)) .& 0xFFFFFFFF in
  (X, Y).

Definition DES_FP (X Y : Z) : Z * Z :=
  let X := ((X <<< 31) .| (X >>> 1)) .& 0xFFFFFFFF in
  let '(X, Y) := exchange X Y in
  let Y := ((Y <<< 31) .| (Y >>> 1)) .& 0xFFFFFFFF in
  let '(Y, X) := delta 8 0x00FF00FF Y X in
  let '(Y, X) := delta 2 0x33333333 Y X in
  let '(X, Y) := delta 16 0x0000FFFF X Y in
  let '(X, Y) := delta 4 0x0F0F0F0F X Y in
  (X, Y).

(** Four S-boxes on the bytes of [T]. *)
Definition des_boxes (A B C D : list Z) (T : Z) : Z :=
  sb A (T .& 0x3F) .^ sb B ((T >>> 8) .& 0x3F) .^
  sb C ((T >>> 16) .& 0x3F) .^ sb D ((T >>> 24) .& 0x3F).

(** [DES_ROUND(X,Y)] with the two words it reads from [SK]: the new [Y]. *)
Definition DES_ROUND (k1 k2 X Y : Z) : Z :=
  let T := k1 .^ X in
  let Y := Y .^ des_boxes SB8 SB6 SB4 SB2 T in
  let T := k2 .^ ((X <<< 28) .| (X >>> 4)) in
  Y .^ des_boxes SB7 SB5 SB3 SB1 T.

(** The two halves of the key after permuted choice 1. *)
Definition des_pc1 (X Y : Z) : Z * Z :=
  let T := ((Y >>> 4) .^ X) .& 0x0F0F0F0F in
  let X := X .^ T in
  let Y := Y .^ (T <<< 4) in
  let T := (Y .^ X) .& 0x10101010 in
  let X := X .^ T in
  let Y := Y .^ T in
  let X :=
    (sb LHs (X .& 0xF) <<< 3) .| (sb LHs ((X >>> 8) .& 0xF) <<< 2)
    .| (sb LHs ((X >>> 16) .& 0xF) <<< 1) .| sb LHs ((X >>> 24) .& 0xF)
    .| (sb LHs ((X >>> 5) .& 0xF) <<< 7) .| (sb LHs ((X >>> 13) .& 0xF) <<< 6)
    .| (sb LHs ((X >>> 21) .& 0xF) <<< 5) .| (sb LHs ((X >>> 29) .& 0xF) <<< 4) in
  let Y :=
    (sb RHs ((Y >>> 1) .& 0xF) <<< 3) .| (sb RHs ((Y >>> 9) .& 0xF) <<< 2)
    .| (sb RHs ((Y >>> 17) .& 0xF) <<< 1) .| sb RHs ((Y >>> 25) .& 0xF)
    .| (sb RHs ((Y >>> 4) .& 0xF) <<< 7) .| (sb RHs ((Y >>> 12) .& 0xF) <<< 6)
    .| (sb RHs ((Y >>> 20) .& 0xF) <<< 5) .| (sb RHs ((Y >>> 28) .& 0xF) <<< 4) in
  (X .& 0x0FFFFFFF, Y .& 0x0FFFFFFF).

(** The two subkey words of a round (permuted choice 2). *)
Definition des_pc2 (X Y : Z) : list Z :=
  [((X <<< 4) .& 0x24000000) .| ((X <<< 28) .& 0x10000000)
   .| ((X <<< 14) .& 0x08000000) .| ((X <<< 18) .& 0x02080000)
   .| ((X <<< 6) .& 0x01000000) .| ((X <<< 9) .& 0x00200000)
   .| ((X >>> 1) .& 0x00100000) .| ((X <<< 10) .& 0x00040000)
   .| ((X <<< 2) .& 0x00020000) .| ((X >>> 10) .& 0x00010000)
   .| ((Y >>> 13) .& 0x00002000) .| ((Y >>> 4) .& 0x00001000)
   .| ((Y <<< 6) .& 0x00000800) .| ((Y >>> 1) .& 0x00000400)
   .| ((Y >>> 14) .& 0x00000200) .| (Y .& 0x00000100)
   .| ((Y >>> 5) .& 0x00000020) .| ((Y >>> 10) .& 0x00000010)
   .| ((Y >>> 3) .& 0x00000008) .| ((Y >>> 18) .& 0x00000004)
   .| ((Y >>> 26) .& 0x00000002) .| ((Y >>> 24) .& 0x00000001);
   ((X <<< 15) .& 0x20000000) .| ((X <<< 17) .& 0x10000000)
   .| ((X <<< 10) .& 0x08000000) .| ((X <<< 22) .& 0x04000000)
   .| ((X >>> 2) .& 0x02000000) .| ((X <<< 1) .& 0x01000000)
   .| ((X <<< 16) .& 0x00200000) .| ((X <<< 11) .& 0x00100000)
   .| ((X <<< 3) .& 0x00080000) .| ((X >>> 6) .& 0x00040000)
   .| ((X <<< 15) .& 0x00020000) .| ((X >>> 4) .& 0x00010000)
   .| ((Y >>> 2) .& 0x00002000) .| ((Y <<< 8) .& 0x00001000)
   .| ((Y >>> 14) .& 0x00000808) .| ((Y >>> 9) .& 0x00000400)
   .| (Y .& 0x00000200) .| ((Y <<< 7) .& 0x00000100)
   .| ((Y >>> 7) .& 0x00000020) .| ((Y >>> 3) .& 0x00000011)
   .| ((Y <<< 2) .& 0x00000004) .| ((Y >>> 21) .& 0x00000002)].

(** [for (i = 0; i < 16; i++)]: [n] iterations are left. *)
Fixpoint des_subkeys (n : nat) (i X Y : Z) : list Z :=
  match n with
  | O => []
  | S n =>
      let '(X, Y) :=
        if (i <? 2) || (i =? 8) || (i =? 15) then
          (((X <<< 1) .| (X >>> 27)) .& 0x0FFFFFFF, ((Y <<< 1) .| (Y >>> 27)) .& 0x0FFFFFFF)
        else
          (((X <<< 2) .| (X >>> 26)) .& 0x0FFFFFFF, ((Y <<< 2) .| (Y >>> 26)) .& 0x0FFFFFFF) in
      des_pc2 X Y ++ des_subkeys n (i + 1) X Y
  end.

Definition des_main_ks (key : list Z) : option (list Z) :=
  '(X, key) ← GET_UINT32 key;
  '(Y, _) ← GET_UINT32 key;
  let '(X, Y) := des_pc1 X Y in
  Some (des_subkeys 16 0 X Y).

(** The rounds, in pairs [DES_ROUND(Y,X); DES_ROUND(X,Y);]. *)
Fixpoint des_rounds (SK : list Z) (X Y : Z) : option (Z * Z) :=
  match SK with
  | [] => Some (X, Y)
  | k1 :: k2 :: k3 :: k4 :: SK =>
      let X := DES_ROUND k1 k2 Y X in
      let Y := DES_ROUND k3 k4 X Y in
      des_rounds SK X Y
  | _ => None
  end.

Definition des_crypt (SK input : list Z) : option (list Z) :=
  '(X, input) ← GET_UINT32 input;
  '(Y, _) ← GET_UINT32 input;
  let '(X, Y) := DES_IP X Y in
  '(X, Y) ← des_rounds SK X Y;
  let '(Y, X) := DES_FP Y X in
  Some (PUT_UINT32 Y ++ PUT_UINT32 X).

(** [des_key]: the subkeys of a Lua string of 8 bytes. *)
Definition des_key (key : list Z) : option (lua (list Z)) :=
  if negb (zlen key =? 8) then Some LErr else SK ← des_main_ks key; Some (LOk SK).

(** [for (; more(i); i+=8) des_crypt(SK, text+i, buffer+i);] with an [int i]:
    the output, the final [i] and the rest of the text. *)
Fixpoint des_blocks (fuel : nat) (more : Z -> bool) (i : Z) (SK text : list Z) : option (list Z * Z * list Z) :=
  if more i then
    match fuel with
    | O => None
    | S fuel =>
        out ← des_crypt SK (take 8 text);
        i ← int_of (i + 8);
        '(outs, i, rest) ← des_blocks fuel more i SK (drop 8 text);
        Some (out ++ outs, i, rest)
    end
  else Some ([], i, text).

(** The last block: the [bytes] bytes of the rest of the text, 0x80 and zeros. *)
Definition des_tail (bytes : Z) (rest : list Z) : option (list Z) :=
  mapM (fun j => if j <? bytes then aget rest j else if j =? bytes then Some 0x80 else Some 0)
       (seqZ 0 8).

(** The loop runs to [(int)textsz-7]; a buffer that is not written to its end
    is undefined. *)
Definition ldesencode (key text : list Z) : option (lua (list Z)) :=
  k ← des_key key;
  match k with
  | LErr => Some LErr
  | LOk SK =>
      let textsz := zlen text in
      let chunksz := Z.ldiff (u64 (textsz + 8)) 7 in
      n ← int_of (i32 textsz - 7);
      '(out, i, rest) ← des_blocks (length text / 8) (fun i => i <? n) 0 SK text;
      tail ← des_tail (i32 (u64 (textsz - i))) rest;
      last ← des_crypt SK tail;
      if zlen (out ++ last) =? chunksz then Some (LOk (out ++ last)) else None
  end.

(** [SK[i] = ESK[30 - i]; SK[i + 1] = ESK[31 - i];] for [i] = 0, 2, ... 30. *)
Definition reverse_keys (ESK : list Z) : option (list Z) :=
  ks ← mapM (fun i => a ← aget ESK (30 - i); b ← aget ESK (31 - i); Some [a; b])
            ((fun i => 2 * i) <$> seqZ 0 16);
  Some (concat ks).

(** The loop that strips the padding, from [(int)(textsz-1)] on;
    [i >= textsz-8] compares unsigned. *)
Fixpoint des_padding (fuel : nat) (i padding textsz : Z) (buffer : list Z) : option (lua Z) :=
  if u64 i >=? u64 (textsz - 8) then
    match fuel with
    | O => None
    | S fuel =>
        b ← aget buffer i;
        if b =? 0 then des_padding fuel (i - 1) (padding + 1) textsz buffer
        else if b =? 0x80 then Some (LOk padding)
        else Some LErr
    end
  else Some (LOk padding).

Definition ldesdecode (key text : list Z) : option (lua (list Z)) :=
  k ← des_key key;
  match k with
  | LErr => Some LErr
  | LOk ESK =>
      SK ← reverse_keys ESK;
      let textsz := zlen text in
      if negb (textsz .& 7 =? 0) || (textsz =? 0) then Some LErr
      else
        '(buffer, _, _) ← des_blocks (length text / 8) (fun i => u64 i <? textsz) 0 SK text;
        p ← des_padding 9 (i32 (textsz - 1)) 1 textsz buffer;
        match p with
        | LErr => Some LErr
        | LOk padding =>
            if padding >? 8 then Some LErr
            else Some (LOk (take (Z.to_nat (textsz - padding)) buffer))
        end
  end.

(** The key [lrandomkey] makes of eight random bytes ([char] is signed or not:
    only the equality with 0 matters). *)
Definition lrandomkey (random : list Z) : list Z :=
  let tmp := (fun r => r .& 0xff) <$> take 8 random in
  let x := foldl Z.lxor 0 tmp in
  match tmp with
  | b :: rest => if x =? 0 then (b .| 1) :: rest else tmp
  | [] => []
  end.

Example des_vector :
  (SK ← des_main_ks [0x13; 0x34; 0x57; 0x79; 0x9B; 0xBC; 0xDF; 0xF1];
   des_crypt SK [0x01; 0x23; 0x45; 0x67; 0x89; 0xAB; 0xCD; 0xEF])
  = Some [0x85; 0xE8; 0x13; 0x54; 0x0F; 0x0A; 0xB4; 0x05].
Proof. vm_compute. reflexivity. Qed.

Example des_roundtrip_vector :
  let key := [1; 2; 3; 4; 5; 6; 7; 8] in
  let text := [104; 101; 108; 108; 111; 32; 119; 111; 114; 108; 100] in
  match ldesencode key text with Some (LOk c) => ldesdecode key c | r => r end = Some (LOk text).
Proof. vm_compute. reflexivity. Qed.

(** ** The permutations *)

Ltac zbits := repeat first
  [ rewrite Z.lxor_spec | rewrite Z.lor_spec | rewrite Z.land_spec
  | rewrite testbit_shl by lia | rewrite Z.shiftr_spec by lia ].

(** A delta swap undoes itself when the mask fits below the shift. *)
Lemma delta_twice s m X Y :
  0 <= s <= 32 -> 0 <= m < 2 ^ (32 - s) ->
  (let '(X', Y') := delta s m X Y in delta s m X' Y') = (X, Y).
Proof.
  intros Hs Hm. unfold delta. set (T := Z.land (Z.lxor (Z.shiftr X s) Y) m).
  assert (HT : T <<< s = Z.shiftl T s).
  { apply Z.bits_inj'. intros i Hi. rewrite testbit_shl, Z.shiftl_spec by lia.
    destruct (Z.ltb_spec i 32) as [|Hh], (Z.leb_spec s i) as [|Hl]; cbn [andb]; try done.
    - by rewrite Z.testbit_neg_r by lia.
    - subst T. rewrite Z.land_spec, <- (Z.mod_small m (2 ^ (32 - s))) by done.
      by rewrite (Z.mod_pow2_bits_high m), andb_false_r by lia.
    - by rewrite Z.testbit_neg_r by lia. }
  rewrite HT.
  assert (E : Z.land (Z.lxor (Z.shiftr (Z.lxor X (Z.shiftl T s)) s) (Z.lxor Y T)) m = T).
  { rewrite Z.shiftr_lxor, Z.shiftr_shiftl_l, Z.sub_diag, Z.shiftl_0_r by lia. subst T.
    apply Z.bits_inj'. intros i Hi. zbits.
    by destruct (Z.testbit m i), (Z.testbit X (i + s)), (Z.testbit Y i). }
  rewrite E, HT. f_equal; by rewrite Z.lxor_assoc, Z.lxor_nilpotent, Z.lxor_0_r.
Qed.

Lemma exchange_twice X Y : (let '(X', Y') := exchange X Y in exchange X' Y') = (X, Y).
Proof.
  unfold exchange. set (T := Z.land (Z.lxor X Y) 0xAAAAAAAA).
  assert (E : Z.land (Z.lxor (Z.lxor X T) (Z.lxor Y T)) 0xAAAAAAAA = T).
  { subst T. apply Z.bits_inj'. intros i Hi. zbits.
    by destruct (Z.testbit 0xAAAAAAAA i), (Z.testbit X i), (Z.testbit Y i). }
  rewrite E. f_equal; by rewrite Z.lxor_assoc, Z.lxor_nilpotent, Z.lxor_0_r.
Qed.

Definition rotl1 (X : Z) : Z := ((X <<< 1) .| (X >>> 31)) .& 0xFFFFFFFF.
Definition rotr1 (X : Z) : Z := ((X <<< 31) .| (X >>> 1)) .& 0xFFFFFFFF.

Lemma mask_word x : Z.land x 0xFFFFFFFF = u32 x.
Proof. change 0xFFFFFFFF with (2 ^ 32 - 1). by apply land_pow2_pred. Qed.

Lemma rotl1_bit X i : word X -> 0 <= i < 32 -> Z.testbit (rotl1 X) i = Z.testbit X ((i - 1) mod 32).
Proof.
  intros HX Hi. unfold rotl1. rewrite mask_word, testbit_u32 by lia. zbits.
  rewrite (proj2 (Z.ltb_lt i 32)) by lia. cbn [andb].
  destruct (Z.leb_spec 1 i).
  - rewrite (word_bit X (i + 31)), orb_false_r by (done || lia). by rewrite Z.mod_small by lia.
  - assert (i = 0) as -> by lia. done.
Qed.

Lemma rotr1_bit X i : word X -> 0 <= i < 32 -> Z.testbit (rotr1 X) i = Z.testbit X ((i + 1) mod 32).
Proof.
  intros HX Hi. unfold rotr1. rewrite mask_word, testbit_u32 by lia. zbits.
  rewrite (proj2 (Z.ltb_lt i 32)) by lia. cbn [andb].
  destruct (Z.leb_spec 31 i).
  - assert (i = 31) as -> by lia. rewrite (word_bit X (31 + 1)), orb_false_r by (done || lia).
    done.
  - cbn [orb]. by rewrite Z.mod_small by lia.
Qed.

Lemma rotl1_word X : word (rotl1 X).
Proof. unfold rotl1. rewrite mask_word. apply word_u32. Qed.

Lemma rotr1_word X : word (rotr1 X).
Proof. unfold rotr1. rewrite mask_word. apply word_u32. Qed.

Lemma rotr1_rotl1 X : word X -> rotr1 (rotl1 X) = X.
Proof.
  intros HX. apply word_eq; [apply rotr1_word|done|]. intros i Hi.
  rewrite rotr1_bit, rotl1_bit by (try apply rotl1_word; try apply Z.mod_pos_bound; (done || lia)).
  rewrite Zminus_mod_idemp_l. replace (i + 1 - 1) with i by lia. by rewrite Z.mod_small.
Qed.

Lemma rotl1_rotr1 X : word X -> rotl1 (rotr1 X) = X.
Proof.
  intros HX. apply word_eq; [apply rotl1_word|done|]. intros i Hi.
  rewrite rotl1_bit, rotr1_bit by (try apply rotr1_word; try apply Z.mod_pos_bound; (done || lia)).
  rewrite Zplus_mod_idemp_l. replace (i - 1 + 1) with i by lia. by rewrite Z.mod_small.
Qed.

Lemma delta_word s m X Y : word X -> word Y -> word m -> word (delta s m X Y).1 /\ word (delta s m X Y).2.
Proof.
  intros HX HY Hm. cbn. split; apply word_lxor; try done; [apply word_shl|by apply word_land].
Qed.

Lemma exchange_word X Y : word X -> word Y -> word (exchange X Y).1 /\ word (exchange X Y).2.
Proof. intros HX HY. cbn. split; apply word_lxor; try done; by apply word_land. Qed.

(** [DES_IP] and [DES_FP] undo each other on words. *)
Lemma delta_inv s m X Y X' Y' :
  0 <= s <= 32 -> 0 <= m < 2 ^ (32 - s) -> word X -> word Y -> delta s m X Y = (X', Y') ->
  delta s m X' Y' = (X, Y) /\ word X' /\ word Y'.
Proof.
  intros Hs Hm HX HY E. pose proof (delta_twice s m X Y Hs Hm) as H2.
  assert (Hmw : word m).
  { split; [lia|]. enough (2 ^ (32 - s) <= 2 ^ 32) by lia. apply Z.pow_le_mono_r; lia. }
  pose proof (delta_word s m X Y HX HY Hmw) as Hw. rewrite E in *. done.
Qed.

Lemma exchange_inv X Y X' Y' :
  word X -> word Y -> exchange X Y = (X', Y') -> exchange X' Y' = (X, Y) /\ word X' /\ word Y'.
Proof.
  intros HX HY E. pose proof (exchange_twice X Y) as H2.
  pose proof (exchange_word X Y HX HY) as Hw. rewrite E in *. done.
Qed.

Ltac inv_step E :=
  first [ apply delta_inv in E as (E & ? & ?); [|lia|lia|done|done]
        | apply exchange_inv in E as (E & ? & ?); [|done|done] ].

Lemma ip_fp X Y X' Y' :
  word X -> word Y -> DES_FP X Y = (X', Y') -> DES_IP X' Y' = (X, Y) /\ word X' /\ word Y'.
Proof.
  intros HX HY. unfold DES_FP. fold (rotr1 X).
  destruct (exchange (rotr1 X) Y) as [X2 Y2] eqn:E1. fold (rotr1 Y2).
  pose proof (rotr1_word X). inv_step E1. pose proof (rotr1_word Y2).
  destruct (delta 8 _ (rotr1 Y2) X2) as [Y4 X4] eqn:E2. inv_step E2.
  destruct (delta 2 _ Y4 X4) as [Y5 X5] eqn:E3. inv_step E3.
  destruct (delta 16 _ X5 Y5) as [X6 Y6] eqn:E4. inv_step E4.
  destruct (delta 4 _ X6 Y6) as [X7 Y7] eqn:E5. inv_step E5.
  intros [= <- <-]. split; [|done]. unfold DES_IP. rewrite E5, E4, E3, E2.
  fold (rotl1 (rotr1 Y2)). rewrite rotl1_rotr1, E1 by done.
  fold (rotl1 (rotr1 X)). by rewrite rotl1_rotr1.
Qed.

Lemma fp_ip X Y X' Y' :
  word X -> word Y -> DES_IP X Y = (X', Y') -> DES_FP X' Y' = (X, Y) /\ word X' /\ word Y'.
Proof.
  intros HX HY. unfold DES_IP.
  destruct (delta 4 _ X Y) as [X2 Y2] eqn:E1. inv_step E1.
  destruct (delta 16 _ X2 Y2) as [X3 Y3] eqn:E2. inv_step E2.
  destruct (delta 2 _ Y3 X3) as [Y4 X4] eqn:E3. inv_step E3.
  destruct (delta 8 _ Y4 X4) as [Y5 X5] eqn:E4. inv_step E4.
  fold (rotl1 Y5). pose proof (rotl1_word Y5).
  destruct (exchange X5 (rotl1 Y5)) as [X6 Y6] eqn:E5. inv_step E5. fold (rotl1 X6).
  pose proof (rotl1_word X6). intros [= <- <-]. split; [|done]. unfold DES_FP.
  fold (rotr1 (rotl1 X6)). rewrite rotr1_rotl1, E5 by done.
  fold (rotr1 (rotl1 Y5)). rewrite rotr1_rotl1 by done. by rewrite E4, E3, E2, E1.
Qed.

(** ** The rounds *)

(** The subkey words of the rounds in the opposite order. *)
Fixpoint reverse_rounds (SK : list Z) : list Z :=
  match SK with k1 :: k2 :: SK => reverse_rounds SK ++ [k1; k2] | _ => [] end.

Lemma des_round_twice k1 k2 X Y : DES_ROUND k1 k2 X (DES_ROUND k1 k2 X Y) = Y.
Proof.
  unfold DES_ROUND. set (a := des_boxes _ _ _ _ (Z.lxor k1 X)). set (b := des_boxes _ _ _ _ _).
  apply Z.bits_inj'. intros i Hi. zbits.
  by destruct (Z.testbit a i), (Z.testbit b i), (Z.testbit Y i).
Qed.

Lemma des_rounds_app SK k1 k2 k3 k4 X Y X' Y' :
  des_rounds SK X Y = Some (X', Y') ->
  des_rounds (SK ++ [k1; k2; k3; k4]) X Y =
  Some (DES_ROUND k1 k2 Y' X', DES_ROUND k3 k4 (DES_ROUND k1 k2 Y' X') Y').
Proof.
  remember (length SK) as n eqn:E. revert SK X Y E.
  induction n as [n IH] using lt_wf_ind. intros SK X Y -> H.
  destruct SK as [|a [|b [|c [|d SK]]]]; cbn [des_rounds app] in *; try done.
  - by injection H as -> ->.
  - eapply IH; [|done|exact H]. cbn. lia.
Qed.

(** Running the rounds backwards with the halves exchanged undoes them. *)
Lemma des_rounds_reverse SK X Y X' Y' :
  des_rounds SK X Y = Some (X', Y') -> des_rounds (reverse_rounds SK) Y' X' = Some (Y, X).
Proof.
  remember (length SK) as n eqn:E. revert SK X Y E.
  induction n as [n IH] using lt_wf_ind. intros SK X Y -> H.
  destruct SK as [|a [|b [|c [|d SK]]]]; cbn [des_rounds reverse_rounds] in *; try done.
  - by injection H as -> ->.
  - apply (IH (length SK)) in H; [|cbn; lia|done]. rewrite <- app_assoc. cbn [app].
    erewrite des_rounds_app by exact H. by rewrite !des_round_twice.
Qed.


Lemma sb_word table i : Forall word table -> word (sb table i).
Proof.
  intros Ht. unfold sb. destruct (aget table i) as [x|] eqn:E; cbn; [|by split].
  rewrite Forall_forall in Ht. apply Ht. unfold aget in E. case_match; [|done].
  by eapply list_elem_of_lookup_2.
Qed.

Definition wordb (x : Z) : bool := (0 <=? x) && (x <? 2 ^ 32).

Lemma words_checked l : forallb wordb l = true -> Forall word l.
Proof.
  intros H. apply Forall_forall. intros x Hx%list_elem_of_In. rewrite forallb_forall in H.
  specialize (H x Hx). unfold wordb in H. split; lia.
Qed.

Lemma DES_ROUND_word k1 k2 X Y : word Y -> word (DES_ROUND k1 k2 X Y).
Proof.
  intros HY. unfold DES_ROUND, des_boxes.
  repeat apply word_lxor; try done; apply sb_word, words_checked; vm_compute; reflexivity.
Qed.

Lemma des_rounds_word SK X Y X' Y' :
  word X -> word Y -> des_rounds SK X Y = Some (X', Y') -> word X' /\ word Y'.
Proof.
  remember (length SK) as n eqn:E. revert SK X Y E.
  induction n as [n IH] using lt_wf_ind. intros SK X Y -> HX HY H.
  destruct SK as [|a [|b [|c [|d SK]]]]; cbn [des_rounds] in *; try done.
  - by injection H as -> ->.
  - apply (IH (length SK)) in H; [done|cbn; lia|done|by apply DES_ROUND_word|by apply DES_ROUND_word].
Qed.

(** ** Words and bytes *)

Lemma byte_word b : 0 <= b < 256 -> word b.
Proof. intros Hb. split; [lia|]. change (2 ^ 32) with 4294967296. lia. Qed.

Lemma get_put n l : word n -> GET_UINT32 (PUT_UINT32 n ++ l) = Some (n, l).
Proof.
  intros Hn. cbn [PUT_UINT32 app GET_UINT32]. do 2 f_equal.
  apply word_eq; [|done|].
  - repeat apply word_lor; try apply word_shl. apply byte_word, byte_u8.
  - intros i Hi. zbits. rewrite !(proj2 (Z.ltb_lt i 32)) by lia. cbn [andb].
    destruct (Z.leb_spec 24 i), (Z.leb_spec 16 i), (Z.leb_spec 8 i); try lia;
      cbn [andb orb]; rewrite ?testbit_u8 by lia; zbits;
      repeat match goal with |- context [?a <? 8] =>
        first [rewrite (proj2 (Z.ltb_lt a 8)) by lia | rewrite (proj2 (Z.ltb_ge a 8)) by lia] end;
      cbn [andb orb]; rewrite ?orb_false_r; f_equal; lia.
Qed.

Lemma put_get b0 b1 b2 b3 l :
  bytes [b0; b1; b2; b3] ->
  exists n, GET_UINT32 (b0 :: b1 :: b2 :: b3 :: l) = Some (n, l) /\ word n /\
    PUT_UINT32 n = [b0; b1; b2; b3].
Proof.
  intros Hb. apply bytes_cons in Hb as [H0 Hb]. apply bytes_cons in Hb as [H1 Hb].
  apply bytes_cons in Hb as [H2 Hb]. apply bytes_cons in Hb as [H3 _].
  eexists. split; [done|]. split.
  - repeat apply word_lor; try apply word_shl. by apply byte_word.
  - unfold PUT_UINT32. repeat f_equal;
      (apply byte_eq; [apply byte_u8|done|]; intros i Hi;
       rewrite testbit_u8 by lia; zbits;
       repeat match goal with |- context [?a <? ?c] =>
         first [rewrite (proj2 (Z.ltb_lt a c)) by lia | rewrite (proj2 (Z.ltb_ge a c)) by lia] end;
       repeat match goal with |- context [?a <=? ?c] =>
         first [rewrite (proj2 (Z.leb_le a c)) by lia | rewrite (proj2 (Z.leb_gt a c)) by lia] end;
       cbn [andb orb];
       repeat match goal with H : 0 <= ?b < 256 |- context [Z.testbit ?b ?e] =>
         rewrite (byte_bit b e H) by lia end;
       rewrite ?orb_false_r; f_equal; lia).
Qed.

Lemma bytes_put n : bytes (PUT_UINT32 n).
Proof. repeat constructor; apply byte_u8. Qed.

Lemma block_words input :
  bytes input -> length input = 8%nat ->
  exists X Y r, GET_UINT32 input = Some (X, r) /\ GET_UINT32 r = Some (Y, []) /\ word X /\ word Y /\
    PUT_UINT32 X ++ PUT_UINT32 Y = input.
Proof.
  intros Hb Hl. do 8 (destruct input as [|? input]; [done|]). destruct input; [|done].
  destruct (put_get z z0 z1 z2 [z3; z4; z5; z6]) as (X & EX & HX & PX).
  { by apply (bytes_take 4) in Hb. }
  destruct (put_get z3 z4 z5 z6 []) as (Y & EY & HY & PY).
  { by apply (bytes_drop 4) in Hb. }
  exists X, Y, [z3; z4; z5; z6]. rewrite PX, PY. done.
Qed.

(** ** Blocks *)

(** A block encrypted with some subkeys is decrypted with the same subkeys in
    the opposite order. *)
Lemma des_crypt_inverse SK input :
  (exists k, length SK = (4 * k)%nat) -> bytes input -> length input = 8%nat ->
  exists output, des_crypt SK input = Some output /\ bytes output /\ length output = 8%nat /\
    des_crypt (reverse_rounds SK) output = Some input.
Proof.
  intros [k Hk] Hb Hl. destruct (block_words input Hb Hl) as (X & Y & r & E1 & E2 & HX & HY & EP).
  unfold des_crypt at 1. rewrite E1. cbn [mbind option_bind]. rewrite E2. cbn [mbind option_bind].
  destruct (DES_IP X Y) as [X1 Y1] eqn:Ei. destruct (fp_ip X Y X1 Y1 HX HY Ei) as (Ef & HX1 & HY1).
  assert (exists X2 Y2, des_rounds SK X1 Y1 = Some (X2, Y2)) as (X2 & Y2 & Er).
  { clear - Hk. revert SK X1 Y1 Hk. induction k as [|k IH]; intros SK X1 Y1 Hk.
    - apply length_zero_iff_nil in Hk as ->. by exists X1, Y1.
    - do 4 (destruct SK as [|? SK]; [cbn in Hk; lia|]). cbn [des_rounds]. apply IH. cbn in Hk. lia. }
  rewrite Er. cbn [mbind option_bind]. destruct (des_rounds_word _ _ _ _ _ HX1 HY1 Er) as [HX2 HY2].
  destruct (DES_FP Y2 X2) as [Y3 X3] eqn:Eo. destruct (ip_fp Y2 X2 Y3 X3 HY2 HX2 Eo) as (Ei2 & HY3 & HX3).
  exists (PUT_UINT32 Y3 ++ PUT_UINT32 X3). split; [done|].
  split; [apply Forall_app; split; apply bytes_put|]. split; [done|].
  unfold des_crypt. rewrite get_put by done. cbn [mbind option_bind].
  rewrite <- (app_nil_r (PUT_UINT32 X3)), get_put by done. cbn [mbind option_bind].
  rewrite Ei2. rewrite (des_rounds_reverse _ _ _ _ _ Er). cbn [mbind option_bind].
  by rewrite Ef, EP.
Qed.

(** [n] blocks, without the index. *)
Fixpoint crypt_blocks (n : nat) (SK text : list Z) : option (list Z * list Z) :=
  match n with
  | O => Some ([], text)
  | S n =>
      out ← des_crypt SK (take 8 text);
      '(outs, rest) ← crypt_blocks n SK (drop 8 text);
      Some (out ++ outs, rest)
  end.

(** A loop that stops after [n] blocks, its index below 2^31. *)
Lemma des_blocks_spec n more i SK text :
  (forall j, 0 <= j < Z.of_nat n -> more (i + 8 * j) = true) -> more (i + 8 * Z.of_nat n) = false ->
  0 <= i -> i + 8 * Z.of_nat n < 2 ^ 31 ->
  des_blocks n more i SK text = '(out, rest) ← crypt_blocks n SK text; Some (out, i + 8 * Z.of_nat n, rest).
Proof.
  revert i text. induction n as [|n IH]; intros i text Hm He Hi Hb; cbn [des_blocks crypt_blocks].
  - replace (i + 8 * Z.of_nat 0) with i in * by lia. by rewrite He.
  - specialize (Hm 0 ltac:(lia)) as Hm0. replace (i + 8 * 0) with i in Hm0 by lia. rewrite Hm0.
    destruct (des_crypt SK (take 8 text)) as [out|]; cbn [mbind option_bind]; [|done].
    rewrite int_of_small by lia. cbn [mbind option_bind]. rewrite IH; [| | |lia|lia].
    + destruct (crypt_blocks n SK (drop 8 text)) as [[outs rest]|]; cbn [mbind option_bind]; [|done].
      do 3 f_equal. lia.
    + intros j Hj. replace (i + 8 + 8 * j) with (i + 8 * (j + 1)) by lia. apply Hm. lia.
    + rewrite <- He. f_equal. lia.
Qed.

Lemma crypt_blocks_inverse n SK text :
  (exists k, length SK = (4 * k)%nat) -> bytes text -> (8 * n <= length text)%nat ->
  exists out, crypt_blocks n SK text = Some (out, drop (8 * n) text) /\ bytes out /\
    length out = (8 * n)%nat /\
    forall m rest, crypt_blocks (n + m) (reverse_rounds SK) (out ++ rest) =
      '(out2, r) ← crypt_blocks m (reverse_rounds SK) rest; Some (take (8 * n) text ++ out2, r).
Proof.
  intros Hk. revert text. induction n as [|n IH]; intros text Hb Hl; cbn [crypt_blocks Nat.add].
  - exists []. split; [done|]. split; [constructor|]. split; [done|]. intros m rest. cbn [app].
    rewrite take_0. by destruct (crypt_blocks m _ rest) as [[? ?]|].
  - destruct (des_crypt_inverse SK (take 8 text) Hk) as (o & -> & Hbo & Hlo & Ho).
    { by apply bytes_take. }
    { rewrite length_take. lia. }
    cbn [mbind option_bind]. destruct (IH (drop 8 text)) as (out & -> & Hbout & Hlout & Hdec).
    { by apply bytes_drop. }
    { rewrite length_drop. lia. }
    cbn [mbind option_bind]. exists (o ++ out). rewrite drop_drop.
    split; [do 3 f_equal; lia|]. split; [by apply Forall_app|]. split; [rewrite length_app; lia|].
    intros m rest. rewrite <- app_assoc, take_app_length', drop_app_length' by done.
    rewrite Ho. cbn [mbind option_bind]. rewrite Hdec.
    destruct (crypt_blocks m (reverse_rounds SK) rest) as [[out2 r]|]; cbn [mbind option_bind]; [|done].
    do 2 f_equal. rewrite app_assoc. f_equal.
    replace (8 * S n)%nat with (8 + 8 * n)%nat by lia. apply take_take_drop.
Qed.

(** ** Padding and keys *)

Lemma des_tail_spec rest :
  (length rest < 8)%nat -> des_tail (zlen rest) rest = Some (rest ++ 0x80 :: replicate (7 - length rest) 0).
Proof. intros Hl. do 8 (destruct rest as [|? rest]; [reflexivity|]). cbn in Hl. lia. Qed.

Lemma des_padding_spec fuel z z' p textsz pre :
  (z < fuel)%nat -> (z <= z')%nat -> 0 <= textsz - 8 <= zlen pre -> textsz < 2 ^ 64 -> zlen pre + Z.of_nat z < 2 ^ 64 ->
  des_padding fuel (zlen pre + Z.of_nat z) p textsz (pre ++ 0x80 :: replicate z' 0) =
  Some (LOk (p + Z.of_nat z)).
Proof.
  revert fuel p. induction z as [|z IH]; intros fuel p Hf Hz Ht Hs Hb; (destruct fuel as [|fuel]; [lia|]);
    cbn [des_padding]; (replace (u64 _ >=? _) with true by (unfold u64; rewrite !Z.mod_small by lia; lia)).
  - replace (zlen pre + Z.of_nat 0) with (zlen pre) by lia. rewrite aget_app_r, Z.sub_diag by lia.
    rewrite aget_cons_0. cbn [mbind option_bind Z.eqb Pos.eqb].
    do 2 f_equal. lia.
  - rewrite aget_app_r by lia.
    replace (zlen pre + Z.of_nat (S z) - zlen pre) with (Z.of_nat z + 1) by lia.
    rewrite aget_cons_S, aget_replicate by lia. cbn [mbind option_bind Z.eqb].
    replace (zlen pre + Z.of_nat (S z) - 1) with (zlen pre + Z.of_nat z) by lia.
    rewrite IH by lia. do 2 f_equal. lia.
Qed.

Lemma des_subkeys_length n i X Y : length (des_subkeys n i X Y) = (2 * n)%nat.
Proof.
  revert i X Y. induction n as [|n IH]; intros i X Y; [done|]. cbn [des_subkeys].
  destruct ((i <? 2) || (i =? 8) || (i =? 15)); rewrite length_app, IH; cbn [length des_pc2]; lia.
Qed.

Lemma des_main_ks_spec key :
  length key = 8%nat -> exists SK, des_main_ks key = Some SK /\ length SK = 32%nat.
Proof.
  intros Hl. do 8 (destruct key as [|? key]; [done|]). unfold des_main_ks.
  cbn [GET_UINT32 mbind option_bind]. destruct (des_pc1 _ _) as [X Y]. eexists. split; [done|].
  apply des_subkeys_length.
Qed.

Lemma reverse_keys_spec SK : length SK = 32%nat -> reverse_keys SK = Some (reverse_rounds SK).
Proof. intros Hl. do 32 (destruct SK as [|? SK]; [done|]). destruct SK; [reflexivity|done]. Qed.

Lemma land_7 n : Z.land n 7 = n mod 8.
Proof. change 7 with (2 ^ 3 - 1). by apply land_pow2_pred. Qed.

(** The loop of the encryption runs over all whole blocks, that of the
    decryption over all blocks. *)
Lemma encode_loop SK text :
  zlen text < 2 ^ 31 -> int_of (i32 (zlen text) - 7) = Some (zlen text - 7) /\
  des_blocks (length text / 8) (fun i => i <? zlen text - 7) 0 SK text =
  '(out, rest) ← crypt_blocks (length text / 8) SK text; Some (out, 8 * Z.of_nat (length text / 8), rest).
Proof.
  intros Hl. rewrite i32_id, int_of_small by lia. split; [done|].
  pose proof (Nat.div_mod_eq (length text) 8). pose proof (Nat.mod_upper_bound (length text) 8 ltac:(lia)).
  rewrite des_blocks_spec; [done| | |lia|lia]; [intros j Hj|]; lia.
Qed.

Lemma decode_loop SK text n :
  length text = (8 * n)%nat -> zlen text < 2 ^ 31 ->
  des_blocks (length text / 8) (fun i => u64 i <? zlen text) 0 SK text =
  '(out, rest) ← crypt_blocks n SK text; Some (out, zlen text, rest).
Proof.
  intros Hn Hl. rewrite Hn, Nat.mul_comm, Nat.div_mul by done. rewrite <- (Nat.mul_comm 8), <- Hn.
  rewrite des_blocks_spec; [| | |lia|lia]; unfold u64; [|intros j Hj; rewrite Z.mod_small; lia|rewrite Z.mod_small; lia].
  destruct (crypt_blocks n SK text) as [[out rest]|]; cbn [mbind option_bind]; [|done]. do 3 f_equal. lia.
Qed.

Lemma ldiff_7 n : Z.ldiff n 7 = n / 8 * 8.
Proof.
  change 7 with (Z.ones 3). rewrite Z.ldiff_ones_r, Z.shiftl_mul_pow2, Z.shiftr_div_pow2 by lia. done.
Qed.

(** C14: [desdecode] inverts [desencode]: for every key of 8 bytes and every
    text of less than 2^31 - 8 bytes (the index of both loops is an [int]) the
    encryption succeeds with a multiple of 8 bytes, and decrypting it with the
    same key gives the text back. *)
Theorem des_roundtrip key text :
  length key = 8%nat -> bytes text -> zlen text < 2 ^ 31 - 8 ->
  exists c, ldesencode key text = Some (LOk c) /\ zlen c = (zlen text / 8 + 1) * 8 /\
    ldesdecode key c = Some (LOk text).
Proof.
  intros Hk Hb Hsz. destruct (des_main_ks_spec key Hk) as (SK & EK & HSK).
  assert (H4 : exists k, length SK = (4 * k)%nat) by (exists 8%nat; lia).
  unfold ldesencode, ldesdecode, des_key. rewrite (proj2 (Z.eqb_eq _ 8)) by lia.
  rewrite EK. cbn [negb mbind option_bind].
  destruct (encode_loop SK text) as [-> E]; [lia|]. cbn [mbind option_bind]. rewrite E. clear E.
  set (q := (length text / 8)%nat). assert (Hq : (8 * q <= length text)%nat) by (apply Nat.Div0.mul_div_le).
  destruct (crypt_blocks_inverse q SK text H4 Hb Hq) as (out & -> & Hbo & Hlo & Hdec).
  cbn [mbind option_bind]. set (rest := drop (8 * q) text).
  assert (Hr : zlen rest = zlen text - 8 * Z.of_nat q) by (unfold rest; rewrite length_drop; lia).
  assert (Hr8 : (length rest < 8)%nat) by (pose proof (Nat.mul_succ_div_gt (length text) 8); lia).
  replace (i32 (u64 _)) with (zlen rest) by (unfold u64; rewrite Z.mod_small, i32_id by lia; lia).
  rewrite des_tail_spec by done. cbn [mbind option_bind].
  set (tail := rest ++ 0x80 :: replicate (7 - length rest) 0).
  destruct (des_crypt_inverse SK tail H4) as (lst & -> & Hbl & Hll & Hdl).
  { unfold tail, rest. apply Forall_app. split; [by apply bytes_drop|]. constructor; [lia|].
    apply Forall_replicate. lia. }
  { unfold tail. rewrite length_app. cbn [length]. rewrite length_replicate. lia. }
  cbn [mbind option_bind].
  assert (Hlc : length (out ++ lst) = (8 * (q + 1))%nat) by (rewrite length_app; lia).
  assert (Hqz : zlen text / 8 = Z.of_nat q) by (unfold q; rewrite Nat2Z.inj_div; done).
  rewrite (proj2 (Z.eqb_eq _ _))
    by (rewrite ldiff_7; unfold u64; rewrite Z.mod_small by lia; Z.to_euclidean_division_equations; lia).
  exists (out ++ lst). split; [done|].
  split; [lia|]. rewrite reverse_keys_spec by done. cbn [mbind option_bind].
  rewrite land_7. rewrite (proj2 (Z.eqb_eq _ 0)) by (rewrite Hlc; Z.to_euclidean_division_equations; lia).
  rewrite (proj2 (Z.eqb_neq (zlen (out ++ lst)) 0)) by lia. cbn [negb orb].
  rewrite (decode_loop _ _ (q + 1)) by lia.
  rewrite Hdec. cbn [crypt_blocks mbind option_bind]. rewrite (take_ge lst), Hdl by lia.
  cbn [mbind option_bind]. rewrite app_nil_r. unfold tail. rewrite app_assoc.
  replace (take (8 * q) text ++ rest) with text by (symmetry; apply take_drop).
  rewrite i32_id by lia. replace (zlen (out ++ lst) - 1) with (zlen text + Z.of_nat (7 - length rest)) by lia.
  rewrite des_padding_spec by lia. cbn [mbind option_bind].
  destruct (Z.gtb_spec (1 + Z.of_nat (7 - length rest)) 8); [lia|]. do 3 f_equal.
  by replace (Z.to_nat (zlen (out ++ lst) - (1 + Z.of_nat (7 - length rest)))) with (length text)
    by lia; rewrite take_app_length.
Qed.

(** Eight bytes that decrypt to zeros: the scan for the padding compares
    [i >= textsz-8] unsigned, which [i = -1] passes, and reads before the
    buffer. *)
Example des_padding_underflow :
  let key := [1; 2; 3; 4; 5; 6; 7; 8] in
  match des_key key with
  | Some (LOk SK) => (c ← des_crypt SK (replicate 8 0); ldesdecode key c) = None /\
      is_Some (des_crypt SK (replicate 8 0))
  | _ => False
  end.
Proof. vm_compute. split; [reflexivity|by eexists]. Qed.

Lemma des_roundtrip_witness :
  exists c, ldesencode [1; 2; 3; 4; 5; 6; 7; 8] [104; 101; 108; 108; 111; 0; 255; 128; 9] = Some (LOk c) /\
    zlen c = 16 /\
    ldesdecode [1; 2; 3; 4; 5; 6; 7; 8] c = Some (LOk [104; 101; 108; 108; 111; 0; 255; 128; 9]).
Proof.
  apply (des_roundtrip [1; 2; 3; 4; 5; 6; 7; 8] [104; 101; 108; 108; 111; 0; 255; 128; 9]).
  - reflexivity.
  - repeat constructor; lia.
  - reflexivity.
Defined.
