(* ===== verification/Crypt.v ===== *)
(** * Encodings, hashes and key exchange (src/lualib/lcrypt.c)

    [hexencode], [hexdecode], [base64encode], [base64decode], [hashkey],
    [hmac64], [hmac_hash] and the Diffie-Hellman exchange modulo the largest
    prime below 2^64.  A string is a list of bytes; a Lua string ends with a
    null byte that may be read.  Integers of 32 and 64 bits wrap. *)

From Stdlib Require Import Zpow_facts.
From S2P Require Import Prelude.

Open Scope word_scope.

(** ** Hexadecimal *)

Definition hex : list Z :=
  [48; 49; 50; 51; 52; 53; 54; 55; 56; 57; 97; 98; 99; 100; 101; 102].

Definition hex_digit (i : Z) : Z := default 0 (aget hex i).

Fixpoint ltohex (text : list Z) : list Z :=
  match text with
  | [] => []
  | b :: text => hex_digit (b >>> 4) :: hex_digit (b .& 0xf) :: ltohex text
  end.

(** [HEX(v,c)] into a [uint8_t]. *)
Definition HEX (c : Z) : Z :=
  if (48 <=? c) && (c <=? 57) then c - 48 else u8 (c - 97 + 10).

Definition hex_byte (c d : Z) : lua Z :=
  let hi := HEX c in
  let low := HEX d in
  if (hi >? 16) || (low >? 16) then LErr else LOk (u8 (Z.shiftl hi 4 .| low)).

(** The loop over pairs; the last pair of an odd text reads the final null. *)
Fixpoint fromhex_loop (text : list Z) : lua (list Z) :=
  match text with
  | [] => LOk []
  | [c] => match hex_byte c 0 with LOk b => LOk [b] | LErr => LErr end
  | c :: d :: text =>
      match hex_byte c d with
      | LErr => LErr
      | LOk b => match fromhex_loop text with LOk bs => LOk (b :: bs) | LErr => LErr end
      end
  end.

Definition lfromhex (text : list Z) : lua (list Z) :=
  if negb (zlen text .& 2 =? 0) then LErr else fromhex_loop text.

(** ** Base64 *)

Definition encoding : list Z :=
  [65; 66; 67; 68; 69; 70; 71; 72; 73; 74; 75; 76; 77; 78; 79; 80; 81; 82; 83; 84; 85; 86; 87; 88;
   89; 90; 97; 98; 99; 100; 101; 102; 103; 104; 105; 106; 107; 108; 109; 110; 111; 112; 113; 114;
   115; 116; 117; 118; 119; 120; 121; 122; 48; 49; 50; 51; 52; 53; 54; 55; 56; 57; 43; 47].

Definition b64char (i : Z) : Z := default 0 (aget encoding i).

Fixpoint lb64encode (text : list Z) : list Z :=
  match text with
  | a :: b :: c :: text =>
      let v := Z.shiftl a 16 .| Z.shiftl b 8 .| c in
      b64char (v >>> 18) :: b64char ((v >>> 12) .& 0x3f) :: b64char ((v >>> 6) .& 0x3f) ::
      b64char (v .& 0x3f) :: lb64encode text
  | [a; b] =>
      let v := Z.shiftl a 8 .| b in
      [b64char (v >>> 10); b64char ((v >>> 4) .& 0x3f); b64char (Z.shiftl (v .& 0xf) 2); 61]
  | [a] => [b64char (a >>> 2); b64char (Z.shiftl (a .& 3) 4); 61; 61]
  | [] => []
  end.

Definition decoding : list Z :=
  [62; -1; -1; -1; 63; 52; 53; 54; 55; 56; 57; 58; 59; 60; 61; -1; -1; -1; -2; -1; -1; -1; 0; 1; 2;
   3; 4; 5; 6; 7; 8; 9; 10; 11; 12; 13; 14; 15; 16; 17; 18; 19; 20; 21; 22; 23; 24; 25; -1; -1; -1;
   -1; -1; -1; 26; 27; 28; 29; 30; 31; 32; 33; 34; 35; 36; 37; 38; 39; 40; 41; 42; 43; 44; 45; 46;
   47; 48; 49; 50; 51].

Definition b64index (c : Z) : Z :=
  if c <? 43 then -1
  else
    let c := c - 43 in
    if c >=? zlen decoding then -1 else default (-1) (aget decoding c).

(** The inner loop: the next [j] codes that are not -1, and the rest of the
    text; [None] when the text ends first. *)
Fixpoint b64_codes (j : nat) (text : list Z) : option (list Z * list Z) :=
  match j, text with
  | O, _ => Some ([], text)
  | S _, [] => None
  | S j', x :: text =>
      if b64index x =? -1 then b64_codes j text
      else '(cs, rest) ← b64_codes j' text; Some (b64index x :: cs, rest)
  end.

(** The bytes of four codes. *)
Definition b64_bytes (c0 c1 c2 c3 : Z) : lua (list Z) :=
  let padding := zlen (filter (fun c => c = -2) [c0; c1; c2; c3]) in
  if padding =? 0 then
    let v := Z.shiftl c0 18 .| Z.shiftl c1 12 .| Z.shiftl c2 6 .| c3 in
    LOk [u8 (v >>> 16); (v >>> 8) .& 0xff; v .& 0xff]
  else if padding =? 1 then
    if negb (c3 =? -2) || negb (c2 .& 3 =? 0) then LErr
    else
      let v := Z.shiftl c0 10 .| Z.shiftl c1 4 .| (c2 >>> 2) in
      LOk [u8 (v >>> 8); v .& 0xff]
  else if padding =? 2 then
    if negb (c3 =? -2) || negb (c2 =? -2) || negb (c1 .& 0xf =? 0) then LErr
    else
      let v := Z.shiftl c0 2 .| (c1 >>> 4) in LOk [u8 v]
  else LErr.

Fixpoint b64_loop (fuel : nat) (text : list Z) : lua (list Z) :=
  match fuel, text with
  | _, [] => LOk []
  | O, _ => LErr
  | S fuel, _ =>
      match b64_codes 4 text with
      | Some ([c0; c1; c2; c3], rest) =>
          match b64_bytes c0 c1 c2 c3 with
          | LErr => LErr
          | LOk bs => match b64_loop fuel rest with LOk l => LOk (bs ++ l) | LErr => LErr end
          end
      | _ => LErr
      end
  end.

(** A turn of the loop takes at least four characters. *)
Definition lb64decode (text : list Z) : lua (list Z) := b64_loop (length text) text.

(** ** Hashes *)

(** A little-endian word and its bytes. *)
Definition le32 (b0 b1 b2 b3 : Z) : Z := b0 .| (b1 <<< 8) .| (b2 <<< 16) .| (b3 <<< 24).
Definition le_bytes (w : Z) : list Z :=
  [w .& 0xff; (w >>> 8) .& 0xff; (w >>> 16) .& 0xff; (w >>> 24) .& 0xff].

Definition Hash (str : list Z) : list Z :=
  let '(djb, js) := foldl (fun '(djb_hash, js_hash) c =>
      (u32 (djb_hash + (u32 ((djb_hash <<< 5) + c))),
       js_hash .^ u32 (u32 ((js_hash <<< 5) + c) + (js_hash >>> 2)))) (5381, 1315423911) str in
  le_bytes djb ++ le_bytes js.

Definition lhashkey (key : list Z) : list Z := Hash key.

Definition k : list Z :=
  [0xd76aa478; 0xe8c7b756; 0x242070db; 0xc1bdceee; 0xf57c0faf; 0x4787c62a; 0xa8304613; 0xfd469501;
   0x698098d8; 0x8b44f7af; 0xffff5bb1; 0x895cd7be; 0x6b901122; 0xfd987193; 0xa679438e; 0x49b40821;
   0xf61e2562; 0xc040b340; 0x265e5a51; 0xe9b6c7aa; 0xd62f105d; 0x02441453; 0xd8a1e681; 0xe7d3fbc8;
   0x21e1cde6; 0xc33707d6; 0xf4d50d87; 0x455a14ed; 0xa9e3e905; 0xfcefa3f8; 0x676f02d9; 0x8d2a4c8a;
   0xfffa3942; 0x8771f681; 0x6d9d6122; 0xfde5380c; 0xa4beea44; 0x4bdecfa9; 0xf6bb4b60; 0xbebfbc70;
   0x289b7ec6; 0xeaa127fa; 0xd4ef3085; 0x04881d05; 0xd9d4d039; 0xe6db99e5; 0x1fa27cf8; 0xc4ac5665;
   0xf4292244; 0x432aff97; 0xab9423a7; 0xfc93a039; 0x655b59c3; 0x8f0ccc92; 0xffeff47d; 0x85845dd1;
   0x6fa87e4f; 0xfe2ce6e0; 0xa3014314; 0x4e0811a1; 0xf7537e82; 0xbd3af235; 0x2ad7d2bb; 0xeb86d391].

Definition r : list Z :=
  concat (replicate 4 [7; 12; 17; 22]) ++ concat (replicate 4 [5; 9; 14; 20]) ++
  concat (replicate 4 [4; 11; 16; 23]) ++ concat (replicate 4 [6; 10; 15; 21]).

Definition LEFTROTATE (x c : Z) : Z := (x <<< c) .| (x >>> (32 - c)).

(** [~x] on 32 bits. *)
Definition not32 (x : Z) : Z := u32 (Z.lnot x).

(** A turn of the loop of [hmac]; [w] is the message of 16 words. *)
Definition hmac_step (w : list Z) (s : Z * Z * Z * Z) (i : Z) : Z * Z * Z * Z :=
  let '(a, b, c, d) := s in
  let '(f, g) :=
    if i <? 16 then ((b .& c) .| (not32 b .& d), i)
    else if i <? 32 then ((d .& b) .| (not32 d .& c), (5 * i + 1) mod 16)
    else if i <? 48 then (b .^ c .^ d, (3 * i + 5) mod 16)
    else (c .^ (b .| not32 d), (7 * i) mod 16) in
  let sum := u32 (a + f + default 0 (aget k i) + default 0 (aget w g)) in
  (d, u32 (b + LEFTROTATE sum (default 0 (aget r i))), b, c).

Definition hmac (x y : Z * Z) : Z * Z :=
  let w := concat (replicate 4 [snd x; fst x; snd y; fst y]) in
  let '(a, b, c, d) :=
    foldl (hmac_step w) (0x67452301, 0xefcdab89, 0x98badcfe, 0x10325476) (seqZ 0 64) in
  (c .^ d, a .^ b).

(** A string of 8 bytes as two words; [None] is a Lua error. *)
Definition read_words (s : list Z) : option (Z * Z) :=
  match s with
  | [b0; b1; b2; b3; b4; b5; b6; b7] => Some (le32 b0 b1 b2 b3, le32 b4 b5 b6 b7)
  | _ => None
  end.

Definition pushqword (result : Z * Z) : list Z := le_bytes (fst result) ++ le_bytes (snd result).

Definition lhmac64 (x y : list Z) : lua (list Z) :=
  match read_words x, read_words y with
  | Some x, Some y => LOk (pushqword (hmac x y))
  | _, _ => LErr
  end.

Definition lhmac_hash (key text : list Z) : lua (list Z) :=
  match read_words key, read_words (Hash text) with
  | Some key, Some htext => LOk (pushqword (hmac htext key))
  | _, _ => LErr
  end.

(** ** Diffie-Hellman *)

Definition P : Z := 0xffffffffffffffc5.
Definition G : Z := 5.

(** [while (b)]; [b] has 64 bits. *)
Fixpoint mul_loop (fuel : nat) (a b m : Z) : option Z :=
  if b =? 0 then Some m
  else
    match fuel with
    | O => None
    | S fuel =>
        let m :=
          if negb (b .& 1 =? 0) then
            let t := u64 (P - a) in
            if m >=? t then u64 (m - t) else u64 (m + a)
          else m in
        let a := if a >=? u64 (P - a) then u64 (u64 (a * 2) - P) else u64 (a * 2) in
        mul_loop fuel a (b >>> 1) m
    end.

Definition mul_mod_p (a b : Z) : option Z := mul_loop 64 a b 0.

Fixpoint pow_mod_p (fuel : nat) (a b : Z) : option Z :=
  match fuel with
  | O => None
  | S fuel =>
      if b =? 1 then Some a
      else
        t ← pow_mod_p fuel a (b >>> 1);
        t ← mul_mod_p t t;
        if negb (b mod 2 =? 0) then mul_mod_p t a else Some t
  end.

Definition powmodp (a b : Z) : option Z :=
  let a := if a >? P then a mod P else a in pow_mod_p 64 a b.

Definition push64 (r : Z) : list Z :=
  (fun s => (r >>> s) .& 0xff) <$> [0; 8; 16; 24; 32; 40; 48; 56].

(** Two words as a [uint64_t]. *)
Definition join64 (x : Z * Z) : Z := fst x .| Z.shiftl (snd x) 32.

Definition ldhsecret (x y : list Z) : option (lua (list Z)) :=
  match read_words x, read_words y with
  | Some x, Some y =>
      let xx := join64 x in
      let yy := join64 y in
      if (xx =? 0) || (yy =? 0) then Some LErr
      else r ← powmodp xx yy; Some (LOk (push64 r))
  | _, _ => Some LErr
  end.

Definition ldhexchange (x : list Z) : option (lua (list Z)) :=
  match read_words x with
  | Some x =>
      let x64 := join64 x in
      let x64 := if x64 =? 0 then 1 else x64 in
      r ← powmodp G x64; Some (LOk (push64 r))
  | None => Some LErr
  end.

(** ** Hexadecimal text *)

Lemma hex_byte_digits b :
  0 <= b < 256 -> hex_byte (hex_digit (b >>> 4)) (hex_digit (b .& 0xf)) = LOk b.
Proof.
  intros Hb. apply (proj1 (bool_decide_eq_true _)). pattern b.
  revert b Hb. apply byte_forall. by vm_compute.
Qed.

Lemma fromhex_ltohex bs : bytes bs -> fromhex_loop (ltohex bs) = LOk bs.
Proof.
  induction bs as [|b bs IH]; intros Hb; [done|]. apply bytes_cons in Hb as [Hb Hbs].
  cbn [ltohex fromhex_loop]. by rewrite hex_byte_digits, IH.
Qed.

Lemma ltohex_length bs : zlen (ltohex bs) = 2 * zlen bs.
Proof. induction bs as [|b bs IH]; [done|]. cbn [ltohex length]. lia. Qed.

(** ** Base64 text *)

Definition b64_letter (c : Z) : Prop := b64index c <> -1.

#[export] Instance b64_letter_dec c : Decision (b64_letter c).
Proof. unfold b64_letter. apply _. Defined.

Lemma b64index_char i : 0 <= i < 64 -> b64index (b64char i) = i.
Proof.
  intros Hi.
  assert (H : (64 <=? i) || (b64index (b64char i) =? i) = true).
  { apply (byte_forall (fun i => (64 <=? i) || (b64index (b64char i) =? i))); [by vm_compute|lia]. }
  lia.
Qed.

Lemma b64_letter_char i : 0 <= i < 64 -> b64_letter (b64char i).
Proof. intros Hi. unfold b64_letter. rewrite b64index_char by done. lia. Qed.

(** The text ends with a character that the decoder does not skip. *)
Definition b64_closed (text : list Z) : Prop := default True (b64_letter <$> last text).

#[export] Instance b64_closed_dec text : Decision (b64_closed text).
Proof. unfold b64_closed. destruct (last text); apply _. Defined.

Lemma b64_closed_cons c text : text <> [] -> b64_closed (c :: text) <-> b64_closed text.
Proof. destruct text; [done|]. intros _. done. Qed.

(** Codes are found, whatever lies between them. *)
Lemma b64_codes_spec text x xs rest :
  filter b64_letter text = x :: xs ++ rest ->
  exists text', b64_codes (S (length xs)) text = Some (b64index <$> x :: xs, text') /\
    filter b64_letter text' = rest /\ (length text' < length text)%nat /\
    (b64_closed text <-> b64_closed text').
Proof.
  revert x xs. induction text as [|c text IH]; intros x xs; [done|].
  rewrite filter_cons. cbn [b64_codes]. case_decide as Hc.
  - intros [= -> Hf]. rewrite (proj2 (Z.eqb_neq _ _) Hc). destruct xs as [|y ys].
    + exists text. cbn [length b64_codes]. destruct text; (split; [done|]; split; [done|]);
        (split; [cbn; lia|]); [by cbn|]. by apply b64_closed_cons.
    + cbn [length]. destruct (IH y ys Hf) as (text' & -> & Hr & Hl & Hcl). exists text'.
      split; [done|]. split; [done|]. split; [cbn; lia|].
      rewrite b64_closed_cons; [done|]. by intros ->.
  - intros Hf. rewrite (proj2 (Z.eqb_eq _ _)) by (unfold b64_letter in Hc; lia).
    destruct (IH x xs Hf) as (text' & E & Hr & Hl & Hcl). exists text'.
    split; [done|]. split; [done|]. split; [cbn; lia|].
    rewrite b64_closed_cons; [done|]. by intros ->.
Qed.

Lemma b64_codes_none j text : filter b64_letter text = [] -> b64_codes (S j) text = None.
Proof.
  induction text as [|c text IH]; [done|]. rewrite filter_cons. case_decide as Hc; [done|].
  intros Hf. cbn [b64_codes]. rewrite (proj2 (Z.eqb_eq _ _)) by (unfold b64_letter in Hc; lia).
  by apply IH.
Qed.

Lemma b64_not_closed text : filter b64_letter text = [] -> text <> [] -> ~ b64_closed text.
Proof.
  intros Hf Hne Hc. destruct (last_is_Some text) as [_ [c Hl]]; [done|].
  unfold b64_closed in Hc. rewrite Hl in Hc. cbn in Hc.
  apply last_Some in Hl as [l ->]. rewrite filter_app, filter_cons_True in Hf by done.
  by destruct (filter b64_letter l).
Qed.

Lemma b64_bytes_3 a b c :
  0 <= a < 256 -> 0 <= b < 256 -> 0 <= c < 256 ->
  let v := Z.shiftl a 16 .| Z.shiftl b 8 .| c in
  (0 <= v >>> 18 < 64 /\ 0 <= v < 2 ^ 24) /\
  b64_bytes (v >>> 18) ((v >>> 12) .& 0x3f) ((v >>> 6) .& 0x3f) (v .& 0x3f) = LOk [a; b; c].
Proof.
  intros Ha Hb Hc v.
  assert (Hv : v = a * 2 ^ 16 + b * 2 ^ 8 + c).
  { unfold v. rewrite <- Z.lor_assoc, (lor_shiftl b c 8), lor_shiftl by lia. lia. }
  clearbody v. rewrite !Z.shiftr_div_pow2 by lia. change 0x3f with (Z.ones 6).
  rewrite !land_ones_mod by lia. split; [zdiv|]. unfold b64_bytes.
  rewrite !filter_cons_False by zdiv. cbn [filter length Z.of_nat Z.eqb].
  assert (E : Z.shiftl (v / 2 ^ 18) 18 .| Z.shiftl ((v / 2 ^ 12) mod 2 ^ 6) 12 .|
    Z.shiftl ((v / 2 ^ 6) mod 2 ^ 6) 6 .| (v mod 2 ^ 6) = v).
  { rewrite <- !Z.lor_assoc, (lor_shiftl _ (v mod 2 ^ 6)), (lor_shiftl _ _ 12), lor_shiftl by zdiv. zdiv. }
  rewrite E. unfold u8. change 0xff with (Z.ones 8). rewrite !land_ones_mod, !Z.shiftr_div_pow2 by lia.
  f_equal. repeat f_equal; zdiv.
Qed.

Lemma b64_bytes_2 a b :
  0 <= a < 256 -> 0 <= b < 256 ->
  let v := Z.shiftl a 8 .| b in
  (0 <= v >>> 10 < 64 /\ 0 <= v < 2 ^ 16 /\ 0 <= Z.shiftl (v .& 0xf) 2 < 64) /\
  b64_bytes (v >>> 10) ((v >>> 4) .& 0x3f) (Z.shiftl (v .& 0xf) 2) (-2) = LOk [a; b].
Proof.
  intros Ha Hb v.
  assert (Hv : v = a * 2 ^ 8 + b) by (unfold v; by rewrite lor_shiftl by lia).
  clearbody v. rewrite !Z.shiftr_div_pow2 by lia. change 0x3f with (Z.ones 6).
  change 0xf with (Z.ones 4). rewrite !land_ones_mod by lia.
  rewrite Z.shiftl_mul_pow2 by lia. split; [zdiv|]. unfold b64_bytes.
  rewrite !filter_cons_False, filter_cons_True by (done || zdiv). cbn [filter length Z.of_nat Z.eqb Pos.eqb].
  change 3 with (Z.ones 2). rewrite land_ones_mod by lia.
  replace (v mod 2 ^ 4 * 2 ^ 2 mod 2 ^ 2) with 0 by zdiv. cbn [Z.eqb negb orb Pos.eqb Pos.of_succ_nat].
  rewrite !Z.shiftr_div_pow2 by lia.
  assert (E : Z.shiftl (v / 2 ^ 10) 10 .| Z.shiftl ((v / 2 ^ 4) mod 2 ^ 6) 4 .|
    (v mod 2 ^ 4 * 2 ^ 2 / 2 ^ 2) = v).
  { rewrite <- !Z.lor_assoc, (lor_shiftl _ _ 4), lor_shiftl by zdiv. zdiv. }
  rewrite E. unfold u8. change 0xff with (Z.ones 8). rewrite !land_ones_mod by lia.
  f_equal. repeat f_equal; zdiv.
Qed.

Lemma b64_bytes_1 a :
  0 <= a < 256 ->
  (0 <= a >>> 2 < 64 /\ 0 <= Z.shiftl (a .& 3) 4 < 64) /\
  b64_bytes (a >>> 2) (Z.shiftl (a .& 3) 4) (-2) (-2) = LOk [a].
Proof.
  intros Ha.
  assert (H : (0 <=? a >>> 2) && (a >>> 2 <? 64) && (0 <=? Z.shiftl (a .& 3) 4) &&
    (Z.shiftl (a .& 3) 4 <? 64) && bool_decide (b64_bytes (a >>> 2) (Z.shiftl (a .& 3) 4) (-2) (-2) = LOk [a]) = true).
  { pattern a. revert a Ha. apply byte_forall. by vm_compute. }
  rewrite !andb_true_iff, bool_decide_eq_true in H. destruct H as [? ?]. split; [lia|done].
Qed.

(** One group of the encoding and what it decodes to. *)
Lemma b64_group text :
  bytes text -> text <> [] ->
  exists c0 c1 c2 c3 out text',
    lb64encode text = c0 :: [c1; c2; c3] ++ lb64encode text' /\ text = out ++ text' /\ out <> [] /\
    Forall b64_letter [c0; c1; c2; c3] /\
    b64_bytes (b64index c0) (b64index c1) (b64index c2) (b64index c3) = LOk out.
Proof.
  assert (Hm : forall v, 0 <= v .& 0x3f < 64) by (intros v; change 0x3f with (Z.ones 6); rewrite land_ones_mod; zdiv).
  assert (Heq : b64_letter 61) by done.
  intros Hb Hne. destruct text as [|a [|b [|c text]]]; [done| | |].
  - apply bytes_cons in Hb as [Ha _]. destruct (b64_bytes_1 a Ha) as [[H1 H2] H3].
    exists (b64char (a >>> 2)), (b64char (Z.shiftl (a .& 3) 4)), 61, 61, [a], [].
    split; [done|]. split; [done|]. split; [done|].
    split; [repeat constructor; (done || by apply b64_letter_char)|].
    by rewrite !b64index_char.
  - apply bytes_cons in Hb as [Ha [Hb _]%bytes_cons]. destruct (b64_bytes_2 a b Ha Hb) as [(H1 & _ & H2) H3].
    eexists _, _, _, 61, [a; b], []. split; [reflexivity|]. split; [done|]. split; [done|].
    split; [repeat constructor; (done || by apply b64_letter_char)|].
    by rewrite !b64index_char.
  - apply bytes_cons in Hb as [Ha [Hb [Hc _]%bytes_cons]%bytes_cons].
    destruct (b64_bytes_3 a b c Ha Hb Hc) as [(H1 & _) H3].
    eexists _, _, _, _, [a; b; c], text. split; [reflexivity|]. split; [done|]. split; [done|].
    split; [repeat constructor; (done || by apply b64_letter_char)|].
    by rewrite !b64index_char.
Qed.

Lemma b64_loop_spec fuel text bs :
  (length text <= fuel)%nat -> bytes bs -> filter b64_letter text = lb64encode bs ->
  b64_loop fuel text = if decide (b64_closed text) then LOk bs else LErr.
Proof.
  revert text bs. induction fuel as [|fuel IH]; intros text bs Hl Hb Hf.
  - destruct text; [|cbn in Hl; lia]. destruct bs as [|b bs]; [done|].
    destruct (b64_group (b :: bs)) as (c0 & ? & ? & ? & ? & ? & E & _); [done|done|]. by rewrite E in Hf.
  - destruct (decide (bs = [])) as [->|Hne].
    + destruct text as [|c text]; [done|]. cbn [b64_loop]. rewrite (b64_codes_none 3) by done.
      rewrite decide_False; [done|]. by apply b64_not_closed.
    + destruct (b64_group bs Hb Hne) as (c0 & c1 & c2 & c3 & out & bs' & E & -> & Ho & _ & Hd).
      rewrite E in Hf.
      destruct (b64_codes_spec text c0 [c1; c2; c3] _ Hf) as (text' & E' & Hf' & Hl' & Hcl).
      destruct text as [|c text]; [cbn in Hl'; lia|]. cbn [b64_loop length] in *. rewrite E'. cbn [fmap list_fmap].
      rewrite Hd, (IH text' bs') by (done || lia || by apply Forall_app in Hb as [_ ?]).
      destruct (decide (b64_closed text')), (decide (b64_closed (c :: text))); tauto || done.
Qed.

(** Hexadecimal decoding looks at bit 1 of the size where bit 0 is meant. *)
Lemma hex_decode_odd bs :
  bytes bs -> lfromhex (ltohex bs) = if Z.even (zlen bs) then LOk bs else LErr.
Proof.
  intros Hb. unfold lfromhex. rewrite ltohex_length, fromhex_ltohex by done.
  assert (E : (2 * zlen bs) .& 2 = 2 * (zlen bs mod 2)).
  { replace (2 * zlen bs) with (Z.shiftl (zlen bs) 1) by (rewrite Z.shiftl_mul_pow2; lia).
    transitivity (Z.shiftl (zlen bs) 1 .& Z.shiftl (Z.ones 1) 1); [done|].
    rewrite <- Z.shiftl_land, Z.land_ones, Z.shiftl_mul_pow2 by lia. change (2 ^ 1) with 2. lia. }
  rewrite E, Zmod_odd, <- Z.negb_odd. by destruct (Z.odd (zlen bs)).
Qed.

(** C16: the encodings are inverted.  base64 decodes any text whose letters are
    an encoding: characters outside the alphabet are skipped, and the text
    decodes to what was encoded when it ends with a letter; a text that goes on
    after its last letter (with a line end, say) is refused.  Hexadecimal
    decoding inverts encoding for a text of even length, and refuses the
    encoding of a text of odd length. *)
Theorem encodings_roundtrip bs :
  bytes bs ->
  (forall text, filter b64_letter text = lb64encode bs ->
     lb64decode text = if decide (b64_closed text) then LOk bs else LErr) /\
  lfromhex (ltohex bs) = if Z.even (zlen bs) then LOk bs else LErr.
Proof. intros Hb. split; [|by apply hex_decode_odd]. intros text Hf. by apply b64_loop_spec. Qed.

(** "Man" with a line end inside, and the same with the line end behind; a text
    of three bytes in hexadecimal. *)
Lemma encodings_roundtrip_witness :
  lb64decode [84; 87; 10; 70; 117] = LOk [77; 97; 110] /\
  lb64decode [84; 87; 70; 117; 10] = LErr /\ lfromhex (ltohex [77; 97; 110]) = LErr.
Proof.
  destruct (encodings_roundtrip [77; 97; 110]) as [H1 H2]; [repeat constructor; lia|].
  split; [apply (H1 [84; 87; 10; 70; 117]); by vm_compute|]. split; [apply (H1 [84; 87; 70; 117; 10]); by vm_compute|exact H2].
Defined.

(** ** Key exchange *)

Lemma mul_loop_spec fuel a b m :
  0 <= a <= P -> 0 <= b < 2 ^ Z.of_nat fuel -> 0 <= m < P ->
  mul_loop fuel a b m = Some ((m + a * b) mod P).
Proof.
  revert a b m. induction fuel as [|fuel IH]; intros a b m Ha Hb Hm.
  - assert (b = 0) as -> by (change (2 ^ Z.of_nat 0) with 1 in Hb; lia).
    cbn. rewrite Z.mul_0_r, Z.add_0_r. by rewrite Z.mod_small.
  - cbn [mul_loop]. destruct (Z.eqb_spec b 0) as [->|Hne].
    { rewrite Z.mul_0_r, Z.add_0_r. by rewrite Z.mod_small. }
    assert (HP : P < 2 ^ 64) by (unfold P; lia).
    rewrite Nat2Z.inj_succ, Z.pow_succ_r in Hb by lia.
    rewrite Z.shiftr_div_pow2 by lia. change (2 ^ 1) with 2. change 1 with (Z.ones 1) at 1.
    rewrite Z.land_ones by lia. change (2 ^ 1) with 2.
    set (m' := if negb (b mod 2 =? 0) then _ else m).
    set (a' := if a >=? u64 (P - a) then _ else _).
    assert (Hm' : 0 <= m' < P /\ exists q, m' = m + a * (b mod 2) + q * P).
    { unfold m', u64. rewrite (Z.mod_small (P - a)) by lia.
      destruct (Z.eqb_spec (b mod 2) 0) as [->|Hb1]; cbn [negb].
      - split; [done|]. exists 0. lia.
      - replace (b mod 2) with 1 by zdiv. destruct (Z.geb_spec m (P - a)); rewrite Z.mod_small by lia.
        + split; [lia|]. exists (-1). lia.
        + split; [lia|]. exists 0. lia. }
    assert (Ha' : 0 <= a' <= P /\ exists q, a' = 2 * a + q * P).
    { unfold a', u64. rewrite (Z.mod_small (P - a)) by lia.
      destruct (Z.geb_spec a (P - a)).
      - rewrite Zminus_mod_idemp_l, Z.mod_small by lia. split; [lia|]. exists (-1). lia.
      - rewrite Z.mod_small by lia. split; [lia|]. exists 0. lia. }
    clearbody m' a'. destruct Hm' as [Hm' [q1 E1]], Ha' as [Ha' [q2 E2]].
    rewrite IH by (done || zdiv). f_equal. rewrite E1, E2.
    assert (Hb2 : b = 2 * (b / 2) + b mod 2) by (apply Z_div_mod_eq_full).
    rewrite <- (Z_mod_plus_full (m + a * b) (q1 + q2 * (b / 2))). f_equal.
    replace (a * b) with (a * (2 * (b / 2) + b mod 2)) by (by rewrite <- Hb2). ring.
Qed.

Lemma mul_mod_p_spec a b :
  0 <= a <= P -> 0 <= b < 2 ^ 64 -> mul_mod_p a b = Some ((a * b) mod P).
Proof. intros Ha Hb. apply (mul_loop_spec 64); [done|done|unfold P; lia]. Qed.

(** Squaring and multiplying. *)
Lemma pow_half p a b t :
  0 < p -> 1 <= b / 2 -> t mod p = a ^ (b / 2) mod p ->
  (b mod 2 = 0 -> (t * t) mod p = a ^ b mod p) /\
  (b mod 2 = 1 -> ((t * t) mod p * a) mod p = a ^ b mod p).
Proof.
  intros Hp Hb Et.
  assert (Eb : b = 2 * (b / 2) + b mod 2) by (apply Z_div_mod_eq_full).
  assert (Esq : (t * t) mod p = (a ^ (b / 2) * a ^ (b / 2)) mod p).
  { rewrite Z.mul_mod, Et, <- Z.mul_mod by lia. done. }
  rewrite Esq, <- Z.pow_add_r by lia. split; intros E; rewrite E in Eb.
  - f_equal. f_equal. lia.
  - rewrite Zmult_mod_idemp_l. rewrite <- (Z.pow_1_r a) at 2. rewrite <- Z.pow_add_r by lia.
    f_equal. f_equal. lia.
Qed.

(** The power, and that it is reduced when the base is. *)
Lemma pow_mod_p_spec fuel a b :
  0 <= a <= P -> 1 <= b < 2 ^ Z.of_nat fuel ->
  exists r, pow_mod_p fuel a b = Some r /\ 0 <= r <= P /\ (a < P -> r < P) /\ r mod P = a ^ b mod P.
Proof.
  intros Ha. revert b. induction fuel as [|fuel IH]; intros b Hb.
  { change (2 ^ Z.of_nat 0) with 1 in Hb. lia. }
  assert (HP : 0 < P < 2 ^ 64) by (unfold P; lia).
  rewrite Nat2Z.inj_succ, Z.pow_succ_r in Hb by lia.
  cbn [pow_mod_p]. destruct (Z.eqb_spec b 1) as [->|Hb1].
  { exists a. rewrite Z.pow_1_r. done. }
  rewrite Z.shiftr_div_pow2 by lia. change (2 ^ 1) with 2.
  assert (Hb2 : 1 <= b / 2 < 2 ^ Z.of_nat fuel).
  { split; [apply Z.div_le_lower_bound|apply Z.div_lt_upper_bound]; lia. }
  pose proof (Z.mod_pos_bound b 2 ltac:(lia)) as Hbm.
  destruct (IH (b / 2) Hb2) as (t & E & Ht & Hr & Et).
  pose proof (Z.mod_pos_bound (t * t) P ltac:(lia)) as Htt.
  destruct (pow_half P a b t) as [Heven Hodd]; [lia|lia|done|].
  exists (if negb (b mod 2 =? 0) then ((t * t) mod P * a) mod P else (t * t) mod P).
  split.
  - apply bind_Some. exists t. split; [exact E|].
    apply bind_Some. exists ((t * t) mod P). split; [apply mul_mod_p_spec; lia|].
    destruct (negb _); [|done]. apply mul_mod_p_spec; lia.
  - destruct (Z.eqb_spec (b mod 2) 0) as [E0|E0]; cbn [negb].
    + rewrite Z.mod_mod, Heven by lia. split; [lia|]. split; [lia|done].
    + pose proof (Z.mod_pos_bound ((t * t) mod P * a) P ltac:(lia)) as Hta.
      rewrite Z.mod_mod by lia. split; [lia|]. split; [lia|]. apply Hodd. lia.
Qed.

Lemma powmodp_spec a b :
  0 <= a < 2 ^ 64 -> 1 <= b < 2 ^ 64 ->
  exists r, powmodp a b = Some r /\ 0 <= r <= P /\ (a <> P -> r < P) /\ r mod P = a ^ b mod P.
Proof.
  intros Ha Hb. unfold powmodp. assert (HP : 0 < P < 2 ^ 64) by (unfold P; lia).
  set (a' := if a >? P then a mod P else a).
  assert (H : 0 <= a' <= P /\ (a <> P -> a' < P) /\ a' mod P = a mod P).
  { unfold a'. pose proof (Z.mod_pos_bound a P). destruct (Z.gtb_spec a P).
    - rewrite Z.mod_mod by lia. lia.
    - split; [lia|]. split; [lia|done]. }
  destruct H as (Ha' & Hlt & Em).
  destruct (pow_mod_p_spec 64 a' b Ha' Hb) as (r & E & Hr & Hr' & Er).
  exists r. split; [done|]. split; [done|]. split; [tauto|].
  rewrite Er. by rewrite (Zpower_mod a'), Em, <- Zpower_mod by lia.
Qed.

Lemma testbit_land_byte x i : 0 <= i -> Z.testbit (x .& 0xff) i = (i <? 8) && Z.testbit x i.
Proof. intros Hi. change 0xff with (Z.ones 8). rewrite Z.land_ones by lia. by apply testbit_u8. Qed.

(** Bytes of a word and back. *)
Lemma le32_bytes r :
  le32 (r .& 0xff) ((r >>> 8) .& 0xff) ((r >>> 16) .& 0xff) ((r >>> 24) .& 0xff) = u32 r.
Proof.
  unfold le32. apply Z.bits_inj'. intros i Hi.
  rewrite !Z.lor_spec, !testbit_shl, testbit_u32, testbit_land_byte by lia.
  destruct (Z.ltb_spec i 32) as [H32|H32]; cbn [andb].
  2:{ by rewrite (proj2 (Z.ltb_ge i 8)) by lia. }
  destruct (Z.ltb_spec i 8), (Z.leb_spec 8 i), (Z.leb_spec 16 i), (Z.leb_spec 24 i); try lia;
    cbn [andb orb]; rewrite ?testbit_land_byte, ?Z.shiftr_spec by lia;
    rewrite ?Z.sub_add; repeat case_match; cbn [andb orb]; rewrite ?orb_false_r; done || lia.
Qed.

Lemma word_le32 b0 b1 b2 b3 : 0 <= b0 < 256 -> word (le32 b0 b1 b2 b3).
Proof.
  intros H. unfold le32. repeat apply word_lor; auto using word_shl. unfold word. lia.
Qed.

Lemma join64_bound w0 w1 : word w0 -> word w1 -> 0 <= join64 (w0, w1) < 2 ^ 64.
Proof.
  unfold word, join64. intros H0 H1. cbn [fst snd].
  rewrite Z.lor_comm, lor_shiftl by lia. lia.
Qed.

Lemma read_words_bound s w : bytes s -> read_words s = Some w -> 0 <= join64 w < 2 ^ 64.
Proof.
  intros Hb. unfold read_words. do 9 (destruct s as [|? s]; try done).
  intros [= <-]. repeat (apply bytes_cons in Hb as [? Hb]). apply join64_bound; by apply word_le32.
Qed.

Lemma read_push64 r :
  0 <= r < 2 ^ 64 -> exists w, read_words (push64 r) = Some w /\ join64 w = r.
Proof.
  intros Hr. eexists. split; [reflexivity|]. cbv beta. rewrite Z.shiftr_0_r.
  pose proof (le32_bytes (r >>> 32)) as H. rewrite !Z.shiftr_shiftr in H by lia. cbn [Z.add Pos.add] in H.
  change (32 + 8) with 40 in H. change (32 + 16) with 48 in H. change (32 + 24) with 56 in H.
  rewrite le32_bytes, H. unfold join64. cbn [fst snd].
  rewrite Z.lor_comm, lor_shiftl by (try apply word_u32; lia). unfold u32.
  rewrite Z.shiftr_div_pow2 by lia. zdiv.
Qed.

(** 5 is invertible modulo [P]. *)
Lemma pow5_nonzero n : 0 <= n -> G ^ n mod P <> 0.
Proof.
  intros Hn H.
  assert (E : (G * ((2 * P + 1) / 5)) mod P = 1 mod P) by by vm_compute.
  assert (E' : (G ^ n * ((2 * P + 1) / 5) ^ n) mod P = 1).
  { rewrite <- Z.pow_mul_l, Zpower_mod, E, <- Zpower_mod, Z.pow_1_l by (unfold P; lia). by vm_compute. }
  rewrite Z.mul_mod, H in E' by (unfold P; lia). by rewrite Z.mul_0_l in E'.
Qed.

(** What a side sends. *)
Lemma ldhexchange_spec x wx :
  bytes x -> read_words x = Some wx -> join64 wx <> 0 ->
  ldhexchange x = Some (LOk (push64 (G ^ join64 wx mod P))) /\
  exists w, read_words (push64 (G ^ join64 wx mod P)) = Some w /\ join64 w = G ^ join64 wx mod P.
Proof.
  intros Hb Hx Hnz. pose proof (read_words_bound _ _ Hb Hx) as Hw. unfold ldhexchange. rewrite Hx.
  rewrite (proj2 (Z.eqb_neq _ _) Hnz).
  destruct (powmodp_spec G (join64 wx)) as (r & -> & Hr & Hlt & Er); [unfold G; lia|lia|].
  specialize (Hlt ltac:(done)). rewrite Z.mod_small in Er by lia. cbn [mbind option_bind].
  rewrite <- Er. split; [done|]. apply read_push64. unfold P in *. lia.
Qed.

(** What a side computes from a value it was sent. *)
Lemma ldhsecret_spec g y wy n :
  read_words g = Some n -> 0 < join64 n < P -> bytes y -> read_words y = Some wy -> join64 wy <> 0 ->
  ldhsecret g y = Some (LOk (push64 (join64 n ^ join64 wy mod P))).
Proof.
  intros Hg Hn Hb Hy Hnz. pose proof (read_words_bound _ _ Hb Hy) as Hw. unfold ldhsecret.
  rewrite Hg, Hy, !(proj2 (Z.eqb_neq _ _)) by lia. cbn [orb].
  destruct (powmodp_spec (join64 n) (join64 wy)) as (r & -> & Hr & Hlt & Er); [unfold P in *; lia|lia|].
  specialize (Hlt ltac:(lia)). rewrite Z.mod_small in Er by lia. cbn [mbind option_bind].
  by rewrite Er.
Qed.

(** C15: the two sides of a key exchange compute the same secret, the power of
    the generator to the product of their keys modulo the prime: the doubling
    multiplication never overflows its 64 bits and its loops end. *)
Theorem dh_agreement x y wx wy :
  bytes x -> bytes y -> read_words x = Some wx -> read_words y = Some wy ->
  join64 wx <> 0 -> join64 wy <> 0 ->
  exists gx gy,
    ldhexchange x = Some (LOk gx) /\ ldhexchange y = Some (LOk gy) /\
    ldhsecret gx y = Some (LOk (push64 (G ^ (join64 wx * join64 wy) mod P))) /\
    ldhsecret gy x = Some (LOk (push64 (G ^ (join64 wx * join64 wy) mod P))).
Proof.
  intros Hbx Hby Hx Hy Hnx Hny.
  pose proof (read_words_bound _ _ Hbx Hx). pose proof (read_words_bound _ _ Hby Hy).
  assert (HG : forall n, 0 <= n -> 0 < G ^ n mod P < P).
  { intros n Hn. pose proof (pow5_nonzero n Hn). pose proof (Z.mod_pos_bound (G ^ n) P ltac:(done)). lia. }
  destruct (ldhexchange_spec x wx) as (Ex & w & Hw & Jw); [done|done|done|].
  destruct (ldhexchange_spec y wy) as (Ey & v & Hv & Jv); [done|done|done|].
  eexists _, _. split; [apply Ex|]. split; [apply Ey|].
  rewrite (ldhsecret_spec _ y wy w), (ldhsecret_spec _ x wx v) by (done || rewrite ?Jw, ?Jv; apply HG; lia).
  rewrite Jw, Jv, <- !Zpower_mod, <- !Z.pow_mul_r by (done || lia).
  by rewrite (Z.mul_comm (join64 wy)).
Qed.

Lemma dh_agreement_witness :
  exists gx gy, ldhexchange [1;2;3;4;5;6;7;8] = Some (LOk gx) /\ ldhexchange [9;0;0;0;0;0;0;255] = Some (LOk gy) /\
    ldhsecret gx [9;0;0;0;0;0;0;255] = ldhsecret gy [1;2;3;4;5;6;7;8].
Proof.
  destruct (dh_agreement [1;2;3;4;5;6;7;8] [9;0;0;0;0;0;0;255] (0x04030201, 0x08070605) (9, 0xff000000))
    as (gx & gy & H1 & H2 & H3 & H4);
    [repeat constructor; lia|repeat constructor; lia|reflexivity|reflexivity|by vm_compute|by vm_compute|].
  exists gx, gy. split; [exact H1|]. split; [exact H2|]. rewrite H3, H4. reflexivity.
Defined.

Example dh_vector :
  ldhexchange [2;0;0;0;0;0;0;0] = Some (LOk [25;0;0;0;0;0;0;0]).
Proof. by vm_compute. Qed.
