(* ===== verification/Dump.v ===== *)
(** * Hexadecimal dumps (src/dump.h)

    [dump] prints a block of memory in lines of sixteen bytes; the lines are
    the strings given to [print].  [None] is a read behind the block. *)

From stdpp Require Import strings.
From S2P Require Import Prelude.

Definition LINE_SIZE : Z := 0x10.

(** [%c] *)
Definition char (z : Z) : string := String (Ascii.ascii_of_N (Z.to_N z)) EmptyString.
Definition newline : string := char 10.

Definition hex_digit (d : Z) : string := char (if d <? 10 then 48 + d else 87 + d).

(** [%0nx] of a number of at most [n] digits. *)
Fixpoint hex (n : nat) (z : Z) : string :=
  match n with O => EmptyString | S n => hex n (z / 16) +:+ hex_digit (z mod 16) end.

Definition concat (l : list string) : string := foldr String.app EmptyString l.

(** The columns of byte [i]: what the two loops of [dump_line] print. *)
Definition hex_column (data : list Z) (size i : Z) : option string :=
  cell ← (if i >? size then Some "  " else c ← aget data i; Some (hex 2 c));
  Some ((if i mod 8 =? 0 then " " else EmptyString) +:+ cell +:+ (if negb (i mod 2 =? 0) then " " else EmptyString)).

Definition text_column (data : list Z) (size i : Z) : option string :=
  if i >? size then Some " "
  else
    c ← aget data i;
    Some (if (c >=? 32) && (c <=? 127) then char c else ".").

Definition dump_line (line : Z) (data : list Z) (size : Z) : option string :=
  cells ← mapM (hex_column data size) (seqZ 0 LINE_SIZE);
  text ← mapM (text_column data size) (seqZ 0 LINE_SIZE);
  Some (hex 8 (line * LINE_SIZE) +:+ ": " +:+ concat cells +:+ "  " +:+ concat text +:+ newline +:+
        (if line mod LINE_SIZE =? LINE_SIZE - 1 then newline else EmptyString)).

Definition dump (data : list Z) (size : Z) : option (list string) :=
  let line := Z.quot size LINE_SIZE in
  full ← mapM (fun i => dump_line i (drop (Z.to_nat (i * LINE_SIZE)) data) LINE_SIZE) (seqZ 0 line);
  if size >? line * LINE_SIZE then
    last ← dump_line line (drop (Z.to_nat (line * LINE_SIZE)) data) (Z.rem size LINE_SIZE);
    Some (full ++ [last])
  else Some full.

(** ** What is read *)

Lemma mapM_total {A B} (f : A -> option B) l :
  (forall x, x ∈ l -> is_Some (f x)) -> is_Some (mapM f l).
Proof. intros Hf. apply mapM_is_Some. by apply Forall_forall. Qed.

(** A line of [size] bytes reads one more, unless it is full. *)
Lemma dump_line_ok line data size :
  0 <= size -> Z.min (size + 1) LINE_SIZE <= zlen data -> is_Some (dump_line line data size).
Proof.
  unfold LINE_SIZE. intros Hs Hl. unfold dump_line.
  assert (Hget : forall i, i ∈ seqZ 0 LINE_SIZE -> (i >? size) = false -> is_Some (aget data i)).
  { intros i Hi%elem_of_seqZ Hb. unfold LINE_SIZE in Hi. unfold aget. destruct (Z.leb_spec 0 i); [|lia].
    apply lookup_lt_is_Some. lia. }
  destruct (mapM_total (hex_column data size) (seqZ 0 LINE_SIZE)) as [cells ->].
  { intros i Hi. unfold hex_column. destruct (i >? size) eqn:Hb; [by eexists|].
    destruct (Hget i Hi Hb) as [c ->]. by eexists. }
  cbn [mbind option_bind].
  destruct (mapM_total (text_column data size) (seqZ 0 LINE_SIZE)) as [text ->]; [|by eexists].
  intros i Hi. unfold text_column. destruct (i >? size) eqn:Hb; [by eexists|].
  destruct (Hget i Hi Hb) as [c ->]. by eexists.
Qed.

(** A block is dumped if its size is a multiple of sixteen, or if there is one
    byte more behind it. *)
Lemma dump_ok data size :
  0 <= size <= zlen data -> size mod LINE_SIZE = 0 \/ size < zlen data -> is_Some (dump data size).
Proof.
  unfold LINE_SIZE. intros Hs Hm. unfold dump, LINE_SIZE.
  rewrite Z.quot_div_nonneg, Z.rem_mod_nonneg by lia.
  pose proof (Z.div_mod size 16 ltac:(lia)) as Hd. pose proof (Z.mod_pos_bound size 16 ltac:(lia)).
  edestruct (mapM_total (fun i => dump_line i (drop (Z.to_nat (i * 16)) data) 16) (seqZ 0 (size / 16))) as [full E].
  { intros i Hi%elem_of_seqZ. apply dump_line_ok; unfold LINE_SIZE; [lia|]. rewrite length_drop. lia. }
  rewrite E. cbn [mbind option_bind].
  destruct (Z.gtb_spec size (size / 16 * 16)); [|by eexists].
  destruct (dump_line_ok (size / 16) (drop (Z.to_nat (size / 16 * 16)) data) (size mod 16)) as [last ->]; [lia| |by eexists].
  rewrite length_drop. unfold LINE_SIZE. lia.
Qed.

(** The bound [i > size] should be [i >= size]: the dump of a block whose size
    is no multiple of sixteen reads the byte behind it. *)
Example dump_overread :
  dump (ascii "hello") 5 = None /\ is_Some (dump (ascii "sixteen bytes...") 16) /\
  (dump_line 0 (ascii "hello!") 5 = Some ("00000000:  6865 6c6c 6f21                             hello!          " +:+ newline)).
Proof. vm_compute. split; [done|]. split; [by eexists|]. reflexivity. Qed.
