(* ===== verification/Pixel.v ===== *)
(** * Services and messages (src/pixel.c, src/harbor.c, src/monitor.c, src/log.c)

    A service ([struct pixel]) is its address; [w_ctx] is the heap of services,
    [w_mem] the heap of payloads ([pixel_alloc]).  A function is a [prog], a
    computation on the world; [None] is undefined behaviour or an endless
    recursion.  Service modules, callbacks, files and the C allocator are the
    class [Runtime]; what src/log.c writes into a log file is here as
    well.  The functions run here without other threads; [Sched] has the
    interleaving of the dispatching threads. *)

From S2P Require Import Prelude Queue Timer Handle Dump.

(** ** The world *)

Definition MSG_TYPE_MASK : Z := Z.shiftr (2 ^ 64 - 1) 8.
Definition MSG_TYPE_SHIFT : Z := (8 - 1) * 8.

Definition PIXEL_TEXT : Z := 0.
Definition PIXEL_RESPONSE : Z := 1.
Definition PIXEL_SOCKET : Z := 6.
Definition PIXEL_TAG_DONTCOPY : Z := 0x10000.
Definition PIXEL_TAG_ALLOCSESSION : Z := 0x20000.

(** [struct pixel]; a null callback is 0. *)
Record pixel := Pixel {
  c_queue : Z;
  c_module : Z;
  c_inst : Z;
  c_handle : Z;
  c_session : Z;
  c_cb : Z;
  c_ud : Z;
  c_endless : Z;
  c_logfile : Z
}.

Definition pixel0 : pixel := Pixel 0 0 0 0 0 0 0 0 0.

(** [struct timer_event]. *)
Record timer_event := TimerEvent { te_session : Z; te_handle : Z }.

(** [struct harbor H]. *)
Record harbor_state := Harbor { hb_hctx : Z; hb_harbor : Z }.

Record pworld := PWorld {
  G_total : Z;
  G_log : Z;
  w_ctx : gmap Z pixel;
  w_mem : gmap Z (list Z);
  w_reg : hglobal;
  w_queue : qworld;
  w_timer : timer timer_event;
  w_harbor : harbor_state;
  w_env : gmap string string
}.

Definition set_total t w : pworld :=
  PWorld t (G_log w) (w_ctx w) (w_mem w) (w_reg w) (w_queue w) (w_timer w) (w_harbor w) (w_env w).
Definition set_log l w : pworld :=
  PWorld (G_total w) l (w_ctx w) (w_mem w) (w_reg w) (w_queue w) (w_timer w) (w_harbor w) (w_env w).
Definition set_ctx c w : pworld :=
  PWorld (G_total w) (G_log w) c (w_mem w) (w_reg w) (w_queue w) (w_timer w) (w_harbor w) (w_env w).
Definition set_mem m w : pworld :=
  PWorld (G_total w) (G_log w) (w_ctx w) m (w_reg w) (w_queue w) (w_timer w) (w_harbor w) (w_env w).
Definition set_reg r w : pworld :=
  PWorld (G_total w) (G_log w) (w_ctx w) (w_mem w) r (w_queue w) (w_timer w) (w_harbor w) (w_env w).
Definition set_queue q w : pworld :=
  PWorld (G_total w) (G_log w) (w_ctx w) (w_mem w) (w_reg w) q (w_timer w) (w_harbor w) (w_env w).
Definition set_timer t w : pworld :=
  PWorld (G_total w) (G_log w) (w_ctx w) (w_mem w) (w_reg w) (w_queue w) t (w_harbor w) (w_env w).
Definition set_harbor h w : pworld :=
  PWorld (G_total w) (G_log w) (w_ctx w) (w_mem w) (w_reg w) (w_queue w) (w_timer w) h (w_env w).
Definition set_env e w : pworld :=
  PWorld (G_total w) (G_log w) (w_ctx w) (w_mem w) (w_reg w) (w_queue w) (w_timer w) (w_harbor w) e.

(** ** Programs *)

Definition prog (A : Type) : Type := pworld -> option (A * pworld).

#[export] Instance prog_ret : MRet prog := fun A x w => Some (x, w).
#[export] Instance prog_bind : MBind prog := fun A B f m w => '(x, w) ← m w; f x w.

Definition fail {A} : prog A := fun _ => None.
Definition gets {A} (f : pworld -> A) : prog A := fun w => Some (f w, w).
Definition modify (f : pworld -> pworld) : prog unit := fun w => Some (tt, f w).
Definition lift {A} (x : option A) : prog A := fun w => a ← x; Some (a, w).

(** An operation of a component, on its part of the world. *)
Definition on_reg {A} (f : hglobal -> option (A * hglobal)) : prog A :=
  fun w => '(x, r) ← f (w_reg w); Some (x, set_reg r w).
Definition on_queue {A} (f : qworld -> option (A * qworld)) : prog A :=
  fun w => '(x, q) ← f (w_queue w); Some (x, set_queue q w).
Definition on_queue_ (f : qworld -> option qworld) : prog unit :=
  on_queue (fun q => q ← f q; Some (tt, q)).

Definition on_timer (f : timer timer_event -> option (timer timer_event)) : prog unit :=
  fun w => t ← f (w_timer w); Some (tt, set_timer t w).

(** [ctx->...] *)
Definition get (ctx : Z) : prog pixel := fun w => c ← w_ctx w !! ctx; Some (c, w).
Definition put (ctx : Z) (c : pixel) : prog unit := modify (fun w => set_ctx (<[ctx := c]> (w_ctx w)) w).

Definition with_session s (c : pixel) : pixel :=
  Pixel (c_queue c) (c_module c) (c_inst c) (c_handle c) s (c_cb c) (c_ud c) (c_endless c) (c_logfile c).
Definition with_endless e (c : pixel) : pixel :=
  Pixel (c_queue c) (c_module c) (c_inst c) (c_handle c) (c_session c) (c_cb c) (c_ud c) e (c_logfile c).
Definition with_logfile f (c : pixel) : pixel :=
  Pixel (c_queue c) (c_module c) (c_inst c) (c_handle c) (c_session c) (c_cb c) (c_ud c) (c_endless c) f.
Definition with_cb cb ud (c : pixel) : pixel :=
  Pixel (c_queue c) (c_module c) (c_inst c) (c_handle c) (c_session c) cb ud (c_endless c) (c_logfile c).

(** What the program takes from outside: the allocators, the service modules
    (shared libraries), their callbacks and the log files. *)
Class Runtime := {
  malloc : gmap Z (list Z) -> Z;
  ctx_malloc : gmap Z pixel -> Z;
  queue_malloc : gmap Z queue -> Z;
  module_query : string -> Z;
  module_inst_new : Z -> Z;
  module_inst_init : Z -> Z -> Z -> option string -> prog Z;
  module_inst_free : Z -> Z -> prog unit;
  module_inst_signal : Z -> Z -> Z -> prog unit;
  call_cb : Z -> Z -> Z -> Z -> Z -> Z -> Z -> Z -> prog Z;
  file_open : string -> prog Z;
  file_write : Z -> string -> prog unit;
  file_close : Z -> prog unit;
  ctime : Z -> string
}.

(** An allocator returns an address that is not in use, and not null; writing
    to a file and closing it leave the memory of the program as it is. *)
Class RuntimeOk (rt : Runtime) : Prop := {
  malloc_fresh mem : malloc mem <> 0 /\ mem !! malloc mem = None;
  ctx_malloc_fresh cs : ctx_malloc cs <> 0 /\ cs !! ctx_malloc cs = None;
  queue_malloc_fresh qs : queue_malloc qs <> 0 /\ qs !! queue_malloc qs = None;
  file_write_ok f s w : file_write f s w = Some (tt, w);
  file_close_ok f w : file_close f w = Some (tt, w)
}.

(** ** Text *)

Definition acode (c : Ascii.ascii) : Z := Z.of_N (Ascii.N_of_ascii c).
Definition achar (z : Z) : Ascii.ascii := Ascii.ascii_of_N (Z.to_N z).

Fixpoint chars (s : string) : list Z :=
  match s with EmptyString => [] | String c s => acode c :: chars s end.

(** Decimal digits, as [sprintf("%u")] prints them. *)
Fixpoint print_digits (fuel : nat) (n : Z) (acc : string) : string :=
  match fuel with
  | O => acc
  | S fuel =>
      let acc := String (achar (48 + n mod 10)) acc in
      if n <? 10 then acc else print_digits fuel (n / 10) acc
  end.

Definition print_u (n : Z) : string := print_digits 10 n EmptyString.
Definition print_d (n : Z) : string := if n <? 0 then String (achar 45) (print_u (- n)) else print_u n.

Definition isspace (c : Z) : bool := (c =? 32) || ((9 <=? c) && (c <=? 13)).

Fixpoint skip_space (s : string) : string :=
  match s with String c s' => if isspace (acode c) then skip_space s' else s | EmptyString => s end.

(** The value of a digit, 36 when the character is none. *)
Definition digit (c : Ascii.ascii) : Z :=
  let z := acode c in
  if (48 <=? z) && (z <=? 57) then z - 48
  else if (97 <=? z) && (z <=? 122) then z - 97 + 10
  else if (65 <=? z) && (z <=? 90) then z - 65 + 10 else 36.

Fixpoint scan_digits (base : Z) (s : string) (acc : Z) : Z :=
  match s with
  | String c s => if digit c <? base then scan_digits base s (acc * base + digit c) else acc
  | EmptyString => acc
  end.

(** The base that [strtoul(s, 0, 0)] finds, and what remains to scan. *)
Definition auto_base (s : string) : Z * string :=
  match s with
  | String c (String x (String d s')) =>
      if acode c =? 48 then
        if ((acode x =? 120) || (acode x =? 88)) && (digit d <? 16) then (16, String d s') else (8, s)
      else (10, s)
  | String c _ => if acode c =? 48 then (8, s) else (10, s)
  | EmptyString => (10, s)
  end.

Definition sign (s : string) : bool * string :=
  match s with
  | String c s' => if acode c =? 45 then (true, s') else if acode c =? 43 then (false, s') else (false, s)
  | EmptyString => (false, s)
  end.

Definition strtoul (s : string) : Z :=
  let '(neg, s) := sign (skip_space s) in
  let '(base, s) := auto_base s in
  let n := scan_digits base s 0 in
  if n >=? 2 ^ 64 then 2 ^ 64 - 1 else u64 (if neg then - n else n).

(** [strtol] clamps; [base] 10 is [atoi]. *)
Definition strtol (base10 : bool) (s : string) : Z :=
  let '(neg, s) := sign (skip_space s) in
  let '(base, s) := if base10 then (10, s) else auto_base s in
  let n := scan_digits base s 0 in
  if neg then Z.max (- 2 ^ 63) (- n) else Z.min (2 ^ 63 - 1) n.

Definition atoi (s : string) : Z := i32 (strtol true s).

(** The text before the first space, and what follows it if there is one. *)
Fixpoint split_space (s : string) : string * option string :=
  match s with
  | EmptyString => (EmptyString, None)
  | String c s' =>
      if acode c =? 32 then (EmptyString, Some s')
      else let '(a, b) := split_space s' in (String c a, b)
  end.

(** ** Operations *)

Section Operations.
Context {rt : Runtime}.

Definition free_payload (p : Z) : prog unit :=
  fun w => b ← w_mem w !! p; Some (tt, set_mem (delete p (w_mem w)) w).

Definition new_payload (size : Z) : prog Z :=
  fun w => let p := malloc (w_mem w) in
           Some (p, set_mem (<[p := replicate (Z.to_nat size) 0]> (w_mem w)) w).

(** [pixel_alloc(p, size)]; freeing an address that is not allocated is
    undefined, [memset] on the null result of a huge request too. *)
Definition pixel_alloc (p size : Z) : prog Z :=
  if size =? 0 then
    if negb (p =? 0) then _ ← free_payload p; mret 0 else mret 0
  else if size <? 0 then fail
  else new_payload size.

(** [memcpy(dst, src, n)] between two payloads; nothing is read when [n] is 0. *)
Definition copy_payload (dst src n : Z) : prog unit :=
  if n =? 0 then mret tt
  else
    fun w =>
      s ← w_mem w !! src; d ← w_mem w !! dst;
      d ← memcpy d 0 s 0 n;
      Some (tt, set_mem (<[dst := d]> (w_mem w)) w).

Definition pixel_handle (ctx : Z) : prog Z := c ← get ctx; mret (c_handle c).

(** A line of the log. *)
Definition line (s : string) : string := s +:+ String (achar 10) EmptyString.
Definition words (a b : string) : string := a +:+ " " +:+ b.

(** [pixel_push], [pixel_log] and [pixel_free] call each other: freeing a
    service sends the line EXIT to the log service.  [push] is the next call
    of the recursion. *)
Definition text_message (source data size : Z) : message :=
  Message source 0 data (Z.lor size (Z.shiftl PIXEL_TEXT MSG_TYPE_SHIFT)).

Definition log_with (push : Z -> message -> prog Z) (ctx : Z) (text : string) : prog unit :=
  log ← gets G_log;
  if log =? 0 then mret tt
  else
    let size := zlen (chars text) in
    data ← pixel_alloc 0 (i32 (size + 1));
    _ ← modify (fun w => set_mem (<[data := chars text ++ [0]]> (w_mem w)) w);
    source ← (if ctx =? 0 then mret 0 else pixel_handle ctx);
    dest ← pixel_handle log;
    r ← push dest (text_message source data size);
    if negb (r =? 0) then _ ← pixel_alloc data 0; mret tt else mret tt.

Definition free_with (push : Z -> message -> prog Z) (ctx : Z) : prog unit :=
  if ctx =? 0 then mret tt
  else
    _ ← log_with push ctx (line "EXIT");
    c ← get ctx;
    _ ← (if c_logfile c =? 0 then mret tt else file_close (c_logfile c));
    _ ← on_queue_ (queue_mark_free (c_queue c));
    _ ← module_inst_free (c_module c) (c_inst c);
    modify (fun w => set_ctx (delete ctx (w_ctx w)) w).

(** [handle_release] of src/handle.c with its call of [pixel_free]. *)
Definition release_with (push : Z -> message -> prog Z) (handle : Z) : prog Z :=
  '(ctx, freed) ← on_reg (fun H => '(c, f, H) ← handle_release handle H; Some ((c, f), H));
  _ ← free_with push freed;
  mret ctx.

Fixpoint push_loop (fuel : nat) (handle : Z) (m : message) : prog Z :=
  match fuel with
  | O => fail
  | S fuel =>
      ctx ← on_reg (handle_grab handle);
      if ctx =? 0 then mret (-1)
      else
        c ← get ctx;
        _ ← on_queue_ (queue_push (c_queue c) m);
        c ← get ctx;
        _ ← release_with (push_loop fuel) (c_handle c);
        mret 0
  end.

(** The service that a push frees logs one more line, to a log service that
    is never freed. *)
Definition pixel_push (handle : Z) (m : message) : prog Z := push_loop 2 handle m.
Definition pixel_log (ctx : Z) (text : string) : prog unit := log_with pixel_push ctx text.
Definition pixel_free (ctx : Z) : prog unit := free_with pixel_push ctx.
Definition release (handle : Z) : prog Z := release_with pixel_push handle.

Definition _pixel_total_inc : prog unit := modify (fun w => set_total (G_total w + 1) w).
Definition _pixel_total_dec : prog unit := modify (fun w => set_total (G_total w - 1) w).
Definition pixel_total : prog Z := gets G_total.

Definition pixel_reserve (ctx : Z) : prog unit :=
  c ← get ctx; _ ← on_reg (handle_grab (c_handle c)); _pixel_total_dec.

Definition pixel_setlog (ctx : Z) : prog unit :=
  _ ← modify (set_log ctx); pixel_reserve ctx.

Definition _drop_message (m : message) : prog unit := _ ← pixel_alloc (m_data m) 0; mret tt.

Fixpoint drop_messages (ms : list message) : prog unit :=
  match ms with [] => mret tt | m :: ms => _ ← _drop_message m; drop_messages ms end.

(** [queue_free(q, _drop_message, 0)]. *)
Definition free_queue (q : Z) : prog unit :=
  ms ← on_queue (queue_free q); drop_messages ms.

Definition pixel_force_free (ctx : Z) : prog unit :=
  c ← get ctx;
  ctx ← release (c_handle c);
  if ctx =? 0 then _ ← free_queue (c_queue c); _pixel_total_dec else mret tt.

Fixpoint free_all (ctxs : list Z) : prog unit :=
  match ctxs with [] => mret tt | c :: ctxs => _ ← pixel_free c; free_all ctxs end.

(** [handle_exit] releases the handles one by one, freeing as it goes. *)
Fixpoint exit_loop (handles : list Z) : prog unit :=
  match handles with [] => mret tt | h :: hs => _ ← release h; exit_loop hs end.
Definition pixel_exit : prog unit :=
  slots ← gets (fun w => H_slot (w_reg w));
  exit_loop (filter (fun h => h <> 0) (s_handle <$> slots)).

Definition pixel_session (ctx : Z) : prog Z :=
  c ← get ctx;
  let s := i32 (c_session c + 1) in
  _ ← put ctx (with_session s c); mret s.

Definition pixel_callback (ctx ud cb : Z) : prog unit := c ← get ctx; put ctx (with_cb cb ud c).

Definition pixel_endless (handle : Z) : prog unit :=
  ctx ← on_reg (handle_grab handle);
  if ctx =? 0 then mret tt
  else c ← get ctx; _ ← put ctx (with_endless 1 c); _ ← release handle; mret tt.

(** The two ends of [pixel_new], by the result of the module's initialisation. *)
Definition launch_line (what name : string) (param : option string) : string :=
  line (words what (words name (default EmptyString param))).

Definition launch_failed (name : string) (param : option string) (ctx : Z) : prog Z :=
  _ ← pixel_log ctx (launch_line "LAUNCH FAILED" name param);
  c ← get ctx;
  _ ← release (c_handle c);
  _ ← pixel_force_free ctx;
  mret 0.

Definition launch_done (name : string) (param : option string) (ctx : Z) : prog Z :=
  c ← get ctx;
  _ ← on_queue_ (queue_push_global (c_queue c));
  ctx ← release (c_handle c);
  _ ← (if ctx =? 0 then mret tt
       else pixel_log ctx (launch_line "LAUNCH" name param));
  mret ctx.

Definition pixel_new (name : string) (param : option string) : prog Z :=
  let module := module_query name in
  if module =? 0 then mret 0
  else
    let inst := module_inst_new module in
    if inst =? 0 then mret 0
    else
      ctx ← gets (fun w => ctx_malloc (w_ctx w));
      _ ← put ctx (Pixel 0 module inst 0 0 0 0 0 0);
      handle ← on_reg (handle_regist true ctx);
      q ← gets (fun w => queue_malloc (qw_heap (w_queue w)));
      _ ← on_queue_ (fun qw => Some (queue_new q handle qw));
      _ ← put ctx (Pixel q module inst handle 0 0 0 0 0);
      _ ← _pixel_total_inc;
      ctx ← on_reg (handle_grab handle);
      r ← module_inst_init module inst ctx param;
      if negb (r =? 0) then launch_failed name param ctx else launch_done name param ctx.

(** *** Other nodes *)

Definition harbor_init (harbor : Z) : harbor_state := Harbor 0 (u32 (Z.shiftl (Z.land harbor 0xff) 24)).

Definition harbor_unit : prog unit :=
  h ← gets w_harbor;
  if negb (hb_hctx h =? 0) then pixel_force_free (hb_hctx h) else mret tt.

Definition harbor_start (ctx : Z) : prog unit :=
  _ ← modify (fun w => set_harbor (Harbor ctx (hb_harbor (w_harbor w))) w);
  pixel_reserve ctx.

Definition harbor_send (m : message) : prog Z :=
  h ← gets w_harbor;
  harbor ← pixel_handle (hb_hctx h);
  pixel_push harbor m.

Definition harbor_isremote (handle : Z) : prog Z :=
  h ← gets w_harbor;
  if hb_harbor h =? 2 ^ 32 - 1 then fail
  else
    let n := Z.land handle (Z.lxor (2 ^ 32 - 1) 0xffffff) in
    mret (Z.b2z (negb (n =? hb_harbor h) && negb (n =? 0))).

(** *** Sending *)

Definition pack_size (size type : Z) : Z := Z.lor size (u64 (Z.shiftl type MSG_TYPE_SHIFT)).
Definition unpack_type (size : Z) : Z := i32 (Z.shiftr size MSG_TYPE_SHIFT).
Definition unpack_size (size : Z) : Z := Z.land size MSG_TYPE_MASK.

Definition _filter_args (ctx type session data size : Z) : prog (Z * Z * Z) :=
  let needcopy := Z.land type PIXEL_TAG_DONTCOPY =? 0 in
  let alloc_session := negb (Z.land type PIXEL_TAG_ALLOCSESSION =? 0) in
  let type := Z.land type 0xff in
  session ← (if alloc_session then pixel_session ctx else mret session);
  data ← (if needcopy && negb (data =? 0) then
            newdata ← pixel_alloc 0 (i32 size);
            _ ← copy_payload newdata data size;
            mret newdata
          else mret data);
  mret (session, data, pack_size size type).

Definition drop_data (type data : Z) : prog unit :=
  if negb (Z.land type PIXEL_TAG_DONTCOPY =? 0) then _ ← pixel_alloc data 0; mret tt else mret tt.

Definition too_large (destination size : Z) : string :=
  line ("message to " +:+ print_u destination +:+ " is too large (size=" +:+ print_d (i32 size) +:+ ")").

Definition pixel_send (ctx source destination type session data size : Z) : prog Z :=
  if negb (unpack_size size =? size) then
    _ ← pixel_log ctx (too_large destination size);
    _ ← drop_data type data;
    mret (-1)
  else if destination =? 0 then
    _ ← drop_data type data; mret (-1)
  else
    '(session, data, size) ← _filter_args ctx type session data size;
    c ← get ctx;
    let source := if source =? 0 then c_handle c else source in
    let m := Message source session data size in
    remote ← harbor_isremote destination;
    r ← (if negb (remote =? 0) then harbor_send m else pixel_push destination m);
    if negb (r =? 0) then _ ← pixel_alloc data 0; mret (-1) else mret session.

Definition response (session : Z) : message :=
  Message 0 session 0 (Z.shiftl PIXEL_RESPONSE MSG_TYPE_SHIFT).

Definition pixel_timer_dispatch (event : timer_event) : prog unit :=
  _ ← pixel_push (te_handle event) (response (te_session event)); mret tt.

(** [sm] is the [struct socket_message] as bytes, [ret] and [ud] two of its
    fields. *)
Definition SOCKET_EXIT : Z := 0.
Definition pixel_socket_dispatch (ret ud : Z) (sm : list Z) : prog unit :=
  if ret =? SOCKET_EXIT then mret tt
  else
    let size := zlen sm in
    data ← pixel_alloc 0 (i32 size);
    _ ← modify (fun w => set_mem (<[data := sm]> (w_mem w)) w);
    let m := Message 0 0 data (pack_size size PIXEL_SOCKET) in
    r ← pixel_push (u32 ud) m;
    if negb (r =? 0) then _ ← pixel_alloc data 0; mret tt else mret tt.

(** *** Dispatching *)

(** [struct monitor]. *)
Record monitor := Monitor { mo_version : Z; mo_check : Z; mo_source : Z; mo_destination : Z }.


Definition monitor_check (m : monitor) : prog monitor :=
  if mo_version m =? mo_check m then
    if negb (mo_destination m =? 0) then
      _ ← pixel_endless (mo_destination m);
      _ ← pixel_log 0 (line ("message from [" +:+ print_u (mo_source m) +:+ "] to [" +:+
             print_u (mo_destination m) +:+ "] maybe in endless loop (version=" +:+ print_d (mo_version m) +:+ ")"));
      mret m
    else mret m
  else mret (Monitor (mo_version m) (mo_version m) (mo_source m) (mo_destination m)).

(** *** Log files (src/log.c)

    A log file is the number that opening it gave, 0 for none. *)
Definition log_open (ctx handle : Z) : prog Z :=
  let tmp := print_u handle +:+ ".log" in
  f ← file_open tmp;
  if negb (f =? 0) then
    t ← gets w_timer;
    let curtime := timer_now t in
    _ ← pixel_log ctx (line ("open log file " +:+ tmp));
    _ ← file_write f ("open time:" +:+ print_u curtime +:+ " " +:+ ctime (u32 (timer_starttime t + curtime / 100)));
    mret f
  else
    _ ← pixel_log ctx (line ("open log file " +:+ tmp +:+ " failed")); mret f.

Definition log_close (ctx f handle : Z) : prog unit :=
  _ ← pixel_log ctx (line ("close log file " +:+ print_u handle));
  t ← gets w_timer;
  _ ← file_write f (line ("close time:" +:+ print_u (timer_now t)));
  file_close f.

(** [print], for the lines of a dump. *)
Fixpoint print_lines (f : Z) (ls : list string) : prog unit :=
  match ls with [] => mret tt | l :: ls => _ ← file_write f l; print_lines f ls end.

Definition log_blob (f data size : Z) : prog unit :=
  bs ← gets (fun w => default [] (w_mem w !! data));
  ls ← lift (dump bs (i32 size));
  print_lines f ls.

(** A field of [n] bytes of a structure in memory. *)
Definition field (off : Z) (n : nat) (bs : list Z) : option Z :=
  if off + Z.of_nat n <=? zlen bs then Some (get_le (take n (drop (Z.to_nat off) bs))) else None.

Definition SOCKET_DATA : Z := 3.

(** [struct socket_message]: [type], [id], [ud], [data] and [size]. *)
Definition log_socket (f data : Z) : prog unit :=
  bs ← gets (fun w => default [] (w_mem w !! data));
  type ← lift (field 0 4 bs);
  if i32 type =? SOCKET_DATA then
    id ← lift (field 4 4 bs);
    d ← lift (field 16 8 bs);
    size ← lift (field 24 4 bs);
    _ ← file_write f (line ("[socket] " +:+ print_d (i32 id) +:+ " " +:+ print_d (i32 type) +:+ " " +:+ print_d (i32 size)));
    _ ← log_blob f d (i32 size);
    file_write f newline
  else mret tt.

Definition log_output (f source type session data size : Z) : prog unit :=
  if type =? PIXEL_SOCKET then log_socket f data
  else
    t ← gets w_timer;
    _ ← file_write f (line ("[" +:+ print_u source +:+ "] " +:+ print_d type +:+ " " +:+ print_d session +:+ " " +:+ print_u (timer_now t)));
    _ ← log_blob f data size;
    file_write f newline.

Definition _dispatch (ctx : Z) (m : message) : prog unit :=
  c ← get ctx;
  let type := unpack_type (m_size m) in
  let size := unpack_size (m_size m) in
  _ ← (if c_logfile c =? 0 then mret tt
       else log_output (c_logfile c) (m_source m) type (m_session m) (m_data m) size);
  r ← call_cb (c_cb c) ctx (c_ud c) type (m_session m) (m_source m) (m_data m) size;
  if r =? 0 then _ ← pixel_alloc (m_data m) 0; mret tt else mret tt.




(** [while (!queue_pop(q, &m))]; [fuel] messages at most. *)
Fixpoint pixel_dispatchall (fuel : nat) (ctx : Z) : prog unit :=
  match fuel with
  | O => fail
  | S fuel =>
      c ← get ctx;
      r ← on_queue (queue_pop (c_queue c));
      match r with
      | inr _ => mret tt
      | inl m => _ ← _dispatch ctx m; pixel_dispatchall fuel ctx
      end
  end.

(** *** Commands

    A null [param] is [None], a null result too; a command that reads a null
    parameter fails. *)

Abbreviation reply := (option string).

Definition _cmd_launch (ctx : Z) (param : reply) : prog reply :=
  param ← lift param;
  let '(name, p) := split_space param in
  newctx ← pixel_new name p;
  if newctx =? 0 then mret None else h ← pixel_handle newctx; mret (Some (print_u h)).

(** The handle in [param], this service's without one; 0 is an error. *)
Definition param_handle (ctx : Z) (param : reply) : prog Z :=
  match param with
  | None => pixel_handle ctx
  | Some s => mret (u32 (strtoul s))
  end.

Definition refused (ctx : Z) (cmd : string) (param : reply) : prog reply :=
  _ ← pixel_log ctx (line (cmd +:+ ":" +:+ default EmptyString param +:+ " failed")); mret None.

Definition bad_handle (handle : Z) (param : reply) : bool :=
  match param with None => false | Some _ => handle =? 0 end.

Definition _cmd_kill (ctx : Z) (param : reply) : prog reply :=
  handle ← param_handle ctx param;
  if bad_handle handle param then refused ctx "kill" param
  else _ ← release handle; mret None.

Definition _cmd_abort (ctx : Z) (param : reply) : prog reply := _ ← pixel_exit; mret None.

Definition _cmd_timeout (ctx : Z) (param : reply) : prog reply :=
  param ← lift param;
  let ti := atoi param in
  session ← pixel_session ctx;
  c ← get ctx;
  session ← (if ti =? 0 then
      r ← pixel_push (c_handle c) (response session);
      if negb (r =? 0) then mret (-1) else mret session
    else
      _ ← on_timer (timer_timeout ti (TimerEvent session (c_handle c)));
      mret session);
  mret (Some (print_d session)).

Definition _cmd_now (ctx : Z) (param : reply) : prog reply :=
  t ← gets w_timer; mret (Some (print_u (timer_now t))).
Definition _cmd_starttime (ctx : Z) (param : reply) : prog reply :=
  t ← gets w_timer; mret (Some (print_u (timer_starttime t))).
Definition _cmd_self (ctx : Z) (param : reply) : prog reply :=
  h ← pixel_handle ctx; mret (Some (print_u h)).

Definition _cmd_name (ctx : Z) (param : reply) : prog reply :=
  param ← lift param;
  match split_space param with
  | (name, Some rest) => _ ← on_reg (handle_name name (u32 (strtoul rest))); mret None
  | (_, None) => mret None
  end.

Definition _cmd_query (ctx : Z) (param : reply) : prog reply :=
  match param with
  | None | Some EmptyString => mret None
  | Some name =>
      handle ← on_reg (handle_name name 0);
      if handle >? 0 then mret (Some (print_u handle)) else mret None
  end.

Definition _cmd_session (ctx : Z) (param : reply) : prog reply :=
  s ← pixel_session ctx; mret (Some (print_d s)).

Definition _cmd_endless (ctx : Z) (param : reply) : prog reply :=
  c ← get ctx;
  if negb (c_endless c =? 0) then _ ← put ctx (with_endless 0 c); mret (Some "1") else mret None.

Definition _cmd_mqlen (ctx : Z) (param : reply) : prog reply :=
  c ← get ctx;
  n ← on_queue (fun q => n ← queue_len (c_queue c) q; Some (n, q));
  mret (Some (print_d n)).

Definition _cmd_logon (ctx : Z) (param : reply) : prog reply :=
  handle ← param_handle ctx param;
  if bad_handle handle param then refused ctx "logon" param
  else
    _ctx ← on_reg (handle_grab handle);
    if _ctx =? 0 then mret None
    else
      c ← get _ctx;
      _ ← (if c_logfile c =? 0 then
             f ← log_open ctx handle;
             if negb (f =? 0) then
               c ← get _ctx;
               if c_logfile c =? 0 then put _ctx (with_logfile f c) else file_close f
             else mret tt
           else mret tt);
      _ ← release handle;
      mret None.

Definition _cmd_logoff (ctx : Z) (param : reply) : prog reply :=
  handle ← param_handle ctx param;
  if bad_handle handle param then refused ctx "logoff" param
  else
    _ctx ← on_reg (handle_grab handle);
    if _ctx =? 0 then mret None
    else
      c ← get _ctx;
      _ ← (if negb (c_logfile c =? 0) then
             _ ← put _ctx (with_logfile 0 c); log_close ctx (c_logfile c) handle
           else mret tt);
      _ ← release handle;
      mret None.

Definition _cmd_setenv (ctx : Z) (param : reply) : prog reply :=
  param ← lift param;
  match split_space param with
  | (key, Some val) => _ ← modify (fun w => set_env (<[key := val]> (w_env w)) w); mret None
  | (_, None) => mret None
  end.

Definition _cmd_getenv (ctx : Z) (param : reply) : prog reply :=
  param ← lift param; e ← gets w_env; mret (e !! param).

(** [strchr(param, ' ')] on the parameter, null when there is none. *)
Definition _cmd_signal (ctx : Z) (param : reply) : prog reply :=
  handle ← param_handle ctx param;
  if bad_handle handle param then refused ctx "signal" param
  else
    ctx ← on_reg (handle_grab handle);
    if ctx =? 0 then mret None
    else
      param ← lift param;
      let sig := match split_space param with (_, Some rest) => i32 (strtol false rest) | _ => 0 end in
      c ← get ctx;
      _ ← module_inst_signal (c_module c) (c_inst c) sig;
      _ ← release handle;
      mret None.

Definition _cmd_harbor (ctx : Z) (param : reply) : prog reply := _ ← harbor_start ctx; mret None.

Definition funcs : list (string * (Z -> reply -> prog reply)) :=
  [("KILL", _cmd_kill); ("LAUNCH", _cmd_launch); ("TIMEOUT", _cmd_timeout); ("ABORT", _cmd_abort);
   ("NOW", _cmd_now); ("SELF", _cmd_self); ("NAME", _cmd_name); ("QUERY", _cmd_query);
   ("HARBOR", _cmd_harbor); ("SESSION", _cmd_session); ("ENDLESS", _cmd_endless);
   ("STARTTIME", _cmd_starttime); ("MQLEN", _cmd_mqlen); ("LOGON", _cmd_logon);
   ("LOGOFF", _cmd_logoff); ("SETENV", _cmd_setenv); ("GETENV", _cmd_getenv); ("SIGNAL", _cmd_signal)].

Fixpoint find_cmd (cmd : string) (l : list (string * (Z -> reply -> prog reply))) :
    option (Z -> reply -> prog reply) :=
  match l with
  | [] => None
  | (name, f) :: l => if strcmp cmd name =? 0 then Some f else find_cmd cmd l
  end.

Definition pixel_command (ctx : Z) (cmd : string) (param : reply) : prog reply :=
  match find_cmd cmd funcs with
  | Some f => f ctx param
  | None => _ ← pixel_log ctx (line ("not support cmd:" +:+ cmd)); mret None
  end.

End Operations.

(** ** A concrete runtime *)

(** An address above all addresses in use. *)
Definition zfresh {A} (m : gmap Z A) : Z := 1 + foldr Z.max 0 (map_to_list m).*1.

Lemma zfresh_spec {A} (m : gmap Z A) : zfresh m <> 0 /\ m !! zfresh m = None.
Proof.
  assert (Hb : forall l : list Z, 0 <= foldr Z.max 0 l /\ forall x, x ∈ l -> x <= foldr Z.max 0 l).
  { intros l. induction l as [|y l [IH1 IH2]]; cbn; [split; [lia|by intros ? ?%elem_of_nil]|].
    split; [lia|]. intros x [->|Hx]%elem_of_cons; [lia|]. specialize (IH2 x Hx). lia. }
  destruct (Hb (map_to_list m).*1) as [H1 H2]. unfold zfresh. split; [lia|].
  apply eq_None_not_Some. intros [x Hx]. specialize (H2 (zfresh m)). unfold zfresh in H2.
  apply elem_of_map_to_list in Hx. ospecialize (H2 _); [|lia].
  apply list_elem_of_fmap. by exists (1 + foldr Z.max 0 (map_to_list m).*1, x).
Qed.

(** ** Running programs *)

Lemma bind_eq {A B} (m : prog A) (f : A -> prog B) w x w' :
  m w = Some (x, w') -> (m ≫= f) w = f x w'.
Proof. intros E. unfold mbind, prog_bind. by rewrite E. Qed.

Lemma get_eq ctx w c : w_ctx w !! ctx = Some c -> get ctx w = Some (c, w).
Proof. intros E. unfold get. by rewrite E. Qed.

Lemma on_reg_eq {A} (f : hglobal -> option (A * hglobal)) w x H :
  f (w_reg w) = Some (x, H) -> on_reg f w = Some (x, set_reg H w).
Proof. intros E. unfold on_reg. by rewrite E. Qed.

Lemma on_queue_eq {A} (f : qworld -> option (A * qworld)) w x q :
  f (w_queue w) = Some (x, q) -> on_queue f w = Some (x, set_queue q w).
Proof. intros E. unfold on_queue. by rewrite E. Qed.

Lemma on_queue__eq (f : qworld -> option qworld) w q :
  f (w_queue w) = Some q -> on_queue_ f w = Some (tt, set_queue q w).
Proof. intros E. apply on_queue_eq. by rewrite E. Qed.

(** One step of a program whose first operation has the result [E]. *)
Ltac pstep E := rewrite (bind_eq _ _ _ _ _ E); cbv beta.

(** ** Well-formed worlds *)

Record pw_ok (w : pworld) (M : registry) (a : aworld) : Prop := {
  pk_reg : repr (w_reg w) M;
  pk_queue : refines (w_queue w) a;
  pk_live : forall h r c, M !! h = Some (r, c) -> 0 < r /\ c <> 0 /\
    exists p q, w_ctx w !! c = Some p /\ low (c_handle p) = h /\ aw_queues a !! c_queue p = Some q /\
      aq_release q = 0 /\ (aq_global q = 0 -> c_queue p ∉ aw_ready a);
  pk_inj : forall h1 h2 r1 r2 c1 c2 p1 p2, M !! h1 = Some (r1, c1) -> M !! h2 = Some (r2, c2) ->
    w_ctx w !! c1 = Some p1 -> w_ctx w !! c2 = Some p2 -> c_queue p1 = c_queue p2 -> h1 = h2
}.

Section Proofs.
Context {rt : Runtime}.

Lemma release_with_eq push h (w : pworld) x f H :
  handle_release h (w_reg w) = Some (x, f, H) ->
  release_with push h w = (free_with push f ≫= fun _ => mret x) (set_reg H w).
Proof.
  intros E. unfold release_with.
  by erewrite bind_eq; [|apply on_reg_eq; rewrite E; reflexivity].
Qed.

Implicit Types (w : pworld) (M : registry) (a : aworld) (m : message).

(** The queue of a live service accepts any message. *)
Lemma live_push w M a h r c p m :
  pw_ok w M a -> M !! h = Some (r, c) -> w_ctx w !! c = Some p ->
  exists a' q', spec_push (c_queue p) m a = Some a' /\ queue_push (c_queue p) m (w_queue w) = Some q' /\
    refines q' a'.
Proof.
  intros HW HM Hp. destruct (pk_live _ _ _ HW _ _ _ HM) as (_ & _ & p' & q & Hp' & _ & Hq & _ & Hg).
  simplify_eq.
  assert (exists a', spec_push (c_queue p) m a = Some a') as [a' Ha].
  { unfold spec_push. rewrite Hq. cbn [mbind option_bind]. destruct (Z.eqb_spec (aq_global q) 0); [|eauto].
    unfold spec_push_global. rewrite decide_True; [eauto|]. cbn. rewrite lookup_insert_eq. split; [done|auto]. }
  destruct (queue_push_sim _ _ _ _ _ (pk_queue _ _ _ HW) Ha) as (q' & Hq' & Hr). eauto 6.
Qed.

(** A push keeps a well-formed world well formed. *)
Lemma pw_ok_push w M a a' H' q' h r c p m :
  pw_ok w M a -> M !! h = Some (r, c) -> w_ctx w !! c = Some p ->
  repr H' M -> refines q' a' -> spec_push (c_queue p) m a = Some a' ->
  pw_ok (set_queue q' (set_reg H' w)) M a'.
Proof.
  intros HW HM Hp HR Hr Ha. destruct HW as [_ _ Hl Hi]. split; cbn; [done|done| |exact Hi].
  intros h1 r1 c1 HM1. destruct (Hl _ _ _ HM1) as (Hr1 & Hc1 & p1 & q1 & Hp1 & Hh1 & Hq1 & Hrel & Hg1).
  split; [done|]. split; [done|]. exists p1.
  destruct (Hl _ _ _ HM) as (_ & _ & p0 & q0 & Hp0 & _ & Hq0 & Hrel0 & Hg0).
  assert (p0 = p) as -> by congruence.
  unfold spec_push in Ha. rewrite Hq0 in Ha. cbn [mbind option_bind] in Ha.
  destruct (decide (c_queue p1 = c_queue p)) as [E|E].
  - rewrite E in *. assert (q1 = q0) as -> by congruence. destruct (Z.eqb_spec (aq_global q0) 0) as [G|G].
    + unfold spec_push_global in Ha. case_decide; [|done]. injection Ha as <-. cbn.
      eexists. rewrite lookup_insert_eq. split_and!; done.
    + injection Ha as <-. cbn. eexists. rewrite lookup_insert_eq. split_and!; done.
  - exists q1. assert (Hq1' : aw_queues a' !! c_queue p1 = Some q1 /\
      (c_queue p1 ∈ aw_ready a' -> c_queue p1 ∈ aw_ready a)).
    { destruct (aq_global q0 =? 0).
      - unfold spec_push_global in Ha. case_decide; [|done]. injection Ha as <-. cbn.
        rewrite lookup_insert_ne by done. split; [done|].
        rewrite elem_of_app, list_elem_of_singleton. naive_solver.
      - injection Ha as <-. cbn. by rewrite lookup_insert_ne by done. }
    split_and!; try done; [tauto|]. intros G Hin. apply Hg1; tauto.
Qed.

(** A reference taken and given back. *)
Lemma grab_release H M h r c :
  repr H M -> M !! low h = Some (r, c) -> 0 < r -> c <> 0 ->
  exists H1 H2, handle_grab h H = Some (c, H1) /\ repr H2 M /\
    (forall h', low h' = low h -> handle_release h' H1 = Some (c, 0, H2)).
Proof.
  intros HR HM Hr Hc.
  assert (Hh : low h <> 0) by (pose proof (repr_range _ _ _ HR ltac:(by eexists)); lia).
  pose proof (grab_spec H M h HR Hh) as Hg. rewrite HM in Hg. destruct Hg as (H1 & Hg & HR1 & _).
  assert (HM1 : <[low h := (r + 1, c)]> M !! low h = Some (r + 1, c)) by apply lookup_insert_eq.
  destruct (release_spec H1 _ _ _ _ HR1 HM1 Hc) as (H2 & Hrel & HR2).
  rewrite (proj2 (Z.gtb_lt (r + 1 - 1) 0)) in Hrel by lia.
  exists H1, H2. split; [done|]. split.
  - assert (Hd : dropped (r + 1, c) = Some (r, c)).
    { unfold dropped. cbn. destruct (Z.gtb_spec (r + 1 - 1) 0); [|lia]. do 2 f_equal. lia. }
    rewrite Hd in HR2. enough (partial_alter (fun _ => Some (r, c)) (low h) (<[low h := (r + 1, c)]> M) = M)
      as <- by done.
    apply map_eq. intros i. destruct (decide (i = low h)) as [->|].
    + by rewrite lookup_partial_alter_eq.
    + by rewrite lookup_partial_alter_ne, lookup_insert_ne.
  - intros h' E. rewrite <- Hrel. unfold handle_release, low in *. by rewrite E.
Qed.

(** A push: to a live service, and to nobody. *)
Lemma pixel_push_spec w M a h m :
  pw_ok w M a -> low h <> 0 ->
  match M !! low h with
  | None => pixel_push h m w = Some (-1, w)
  | Some (_, c) => exists p a' q' H',
      w_ctx w !! c = Some p /\ spec_push (c_queue p) m a = Some a' /\
      pixel_push h m w = Some (0, set_queue q' (set_reg H' w)) /\ repr H' M /\ refines q' a'
  end.
Proof.
  intros HW Hh. pose proof (pk_reg _ _ _ HW) as HR. unfold pixel_push. cbn [push_loop].
  destruct (M !! low h) as [[r c]|] eqn:HM.
  - destruct (pk_live _ _ _ HW _ _ _ HM) as (Hr & Hc & p & q & Hp & Hlow & _).
    destruct (grab_release _ _ _ _ _ HR HM Hr Hc) as (H1 & H2 & Hg & HR2 & Hrel).
    destruct (live_push w M a _ r c p m HW HM Hp) as (a' & q' & Ha & Hq & Hr').
    pstep (on_reg_eq _ _ _ _ Hg). rewrite (proj2 (Z.eqb_neq c 0)) by done.
    pstep (get_eq c (set_reg H1 w) p Hp).
    pstep (on_queue__eq (queue_push (c_queue p) m) (set_reg H1 w) q' Hq).
    pstep (get_eq c (set_queue q' (set_reg H1 w)) p Hp).
    exists p, a', q', H2. split; [done|]. split; [done|]. split; [|done].
    erewrite bind_eq; [reflexivity|].
    by rewrite (release_with_eq _ _ (set_queue q' (set_reg H1 w)) _ _ _ (Hrel _ Hlow)).
  - pose proof (grab_spec (w_reg w) M h HR Hh) as Hg. rewrite HM in Hg.
    pstep (on_reg_eq _ _ _ _ Hg). cbn. f_equal. f_equal. by destruct w.
Qed.

Lemma pw_ok_mem w M a mem : pw_ok w M a -> pw_ok (set_mem mem w) M a.
Proof. intros []. by split. Qed.

(** Changing fields of a service other than its handle and its queue. *)
Lemma pw_ok_ctx w M a ctx c c' :
  pw_ok w M a -> w_ctx w !! ctx = Some c -> c_handle c' = c_handle c -> c_queue c' = c_queue c ->
  pw_ok (set_ctx (<[ctx := c']> (w_ctx w)) w) M a.
Proof.
  intros [HR HQ Hl Hi] Hc Eh Eq. split; cbn; try done.
  - intros h r d HM. destruct (Hl _ _ _ HM) as (Hr & Hd & p & q & Hp & Hrest). split; [done|]. split; [done|].
    destruct (decide (d = ctx)) as [->|].
    + exists c', q. rewrite lookup_insert_eq, Eh, Eq. assert (p = c) as -> by congruence. done.
    + exists p, q. by rewrite lookup_insert_ne.
  - intros h1 h2 r1 r2 c1 c2 p1 p2 HM1 HM2 H1 H2 E.
    assert (Hold : forall d q, <[ctx := c']> (w_ctx w) !! d = Some q ->
      exists q0, w_ctx w !! d = Some q0 /\ c_queue q0 = c_queue q).
    { intros d q. rewrite lookup_insert. case_decide as Hd.
      - intros [= <-]. exists c. by rewrite <- Hd.
      - intros Hq. by exists q. }
    apply Hold in H1 as (q1 & H1 & E1). apply Hold in H2 as (q2 & H2 & E2).
    eapply Hi; [exact HM1|exact HM2|exact H1|exact H2|congruence].
Qed.

(** Other states of the registry and of the queues: services may be gone and
    reference counts may have changed. *)
Lemma pw_ok_change w w' M M' a a' :
  pw_ok w M a -> w_ctx w' = w_ctx w -> repr (w_reg w') M' -> refines (w_queue w') a' ->
  (forall h r c, M' !! h = Some (r, c) -> 0 < r /\ exists r0, M !! h = Some (r0, c)) ->
  (forall h r c p q, M' !! h = Some (r, c) -> w_ctx w !! c = Some p -> aw_queues a !! c_queue p = Some q ->
     exists q1, aw_queues a' !! c_queue p = Some q1 /\ aq_release q1 = aq_release q /\
     (aq_global q1 = 0 -> aq_global q = 0 /\ (c_queue p ∈ aw_ready a' -> c_queue p ∈ aw_ready a))) ->
  pw_ok w' M' a'.
Proof.
  intros [HR HQ Hl Hi] Ec HR' Hr HM' Hq. split; rewrite ?Ec; [done|done| |].
  - intros h r c HM. destruct (HM' _ _ _ HM) as (Hr0 & r0 & HM0).
    destruct (Hl _ _ _ HM0) as (_ & Hc & p & q & Hp & Hh & Hq0 & Hrel & Hg).
    destruct (Hq _ _ _ _ _ HM Hp Hq0) as (q1 & Hq1 & Hrel1 & Hg1).
    split; [done|]. split; [done|]. exists p, q1. split_and!; try done; [congruence|]. naive_solver.
  - intros h1 h2 r1 r2 c1 c2 p1 p2 H1 H2.
    destruct (HM' _ _ _ H1) as (_ & ? & H1'), (HM' _ _ _ H2) as (_ & ? & H2'). by eapply Hi.
Qed.

(** A reference more or less. *)
Lemma pw_ok_count w w' M a h r r' c :
  pw_ok w M a -> M !! h = Some (r, c) -> 0 < r' -> w_ctx w' = w_ctx w -> w_queue w' = w_queue w ->
  repr (w_reg w') (<[h := (r', c)]> M) -> pw_ok w' (<[h := (r', c)]> M) a.
Proof.
  intros HW HM Hr Ec Eq HR. apply (pw_ok_change w w' M _ a a HW Ec HR); [rewrite Eq; apply (pk_queue _ _ _ HW)| |].
  - intros h1 r1 c1. rewrite lookup_insert. case_decide as E.
    + intros [= <- <-]. subst h1. split; [done|by exists r].
    + intros H1. destruct (pk_live _ _ _ HW _ _ _ H1) as (? & _). split; [done|by exists r1].
  - intros h1 r1 c1 p q _ _ Hq. exists q. done.
Qed.

(** *** The log

    The length of what is logged. *)
Lemma chars_app (s t : string) : chars (s +:+ t) = chars s ++ chars t.
Proof. induction s as [|c s IH]; [done|]. change (acode c :: chars (s +:+ t) = acode c :: chars s ++ chars t). by rewrite IH. Qed.

Lemma print_digits_length fuel n acc :
  (length (chars (print_digits fuel n acc)) <= fuel + length (chars acc))%nat.
Proof.
  revert n acc. induction fuel as [|fuel IH]; intros n acc; [done|]. cbn [print_digits].
  destruct (n <? 10); [cbn; lia|]. etransitivity; [apply IH|]. cbn. lia.
Qed.

Lemma print_u_length n : zlen (chars (print_u n)) <= 10.
Proof. pose proof (print_digits_length 10 n EmptyString). cbn in *. unfold print_u. lia. Qed.

Lemma print_d_length n : zlen (chars (print_d n)) <= 11.
Proof.
  unfold print_d. destruct (n <? 0); [|pose proof (print_u_length n); lia].
  cbn [chars length]. pose proof (print_u_length (- n)). lia.
Qed.

(** The log service, if there is one, has an address and a handle. *)
Definition log_ok (w : pworld) : Prop :=
  G_log w = 0 \/ exists cl, w_ctx w !! G_log w = Some cl /\ low (c_handle cl) <> 0.

(** What logging a line does: the log service gets it in a fresh payload;
    without a log service, or with one that is gone, the line is printed on
    the terminal. *)
Definition spec_log (source : Z) (text : string) w M a : option (gmap Z (list Z) * aworld) :=
  if G_log w =? 0 then Some (w_mem w, a)
  else
    cl ← w_ctx w !! G_log w;
    match M !! low (c_handle cl) with
    | None => Some (w_mem w, a)
    | Some (_, d) =>
        p ← w_ctx w !! d;
        let data := malloc (w_mem w) in
        a ← spec_push (c_queue p) (text_message source data (zlen (chars text))) a;
        Some (<[data := chars text ++ [0]]> (w_mem w), a)
    end.

(** The handle that a line is signed with. *)
Definition signs ctx source w : Prop :=
  ctx = 0 /\ source = 0 \/ ctx <> 0 /\ exists c, w_ctx w !! ctx = Some c /\ source = c_handle c.

Lemma pixel_log_spec {ok : RuntimeOk rt} w M a ctx source text :
  pw_ok w M a -> log_ok w -> signs ctx source w -> zlen (chars text) + 1 < 2 ^ 31 ->
  exists q' H' mem' a',
    pixel_log ctx text w = Some (tt, set_mem mem' (set_queue q' (set_reg H' w))) /\
    spec_log source text w M a = Some (mem', a') /\
    pw_ok (set_mem mem' (set_queue q' (set_reg H' w))) M a'.
Proof.
  intros HW Hlog Hs Ht. unfold pixel_log, log_with, spec_log. rewrite (bind_eq (gets G_log) _ w _ w eq_refl).
  destruct (Z.eqb_spec (G_log w) 0) as [E|E].
  { exists (w_queue w), (w_reg w), (w_mem w), a. assert (Ew : set_mem (w_mem w) (set_queue (w_queue w) (set_reg (w_reg w) w)) = w) by (by destruct w).
    by rewrite Ew. }
  destruct Hlog as [|(cl & Hcl & Hlow)]; [done|]. rewrite Hcl. cbn [mbind option_bind].
  set (data := malloc (w_mem w)). destruct (malloc_fresh (w_mem w)) as [Hd0 Hd]. fold data in Hd0, Hd.
  assert (Ea : pixel_alloc 0 (i32 (zlen (chars text) + 1)) w =
    Some (data, set_mem (<[data := replicate (Z.to_nat (zlen (chars text) + 1)) 0]> (w_mem w)) w)).
  { rewrite i32_id by lia. unfold pixel_alloc. rewrite (proj2 (Z.eqb_neq _ 0)), (proj2 (Z.ltb_ge _ 0)) by lia. done. }
  pstep Ea. erewrite bind_eq; [|reflexivity]. cbv beta. cbn [w_mem set_mem].
  set (w1 := set_mem _ (set_mem _ w)).
  assert (Ew1 : w1 = set_mem (<[data := chars text ++ [0]]> (w_mem w)) w) by (unfold w1; cbn; by rewrite insert_insert_eq).
  clearbody w1. subst w1. set (w1 := set_mem _ w).
  assert (Esrc : (if ctx =? 0 then mret 0 else pixel_handle ctx) w1 = Some (source, w1)).
  { destruct Hs as [[-> ->]|(Hc & c & Hc1 & ->)]; [done|]. rewrite (proj2 (Z.eqb_neq ctx 0)) by done.
    unfold pixel_handle. by pstep (get_eq ctx w1 c Hc1). }
  pstep Esrc. unfold pixel_handle at 1. erewrite bind_eq; [|by pstep (get_eq (G_log w) w1 cl Hcl)]. cbv beta.
  pose proof (pixel_push_spec w1 M a (c_handle cl) (text_message source data (zlen (chars text)))
    (pw_ok_mem w M a _ HW) Hlow) as Hp.
  destruct (M !! low (c_handle cl)) as [[r d]|] eqn:HM.
  - destruct Hp as (p & a' & q' & H' & Hpd & Ha & Hpush & HR & Hrf). pstep Hpush. cbn [Z.eqb negb].
    exists q', H', (<[data := chars text ++ [0]]> (w_mem w)), a'.
    change (w_ctx w1) with (w_ctx w) in Hpd. rewrite Hpd. cbn [mbind option_bind]. rewrite Ha.
    split; [done|]. split; [done|]. apply (pw_ok_push w1 M a a' H' q' _ r d p _ (pw_ok_mem w M a _ HW) HM Hpd HR Hrf Ha).
  - pstep Hp. cbn [Z.eqb negb Pos.eqb]. exists (w_queue w), (w_reg w), (w_mem w), a.
    assert (Ew : set_mem (w_mem w) (set_queue (w_queue w) (set_reg (w_reg w) w)) = w) by (by destruct w).
    rewrite Ew. split; [|done]. unfold pixel_alloc. rewrite Z.eqb_refl, (proj2 (Z.eqb_neq data 0)) by done. cbn [negb].
    unfold mbind, prog_bind, free_payload, mret, prog_ret. cbn [w1 set_mem w_mem]. rewrite lookup_insert_eq.
    cbn [mbind option_bind]. rewrite delete_insert_id by done. by rewrite <- Ew at 2.
Qed.

(** ** Messages *)

Lemma unpack_pack size type :
  0 <= size < 2 ^ 56 -> 0 <= type < 256 ->
  unpack_size (pack_size size type) = size /\ unpack_type (pack_size size type) = type.
Proof.
  intros Hs Ht. unfold unpack_size, unpack_type, pack_size, u64.
  change MSG_TYPE_SHIFT with 56. change MSG_TYPE_MASK with (Z.ones 56).
  assert (E : Z.lor size (Z.shiftl type 56 mod 2 ^ 64) = type * 2 ^ 56 + size).
  { rewrite Z.mod_small by (rewrite Z.shiftl_mul_pow2; lia).
    rewrite Z.lor_comm. by apply lor_shiftl. }
  rewrite E, Z.land_ones, Z.shiftr_div_pow2 by lia.
  assert (E1 : (type * 2 ^ 56 + size) mod 2 ^ 56 = size) by zdiv.
  assert (E2 : (type * 2 ^ 56 + size) / 2 ^ 56 = type) by zdiv.
  rewrite E1, E2. split; [done|]. unfold i32. zdiv.
Qed.

Lemma land_byte_bound type : 0 <= Z.land type 0xff < 256.
Proof. change 0xff with (Z.ones 8). rewrite Z.land_ones by lia. apply (Z.mod_pos_bound _ 256). lia. Qed.

(** What a send does to the session, the payload and the heap. *)
Definition copies (type data : Z) : bool := (Z.land type PIXEL_TAG_DONTCOPY =? 0) && negb (data =? 0).
Definition allocs (type : Z) : bool := negb (Z.land type PIXEL_TAG_ALLOCSESSION =? 0).
Definition sent_session (type session : Z) (c : pixel) : Z :=
  if allocs type then i32 (c_session c + 1) else session.
Definition sent_ctx (type ctx : Z) (c : pixel) w : gmap Z pixel :=
  if allocs type then <[ctx := with_session (i32 (c_session c + 1)) c]> (w_ctx w) else w_ctx w.
Definition sent_data (type data size : Z) w : Z :=
  if copies type data then if size =? 0 then 0 else malloc (w_mem w) else data.
Definition sent_mem (type data size : Z) (bs : list Z) w : gmap Z (list Z) :=
  if copies type data && negb (size =? 0) then <[malloc (w_mem w) := take (Z.to_nat size) bs]> (w_mem w)
  else w_mem w.

Lemma pixel_session_eq ctx c w :
  w_ctx w !! ctx = Some c ->
  pixel_session ctx w = Some (i32 (c_session c + 1),
    set_ctx (<[ctx := with_session (i32 (c_session c + 1)) c]> (w_ctx w)) w).
Proof. intros Hc. unfold pixel_session. by pstep (get_eq _ _ _ Hc). Qed.

Lemma set_id w : set_mem (w_mem w) (set_ctx (w_ctx w) w) = w.
Proof. by destruct w. Qed.

Lemma filter_args_spec {ok : RuntimeOk rt} w ctx c type session data size bs :
  w_ctx w !! ctx = Some c ->
  (copies type data = true -> 0 <= size < 2 ^ 31 /\ w_mem w !! data = Some bs /\ size <= zlen bs) ->
  _filter_args ctx type session data size w =
  Some ((sent_session type session c, sent_data type data size w, pack_size size (Z.land type 0xff)),
        set_mem (sent_mem type data size bs w) (set_ctx (sent_ctx type ctx c w) w)).
Proof.
  intros Hc Hcp. unfold _filter_args, sent_session, sent_ctx, sent_data, sent_mem, allocs.
  unfold copies in *. set (al := negb (Z.land type PIXEL_TAG_ALLOCSESSION =? 0)).
  set (cp := (Z.land type PIXEL_TAG_DONTCOPY =? 0) && negb (data =? 0)) in *.
  set (cs := if al then _ else w_ctx w). set (s' := if al then _ else session).
  assert (E1 : (if al then pixel_session ctx else mret session) w = Some (s', set_ctx cs w)).
  { unfold s', cs. destruct al; [by apply pixel_session_eq|]. by destruct w. }
  pstep E1. set (w1 := set_ctx cs w).
  destruct cp; cbn [andb].
  - destruct (Hcp eq_refl) as (Hs & Hd & Hl). assert (Ei : i32 size = size) by (unfold i32; zdiv). rewrite Ei.
    destruct (Z.eqb_spec size 0) as [->|Hne]; cbn [negb].
    + reflexivity.
    + destruct (malloc_fresh (w_mem w)) as [Hn Hf]. set (p := malloc (w_mem w)) in *.
      erewrite bind_eq; [reflexivity|].
      assert (Ea : pixel_alloc 0 size w1 = Some (p, set_mem (<[p := replicate (Z.to_nat size) 0]> (w_mem w)) w1)).
      { unfold pixel_alloc. rewrite (proj2 (Z.eqb_neq size 0)) by done.
        by rewrite (proj2 (Z.ltb_ge size 0)) by lia. }
      pstep Ea. erewrite bind_eq; [reflexivity|].
      unfold copy_payload. rewrite (proj2 (Z.eqb_neq size 0)) by done. cbn [w_mem set_mem w1 set_ctx].
      rewrite (lookup_insert_ne _ p data) by congruence. rewrite Hd, lookup_insert_eq. cbn [mbind option_bind].
      rewrite memcpy_fill by (rewrite ?length_replicate; lia). cbn [mbind option_bind].
      rewrite insert_insert_eq. done.
  - erewrite bind_eq; [|reflexivity]. unfold w1. by destruct w.
Qed.

(** Whether a handle names another node, and the handle that a message to
    [dest] is pushed to: that of the harbor service for another node. *)
Definition remote (dest : Z) w : bool :=
  let node := Z.land dest 0xff000000 in
  negb (node =? hb_harbor (w_harbor w)) && negb (node =? 0).
Definition addressee (dest : Z) w : option Z :=
  if remote dest w then c_handle <$> w_ctx w !! hb_hctx (w_harbor w) else Some dest.

Lemma isremote_eq h w :
  hb_harbor (w_harbor w) <> 2 ^ 32 - 1 -> harbor_isremote h w = Some (Z.b2z (remote h w), w).
Proof.
  intros Hh. unfold harbor_isremote, gets, mbind, prog_bind. cbn [mbind option_bind].
  rewrite (proj2 (Z.eqb_neq _ _) Hh). done.
Qed.

Lemma sent_ctx_lookup type ctx c w :
  w_ctx w !! ctx = Some c ->
  exists c', sent_ctx type ctx c w !! ctx = Some c' /\ c_handle c' = c_handle c.
Proof.
  intros Hc. unfold sent_ctx. destruct (allocs type); [|by exists c].
  eexists. split; [apply lookup_insert_eq|done].
Qed.

Lemma sent_ok w M a type ctx c mem :
  pw_ok w M a -> w_ctx w !! ctx = Some c -> pw_ok (set_mem mem (set_ctx (sent_ctx type ctx c w) w)) M a.
Proof.
  intros HW Hc. apply pw_ok_mem. unfold sent_ctx. destruct (allocs type); [by eapply pw_ok_ctx|].
  by destruct w.
Qed.

Lemma sent_ctx_handle type ctx c w x :
  w_ctx w !! ctx = Some c -> c_handle <$> sent_ctx type ctx c w !! x = c_handle <$> w_ctx w !! x.
Proof.
  intros Hc. unfold sent_ctx. destruct (allocs type); [|done]. rewrite lookup_insert.
  case_decide as E; [subst x; by rewrite Hc|done].
Qed.

(** The heap after a payload, or one that was handed over, is given back. *)
Definition freed (p : Z) (mem : gmap Z (list Z)) : gmap Z (list Z) := if p =? 0 then mem else delete p mem.
Definition dropped_data (type data : Z) (mem : gmap Z (list Z)) : gmap Z (list Z) :=
  if Z.land type PIXEL_TAG_DONTCOPY =? 0 then mem else freed data mem.

Lemma free_eq p w b : p = 0 \/ w_mem w !! p = Some b -> pixel_alloc p 0 w = Some (0, set_mem (freed p (w_mem w)) w).
Proof.
  intros Hp. unfold pixel_alloc, freed. cbn [Z.eqb]. destruct (Z.eqb_spec p 0) as [->|Hn]; cbn [negb].
  - by destruct w.
  - destruct Hp as [->|Hp]; [done|]. unfold mbind, prog_bind, free_payload. by rewrite Hp.
Qed.

Lemma drop_data_eq type data w b :
  data = 0 \/ w_mem w !! data = Some b -> drop_data type data w = Some (tt, set_mem (dropped_data type data (w_mem w)) w).
Proof.
  intros Hd. unfold drop_data, dropped_data. destruct (Z.land type PIXEL_TAG_DONTCOPY =? 0); cbn [negb].
  - by destruct w.
  - by pstep (free_eq data w b Hd).
Qed.

(** The payload after a refused send. *)
Lemma sent_freed {ok : RuntimeOk rt} w w1 type data size bs :
  data = 0 \/ w_mem w !! data = Some bs -> w_mem w1 = sent_mem type data size bs w ->
  pixel_alloc (sent_data type data size w) 0 w1 = Some (0, set_mem (dropped_data type data (w_mem w)) w1).
Proof.
  intros Hd E1. unfold sent_data, sent_mem, dropped_data, copies in *. destruct (malloc_fresh (w_mem w)) as [Hp Hf].
  destruct (Z.land type PIXEL_TAG_DONTCOPY =? 0), (Z.eqb_spec data 0) as [Hz|Hz]; cbn [andb negb] in *.
  - subst data. rewrite (free_eq 0 w1 []) by auto. by rewrite E1.
  - destruct (Z.eqb_spec size 0) as [->|Hs]; cbn [negb] in E1.
    + rewrite (free_eq 0 w1 []) by auto. by rewrite E1.
    + rewrite (free_eq _ w1 (take (Z.to_nat size) bs)) by (right; by rewrite E1, lookup_insert_eq).
      unfold freed. rewrite (proj2 (Z.eqb_neq _ 0) Hp), E1. by rewrite delete_insert_id.
  - subst data. rewrite (free_eq 0 w1 []) by auto. by rewrite E1.
  - rewrite (free_eq data w1 bs) by (rewrite E1; tauto). by rewrite E1.
Qed.

(** Logging frees nothing. *)
Lemma spec_log_keeps {ok : RuntimeOk rt} source text w M a mem' a' p b :
  spec_log source text w M a = Some (mem', a') -> w_mem w !! p = Some b -> mem' !! p = Some b.
Proof.
  unfold spec_log. intros E Hp. destruct (G_log w =? 0); [by simplify_eq|].
  destruct (w_ctx w !! G_log w) as [cl|]; [|done]. cbn [mbind option_bind] in E.
  destruct (M !! low (c_handle cl)) as [[r d]|]; [|by simplify_eq].
  destruct (w_ctx w !! d) as [pd|]; [|done]. cbn [mbind option_bind] in E.
  destruct (spec_push _ _ a) as [a1|]; [|done]. cbn [mbind option_bind] in E. simplify_eq.
  destruct (malloc_fresh (w_mem w)) as [_ Hf]. rewrite lookup_insert_ne by congruence. done.
Qed.

Lemma unpack_large size : 2 ^ 56 <= size -> unpack_size size <> size.
Proof.
  intros Hs. unfold unpack_size. change MSG_TYPE_MASK with (Z.ones 56).
  rewrite Z.land_ones by lia. pose proof (Z.mod_pos_bound size (2 ^ 56) ltac:(lia)). lia.
Qed.

Lemma unpack_small size : 0 <= size < 2 ^ 56 -> unpack_size size = size.
Proof.
  intros Hs. unfold unpack_size. change MSG_TYPE_MASK with (Z.ones 56).
  rewrite Z.land_ones by lia. by apply Z.mod_small.
Qed.

Lemma ret_bind {A B} (x : A) (f : A -> prog B) w : (mret x ≫= f) w = f x w.
Proof. done. Qed.

(** A release that is not the last. *)
Lemma release_live h w c H' :
  c <> 0 -> handle_release h (w_reg w) = Some (c, 0, H') -> release h w = Some (c, set_reg H' w).
Proof. intros Hc E. unfold release. by rewrite (release_with_eq _ _ _ _ _ _ E). Qed.





End Proofs.

Section Sending.
Context {rt : Runtime} {ok : RuntimeOk rt}.
Implicit Types (w : pworld) (M : registry) (a : aworld) (m : message).

Lemma too_large_length dest size : zlen (chars (too_large dest size)) + 1 < 2 ^ 31.
Proof.
  unfold too_large, line. rewrite !chars_app, !length_app. pose proof (print_u_length dest).
  pose proof (print_d_length (i32 size)). cbn [chars length]. lia.
Qed.

Lemma harbor_send_eq m w :
  harbor_send m w = match w_ctx w !! hb_hctx (w_harbor w) with
                    | Some ch => pixel_push (c_handle ch) m w
                    | None => None
                    end.
Proof.
  unfold harbor_send, gets, pixel_handle, get, mbind, prog_bind. cbn [mbind option_bind].
  by destruct (w_ctx w !! hb_hctx (w_harbor w)).
Qed.

(** The push at the end of a send, to the service itself or to the harbor
    service. *)
Lemma send_push w ctx c src dest type session data size bs :
  w_ctx w !! ctx = Some c -> hb_harbor (w_harbor w) <> 2 ^ 32 - 1 -> 0 <= size < 2 ^ 56 -> dest <> 0 ->
  (copies type data = true -> 0 <= size < 2 ^ 31 /\ w_mem w !! data = Some bs /\ size <= zlen bs) ->
  pixel_send ctx src dest type session data size w =
  (let m := Message (if src =? 0 then c_handle c else src) (sent_session type session c)
              (sent_data type data size w) (pack_size size (Z.land type 0xff)) in
   match addressee dest w with
   | None => fail
   | Some h =>
       r ← pixel_push h m;
       if negb (r =? 0) then _ ← pixel_alloc (sent_data type data size w) 0; mret (-1)
       else mret (sent_session type session c)
   end) (set_mem (sent_mem type data size bs w) (set_ctx (sent_ctx type ctx c w) w)).
Proof.
  intros Hc Hh Hs Hd Hcp. destruct (sent_ctx_lookup type ctx c w Hc) as (c' & Hc' & Eh).
  set (w1 := set_mem _ _). unfold pixel_send. rewrite unpack_small, Z.eqb_refl by lia. cbn [negb].
  rewrite (proj2 (Z.eqb_neq dest 0)) by done.
  pstep (filter_args_spec w ctx c type session data size bs Hc Hcp). fold w1.
  pstep (get_eq ctx w1 c' Hc'). rewrite Eh. pstep (isremote_eq dest w1 Hh).
  change (remote dest w1) with (remote dest w). unfold addressee. destruct (remote dest w); cbn [Z.b2z Z.eqb negb]; [|done].
  pose proof (sent_ctx_handle type ctx c w (hb_hctx (w_harbor w)) Hc) as Ehc.
  change (sent_ctx type ctx c w) with (w_ctx w1) in Ehc.
  unfold mbind, prog_bind. rewrite harbor_send_eq. change (w_harbor w1) with (w_harbor w).
  destruct (w_ctx w !! hb_hctx (w_harbor w)) as [ch|], (w_ctx w1 !! hb_hctx (w_harbor w)) as [ch1|];
    cbn [fmap option_fmap option_map] in *; try done. by injection Ehc as ->.
Qed.

End Sending.

(** C17: sending a message, on every branch.  A message of 2^56 bytes or more is
    refused with a line in the log; destination 0 is refused; in both cases a
    payload that was handed over (PIXEL_TAG_DONTCOPY) is freed.  Any other
    message is pushed to its destination or, when the handle names another
    node, to the harbor service; without a harbor service that reads a null
    pointer ([None]).  When somebody answers the handle it is pushed to, the
    receiver gets, behind the messages it has, the sender's handle (unless a
    source is given), the session (a new one on request) and the type and size
    in one word, with the payload itself or, without PIXEL_TAG_DONTCOPY, a copy
    of it.  When nobody does, the send fails and gives back what it owned: the
    copy, or the payload handed over.  A payload that is copied has less than
    2^31 bytes, the range of the [int] that [pixel_alloc] takes, and no message
    is pushed to a handle with low bits 0 (see [handle_grab_stale]). *)
Theorem pixel_send_spec {rt : Runtime} {ok : RuntimeOk rt} w M a ctx c src dest type session data size bs :
  pw_ok w M a -> log_ok w -> ctx <> 0 -> w_ctx w !! ctx = Some c -> hb_harbor (w_harbor w) <> 2 ^ 32 - 1 ->
  data = 0 \/ w_mem w !! data = Some bs -> 0 <= size < 2 ^ 64 ->
  (copies type data = true -> size < 2 ^ 56 -> size < 2 ^ 31 /\ size <= zlen bs) ->
  if 2 ^ 56 <=? size then
    exists w' mem' a', pixel_send ctx src dest type session data size w = Some (-1, w') /\
      spec_log (c_handle c) (too_large dest size) w M a = Some (mem', a') /\
      w_mem w' = dropped_data type data mem' /\ w_ctx w' = w_ctx w /\ pw_ok w' M a'
  else if dest =? 0 then
    pixel_send ctx src dest type session data size w = Some (-1, set_mem (dropped_data type data (w_mem w)) w)
  else
    match addressee dest w with
    | None => pixel_send ctx src dest type session data size w = None
    | Some h => low h <> 0 -> exists w', w_ctx w' = sent_ctx type ctx c w /\
        match M !! low h with
        | None =>
            pixel_send ctx src dest type session data size w = Some (-1, w') /\
            w_queue w' = w_queue w /\ w_mem w' = dropped_data type data (w_mem w)
        | Some (_, d) =>
            pixel_send ctx src dest type session data size w = Some (sent_session type session c, w') /\
            w_mem w' = sent_mem type data size bs w /\
            exists p a', sent_ctx type ctx c w !! d = Some p /\
              spec_push (c_queue p)
                (Message (if src =? 0 then c_handle c else src) (sent_session type session c)
                         (sent_data type data size w) (pack_size size (Z.land type 0xff))) a = Some a' /\
              pw_ok w' M a'
        end
    end.
Proof.
  intros HW Hlog Hctx Hc Hh Hd Hs Hcp. destruct (Z.leb_spec (2 ^ 56) size) as [Hb|Hb].
  - destruct (pixel_log_spec w M a ctx (c_handle c) (too_large dest size) HW Hlog) as (q' & H' & mem' & a' & E & El & HW').
    { right. split; [done|]. by exists c. }
    { apply too_large_length. }
    eexists _, mem', a'. split; [|split; [exact El|]].
    + unfold pixel_send. rewrite (proj2 (Z.eqb_neq _ _) (unpack_large _ Hb)). cbn [negb]. pstep E.
      assert (Hd' : data = 0 \/ mem' !! data = Some bs).
      { destruct Hd as [Hd|Hd]; [by left|right]. exact (spec_log_keeps _ _ _ _ _ _ _ _ _ El Hd). }
      pstep (drop_data_eq type data (set_mem mem' (set_queue q' (set_reg H' w))) bs Hd'). reflexivity.
    + split; [done|]. split; [done|]. by apply pw_ok_mem.
  - destruct (Z.eqb_spec dest 0) as [->|Hd0].
    { unfold pixel_send. rewrite unpack_small, Z.eqb_refl by lia. cbn [negb Z.eqb]. by pstep (drop_data_eq type data w bs Hd). }
    assert (Hcp' : copies type data = true -> 0 <= size < 2 ^ 31 /\ w_mem w !! data = Some bs /\ size <= zlen bs).
    { intros Hx. destruct (Hcp Hx Hb). split; [lia|]. split; [|done]. destruct Hd as [->|?]; [|done].
      unfold copies in Hx. by rewrite andb_false_r in Hx. }
    rewrite (send_push w ctx c src dest type session data size bs Hc Hh ltac:(lia) Hd0 Hcp').
    cbv zeta. destruct (addressee dest w) as [h|]; [|done]. intros Hl.
    set (w1 := set_mem _ _). set (m := Message _ _ _ _).
    pose proof (pixel_push_spec w1 M a h m (sent_ok _ _ _ _ _ _ _ HW Hc) Hl) as Hp.
    destruct (M !! low h) as [[r d]|] eqn:HM.
    + destruct Hp as (p & a' & q' & H' & Hpd & Ha & Hpush & HR & Hrf).
      exists (set_queue q' (set_reg H' w1)). split; [done|]. split; [by pstep Hpush|]. split; [done|].
      exists p, a'. split; [done|]. split; [done|]. eapply pw_ok_push; [by apply sent_ok|done..].
    + exists (set_mem (dropped_data type data (w_mem w)) w1). split; [done|]. split; [|done].
      pstep Hp. cbn [Z.eqb negb Pos.eqb]. by pstep (sent_freed w w1 type data size bs Hd eq_refl).
Qed.

(** ** Dispatching *)

Section Dispatching.
Context {rt : Runtime} {ok : RuntimeOk rt}.
Implicit Types (w : pworld) (M : registry) (a : aworld) (m : message).








(** A reference that is not the last is given back. *)
Lemma pw_ok_release w M a h r c :
  pw_ok w M a -> M !! low h = Some (r, c) -> 1 < r ->
  exists H, release h w = Some (c, set_reg H w) /\ pw_ok (set_reg H w) (<[low h := (r - 1, c)]> M) a.
Proof.
  intros HW HM Hr. destruct (pk_live _ _ _ HW _ _ _ HM) as (_ & Hc & _).
  destruct (release_spec _ _ _ _ _ (pk_reg _ _ _ HW) HM Hc) as (H1 & Hrel & HR).
  unfold dropped in HR. cbn [fst snd] in HR. rewrite (proj2 (Z.gtb_lt (r - 1) 0)) in Hrel, HR by lia.
  exists H1. split; [by apply release_live|].
  apply (pw_ok_count w (set_reg H1 w) M a (low h) r (r - 1) c); done || lia.
Qed.



End Dispatching.


(** ** Launching and killing *)

Section Launch.
Context {rt : Runtime} {ok : RuntimeOk rt}.
Implicit Types (w : pworld) (M : registry) (a : aworld) (m : message).

(** Logging leaves the queues of all but the log service alone. *)
Lemma spec_log_other source text w M a mem' a' q :
  spec_log source text w M a = Some (mem', a') ->
  (forall cl r d p, w_ctx w !! G_log w = Some cl -> M !! low (c_handle cl) = Some (r, d) ->
     w_ctx w !! d = Some p -> c_queue p <> q) ->
  aw_queues a' !! q = aw_queues a !! q /\ (q ∈ aw_ready a' -> q ∈ aw_ready a).
Proof.
  unfold spec_log. intros E Hq. destruct (G_log w =? 0); [by simplify_eq|].
  destruct (w_ctx w !! G_log w) as [cl|]; [|done]. cbn [mbind option_bind] in E.
  destruct (M !! low (c_handle cl)) as [[r d]|] eqn:HM; [|by simplify_eq].
  destruct (w_ctx w !! d) as [pd|] eqn:Hd; [|done]. cbn [mbind option_bind] in E.
  specialize (Hq cl r d pd eq_refl HM Hd). unfold spec_push in E.
  destruct (aw_queues a !! c_queue pd) as [q0|]; [|done]. cbn [mbind option_bind] in E.
  destruct (aq_global q0 =? 0).
  - unfold spec_push_global in E. case_decide; [|done]. cbn [mbind option_bind] in E. simplify_eq. cbn.
    rewrite lookup_insert_ne by done. split; [done|]. rewrite elem_of_app, list_elem_of_singleton. intros [?|?]; congruence.
  - cbn [mbind option_bind] in E. simplify_eq. cbn. by rewrite lookup_insert_ne.
Qed.

(** The services of a well-formed world have queues of their own. *)
Lemma own_queue w M a h r ctx p h' r' d p' :
  pw_ok w M a -> M !! h = Some (r, ctx) -> w_ctx w !! ctx = Some p ->
  M !! h' = Some (r', d) -> w_ctx w !! d = Some p' -> h' <> h -> c_queue p' <> c_queue p /\ d <> ctx.
Proof.
  intros HW H1 Hp H2 Hp' Hn. assert (Hq : c_queue p' <> c_queue p).
  { intros E. apply Hn. by eapply (pk_inj _ _ _ HW h' h). }
  split; [done|]. intros ->. congruence.
Qed.

(** A service that nobody refers to any more is taken out of the memory. *)
Lemma pw_ok_dead w w' M a ctx :
  pw_ok w M a -> (forall h r, M !! h <> Some (r, ctx)) -> w_ctx w' = delete ctx (w_ctx w) ->
  w_reg w' = w_reg w -> w_queue w' = w_queue w -> pw_ok w' M a.
Proof.
  intros [HR HQ Hl Hi] Hd Ec Er Eq.
  assert (Hne : forall h r c, M !! h = Some (r, c) -> delete ctx (w_ctx w) !! c = w_ctx w !! c).
  { intros h r c E. apply lookup_delete_ne. intros ->. by eapply Hd. }
  split; rewrite ?Ec, ?Er, ?Eq; [done|done| |].
  - intros h r c E. rewrite (Hne _ _ _ E). by apply Hl.
  - intros h1 h2 r1 r2 c1 c2 p1 p2 E1 E2. rewrite (Hne _ _ _ E1), (Hne _ _ _ E2). by eapply Hi.
Qed.

Lemma mark_free_spec q (a : aworld) aq :
  aw_queues a !! q = Some aq -> aq_release aq = 0 -> (aq_global aq = 0 -> q ∉ aw_ready a) ->
  spec_mark_free q a = Some (AWorld (<[q := AQueue (aq_handle aq) (aq_msgs aq) (aq_global aq) 1 (aq_overload aq) (aq_threshold aq)]> (aw_queues a))
    (if aq_global aq =? 0 then aw_ready a ++ [q] else aw_ready a)).
Proof.
  intros Hq Hr Hg. unfold spec_mark_free. rewrite Hq. cbn [mbind option_bind]. rewrite Hr. cbn [Z.eqb negb].
  destruct (Z.eqb_spec (aq_global aq) 0) as [G|G]; [|done].
  unfold spec_push_global. rewrite decide_True; [done|]. cbn. rewrite lookup_insert_eq. split; [done|by apply Hg].
Qed.

(** The last reference: EXIT is logged, the service is freed and its queue
    marked. *)
Lemma release_last w M a h ctx c :
  pw_ok w M a -> log_ok w -> M !! low h = Some (1, ctx) -> w_ctx w !! ctx = Some c ->
  (forall w1, module_inst_free (c_module c) (c_inst c) w1 = Some (tt, w1)) ->
  exists w' a1 a2, release h w = Some (0, w') /\
    spec_log (c_handle c) (line "EXIT") w (delete (low h) M) a = Some (w_mem w', a1) /\
    spec_mark_free (c_queue c) a1 = Some a2 /\ pw_ok w' (delete (low h) M) a2 /\
    w_ctx w' = delete ctx (w_ctx w) /\ G_total w' = G_total w.
Proof.
  intros HW Hlog HM Hc Hfree. destruct (pk_live _ _ _ HW _ _ _ HM) as (_ & Hn & p & q & Hp & Hlow & Hq & Hrel & Hg).
  assert (p = c) as -> by congruence.
  destruct (release_spec _ _ _ _ _ (pk_reg _ _ _ HW) HM Hn) as (H1 & Hr & HR1).
  change (dropped (1, ctx)) with (@None (Z * Z)) in HR1.
  change (partial_alter (fun _ => None) (low h) M) with (delete (low h) M) in HR1.
  cbn in Hr.
  set (M1 := delete (low h) M) in *. set (w1 := set_reg H1 w).
  assert (HM1 : forall h' r' c', M1 !! h' = Some (r', c') -> h' <> low h /\ M !! h' = Some (r', c')).
  { intros h' r' c'. unfold M1. rewrite lookup_delete. case_decide; [done|]. by split. }
  assert (HW1 : pw_ok w1 M1 a).
  { apply (pw_ok_change w w1 M M1 a a HW); [done|done|apply (pk_queue _ _ _ HW)| |].
    - intros h' r' c' [_ E]%HM1. destruct (pk_live _ _ _ HW _ _ _ E) as (? & _). by eauto.
    - intros h' r' c' p2 q2 _ _ Hq2. by exists q2. }
  destruct (pixel_log_spec w1 M1 a ctx (c_handle c) (line "EXIT") HW1 Hlog) as (q' & H' & mem' & a1 & El & Es & HW2).
  { right. split; [done|]. by exists c. }
  { by vm_compute. }
  set (w2 := set_mem mem' (set_queue q' (set_reg H' w1))) in *.
  destruct (spec_log_other _ _ _ _ _ _ _ (c_queue c) Es) as [Hq1 Hr1].
  { intros cl r d pd _ [Hne Hd]%HM1 Hpd. by eapply (own_queue w M a (low h) 1 ctx c). }
  rewrite Hq in Hq1. pose proof (mark_free_spec (c_queue c) a1 q Hq1 Hrel ltac:(intros G Hin; by apply (Hg G), Hr1)) as Hmf.
  set (a2 := AWorld _ _) in Hmf.
  destruct (queue_mark_free_sim _ _ _ _ (pk_queue _ _ _ HW2) Hmf) as (Q2 & HQ2 & HR2).
  assert (HW3 : pw_ok (set_queue Q2 w2) M1 a2).
  { apply (pw_ok_change w2 _ M1 M1 a1 a2 HW2); [done|apply (pk_reg _ _ _ HW2)|done| |].
    - intros h' r' c' E. destruct (pk_live _ _ _ HW2 _ _ _ E) as (? & _). by eauto.
    - intros h' r' c' p2 q2 [Hne E]%HM1 Hp2 Hq2. destruct (own_queue w M a (low h) 1 ctx c h' r' c' p2 HW HM Hc E Hp2 Hne) as [Hnq _].
      exists q2. cbn [a2 aw_queues aw_ready]. rewrite lookup_insert_ne by done. split; [done|]. split; [done|].
      intros G. split; [done|]. destruct (aq_global q =? 0); [|done]. rewrite elem_of_app, list_elem_of_singleton. intros [?|?]; congruence. }
  exists (set_ctx (delete ctx (w_ctx w)) (set_queue Q2 w2)), a1, a2. split_and!; try done.
  - unfold release. rewrite (release_with_eq _ _ _ _ _ _ Hr). erewrite bind_eq; [reflexivity|].
    unfold free_with. rewrite (proj2 (Z.eqb_neq ctx 0) Hn). fold w1. pstep El. fold w2. pstep (get_eq ctx w2 c Hc).
    assert (Ef : (if c_logfile c =? 0 then mret tt else file_close (c_logfile c)) w2 = Some (tt, w2))
      by (destruct (c_logfile c =? 0); [done|apply file_close_ok]).
    pstep Ef. pstep (on_queue__eq _ w2 _ HQ2). by pstep (Hfree (set_queue Q2 w2)).
  - apply (pw_ok_dead (set_queue Q2 w2) _ M1 a2 ctx HW3); [|done..].
    intros h' r' [Hne E]%HM1. by destruct (own_queue w M a (low h) 1 ctx c h' r' ctx c HW HM Hc E Hc Hne).
Qed.

(** The world of a launch when the module is initialised: the service holds
    its own reference and the launch another, its queue is marked ready but is
    not yet in the list. *)
Definition launched (q ctx module inst handle : Z) w H Q : pworld :=
  set_reg H (set_total (G_total w + 1) (set_ctx (<[ctx := Pixel q module inst handle 0 0 0 0 0]> (w_ctx w))
    (set_queue Q w))).

Lemma launch_start w M a :
  pw_ok w M a -> expand_safe (w_reg w) = true -> H_last_id (w_reg w) + 4 * H_cap (w_reg w) < 2 ^ 24 ->
  let ctx := ctx_malloc (w_ctx w) in
  let q := queue_malloc (qw_heap (w_queue w)) in
  exists handle H1 H2 Q,
    handle_regist true ctx (w_reg w) = Some (handle, H1) /\ handle_grab handle H1 = Some (ctx, H2) /\
    Q = queue_new q handle (w_queue w) /\ M !! low handle = None /\ low handle <> 0 /\
    repr H2 (<[low handle := (2, ctx)]> M) /\
    refines Q (aupdate q (AQueue handle [] 1 0 0 QUEUE_OVERLOAD) a) /\
    aw_queues a !! q = None /\ (q ∉ aw_ready a) /\ q <> 0.
Proof.
  intros HW Hs Hid ctx q. pose proof (pk_queue _ _ _ HW) as HQ.
  destruct (regist_spec ctx (w_reg w) M (pk_reg _ _ _ HW) Hs Hid) as (h & H1 & E & Hh & HM & HR & _).
  pose proof (rp_last _ _ (pk_reg _ _ _ HW)). set (handle := Z.lor h (H_harbor (w_reg w))) in *.
  assert (El : low handle = h).
  { destruct (rp_harbor _ _ (pk_reg _ _ _ HW)) as (k & _ & Ek). unfold handle. rewrite Ek.
    apply low_harbor. lia. }
  pose proof (grab_spec H1 _ handle HR ltac:(lia)) as Hg. rewrite El, lookup_insert_eq in Hg.
  destruct Hg as (H2 & Hg & HR2 & _). rewrite insert_insert_eq in HR2.
  destruct (queue_malloc_fresh (qw_heap (w_queue w))) as [Hq0 Hqf]. fold q in Hq0, Hqf.
  assert (Hqa : aw_queues a !! q = None) by (rewrite (refines_lookup _ _ _ HQ); by rewrite Hqf).
  exists handle, H1, H2, (queue_new q handle (w_queue w)). rewrite El.
  split_and!; try done; [lia| |].
  - eapply queue_new_sim; [exact HQ|]. unfold spec_new. by rewrite decide_True.
  - intros Hin. destruct (rf_global _ _ HQ) as [Hc _ _ _].
    destruct (chain_heap _ _ _ _ Hc Hin) as [_ [x Hx]]. congruence.
Qed.

Lemma pixel_new_start w name param handle H1 H2 :
  let ctx := ctx_malloc (w_ctx w) in
  let q := queue_malloc (qw_heap (w_queue w)) in
  let module := module_query name in
  let inst := module_inst_new module in
  module <> 0 -> inst <> 0 ->
  handle_regist true ctx (w_reg w) = Some (handle, H1) -> handle_grab handle H1 = Some (ctx, H2) ->
  pixel_new name param w =
  (module_inst_init module inst ctx param ≫= fun r =>
     if negb (r =? 0) then launch_failed name param ctx else launch_done name param ctx)
    (launched q ctx module inst handle w H2 (queue_new q handle (w_queue w))).
Proof.
  intros ctx q module inst Hm Hi Hr Hg. unfold pixel_new. fold module. fold inst.
  rewrite (proj2 (Z.eqb_neq _ 0) Hm), (proj2 (Z.eqb_neq _ 0) Hi).
  erewrite bind_eq; [|reflexivity]. cbv beta. fold ctx.
  erewrite bind_eq; [|reflexivity]. cbv beta.
  erewrite bind_eq; [|apply on_reg_eq; exact Hr]. cbv beta.
  erewrite bind_eq; [|reflexivity]. cbv beta. cbn [w_queue set_reg set_ctx]. fold q.
  erewrite bind_eq; [|apply on_queue__eq; reflexivity]. cbv beta.
  erewrite bind_eq; [|reflexivity]. cbv beta.
  erewrite bind_eq; [|reflexivity]. cbv beta.
  erewrite bind_eq; [|apply on_reg_eq; exact Hg]. cbv beta.
  unfold launched. cbn [set_reg set_total set_ctx set_queue w_ctx w_queue w_reg G_total w_mem w_timer w_harbor w_env G_log].
  by rewrite insert_insert_eq.
Qed.

(** The new service in a well-formed world. *)
Lemma pw_ok_launch w M a q ctx handle p w' k :
  pw_ok w M a -> w_ctx w !! ctx = None -> aw_queues a !! q = None -> (q ∉ aw_ready a) -> ctx <> 0 -> 0 < k ->
  M !! low handle = None -> c_queue p = q -> c_handle p = handle ->
  w_ctx w' = <[ctx := p]> (w_ctx w) ->
  repr (w_reg w') (<[low handle := (k, ctx)]> M) ->
  let a' := aupdate q (AQueue handle [] 1 0 0 QUEUE_OVERLOAD) a in
  refines (w_queue w') a' -> pw_ok w' (<[low handle := (k, ctx)]> M) a'.
Proof.
  intros [HR HQ Hl Hi] Hctx Hqa Hqr Hn Hk HM Eq Eh Ec HR' a' HQ'.
  assert (Hold : forall h r c, <[low handle := (k, ctx)]> M !! h = Some (r, c) ->
    h = low handle /\ r = k /\ c = ctx \/ h <> low handle /\ M !! h = Some (r, c)).
  { intros h r c. rewrite lookup_insert. case_decide as E; [intros [= <- <-]; by left|by right]. }
  assert (Hctx' : forall h r c, M !! h = Some (r, c) -> c <> ctx /\
    exists p0 q0, w_ctx w !! c = Some p0 /\ aw_queues a !! c_queue p0 = Some q0).
  { intros h r c HMh. destruct (Hl _ _ _ HMh) as (_ & _ & p0 & q0 & Hp0 & _ & Hq0 & _).
    split; [congruence|eauto]. }
  split; [done|done| |].
  - intros h r c [(-> & -> & ->)|[Hne HMh]]%Hold.
    + split; [done|]. split; [done|]. exists p, (AQueue handle [] 1 0 0 QUEUE_OVERLOAD).
      rewrite Ec, lookup_insert_eq, Eh, Eq. cbn. rewrite lookup_insert_eq. done.
    + destruct (Hl _ _ _ HMh) as (Hr & Hc & p0 & q0 & Hp0 & Hh & Hq0 & Hrel & Hg).
      destruct (Hctx' _ _ _ HMh) as [Hcc _].
      split; [done|]. split; [done|]. exists p0, q0. cbn.
      rewrite Ec, lookup_insert_ne by done. rewrite lookup_insert_ne by congruence. done.
  - intros h1 h2 r1 r2 c1 c2 p1 p2 HM1 HM2. rewrite Ec.
    destruct (Hold _ _ _ HM1) as [(-> & _ & ->)|[Hne1 HM1']], (Hold _ _ _ HM2) as [(-> & _ & ->)|[Hne2 HM2']].
    + done.
    + destruct (Hctx' _ _ _ HM2') as [Hcc (p0 & q0 & Hp0 & Hq0)]. rewrite lookup_insert_eq, lookup_insert_ne by done.
      congruence.
    + destruct (Hctx' _ _ _ HM1') as [Hcc (p0 & q0 & Hp0 & Hq0)]. rewrite lookup_insert_eq, lookup_insert_ne by done.
      congruence.
    + destruct (Hctx' _ _ _ HM1') as [Hcc1 _], (Hctx' _ _ _ HM2') as [Hcc2 _].
      rewrite !lookup_insert_ne by done. by apply (Hi h1 h2 r1 r2 c1 c2).
Qed.

(** What the initialisation of a module may do: anything that keeps the world
    well formed, the new service and its queue, which it does not make ready;
    [k] references are held then. *)
Record init_kept (w4 : pworld) (M4 : registry) (a4 : aworld) (q handle k ctx : Z) : Prop := {
  ik_world : pw_ok w4 M4 a4;
  ik_log : log_ok w4;
  ik_service : M4 !! low handle = Some (k, ctx);
  ik_ctx : exists p4, w_ctx w4 !! ctx = Some p4 /\ c_handle p4 = handle /\ c_queue p4 = q;
  ik_queue : exists aq, aw_queues a4 !! q = Some aq /\ aq_global aq <> 0;
  ik_out : q ∉ aw_ready a4
}.

Lemma launch_line_length what name param :
  zlen (chars what) + zlen (chars name) + zlen (chars (default EmptyString param)) < 2 ^ 30 ->
  zlen (chars (launch_line what name param)) + 1 < 2 ^ 31.
Proof.
  intros Hl. unfold launch_line, line, words. rewrite !chars_app, !length_app. cbn [chars length]. lia.
Qed.

(** The end of a launch that succeeded. *)
Lemma launch_done_spec w4 M4 a4 name param q handle k ctx :
  init_kept w4 M4 a4 q handle k ctx -> 1 < k ->
  zlen (chars "LAUNCH") + zlen (chars name) + zlen (chars (default EmptyString param)) < 2 ^ 30 ->
  exists w' a', launch_done name param ctx w4 = Some (ctx, w') /\
    spec_log handle (launch_line "LAUNCH" name param) w4 (<[low handle := (k - 1, ctx)]> M4) (aw_enqueue_ready q a4) =
      Some (w_mem w', a') /\
    pw_ok w' (<[low handle := (k - 1, ctx)]> M4) a' /\ w_ctx w' = w_ctx w4 /\ G_total w' = G_total w4.
Proof.
  intros [HW Hlog HM (p4 & Hp & Eh & Eq) (aq & Haq & Hg) Hout] Hk Hlen.
  destruct (pk_live _ _ _ HW _ _ _ HM) as (_ & Hn & _).
  destruct (refines_push_global _ _ (aw_enqueue_ready q a4) q (pk_queue _ _ _ HW)) as (Q2 & HQ2 & HR2).
  { unfold spec_push_global. rewrite decide_True; [done|]. split; [by eexists|done]. }
  assert (HW2 : pw_ok (set_queue Q2 w4) M4 (aw_enqueue_ready q a4)).
  { apply (pw_ok_change w4 _ M4 M4 a4 _ HW); [done|apply (pk_reg _ _ _ HW)|done| |].
    - intros h' r' c' E. destruct (pk_live _ _ _ HW _ _ _ E) as (? & _). by eauto.
    - intros h' r' c' p2 q2 E Hp2 Hq2. exists q2. split; [done|]. split; [done|]. intros G. split; [done|].
      cbn [aw_enqueue_ready aw_ready]. rewrite elem_of_app, list_elem_of_singleton. intros [?|Ex]; [done|].
      rewrite Ex in Hq2. congruence. }
  destruct (pw_ok_release (set_queue Q2 w4) M4 _ handle k ctx HW2 HM Hk) as (H5 & Hrel & HW5).
  destruct (pixel_log_spec _ _ _ ctx handle (launch_line "LAUNCH" name param) HW5) as (q' & H' & mem' & a' & El & Es & HW6).
  { exact Hlog. }
  { right. split; [done|]. by exists p4. }
  { by apply launch_line_length. }
  exists (set_mem mem' (set_queue q' (set_reg H' (set_reg H5 (set_queue Q2 w4))))), a'.
  split; [|split; [exact Es|by split]].
  unfold launch_done. pstep (get_eq ctx w4 p4 Hp). rewrite Eq, Eh. pstep (on_queue__eq (queue_push_global q) w4 _ HQ2).
  pstep Hrel. rewrite (proj2 (Z.eqb_neq ctx 0) Hn). by pstep El.
Qed.

(** The end of a launch that failed. *)
Lemma launch_failed_spec w4 M4 a4 name param q handle ctx :
  init_kept w4 M4 a4 q handle 2 ctx -> aq_msgs <$> aw_queues a4 !! q = Some [] ->
  (forall cl, w_ctx w4 !! G_log w4 = Some cl -> low (c_handle cl) <> low handle) ->
  zlen (chars "LAUNCH FAILED") + zlen (chars name) + zlen (chars (default EmptyString param)) < 2 ^ 30 ->
  (forall p4 w1, w_ctx w4 !! ctx = Some p4 -> module_inst_free (c_module p4) (c_inst p4) w1 = Some (tt, w1)) ->
  exists w' mem5 a5 a6, launch_failed name param ctx w4 = Some (0, w') /\
    spec_log handle (launch_line "LAUNCH FAILED" name param) w4 M4 a4 = Some (mem5, a5) /\
    spec_log handle (line "EXIT") (set_mem mem5 w4) (delete (low handle) M4) a5 = Some (w_mem w', a6) /\
    pw_ok w' (delete (low handle) M4) (AWorld (delete q (aw_queues a6)) (aw_ready a6)) /\
    w_ctx w' = delete ctx (w_ctx w4) /\ G_total w' = G_total w4 - 1.
Proof.
  intros [HW Hlog HM (p4 & Hp & Eh & Eq) (aq & Haq & Hg) Hout] Hms Hother Hlen Hfree.
  destruct (pk_live _ _ _ HW _ _ _ HM) as (_ & Hn & p & aq' & Hp' & _ & Haq' & Hrel & _).
  assert (p = p4) as -> by congruence. rewrite Eq in Haq'. assert (aq' = aq) as -> by congruence.
  assert (Hmsgs : aq_msgs aq = []) by (rewrite Haq in Hms; by injection Hms).
  destruct (pixel_log_spec w4 M4 a4 ctx handle (launch_line "LAUNCH FAILED" name param) HW Hlog) as (q' & H' & mem5 & a5 & El & Es & HW5).
  { right. split; [done|]. by exists p4. }
  { by apply launch_line_length. }
  set (w5 := set_mem mem5 (set_queue q' (set_reg H' w4))) in *.
  assert (Hlq : forall M cl r d pd, (forall h r c, M !! h = Some (r, c) -> exists r0, M4 !! h = Some (r0, c)) ->
    w_ctx w4 !! G_log w4 = Some cl -> M !! low (c_handle cl) = Some (r, d) -> w_ctx w4 !! d = Some pd -> c_queue pd <> q).
  { intros M cl r d pd HMM Hcl Hd Hpd. destruct (HMM _ _ _ Hd) as [r0 Hd0]. rewrite <- Eq.
    apply (own_queue w4 M4 a4 (low handle) 2 ctx p4 (low (c_handle cl)) r0 d pd HW HM Hp Hd0 Hpd). by apply Hother. }
  destruct (spec_log_other _ _ _ _ _ _ _ q Es) as [Hq5 Hr5]; [intros cl r d pd; apply Hlq; by eauto|].
  destruct (pw_ok_release w5 M4 a5 handle 2 ctx HW5 HM ltac:(lia)) as (H6 & Hrel6 & HW6).
  change (2 - 1) with 1 in HW6. set (w6 := set_reg H6 w5) in *. set (M6 := <[low handle := (1, ctx)]> M4) in *.
  destruct (release_last w6 M6 a5 handle ctx p4 HW6 Hlog (lookup_insert_eq _ _ _) Hp) as (w7 & a6 & a7 & Hrel7 & Es7 & Hmf & HW7 & Ec7 & Et7).
  { intros w1. by apply Hfree. }
  assert (EM : delete (low handle) M6 = delete (low handle) M4) by (unfold M6; by rewrite delete_insert_eq).
  rewrite EM in *. rewrite Eh in Es7. rewrite Eq in Hmf.
  destruct (spec_log_other _ _ _ _ _ _ _ q Es7) as [Hq6 Hr6].
  { intros cl r d pd. apply (Hlq (delete (low handle) M4)). intros h' r' c'. rewrite lookup_delete_Some. intros [_ ?]. by eauto. }
  rewrite Hq5, Haq in Hq6. rewrite (mark_free_spec q a6 aq Hq6 Hrel ltac:(done)) in Hmf. injection Hmf as <-.
  rewrite (proj2 (Z.eqb_neq _ 0) Hg) in HW7. set (aq1 := AQueue _ _ _ 1 _ _) in HW7.
  destruct (queue_free_sim _ _ (AWorld (delete q (aw_queues a6)) (aw_ready a6)) q [] (pk_queue _ _ _ HW7)) as (Q8 & HQ8 & HR8).
  { unfold spec_free. cbn [aw_queues aw_ready]. rewrite lookup_insert_eq. cbn [mbind option_bind aq1 aq_release Z.eqb].
    rewrite decide_False by (intros Hin; by apply Hout, Hr5, Hr6). subst aq1. cbn [aq_msgs]. by rewrite Hmsgs, delete_insert_eq. }
  assert (Hqn : forall h r c p2, delete (low handle) M4 !! h = Some (r, c) -> w_ctx w7 !! c = Some p2 -> c_queue p2 <> q).
  { intros h r c p2. rewrite lookup_delete_Some. intros [Hne E] Hp2. rewrite Ec7 in Hp2.
    apply lookup_delete_Some in Hp2 as [_ Hp2]. rewrite <- Eq.
    by apply (own_queue w4 M4 a4 (low handle) 2 ctx p4 h r c p2). }
  exists (set_total (G_total w7 - 1) (set_queue Q8 w7)), mem5, a5, a6. split; [|split; [exact Es|split; [exact Es7|split; [|split]]]].
  - unfold launch_failed. pstep El. fold w5. pstep (get_eq ctx w5 p4 Hp). rewrite Eh. pstep Hrel6. fold w6.
    erewrite bind_eq; [reflexivity|]. unfold pixel_force_free. pstep (get_eq ctx w6 p4 Hp). rewrite Eh. pstep Hrel7.
    cbn [Z.eqb]. rewrite Eq.
    assert (Ef : free_queue q w7 = Some (tt, set_queue Q8 w7))
      by (unfold free_queue; by pstep (on_queue_eq (queue_free q) w7 _ _ HQ8)).
    by pstep Ef.
  - apply (pw_ok_change w7 _ _ (delete (low handle) M4) _ _ HW7); [done|apply (pk_reg _ _ _ HW7)|done| |].
    + intros h' r' c' E. destruct (pk_live _ _ _ HW7 _ _ _ E) as (? & _). by eauto.
    + intros h' r' c' p2 q2 E Hp2. pose proof (Hqn _ _ _ _ E Hp2) as Hne. cbn [aw_queues aw_ready].
      rewrite lookup_insert_ne, lookup_delete_ne by done. intros Hq2. by exists q2.
  - done.
  - cbn [G_total set_total set_queue]. rewrite Et7. done.
Qed.

Lemma pixel_new_run w M a name param :
  let module := module_query name in
  let inst := module_inst_new module in
  let ctx := ctx_malloc (w_ctx w) in
  let q := queue_malloc (qw_heap (w_queue w)) in
  pw_ok w M a -> log_ok w -> expand_safe (w_reg w) = true -> H_last_id (w_reg w) + 4 * H_cap (w_reg w) < 2 ^ 24 ->
  module <> 0 -> inst <> 0 ->
  exists handle wL, M !! low handle = None /\ w_ctx wL = <[ctx := Pixel q module inst handle 0 0 0 0 0]> (w_ctx w) /\
    w_mem wL = w_mem w /\ G_total wL = G_total w + 1 /\ G_log wL = G_log w /\
    init_kept wL (<[low handle := (2, ctx)]> M) (aupdate q (AQueue handle [] 1 0 0 QUEUE_OVERLOAD) a) q handle 2 ctx /\
    pixel_new name param w =
    (module_inst_init module inst ctx param ≫= fun r =>
       if negb (r =? 0) then launch_failed name param ctx else launch_done name param ctx) wL.
Proof.
  intros module inst ctx q HW Hlog Hs Hid Hm Hi.
  destruct (launch_start w M a HW Hs Hid) as (handle & H1 & H2 & Q & Hr & Hg & EQ & HM & Hl & HR & HQ & Hqa & Hqr & Hq0).
  fold ctx in Hr, Hg, HR. fold q in EQ, HQ, Hqa, Hqr, Hq0.
  destruct (ctx_malloc_fresh (w_ctx w)) as [Hn Hf]. fold ctx in Hn, Hf.
  exists handle, (launched q ctx module inst handle w H2 Q). split_and!; try done.
  - split.
    + by apply (pw_ok_launch w M a q ctx handle (Pixel q module inst handle 0 0 0 0 0)); try done.
    + destruct Hlog as [Hlog|(cl & Hcl & Hlow)]; [by left|right]. exists cl. split; [|done].
      cbn. rewrite lookup_insert_ne; [done|]. intros E. congruence.
    + apply lookup_insert_eq.
    + eexists. cbn. by rewrite lookup_insert_eq.
    + eexists. cbn. by rewrite lookup_insert_eq.
    + done.
  - rewrite EQ. by apply (pixel_new_start w name param handle H1 H2).
Qed.

End Launch.

(** C19: launching a service.  Without such a module, or when it makes no
    instance, nothing happens.  Otherwise, while the registry can register
    safely (see C8), the module is initialised in a world where the service is
    registered under a fresh handle with two references, its own and the
    launch's, has an empty queue and is counted.  The initialisation may do
    anything that keeps this in order ([init_kept]).  When it accepts, the
    queue is put behind the ready ones, the launch gives up its reference, and
    LAUNCH is logged.  When it refuses, nobody else has taken a reference, no
    message came in, the service is not the log service itself, and freeing the
    instance leaves the world alone: LAUNCH FAILED and EXIT are logged, the
    service, its handle and its queue are gone and it is not counted. *)
Theorem pixel_new_spec {rt : Runtime} {ok : RuntimeOk rt} w M a name param :
  let module := module_query name in
  let inst := module_inst_new module in
  let ctx := ctx_malloc (w_ctx w) in
  let q := queue_malloc (qw_heap (w_queue w)) in
  pw_ok w M a -> log_ok w -> zlen (chars name) + zlen (chars (default EmptyString param)) < 2 ^ 29 ->
  (module = 0 \/ inst = 0 -> pixel_new name param w = Some (0, w)) /\
  (expand_safe (w_reg w) = true -> H_last_id (w_reg w) + 4 * H_cap (w_reg w) < 2 ^ 24 -> module <> 0 -> inst <> 0 ->
   exists handle wL, M !! low handle = None /\
     w_ctx wL = <[ctx := Pixel q module inst handle 0 0 0 0 0]> (w_ctx w) /\ w_mem wL = w_mem w /\
     G_total wL = G_total w + 1 /\ G_log wL = G_log w /\
     init_kept wL (<[low handle := (2, ctx)]> M) (aupdate q (AQueue handle [] 1 0 0 QUEUE_OVERLOAD) a) q handle 2 ctx /\
     forall r w4 M4 a4 k, module_inst_init module inst ctx param wL = Some (r, w4) ->
       init_kept w4 M4 a4 q handle k ctx ->
       (r = 0 -> 1 < k ->
        exists w' a', pixel_new name param w = Some (ctx, w') /\
          spec_log handle (launch_line "LAUNCH" name param) w4 (<[low handle := (k - 1, ctx)]> M4) (aw_enqueue_ready q a4) =
            Some (w_mem w', a') /\
          pw_ok w' (<[low handle := (k - 1, ctx)]> M4) a' /\ w_ctx w' = w_ctx w4 /\ G_total w' = G_total w4) /\
       (r <> 0 -> k = 2 -> aq_msgs <$> aw_queues a4 !! q = Some [] ->
        (forall cl, w_ctx w4 !! G_log w4 = Some cl -> low (c_handle cl) <> low handle) ->
        (forall p4 w1, w_ctx w4 !! ctx = Some p4 -> module_inst_free (c_module p4) (c_inst p4) w1 = Some (tt, w1)) ->
        exists w' mem5 a5 a6, pixel_new name param w = Some (0, w') /\
          spec_log handle (launch_line "LAUNCH FAILED" name param) w4 M4 a4 = Some (mem5, a5) /\
          spec_log handle (line "EXIT") (set_mem mem5 w4) (delete (low handle) M4) a5 = Some (w_mem w', a6) /\
          pw_ok w' (delete (low handle) M4) (AWorld (delete q (aw_queues a6)) (aw_ready a6)) /\
          w_ctx w' = delete ctx (w_ctx w4) /\ G_total w' = G_total w4 - 1)).
Proof.
  intros module inst ctx q HW Hlog Hlen. split.
  { intros H0. unfold pixel_new. fold module. fold inst. destruct (Z.eqb_spec module 0); [done|].
    destruct H0 as [|H0]; [done|]. by rewrite (proj2 (Z.eqb_eq inst 0) H0). }
  intros Hs Hid Hm Hi. destruct (pixel_new_run w M a name param HW Hlog Hs Hid Hm Hi) as (handle & wL & HM & Ec & Em & Et & Eg & HL & E).
  fold module inst ctx q in E, HL, Ec. exists handle, wL. do 6 (split; [done|]).
  intros r w4 M4 a4 k Hinit HI. rewrite E. split; intros Hr Hk.
  - rewrite (bind_eq _ _ _ _ _ Hinit). cbv beta. rewrite (proj2 (Z.eqb_eq r 0) Hr). cbn [negb].
    apply launch_done_spec; [done|done|]. cbn [chars length]. lia.
  - intros Hms Hother Hfree. rewrite (bind_eq _ _ _ _ _ Hinit). cbv beta. rewrite (proj2 (Z.eqb_neq r 0) Hr). cbn [negb]. subst k.
    apply launch_failed_spec; [done..| |done]. cbn [chars length]. lia.
Qed.

(** ** Handles as text *)

Lemma acode_achar z : 0 <= z < 256 -> acode (achar z) = z.
Proof. intros Hz. unfold acode, achar. rewrite Ascii.N_ascii_embedding; lia. Qed.

Lemma digit_achar d : 0 <= d < 10 -> digit (achar (48 + d)) = d.
Proof.
  intros Hd. unfold digit. rewrite acode_achar by lia.
  rewrite (proj2 (Z.leb_le _ _)), (proj2 (Z.leb_le _ _)) by lia. cbn [andb]. lia.
Qed.

Lemma print_digits_scan fuel n acc :
  0 <= n < 10 ^ Z.of_nat fuel -> scan_digits 10 (print_digits fuel n acc) 0 = scan_digits 10 acc n.
Proof.
  revert n acc. induction fuel as [|fuel IH]; intros n acc Hn.
  - change (10 ^ Z.of_nat 0) with 1 in Hn. cbn. by replace n with 0 by lia.
  - rewrite Nat2Z.inj_succ, Z.pow_succ_r in Hn by lia. cbn [print_digits].
    assert (Hd : 0 <= n mod 10 < 10) by (apply Z.mod_pos_bound; lia).
    assert (E : n / 10 * 10 + n mod 10 = n) by zdiv.
    destruct (Z.ltb_spec n 10).
    + cbn [scan_digits]. rewrite digit_achar, (proj2 (Z.ltb_lt _ _)) by lia. f_equal. zdiv.
    + rewrite IH by zdiv. cbn [scan_digits]. rewrite digit_achar, (proj2 (Z.ltb_lt _ _)) by lia.
      by f_equal.
Qed.

Lemma print_digits_head fuel n acc :
  0 < n < 10 ^ Z.of_nat fuel ->
  exists c s, print_digits fuel n acc = String c s /\ 49 <= acode c <= 57.
Proof.
  revert n acc. induction fuel as [|fuel IH]; intros n acc Hn.
  - change (10 ^ Z.of_nat 0) with 1 in Hn. lia.
  - rewrite Nat2Z.inj_succ, Z.pow_succ_r in Hn by lia. cbn [print_digits].
    destruct (Z.ltb_spec n 10); [|apply IH; zdiv].
    eexists _, _. split; [done|]. rewrite acode_achar by zdiv. zdiv.
Qed.

(** A handle or a number that a command prints (LAUNCH, SELF, QUERY) is
    read back by the commands that take one (KILL, NAME, LOGON, SIGNAL):
    [strtoul] with base 0 never takes the printed text for octal or
    hexadecimal. *)
Lemma print_parse n : 0 <= n < 2 ^ 32 -> strtoul (print_u n) = n.
Proof.
  intros Hn. destruct (Z.eqb_spec n 0) as [->|Hne]; [by vm_compute|].
  destruct (print_digits_head 10 n EmptyString) as (c & s & E & Hc); [lia|].
  pose proof (print_digits_scan 10 n EmptyString ltac:(lia)) as Hs. cbn [scan_digits] in Hs.
  unfold strtoul, print_u. rewrite E in *. cbn [skip_space]. unfold isspace.
  rewrite (proj2 (Z.eqb_neq _ 32)), (proj2 (Z.leb_gt (acode c) 13)), andb_false_r by lia. cbn [orb sign].
  rewrite (proj2 (Z.eqb_neq _ 45)), (proj2 (Z.eqb_neq _ 43)) by lia.
  assert (Ea : auto_base (String c s) = (10, String c s)).
  { cbn [auto_base]. destruct s as [|x [|d s']]; by rewrite (proj2 (Z.eqb_neq _ 48)) by lia. }
  rewrite Ea, Hs, Z.geb_leb, (proj2 (Z.leb_gt _ _)) by lia.
  apply Z.mod_small. lia.
Qed.

(** ** Nodes *)

Lemma top_byte h : 0 <= h < 2 ^ 32 -> Z.land h 0xff000000 = Z.shiftr h 24 * 2 ^ 24.
Proof.
  intros Hh. rewrite <- Z.shiftl_mul_pow2 by lia.
  apply Z.bits_inj'. intros i Hi. rewrite Z.land_spec.
  change 0xff000000 with (Z.shiftl (Z.ones 8) 24).
  destruct (Z.lt_ge_cases i 24).
  - rewrite !Z.shiftl_spec_low by lia. apply andb_false_r.
  - rewrite !Z.shiftl_spec, Z.shiftr_spec, Z.sub_add by lia. destruct (Z.lt_ge_cases (i - 24) 8).
    + rewrite Z.ones_spec_low by lia. apply andb_true_r.
    + rewrite Z.ones_spec_high, (word_bit h) by (done || lia). done.
Qed.

(** A handle is remote exactly when its top byte names a node other than
    this one; the handles registered here are never remote. *)
Lemma remote_handles n w handle :
  hb_harbor (w_harbor w) = hb_harbor (harbor_init n) -> 0 <= handle < 2 ^ 32 ->
  harbor_isremote handle w =
    Some (Z.b2z (negb (Z.shiftr handle 24 =? n mod 2 ^ 8) && negb (Z.shiftr handle 24 =? 0)), w) /\
  (forall ctx H M, repr H M -> H_harbor H = H_harbor (handle_init n) -> expand_safe H = true ->
     H_last_id H + 4 * H_cap H < 2 ^ 24 ->
     exists h H', handle_regist true ctx H = Some (h, H') /\ harbor_isremote h w = Some (0, w)).
Proof.
  intros Hw Hh.
  assert (Hn : forall h, 0 <= h < 2 ^ 32 -> harbor_isremote h w =
    Some (Z.b2z (negb (Z.shiftr h 24 =? n mod 2 ^ 8) && negb (Z.shiftr h 24 =? 0)), w)).
  { intros h Hr. unfold harbor_isremote, gets, mbind, prog_bind. cbn [mbind option_bind].
    rewrite Hw. cbn [harbor_init hb_harbor]. change (Z.land n 0xff) with (Z.land n (Z.ones 8)).
    rewrite Z.land_ones by lia. unfold u32. rewrite Z.shiftl_mul_pow2 by lia.
    pose proof (Z.mod_pos_bound n (2 ^ 8) ltac:(lia)). rewrite Z.mod_small by lia.
    rewrite (proj2 (Z.eqb_neq _ (2 ^ 32 - 1))) by lia.
    change (Z.lxor (2 ^ 32 - 1) 0xffffff) with 0xff000000. rewrite top_byte by done.
    unfold mret, prog_ret. do 3 f_equal. lia. }
  split; [by apply Hn|]. intros ctx H M HR EH Hs Hid.
  destruct (regist_spec ctx H M HR Hs Hid) as (h & H' & Hx & Hr & _).
  eexists _, _. split; [exact Hx|]. pose proof (rp_last _ _ HR).
  rewrite EH. cbn [handle_init H_harbor].
  change (Z.land n 0xff) with (Z.land n (Z.ones 8)). rewrite Z.land_ones by lia.
  pose proof (Z.mod_pos_bound n (2 ^ 8) ltac:(lia)).
  unfold u32. rewrite Z.shiftl_mul_pow2, (Z.mod_small (_ * _)) by lia.
  rewrite Z.lor_comm, <- Z.shiftl_mul_pow2, lor_shiftl by lia.
  rewrite Hn by lia. rewrite Z.shiftr_div_pow2 by lia.
  replace ((n mod 2 ^ 8 * 2 ^ 24 + h) / 2 ^ 24) with (n mod 2 ^ 8) by zdiv. by rewrite Z.eqb_refl.
Qed.

(** ** A service killed from its own callback *)

(** KILL releases the reference of the registration without checking that
    it is still there: a service that sends KILL twice while it handles a
    message (two references: the registration and the dispatching thread)
    is freed during its own callback, although the thread still holds its
    reference. *)
Lemma kill_twice_frees {rt : Runtime} {ok : RuntimeOk rt} w M a ctx c :
  pw_ok w M a -> log_ok w -> w_ctx w !! ctx = Some c ->
  M !! low (c_handle c) = Some (2, ctx) ->
  (forall w1, module_inst_free (c_module c) (c_inst c) w1 = Some (tt, w1)) ->
  exists w1 w2, _cmd_kill ctx None w = Some (None, w1) /\ w_ctx w1 !! ctx = Some c /\
    _cmd_kill ctx None w1 = Some (None, w2) /\ w_ctx w2 !! ctx = None.
Proof.
  intros HW Hlog Hc HM Hfree.
  destruct (pw_ok_release w M a (c_handle c) 2 ctx HW HM ltac:(lia)) as (H1 & Hr1 & HW1).
  destruct (release_last _ _ _ (c_handle c) ctx c HW1 Hlog (lookup_insert_eq _ _ _) Hc Hfree)
    as (w2 & _ & _ & Hr2 & _ & _ & _ & Ec2 & _).
  assert (Hkill : forall w' x w'', w_ctx w' !! ctx = Some c -> release (c_handle c) w' = Some (x, w'') ->
    _cmd_kill ctx None w' = Some (None, w'')).
  { intros w' x w'' Hc' Hr. unfold _cmd_kill, param_handle, pixel_handle, bad_handle.
    erewrite bind_eq; [|by pstep (get_eq ctx w' c Hc')]. cbv beta iota. by pstep Hr. }
  exists (set_reg H1 w), w2. split_and!; [by eapply Hkill|done|by eapply Hkill|]. by rewrite Ec2, lookup_delete_eq.
Qed.

(** ** Witnesses *)

#[local] Instance demo_rt : Runtime := {
  malloc := zfresh;
  ctx_malloc := zfresh;
  queue_malloc := zfresh;
  module_query s := if strcmp s "none" =? 0 then 0 else 7;
  module_inst_new m := m + 1;
  module_inst_init m i c p := mret (match p with Some _ => 1 | None => 0 end);
  module_inst_free m i := mret tt;
  module_inst_signal m i s := mret tt;
  call_cb cb c ud t s src d n := _ ← pixel_session c; mret 0;
  file_open name := mret 3;
  file_write f s := mret tt;
  file_close f := mret tt;
  ctime t := newline
}.

Lemma demo_rt_ok : RuntimeOk demo_rt.
Proof. split; intros; (done || apply zfresh_spec). Qed.

Definition demo_w0 : pworld :=
  PWorld 0 0 ∅ {[ 77 := [1; 2; 3] ]} (handle_init 5) (QWorld ∅ 0 0) (timer_init 0 0 0) (harbor_init 5) ∅.

Lemma demo_w0_ok : pw_ok demo_w0 ∅ (AWorld ∅ []).
Proof.
  split; [apply handle_init_repr| | |].
  - apply refines_init; [apply map_Forall_empty|done].
  - intros h r c H. by rewrite lookup_empty in H.
  - intros h1 h2 r1 r2 c1 c2 p1 p2 H. by rewrite lookup_empty in H.
Qed.

Lemma pixel_new_spec_witness :
  (exists w, pixel_new "a" None demo_w0 = Some (1, w) /\ G_total w = 1) /\
  (exists w, pixel_new "a" (Some "bad") demo_w0 = Some (0, w) /\ G_total w = 0 /\ w_ctx w !! 1 = None).
Proof.
  split.
  - destruct (pixel_new_spec (ok := demo_rt_ok) demo_w0 ∅ (AWorld ∅ []) "a" None demo_w0_ok (or_introl eq_refl) eq_refl) as [_ H].
    destruct (H eq_refl eq_refl ltac:(discriminate) ltac:(discriminate)) as (h & wL & _ & _ & _ & Et & _ & HL & Hrun).
    destruct (proj1 (Hrun 0 wL _ _ 2 eq_refl HL) eq_refl ltac:(lia)) as (w & a & E & _ & _ & _ & Et').
    exists w. split; [exact E|]. rewrite Et', Et. reflexivity.
  - destruct (pixel_new_spec (ok := demo_rt_ok) demo_w0 ∅ (AWorld ∅ []) "a" (Some "bad") demo_w0_ok (or_introl eq_refl) eq_refl) as [_ H].
    destruct (H eq_refl eq_refl ltac:(discriminate) ltac:(discriminate)) as (h & wL & _ & Ec & _ & Et & Eg & HL & Hrun).
    destruct (proj2 (Hrun 1 wL _ _ 2 eq_refl HL) ltac:(discriminate) eq_refl) as (w & m5 & a5 & a6 & E & _ & _ & _ & Ec' & Et').
    + vm_compute. reflexivity.
    + intros cl. rewrite Eg, Ec. discriminate.
    + reflexivity.
    + exists w. split; [exact E|]. split; [rewrite Et', Et; reflexivity|]. rewrite Ec'. apply lookup_delete_eq.
Defined.

Example remote_handles_5 :
  harbor_isremote 83886081 demo_w0 = Some (0, demo_w0) /\ harbor_isremote 100663297 demo_w0 = Some (1, demo_w0).
Proof.
  split; [apply (remote_handles 5 demo_w0 83886081) | apply (remote_handles 5 demo_w0 100663297)];
    (reflexivity || lia).
Qed.

(** One service at address 1, with its queue at address 1. *)
Definition demo_w1 : pworld := match pixel_new "a" None demo_w0 with Some (_, w) => w | None => demo_w0 end.

Lemma demo_w1_ok :
  pw_ok demo_w1 (<[1 := (1, 1)]> ∅) (AWorld (<[1 := AQueue 83886081 [] 1 0 0 1024]> ∅) [1]).
Proof.
  destruct (pixel_new_run (ok := demo_rt_ok) demo_w0 ∅ (AWorld ∅ []) "a" None demo_w0_ok (or_introl eq_refl))
    as (h & wL & _ & Ec & _ & _ & Eg & HL & E); [reflexivity|reflexivity|discriminate|discriminate|].
  change (pixel_new "a" None demo_w0 = launch_done "a" None (ctx_malloc (w_ctx demo_w0)) wL) in E.
  destruct (launch_done_spec (ok := demo_rt_ok) _ _ _ "a" None _ _ 2 _ HL ltac:(lia) eq_refl) as (w & a & Ed & Es & HW & Ecw & _).
  rewrite Ed in E. assert (Ew : demo_w1 = w) by (unfold demo_w1; by rewrite E).
  assert (Eh : h = 83886081).
  { assert (H : (w_ctx demo_w1 !! 1) = Some (Pixel 1 7 8 83886081 0 0 0 0 0)) by (vm_compute; reflexivity).
    rewrite Ew, Ecw, Ec in H. injection H as H. exact H. }
  unfold spec_log in Es. rewrite Eg in Es. injection Es as _ <-. rewrite Ew. rewrite Eh, insert_insert_eq in HW. exact HW.
Qed.

Definition demo_service : pixel := Pixel 1 7 8 83886081 0 0 0 0 0.

Lemma demo_w1_service : w_ctx demo_w1 !! 1 = Some demo_service.
Proof. vm_compute. reflexivity. Qed.

Lemma pixel_send_spec_witness :
  exists w', pixel_send 1 0 83886081 0x20007 0 77 2 demo_w1 = Some (1, w') /\
    w_mem w' = <[78 := [1; 2]]> (w_mem demo_w1).
Proof.
  pose proof (pixel_send_spec (ok := demo_rt_ok) demo_w1 _ _ 1 demo_service 0 83886081 0x20007 0 77 2 [1; 2; 3]
    demo_w1_ok (or_introl eq_refl) ltac:(discriminate) demo_w1_service ltac:(discriminate)
    (or_intror (eq_refl : w_mem demo_w1 !! 77 = Some [1; 2; 3])) ltac:(lia) ltac:(cbn; lia)) as H.
  change (2 ^ 56 <=? 2) with false in H. change (83886081 =? 0) with false in H. cbv iota in H.
  change (addressee 83886081 demo_w1) with (Some 83886081) in H.
  destruct (H ltac:(discriminate)) as (w' & _ & E & Em & _).
  exists w'. split; [exact E|]. etransitivity; [exact Em|]. vm_compute. reflexivity.
Defined.

(** On a node without a harbor service a message to another node reads the
    handle of a null service. *)
Example harbor_missing : pixel_send 1 0 100663297 7 0 0 0 demo_w1 = None.
Proof. vm_compute. reflexivity. Qed.




(** The same service while it is dispatched: a second reference is held. *)
Definition demo_w4 : pworld :=
  match handle_grab 83886081 (w_reg demo_w1) with Some (_, H) => set_reg H demo_w1 | None => demo_w1 end.

Lemma demo_w4_ok : pw_ok demo_w4 (<[1 := (2, 1)]> ∅) (AWorld (<[1 := AQueue 83886081 [] 1 0 0 1024]> ∅) [1]).
Proof.
  pose proof demo_w1_ok as [HR HQ Hl Hi].
  pose proof (grab_spec _ _ 83886081 HR ltac:(done)) as Hg. change (low 83886081) with 1 in Hg.
  rewrite lookup_insert_eq in Hg. destruct Hg as (H' & Hg & HR' & _). rewrite insert_insert_eq in HR'.
  unfold demo_w4. rewrite Hg. split; [exact HR'|exact HQ| |].
  - intros h r c. rewrite lookup_insert. case_decide as E; [|by rewrite lookup_empty].
    intros [= <- <-]. split; [lia|]. split; [done|]. subst h.
    destruct (Hl 1 1 1) as (_ & _ & Hrest); [apply lookup_insert_eq|]. exact Hrest.
  - intros h1 h2 r1 r2 c1 c2 p1 p2 E1 E2 _ _ _.
    rewrite lookup_insert_Some, lookup_empty in E1, E2. destruct E1 as [[<- _]|[_ ?]], E2 as [[<- _]|[_ ?]]; done.
Qed.

Lemma kill_twice_frees_witness :
  exists w1 w2, _cmd_kill 1 None demo_w4 = Some (None, w1) /\ _cmd_kill 1 None w1 = Some (None, w2) /\
    w_ctx w2 !! 1 = None.
Proof.
  destruct (kill_twice_frees (ok := demo_rt_ok) demo_w4 _ _ 1 demo_service demo_w4_ok) as (w1 & w2 & E1 & _ & E2 & E3);
    [left; reflexivity|vm_compute; reflexivity|apply lookup_insert_eq|reflexivity|].
  exists w1, w2. split; [exact E1|]. split; [exact E2|exact E3].
Defined.
