(* ===== verification/Sched.v ===== *)
(** * The dispatching threads (src/pixel.c, src/queue.c, src/handle.c)

    Workers run [pixel_dispatch] in a loop, fall asleep when there is nothing to
    do, and are woken up by the timer thread, which stops the node when no
    service is counted; other threads send messages, launch services and kill
    them.  A thread is its program counter; one step
    is one critical section or one access to shared memory, so that every
    interleaving of the threads is a sequence of steps.  A callback may do what
    other threads do; its sends and kills are threads of their own.

    The steps run the operations of [Queue] and [Handle].  [None] is undefined
    behaviour: a dangling service, a queue freed before, a failed assertion.

    Not here: messages' payloads and the log (see [Pixel]), launches that the
    module refuses, the signals of the socket thread and wake-ups without a
    signal, and the contracts the code leaves to its users: a message goes to a
    handle whose launch got as far as its queue, KILL is used once per service
    (see [Pixel.kill_twice_frees]), and a registration loses no service to an
    expansion.  A service's address is not used again, which only tells services
    apart. *)

From S2P Require Import Prelude Queue Handle Pixel.

(** [struct watcher]: [sleep] and [quit]; whether the mutex is held; and the
    condition variable: the threads that wait on it, without and with a wake-up
    on its way to them. *)
Record watcher := Watcher {
  wa_sleep : Z;
  wa_quit : bool;
  wa_mutex : bool;
  wa_waiting : Z;
  wa_woken : Z
}.

(** The memory that threads share. *)
Record shared := Shared {
  sh_reg : hglobal;
  sh_queues : qworld;
  sh_ctx : gmap Z pixel;
  sh_total : Z;
  sh_watch : watcher
}.

Definition up_reg r s : shared := Shared r (sh_queues s) (sh_ctx s) (sh_total s) (sh_watch s).
Definition up_queues q s : shared := Shared (sh_reg s) q (sh_ctx s) (sh_total s) (sh_watch s).
Definition up_ctx c s : shared := Shared (sh_reg s) (sh_queues s) c (sh_total s) (sh_watch s).
Definition up_total t s : shared := Shared (sh_reg s) (sh_queues s) (sh_ctx s) t (sh_watch s).
Definition up_watch v s : shared := Shared (sh_reg s) (sh_queues s) (sh_ctx s) (sh_total s) v.

(** Where a thread goes on after [handle_release]. *)
Inductive cont :=
  | KTop (q : Z)   (* the next turn of a worker that keeps the queue [q] *)
  | KIdle          (* [return queue_pop_global()] *)
  | KStop.

Inductive thread :=
  (* [_worker]: the test of [quit], without and with a queue in hand; the
     mutex, the second test, the wait and the way back; the end *)
  | TLoop
  | TTop (q : Z)
  | TSleep
  | TTest
  | TWait
  | TWoken
  | TEnd
  | TKept (q : Z)
  (* [_timer]: the total, the sleepers, the signal; the end of the node *)
  | TTimer
  | TLook
  | TSignal
  | TQuit
  (* a worker in [pixel_dispatch] *)
  | TReturn
  | TIdle
  | TGrab (q : Z)
  | TFree (q : Z)
  | TDec
  | TPop (q h ctx : Z)
  | TRun (q h ctx : Z) (m : message)
  | TNext (q h : Z)
  | TPut (q h next : Z)
  (* [handle_release] and [pixel_free] *)
  | TRel (h : Z) (k : cont)
  | TRemove (h : Z) (k : cont)
  | TMark (ctx : Z) (k : cont)
  | TDel (ctx : Z) (k : cont)
  (* the reference of a registration, which KILL releases *)
  | TOwner (h : Z)
  (* [pixel_push] *)
  | TSend (h : Z) (m : message)
  | TPush (h ctx : Z) (m : message)
  (* [pixel_new] after [handle_regist] *)
  | TQueue (h ctx : Z)
  | TRef (h ctx q : Z)
  | TReady (h q : Z).

Definition resume (k : cont) : list thread :=
  match k with KTop q => [TTop q] | KIdle => [TReturn] | KStop => [] end.

#[export] Instance cont_eq_dec : EqDecision cont.
Proof. solve_decision. Defined.
#[export] Instance message_eq_dec : EqDecision message.
Proof. solve_decision. Defined.
#[export] Instance thread_eq_dec : EqDecision thread.
Proof. solve_decision. Defined.

Section Steps.
Context {rt : Runtime}.

(** [pthread_cond_signal] and [pthread_cond_broadcast]. *)
Definition cond_signal (v : watcher) : watcher :=
  if 0 <? wa_waiting v then
    Watcher (wa_sleep v) (wa_quit v) (wa_mutex v) (wa_waiting v - 1) (wa_woken v + 1)
  else v.

Definition cond_broadcast (v : watcher) : watcher :=
  Watcher (wa_sleep v) (wa_quit v) (wa_mutex v) 0 (wa_woken v + wa_waiting v).

(** A step of one thread on the watcher.  A thread that waits, for the mutex or
    on the condition variable, steps to itself; a thread that has ended too. *)
Definition watch_step (t : thread) (total : Z) (v : watcher) : thread * watcher :=
  match t with
  | TLoop => (if wa_quit v then TEnd else TIdle, v)
  | TTop q => (if wa_quit v then TKept q else TGrab q, v)
  | TSleep =>
      if wa_mutex v then (TSleep, v)
      else (TTest, Watcher (wa_sleep v + 1) (wa_quit v) true (wa_waiting v) (wa_woken v))
  | TTest =>
      if wa_quit v then (TEnd, v)   (* the mutex stays locked *)
      else (TWait, Watcher (wa_sleep v) (wa_quit v) false (wa_waiting v + 1) (wa_woken v))
  | TWait =>
      if 0 <? wa_woken v then
        (TWoken, Watcher (wa_sleep v) (wa_quit v) (wa_mutex v) (wa_waiting v) (wa_woken v - 1))
      else (TWait, v)
  | TWoken =>
      if wa_mutex v then (TWoken, v)
      else (TLoop, Watcher (wa_sleep v - 1) (wa_quit v) (wa_mutex v) (wa_waiting v) (wa_woken v))
  | TTimer => (if total =? 0 then TQuit else TLook, v)
  | TLook => (if wa_sleep v >=? 1 then TSignal else TTimer, v)
  | TSignal => (TTimer, cond_signal v)
  | TQuit =>
      if wa_mutex v then (TQuit, v)
      else (TEnd, cond_broadcast (Watcher (wa_sleep v) true (wa_mutex v) (wa_waiting v) (wa_woken v)))
  | _ => (t, v)
  end.

(** A step of one thread: the threads it becomes. *)
Definition thread_step (t : thread) (s : shared) : option (list thread * shared) :=
  match t with
  | TLoop | TTop _ | TSleep | TTest | TWait | TWoken | TEnd | TKept _ | TTimer | TLook | TSignal | TQuit =>
      let '(t, v) := watch_step t (sh_total s) (sh_watch s) in Some ([t], up_watch v s)
  | TReturn =>
      '(q, w) ← queue_pop_global (sh_queues s);
      Some ([if q =? 0 then TSleep else TTop q], up_queues w s)
  | TIdle =>
      '(q, w) ← queue_pop_global (sh_queues s);
      Some ([if q =? 0 then TSleep else TGrab q], up_queues w s)
  | TGrab q =>
      h ← queue_handle q (sh_queues s);
      '(ctx, H) ← handle_grab h (sh_reg s);
      Some ([if ctx =? 0 then TFree q else TPop q h ctx], up_reg H s)
  | TFree q =>
      '(_, w) ← queue_free q (sh_queues s); Some ([TDec], up_queues w s)
  | TDec => Some ([TReturn], up_total (sh_total s - 1) s)
  | TPop q h ctx =>
      '(r, w) ← queue_pop q (sh_queues s);
      Some ([match r with inl m => TRun q h ctx m | inr _ => TRel h KIdle end], up_queues w s)
  | TRun q h ctx m =>
      '(_, w) ← queue_overload q (sh_queues s);
      _ ← sh_ctx s !! ctx;
      Some ([TNext q h], up_queues w s)
  | TNext q h =>
      '(next, w) ← queue_pop_global (sh_queues s);
      Some ([if next =? 0 then TRel h (KTop q) else TPut q h next], up_queues w s)
  | TPut q h next =>
      w ← queue_push_global q (sh_queues s); Some ([TRel h (KTop next)], up_queues w s)
  | TRel h k =>
      '(ctx, H) ← handle_release_ref (low h) (sh_reg s);
      Some (if ctx =? 0 then [TRemove h k] else resume k, up_reg H s)
  | TRemove h k =>
      '(ctx, H) ← handle_remove (low h) (sh_reg s);
      Some (if ctx =? 0 then resume k else [TMark ctx k], up_reg H s)
  | TMark ctx k =>
      c ← sh_ctx s !! ctx;
      w ← queue_mark_free (c_queue c) (sh_queues s); Some ([TDel ctx k], up_queues w s)
  | TDel ctx k =>
      _ ← sh_ctx s !! ctx; Some (resume k, up_ctx (delete ctx (sh_ctx s)) s)
  | TOwner h => Some ([TRel h KStop], s)
  | TSend h m =>
      '(ctx, H) ← handle_grab h (sh_reg s);
      Some (if ctx =? 0 then [] else [TPush h ctx m], up_reg H s)
  | TPush h ctx m =>
      c ← sh_ctx s !! ctx;
      w ← queue_push (c_queue c) m (sh_queues s); Some ([TRel (c_handle c) KStop], up_queues w s)
  | TQueue h ctx =>
      let q := queue_malloc (qw_heap (sh_queues s)) in
      c ← sh_ctx s !! ctx;
      let c := Pixel q (c_module c) (c_inst c) h 0 0 0 0 0 in
      Some ([TRef h ctx q],
            Shared (sh_reg s) (queue_new q h (sh_queues s)) (<[ctx := c]> (sh_ctx s)) (sh_total s + 1) (sh_watch s))
  | TRef h ctx q =>
      '(_, H) ← handle_grab h (sh_reg s); Some ([TReady h q; TOwner h], up_reg H s)
  | TReady h q =>
      w ← queue_push_global q (sh_queues s); Some ([TRel h KStop], up_queues w s)
  end.

(** The system: shared memory, its threads, the handles that may be used, and
    the services made and freed so far. *)
Record system := System {
  sy_shared : shared;
  sy_pool : list thread;
  sy_known : list Z;
  sy_made : list Z;
  sy_freed : list Z
}.

(** What a step of [t] adds to the history. *)
Definition learn (t : thread) (known : list Z) : list Z :=
  match t with TQueue h _ => low h :: known | _ => known end.

Definition buried (ts : list thread) (t : thread) (freed : list Z) : list Z :=
  match t, ts with TRemove _ _, [TMark ctx _] => ctx :: freed | _, _ => freed end.

(** The thread [t] takes its step. *)
Inductive taken (t : thread) : system -> system -> Prop :=
  | taken_step s s' pool rest ts known made freed :
      pool ≡ₚ t :: rest -> thread_step t s = Some (ts, s') ->
      taken t (System s pool known made freed)
              (System s' (ts ++ rest) (learn t known) made (buried ts t freed)).

Inductive sstep : system -> system -> Prop :=
  | ss_thread t sy sy' : taken t sy sy' -> sstep sy sy'
  | ss_send s pool known made freed h m :
      low h ∈ known ->
      sstep (System s pool known made freed) (System s (TSend h m :: pool) known made freed)
  | ss_launch s pool known made freed ctx module inst h H :
      ctx <> 0 -> ctx ∉ made -> expand_safe (sh_reg s) = true ->
      H_last_id (sh_reg s) + 4 * H_cap (sh_reg s) < 2 ^ 24 ->
      handle_regist true ctx (sh_reg s) = Some (h, H) ->
      sstep (System s pool known made freed)
            (System (Shared H (sh_queues s) (<[ctx := Pixel 0 module inst 0 0 0 0 0 0]> (sh_ctx s)) (sh_total s) (sh_watch s))
                    (TQueue h ctx :: pool) known (ctx :: made) freed).

(** [_start]: the timer thread and [n] workers, on an empty node.  The total is
    that of the services counted before, the log service apart. *)
Definition system_init (harbor : Z) (n : nat) : system :=
  System (Shared (handle_init harbor) (queue_init (QWorld ∅ 0 0)) ∅ 0 (Watcher 0 false false 0 0))
         (TTimer :: replicate n TLoop) [] [] [].

End Steps.

(** ** What threads own *)

Definition cont_queue (k : cont) : list Z := match k with KTop q => [q] | _ => [] end.

(** The queues a thread has taken from the list of ready queues. *)
Definition tokens (t : thread) : list Z :=
  match t with
  | TTop q | TKept q | TGrab q | TFree q | TPop q _ _ | TRun q _ _ _ | TNext q _ | TRef _ _ q | TReady _ q => [q]
  | TPut q _ next => [q; next]
  | TRel _ k | TRemove _ k | TMark _ k | TDel _ k => cont_queue k
  | _ => []
  end.

(** The references it holds, the services it is removing and freeing. *)
Definition refs (t : thread) : list Z :=
  match t with
  | TPop _ h _ | TRun _ h _ _ | TNext _ h | TPut _ h _ | TRel h _ | TOwner h | TPush h _ _
  | TQueue h _ | TRef h _ _ | TReady h _ => [low h]
  | _ => []
  end.

Definition removing (t : thread) : list Z := match t with TRemove h _ => [low h] | _ => [] end.

Definition marks (t : thread) : list Z := match t with TMark c _ | TDel c _ => [c] | _ => [] end.

(** A queue that is, or will be, in the hands of somebody. *)
Definition runnable (q : aqueue) : Prop := aq_global q <> 0 \/ aq_release q <> 0.

Definition owner (M : registry) (h c : Z) : Prop := exists r, M !! h = Some (r, c).

(** Threads that neither launch nor free a service. *)
Definition plain (t : thread) : Prop :=
  match t with TQueue _ _ | TMark _ _ | TDel _ _ => False | _ => True end.

Definition launching (t : thread) : list Z := match t with TQueue h _ => [low h] | _ => [] end.

(** The fixed part of the queues: handle and release mark. *)
Definition qinfo (a : aworld) : gmap Z (Z * Z) := (fun q => (aq_handle q, aq_release q)) <$> aw_queues a.

(** What a thread relies on, with [O h c]: the service [c] has the handle [h]. *)
Definition thread_ok (O : Z -> Z -> Prop) (qi : gmap Z (Z * Z)) (known : list Z) (t : thread) : Prop :=
  match t with
  | TPop q h c => O (low h) c /\ qi !! q = Some (h, 0)
  | TRun _ h c _ => O (low h) c
  | TSend h _ => low h ∈ known
  | TPush h c _ | TRef h c _ => O (low h) c /\ low h ∈ known
  | TQueue h c => O (low h) c /\ (low h ∉ known)
  | _ => True
  end.

(** Services, their handles and their queues. *)
Record link (O : Z -> Z -> Prop) (qi : gmap Z (Z * Z)) (cs : gmap Z pixel) (pool : list thread)
    (known made : list Z) (last : Z) : Prop := {
  lk_live : forall h c, O h c -> exists p, cs !! c = Some p /\
    ((exists h', TQueue h' c ∈ pool /\ low h' = h) \/
     (h ∈ known /\ low (c_handle p) = h /\ exists hq, qi !! c_queue p = Some (hq, 0) /\ low hq = h));
  lk_mark : forall c k, TMark c k ∈ pool -> exists p hq, cs !! c = Some p /\
    qi !! c_queue p = Some (hq, 0) /\ low hq = low (c_handle p) /\ low (c_handle p) ∈ known /\
    forall c', ~ O (low (c_handle p)) c';
  lk_del : forall c k, TDel c k ∈ pool -> is_Some (cs !! c);
  lk_ctx : forall c p, cs !! c = Some p -> c ∈ made /\ (low (c_handle p) = 0 \/ low (c_handle p) ∈ known);
  lk_inj : forall c1 c2 p1 p2, cs !! c1 = Some p1 -> cs !! c2 = Some p2 ->
    low (c_handle p1) = low (c_handle p2) -> low (c_handle p1) <> 0 -> c1 = c2;
  lk_known : forall h, h ∈ known -> 0 < h <= last;
  lk_qi : forall p hq r, qi !! p = Some (hq, r) -> low hq ∈ known;
  lk_qinj : forall p1 p2 h1 h2 r1 r2, qi !! p1 = Some (h1, r1) -> qi !! p2 = Some (h2, r2) ->
    low h1 = low h2 -> p1 = p2;
  lk_threads : forall t, t ∈ pool -> thread_ok O qi known t;
  lk_marks : NoDup (pool ≫= marks);
  lk_dead : forall c h, c ∈ pool ≫= marks -> ~ O h c;
  lk_launch : NoDup (pool ≫= launching)
}.

(** Every runnable queue is in exactly one hand or once in the list, and a
    queue that is not runnable is empty. *)
Record toks (l : list Z) (qs : gmap Z aqueue) : Prop := {
  tk_nodup : NoDup l;
  tk_in : forall p, p ∈ l <-> exists q, qs !! p = Some q /\ runnable q;
  tk_idle : forall p q, qs !! p = Some q -> ~ runnable q -> aq_msgs q = []
}.

Record sys_ok (sy : system) (M : registry) (a : aworld) : Prop := {
  so_reg : hsys_wf (HSys (sh_reg (sy_shared sy)) (sy_pool sy ≫= refs) (sy_pool sy ≫= removing)
                         (sy_made sy) (sy_freed sy)) M;
  so_queues : refines (sh_queues (sy_shared sy)) a;
  so_toks : toks ((sy_pool sy ≫= tokens) ++ aw_ready a) (aw_queues a);
  so_link : link (owner M) (qinfo a) (sh_ctx (sy_shared sy)) (sy_pool sy) (sy_known sy) (sy_made sy)
                 (H_last_id (sh_reg (sy_shared sy)))
}.

(** ** What a step does to the queues *)

(** Messages and ready queues only join at the end. *)
Definition grows (a a' : aworld) : Prop :=
  (forall q aq, aw_queues a !! q = Some aq ->
     exists aq' l, aw_queues a' !! q = Some aq' /\ aq_msgs aq' = aq_msgs aq ++ l) /\
  exists l, aw_ready a' = aw_ready a ++ l.

(** The first ready queue is taken, if there is one. *)
Definition takes (none : thread) (some : Z -> thread) (ts : list thread) (a a' : aworld) : Prop :=
  match aw_ready a with
  | [] => ts = [none] /\ a' = a
  | p :: l => ts = [some p] /\ a' = AWorld (aw_queues a) l
  end.

(** The first message of the queue [q] is taken, if there is one. *)
Definition pops (q h c : Z) (ts : list thread) (a a' : aworld) : Prop :=
  exists aq aq', aw_queues a !! q = Some aq /\ a' = AWorld (<[q := aq']> (aw_queues a)) (aw_ready a) /\
    match aq_msgs aq with
    | [] => aq_msgs aq' = []
    | m :: ms => ts = [TRun q h c m] /\ aq_msgs aq' = ms
    end.

Definition moves (t : thread) (ts : list thread) (a a' : aworld) : Prop :=
  match t with
  | TReturn => takes TSleep TTop ts a a'
  | TIdle => takes TSleep TGrab ts a a'
  | TNext q h => takes (TRel h (KTop q)) (TPut q h) ts a a'
  | TPop q h c => pops q h c ts a a'
  | TPut q _ _ | TReady _ q => a' = AWorld (aw_queues a) (aw_ready a ++ [q])
  | TFree q => grows (AWorld (delete q (aw_queues a)) (aw_ready a)) a'
  | _ => grows a a'
  end.

Lemma grows_refl a : grows a a.
Proof. split; [intros q aq Hq; exists aq, []; by rewrite app_nil_r|exists []; by rewrite app_nil_r]. Qed.

Lemma grows_insert a p q q' l ready :
  aw_queues a !! p = Some q -> aq_msgs q' = aq_msgs q ++ l -> (exists l', ready = aw_ready a ++ l') ->
  grows a (AWorld (<[p := q']> (aw_queues a)) ready).
Proof.
  intros Hp Hm Hr. split; [|done]. intros p1 q1 H1. cbn [aw_queues]. destruct (decide (p1 = p)) as [->|Hne].
  - rewrite lookup_insert_eq. exists q', l. split; [done|]. congruence.
  - rewrite lookup_insert_ne by done. exists q1, []. by rewrite app_nil_r.
Qed.

Lemma grows_update a p q q' :
  aw_queues a !! p = Some q -> aq_msgs q' = aq_msgs q -> grows a (AWorld (<[p := q']> (aw_queues a)) (aw_ready a)).
Proof. intros Hp Hm. eapply (grows_insert a p q q' []); [done|by rewrite app_nil_r|exists []; by rewrite app_nil_r]. Qed.

Lemma grows_new a p q' :
  aw_queues a !! p = None -> grows a (AWorld (<[p := q']> (aw_queues a)) (aw_ready a)).
Proof.
  intros Hp. split; [|exists []; by rewrite app_nil_r]. intros p1 q1 H1. cbn [aw_queues].
  exists q1, []. rewrite lookup_insert_ne by congruence. by rewrite app_nil_r.
Qed.

(** A queue that may go is put back. *)
Lemma grows_kept a q l : grows (AWorld (delete q (aw_queues a)) (aw_ready a)) (AWorld (aw_queues a) (aw_ready a ++ l)).
Proof. split; [|by exists l]. intros q1 aq. cbn [aw_queues]. intros [_ Hq]%lookup_delete_Some. exists aq, []. by rewrite app_nil_r. Qed.

(** ** Tokens *)

Section Tokens.
Implicit Types (l : list Z) (qs : gmap Z aqueue) (q : aqueue).

Lemma toks_perm l l' qs qs' :
  toks l qs -> l ≡ₚ l' ->
  (forall p q', qs' !! p = Some q' -> exists q, qs !! p = Some q /\ (runnable q' <-> runnable q) /\
     (aq_msgs q = [] -> ~ runnable q -> aq_msgs q' = [])) ->
  (forall p, is_Some (qs !! p) -> is_Some (qs' !! p)) ->
  toks l' qs'.
Proof.
  intros [Hn Hin Hi] E Hq Hd. split.
  - by rewrite <- E.
  - intros p. rewrite <- E, Hin. split.
    + intros (q & Hp & Hr). destruct (Hd p) as [q' Hp']; [by eexists|].
      destruct (Hq _ _ Hp') as (q0 & Hp0 & Hr0 & _). exists q'. split; [done|]. apply Hr0. congruence.
    + intros (q' & Hp' & Hr'). destruct (Hq _ _ Hp') as (q & Hp & Hr & _). exists q. tauto.
  - intros p q' Hp' Hr'. destruct (Hq _ _ Hp') as (q & Hp & Hr & Hm).
    assert (Hnr : ~ runnable q) by tauto. apply Hm; [by eapply Hi|done].
Qed.

(** One queue gets new contents and keeps its place. *)
Lemma toks_update l l' qs p q q' :
  toks l qs -> l ≡ₚ l' -> qs !! p = Some q -> (runnable q' <-> runnable q) ->
  (~ runnable q -> aq_msgs q' = []) -> toks l' (<[p := q']> qs).
Proof.
  intros Ht E Hp Hr Hm. apply (toks_perm l l' qs); [done|done| |].
  - intros p' q1. rewrite lookup_insert. case_decide as Ep.
    + intros [= <-]. subst p'. exists q. done.
    + intros Hq1. exists q1. split; [done|]. split; [done|]. done.
  - intros p' Hs. rewrite lookup_insert. by case_decide.
Qed.

(** A queue that stops being runnable, or disappears. *)
Lemma toks_sleep l l' qs p q' :
  toks l qs -> l ≡ₚ p :: l' -> ~ runnable q' -> aq_msgs q' = [] -> toks l' (<[p := q']> qs).
Proof.
  intros [Hn Hin Hi] E Hr Hm. rewrite E in Hn. apply NoDup_cons in Hn as [Hp Hn]. split; [done| |].
  - intros p1. rewrite lookup_insert. case_decide as Ep.
    + subst p1. split; [done|]. intros (q & [= <-] & ?). done.
    + rewrite <- Hin, E, elem_of_cons. naive_solver.
  - intros p1 q. rewrite lookup_insert. case_decide; [by intros [= <-]|]. apply Hi.
Qed.

Lemma toks_delete l l' qs p : toks l qs -> l ≡ₚ p :: l' -> toks l' (delete p qs).
Proof.
  intros [Hn Hin Hi] E. rewrite E in Hn. apply NoDup_cons in Hn as [Hp Hn]. split; [done| |].
  - intros p1. rewrite lookup_delete. case_decide as Ep.
    + subst p1. split; [done|]. by intros (q & ? & ?).
    + rewrite <- Hin, E, elem_of_cons. naive_solver.
  - intros p1 q [_ ?]%lookup_delete_Some. by eapply Hi.
Qed.

(** A queue that becomes runnable. *)
Lemma toks_wake l l' qs p q' :
  toks l qs -> l' ≡ₚ p :: l -> runnable q' -> (forall q, qs !! p = Some q -> ~ runnable q) ->
  toks l' (<[p := q']> qs).
Proof.
  intros [Hn Hin Hi] E Hr Hnr.
  assert (Hp : p ∉ l) by (rewrite Hin; naive_solver). split.
  - rewrite E. by constructor.
  - intros p1. rewrite E, elem_of_cons, lookup_insert, Hin. case_decide as Ep.
    + subst p1. split; [|by left]. intros _. by exists q'.
    + naive_solver.
  - intros p1 q. rewrite lookup_insert. case_decide; [by intros [= <-]|]. apply Hi.
Qed.

(** A queue in hand exists and is not in the list. *)
Lemma toks_held l ready qs p :
  toks (l ++ ready) qs -> p ∈ l -> is_Some (qs !! p) /\ p ∉ ready.
Proof.
  intros [Hn Hin _] Hp. split.
  - destruct (proj1 (Hin p)) as (q & ? & _); [by apply elem_of_app; left|by eexists].
  - apply NoDup_app in Hn as (_ & Hd & _). by apply Hd.
Qed.

End Tokens.

(** ** Links *)

#[export] Instance bind_perm {A B} (f : A -> list B) : Proper (Permutation ==> Permutation) (mbind f) :=
  bind_Permutation f.

Lemma bind_nil {A} (f : thread -> list A) : [] ≫= f = [].
Proof. done. Qed.

Lemma bind_pool {A} (f : thread -> list A) ts rest t pool :
  pool ≡ₚ t :: rest -> pool ≫= f ≡ₚ f t ++ (rest ≫= f) /\ (ts ++ rest) ≫= f = (ts ≫= f) ++ (rest ≫= f).
Proof. intros E. split; [by rewrite E|apply bind_app]. Qed.

Lemma plain_bind ts : Forall plain ts -> ts ≫= marks = [] /\ ts ≫= launching = [].
Proof.
  induction 1 as [|t ts Ht _ IH]; [done|]. rewrite !bind_cons. destruct IH as [-> ->].
  destruct t; done.
Qed.

Section Links.
(** A thread that is not plain stays in the pool. *)
Ltac sp := match goal with H : forall x, ~ plain x -> _ |- _ => apply H; [intros []|done] end.

Implicit Types (O : Z -> Z -> Prop) (qi : gmap Z (Z * Z)) (cs : gmap Z pixel) (pool rest ts : list thread)
  (known made : list Z).

(** What threads rely on survives changes that keep the owners and the queues
    that are not released. *)
Definition later O qi known O' qi' known' : Prop :=
  (forall h c, O h c -> O' h c) /\ (forall p hq, qi !! p = Some (hq, 0) -> qi' !! p = Some (hq, 0)) /\
  (forall h, h ∈ known -> h ∈ known').

Lemma thread_ok_later O qi known O' qi' known' t :
  later O qi known O' qi' known' -> (forall h c, t = TQueue h c -> low h ∉ known') ->
  thread_ok O qi known t -> thread_ok O' qi' known' t.
Proof. intros (H1 & H2 & H3) Ht. destruct t; cbn; naive_solver. Qed.

(** A step of a plain thread that becomes plain threads. *)
Lemma link_plain O O' qi qi' cs pool known made last t rest ts :
  link O qi cs pool known made last -> pool ≡ₚ t :: rest -> plain t -> Forall plain ts ->
  (forall h c, O' h c <-> O h c) ->
  (forall p x, qi' !! p = Some x -> qi !! p = Some x) ->
  (forall p hq, qi !! p = Some (hq, 0) -> qi' !! p = Some (hq, 0)) ->
  (forall x, x ∈ ts -> thread_ok O qi known x) ->
  link O' qi' cs (ts ++ rest) known made last.
Proof.
  intros [L1 L2 L3 L4 L5 L6 L7 L8 L9 L10 L11 L12] Ep Ht Hts HO Hq1 Hq2 Hok.
  destruct (plain_bind ts Hts) as [Em El].
  destruct (bind_pool marks ts rest t pool Ep) as [E1 E2].
  destruct (bind_pool launching ts rest t pool Ep) as [E3 E4].
  assert (marks t = [] /\ launching t = []) as [Et1 Et2] by (by destruct t).
  rewrite Et1 in E1. rewrite Et2 in E3. rewrite Em in E2. rewrite El in E4. cbn in E1, E2, E3, E4.
  assert (Hsp : forall x, ~ plain x -> x ∈ pool <-> x ∈ ts ++ rest).
  { intros x Hx. rewrite Ep, elem_of_cons, elem_of_app. rewrite Forall_forall in Hts. naive_solver. }
  split.
  - intros h c Ho. apply HO in Ho. destruct (L1 h c Ho) as (p & Hp & Hcase). exists p. split; [done|].
    destruct Hcase as [(h' & Hin & E)|(Hk & Eh & hq & Hqi & Elow)].
    + left. exists h'. split; [|done]. sp.
    + right. split; [done|]. split; [done|]. exists hq. split; [by apply Hq2|done].
  - intros c k Hin. destruct (L2 c k) as (p & hq & Hp & Hqi & Elow & Hk & Hno); [sp|].
    exists p, hq. split_and!; try done; [by apply Hq2|]. intros c' Ho. apply HO in Ho. by eapply Hno.
  - intros c k Hin. apply (L3 c k). sp.
  - done.
  - done.
  - done.
  - intros p hq r Hp. by eapply L7, Hq1.
  - intros p1 p2 h1 h2 r1 r2 H1%Hq1 H2%Hq1. by eapply L8.
  - intros x Hx. apply (thread_ok_later O qi known).
    + split_and!; [|done|done]. intros h c. apply HO.
    + intros h c ->. destruct (L9 (TQueue h c)) as [_ ?]; [sp|done].
    + apply elem_of_app in Hx as [Hx|Hx]; [by apply Hok|]. apply L9. rewrite Ep. by right.
  - rewrite E2, <- E1. done.
  - intros c h Hc. rewrite E2 in Hc. rewrite HO. apply L11. by rewrite E1.
  - rewrite E4, <- E3. done.
Qed.

(** A service of a live handle that is known has its own, unreleased queue. *)
Lemma link_owner O qi cs pool known made last h c :
  link O qi cs pool known made last -> O h c -> h ∈ known ->
  exists p hq, cs !! c = Some p /\ low (c_handle p) = h /\ qi !! c_queue p = Some (hq, 0) /\ low hq = h.
Proof.
  intros L Ho Hk. destruct (lk_live _ _ _ _ _ _ _ L h c Ho) as (p & Hp & [(h' & Hin & E)|(_ & Eh & hq & Hqi & El)]).
  - apply (lk_threads _ _ _ _ _ _ _ L) in Hin as [_ Hn]. congruence.
  - by exists p, hq.
Qed.

(** The last reference is gone: the service is given to [pixel_free]. *)
Lemma link_buried O qi cs pool known made last h c k rest :
  link O qi cs pool known made last -> pool ≡ₚ TRemove h k :: rest -> O (low h) c ->
  (forall h', O h' c -> h' = low h) ->
  (low h ∉ rest ≫= refs) ->
  link (fun h' c' => O h' c' /\ h' <> low h) qi cs (TMark c k :: rest) known made last.
Proof.
  intros L Ep Ho Hu Hrefs.
  assert (Hheld : forall x h', x ∈ rest -> low h' ∈ refs x -> low h' <> low h).
  { intros x h' Hx Hin E. apply Hrefs. rewrite <- E. apply list_elem_of_bind. by exists x. }
  pose proof L as [L1 L2 L3 L4 L5 L6 L7 L8 L9 L10 L11 L12].
  destruct (bind_pool marks [TMark c k] rest _ pool Ep) as [E1 _].
  destruct (bind_pool launching [TMark c k] rest _ pool Ep) as [E3 _]. cbn [marks launching app] in E1, E3.
  assert (Hin : forall x, x ∈ rest -> x ∈ pool) by (intros x Hx; rewrite Ep; by right).
  assert (Hcm : c ∉ rest ≫= marks) by (intros Hc; apply (L11 c (low h)); [by rewrite E1|done]).
  destruct (L1 _ _ Ho) as (p & Hp & [(h' & Hq & E)|(Hk & Eh & hq & Hqi & El)]).
  { rewrite Ep in Hq. apply elem_of_cons in Hq as [|Hq]; [done|]. destruct (Hheld _ h' Hq); [by left|done]. }
  split.
  - intros h' c' [Ho' Hne]. destruct (L1 _ _ Ho') as (p' & Hp' & Hcase). exists p'. split; [done|].
    destruct Hcase as [(h1 & Hq & E)|?]; [|by right]. left. exists h1. split; [|done].
    rewrite Ep in Hq. apply elem_of_cons in Hq as [|]; [done|by right].
  - intros c' k' [E|Hx]%elem_of_cons.
    + injection E as -> ->. exists p, hq. rewrite Eh. split_and!; try done. by intros c' [_ ?].
    + destruct (L2 c' k' (Hin _ Hx)) as (p' & hq' & ? & ? & ? & ? & Hno). exists p', hq'.
      split_and!; try done. intros c1 [? _]. by eapply Hno.
  - intros c' k' [E|Hx]%elem_of_cons; [done|]. by eapply L3, Hin.
  - done.
  - done.
  - done.
  - done.
  - done.
  - intros x [->|Hx]%elem_of_cons; [done|]. pose proof (L9 x (Hin _ Hx)) as Hok.
    pose proof (fun h' => Hheld x h' Hx) as Hne.
    destruct x as [| | | | | | | | | | | | | | | | |? h0 ?|? h0 ? ?| | | | | | |
      |h0 ?|h0 ? ?|h0 ?|h0 ? ?|]; cbn in *; try done; try specialize (Hne h0 ltac:(by left)); tauto.
  - rewrite bind_cons. cbn [marks app]. constructor; [done|]. by rewrite <- E1.
  - intros c' h' Hc'. rewrite bind_cons in Hc'. cbn [marks app] in Hc'. apply elem_of_cons in Hc' as [->|Hc'].
    + intros [Ho' Hne]. by apply Hne, Hu.
    + intros [Ho' _]. eapply L11; [|exact Ho']. by rewrite E1.
  - rewrite bind_cons. cbn [launching app]. by rewrite <- E3.
Qed.

Lemma link_known_pos O qi cs pool known made last h :
  link O qi cs pool known made last -> h ∈ known -> h <> 0.
Proof. intros L Hk. pose proof (lk_known _ _ _ _ _ _ _ L h Hk). lia. Qed.

(** [queue_mark_free] on the queue of a service being freed. *)
Lemma link_marked O qi cs pool known made last c k rest p hq :
  link O qi cs pool known made last -> pool ≡ₚ TMark c k :: rest ->
  cs !! c = Some p -> qi !! c_queue p = Some (hq, 0) ->
  link O (<[c_queue p := (hq, 1)]> qi) cs (TDel c k :: rest) known made last.
Proof.
  intros L Ep Hp Hq. pose proof L as [L1 L2 L3 L4 L5 L6 L7 L8 L9 L10 L11 L12].
  destruct (bind_pool marks [TDel c k] rest _ pool Ep) as [E1 _].
  destruct (bind_pool launching [TDel c k] rest _ pool Ep) as [E3 _]. cbn [marks launching app] in E1, E3.
  assert (Hin : forall x, x ∈ rest -> x ∈ pool) by (intros x Hx; rewrite Ep; by right).
  assert (Hcm : c ∉ rest ≫= marks) by (rewrite E1 in L10; by apply NoDup_cons in L10 as [? _]).
  destruct (L2 c k) as (p0 & hq0 & Hp0 & Hq0 & El & Hk & Hno); [rewrite Ep; by left|].
  assert (p0 = p) as -> by congruence. assert (hq0 = hq) as -> by congruence.
  (** A queue of a live handle is another one. *)
  assert (Hlive : forall q h' c', qi !! q = Some (h', 0) -> O (low h') c' -> q <> c_queue p).
  { intros q h' c' Hqq Ho ->. assert (h' = hq) as -> by congruence. rewrite El in Ho. by eapply Hno. }
  split; try done.
  - intros h' c' Ho. destruct (L1 _ _ Ho) as (p' & Hp' & Hcase). exists p'. split; [done|].
    destruct Hcase as [(h1 & Hx & E)|(Hk' & Eh & hq' & Hqi & El')].
    + left. exists h1. split; [|done]. rewrite Ep in Hx. apply elem_of_cons in Hx as [|]; [done|by right].
    + right. split; [done|]. split; [done|]. exists hq'. split; [|done].
      rewrite lookup_insert_ne; [done|]. apply not_eq_sym. eapply Hlive; [exact Hqi|]. by rewrite El'.
  - intros c' k' [|Hx]%elem_of_cons; [done|].
    destruct (L2 c' k' (Hin _ Hx)) as (p' & hq' & Hp' & Hqi & El' & Hk' & Hno'). exists p', hq'.
    split_and!; try done. rewrite lookup_insert_ne; [done|]. intros Eq.
    assert (c' = c) as ->.
    { rewrite <- Eq in Hqi. assert (hq' = hq) as -> by congruence.
      eapply L5; [exact Hp'|exact Hp|congruence|by eapply link_known_pos]. }
    apply Hcm. apply list_elem_of_bind. exists (TMark c k'). split; [by left|done].
  - intros c' k' [[= -> ->]|Hx]%elem_of_cons; [by eexists|by eapply L3, Hin].
  - intros q h' r. rewrite lookup_insert. case_decide; [intros [= <- <-]; by rewrite El|]. apply L7.
  - intros p1 p2 h1 h2 r1 r2. rewrite !lookup_insert. do 2 case_decide; intros Eq1 Eq2 Ell; simplify_eq; try done.
    + by eapply L8.
    + by eapply L8.
    + by eapply L8.
  - intros x [->|Hx]%elem_of_cons; [done|]. pose proof (L9 x (Hin _ Hx)) as Hok. destruct x; try done.
    destruct Hok as [Ho Hqq]. split; [done|]. rewrite lookup_insert_ne; [done|].
    apply not_eq_sym. by eapply Hlive.
  - rewrite bind_cons. cbn [marks app]. by rewrite <- E1.
  - intros c' h' Hc'. rewrite bind_cons in Hc'. cbn [marks app] in Hc'. apply L11. by rewrite E1.
  - rewrite bind_cons. cbn [launching app]. by rewrite <- E3.
Qed.

Lemma resume_plain O qi known k : Forall plain (resume k) /\ forall x, x ∈ resume k -> thread_ok O qi known x.
Proof.
  destruct k; cbn; (split; [repeat constructor|]); try (intros x Hx%list_elem_of_singleton; by subst);
    by intros x ?%elem_of_nil.
Qed.

(** The memory of the service is given back. *)
Lemma link_deleted O qi cs pool known made last c k rest :
  link O qi cs pool known made last -> pool ≡ₚ TDel c k :: rest ->
  link O qi (delete c cs) (resume k ++ rest) known made last.
Proof.
  intros L Ep. pose proof L as [L1 L2 L3 L4 L5 L6 L7 L8 L9 L10 L11 L12].
  destruct (resume_plain O qi known k) as [Hpl Hok]. destruct (plain_bind _ Hpl) as [Em El].
  destruct (bind_pool marks (resume k) rest _ pool Ep) as [E1 E2].
  destruct (bind_pool launching (resume k) rest _ pool Ep) as [E3 E4]. cbn [marks launching app] in E1, E3.
  rewrite Em in E2. rewrite El in E4. cbn [app] in E2, E4.
  assert (Hin : forall x, x ∈ rest -> x ∈ pool) by (intros x Hx; rewrite Ep; by right).
  assert (Hout : forall x, ~ plain x -> x ∈ resume k ++ rest -> x ∈ rest).
  { intros x Hx [?|?]%elem_of_app; [|done]. rewrite Forall_forall in Hpl. naive_solver. }
  assert (Hcm : c ∉ rest ≫= marks) by (rewrite E1 in L10; by apply NoDup_cons in L10 as [? _]).
  assert (Hc : forall h, ~ O h c) by (intros h; apply L11; rewrite E1; by left).
  assert (Hother : forall x c', x ∈ rest -> marks x = [c'] -> c' <> c).
  { intros x c' Hx Ex ->. apply Hcm, list_elem_of_bind. exists x. rewrite Ex. by split; [left|]. }
  split; try done.
  - intros h' c' Ho. destruct (L1 _ _ Ho) as (p' & Hp' & Hcase). exists p'.
    split; [rewrite lookup_delete_ne; [done|]; intros ->; by eapply Hc|].
    destruct Hcase as [(h1 & Hx & E)|?]; [|by right]. left. exists h1. split; [|done].
    rewrite Ep in Hx. apply elem_of_cons in Hx as [|]; [done|]. apply elem_of_app. by right.
  - intros c' k' Hx%Hout; [|intros []]. destruct (L2 c' k' (Hin _ Hx)) as (p' & hq' & Hp' & Hrest).
    exists p', hq'. split; [|done]. rewrite lookup_delete_ne; [done|]. apply not_eq_sym.
    by apply (Hother (TMark c' k')).
  - intros c' k' Hx%Hout; [|intros []]. rewrite lookup_delete_ne; [by eapply L3, Hin|]. apply not_eq_sym.
    by apply (Hother (TDel c' k')).
  - intros c' p' [_ Hp']%lookup_delete_Some. by apply L4.
  - intros c1 c2 p1 p2 [_ H1]%lookup_delete_Some [_ H2]%lookup_delete_Some. by apply L5.
  - intros x [Hx|Hx]%elem_of_app; [by apply Hok|by apply L9, Hin].
  - rewrite E2. rewrite E1 in L10. by apply NoDup_cons in L10 as [_ ?].
  - intros c' h' Hc'. rewrite E2 in Hc'. apply L11. rewrite E1. by right.
  - rewrite E4, <- E3. done.
Qed.

(** A launch sets the queue and the handle of its service. *)
Lemma link_queued O qi cs pool known made last h c rest p q :
  link O qi cs pool known made last -> pool ≡ₚ TQueue h c :: rest ->
  qi !! q = None -> c_queue p = q -> c_handle p = h -> 0 < low h <= last ->
  (forall h', O h' c -> h' = low h) ->
  link O (<[q := (h, 0)]> qi) (<[c := p]> cs) (TRef h c q :: rest) (low h :: known) made last.
Proof.
  intros L Ep Hqn Eq Eh Hl Hu. pose proof L as [L1 L2 L3 L4 L5 L6 L7 L8 L9 L10 L11 L12].
  destruct (bind_pool marks [TRef h c q] rest _ pool Ep) as [E1 _].
  destruct (bind_pool launching [TRef h c q] rest _ pool Ep) as [E3 _]. cbn [marks launching app] in E1, E3.
  assert (Hin : forall x, x ∈ rest -> x ∈ pool) by (intros x Hx; rewrite Ep; by right).
  destruct (L9 (TQueue h c)) as [Ho Hnk]; [rewrite Ep; by left|].
  destruct (L1 _ _ Ho) as (p0 & Hp0 & _).
  assert (Hdead : forall x c', x ∈ rest -> marks x = [c'] -> c' <> c).
  { intros x c' Hx Ex ->. eapply (L11 c (low h)); [|done]. rewrite E1. apply list_elem_of_bind.
    exists x. rewrite Ex. by split; [left|]. }
  assert (Hqne : forall p' x, qi !! p' = Some x -> p' <> q) by congruence.
  assert (Hother : forall h' c', TQueue h' c' ∈ rest -> low h' <> low h).
  { intros h' c' Hx E. rewrite E3 in L12. apply NoDup_cons in L12 as [Hn _]. apply Hn.
    rewrite <- E. apply list_elem_of_bind. exists (TQueue h' c'). split; [by left|done]. }
  split.
  - intros h1 c1 Ho1. rewrite lookup_insert. case_decide as E.
    + subst c1. apply Hu in Ho1 as ->. exists p. split; [done|]. right. split; [by left|]. rewrite Eh, Eq.
      split; [done|]. exists h. by rewrite lookup_insert_eq.
    + destruct (L1 _ _ Ho1) as (p1 & Hp1 & Hcase). exists p1. split; [done|].
      destruct Hcase as [(h' & Hx & E')|(Hk & Eh' & hq & Hqi & El)].
      * left. exists h'. split; [|done]. rewrite Ep in Hx. apply elem_of_cons in Hx as [|]; [congruence|by right].
      * right. split; [by right|]. split; [done|]. exists hq. by rewrite lookup_insert_ne by (apply not_eq_sym; eauto).
  - intros c' k' [|Hx]%elem_of_cons; [done|].
    destruct (L2 c' k' (Hin _ Hx)) as (p' & hq & Hp' & Hqi & El & Hk & Hno). exists p', hq.
    rewrite (lookup_insert_ne _ c) by (apply not_eq_sym; by eapply Hdead).
    rewrite lookup_insert_ne by (apply not_eq_sym; eauto). split_and!; try done. by right.
  - intros c' k' [|Hx]%elem_of_cons; [done|].
    rewrite (lookup_insert_ne _ c) by (apply not_eq_sym; by eapply Hdead). by eapply L3, Hin.
  - intros c' p'. rewrite lookup_insert. case_decide as E.
    + intros [= <-]. subst c'. split; [by eapply L4|]. right. rewrite Eh. by left.
    + intros Hp'. destruct (L4 _ _ Hp') as [? [?|?]]; (split; [done|]); [by left|right; by right].
  - assert (Hnew : forall c' p', cs !! c' = Some p' -> low (c_handle p') = low h -> False).
    { intros c' p' Hp' E. destruct (L4 _ _ Hp') as [_ [E0|Hk]]; rewrite E in *; [lia|done]. }
    intros c1 c2 p1 p2. rewrite !lookup_insert. do 2 case_decide; intros H1 H2 E Hn0; simplify_eq; try done.
    + exfalso. by eapply Hnew.
    + exfalso. by eapply Hnew.
    + by eapply L5.
  - intros h' [->|Hk]%elem_of_cons; [done|by apply L6].
  - intros p' hq r. rewrite lookup_insert. case_decide; [intros [= <- <-]; by left|]. intros ?. right. by eapply L7.
  - assert (Hnew : forall p' hq r, qi !! p' = Some (hq, r) -> low hq = low h -> False).
    { intros p' hq r Hp' E. apply L7 in Hp'. by rewrite E in Hp'. }
    intros p1 p2 h1 h2 r1 r2. rewrite !lookup_insert. do 2 case_decide; intros H1 H2 E; simplify_eq; try done.
    + exfalso. by eapply Hnew.
    + exfalso. by eapply Hnew.
    + by eapply L8.
  - intros x [->|Hx]%elem_of_cons; [split; [done|by left]|].
    apply (thread_ok_later O qi known).
    + split_and!; [done| |]; [|intros; by right]. intros p' hq Hp'. rewrite lookup_insert_ne; [done|].
      apply not_eq_sym. eauto.
    + intros h' c' ->. destruct (L9 _ (Hin _ Hx)) as [_ ?]. rewrite elem_of_cons. intros [?|?]; [|done].
      by eapply Hother.
    + by apply L9, Hin.
  - rewrite bind_cons. cbn [marks app]. by rewrite <- E1.
  - intros c' h' Hc'. rewrite bind_cons in Hc'. cbn [marks app] in Hc'. apply L11. by rewrite E1.
  - rewrite bind_cons. cbn [launching app]. rewrite E3 in L12. by apply NoDup_cons in L12 as [_ ?].
Qed.

(** A launch registers a new service. *)
Lemma link_launched O qi cs pool known made last h c p :
  link O qi cs pool known made last -> c ∉ made -> c_handle p = 0 -> last < low h ->
  (forall h' c', O h' c' -> h' <= last) ->
  link (fun h' c' => O h' c' \/ (h' = low h /\ c' = c)) qi (<[c := p]> cs) (TQueue h c :: pool)
       known (c :: made) (low h).
Proof.
  intros L Hc Eh Hl Hold. pose proof L as [L1 L2 L3 L4 L5 L6 L7 L8 L9 L10 L11 L12].
  assert (Hne : forall c' p', cs !! c' = Some p' -> c' <> c).
  { intros c' p' Hp' ->. apply Hc. by eapply L4. }
  assert (Hk : low h ∉ known) by (intros Hk; apply L6 in Hk; lia).
  assert (Hmk : forall x c', x ∈ pool -> marks x = [c'] -> c' <> c).
  { intros x c' Hx Ex. destruct x; try done; injection Ex as ->.
    - destruct (L2 _ _ Hx) as (p' & hq & Hp' & _). by eapply Hne.
    - destruct (L3 _ _ Hx) as [p' Hp']. by eapply Hne. }
  split; try done.
  - intros h' c' [Ho|[-> ->]].
    + destruct (L1 _ _ Ho) as (p' & Hp' & Hcase). exists p'.
      rewrite lookup_insert_ne by (apply not_eq_sym; eauto). split; [done|].
      destruct Hcase as [(h1 & Hx & E)|?]; [|by right]. left. exists h1. split; [by right|done].
    + exists p. rewrite lookup_insert_eq. split; [done|]. left. exists h. split; [by left|done].
  - intros c' k' [|Hx]%elem_of_cons; [done|].
    destruct (L2 c' k' Hx) as (p' & hq & Hp' & Hqi & El & Hk' & Hno). exists p', hq.
    rewrite lookup_insert_ne by (apply not_eq_sym; eauto). split_and!; try done.
    intros c1 [Ho|[E ->]]; [by eapply Hno|]. apply Hk. by rewrite <- E.
  - intros c' k' [|Hx]%elem_of_cons; [done|]. destruct (L3 c' k' Hx) as [p' Hp'].
    rewrite lookup_insert_ne by (apply not_eq_sym; eauto). by eexists.
  - intros c' p'. rewrite lookup_insert. case_decide as E.
    + intros [= <-]. subst c'. split; [by left|]. left. by rewrite Eh.
    + intros Hp'. destruct (L4 _ _ Hp'). split; [by right|done].
  - intros c1 c2 p1 p2. rewrite !lookup_insert. do 2 case_decide; intros H1 H2 E Hn0; simplify_eq; try done.
    + by rewrite Eh in Hn0.
    + by rewrite E, Eh in Hn0.
    + by eapply L5.
  - intros h' Hk'. apply L6 in Hk'. lia.
  - intros x [->|Hx]%elem_of_cons; [split; [by right|done]|].
    apply (thread_ok_later O qi known); [split_and!; [by left|done|done]| |by apply L9].
    intros h' c' ->. by destruct (L9 _ Hx).
  - intros c' h' Hc' [Ho|[-> ->]]; [by eapply L11|].
    rewrite bind_cons in Hc'. cbn [marks app] in Hc'. apply list_elem_of_bind in Hc' as (x & Hx1 & Hx2).
    assert (marks x = [c]) as Ex by (destruct x; cbn in *; try (by apply elem_of_nil in Hx1);
      apply list_elem_of_singleton in Hx1 as ->; done).
    by eapply Hmk.
  - rewrite bind_cons. cbn [launching app]. constructor; [|done].
    intros Hx. apply list_elem_of_bind in Hx as (x & Hx1 & Hx2). destruct x; cbn in Hx1; try (by apply elem_of_nil in Hx1).
    apply list_elem_of_singleton in Hx1. apply L9 in Hx2 as [Ho _]. apply Hold in Ho. lia.
Qed.

End Links.

(** ** Steps *)

Ltac scbn := cbn [sy_shared sy_pool sy_known sy_made sy_freed] in *.

Lemma owner_count (M : registry) h r r' c h' c' :
  M !! h = Some (r, c) -> owner (<[h := (r', c)]> M) h' c' <-> owner M h' c'.
Proof.
  intros HM. unfold owner. rewrite lookup_insert. case_decide as E; [|done]. subst h'. rewrite HM.
  split; intros (r1 & [= _ <-]); by eexists.
Qed.

Lemma owner_delete (M : registry) h h' c' : owner (delete h M) h' c' <-> owner M h' c' /\ h' <> h.
Proof. unfold owner. setoid_rewrite lookup_delete_Some. naive_solver. Qed.

Lemma owner_add (M : registry) h r c h' c' :
  M !! h = None -> owner (<[h := (r, c)]> M) h' c' <-> owner M h' c' \/ (h' = h /\ c' = c).
Proof.
  intros HM. unfold owner. rewrite lookup_insert. case_decide as E.
  - subst h'. rewrite HM. naive_solver.
  - naive_solver.
Qed.

Lemma link_ext O O' qi cs pool known made last :
  link O qi cs pool known made last -> (forall h c, O' h c <-> O h c) -> link O' qi cs pool known made last.
Proof.
  intros [L1 L2 L3 L4 L5 L6 L7 L8 L9 L10 L11 L12] HO. split; try done.
  - intros h c Ho%HO. by apply L1.
  - intros c k Hx. destruct (L2 c k Hx) as (p & hq & ? & ? & ? & ? & Hno). exists p, hq.
    split_and!; try done. intros c' Ho%HO. by eapply Hno.
  - intros x Hx. apply (thread_ok_later O qi known); [|intros h c ->; by destruct (L9 _ Hx)|by apply L9].
    split_and!; [intros h c; apply HO|done|done].
  - intros c h Hc Ho%HO. by eapply L11.
Qed.

Section StepsOk.
Context {rt : Runtime} {ok : RuntimeOk rt}.
Implicit Types (s : shared) (M : registry) (a : aworld) (rest pool ts : list thread) (known made freed : list Z).

(** The registry as the threads of a pool see it. *)
Definition reg_wf H (pool : list thread) made freed M : Prop :=
  hsys_wf (HSys H (pool ≫= refs) (pool ≫= removing) made freed) M.

Lemma reg_wf_perm H pool pool' made freed M :
  reg_wf H pool made freed M -> pool ≡ₚ pool' -> reg_wf H pool' made freed M.
Proof. intros HW E. eapply hsys_wf_perm; [exact HW|by rewrite E|by rewrite E]. Qed.

(** Other threads with the same references. *)
Lemma reg_wf_refs H t ts rest made freed M :
  reg_wf H (t :: rest) made freed M -> ts ≫= refs ≡ₚ refs t -> ts ≫= removing ≡ₚ removing t ->
  reg_wf H (ts ++ rest) made freed M.
Proof.
  intros HW E1 E2. eapply hsys_wf_perm; [exact HW| |]; rewrite bind_app, bind_cons; by rewrite ?E1, ?E2.
Qed.

Lemma sys_perm s pool pool' known made freed M a :
  sys_ok (System s pool known made freed) M a -> pool ≡ₚ pool' ->
  sys_ok (System s pool' known made freed) M a.
Proof.
  intros [HR HQ HT HL] E. cbn [sy_shared sy_pool sy_known sy_made sy_freed] in *. split; cbn.
  - by eapply reg_wf_perm.
  - done.
  - eapply toks_perm; [exact HT|by rewrite E|naive_solver|done].
  - destruct HL as [L1 L2 L3 L4 L5 L6 L7 L8 L9 L10 L11 L12].
    split; intros *; rewrite <- ?E; eauto.
    intros Ho. destruct (L1 _ _ Ho) as (p & Hp & [(h' & Hx & ?)|?]); exists p; (split; [done|]); [left|by right].
    exists h'. by rewrite <- E.
Qed.

(** A step of a plain thread on the registry. *)
Lemma sys_reg s H' t ts rest known made freed M M' a :
  sys_ok (System s (t :: rest) known made freed) M a -> plain t -> Forall plain ts ->
  (forall x, x ∈ ts -> thread_ok (owner M) (qinfo a) known x) ->
  reg_wf H' (ts ++ rest) made freed M' -> (forall h c, owner M' h c <-> owner M h c) ->
  H_last_id H' = H_last_id (sh_reg s) -> ts ≫= tokens ≡ₚ tokens t ->
  sys_ok (System (up_reg H' s) (ts ++ rest) known made freed) M' a.
Proof.
  intros [HR HQ HT HL] Ht Hts Hok HR' HO El Etok. cbn [sy_shared sy_pool sy_known sy_made sy_freed] in *.
  split; cbn; [done|done| |].
  - eapply toks_perm; [exact HT| |naive_solver|done]. rewrite bind_app, bind_cons. by rewrite Etok.
  - rewrite El. by eapply link_plain.
Qed.

(** A step of a plain thread on the queues. *)
Lemma sys_queue s w' t ts rest known made freed M a a' :
  sys_ok (System s (t :: rest) known made freed) M a -> plain t -> Forall plain ts ->
  (forall x, x ∈ ts -> thread_ok (owner M) (qinfo a) known x) ->
  ts ≫= refs ≡ₚ refs t -> ts ≫= removing ≡ₚ removing t ->
  refines w' a' -> toks (((ts ++ rest) ≫= tokens) ++ aw_ready a') (aw_queues a') ->
  (forall p x, qinfo a' !! p = Some x -> qinfo a !! p = Some x) ->
  (forall p hq, qinfo a !! p = Some (hq, 0) -> qinfo a' !! p = Some (hq, 0)) ->
  sys_ok (System (up_queues w' s) (ts ++ rest) known made freed) M a'.
Proof.
  intros [HR HQ HT HL] Ht Hts Hok E1 E2 HQ' HT' Hq1 Hq2. cbn [sy_shared sy_pool sy_known sy_made sy_freed] in *.
  split; cbn; [by eapply reg_wf_refs|done|done|]. by eapply link_plain.
Qed.

(** The same queues in another order, in or out of the list. *)
Lemma sys_list s w' t ts rest known made freed M a l :
  sys_ok (System s (t :: rest) known made freed) M a -> plain t -> Forall plain ts ->
  (forall x, x ∈ ts -> thread_ok (owner M) (qinfo a) known x) ->
  ts ≫= refs ≡ₚ refs t -> ts ≫= removing ≡ₚ removing t ->
  refines w' (AWorld (aw_queues a) l) -> (ts ≫= tokens) ++ l ≡ₚ tokens t ++ aw_ready a ->
  sys_ok (System (up_queues w' s) (ts ++ rest) known made freed) M (AWorld (aw_queues a) l).
Proof.
  intros Hok Ht Hts Hth E1 E2 HQ' Et. eapply sys_queue; try done.
  destruct Hok as [HR HQ HT HL]. cbn [sy_shared sy_pool] in *. eapply toks_perm; [exact HT| |naive_solver|done].
  rewrite bind_app, bind_cons. cbn [aw_ready]. rewrite <- (assoc (++) (tokens t)), (comm (++) (rest ≫= tokens)), (assoc (++) (tokens t)), <- Et.
  solve_Permutation.
Qed.

Lemma qinfo_update a p q q' :
  aw_queues a !! p = Some q -> aq_handle q' = aq_handle q -> aq_release q' = aq_release q ->
  qinfo (AWorld (<[p := q']> (aw_queues a)) (aw_ready a)) = qinfo a.
Proof.
  intros Hp Eh Er. unfold qinfo. cbn. rewrite fmap_insert, insert_id; [done|].
  rewrite lookup_fmap, Hp. cbn. by rewrite Eh, Er.
Qed.

(** Facts about a thread and what it holds. *)
Lemma sys_token s t rest known made freed M a p :
  sys_ok (System s (t :: rest) known made freed) M a -> p ∈ tokens t ->
  (exists q, aw_queues a !! p = Some q /\ runnable q /\ p <> 0) /\ (p ∉ aw_ready a).
Proof.
  intros [HR HQ HT HL] Hp. cbn [sy_shared sy_pool] in *. rewrite bind_cons in HT.
  assert (Hin : p ∈ tokens t ++ rest ≫= tokens) by (apply elem_of_app; by left).
  destruct (toks_held _ _ _ p HT Hin) as [_ Hr]. split; [|done].
  destruct (proj1 (tk_in _ _ HT p)) as (q & Hq & Hrun); [apply elem_of_app; by left|].
  exists q. split; [done|]. split; [done|]. by eapply refines_null.
Qed.

Lemma sys_ready s pool known made freed M a p l :
  sys_ok (System s pool known made freed) M a -> aw_ready a = p :: l -> p <> 0.
Proof.
  intros [HR HQ HT HL] E. cbn [sy_shared sy_pool] in *.
  destruct (proj1 (tk_in _ _ HT p)) as (q & Hq & Hrun); [apply elem_of_app; right; rewrite E; by left|].
  by eapply refines_null.
Qed.

Lemma sys_thread s t rest known made freed M a :
  sys_ok (System s (t :: rest) known made freed) M a -> thread_ok (owner M) (qinfo a) known t.
Proof. intros [_ _ _ HL]. apply (lk_threads _ _ _ _ _ _ _ HL). by left. Qed.

(** The queue of a live, known service is not released. *)
Lemma sys_owner s pool known made freed M a h c :
  sys_ok (System s pool known made freed) M a -> owner M h c -> h ∈ known ->
  exists p q, sh_ctx s !! c = Some p /\ low (c_handle p) = h /\ aw_queues a !! c_queue p = Some q /\
    low (aq_handle q) = h /\ aq_release q = 0.
Proof.
  intros [_ _ _ HL] Ho Hk. destruct (link_owner _ _ _ _ _ _ _ _ _ HL Ho Hk) as (p & hq & Hp & Eh & Hq & El).
  unfold qinfo in Hq. rewrite lookup_fmap in Hq. cbn in Hp.
  destruct (aw_queues a !! c_queue p) as [q|] eqn:E; [|done]. cbn in Hq. injection Hq as <- Er.
  exists p, q. done.
Qed.

Lemma qinfo_lookup a p q : aw_queues a !! p = Some q -> qinfo a !! p = Some (aq_handle q, aq_release q).
Proof. intros Hq. unfold qinfo. by rewrite lookup_fmap, Hq. Qed.

(** A step of [t] is defined and leads to a well-formed system, and what it
    does to the queues. *)
Definition steps t s rest known made freed M a : Prop :=
  exists ts s' M' a', thread_step t s = Some (ts, s') /\ moves t ts a a' /\
    sys_ok (System s' (ts ++ rest) (learn t known) made (buried ts t freed)) M' a'.

Ltac one := intros ? ->%list_elem_of_singleton.

Lemma step_pop_global s t rest known made freed M a k0 kq :
  sys_ok (System s (t :: rest) known made freed) M a -> plain t ->
  thread_step t s = ('(q, w) ← queue_pop_global (sh_queues s);
    Some ([if q =? 0 then k0 else kq q], up_queues w s)) ->
  moves t = takes k0 kq -> learn t known = known -> (forall ts, buried ts t freed = freed) ->
  plain k0 -> thread_ok (owner M) (qinfo a) known k0 -> refs k0 = refs t -> removing k0 = removing t ->
  tokens k0 = tokens t ->
  (forall q, plain (kq q) /\ thread_ok (owner M) (qinfo a) known (kq q) /\ refs (kq q) = refs t /\
     removing (kq q) = removing t /\ tokens (kq q) = tokens t ++ [q]) ->
  steps t s rest known made freed M a.
Proof.
  intros Hok Ht Est Emv El Eb Hp0 Ht0 Er0 Em0 Ek0 Hq. pose proof Hok as [_ HQ _ _]. scbn.
  destruct (queue_pop_global_sim _ _ HQ) as (w' & Hw & HR). unfold spec_pop_global in *. unfold steps.
  rewrite Est, Hw, El, Emv. unfold takes. cbn [mbind option_bind]. destruct (aw_ready a) as [|p l] eqn:Ea; cbn [fst snd] in *.
  - eexists _, _, _, a. split; [reflexivity|]. split; [done|]. rewrite Eb. cbn [Z.eqb].
    assert (E : a = AWorld (aw_queues a) []) by (destruct a; cbn in *; by rewrite Ea). rewrite E.
    eapply (sys_list s w' t [k0] rest _ _ _ _ a []); try done; rewrite ?bind_cons, ?bind_nil.
    + by constructor.
    + by one.
    + by rewrite app_nil_r, Er0.
    + by rewrite app_nil_r, Em0.
    + by rewrite <- E.
    + by rewrite Ea, Ek0, app_nil_r.
  - pose proof (sys_ready _ _ _ _ _ _ _ _ _ Hok Ea) as Hp. rewrite (proj2 (Z.eqb_neq p 0)) by done.
    destruct (Hq p) as (H1 & H2 & H3 & H4 & H5).
    eexists _, _, _, _. split; [reflexivity|]. split; [done|]. rewrite Eb.
    eapply (sys_list s w' t [kq p] rest); try done; rewrite ?bind_cons, ?bind_nil.
    + by constructor.
    + by one.
    + by rewrite app_nil_r, H3.
    + by rewrite app_nil_r, H4.
    + rewrite Ea, H5, app_nil_r. by rewrite <- (assoc (++)).
Qed.

Lemma step_push_global s t rest known made freed M a q l k :
  sys_ok (System s (t :: rest) known made freed) M a -> plain t ->
  thread_step t s = (w ← queue_push_global q (sh_queues s); Some ([k], up_queues w s)) ->
  moves t = (fun _ a a' => a' = AWorld (aw_queues a) (aw_ready a ++ [q])) ->
  learn t known = known -> (forall ts, buried ts t freed = freed) ->
  tokens t = q :: l -> plain k -> thread_ok (owner M) (qinfo a) known k -> refs k = refs t ->
  removing k = removing t -> tokens k = l ->
  steps t s rest known made freed M a.
Proof.
  intros Hok Ht Est Emv El Eb Etk Hk Hth Er Em Ek. pose proof Hok as [_ HQ _ _]. scbn.
  destruct (sys_token _ _ _ _ _ _ _ _ q Hok) as [(aq & Hq & Hrun & Hq0) Hnr]; [rewrite Etk; by left|].
  destruct (refines_push_global _ _ (AWorld (aw_queues a) (aw_ready a ++ [q])) q HQ) as (w' & Hw & HR).
  { unfold spec_push_global. rewrite decide_True; [done|]. split; [by eexists|done]. }
  unfold steps. rewrite Est, Hw, El, Emv. cbn [mbind option_bind]. eexists _, _, _, _. split; [reflexivity|].
  split; [done|]. rewrite Eb. eapply (sys_list s w' t [k] rest); try done; rewrite ?bind_cons, ?bind_nil.
  - by constructor.
  - by one.
  - by rewrite app_nil_r, Er.
  - by rewrite app_nil_r, Em.
  - rewrite Ek, Etk, app_nil_r. solve_Permutation.
Qed.

Lemma step_idle s rest known made freed M a :
  sys_ok (System s (TIdle :: rest) known made freed) M a -> steps TIdle s rest known made freed M a.
Proof. intros Hok. by eapply (step_pop_global _ _ _ _ _ _ _ _ TSleep TGrab). Qed.

Lemma step_return s rest known made freed M a :
  sys_ok (System s (TReturn :: rest) known made freed) M a -> steps TReturn s rest known made freed M a.
Proof. intros Hok. by eapply (step_pop_global _ _ _ _ _ _ _ _ TSleep TTop). Qed.

Lemma step_next s q h rest known made freed M a :
  sys_ok (System s (TNext q h :: rest) known made freed) M a -> steps (TNext q h) s rest known made freed M a.
Proof. intros Hok. by eapply (step_pop_global _ _ _ _ _ _ _ _ (TRel h (KTop q)) (TPut q h)). Qed.

Lemma step_put s q h n rest known made freed M a :
  sys_ok (System s (TPut q h n :: rest) known made freed) M a -> steps (TPut q h n) s rest known made freed M a.
Proof. intros Hok. by eapply (step_push_global _ _ _ _ _ _ _ _ q [n] (TRel h (KTop n))). Qed.

Lemma step_ready s h q rest known made freed M a :
  sys_ok (System s (TReady h q :: rest) known made freed) M a -> steps (TReady h q) s rest known made freed M a.
Proof. intros Hok. by eapply (step_push_global _ _ _ _ _ _ _ _ q [] (TRel h KStop)). Qed.

(** [handle_grab] by the thread [t]. *)
Lemma grab_cases s t rest known made freed M a h :
  sys_ok (System s (t :: rest) known made freed) M a -> low h <> 0 ->
  (M !! low h = None /\ handle_grab h (sh_reg s) = Some (0, sh_reg s)) \/
  (exists c r H', M !! low h = Some (r, c) /\ c <> 0 /\ handle_grab h (sh_reg s) = Some (c, H') /\
     H_last_id H' = H_last_id (sh_reg s) /\
     forall ts, ts ≫= refs ≡ₚ low h :: refs t -> ts ≫= removing ≡ₚ removing t ->
       reg_wf H' (ts ++ rest) made freed (<[low h := (r + 1, c)]> M)).
Proof.
  intros [HR _ _ _] Hh. scbn. pose proof (reg_grab _ _ _ _ _ _ h HR Hh) as Hg.
  destruct (M !! low h) as [[r c]|]; [|by left]. right.
  destruct Hg as (Hc & H' & Hg & El & HW). exists c, r, H'. split_and!; try done.
  intros ts E1 E2. rewrite !bind_cons in HW. eapply hsys_wf_perm; [exact HW| |]; rewrite bind_app.
  - by rewrite E1.
  - by rewrite E2.
Qed.

Lemma up_reg_id s : up_reg (sh_reg s) s = s.
Proof. by destruct s. Qed.

Lemma step_grab s q rest known made freed M a :
  sys_ok (System s (TGrab q :: rest) known made freed) M a -> steps (TGrab q) s rest known made freed M a.
Proof.
  intros Hok. pose proof Hok as [_ HQ _ HL]. scbn.
  destruct (sys_token _ _ _ _ _ _ _ _ q Hok) as [(aq & Hq & Hrun & Hq0) Hnr]; [by left|].
  destruct (refines_queue _ _ _ _ HQ Hq) as (cq & Hcq & _ & Eaq & _).
  assert (Hh : queue_handle q (sh_queues s) = Some (aq_handle aq)) by (unfold queue_handle; by rewrite Hcq, Eaq).
  pose proof (lk_qi _ _ _ _ _ _ _ HL _ _ _ (qinfo_lookup _ _ _ Hq)) as Hk.
  unfold steps. cbn [thread_step]. rewrite Hh. cbn [mbind option_bind].
  destruct (grab_cases _ _ _ _ _ _ _ _ (aq_handle aq) Hok) as [(HM & ->)|(c & r & H' & HM & Hc & -> & El & HW)];
    [by eapply link_known_pos| |]; cbn [mbind option_bind].
  - eexists _, _, M, a. split; [reflexivity|]. split; [apply grows_refl|]. cbn [Z.eqb learn buried].
    eapply (sys_reg s _ (TGrab q) [TFree q] rest); try done; [by repeat constructor|by one|].
    destruct Hok as [HR _ _ _]. exact HR.
  - rewrite (proj2 (Z.eqb_neq c 0)) by done. eexists _, _, (<[low (aq_handle aq) := (r + 1, c)]> M), a. split; [reflexivity|]. split; [apply grows_refl|]. cbn [learn buried].
    assert (Ho : owner M (low (aq_handle aq)) c) by (by eexists).
    eapply (sys_reg s _ (TGrab q) [TPop q (aq_handle aq) c] rest); try done; [by repeat constructor| |by apply HW|].
    + one. split; [done|]. destruct (sys_owner _ _ _ _ _ _ _ _ _ Hok Ho Hk) as (p & q' & Hp & Eh & Hq' & El' & Er).
      pose proof (lk_qinj _ _ _ _ _ _ _ HL _ _ _ _ _ _ (qinfo_lookup _ _ _ Hq) (qinfo_lookup _ _ _ Hq') (eq_sym El')) as E.
      rewrite (qinfo_lookup _ _ _ Hq). rewrite <- E in Hq'. assert (q' = aq) as -> by congruence. by rewrite Er.
    + intros h' c'. by apply (owner_count _ _ r).
Qed.

Lemma step_send s h m rest known made freed M a :
  sys_ok (System s (TSend h m :: rest) known made freed) M a -> steps (TSend h m) s rest known made freed M a.
Proof.
  intros Hok. pose proof (sys_thread _ _ _ _ _ _ _ _ Hok) as Hk. cbn in Hk.
  pose proof Hok as [_ _ _ HL]. scbn. unfold steps. cbn [thread_step].
  destruct (grab_cases _ _ _ _ _ _ _ _ h Hok) as [(HM & ->)|(c & r & H' & HM & Hc & -> & El & HW)];
    [by eapply link_known_pos| |]; cbn [mbind option_bind].
  - eexists _, _, M, a. split; [reflexivity|]. split; [apply grows_refl|]. cbn [Z.eqb learn buried].
    eapply (sys_reg s _ (TSend h m) [] rest); try done; [by intros ? ?%elem_of_nil|].
    destruct Hok as [HR _ _ _]. exact HR.
  - rewrite (proj2 (Z.eqb_neq c 0)) by done. eexists _, _, (<[low h := (r + 1, c)]> M), a. split; [reflexivity|]. split; [apply grows_refl|]. cbn [learn buried].
    eapply (sys_reg s _ (TSend h m) [TPush h c m] rest); try done; [by repeat constructor| |by apply HW|].
    + one. split; [by eexists|done].
    + intros h' c'. by apply (owner_count _ _ r).
Qed.

Lemma step_ref s h c q rest known made freed M a :
  sys_ok (System s (TRef h c q :: rest) known made freed) M a -> steps (TRef h c q) s rest known made freed M a.
Proof.
  intros Hok. pose proof (sys_thread _ _ _ _ _ _ _ _ Hok) as [Ho Hk].
  pose proof Hok as [_ _ _ HL]. scbn. unfold steps. cbn [thread_step].
  destruct (grab_cases _ _ _ _ _ _ _ _ h Hok) as [(HM & ->)|(c' & r & H' & HM & Hc & -> & El & HW)];
    [by eapply link_known_pos| |]; cbn [mbind option_bind].
  - destruct Ho as [? ?]. congruence.
  - eexists _, _, (<[low h := (r + 1, c')]> M), a. split; [reflexivity|]. split; [apply grows_refl|]. cbn [learn buried].
    eapply (sys_reg s _ (TRef h c q) [TReady h q; TOwner h] rest); try done; [by repeat constructor| |by apply HW|].
    + intros x [->|[->|?%elem_of_nil]%elem_of_cons]%elem_of_cons; done.
    + intros h' c1. by apply (owner_count _ _ r).
Qed.

Lemma resume_owns k : resume k ≫= refs = [] /\ resume k ≫= removing = [] /\ resume k ≫= tokens = cont_queue k.
Proof. by destruct k. Qed.

Lemma low_low h : low (low h) = low h.
Proof. apply low_id, low_range. Qed.

Lemma step_rel s h k rest known made freed M a :
  sys_ok (System s (TRel h k :: rest) known made freed) M a -> steps (TRel h k) s rest known made freed M a.
Proof.
  intros Hok. pose proof Hok as [HR _ _ HL]. scbn.
  rewrite !bind_cons in HR. cbn [refs removing app] in HR.
  destruct (reg_release _ _ _ _ _ _ _ HR) as (r & c & H' & HM & Hc & Hr & Hrel & El & HW).
  destruct (resume_plain (owner M) (qinfo a) known k) as [Hpl Hth].
  destruct (resume_owns k) as (E1 & E2 & E3).
  unfold steps. cbn [thread_step]. rewrite Hrel. cbn [mbind option_bind].
  eexists _, _, (<[low h := (r - 1, c)]> M), a. split; [reflexivity|]. split; [apply grows_refl|]. cbn [learn buried].
  destruct (Z.eqb_spec r 1) as [->|Hr1].
  - cbn [Z.eqb]. eapply (sys_reg s _ (TRel h k) [TRemove h k] rest); try done;
      [by repeat constructor|by one| |..].
    + intros h' c'. by apply (owner_count _ _ 1).
    + by rewrite bind_cons, bind_nil, app_nil_r.
  - rewrite (proj2 (Z.eqb_neq c 0)) by done.
    eapply (sys_reg s _ (TRel h k) (resume k) rest); try done.
    + unfold reg_wf. by rewrite !bind_app, E1, E2.
    + intros h' c'. by apply (owner_count _ _ r).
    + by rewrite E3.
Qed.

Lemma step_owner s h rest known made freed M a :
  sys_ok (System s (TOwner h :: rest) known made freed) M a -> steps (TOwner h) s rest known made freed M a.
Proof.
  intros Hok. pose proof Hok as [HR _ _ _]. scbn. eexists _, _, M, a. split; [reflexivity|]. split; [apply grows_refl|].
  cbn [learn buried]. rewrite <- (up_reg_id s).
  eapply (sys_reg s _ (TOwner h) [TRel h KStop] rest); try done; [by repeat constructor|by one].
Qed.

Lemma step_dec s rest known made freed M a :
  sys_ok (System s (TDec :: rest) known made freed) M a -> steps TDec s rest known made freed M a.
Proof.
  intros Hok. pose proof Hok as [HR _ _ _]. scbn. eexists _, _, M, a. split; [reflexivity|]. split; [apply grows_refl|].
  cbn [learn buried].
  assert (H1 : sys_ok (System (up_reg (sh_reg s) s) ([TReturn] ++ rest) known made freed) M a).
  { eapply (sys_reg s _ TDec [TReturn] rest); try done; [by repeat constructor|by one]. }
  destruct H1. by split.
Qed.

(** A step on the watcher. *)
Lemma step_watch s t rest known made freed M a :
  sys_ok (System s (t :: rest) known made freed) M a -> plain t ->
  thread_step t s = (let '(k, v) := watch_step t (sh_total s) (sh_watch s) in Some ([k], up_watch v s)) ->
  (let k := fst (watch_step t (sh_total s) (sh_watch s)) in
     plain k /\ thread_ok (owner M) (qinfo a) known k /\ refs k = refs t /\ removing k = removing t /\ tokens k = tokens t) ->
  moves t = (fun _ a a' => grows a a') -> learn t known = known -> (forall ts, buried ts t freed = freed) ->
  steps t s rest known made freed M a.
Proof.
  intros Hok Ht. destruct (watch_step t (sh_total s) (sh_watch s)) as [k v].
  intros Est Hkv Emv El Eb. cbn [fst] in Hkv. destruct Hkv as (Hk & Hth & Er & Em & Ek).
  unfold steps. rewrite Est, El, Emv.
  eexists _, _, M, a. split; [reflexivity|]. split; [apply grows_refl|]. rewrite Eb.
  assert (HR : reg_wf (sh_reg s) ([k] ++ rest) made freed M).
  { destruct Hok as [HR _ _ _]. scbn. eapply (reg_wf_refs _ t [k]); [exact HR| |];
      by rewrite bind_cons, bind_nil, app_nil_r, ?Er, ?Em. }
  assert (H1 : sys_ok (System (up_reg (sh_reg s) s) ([k] ++ rest) known made freed) M a).
  { eapply (sys_reg s _ t [k] rest); [exact Hok|done|by constructor|by one|exact HR|done|done|].
    by rewrite bind_cons, bind_nil, app_nil_r, Ek. }
  destruct H1. by split.
Qed.

(** A queue gets another value with the same handle and release mark. *)
Lemma sys_qupdate s w' t k rest known made freed M a p q q' :
  sys_ok (System s (t :: rest) known made freed) M a -> plain t -> plain k ->
  thread_ok (owner M) (qinfo a) known k -> refs k = refs t -> removing k = removing t ->
  aw_queues a !! p = Some q -> aq_handle q' = aq_handle q -> aq_release q' = aq_release q ->
  refines w' (AWorld (<[p := q']> (aw_queues a)) (aw_ready a)) ->
  toks (tokens k ++ (rest ≫= tokens) ++ aw_ready a) (<[p := q']> (aw_queues a)) ->
  sys_ok (System (up_queues w' s) (k :: rest) known made freed) M
         (AWorld (<[p := q']> (aw_queues a)) (aw_ready a)).
Proof.
  intros Hok Ht Hk Hth Er Em Hp Eh Erel HR HT.
  eapply (sys_queue s w' t [k] rest); try done; rewrite ?(qinfo_update a p q q' Hp Eh Erel); try done.
  - by constructor.
  - by one.
  - by rewrite bind_cons, bind_nil, app_nil_r, Er.
  - by rewrite bind_cons, bind_nil, app_nil_r, Em.
  - cbn [app]. rewrite bind_cons. by rewrite <- (assoc (++)).
Qed.

Lemma sys_toks s t rest known made freed M a :
  sys_ok (System s (t :: rest) known made freed) M a ->
  toks (tokens t ++ (rest ≫= tokens) ++ aw_ready a) (aw_queues a).
Proof. intros [_ _ HT _]. scbn. rewrite bind_cons in HT. by rewrite <- (assoc (++)) in HT. Qed.

Lemma step_pop s q h c rest known made freed M a :
  sys_ok (System s (TPop q h c :: rest) known made freed) M a -> steps (TPop q h c) s rest known made freed M a.
Proof.
  intros Hok. pose proof (sys_thread _ _ _ _ _ _ _ _ Hok) as [Ho Hqi]. pose proof Hok as [_ HQ _ _]. scbn.
  pose proof (sys_toks _ _ _ _ _ _ _ _ Hok) as HT. cbn [tokens] in HT.
  destruct (sys_token _ _ _ _ _ _ _ _ q Hok) as [(aq & Hq & Hrun & Hq0) Hnr]; [by left|].
  rewrite (qinfo_lookup _ _ _ Hq) in Hqi. injection Hqi as Eh Er.
  unfold steps. cbn [thread_step]. destruct (aq_msgs aq) as [|m ms] eqn:Em.
  - set (aq' := AQueue (aq_handle aq) [] 0 (aq_release aq) (aq_overload aq) QUEUE_OVERLOAD).
    destruct (queue_pop_sim _ _ (AWorld (<[q := aq']> (aw_queues a)) (aw_ready a)) q (inr tt) HQ) as (w' & -> & HR).
    { unfold spec_pop. rewrite Hq. cbn. by rewrite Em. }
    cbn [mbind option_bind]. eexists _, _, M, _. split; [reflexivity|].
    split; [exists aq, aq'; by rewrite Em|]. cbn [learn buried app].
    apply (sys_qupdate s w' (TPop q h c) (TRel h KIdle) rest _ _ _ M a q aq aq'); try done.
    eapply toks_sleep; [exact HT|done| |done]. unfold runnable, aq'. cbn. lia.
  - destruct (spec_overload (zlen ms) (aq_overload aq) (aq_threshold aq)) as [o thr] eqn:Eo.
    set (aq' := AQueue (aq_handle aq) ms (aq_global aq) (aq_release aq) o thr).
    destruct (queue_pop_sim _ _ (AWorld (<[q := aq']> (aw_queues a)) (aw_ready a)) q (inl m) HQ) as (w' & -> & HR).
    { unfold spec_pop. rewrite Hq. cbn [mbind option_bind]. by rewrite Em, Eo. }
    cbn [mbind option_bind]. eexists _, _, M, _. split; [reflexivity|].
    split; [exists aq, aq'; by rewrite Em|]. cbn [learn buried app].
    apply (sys_qupdate s w' (TPop q h c) (TRun q h c m) rest _ _ _ M a q aq aq'); try done.
    eapply toks_update; [exact HT|done|exact Hq|done|done].
Qed.

Lemma step_run s q h c m rest known made freed M a :
  sys_ok (System s (TRun q h c m :: rest) known made freed) M a -> steps (TRun q h c m) s rest known made freed M a.
Proof.
  intros Hok. pose proof (sys_thread _ _ _ _ _ _ _ _ Hok) as Ho. pose proof Hok as [_ HQ _ HL]. scbn.
  pose proof (sys_toks _ _ _ _ _ _ _ _ Hok) as HT. cbn [tokens] in HT.
  destruct (sys_token _ _ _ _ _ _ _ _ q Hok) as [(aq & Hq & Hrun & Hq0) Hnr]; [by left|].
  destruct (lk_live _ _ _ _ _ _ _ HL _ _ Ho) as (p & Hp & _).
  assert (exists n aq', spec_take_overload q a = Some (n, AWorld (<[q := aq']> (aw_queues a)) (aw_ready a)) /\
    aq_handle aq' = aq_handle aq /\ aq_release aq' = aq_release aq /\ aq_global aq' = aq_global aq /\
    aq_msgs aq' = aq_msgs aq) as (n & aq' & Ha & E1 & E2 & E3 & E4).
  { unfold spec_take_overload. rewrite Hq. cbn [mbind option_bind]. destruct (negb _).
    - eexists _, _. split; [reflexivity|done].
    - exists 0, aq. rewrite insert_id by done. split; [by destruct a|done]. }
  destruct (queue_overload_sim _ _ _ _ _ HQ Ha) as (w' & Hw & HR).
  unfold steps. cbn [thread_step]. rewrite Hw. cbn [mbind option_bind]. rewrite Hp. cbn [mbind option_bind].
  eexists _, _, M, _. split; [reflexivity|]. split; [by eapply grows_update|]. cbn [learn buried app].
  apply (sys_qupdate s w' (TRun q h c m) (TNext q h) rest _ _ _ M a q aq aq'); try done.
  eapply toks_update; [exact HT|done|exact Hq| |].
  - unfold runnable. by rewrite E2, E3.
  - done.
Qed.

Lemma step_push s h c m rest known made freed M a :
  sys_ok (System s (TPush h c m :: rest) known made freed) M a -> steps (TPush h c m) s rest known made freed M a.
Proof.
  intros Hok. pose proof (sys_thread _ _ _ _ _ _ _ _ Hok) as [Ho Hk]. pose proof Hok as [_ HQ _ _]. scbn.
  pose proof (sys_toks _ _ _ _ _ _ _ _ Hok) as HT. cbn [tokens app] in HT.
  destruct (sys_owner _ _ _ _ _ _ _ _ _ Hok Ho Hk) as (p & aq & Hp & Eh & Hq & El & Er).
  set (q := c_queue p) in *.
  unfold steps. cbn [thread_step]. rewrite Hp. cbn [mbind option_bind]. fold q.
  set (push g := AQueue (aq_handle aq) (aq_msgs aq ++ [m]) g (aq_release aq) (aq_overload aq) (aq_threshold aq)).
  destruct (Z.eqb_spec (aq_global aq) 0) as [G|G].
  - assert (Hnr : ~ runnable aq) by (unfold runnable; lia).
    assert (Hnin : q ∉ (rest ≫= tokens) ++ aw_ready a) by (rewrite (tk_in _ _ HT); naive_solver).
    destruct (queue_push_sim _ _ (AWorld (<[q := push 1]> (aw_queues a)) (aw_ready a ++ [q])) q m HQ) as (w' & -> & HR).
    { unfold spec_push. rewrite Hq. cbn [mbind option_bind]. rewrite G. cbn [Z.eqb].
      unfold spec_push_global. rewrite decide_True; [done|]. cbn. rewrite lookup_insert_eq. split; [by eexists|].
      intros ?. apply Hnin, elem_of_app. by right. }
    cbn [mbind option_bind]. eexists _, _, M, _. split; [reflexivity|].
    split; [by apply (grows_insert a q aq (push 1) [m]); [done|done|exists [q]]|]. cbn [learn buried].
    assert (Eq : qinfo (AWorld (<[q := push 1]> (aw_queues a)) (aw_ready a ++ [q])) = qinfo a).
    { by apply (qinfo_update a q aq (push 1)). }
    eapply (sys_queue s w' (TPush h c m) [TRel (c_handle p) KStop] rest); try done; rewrite ?Eq; try done.
    + by repeat constructor.
    + by one.
    + rewrite bind_cons, bind_nil, app_nil_r. cbn [refs]. by rewrite Eh.
    + cbn [app aw_queues aw_ready]. rewrite bind_cons. cbn [tokens cont_queue app].
      eapply toks_wake; [exact HT| | |].
      * solve_Permutation.
      * left. done.
      * intros q0 Hq0. congruence.
  - destruct (queue_push_sim _ _ (AWorld (<[q := push (aq_global aq)]> (aw_queues a)) (aw_ready a)) q m HQ) as (w' & -> & HR).
    { unfold spec_push. rewrite Hq. cbn [mbind option_bind]. by rewrite (proj2 (Z.eqb_neq _ _) G). }
    cbn [mbind option_bind]. eexists _, _, M, _. split; [reflexivity|].
    split; [by apply (grows_insert a q aq (push (aq_global aq)) [m]); [done|done|exists []; rewrite app_nil_r]|]. cbn [learn buried app].
    apply (sys_qupdate s w' (TPush h c m) (TRel (c_handle p) KStop) rest _ _ _ M a q aq (push (aq_global aq))); try done.
    + cbn [refs]. by rewrite Eh.
    + eapply toks_update; [exact HT|done|exact Hq|done|]. intros Hn. destruct Hn. by left.
Qed.

Lemma step_free s q rest known made freed M a :
  sys_ok (System s (TFree q :: rest) known made freed) M a -> steps (TFree q) s rest known made freed M a.
Proof.
  intros Hok. pose proof Hok as [_ HQ _ _]. scbn.
  pose proof (sys_toks _ _ _ _ _ _ _ _ Hok) as HT. cbn [tokens] in HT.
  destruct (sys_token _ _ _ _ _ _ _ _ q Hok) as [(aq & Hq & Hrun & Hq0) Hnr]; [by left|].
  unfold steps. cbn [thread_step]. destruct (Z.eqb_spec (aq_release aq) 0) as [R|R].
  - destruct (queue_free_sim _ _ (AWorld (aw_queues a) (aw_ready a ++ [q])) q [] HQ) as (w' & -> & HR).
    { unfold spec_free. rewrite Hq. cbn [mbind option_bind]. rewrite R. cbn [Z.eqb].
      unfold spec_push_global. rewrite decide_True; [done|]. split; [by eexists|done]. }
    cbn [mbind option_bind]. eexists _, _, M, _. split; [reflexivity|]. split; [by apply grows_kept|]. cbn [learn buried].
    eapply (sys_list s w' (TFree q) [TDec] rest); try done; [by repeat constructor|by one|].
    cbn. solve_Permutation.
  - destruct (queue_free_sim _ _ (AWorld (delete q (aw_queues a)) (aw_ready a)) q (aq_msgs aq) HQ) as (w' & -> & HR).
    { unfold spec_free. rewrite Hq. cbn [mbind option_bind]. rewrite (proj2 (Z.eqb_neq _ _) R).
      by rewrite decide_False. }
    cbn [mbind option_bind]. eexists _, _, M, _. split; [reflexivity|]. split; [apply grows_refl|]. cbn [learn buried].
    eapply (sys_queue s w' (TFree q) [TDec] rest); try done; [by repeat constructor|by one| | |].
    + cbn [app aw_queues aw_ready]. rewrite bind_cons. cbn [tokens app].
      eapply toks_delete; [exact HT|done].
    + intros p x. unfold qinfo. cbn. rewrite fmap_delete. by intros [_ ?]%lookup_delete_Some.
    + intros p hq Hp. unfold qinfo. cbn. rewrite fmap_delete, lookup_delete_ne; [done|].
      intros <-. rewrite (qinfo_lookup _ _ _ Hq) in Hp. congruence.
Qed.

Lemma step_mark s c k rest known made freed M a :
  sys_ok (System s (TMark c k :: rest) known made freed) M a -> steps (TMark c k) s rest known made freed M a.
Proof.
  intros Hok. pose proof Hok as [HR HQ _ HL]. scbn.
  pose proof (sys_toks _ _ _ _ _ _ _ _ Hok) as HT. cbn [tokens] in HT.
  destruct (lk_mark _ _ _ _ _ _ _ HL c k) as (p & hq & Hp & Hqi & El & Hk & Hno); [by left|].
  pose proof Hqi as Hqi'. unfold qinfo in Hqi'. rewrite lookup_fmap in Hqi'. set (q := c_queue p) in *.
  destruct (aw_queues a !! q) as [aq|] eqn:Hq; [|done]. cbn in Hqi'. injection Hqi' as Eh Er.
  set (aq' := AQueue (aq_handle aq) (aq_msgs aq) (aq_global aq) 1 (aq_overload aq) (aq_threshold aq)).
  assert (Hrun : runnable aq') by (by right).
  (** The list of ready queues afterwards. *)
  assert (exists l, spec_mark_free q a = Some (AWorld (<[q := aq']> (aw_queues a)) l) /\ (exists l', l = aw_ready a ++ l') /\
    toks (cont_queue k ++ (rest ≫= tokens) ++ l) (<[q := aq']> (aw_queues a))) as (l & Ha & Hl & HT').
  { unfold spec_mark_free. rewrite Hq. cbn [mbind option_bind]. rewrite Er. cbn [Z.eqb negb].
    destruct (Z.eqb_spec (aq_global aq) 0) as [G|G].
    - assert (Hnr : ~ runnable aq) by (unfold runnable; lia).
      assert (Hnin : q ∉ cont_queue k ++ (rest ≫= tokens) ++ aw_ready a) by (rewrite (tk_in _ _ HT); naive_solver).
      exists (aw_ready a ++ [q]). split.
      + unfold spec_push_global. rewrite decide_True; [done|]. cbn. rewrite lookup_insert_eq. split; [by eexists|].
        intros ?. apply Hnin. rewrite !elem_of_app. tauto.
      + split; [by eexists|]. eapply toks_wake; [exact HT| |done|].
        * solve_Permutation.
        * intros q0 Hq0. congruence.
    - exists (aw_ready a). split; [done|]. split; [exists []; by rewrite app_nil_r|]. eapply toks_update; [exact HT|done|exact Hq| |].
      + unfold runnable. tauto.
      + intros Hn. destruct Hn. by left. }
  destruct (queue_mark_free_sim _ _ _ _ HQ Ha) as (w' & Hw & HRw).
  unfold steps. cbn [thread_step]. rewrite Hp. cbn [mbind option_bind]. fold q. rewrite Hw. cbn [mbind option_bind].
  eexists _, _, M, _. split; [reflexivity|].
  split; [eapply (grows_insert a q aq aq' []); [done|by rewrite app_nil_r|done]|]. cbn [learn buried app]. split; scbn; cbn [up_queues sh_reg sh_queues sh_ctx].
  - exact HR.
  - exact HRw.
  - cbn [aw_ready aw_queues]. rewrite bind_cons, <- (assoc (++)). exact HT'.
  - unfold qinfo. cbn [aw_queues]. rewrite fmap_insert. cbn. rewrite Eh.
    by eapply (link_marked _ (qinfo a) _ _ _ _ _ c k rest p hq).
Qed.

Lemma step_del s c k rest known made freed M a :
  sys_ok (System s (TDel c k :: rest) known made freed) M a -> steps (TDel c k) s rest known made freed M a.
Proof.
  intros [HR HQ HT HL]. scbn. destruct (lk_del _ _ _ _ _ _ _ HL c k) as [p Hp]; [by left|].
  destruct (resume_owns k) as (E1 & E2 & E3).
  unfold steps. cbn [thread_step]. rewrite Hp. cbn [mbind option_bind]. eexists _, _, M, a. split; [reflexivity|]. split; [apply grows_refl|].
  cbn [learn buried]. split; scbn; cbn [up_ctx sh_reg sh_queues sh_ctx].
  - eapply (reg_wf_refs _ (TDel c k)); [exact HR|by rewrite E1|by rewrite E2].
  - exact HQ.
  - rewrite bind_app, E3. rewrite bind_cons in HT. exact HT.
  - by eapply link_deleted.
Qed.

Lemma sys_range s pool known made freed M a h c :
  sys_ok (System s pool known made freed) M a -> owner M h c -> 0 < h <= H_last_id (sh_reg s).
Proof.
  intros [HR _ _ _] [r HM]. scbn. pose proof (hw_repr _ _ HR) as Hrep. cbn [hs_reg] in Hrep.
  pose proof (repr_range _ _ _ Hrep ltac:(by eexists)). pose proof (rp_old _ _ Hrep h ltac:(by eexists)). lia.
Qed.

Lemma sys_unique s pool known made freed M a h h' c :
  sys_ok (System s pool known made freed) M a -> owner M h c -> owner M h' c -> h' = h.
Proof. intros [HR _ _ _] [r HM] [r' HM']. scbn. by eapply (hw_inj _ _ HR). Qed.

Lemma step_queue s h c rest known made freed M a :
  sys_ok (System s (TQueue h c :: rest) known made freed) M a -> steps (TQueue h c) s rest known made freed M a.
Proof.
  intros Hok. pose proof (sys_thread _ _ _ _ _ _ _ _ Hok) as [Ho Hk]. pose proof Hok as [HR HQ _ HL]. scbn.
  pose proof (sys_toks _ _ _ _ _ _ _ _ Hok) as HT. cbn [tokens app] in HT.
  destruct (lk_live _ _ _ _ _ _ _ HL _ _ Ho) as (p & Hp & _).
  set (q := queue_malloc (qw_heap (sh_queues s))).
  destruct (queue_malloc_fresh (qw_heap (sh_queues s))) as [Hq0 Hqf]. fold q in Hq0, Hqf.
  assert (Hqa : aw_queues a !! q = None) by (rewrite (refines_lookup _ _ _ HQ); by rewrite Hqf).
  unfold steps. cbn [thread_step]. rewrite Hp. cbn [mbind option_bind]. fold q.
  eexists _, _, M, (AWorld (<[q := AQueue h [] 1 0 0 QUEUE_OVERLOAD]> (aw_queues a)) (aw_ready a)).
  split; [reflexivity|]. split; [by apply grows_new|]. cbn [learn buried app]. split; scbn; cbn [sh_reg sh_queues sh_ctx].
  - exact HR.
  - eapply queue_new_sim; [exact HQ|]. unfold spec_new. by rewrite decide_True.
  - cbn [aw_queues aw_ready]. rewrite bind_cons. cbn [tokens].
    eapply toks_wake; [exact HT|done|by left|]. intros q0 Hq. congruence.
  - unfold qinfo. cbn [aw_queues]. rewrite fmap_insert.
    apply (link_queued _ (qinfo a) _ (TQueue h c :: rest)); try done.
    + unfold qinfo. by rewrite lookup_fmap, Hqa.
    + by eapply sys_range.
    + intros h' Ho'. by eapply (sys_unique _ _ _ _ _ _ _ (low h) h').
Qed.

Lemma step_remove s h k rest known made freed M a :
  sys_ok (System s (TRemove h k :: rest) known made freed) M a -> steps (TRemove h k) s rest known made freed M a.
Proof.
  intros Hok. pose proof Hok as [HR HQ HT HL]. scbn. rewrite !bind_cons in HR. cbn [refs removing app] in HR.
  destruct (resume_plain (owner M) (qinfo a) known k) as [Hpl Hth]. destruct (resume_owns k) as (E1 & E2 & E3).
  unfold steps. cbn [thread_step].
  destruct (reg_remove _ _ _ _ _ _ _ HR) as [[-> HW]|(c & H' & HM & Hc & -> & El & HW)]; cbn [mbind option_bind].
  - eexists _, _, M, a. split; [reflexivity|]. split; [apply grows_refl|]. cbn [Z.eqb learn].
    assert (Eb : buried (resume k) (TRemove h k) freed = freed) by (by destruct k). rewrite Eb.
    eapply (sys_reg s _ (TRemove h k) (resume k) rest known made freed M M); try done.
    + unfold reg_wf. by rewrite !bind_app, E1, E2.
    + by rewrite E3.
  - rewrite (proj2 (Z.eqb_neq c 0)) by done. eexists _, _, (delete (low h) M), a. split; [reflexivity|]. split; [apply grows_refl|].
    cbn [learn buried app]. split; scbn; cbn [up_reg sh_reg sh_queues sh_ctx].
    + exact HW.
    + exact HQ.
    + exact HT.
    + rewrite El. eapply link_ext; [|intros h' c'; apply owner_delete].
      eapply (link_buried _ _ _ _ _ _ _ h c k rest); [exact HL|done|by eexists| |].
      * intros h' Ho'. eapply (sys_unique _ _ _ _ _ _ _ (low h) h'); [exact Hok|by eexists|done].
      * intros Hin. pose proof (hw_ref _ _ HR _ _ _ HM) as Hz. cbn [hs_held] in Hz.
        apply list_elem_of_split in Hin as (l1 & l2 & El').
        rewrite El', (held_count_perm _ _ (low h :: l1 ++ l2)), held_count_cons, Z.eqb_refl in Hz by solve_Permutation.
        pose proof (held_count_pos (low h) (l1 ++ l2)). lia.
Qed.

(** Every thread of a well-formed system can take its step. *)
Lemma steps_ok t s rest known made freed M a :
  sys_ok (System s (t :: rest) known made freed) M a -> steps t s rest known made freed M a.
Proof.
  intros Hok.
  destruct t; try (apply step_watch; [done|done|done|cbn; repeat case_match; done|done..]).
  all: [> by apply step_return|by apply step_idle|by apply step_grab|by apply step_free|by apply step_dec
    |by apply step_pop|by apply step_run|by apply step_next|by apply step_put|by apply step_rel|by apply step_remove
    |by apply step_mark|by apply step_del|by apply step_owner|by apply step_send|by apply step_push
    |by apply step_queue|by apply step_ref|by apply step_ready ].
Qed.

(** A thread takes its step. *)
Lemma taken_ok t (sy sy' : system) M a :
  sys_ok sy M a -> taken t sy sy' -> exists ts rest M' a', sys_ok sy' M' a' /\ sy_pool sy ≡ₚ t :: rest /\
    sy_pool sy' = ts ++ rest /\ thread_step t (sy_shared sy) = Some (ts, sy_shared sy') /\ moves t ts a a'.
Proof.
  intros Hok Ht. destruct Ht as [s s' pool rest ts known made freed Ep Est].
  eapply sys_perm in Hok; [|exact Ep]. destruct (steps_ok _ _ _ _ _ _ _ _ Hok) as (ts' & s1 & M' & a' & E & Hmv & Hok').
  rewrite Est in E. injection E as <- <-. exists ts, rest, M', a'. done.
Qed.

Lemma sstep_ok (sy sy' : system) M a :
  sys_ok sy M a -> sstep sy sy' ->
  (exists t, taken t sy sy') \/ (exists t M', sy_pool sy' = t :: sy_pool sy /\ tokens t = [] /\ sys_ok sy' M' a).
Proof.
  intros Hok Hst. destruct Hst as [t sy sy' Ht|s pool known made freed h m Hk
    |s pool known made freed ctx module inst h H Hc Hm Hsafe Hid Hreg]; [left; by eexists|right; scbn..].
  - exists (TSend h m), M. split; [done|]. split; [done|]. destruct Hok as [HR HQ HT HL]. scbn. split; scbn.
    + exact HR.
    + exact HQ.
    + exact HT.
    + destruct HL as [L1 L2 L3 L4 L5 L6 L7 L8 L9 L10 L11 L12]. split; try done.
      * intros h' c Ho. destruct (L1 _ _ Ho) as (p & Hp & [(h1 & Hx & E)|?]); exists p; (split; [done|]); [left|by right].
        exists h1. split; [by right|done].
      * intros c k [|Hx]%elem_of_cons; [done|by eapply L2].
      * intros c k [|Hx]%elem_of_cons; [done|by eapply L3].
      * intros x [->|Hx]%elem_of_cons; [done|by apply L9].
  - pose proof Hok as [HR HQ HT HL]. scbn.
    destruct (reg_regist _ _ _ _ _ _ _ HR Hc Hm Hsafe Hid) as (h1 & H1 & E & HM & Hl & El & HW).
    rewrite Hreg in E. injection E as <- <-. exists (TQueue h ctx), (<[low h := (1, ctx)]> M).
    split; [done|]. split; [done|]. split; scbn; cbn [sh_reg sh_queues sh_ctx].
    + exact HW.
    + exact HQ.
    + exact HT.
    + rewrite El. eapply link_ext; [|intros h' c'; by apply owner_add].
      eapply link_launched; [exact HL|done|done|done|]. intros h' c' Ho. destruct (sys_range _ _ _ _ _ _ _ _ _ Hok Ho); done.
Qed.

Lemma replicate_bind {A} (f : thread -> list A) n t : f t = [] -> replicate n t ≫= f = [].
Proof. intros E. induction n as [|n IH]; [done|]. cbn [replicate]. by rewrite bind_cons, E, IH. Qed.

Lemma system_init_ok harbor n : sys_ok (system_init harbor n) ∅ (AWorld ∅ []).
Proof.
  assert (Hin : forall x, x ∈ TTimer :: replicate n TLoop -> x = TTimer \/ x = TLoop).
  { intros x [->|[-> _]%elem_of_replicate]%elem_of_cons; auto. }
  assert (Hb : forall A (f : thread -> list A), f TTimer = [] -> f TLoop = [] -> (TTimer :: replicate n TLoop) ≫= f = []).
  { intros A f E1 E2. by rewrite bind_cons, E1, replicate_bind. }
  assert (Hno : forall h c, ~ owner ∅ h c) by (intros h c [r Hr]; by rewrite lookup_empty in Hr).
  split; scbn; cbn [system_init sy_shared sy_pool sy_known sy_made sy_freed sh_reg sh_queues sh_ctx].
  - rewrite !Hb by done. apply hsys_init_wf.
  - apply refines_init; [apply map_Forall_empty|done].
  - rewrite Hb by done. cbn. split; [constructor| |].
    + intros p. split; [by intros ?%elem_of_nil|]. intros (q & Hq & _). by rewrite lookup_empty in Hq.
    + intros p q Hq. by rewrite lookup_empty in Hq.
  - assert (Hq : forall p x, qinfo (AWorld ∅ []) !! p = Some x -> False).
    { intros p x Hp. unfold qinfo in Hp. rewrite lookup_fmap in Hp. cbn [aw_queues] in Hp. by rewrite lookup_empty in Hp. }
    split.
    + intros h c Ho. by apply Hno in Ho.
    + intros c k [Hx|Hx]%Hin; done.
    + intros c k [Hx|Hx]%Hin; done.
    + intros c p Hp. by rewrite lookup_empty in Hp.
    + intros c1 c2 p1 p2 Hp. by rewrite lookup_empty in Hp.
    + intros h Hh. by apply elem_of_nil in Hh.
    + intros p hq r Hp. by apply Hq in Hp.
    + intros p1 p2 h1 h2 r1 r2 Hp. by apply Hq in Hp.
    + by intros t [->| ->]%Hin.
    + rewrite Hb by done. constructor.
    + intros c h Hc. rewrite Hb in Hc by done. by apply elem_of_nil in Hc.
    + rewrite Hb by done. constructor.
Qed.

Lemma reachable_ok harbor n (sy : system) :
  rtc sstep (system_init harbor n) sy -> exists M a, sys_ok sy M a.
Proof.
  intros Hr. assert (H0 : exists M a, sys_ok (system_init harbor n) M a) by (eexists _, _; apply system_init_ok).
  induction Hr as [|s1 s2 s3 Hst _ IH]; [done|]. apply IH. destruct H0 as (M & a & Hok).
  destruct (sstep_ok _ _ _ _ Hok Hst) as [[t Ht]|(t & M' & _ & _ & Hok')]; [|by eexists _, _].
  destruct (taken_ok _ _ _ _ _ Hok Ht) as (? & ? & ? & ? & ? & _). by eexists _, _.
Qed.

End StepsOk.

(** ** Properties *)

(** C21: in every interleaving of the timer thread, workers, senders, launches
    and kills every thread can take its next step, so no thread reads a freed
    service or a freed queue, frees a queue that another thread still uses, or
    marks a queue twice.  The launches and kills are those of [sstep]: a service
    is killed once, a message is sent to a handle whose launch has set its
    queue, the module accepts, and a registration loses no service to an
    expansion and stays below handle 2^24.  Without these the code does go
    wrong: [kill_twice_frees], [handle_expand_loses], [handle_regist_spills]. *)
Theorem sched_no_crash {rt : Runtime} {ok : RuntimeOk rt} harbor n (sy : system) :
  rtc sstep (system_init harbor n) sy ->
  forall t, t ∈ sy_pool sy -> is_Some (thread_step t (sy_shared sy)).
Proof.
  intros Hr t Ht. destruct (reachable_ok harbor n sy Hr) as (M & a & Hok).
  destruct sy as [s pool known made freed]. scbn.
  apply list_elem_of_split in Ht as (l1 & l2 & ->).
  eapply sys_perm in Hok; [|apply Permutation_sym, Permutation_middle].
  destruct (steps_ok _ _ _ _ _ _ _ _ Hok) as (ts & s' & _ & _ & E & _). by rewrite E.
Qed.

(** C22: a service handles one message at a time and no message is forgotten:
    in every reachable state no queue is in the hands of two threads or both in
    a thread's hands and in the list of ready queues, a queue that holds
    messages is in the list or in the hands of a thread, and when no thread has
    a queue in its hands (the workers are idle, asleep, or ended without one)
    and the list is empty, no message waits anywhere. *)
Theorem sched_wakeup {rt : Runtime} {ok : RuntimeOk rt} harbor n (sy : system) :
  rtc sstep (system_init harbor n) sy ->
  exists ready, global_wf (sh_queues (sy_shared sy)) ready /\
    NoDup ((sy_pool sy ≫= tokens) ++ ready) /\
    (forall p q, qw_heap (sh_queues (sy_shared sy)) !! p = Some q -> queue_contents q <> [] ->
       p ∈ ready \/ exists t, (t ∈ sy_pool sy) /\ p ∈ tokens t) /\
    (ready = [] -> (forall t, t ∈ sy_pool sy -> tokens t = []) ->
     forall p q, qw_heap (sh_queues (sy_shared sy)) !! p = Some q -> queue_contents q = []).
Proof.
  intros Hr. destruct (reachable_ok harbor n sy Hr) as (M & a & [_ HQ HT _]).
  assert (Hw : forall p q, qw_heap (sh_queues (sy_shared sy)) !! p = Some q -> queue_contents q <> [] ->
    p ∈ aw_ready a \/ exists t, (t ∈ sy_pool sy) /\ p ∈ tokens t).
  { intros p q Hp Hc. assert (Ha : aw_queues a !! p = Some (abs_queue q)) by (rewrite (refines_lookup _ _ _ HQ); by rewrite Hp).
    assert (Hrun : runnable (abs_queue q)).
    { destruct (decide (aq_global (abs_queue q) = 0 /\ aq_release (abs_queue q) = 0)) as [[G R]|Hn].
      - exfalso. apply Hc. apply (tk_idle _ _ HT _ _ Ha). unfold runnable. lia.
      - unfold runnable. destruct (decide (aq_global (abs_queue q) = 0)); [right|left]; tauto. }
    assert (Hin : p ∈ (sy_pool sy ≫= tokens) ++ aw_ready a) by (apply (tk_in _ _ HT); by eexists).
    apply elem_of_app in Hin as [Hin|]; [right|by left].
    apply list_elem_of_bind in Hin as (t & ? & ?). by exists t. }
  exists (aw_ready a). split; [by destruct HQ|]. split; [by destruct HT|]. split; [exact Hw|].
  intros E Hidle p q Hp. destruct (queue_contents q) as [|m ms] eqn:Eq; [done|].
  destruct (Hw p q Hp) as [Hin|(t & Ht & Hin)]; [by rewrite Eq| |].
  - rewrite E in Hin. by apply elem_of_nil in Hin.
  - rewrite (Hidle t Ht) in Hin. by apply elem_of_nil in Hin.
Qed.

(** ** Runs *)

(** A choice of the scheduler: a thread by its position, or a new thread. *)
Inductive act := Run (i : nat) | Send (h : Z) (m : message) | Launch (ctx : Z).

Section Runs.
Context {rt : Runtime}.

Definition exec (x : act) (sy : system) : option system :=
  let '(System s pool known made freed) := sy in
  match x with
  | Run i =>
      t ← pool !! i;
      '(ts, s') ← thread_step t s;
      Some (System s' (ts ++ delete i pool) (learn t known) made (buried ts t freed))
  | Send h m =>
      if bool_decide (low h ∈ known) then Some (System s (TSend h m :: pool) known made freed) else None
  | Launch ctx =>
      if bool_decide (ctx <> 0 /\ (ctx ∉ made)) && expand_safe (sh_reg s) &&
         (H_last_id (sh_reg s) + 4 * H_cap (sh_reg s) <? 2 ^ 24) then
        '(h, H) ← handle_regist true ctx (sh_reg s);
        Some (System (Shared H (sh_queues s) (<[ctx := Pixel 0 0 0 0 0 0 0 0 0]> (sh_ctx s)) (sh_total s) (sh_watch s))
                     (TQueue h ctx :: pool) known (ctx :: made) freed)
      else None
  end.

Fixpoint execs (xs : list act) (sy : system) : option system :=
  match xs with [] => Some sy | x :: xs => sy ← exec x sy; execs xs sy end.

Lemma exec_sstep x sy sy' : exec x sy = Some sy' -> sstep sy sy'.
Proof.
  destruct sy as [s pool known made freed]. destruct x as [i|h m|ctx]; cbn.
  - destruct (pool !! i) as [t|] eqn:Ei; [|done]. cbn.
    destruct (thread_step t s) as [[ts s']|] eqn:Es; [|done]. cbn. intros [= <-].
    apply (ss_thread t), taken_step; [by apply delete_Permutation|done].
  - case_bool_decide; [|done]. intros [= <-]. by apply ss_send.
  - case_bool_decide as Hc; [|done]. destruct (expand_safe _) eqn:Ee; [|done]. cbn [andb].
    destruct (Z.ltb_spec (H_last_id (sh_reg s) + 4 * H_cap (sh_reg s)) (2 ^ 24)); [|done].
    destruct (handle_regist true ctx (sh_reg s)) as [[h H']|] eqn:Eh; [|done]. cbn. intros [= <-].
    destruct Hc; by apply ss_launch.
Qed.

Lemma execs_reach xs sy sy' : execs xs sy = Some sy' -> rtc sstep sy sy'.
Proof.
  revert sy. induction xs as [|x xs IH]; intros sy; cbn; [by intros [= ->]|].
  destruct (exec x sy) as [sy1|] eqn:E; [|done]. cbn. intros Hx.
  eapply rtc_l; [by eapply exec_sstep|by apply IH].
Qed.

End Runs.

(** Two services are launched.  The first is killed; before its queue is marked
    the worker meets the queue twice, with the second service in between.  Then
    the timer thread looks at the total. *)
Definition demo_acts : list act :=
  [Launch 1; Run 0; Run 0; Run 0; Run 0; Launch 2; Run 0; Run 0; Run 0; Run 0;
   Run 1; Run 0; Run 0;
   Run 3] ++ replicate 14 (Run 0) ++ [Run 3; Run 0].

Definition demo_system : option system := execs (rt := demo_rt) demo_acts (system_init 1 1).

(** The count of services goes wrong: [pixel_dispatch] lowers the total each
    time it finds no service behind a queue, also when [queue_free] only put
    the queue back because the killing thread has not marked it yet.  In a run
    with two services of which one is killed the total reaches zero while the
    other service is alive, and the timer thread stops the node. *)
Lemma sched_total_wrong :
  exists sy h c H, rtc (sstep (rt := demo_rt)) (system_init 1 1) sy /\ sh_total (sy_shared sy) = 0 /\
    wa_quit (sh_watch (sy_shared sy)) = true /\
    (TOwner h ∈ sy_pool sy) /\ handle_grab h (sh_reg (sy_shared sy)) = Some (c, H) /\ c <> 0.
Proof.
  assert (H : match demo_system with
    | Some sy => (sh_total (sy_shared sy) =? 0) && wa_quit (sh_watch (sy_shared sy)) &&
        bool_decide (sy_pool sy = [TEnd; TReturn; TMark 1 KStop; TOwner 16777218]) &&
        match handle_grab 16777218 (sh_reg (sy_shared sy)) with Some (c, _) => negb (c =? 0) | None => false end
    | None => false end = true) by (vm_compute; reflexivity).
  destruct demo_system as [sy|] eqn:E; [|done].
  apply andb_true_iff in H as [[[H1 H0]%andb_true_iff H2]%andb_true_iff H3].
  destruct (handle_grab 16777218 (sh_reg (sy_shared sy))) as [[c H]|] eqn:Eg; [|done].
  exists sy, 16777218, c, H. split; [by eapply execs_reach|]. split; [lia|]. split; [done|]. split; [|split; [done|lia]].
  apply bool_decide_eq_true in H2. rewrite H2. right. right. right. by left.
Qed.

(** The end of the node may hang: a worker that sees [quit] after it has locked
    the mutex ends without unlocking it, and a worker that the broadcast woke up
    waits for the mutex for ever; [pthread_join] does not come back. *)
Lemma sched_quit_hangs :
  exists sy, rtc (sstep (rt := demo_rt)) (system_init 1 2) sy /\ sy_pool sy = [TWoken; TEnd; TEnd] /\
    forall t, t ∈ sy_pool sy -> thread_step (rt := demo_rt) t (sy_shared sy) = Some ([t], sy_shared sy).
Proof.
  assert (H : match execs (rt := demo_rt) [Run 1; Run 0; Run 0; Run 0; Run 2; Run 0; Run 2; Run 0; Run 1; Run 0; Run 2]
      (system_init 1 2) with
    | Some sy => bool_decide (sy_pool sy = [TWoken; TEnd; TEnd]) && wa_mutex (sh_watch (sy_shared sy))
    | None => false end = true) by (vm_compute; reflexivity).
  destruct (execs _ _) as [sy|] eqn:E; [|done]. apply andb_true_iff in H as [Ep%bool_decide_eq_true Hm].
  exists sy. split; [by eapply execs_reach|]. split; [done|]. rewrite Ep.
  assert (Eu : up_watch (sh_watch (sy_shared sy)) (sy_shared sy) = sy_shared sy) by (by destruct (sy_shared sy)).
  intros t [->|[->|[->|[]%elem_of_nil]%elem_of_cons]%elem_of_cons]%elem_of_cons;
    cbn [thread_step watch_step]; rewrite ?Hm, Eu; done.
Qed.

(** The system after the launches, for the properties of reachable states. *)
Definition demo_launched : system :=
  default (system_init 1 2) (execs (rt := demo_rt) (take 13 demo_acts ++
    [Send 16777218 (Message 0 7 0 0); Run 0; Run 0]) (system_init 1 2)).

Lemma demo_launched_reachable : rtc (sstep (rt := demo_rt)) (system_init 1 2) demo_launched.
Proof.
  unfold demo_launched. destruct (execs _ _) as [sy|] eqn:E; cbn [default]; [|by apply rtc_refl].
  by eapply execs_reach.
Qed.

Lemma sched_no_crash_witness :
  is_Some (thread_step (rt := demo_rt) (TMark 1 KStop) (sy_shared demo_launched)).
Proof.
  apply (sched_no_crash (rt := demo_rt) (ok := demo_rt_ok) 1 2 demo_launched demo_launched_reachable).
  apply (bool_decide_unpack _). vm_compute. exact I.
Defined.

Lemma sched_wakeup_witness :
  exists ready, global_wf (sh_queues (sy_shared demo_launched)) ready /\
    NoDup ((sy_pool demo_launched ≫= tokens) ++ ready).
Proof.
  destruct (sched_wakeup (rt := demo_rt) (ok := demo_rt_ok) 1 2 demo_launched demo_launched_reachable)
    as (ready & H1 & H2 & _). exists ready. split; [exact H1|exact H2].
Defined.
