(* ===== verification/SchedLive.v ===== *)
(** * No message starves (src/pixel.c, src/queue.c)

    Runs of [Sched] under a fair scheduler while the timer thread does not stop
    the node: senders, launches and kills go on for ever beside the workers,
    which fall asleep and are woken up, and still every message reaches the
    callback of its service, unless the service is gone.  Callbacks end: one is
    a single step of [Sched]. *)

From S2P Require Import Prelude Queue Handle Pixel Sched.

(** ** Threads and their queues *)

(** What a thread becomes while the node is not stopped. *)
Definition becomes (t : thread) (ts : list thread) : Prop :=
  match t with
  | TLoop => ts = [TIdle]
  | TTop q => ts = [TGrab q]
  | TSleep => ts = [TSleep] \/ ts = [TTest]
  | TTest => ts = [TWait]
  | TWait => ts = [TWait] \/ ts = [TWoken]
  | TWoken => ts = [TWoken] \/ ts = [TLoop]
  | TEnd => ts = [TEnd]
  | TKept q => ts = [TKept q]
  | TTimer => ts = [TQuit] \/ ts = [TLook]
  | TLook => ts = [TTimer] \/ ts = [TSignal]
  | TSignal => ts = [TTimer]
  | TGrab q => ts = [TFree q] \/ exists h c, ts = [TPop q h c]
  | TFree _ => ts = [TDec]
  | TDec => ts = [TReturn]
  | TPop q h c => ts = [TRel h KIdle] \/ exists m, ts = [TRun q h c m]
  | TRun q h _ _ => ts = [TNext q h]
  | TPut _ h next => ts = [TRel h (KTop next)]
  | TRel h k => ts = resume k \/ ts = [TRemove h k]
  | TRemove h k => ts = resume k \/ exists c, ts = [TMark c k]
  | TMark c k => ts = [TDel c k]
  | TDel _ k => ts = resume k
  | TRef h _ q => ts = [TReady h q; TOwner h]
  | _ => True
  end.

Lemma thread_becomes {rt : Runtime} t s ts s' :
  wa_quit (sh_watch s) = false -> thread_step t s = Some (ts, s') -> becomes t ts.
Proof.
  intros Hq. destruct t; cbn [thread_step watch_step becomes]; rewrite ?Hq; intros H; try done;
    repeat (apply bind_Some in H as ([] & _ & H) || apply bind_Some in H as (? & _ & H)); simplify_eq; try done;
    repeat case_match; simplify_eq; eauto.
Qed.

(** Steps that a worker has before it takes from the list of ready queues; a
    worker that goes to sleep or sleeps has none, nor has a thread that is no
    worker. *)
Definition after (k : cont) (d : nat) : nat :=
  match k with KTop _ => 8 + d | KIdle => 1 + d | KStop => 0 end%nat.

Definition before_take (t : thread) : nat :=
  match t with
  | TReturn | TIdle | TNext _ _ => 1
  | TLoop | TDec | TRun _ _ _ _ => 2
  | TFree _ => 3
  | TPop _ _ _ => 6
  | TGrab _ => 7
  | TTop _ => 8
  | TPut _ _ _ => 13
  | TDel _ k => after k 1
  | TMark _ k => after k 2
  | TRemove _ k => after k 3
  | TRel _ k => after k 4
  | _ => 0
  end%nat.

(** The steps that take from the list. *)
Definition taker (t : thread) : bool := match t with TIdle | TReturn | TNext _ _ => true | _ => false end.

(** A worker that is going to sleep, asleep or woken up. *)
Definition asleep (t : thread) : bool := match t with TSleep | TTest | TWait | TWoken => true | _ => false end.

(** An awake worker comes closer to the list; it may go to sleep after looking
    into it. *)
Lemma worker_step t ts a a' :
  (0 < before_take t)%nat -> becomes t ts -> moves t ts a a' ->
  exists t', (t' ∈ ts) /\ ((0 < before_take t')%nat \/ asleep t' = true) /\ (taker t = false -> (0 < before_take t' < before_take t)%nat).
Proof.
  intros Hw Hb Hm.
  assert (Hts : exists t', (t' ∈ ts) /\ ((0 < before_take t')%nat \/ asleep t' = true) /\
    ((0 < before_take t' < before_take t)%nat \/ taker t = true)).
  { destruct t; cbn [becomes moves before_take] in *; try lia; unfold takes in *;
      repeat match goal with
      | H : _ \/ _ |- _ => destruct H
      | H : exists _, _ |- _ => destruct H
      | k : cont |- _ => destruct k
      | H : match ?l with [] => _ | _ => _ end |- _ => destruct l
      | H : _ /\ _ |- _ => destruct H
      end; subst; cbn in *; try lia; eexists; (split; [by left|]); cbn;
      (split; [first [by left; lia|by right]|first [by left; lia|by right]]). }
  destruct Hts as (t' & Hin & H0 & Hlt). exists t'. split; [done|]. split; [done|].
  intros Hn. destruct Hlt as [|Hx]; [done|congruence].
Qed.

(** Steps to the pop of the queue [q] for a thread that is about to use it. *)
Definition before_pop (q : Z) (t : thread) : nat :=
  let at_ q' d := if decide (q' = q) then d else 0%nat in
  let cont k d := match k with KTop q' => at_ q' d | _ => 0%nat end in
  match t with
  | TPop q' _ _ => at_ q' 1
  | TGrab q' => at_ q' 2
  | TTop q' => at_ q' 3
  | TDel _ k => cont k 4
  | TMark _ k => cont k 5
  | TRemove _ k => cont k 6
  | TRel _ k => cont k 7
  | TPut _ _ next => at_ next 8
  | _ => 0
  end%nat.

(** Steps until a thread that has used the queue [q] decides about it. *)
Definition before_ready (q : Z) (t : thread) : nat :=
  let at_ q' d := if decide (q' = q) then d else 0%nat in
  match t with
  | TRef _ _ q' | TNext q' _ => at_ q' 2
  | TReady _ q' | TPut q' _ _ => at_ q' 1
  | TRun q' _ _ _ => at_ q' 3
  | _ => 0
  end%nat.

Lemma before_cases q t :
  q ∈ tokens t -> t <> TKept q -> (0 < before_pop q t)%nat \/ (0 < before_ready q t)%nat \/ t = TFree q.
Proof.
  intros Hq Hk. revert Hq. destruct t; cbn; try (by intros ?%elem_of_nil);
    try (by intros ->%list_elem_of_singleton; destruct Hk);
    try (by intros ->%list_elem_of_singleton; rewrite decide_True by done; auto with lia).
  - by intros ->%list_elem_of_singleton; auto.
  - intros [-> | ->%list_elem_of_singleton]%elem_of_cons; [right; left|left]; rewrite decide_True by done; lia.
  - destruct k; cbn; [intros ->%list_elem_of_singleton; left; rewrite decide_True by done; lia|by intros ?%elem_of_nil..].
  - destruct k; cbn; [intros ->%list_elem_of_singleton; left; rewrite decide_True by done; lia|by intros ?%elem_of_nil..].
  - destruct k; cbn; [intros ->%list_elem_of_singleton; left; rewrite decide_True by done; lia|by intros ?%elem_of_nil..].
  - destruct k; cbn; [intros ->%list_elem_of_singleton; left; rewrite decide_True by done; lia|by intros ?%elem_of_nil..].
Qed.

(** ** Sleepers

    What the watcher counts. *)

Definition weigh (f : thread -> Z) (pool : list thread) : Z := foldr (fun t n => f t + n) 0 pool.

Definition sleeping (t : thread) : Z := match t with TTest | TWait | TWoken => 1 | _ => 0 end.
Definition waiting_on (t : thread) : Z := match t with TWait => 1 | _ => 0 end.

Lemma weigh_app f pool pool' : weigh f (pool ++ pool') = weigh f pool + weigh f pool'.
Proof. induction pool as [|t pool IH]; [done|]. cbn [app weigh foldr] in *. unfold weigh in *. lia. Qed.

Lemma weigh_replicate f n t : f t = 0 -> weigh f (replicate n t) = 0.
Proof. intros E. induction n as [|n IH]; [done|]. cbn [replicate weigh foldr]. rewrite E. exact IH. Qed.

Lemma weigh_perm f pool pool' : pool ≡ₚ pool' -> weigh f pool = weigh f pool'.
Proof. unfold weigh. induction 1; cbn [foldr]; lia. Qed.

Lemma weigh_in f t pool : (forall x, 0 <= f x) -> t ∈ pool -> f t <= weigh f pool.
Proof.
  intros Hf Ht. apply list_elem_of_split in Ht as (l1 & l2 & ->). rewrite weigh_app.
  assert (H0 : forall l, 0 <= weigh f l) by (intros l; induction l as [|x l IH]; [done|]; cbn; specialize (Hf x); unfold weigh in *; lia).
  pose proof (H0 l1). pose proof (H0 l2). cbn. unfold weigh in *. lia.
Qed.

Record watch_ok (v : watcher) (pool : list thread) : Prop := {
  wo_sleep : wa_sleep v = weigh sleeping pool;
  wo_count : wa_waiting v + wa_woken v = weigh waiting_on pool;
  wo_pos : 0 <= wa_waiting v /\ 0 <= wa_woken v;
  wo_mutex : wa_mutex v = true -> TTest ∈ pool
}.

Definition watch (sy : system) : watcher := sh_watch (sy_shared sy).

(** Threads that do not look at the watcher. *)
Definition watches (t : thread) : bool :=
  match t with
  | TLoop | TTop _ | TSleep | TTest | TWait | TWoken | TEnd | TKept _ | TTimer | TLook | TSignal | TQuit => true
  | _ => false
  end.

Lemma unwatched {rt : Runtime} t s ts s' :
  watches t = false -> thread_step t s = Some (ts, s') ->
  sh_watch s' = sh_watch s /\ weigh sleeping ts = 0 /\ weigh waiting_on ts = 0.
Proof.
  destruct t; cbn [thread_step watches]; intros Hw H; try done;
    repeat (apply bind_Some in H as ([] & _ & H) || apply bind_Some in H as (? & _ & H)); simplify_eq; try done;
    repeat case_match; try done; repeat match goal with k : cont |- _ => destruct k end; done.
Qed.

Lemma watch_ok_step {rt : Runtime} t s ts s' rest :
  watch_ok (sh_watch s) (t :: rest) -> wa_quit (sh_watch s) = false -> wa_quit (sh_watch s') = false ->
  thread_step t s = Some (ts, s') -> watch_ok (sh_watch s') (ts ++ rest).
Proof.
  intros [W1 W2 W3 W4] Hq Hq' Hst. destruct (watches t) eqn:Ew.
  - assert (E : exists k v, watch_step t (sh_total s) (sh_watch s) = (k, v) /\ ts = [k] /\ sh_watch s' = v).
    { destruct (watch_step t (sh_total s) (sh_watch s)) as [k v] eqn:E. exists k, v. split; [done|].
      destruct t; try done; cbn [thread_step] in Hst; rewrite E in Hst; by injection Hst as <- <-. }
    destruct E as (k & v & E & -> & Ev). rewrite Ev in *. clear Hst Ev s'. set (v0 := sh_watch s) in *. clearbody v0.
    cbn [weigh foldr app] in *. fold (weigh sleeping rest) in *. fold (weigh waiting_on rest) in *.
    rewrite elem_of_cons in W4.
    destruct t; try done; cbn [watch_step sleeping waiting_on] in *; try rewrite Hq in E;
      repeat match type of E with
      | context [wa_mutex ?v] => destruct (wa_mutex v) eqn:Em
      | context [?x =? ?y] => destruct (x =? y)
      | context [?x >=? ?y] => destruct (x >=? y)
      | context [0 <? ?x] => destruct (Z.ltb_spec 0 x)
      end; injection E as <- <-; cbn [cond_broadcast wa_quit] in *; try done;
      try (unfold cond_signal; destruct (Z.ltb_spec 0 (wa_waiting v0)));
      (split; cbn [weigh foldr sleeping waiting_on wa_sleep wa_waiting wa_woken wa_mutex app];
       fold (weigh sleeping rest); fold (weigh waiting_on rest); rewrite ?elem_of_cons; rewrite ?Em in *; try lia; try (by auto)).
    all: try (intros Hm; destruct (W4 Hm); [done|by right]).
  - destruct (unwatched t s ts s' Ew Hst) as (Ev & E1 & E2). rewrite Ev.
    assert (Et : sleeping t = 0 /\ waiting_on t = 0 /\ t <> TTest) by (by destruct t). destruct Et as (Et1 & Et2 & Et3).
    cbn [weigh foldr] in W1, W2. split; rewrite ?weigh_app.
    + unfold weigh in *. lia.
    + unfold weigh in *. lia.
    + done.
    + intros Hm. apply elem_of_app. right. apply W4, elem_of_cons in Hm as [E|Hm]; [by rewrite <- E in Et3|exact Hm].
Qed.

Lemma watch_ok_perm v pool pool' : pool ≡ₚ pool' -> watch_ok v pool -> watch_ok v pool'.
Proof.
  intros Ep [W1 W2 W3 W4]. rewrite (weigh_perm _ _ _ Ep) in W1. rewrite (weigh_perm _ _ _ Ep) in W2.
  split; try done. by rewrite <- Ep.
Qed.

Lemma watch_ok_more v t pool : watches t = false -> watch_ok v pool -> watch_ok v (t :: pool).
Proof.
  intros Ew [W1 W2 W3 W4]. assert (sleeping t = 0 /\ waiting_on t = 0) as [E1 E2] by (by destruct t).
  split; cbn [weigh foldr]; rewrite ?E1, ?E2; try done. intros Hm. right. by apply W4.
Qed.

(** While the node is not stopped no worker ends with a queue in its hands. *)
Lemma keeps_none {rt : Runtime} t s ts s' q :
  wa_quit (sh_watch s) = false -> thread_step t s = Some (ts, s') -> TKept q ∈ ts -> t = TKept q.
Proof.
  intros Hq Es Hin. destruct t; cbn [thread_step watch_step] in Es; rewrite ?Hq in Es;
    repeat (apply bind_Some in Es as ([] & _ & Es) || apply bind_Some in Es as (? & _ & Es)); simplify_eq;
    repeat case_match; simplify_eq; repeat match goal with k : cont |- _ => destruct k end; cbn [resume] in Hin;
    repeat match goal with
    | H : _ ∈ _ :: _ |- _ => apply elem_of_cons in H as [H|H]
    | H : _ ∈ [] |- _ => by apply elem_of_nil in H
    end; try done; congruence.
Qed.

(** Only who waits takes a wake-up. *)
Lemma woken_grows {rt : Runtime} t s ts s' :
  thread_step t s = Some (ts, s') -> t <> TWait -> wa_quit (sh_watch s') = false ->
  wa_woken (sh_watch s) <= wa_woken (sh_watch s').
Proof.
  intros Es Ht Hq. destruct (watches t) eqn:Ew; [|by destruct (unwatched _ _ _ _ Ew Es) as (-> & _)].
  destruct t; try done; cbn [thread_step watch_step] in Es;
    unfold cond_signal in Es; repeat case_match; simplify_eq; cbn in *; try lia; done.
Qed.

(** ** Fair runs *)

(** The threads that wait for the mutex. *)
Definition locks (t : thread) : bool := match t with TSleep | TWoken | TQuit => true | _ => false end.

(** A run of the node that never ends, in which every thread takes its next
    step sometime; only the owner of a registration may keep it.  A thread that
    waits for the mutex gets it sometime if it is free again and again. *)
Record fair_run {rt : Runtime} (harbor : Z) (n : nat) (r : nat -> system) : Prop := {
  fr_init : r 0%nat = system_init harbor n;
  fr_step : forall i, sstep (r i) (r (S i));
  fr_fair : forall i t, t ∈ sy_pool (r i) -> (forall h, t <> TOwner h) ->
    exists j, (i <= j)%nat /\ taken t (r j) (r (S j));
  fr_lock : forall i t, t ∈ sy_pool (r i) -> locks t = true ->
    (forall j, (i <= j)%nat -> exists k, (j <= k)%nat /\ wa_mutex (watch (r k)) = false) ->
    exists j, (i <= j)%nat /\ wa_mutex (watch (r j)) = false /\ taken t (r j) (r (S j))
}.

(** The timer thread never stops the node. *)
Definition runs_on (r : nat -> system) : Prop := forall i, wa_quit (watch (r i)) = false.

Section Fair.
Context {rt : Runtime} {ok : RuntimeOk rt} (harbor : Z) (n : nat) (r : nat -> system).
Context (Hr : fair_run harbor n r) (Hon : runs_on r).
Implicit Types (P Q : list thread -> aworld -> Prop) (pool rest ts : list thread) (a : aworld) (t : thread).

Lemma run_reachable i : rtc sstep (system_init harbor n) (r i).
Proof.
  induction i as [|i IH]; [by rewrite (fr_init _ _ _ Hr)|].
  eapply rtc_r; [exact IH|apply (fr_step _ _ _ Hr)].
Qed.

(** *** The watcher on the way *)

(** One moment of the run: a thread takes its step or a new one comes. *)
Lemma run_case i :
  (exists t rest ts, sy_pool (r i) ≡ₚ t :: rest /\ sy_pool (r (S i)) = ts ++ rest /\
     taken t (r i) (r (S i)) /\ thread_step t (sy_shared (r i)) = Some (ts, sy_shared (r (S i))) /\ becomes t ts) \/
  (exists t, sy_pool (r (S i)) = t :: sy_pool (r i) /\ watches t = false /\ watch (r (S i)) = watch (r i)).
Proof.
  pose proof (fr_step _ _ _ Hr i) as Hst. pose proof (Hon i) as Hq. unfold watch in *.
  destruct Hst as [t sy sy' Ht|s pool known made freed h m Hk|s pool known made freed ctx module inst h H Hc Hm Hs Hi Hg].
  - left. pose proof Ht as Ht'. destruct Ht' as [s s' pool rest ts known made freed Ep Es].
    exists t, rest, ts. split; [done|]. split; [done|]. split; [done|]. split; [done|]. by eapply thread_becomes.
  - right. by exists (TSend h m).
  - right. by exists (TQueue h ctx).
Qed.

(** A thread that has taken its step. *)
Lemma taken_run i t :
  taken t (r i) (r (S i)) ->
  exists ts, thread_step t (sy_shared (r i)) = Some (ts, sy_shared (r (S i))) /\ becomes t ts /\
    forall x, x ∈ ts -> x ∈ sy_pool (r (S i)).
Proof.
  pose proof (Hon i) as Hq. unfold watch in Hq. intros Ht. destruct Ht as [s s' pool rest ts known made freed Ep Es].
  exists ts. split; [done|]. split; [by eapply thread_becomes|]. intros x Hx. apply elem_of_app. by left.
Qed.

Lemma thread_keeps i t : t ∈ sy_pool (r i) -> t ∈ sy_pool (r (S i)) \/ taken t (r i) (r (S i)).
Proof.
  intros Ht. destruct (run_case i) as [(t' & rest & ts & Ep & Ep' & Htk & _)|(t' & Ep & _)].
  - rewrite Ep in Ht. apply elem_of_cons in Ht as [->|Ht]; [by right|left]. rewrite Ep'. apply elem_of_app. by right.
  - left. rewrite Ep. by right.
Qed.

(** What holds stays until something else happens. *)
Lemma stays (A B : nat -> Prop) i j :
  (i <= j)%nat -> (forall k, A k -> A (S k) \/ B (S k)) -> A i ->
  A j \/ exists k, (i <= k)%nat /\ B k.
Proof.
  intros Hij Hst HA. induction Hij as [|j Hij [IH|(k & ? & ?)]]; [by left| |right; by exists k].
  destruct (Hst _ IH); [by left|right]. exists (S j). split; [lia|done].
Qed.

Lemma watch_run i : watch_ok (watch (r i)) (sy_pool (r i)).
Proof.
  induction i as [|i IH].
  - rewrite (fr_init _ _ _ Hr). assert (H0 : forall f, f TTimer = 0 -> f TLoop = 0 -> weigh f (TTimer :: replicate n TLoop) = 0).
    { intros f E1 E2. change (f TTimer + weigh f (replicate n TLoop) = 0). rewrite E1. by apply weigh_replicate. }
    cbn [system_init watch sy_pool sy_shared sh_watch].
    split; cbn [wa_sleep wa_waiting wa_woken wa_mutex]; [by rewrite H0|by rewrite H0|lia|done].
  - destruct (run_case i) as [(t & rest & ts & Ep & Ep' & _ & Es & _)|(t & Ep & Ew & Ev)].
    + rewrite Ep'. eapply watch_ok_step; [|apply Hon|apply Hon|exact Es]. by eapply watch_ok_perm.
    + rewrite Ep, Ev. by apply watch_ok_more.
Qed.

Lemma mutex_free i : exists j, (i <= j)%nat /\ wa_mutex (watch (r j)) = false.
Proof.
  destruct (wa_mutex (watch (r i))) eqn:Em; [|by exists i].
  destruct (fr_fair _ _ _ Hr i TTest) as (j & Hj & Ht); [by apply watch_run|done|].
  destruct (taken_run _ _ Ht) as (ts & Es & _). exists (S j). split; [lia|].
  cbn [thread_step watch_step] in Es. pose proof (Hon j) as Hq. unfold watch in *. rewrite Hq in Es.
  injection Es as <- <-. done.
Qed.

Lemma lock_taken i t :
  t ∈ sy_pool (r i) -> locks t = true ->
  exists j, (i <= j)%nat /\ wa_mutex (watch (r j)) = false /\ taken t (r j) (r (S j)).
Proof. intros Ht Hl. apply (fr_lock _ _ _ Hr i t Ht Hl). intros j _. apply mutex_free. Qed.

(** The end of the node is near when the timer thread has seen no service. *)
Lemma no_quit i : TQuit ∉ sy_pool (r i).
Proof.
  intros Hin. destruct (lock_taken _ _ Hin) as (j & _ & Hm & Ht); [done|].
  destruct (taken_run _ _ Ht) as (ts & Es & _). pose proof (Hon (S j)) as Hq. unfold watch in *.
  cbn [thread_step watch_step] in Es. rewrite Hm in Es. injection Es as _ Es. by rewrite <- Es in Hq.
Qed.

Lemma no_kept i q : TKept q ∉ sy_pool (r i).
Proof.
  induction i as [|i IH].
  - rewrite (fr_init _ _ _ Hr). intros [|[? _]%elem_of_replicate]%elem_of_cons; done.
  - intros Hin. destruct (run_case i) as [(t & rest & ts & Ep & Ep' & _ & Es & _)|(t & Ep & Ew & _)].
    + rewrite Ep' in Hin. apply elem_of_app in Hin as [Hin|Hin]; apply IH; rewrite Ep; [|by right].
      rewrite (keeps_none _ _ _ _ _ (Hon i) Es Hin). by left.
    + rewrite Ep in Hin. apply elem_of_cons in Hin as [<-|Hin]; done.
Qed.

Definition timer (t : thread) : bool := match t with TTimer | TLook | TSignal => true | _ => false end.

Lemma timer_runs i : exists t, t ∈ sy_pool (r i) /\ timer t = true.
Proof.
  induction i as [|i (t & Ht & Hm)].
  - rewrite (fr_init _ _ _ Hr). exists TTimer. split; [by left|done].
  - destruct (thread_keeps _ _ Ht) as [|Htk]; [by exists t|].
    destruct (taken_run _ _ Htk) as (ts & _ & Hb & Hin).
    destruct t; try done; cbn [becomes] in Hb;
      repeat match goal with H : _ \/ _ |- _ => destruct H end; subst ts;
      try (eexists; split; [apply Hin; by left|done]).
    destruct (no_quit (S i)). apply Hin. by left.
Qed.

(** *** Somebody wakes who waits *)

Definition woken (i : nat) : Prop := exists j, (i <= j)%nat /\ TWoken ∈ sy_pool (r j).

Lemma woken_later i j : (i <= j)%nat -> woken j -> woken i.
Proof. intros Hij (k & ? & ?). exists k. split; [lia|done]. Qed.

Lemma wait_stays i j : (i <= j)%nat -> TWait ∈ sy_pool (r i) -> TWait ∈ sy_pool (r j) \/ woken i.
Proof.
  intros Hij. apply (stays (fun k => TWait ∈ sy_pool (r k)) (fun k => TWoken ∈ sy_pool (r k))); [done|].
  intros k Hk. destruct (thread_keeps _ _ Hk) as [|Htk]; [by left|].
  destruct (taken_run _ _ Htk) as (ts & _ & [-> | ->] & Hin); [left|right]; apply Hin; by left.
Qed.

(** A wake-up on its way reaches a thread that waits. *)
Lemma signal_wakes i : TWait ∈ sy_pool (r i) -> 0 < wa_woken (watch (r i)) -> woken i.
Proof.
  intros Hw H0. destruct (fr_fair _ _ _ Hr i TWait Hw) as (j & Hj & Ht); [done|].
  assert (Htake : forall k, 0 < wa_woken (watch (r k)) -> taken TWait (r k) (r (S k)) -> TWoken ∈ sy_pool (r (S k))).
  { intros k H1 Htk. destruct (taken_run _ _ Htk) as (ts & Es & _ & Hin). apply Hin.
    cbn [thread_step watch_step] in Es. unfold watch in H1. rewrite (proj2 (Z.ltb_lt 0 _) H1) in Es. injection Es as <- _. by left. }
  destruct (stays (fun k => 0 < wa_woken (watch (r k))) (fun k => TWoken ∈ sy_pool (r k)) i j Hj) as [Hwk|(k & ? & ?)].
  - intros k H1. destruct (run_case k) as [(t & rest & ts & _ & _ & Htk & Es & _)|(t & _ & _ & ->)]; [|by left].
    destruct (decide (t = TWait)) as [->|Hne]; [right; by apply Htake|left].
    pose proof (woken_grows _ _ _ _ Es Hne (Hon (S k))). unfold watch in *. lia.
  - done.
  - exists (S j). split; [lia|]. by apply Htake.
  - exists k. split; [lia|done].
Qed.

(** The timer thread signals while a thread sleeps. *)
Lemma signal_leads i : TSignal ∈ sy_pool (r i) -> TWait ∈ sy_pool (r i) -> woken i.
Proof.
  intros Hs Hw. destruct (fr_fair _ _ _ Hr i TSignal Hs) as (j & Hj & Ht); [done|].
  destruct (wait_stays _ j Hj Hw) as [Hwj|]; [|done].
  destruct (wait_stays i (S j) ltac:(lia) Hw) as [Hwj'|]; [|done].
  apply (woken_later _ (S j)); [lia|]. apply signal_wakes; [done|].
  destruct (taken_run _ _ Ht) as (ts & Es & _). cbn [thread_step watch_step] in Es. injection Es as _ Es.
  unfold watch. rewrite <- Es. cbn [up_watch sh_watch].
  destruct (watch_run j) as [_ W2 W3 _]. pose proof (weigh_in waiting_on _ _ ltac:(by intros []) Hwj) as Hc.
  unfold watch in *. cbn [waiting_on] in Hc. unfold cond_signal.
  destruct (Z.ltb_spec 0 (wa_waiting (sh_watch (sy_shared (r j))))); cbn [wa_woken]; lia.
Qed.

Lemma look_leads i : TLook ∈ sy_pool (r i) -> TWait ∈ sy_pool (r i) -> woken i.
Proof.
  intros Hs Hw. destruct (fr_fair _ _ _ Hr i TLook Hs) as (j & Hj & Ht); [done|].
  destruct (wait_stays _ j Hj Hw) as [Hwj|]; [|done].
  destruct (wait_stays i (S j) ltac:(lia) Hw) as [Hwj'|]; [|done].
  apply (woken_later _ (S j)); [lia|]. apply signal_leads; [|done].
  destruct (taken_run _ _ Ht) as (ts & Es & _ & Hin). apply Hin.
  destruct (watch_run j) as [W1 _ _ _]. pose proof (weigh_in sleeping _ _ ltac:(by intros []) Hwj) as Hc.
  cbn [thread_step watch_step sleeping] in *. unfold watch in *.
  destruct (Z.geb_spec (wa_sleep (sh_watch (sy_shared (r j)))) 1); [|lia]. injection Es as <- _. by left.
Qed.

Lemma timer_leads i : TTimer ∈ sy_pool (r i) -> TWait ∈ sy_pool (r i) -> woken i.
Proof.
  intros Hs Hw. destruct (fr_fair _ _ _ Hr i TTimer Hs) as (j & Hj & Ht); [done|].
  destruct (wait_stays i (S j) ltac:(lia) Hw) as [Hwj'|]; [|done].
  apply (woken_later _ (S j)); [lia|]. apply look_leads; [|done].
  destruct (taken_run _ _ Ht) as (ts & _ & [-> | ->] & Hin); [|apply Hin; by left].
  destruct (no_quit (S j)). apply Hin. by left.
Qed.

Lemma waiter_woken i : TWait ∈ sy_pool (r i) -> woken i.
Proof.
  intros Hw. destruct (timer_runs i) as ([] & Ht & Hm); try done;
    [by apply timer_leads|by apply look_leads|by apply signal_leads].
Qed.

(** *** Workers *)

Definition awake (i : nat) : Prop := exists t, t ∈ sy_pool (r i) /\ (0 < before_take t)%nat.

Lemma worker_exists i :
  (0 < n)%nat -> exists t, t ∈ sy_pool (r i) /\ ((0 < before_take t)%nat \/ asleep t = true).
Proof.
  intros Hn. induction i as [|i (t & Ht & Hw)].
  - rewrite (fr_init _ _ _ Hr). exists TLoop. split; [|left; cbn; lia].
    right. apply elem_of_replicate. split; [done|lia].
  - destruct (thread_keeps _ _ Ht) as [|Htk]; [by exists t|].
    destruct (taken_run _ _ Htk) as (ts & _ & Hb & Hin). destruct Hw as [Hw|Hs].
    + destruct (reachable_ok harbor n _ (run_reachable i)) as (M & a & Hok).
      destruct (taken_ok _ _ _ _ _ Hok Htk) as (ts' & rest & M' & a' & _ & _ & Ep & Es & Hm).
      destruct (worker_step _ _ _ _ Hw (thread_becomes _ _ _ _ (Hon i) Es) Hm) as (t' & Ht' & Hw' & _).
      exists t'. split; [|done]. rewrite Ep. apply elem_of_app. by left.
    + destruct t; try done; cbn [becomes] in Hb;
        repeat match goal with H : _ \/ _ |- _ => destruct H end; subst ts;
        (eexists; split; [apply Hin; by left|]); cbn; first [by right|left; lia].
Qed.

(** A worker that went to sleep is awake again sometime. *)
Lemma awake_later i : (0 < n)%nat -> exists j, (i <= j)%nat /\ awake j.
Proof.
  intros Hn.
  assert (H1 : forall i, TWoken ∈ sy_pool (r i) -> exists j, (i <= j)%nat /\ awake j).
  { intros k Hk. destruct (lock_taken _ _ Hk) as (j & Hj & Hm & Ht); [done|]. exists (S j). split; [lia|].
    destruct (taken_run _ _ Ht) as (ts & Es & _ & Hin). exists TLoop. split; [|cbn; lia]. apply Hin.
    cbn [thread_step watch_step] in Es. unfold watch in Hm. rewrite Hm in Es. injection Es as <- _. by left. }
  assert (H2 : forall i, TWait ∈ sy_pool (r i) -> exists j, (i <= j)%nat /\ awake j).
  { intros k Hk. destruct (waiter_woken _ Hk) as (j & Hj & Hw). destruct (H1 _ Hw) as (l & ? & ?).
    exists l. split; [lia|done]. }
  assert (H3 : forall i, TTest ∈ sy_pool (r i) -> exists j, (i <= j)%nat /\ awake j).
  { intros k Hk. destruct (fr_fair _ _ _ Hr k TTest Hk) as (j & Hj & Ht); [done|].
    destruct (taken_run _ _ Ht) as (ts & _ & Hb & Hin). cbn [becomes] in Hb. subst ts.
    destruct (H2 (S j)) as (l & ? & ?); [apply Hin; by left|].
    exists l. split; [lia|done]. }
  destruct (worker_exists i Hn) as (t & Ht & [Hw|Hs]); [by exists i; split; [|exists t]|].
  destruct t; try done; [|by apply H3|by apply H2|by apply H1].
  destruct (lock_taken _ _ Ht) as (j & Hj & Hm & Htk); [done|].
  destruct (taken_run _ _ Htk) as (ts & Es & _ & Hin). destruct (H3 (S j)) as (l & ? & ?); [|exists l; split; [lia|done]].
  apply Hin. cbn [thread_step watch_step] in Es. unfold watch in Hm. rewrite Hm in Es. injection Es as <- _. by left.
Qed.

(** *** Progress *)

(** Predicates of the threads and the queues at a time of the run. *)
Definition at_ (i : nat) P : Prop := exists M a, sys_ok (r i) M a /\ P (sy_pool (r i)) a.
Definition leads P Q : Prop := forall i, at_ i P -> exists j, (i <= j)%nat /\ at_ j Q.

Lemma leads_refl P Q : (forall pool a, P pool a -> Q pool a) -> leads P Q.
Proof. intros H i (M & a & Hok & HP). exists i. split; [done|]. exists M, a. auto. Qed.

Lemma leads_trans P Q R : leads P Q -> leads Q R -> leads P R.
Proof.
  intros H1 H2 i HP. destruct (H1 i HP) as (j & Hj & HQ). destruct (H2 j HQ) as (k & Hk & HR).
  exists k. split; [lia|done].
Qed.

Lemma leads_either P1 P2 Q : leads P1 Q -> leads P2 Q -> leads (fun pool a => P1 pool a \/ P2 pool a) Q.
Proof. intros H1 H2 i (M & a & Hok & [HP|HP]); [apply H1|apply H2]; by exists M, a. Qed.

(** New threads hold no queue. *)
Definition kept_by_new P : Prop := forall t' pool a, tokens t' = [] -> P pool a -> P (t' :: pool) a.

(** What every step keeps or leads on with is there until then. *)
Lemma leads_stays P Q i j :
  kept_by_new P ->
  (forall pool t' rest ts a a', P pool a -> pool ≡ₚ t' :: rest -> becomes t' ts -> moves t' ts a a' ->
     Q (ts ++ rest) a' \/ P (ts ++ rest) a') ->
  (i <= j)%nat -> at_ i P -> at_ j P \/ exists k, (i <= k)%nat /\ at_ k Q.
Proof.
  intros Hadd Hst Hij. apply (stays (fun k => at_ k P) (fun k => at_ k Q)); [done|]. intros k (M & a & Hok & HP).
  destruct (sstep_ok _ _ _ _ Hok (fr_step _ _ _ Hr k)) as [[t' Htk]|(t' & M' & Ep & Etk & Hok')].
  - destruct (taken_ok _ _ _ _ _ Hok Htk) as (ts & rest & M' & a' & Hok' & Ep & Ep' & Es & Hm).
    destruct (Hst _ _ _ _ _ _ HP Ep (thread_becomes _ _ _ _ (Hon k) Es) Hm) as [?|?]; [right|left];
      exists M', a'; by rewrite Ep'.
  - left. exists M', a. rewrite Ep. auto.
Qed.

(** The thread [t] takes the step that leads on. *)
Lemma leads_step P Q t :
  (forall h, t <> TOwner h) -> (forall pool a, P pool a -> t ∈ pool) -> kept_by_new P ->
  (forall pool t' rest ts a a', P pool a -> pool ≡ₚ t' :: rest -> becomes t' ts -> moves t' ts a a' ->
     Q (ts ++ rest) a' \/ (t' <> t /\ P (ts ++ rest) a')) ->
  leads P Q.
Proof.
  intros Ht Hin Hadd Hst i HP.
  assert (exists j, (i <= j)%nat /\ taken t (r j) (r (S j))) as (j & Hj & Htk).
  { destruct HP as (M & a & _ & HP). apply (fr_fair _ _ _ Hr i t (Hin _ _ HP) Ht). }
  destruct (leads_stays P Q i j Hadd) as [(M & a & Hok & HPj)|]; [|done|done| |done].
  - intros pool t' rest ts a a' HPp Ep Hb Hm. destruct (Hst _ _ _ _ _ _ HPp Ep Hb Hm) as [|[_ ?]]; [by left|by right].
  - destruct (taken_ok _ _ _ _ _ Hok Htk) as (ts & rest & M' & a' & Hok' & Ep & Ep' & Es & Hm).
    exists (S j). split; [lia|]. exists M', a'. rewrite Ep'. split; [done|].
    destruct (Hst _ _ _ _ _ _ HPj Ep (thread_becomes _ _ _ _ (Hon j) Es) Hm) as [|[? _]]; done.
Qed.

(** *** One turn of a queue that holds a message *)

Section Turn.
Context (q : Z) (m : message).

Definition waiting (l1 : list message) (a : aworld) : Prop :=
  exists aq l2, aw_queues a !! q = Some aq /\ aq_msgs aq = l1 ++ m :: l2.

(** The message is dispatched, or one before it is. *)
Definition advanced (l1 : list message) (pool : list thread) (a : aworld) : Prop :=
  TFree q ∈ pool \/
  match l1 with [] => exists h c, TRun q h c m ∈ pool | _ :: l1 => waiting l1 a end.

Definition waits (l1 : list message) (pool : list thread) (a : aworld) : Prop :=
  waiting l1 a /\ (TFree q ∉ pool).

Lemma waiting_grows l1 a a' : grows a a' -> waiting l1 a -> waiting l1 a'.
Proof.
  intros [Hg _] (aq & l2 & Hq & Em). destruct (Hg _ _ Hq) as (aq' & l & Hq' & Em').
  exists aq', (l2 ++ l). split; [done|]. rewrite Em', Em. by rewrite <- (assoc (++)).
Qed.

Lemma waits_step l1 pool t rest ts a a' :
  waits l1 pool a -> pool ≡ₚ t :: rest -> moves t ts a a' ->
  advanced l1 (ts ++ rest) a' \/ (waits l1 (ts ++ rest) a' /\ forall h c, t <> TPop q h c).
Proof.
  intros [Hw Hf] Ep Hm.
  assert (Hcase : advanced l1 (ts ++ rest) a' \/ (waiting l1 a' /\ forall h c, t <> TPop q h c)).
  { assert (Hg : grows a a' -> (forall h c, t <> TPop q h c) ->
      advanced l1 (ts ++ rest) a' \/ (waiting l1 a' /\ forall h c, t <> TPop q h c))
      by (intros; right; split; [by eapply waiting_grows|done]).
    assert (Htk : forall k f, takes k f ts a a' -> waiting l1 a').
    { unfold takes. intros k f. destruct (aw_ready a); [by intros [_ ->]|by intros [_ ->]]. }
    destruct t; cbn [moves] in Hm; try (by apply Hg); try (by right; split; [eapply Htk|]);
      try (by right; subst a'; split).
    - right. split; [|done]. eapply waiting_grows; [exact Hm|].
      destruct Hw as (aq & l2 & Hq & Em). exists aq, l2. split; [|done]. cbn [aw_queues].
      rewrite lookup_delete_ne; [done|]. intros ->. apply Hf. rewrite Ep. by left.
    - destruct Hm as (aq & aq' & Hq & -> & Hpop). destruct (decide (q0 = q)) as [->|Hne].
      + left. right. destruct Hw as (aq0 & l2 & Hq0 & Em). rewrite Hq in Hq0. injection Hq0 as <-. rewrite Em in Hpop.
        destruct l1 as [|x l1]; cbn [app] in Hpop; destruct Hpop as [-> Em'].
        * exists h, ctx. by left.
        * exists aq', l2. cbn [aw_queues]. by rewrite lookup_insert_eq.
      + right. split; [|congruence]. destruct Hw as (aq0 & l2 & Hq0 & Em). exists aq0, l2. cbn [aw_queues].
        by rewrite lookup_insert_ne. }
  destruct Hcase as [|[Hw' Ht]]; [by left|].
  destruct (decide (TFree q ∈ ts ++ rest)); [by left; left|by right].
Qed.

Lemma waits_add l1 t pool a : tokens t = [] -> waits l1 pool a -> waits l1 (t :: pool) a.
Proof. intros Et [Hw Hf]. split; [done|]. intros [<-|]%elem_of_cons; done. Qed.

(** Threads that come closer to something, while the queues stay as [I] says. *)
Lemma leads_rank l1 (rank : thread -> nat) (I : aworld -> Prop) Q :
  (forall h, rank (TOwner h) = 0%nat) ->
  (forall pool a, advanced l1 pool a -> Q pool a) ->
  (forall pool t rest ts a a', I a -> waits l1 pool a -> pool ≡ₚ t :: rest -> becomes t ts -> moves t ts a a' ->
     waits l1 (ts ++ rest) a' -> (forall h c, t <> TPop q h c) ->
     Q (ts ++ rest) a' \/ (I a' /\ ((0 < rank t)%nat -> exists t', (t' ∈ ts) /\ (0 < rank t' < rank t)%nat))) ->
  forall k, leads (fun pool a => Q pool a \/ (waits l1 pool a /\ I a /\ exists t, (t ∈ pool) /\ (0 < rank t <= k)%nat)) Q.
Proof.
  intros Ho Hadv Hst k. induction k as [|k IH]; (apply leads_either; [by apply leads_refl|]).
  - apply leads_refl. intros pool a (_ & _ & t & _ & ?). lia.
  - intros i (M & a & Hok & Hw & HI & t & Ht & Hk).
    destruct (decide (rank t <= k)%nat) as [Hle|Hgt].
    { apply IH. exists M, a. split; [done|]. right. split; [done|]. split; [done|]. exists t. split; [done|lia]. }
    set (P := fun pool a => Q pool a \/ (waits l1 pool a /\ I a /\ exists t, (t ∈ pool) /\ (0 < rank t <= k)%nat)) in *.
    enough (Hl : leads (fun pool a => (waits l1 pool a /\ I a) /\ t ∈ pool) P)
      by (eapply leads_trans; [exact Hl|exact IH|by exists M, a]).
    apply (leads_step _ _ t).
    + intros h ->. specialize (Ho h). lia.
    + by intros pool a' [_ ?].
    + intros t' pool a' Et [[? ?] ?]. split; [split; [by apply waits_add|done]|by right].
    + intros pool t' rest ts a1 a' [[Hw1 HI1] Ht1] Ep Hb Hm.
      destruct (waits_step _ _ _ _ _ _ _ Hw1 Ep Hm) as [|[Hw' Hnp]]; [by left; left; apply Hadv|].
      destruct (Hst _ _ _ _ _ _ HI1 Hw1 Ep Hb Hm Hw' Hnp) as [|[HI' Hrk]]; [by left; left|].
      destruct (decide (t' = t)) as [->|Hne].
      * left. right. split; [done|]. split; [done|]. destruct Hrk as (t1 & Hin & ?); [lia|].
        exists t1. split; [apply elem_of_app; by left|lia].
      * right. split; [done|]. split; [done|]. apply elem_of_app. right.
        rewrite Ep in Ht1. apply elem_of_cons in Ht1 as [|]; congruence.
Qed.

(** Who holds the queue to use it comes to the pop. *)
Lemma pop_closer t ts :
  (0 < before_pop q t)%nat -> becomes t ts -> (TFree q ∉ ts) -> (forall h c, t <> TPop q h c) ->
  exists t', (t' ∈ ts) /\ (0 < before_pop q t' < before_pop q t)%nat.
Proof.
  intros Hk Hb Hf Hp. destruct t; cbn [becomes before_pop] in *; try lia; try (destruct k; cbn [before_pop resume] in *; try lia);
    case_decide; try lia; subst; cbn [resume] in *;
    try (by edestruct Hp);
    repeat match goal with
    | H : _ \/ _ |- _ => destruct H
    | H : exists _, _ |- _ => destruct H
    end; subst; try (destruct Hf; by left);
    (eexists; split; [by left|]; cbn; rewrite decide_True by done; lia).
Qed.

Definition using_ (pool : list thread) : Prop := exists t, (t ∈ pool) /\ (0 < before_pop q t)%nat.

Lemma pop_leads l1 : leads (fun pool a => waits l1 pool a /\ using_ pool) (advanced l1).
Proof.
  intros i (M & a & Hok & Hw & t & Ht & Hk).
  apply (leads_rank l1 (before_pop q) (fun _ => True) (advanced l1)) with (k := before_pop q t); [done|done| |].
  - intros pool t' rest ts a1 a' _ _ Ep Hb Hm [_ Hf] Hnp. right. split; [done|]. intros Hk'.
    apply pop_closer; [done|done| |done]. intros Hin. apply Hf, elem_of_app. by left.
  - exists M, a. split; [done|]. right. split; [done|]. split; [done|]. exists t. split; [done|lia].
Qed.

(** The queue is in the list, behind at most [p] others. *)
Definition ready_at (p : nat) (a : aworld) : Prop :=
  exists pre post, aw_ready a = pre ++ q :: post /\ (length pre <= p)%nat.

Lemma ready_at_more p a a' : ready_at p a -> (exists l, aw_ready a' = aw_ready a ++ l) -> ready_at p a'.
Proof.
  intros (pre & post & E & Hl) [l E']. exists pre, (post ++ l). split; [|done]. rewrite E', E. by rewrite <- (assoc (++)).
Qed.

Lemma ready_takes p k f ts a a' :
  ready_at p a -> takes k f ts a a' -> (0 < before_pop q (f q))%nat ->
  using_ ts \/ exists p', (p' < p)%nat /\ ready_at p' a'.
Proof.
  intros (pre & post & E & Hl) Htk Hf. unfold takes in Htk. rewrite E in Htk.
  destruct pre as [|x pre]; cbn [app length] in *; destruct Htk as [-> ->].
  - left. exists (f q). by split; [left|].
  - right. exists (length pre). split; [lia|]. by exists pre, post.
Qed.

Lemma ready_step p t ts a a' :
  ready_at p a -> moves t ts a a' ->
  (using_ ts \/ exists p', (p' < p)%nat /\ ready_at p' a') \/
  (ready_at p a' /\ taker t = false).
Proof.
  intros Hp Hm.
  assert (Hmore : (exists l, aw_ready a' = aw_ready a ++ l) -> taker t = false ->
    (using_ ts \/ exists p', (p' < p)%nat /\ ready_at p' a') \/ (ready_at p a' /\ taker t = false))
    by (intros; right; split; [by eapply ready_at_more|done]).
  destruct t; cbn [moves] in Hm; try (by apply Hmore; [exact (proj2 Hm)|..]);
    try (left; eapply ready_takes; [exact Hp|exact Hm|cbn; rewrite decide_True by done; lia]);
    apply Hmore; try done; try (subst a'; by eexists).
  destruct Hm as (aq & aq' & _ & -> & _). exists []. by rewrite app_nil_r.
Qed.

Lemma ready_leads l1 p : (0 < n)%nat -> leads (fun pool a => waits l1 pool a /\ ready_at p a) (advanced l1).
Proof.
  intros Hn. induction p as [p IH] using lt_wf_ind.
  set (Q := fun pool a => advanced l1 pool a \/
    (waits l1 pool a /\ (using_ pool \/ exists p', (p' < p)%nat /\ ready_at p' a))).
  assert (Hdone : leads Q (advanced l1)).
  { apply leads_either; [by apply leads_refl|]. intros i (M & a & Hok & Hw & [Hu|(p' & Hlt & Hp')]).
    - apply pop_leads. by exists M, a.
    - apply (IH p' Hlt). by exists M, a. }
  assert (Hstep : forall pool t rest ts a a', waits l1 pool a -> ready_at p a -> pool ≡ₚ t :: rest -> becomes t ts ->
    moves t ts a a' -> Q (ts ++ rest) a' \/ (waits l1 (ts ++ rest) a' /\ ready_at p a' /\ taker t = false)).
  { intros pool t rest ts a a' Hw Hp Ep Hb Hm.
    destruct (waits_step _ _ _ _ _ _ _ Hw Ep Hm) as [|[Hw' _]]; [by left; left|].
    destruct (ready_step _ _ _ _ _ Hp Hm) as [[(t1 & ? & ?)|Hp']|[Hp' Hx]]; [left; right..|by right].
    - split; [done|]. left. exists t1. split; [apply elem_of_app; by left|done].
    - by split; [|right]. }
  intros i Hi. destruct (awake_later i Hn) as (j & Hj & t & Ht & Hk).
  destruct (leads_stays (fun pool a => waits l1 pool a /\ ready_at p a) Q i j) as [(M & a & Hok & Hw & Hp)|(k & Hik & Hq)];
    [| |done|done| |].
  - intros t' pool a Et [Hw Hp]. split; [by apply waits_add|done].
  - intros pool t' rest ts a a' [Hw Hp] Ep Hb Hm. destruct (Hstep _ _ _ _ _ _ Hw Hp Ep Hb Hm) as [|(? & ? & _)]; by auto.
  - destruct (leads_rank l1 before_take (ready_at p) Q ltac:(done) ltac:(by left)) with (k := before_take t) (i := j)
      as (k & Hk' & Hq).
    + intros pool t' rest ts a1 a' Hp1 Hw1 Ep Hb Hm Hw' _.
      destruct (Hstep _ _ _ _ _ _ Hw1 Hp1 Ep Hb Hm) as [|(_ & Hp' & Hx)]; [by left|right]. split; [done|].
      intros Hk'. destruct (worker_step _ _ _ _ Hk' Hb Hm) as (t1 & ? & _ & Hlt). exists t1. auto.
    + exists M, a. split; [done|]. right. split; [done|]. split; [done|]. exists t. split; [done|lia].
    + destruct (Hdone k Hq) as (l & ? & ?). exists l. split; [lia|done].
  - destruct (Hdone k Hq) as (l & ? & ?). exists l. split; [lia|done].
Qed.

(** Who has used the queue keeps it or puts it back. *)
Lemma used_step t ts a a' :
  (0 < before_ready q t)%nat -> becomes t ts -> moves t ts a a' ->
  using_ ts \/ (exists p, ready_at p a') \/ exists t', (t' ∈ ts) /\ (0 < before_ready q t' < before_ready q t)%nat.
Proof.
  assert (Hpush : forall l, aw_ready a' = l ++ [q] -> exists p, ready_at p a') by (intros l E; exists (length l), l, []; done).
  intros Hk Hb Hm. destruct t; cbn [becomes moves before_ready] in *; try lia; case_decide; try lia; subst.
  - right. right. eexists. split; [by left|]. cbn. rewrite decide_True by done. lia.
  - unfold takes in Hm. destruct (aw_ready a); destruct Hm as [-> ->].
    + left. eexists. split; [by left|]. cbn. rewrite decide_True by done. lia.
    + right. right. eexists. split; [by left|]. cbn. rewrite decide_True by done. lia.
  - right. left. by eapply Hpush.
  - right. right. eexists. split; [by left|]. cbn. rewrite decide_True by done. lia.
  - right. left. by eapply Hpush.
Qed.

(** A queue that holds a message has its turn. *)
Lemma turn_leads l1 : (0 < n)%nat -> leads (fun _ a => waiting l1 a) (advanced l1).
Proof.
  intros Hn.
  assert (Hdone : leads (fun pool a => advanced l1 pool a \/ (waits l1 pool a /\ (using_ pool \/ exists p, ready_at p a)))
    (advanced l1)).
  { apply leads_either; [by apply leads_refl|]. intros i (M & a & Hok & Hw & [Hu|[p Hp]]).
    - apply pop_leads. by exists M, a.
    - apply (ready_leads l1 p Hn). by exists M, a. }
  intros i (M & a & Hok & Hw). pose proof Hok as [_ _ HT _].
  destruct (decide (TFree q ∈ sy_pool (r i))) as [Hf|Hf].
  { exists i. split; [done|]. exists M, a. split; [done|]. by left. }
  pose proof Hw as (aq & l2 & Hq & Em).
  assert (Hin : q ∈ (sy_pool (r i) ≫= tokens) ++ aw_ready a).
  { apply (tk_in _ _ HT). exists aq. split; [done|].
    destruct (decide (aq_global aq = 0 /\ aq_release aq = 0)) as [[G R]|Hnr].
    - assert (E : aq_msgs aq = []) by (apply (tk_idle _ _ HT _ _ Hq); unfold runnable; lia). rewrite Em in E. by destruct l1.
    - unfold runnable. destruct (decide (aq_global aq = 0)); [right|left]; tauto. }
  apply elem_of_app in Hin as [(t & Htok & Ht)%list_elem_of_bind|(pre & post & E)%list_elem_of_split].
  - destruct (before_cases q t Htok) as [Hk|[Hk| ->]]; [by intros ->; apply (no_kept i q)| |clear Hw|done].
    + apply pop_leads. exists M, a. split; [done|]. split; [done|]. by exists t.
    + eapply leads_trans; [apply (leads_rank l1 (before_ready q) (fun _ => True)) with
        (Q := fun pool a => advanced l1 pool a \/ (waits l1 pool a /\ (using_ pool \/ exists p, ready_at p a)))
        (k := before_ready q t)|exact Hdone|]; [done|by left| |].
      * intros pool t' rest ts a1 a' _ _ Ep Hb Hm Hw' _.
        destruct (decide (0 < before_ready q t')%nat) as [Hk'|]; [|right; split; [done|lia]].
        destruct (used_step _ _ _ _ Hk' Hb Hm) as [(t1 & ? & ?)|[?|?]]; [left; right..|by right].
        -- split; [done|]. left. exists t1. split; [apply elem_of_app; by left|done].
        -- by split; [|right].
      * exists M, a. split; [done|]. right. split; [by split; [eexists _, _|]|]. split; [done|]. exists t. split; [done|lia].
  - apply (ready_leads l1 (length pre) Hn). exists M, a. split; [done|]. split; [done|]. by exists pre, post.
Qed.

End Turn.

(** The messages before [m] go first. *)
Lemma message_leads q m l1 : (0 < n)%nat ->
  leads (fun _ a => waiting q m l1 a) (fun pool _ => TFree q ∈ pool \/ exists h c, TRun q h c m ∈ pool).
Proof.
  intros Hn. induction l1 as [|x l1 IH].
  - eapply leads_trans; [by apply turn_leads|]. by apply leads_refl.
  - eapply leads_trans; [by apply turn_leads|]. apply leads_either; [apply leads_refl; by left|exact IH].
Qed.

End Fair.

(** C20: no message starves while the node is not stopped.  In every run in
    which each thread takes its next step sometime and a thread that waits for
    the mutex gets it sometime, beside sends, launches and kills that go on for
    ever (those of [sstep]: each service is killed once), with workers that go
    to sleep and wait for the signal of the timer thread, a message that waits
    in a queue, with any number of others before it, is given to the callback of
    the service sometime, unless a worker finds that the service is gone.  That
    the node is not stopped is a condition, because the total that the timer
    thread looks at can be too low ([sched_total_wrong]). *)
Theorem sched_dispatches {rt : Runtime} {ok : RuntimeOk rt} harbor n (r : nat -> system) :
  (0 < n)%nat -> fair_run harbor n r -> runs_on r ->
  forall i q cq l1 m l2, qw_heap (sh_queues (sy_shared (r i))) !! q = Some cq -> queue_contents cq = l1 ++ m :: l2 ->
  exists j, (i <= j)%nat /\ ((TFree q ∈ sy_pool (r j)) \/ exists h c, taken (TRun q h c m) (r j) (r (S j))).
Proof.
  intros Hn Hr Hon i q cq l1 m l2 Hq Ec.
  destruct (reachable_ok harbor n _ (run_reachable _ _ _ Hr i)) as (M & a & Hok).
  destruct (message_leads harbor n r Hr Hon q m l1 Hn i) as (j & Hj & M' & a' & _ & [Hf|(h & c & Hin)]).
  - exists M, a. split; [done|]. exists (abs_queue cq), l2. split; [|done].
    pose proof Hok as [_ HQ _ _]. rewrite (refines_lookup _ _ _ HQ). by rewrite Hq.
  - exists j. split; [done|by left].
  - destruct (fr_fair _ _ _ Hr j _ Hin) as (k & Hk & Htk); [done|]. exists k. split; [lia|]. right. by exists h, c.
Qed.

(** ** A fair run

    A service is launched, a message is sent to it, one worker delivers it and
    goes to sleep.  From then on the timer thread wakes it up, it finds nothing
    and sleeps again. *)

Section Lasso.
Context {rt : Runtime} (xs ys : list act) (s0 fin : system).
Context (Hxs : execs xs s0 = Some fin) (Hys : execs ys fin = Some fin) (Hlen : (0 < length ys)%nat).

(** The actions up to the end of the first turn of the cycle [ys]. *)
Definition acts : list act := xs ++ ys.
Definition state (k : nat) : system := default s0 (execs (take k acts) s0).

(** The place in [acts] of a time of the run. *)
Definition place (i : nat) : nat :=
  if (i <? length xs)%nat then i else (length xs + (i - length xs) mod length ys)%nat.

Definition lasso (i : nat) : system := state (place i).

Lemma execs_app us vs sy : execs (us ++ vs) sy = execs us sy ≫= execs vs.
Proof.
  revert sy. induction us as [|y us IH]; intros sy; [done|]. cbn [app execs].
  destruct (exec y sy) as [sy1|]; cbn [mbind option_bind]; [apply IH|reflexivity].
Qed.

Lemma acts_end : execs acts s0 = Some fin.
Proof. unfold acts. rewrite execs_app, Hxs. exact Hys. Qed.

Lemma state_prefix k : execs (take k acts) s0 = Some (state k).
Proof.
  unfold state. pose proof acts_end as H. rewrite <- (take_drop k acts), execs_app in H.
  by destruct (execs (take k acts) s0).
Qed.

Lemma state_exec k x : acts !! k = Some x -> exec x (state k) = Some (state (S k)).
Proof.
  intros Hx. pose proof (state_prefix (S k)) as H. rewrite (take_S_r _ _ _ Hx), execs_app, (state_prefix k) in H.
  cbn [mbind option_bind execs] in H. by destruct (exec x (state k)).
Qed.

(** The last state is the one the cycle starts in. *)
Lemma state_cycle : state (length acts) = state (length xs).
Proof.
  pose proof (state_prefix (length acts)) as H1. pose proof (state_prefix (length xs)) as H2.
  rewrite take_ge, acts_end in H1 by done. unfold acts in H2. rewrite take_app_length, Hxs in H2. congruence.
Qed.

Lemma acts_length : length acts = (length xs + length ys)%nat.
Proof. apply length_app. Qed.

Lemma place_lt i : (place i < length acts)%nat.
Proof.
  rewrite acts_length. unfold place. destruct (Nat.ltb_spec i (length xs)); [lia|].
  pose proof (Nat.mod_upper_bound (i - length xs) (length ys)). lia.
Qed.

Lemma place_S i : place (S i) = S (place i) \/ (S (place i) = length acts /\ place (S i) = length xs).
Proof.
  rewrite acts_length. unfold place. destruct (Nat.ltb_spec i (length xs)), (Nat.ltb_spec (S i) (length xs)); try lia.
  - left. replace (S i - length xs)%nat with 0%nat by lia. rewrite Nat.Div0.mod_0_l. lia.
  - replace (S i - length xs)%nat with (S (i - length xs)) by lia. set (d := (i - length xs)%nat).
    pose proof (Nat.mod_upper_bound d (length ys)). pose proof (Nat.div_mod_eq d (length ys)) as Ed.
    destruct (decide (S (d mod length ys) = length ys)) as [E|E]; [right|left].
    + split; [lia|]. rewrite <- (Nat.mod_unique (S d) (length ys) (S (d / length ys)) 0); nia.
    + rewrite <- (Nat.mod_unique (S d) (length ys) (d / length ys) (S (d mod length ys))); nia.
Qed.

(** Every place of the cycle comes again. *)
Lemma place_again i k : (length xs <= k < length acts)%nat -> exists j, (i <= j)%nat /\ place j = k.
Proof.
  rewrite acts_length. intros Hk. exists (length xs + (i * length ys + (k - length xs)))%nat. split; [nia|].
  unfold place. destruct (Nat.ltb_spec (length xs + (i * length ys + (k - length xs))) (length xs)); [lia|].
  rewrite <- (Nat.mod_unique (length xs + (i * length ys + (k - length xs)) - length xs) (length ys) i (k - length xs)); lia.
Qed.

Lemma place_later i d : (place i + d < length acts)%nat -> place (i + d) = (place i + d)%nat.
Proof.
  induction d as [|d IH]; intros Hd; [by rewrite !Nat.add_0_r|]. rewrite Nat.add_succ_r.
  specialize (IH ltac:(lia)). destruct (place_S (i + d)) as [->|[? _]]; lia.
Qed.

Lemma lasso_exec i x : acts !! place i = Some x -> exec x (lasso i) = Some (lasso (S i)).
Proof.
  intros Hx. unfold lasso. rewrite (state_exec _ _ Hx). destruct (place_S i) as [->|[E ->]]; [done|].
  by rewrite E, state_cycle.
Qed.

Lemma lasso_step i : sstep (lasso i) (lasso (S i)).
Proof.
  destruct (acts !! place i) as [x|] eqn:Ex; [by eapply exec_sstep, lasso_exec|].
  apply lookup_ge_None in Ex. pose proof (place_lt i). lia.
Qed.

Lemma exec_taken k t sy sy' : sy_pool sy !! k = Some t -> exec (Run k) sy = Some sy' -> taken t sy sy'.
Proof.
  destruct sy as [s pool known made freed]. cbn [sy_pool exec]. intros Hk. rewrite Hk. cbn [mbind option_bind].
  destruct (thread_step t s) as [[ts s']|] eqn:Es; [|done]. cbn [mbind option_bind]. intros [= <-].
  apply taken_step; [by apply delete_Permutation|done].
Qed.

Definition owns (t : thread) : bool := match t with TOwner _ => true | _ => false end.

(** The thread [t] runs at the place [k], with the mutex free if it needs it. *)
Definition runs_at (t : thread) (k : nat) : bool :=
  match acts !! k with Some (Run p) => bool_decide (sy_pool (state k) !! p = Some t) | _ => false end &&
  (negb (locks t) || negb (wa_mutex (watch (state k)))).

Definition lasso_fair : bool :=
  forallb (fun k => forallb (fun t => owns t || existsb (runs_at t) (seq k (length acts - k)) ||
                                      existsb (runs_at t) (seq (length xs) (length ys))) (sy_pool (state k)))
          (seq 0 (length acts)).

Definition lasso_on : bool := forallb (fun k => negb (wa_quit (watch (state k)))) (seq 0 (length acts)).

Lemma runs_at_taken t j :
  runs_at t (place j) = true ->
  taken t (lasso j) (lasso (S j)) /\ (locks t = true -> wa_mutex (watch (lasso j)) = false).
Proof.
  intros [Hx Hm]%andb_true_iff. split.
  - destruct (acts !! place j) as [[p| |]|] eqn:Ex; try done. apply bool_decide_eq_true in Hx.
    eapply exec_taken; [exact Hx|by apply lasso_exec].
  - intros Hl. unfold lasso. rewrite Hl in Hm. by destruct (wa_mutex (watch (state (place j)))).
Qed.

Lemma lasso_runs i t :
  lasso_fair = true -> t ∈ sy_pool (lasso i) -> owns t = false ->
  exists j, (i <= j)%nat /\ taken t (lasso j) (lasso (S j)) /\ (locks t = true -> wa_mutex (watch (lasso j)) = false).
Proof.
  intros Hf Ht Ho. unfold lasso_fair in Hf. rewrite forallb_forall in Hf. pose proof (place_lt i).
  specialize (Hf (place i) ltac:(apply in_seq; lia)). rewrite forallb_forall in Hf.
  specialize (Hf t ltac:(by apply list_elem_of_In)). rewrite Ho in Hf. cbn [orb] in Hf.
  assert (exists j, (i <= j)%nat /\ runs_at t (place j) = true) as (j & Hj & Hx).
  { apply orb_true_iff in Hf as [(k & [Hk1 Hk2]%in_seq & Hk)%existsb_exists|(k & [Hk1 Hk2]%in_seq & Hk)%existsb_exists].
    - exists (i + (k - place i))%nat. split; [lia|]. rewrite place_later by lia. by replace (place i + (k - place i))%nat with k by lia.
    - destruct (place_again i k) as (j & Hj & <-); [rewrite acts_length; lia|]. by exists j. }
  exists j. split; [done|]. by apply runs_at_taken.
Qed.

Lemma lasso_runs_on : lasso_on = true -> runs_on lasso.
Proof.
  intros Hf i. unfold lasso_on in Hf. rewrite forallb_forall in Hf. pose proof (place_lt i).
  specialize (Hf (place i) ltac:(apply in_seq; lia)). unfold lasso. by destruct (wa_quit (watch (state (place i)))).
Qed.

Lemma lasso_fair_run harbor n : s0 = system_init harbor n -> lasso_fair = true -> fair_run harbor n lasso.
Proof.
  intros E0 Hf. split.
  - rewrite <- E0. unfold lasso, state, place. destruct (Nat.ltb_spec 0 (length xs)); [done|].
    replace (length xs) with 0%nat by lia. by rewrite Nat.Div0.mod_0_l.
  - exact lasso_step.
  - intros i t Ht Ho. destruct (lasso_runs i t Hf Ht) as (j & ? & ? & _); [destruct t; try done; by edestruct Ho|by exists j].
  - intros i t Ht Hl _. destruct (lasso_runs i t Hf Ht) as (j & ? & ? & Hm); [by destruct t|]. exists j. auto.
Qed.

End Lasso.

Definition demo_message : message := Message 0 5 0 0.

(** The launch, the message and its delivery; the worker falls asleep; the
    first signal. *)
Definition demo_fair : list act :=
  [Launch 7; Run 0; Run 0; Run 0; Run 0; Send 16777217 demo_message; Run 0; Run 0; Run 0; Run 2] ++ replicate 13 (Run 0) ++
  [Run 2; Run 0; Run 0; Run 1; Run 0; Run 0; Run 0; Run 0; Run 0].

(** Signal, wake-up, a look into the list, sleep. *)
Definition demo_cycle : list act := [Run 1; Run 0; Run 0; Run 1; Run 0; Run 0; Run 0; Run 0; Run 0].

Definition demo_fair_end : system := default (system_init 1 1) (execs (rt := demo_rt) demo_fair (system_init 1 1)).

Definition demo_fair_at (i : nat) : system := lasso (rt := demo_rt) demo_fair demo_cycle (system_init 1 1) i.

Lemma demo_execs :
  execs (rt := demo_rt) demo_fair (system_init 1 1) = Some demo_fair_end /\
  execs (rt := demo_rt) demo_cycle demo_fair_end = Some demo_fair_end.
Proof. split; vm_compute; reflexivity. Qed.

Lemma demo_fair_run : fair_run (rt := demo_rt) 1 1 demo_fair_at /\ runs_on demo_fair_at.
Proof.
  destruct demo_execs as [Hx Hy]. assert (Hl : (0 < length demo_cycle)%nat) by (cbn; lia). split.
  - apply (lasso_fair_run _ _ _ _ Hx Hy Hl); [reflexivity|vm_compute; reflexivity].
  - apply (lasso_runs_on _ _ _ Hl). vm_compute. reflexivity.
Qed.

(** After the eighth action the message is in the queue. *)
Lemma sched_dispatches_witness :
  exists j, (8 <= j)%nat /\ ((TFree 1 ∈ sy_pool (demo_fair_at j)) \/
    exists h c, taken (rt := demo_rt) (TRun 1 h c demo_message) (demo_fair_at j) (demo_fair_at (S j))).
Proof.
  assert (H : match qw_heap (sh_queues (sy_shared (demo_fair_at 8))) !! 1 with
    | Some cq => bool_decide (queue_contents cq = [demo_message]) | None => false end = true) by (vm_compute; reflexivity).
  destruct (qw_heap (sh_queues (sy_shared (demo_fair_at 8))) !! 1) as [cq|] eqn:Eq; [|done].
  apply bool_decide_eq_true in H. destruct demo_fair_run as [Hr Hon].
  exact (sched_dispatches (rt := demo_rt) (ok := demo_rt_ok) 1 1 _ ltac:(lia) Hr Hon 8 1 cq [] demo_message [] Eq H).
Defined.
