(* ===== verification/Sha1.v ===== *)
(** * SHA-1 and its HMAC (src/lualib/lsha1.c)

    The C code keeps the message schedule in a circular block of 16 words, takes
    the message in pieces and counts the bits in two 32-bit words.  The
    reference is the algorithm of FIPS 180: a schedule of 80 words, the
    compression of the padded message block by block. *)

From S2P Require Import Prelude.

#[local] Open Scope word_scope.

Definition SHA1_DIGEST_SIZE : Z := 20.
Definition BLOCKSIZE : Z := 64.

(** [SHA1_CTX]; the five words of [state] are a tuple. *)
Definition regs : Type := Z * Z * Z * Z * Z.
Record SHA1_CTX := Ctx { state : regs; count : Z * Z; cbuffer : list Z }.

Definition rol (value bits : Z) : Z := (value <<< bits) .| (value >>> (32 - bits)).

(** A word of [block.l]. *)
Definition lw (l : list Z) (i : Z) : Z := default 0 (aget l i).
Definition set_lw (l : list Z) (i x : Z) : list Z := <[Z.to_nat i := x]> l.

(** On a little-endian machine. *)
Definition blk0 (i : Z) (l : list Z) : Z * list Z :=
  let x := (rol (lw l i) 24 .& 0xFF00FF00) .| (rol (lw l i) 8 .& 0x00FF00FF) in (x, set_lw l i x).

Definition blk (i : Z) (l : list Z) : Z * list Z :=
  let x := rol (lw l ((i + 13) .& 15) .^ lw l ((i + 8) .& 15) .^ lw l ((i + 2) .& 15) .^ lw l (i .& 15)) 1 in
  (x, set_lw l (i .& 15) x).

(** [R0(v,w,x,y,z,i)] and so on, where [m] is [blk0(i)] or [blk(i)].  The next
    call names the variables one place on. *)
Definition R0 (m : Z) (s : regs) : regs :=
  let '(v, w, x, y, z) := s in
  (u32 (z + ((w .& (x .^ y)) .^ y) + m + 0x5A827999 + rol v 5), v, rol w 30, x, y).
Definition R1 (m : Z) (s : regs) : regs := R0 m s.
Definition R2 (m : Z) (s : regs) : regs :=
  let '(v, w, x, y, z) := s in
  (u32 (z + (w .^ x .^ y) + m + 0x6ED9EBA1 + rol v 5), v, rol w 30, x, y).
Definition R3 (m : Z) (s : regs) : regs :=
  let '(v, w, x, y, z) := s in
  (u32 (z + (((w .| x) .& y) .| (w .& x)) + m + 0x8F1BBCDC + rol v 5), v, rol w 30, x, y).
Definition R4 (m : Z) (s : regs) : regs :=
  let '(v, w, x, y, z) := s in
  (u32 (z + (w .^ x .^ y) + m + 0xCA62C1D6 + rol v 5), v, rol w 30, x, y).

Definition round (st : regs * list Z) (i : Z) : regs * list Z :=
  let '(s, l) := st in
  let '(m, l) := if i <? 16 then blk0 i l else blk i l in
  (if i <? 16 then R0 m s else if i <? 20 then R1 m s else if i <? 40 then R2 m s
   else if i <? 60 then R3 m s else R4 m s, l).

(** The 16 words of 64 bytes, as the machine reads them. *)
Definition words (buffer : list Z) : list Z :=
  map (fun i => get_le (take 4 (drop (4 * i) buffer))) (seq 0 16).

Definition add_regs (s t : regs) : regs :=
  let '(a, b, c, d, e) := s in
  let '(a', b', c', d', e') := t in
  (u32 (a + a'), u32 (b + b'), u32 (c + c'), u32 (d + d'), u32 (e + e')).

Definition SHA1_Transform (st : regs) (buffer : list Z) : regs :=
  add_regs st (foldl round (st, words buffer) (seqZ 0 80)).1.

Definition init_state : regs := (0x67452301, 0xEFCDAB89, 0x98BADCFE, 0x10325476, 0xC3D2E1F0).

(** [buffer] is what was there before. *)
Definition sat_SHA1_Init (buffer : list Z) : SHA1_CTX := Ctx init_state (0, 0) buffer.

(** [(context->count[0] += len << 3) < (len << 3)]: the sum is cut to 32 bits,
    [len << 3] is a [size_t]. *)
Definition add_count (c : Z * Z) (len : Z) : Z * Z :=
  let '(c0, c1) := c in
  let bits := u64 (Z.shiftl len 3) in
  let c0 := u32 (c0 + bits) in
  let c1 := if c0 <? bits then u32 (c1 + 1) else c1 in
  (c0, u32 (c1 + (len >>> 29))).

(** [for ( ; i + 63 < len; i += 64)]: the state and the last [i]. *)
Fixpoint blocks_loop (fuel : nat) (s : regs) (data : list Z) (i : Z) : regs * Z :=
  match fuel with
  | O => (s, i)
  | S fuel =>
      if i + 63 <? zlen data then
        blocks_loop fuel (SHA1_Transform s (take 64 (drop (Z.to_nat i) data))) data (i + 64)
      else (s, i)
  end.

Definition sat_SHA1_Update (c : SHA1_CTX) (data : list Z) : option SHA1_CTX :=
  let len := zlen data in
  let j := ((count c).1 >>> 3) .& 63 in
  let cnt := add_count (count c) len in
  if j + len >? 63 then
    buf ← memcpy (cbuffer c) j data 0 (64 - j);
    let s := SHA1_Transform (state c) buf in
    let '(s, i) := blocks_loop (length data) s data (64 - j) in
    buf ← memcpy buf 0 data i (len - i);
    Some (Ctx s cnt buf)
  else
    buf ← memcpy (cbuffer c) j data 0 len;
    Some (Ctx (state c) cnt buf).

(** The byte [i & 3] of a word, the most significant first. *)
Definition be_byte (x i : Z) : Z := u8 ((x >>> ((3 - (i .& 3)) * 8)) .& 255).

Definition finalcount (c : Z * Z) : list Z :=
  map (fun i => be_byte (if i >=? 4 then c.1 else c.2) i) (seqZ 0 8).

(** [while ((context->count[0] & 504) != 448)] *)
Fixpoint pad_loop (fuel : nat) (c : SHA1_CTX) : option SHA1_CTX :=
  match fuel with
  | O => None
  | S fuel =>
      if negb (((count c).1 .& 504) =? 448) then c ← sat_SHA1_Update c [0]; pad_loop fuel c
      else Some c
  end.

Definition digest_of (s : regs) : list Z :=
  let '(a, b, c, d, e) := s in
  map (fun i => be_byte (lw [a; b; c; d; e] (i >>> 2)) i) (seqZ 0 20).

Definition sat_SHA1_Final (c : SHA1_CTX) : option (list Z) :=
  let fc := finalcount (count c) in
  c ← sat_SHA1_Update c [128];
  c ← pad_loop 64 c;
  c ← sat_SHA1_Update c fc;
  Some (digest_of (state c)).

(** [mem] is what the contexts on the stack held before. *)
Definition lsha1 (mem text : list Z) : option (list Z) :=
  c ← sat_SHA1_Update (sat_SHA1_Init mem) text; sat_SHA1_Final c.

(** The key as 16 words, each xored. *)
Definition xor_key (key : list Z) (x : Z) : list Z :=
  concat (map (fun k => put_le 4 (k .^ x)) (words key)).

Definition lhmac_sha1 (mem key text : list Z) : option (list Z) :=
  rkey ← (if zlen key >? BLOCKSIZE then
            d ← lsha1 mem key; memcpy (replicate 64 0) 0 d 0 SHA1_DIGEST_SIZE
          else memcpy (replicate 64 0) 0 key 0 (zlen key));
  let rkey := xor_key rkey 0x5c5c5c5c in
  ctx1 ← sat_SHA1_Update (sat_SHA1_Init mem) rkey;
  let rkey := xor_key rkey (0x5c5c5c5c .^ 0x36363636) in
  ctx2 ← sat_SHA1_Update (sat_SHA1_Init mem) rkey;
  ctx2 ← sat_SHA1_Update ctx2 text;
  digest2 ← sat_SHA1_Final ctx2;
  ctx1 ← sat_SHA1_Update ctx1 digest2;
  sat_SHA1_Final ctx1.

Definition ascii_codes (s : string) : list Z := map (fun a => Z.of_N (Ascii.N_of_ascii a)) (String.list_ascii_of_string s).

(** The test vectors of the source. *)
Example sha1_abc : lsha1 (replicate 64 0) (ascii_codes "abc") =
  Some (concat (map (fun w => rev (put_le 4 w)) [0xA9993E36; 0x4706816A; 0xBA3E2571; 0x7850C26C; 0x9CD0D89D])).
Proof. vm_compute. reflexivity. Qed.
Example sha1_long : lsha1 (replicate 64 7) (ascii_codes "abcdbcdecdefdefgefghfghighijhijkijkljklmklmnlmnomnopnopq") =
  Some (concat (map (fun w => rev (put_le 4 w)) [0x84983E44; 0x1C3BD26E; 0xBAAE4AA1; 0xF95129E5; 0xE54670F1])).
Proof. vm_compute. reflexivity. Qed.

(** ** The reference: FIPS 180 *)

(** A word from four bytes, the most significant first. *)
Definition be_word (l : list Z) : Z := get_le (rev l).

Definition be_words (buffer : list Z) : list Z :=
  map (fun i => be_word (take 4 (drop (4 * i) buffer))) (seq 0 16).

(** The schedule: [W] grows by a word. *)
Definition next_word (W : list Z) : list Z :=
  let t := zlen W in
  W ++ [rol (lw W (t - 3) .^ lw W (t - 8) .^ lw W (t - 14) .^ lw W (t - 16)) 1].
Definition schedule (buffer : list Z) : list Z := Nat.iter 64 next_word (be_words buffer).

Definition Ch (x y z : Z) : Z := (x .& y) .^ (Z.lnot x .& z).
Definition Parity (x y z : Z) : Z := x .^ y .^ z.
Definition Maj (x y z : Z) : Z := (x .& y) .^ (x .& z) .^ (y .& z).

Definition f_t (t x y z : Z) : Z :=
  if t <? 20 then Ch x y z else if t <? 40 then Parity x y z else if t <? 60 then Maj x y z else Parity x y z.
Definition K_t (t : Z) : Z :=
  if t <? 20 then 0x5A827999 else if t <? 40 then 0x6ED9EBA1 else if t <? 60 then 0x8F1BBCDC else 0xCA62C1D6.

Definition fips_round (W : list Z) (s : regs) (t : Z) : regs :=
  let '(a, b, c, d, e) := s in
  (u32 (rol a 5 + f_t t b c d + e + K_t t + lw W t), a, rol b 30, c, d).

Definition compress (s : regs) (buffer : list Z) : regs :=
  add_regs s (foldl (fips_round (schedule buffer)) s (seqZ 0 80)).

(** The whole blocks of [data] one after the other, and what is left. *)
Fixpoint md_loop (fuel : nat) (s : regs) (data : list Z) : regs * list Z :=
  match fuel with
  | O => (s, data)
  | S fuel =>
      if 64 <=? zlen data then md_loop fuel (compress s (take 64 data)) (drop 64 data) else (s, data)
  end.
Definition md (s : regs) (data : list Z) : regs * list Z := md_loop (length data) s data.

Definition be_bytes (n : nat) (v : Z) : list Z := rev (put_le n v).

(** The message, a bit, zeros, and the length in bits. *)
Definition padded (msg : list Z) : list Z :=
  msg ++ [128] ++ replicate (Z.to_nat ((55 - zlen msg) mod 64)) 0 ++ be_bytes 8 (8 * zlen msg).

Definition fips_digest (s : regs) : list Z :=
  let '(a, b, c, d, e) := s in concat (map (be_bytes 4) [a; b; c; d; e]).

Definition fips_sha1 (msg : list Z) : list Z := fips_digest (md init_state (padded msg)).1.

(** RFC 2104 *)
Definition hmac_key (key : list Z) : list Z :=
  let k := if zlen key >? 64 then fips_sha1 key else key in k ++ replicate (64 - length k) 0.
Definition xor_pad (x : Z) (key : list Z) : list Z := map (Z.lxor x) key.
Definition hmac_sha1 (key text : list Z) : list Z :=
  let k := hmac_key key in
  fips_sha1 (xor_pad 0x5c k ++ fips_sha1 (xor_pad 0x36 k ++ text)).

(** ** One block *)

(** Bytes of a word, one by one. *)
Lemma byte_cons_bit b x i :
  0 <= b < 256 -> 0 <= i -> Z.testbit (b + 256 * x) i = if i <? 8 then Z.testbit b i else Z.testbit x (i - 8).
Proof.
  intros Hb Hi. rewrite (Z.add_comm b), (Z.mul_comm 256). change 256 with (2 ^ 8).
  rewrite <- lor_shiftl, Z.lor_spec by lia. destruct (Z.ltb_spec i 8).
  - by rewrite Z.shiftl_spec_low.
  - rewrite Z.shiftl_spec by lia. by rewrite (byte_bit b), orb_false_r by done.
Qed.

Lemma byte_cons_land b x c y : 0 <= b < 256 -> 0 <= c < 256 ->
  Z.land (b + 256 * x) (c + 256 * y) = Z.land b c + 256 * Z.land x y.
Proof.
  intros Hb Hc. apply Z.bits_inj'. intros i Hi.
  assert (0 <= Z.land b c < 256).
  { rewrite <- (Z.mod_small c 256) by done. change 256 with (2 ^ 8).
    rewrite <- land_ones_mod, Z.land_assoc, land_ones_mod by lia. by apply Z.mod_pos_bound. }
  rewrite Z.land_spec, !byte_cons_bit by done. case_match; by rewrite Z.land_spec.
Qed.

Lemma byte_lor b c : 0 <= b < 256 -> 0 <= c < 256 -> 0 <= Z.lor b c < 256.
Proof.
  intros Hb Hc. split; [apply Z.lor_nonneg; lia|]. change 256 with (2 ^ 8).
  apply Z.log2_lt_cancel. rewrite Z.log2_lor by lia. change (Z.log2 (2 ^ 8)) with 8.
  assert (forall x, 0 <= x < 256 -> Z.log2 x < 8) as Hlog.
  { intros x Hx. destruct (Z.eq_dec x 0) as [->|]; [done|]. apply Z.log2_lt_pow2; lia. }
  apply Z.max_lub_lt; auto.
Qed.

Lemma byte_cons_lor b x c y : 0 <= b < 256 -> 0 <= c < 256 ->
  Z.lor (b + 256 * x) (c + 256 * y) = Z.lor b c + 256 * Z.lor x y.
Proof.
  intros Hb Hc. apply Z.bits_inj'. intros i Hi. pose proof (byte_lor b c Hb Hc).
  rewrite Z.lor_spec, !byte_cons_bit by done. case_match; by rewrite Z.lor_spec.
Qed.

(** Rotation of a word that is cut at bit [32 - n]. *)
Lemma rol_split h l n : 0 <= n <= 32 -> 0 <= l < 2 ^ (32 - n) -> 0 <= h < 2 ^ n ->
  rol (h * 2 ^ (32 - n) + l) n = l * 2 ^ n + h.
Proof.
  intros Hn Hl Hh. unfold rol, shl, u32.
  assert (2 ^ 32 = 2 ^ (32 - n) * 2 ^ n) as E32 by (rewrite <- Z.pow_add_r by lia; f_equal; lia).
  assert (Z.shiftr (h * 2 ^ (32 - n) + l) (32 - n) = h) as ->.
  { rewrite Z.shiftr_div_pow2 by lia. rewrite Z.add_comm, Z.div_add by lia. rewrite Z.div_small by done. lia. }
  assert (Z.shiftl (h * 2 ^ (32 - n) + l) n mod 2 ^ 32 = Z.shiftl l n) as ->.
  { rewrite !Z.shiftl_mul_pow2, E32 by lia.
    replace ((h * 2 ^ (32 - n) + l) * 2 ^ n) with (l * 2 ^ n + h * (2 ^ (32 - n) * 2 ^ n)) by lia.
    rewrite Z.mod_add by lia. apply Z.mod_small. split; [lia|]. apply Z.mul_lt_mono_pos_r; lia. }
  by rewrite lor_shiftl by lia.
Qed.

Lemma bswap_word b0 b1 b2 b3 :
  0 <= b0 < 256 -> 0 <= b1 < 256 -> 0 <= b2 < 256 -> 0 <= b3 < 256 ->
  let x := get_le [b0; b1; b2; b3] in
  (rol x 24 .& 0xFF00FF00) .| (rol x 8 .& 0x00FF00FF) = be_word [b0; b1; b2; b3].
Proof.
  intros H0 H1 H2 H3. cbv zeta.
  assert (rol (get_le [b0; b1; b2; b3]) 24 = get_le [b1; b2; b3; b0]) as ->.
  { cbn [get_le]. replace (b0 + _) with ((b1 + 256 * (b2 + 256 * b3)) * 2 ^ (32 - 24) + b0) by lia.
    rewrite rol_split by lia. lia. }
  assert (rol (get_le [b0; b1; b2; b3]) 8 = get_le [b3; b0; b1; b2]) as ->.
  { cbn [get_le]. replace (b0 + _) with (b3 * 2 ^ (32 - 8) + (b0 + 256 * (b1 + 256 * b2))) by lia.
    rewrite rol_split by lia. lia. }
  change 0xFF00FF00 with (0 + 256 * (255 + 256 * (0 + 256 * (255 + 256 * 0)))).
  change 0x00FF00FF with (255 + 256 * (0 + 256 * (255 + 256 * (0 + 256 * 0)))).
  assert (forall b, 0 <= b < 256 -> Z.land b 255 = b) as Hff.
  { intros b Hb. change 255 with (Z.ones 8). rewrite land_ones_mod by lia. by apply Z.mod_small. }
  cbn [get_le]. rewrite !byte_cons_land, !Z.land_0_r, !Hff by (done || lia).
  rewrite !byte_cons_lor by lia. unfold be_word. cbn [rev app get_le]. rewrite ?Z.lor_0_r, ?Z.lor_0_l. lia.
Qed.

Ltac bitwise := apply Z.bits_inj'; intros i Hi; rewrite ?Z.lor_spec, ?Z.land_spec, ?Z.lxor_spec, ?Z.lnot_spec,
  ?Z.lor_spec, ?Z.land_spec, ?Z.lxor_spec, ?Z.lnot_spec by done;
  repeat match goal with |- context[Z.testbit ?x i] => destruct (Z.testbit x i) end; done.

Lemma ch_eq w x y : (w .& (x .^ y)) .^ y = Ch w x y.
Proof. unfold Ch. bitwise. Qed.
Lemma maj_eq w x y : ((w .| x) .& y) .| (w .& x) = Maj w x y.
Proof. unfold Maj. bitwise. Qed.

Section Block.
Context (buffer : list Z) (Hlen : length buffer = 64%nat) (Hbytes : bytes buffer).

Lemma lw_words f i : (i < 16)%nat ->
  lw (map (fun i => f (take 4 (drop (4 * i) buffer))) (seq 0 16)) (Z.of_nat i) =
  f (take 4 (drop (4 * i) buffer)).
Proof.
  intros Hi. unfold lw. rewrite aget_nat.
  change (map ?g ?l) with (g <$> l). rewrite list_lookup_fmap, lookup_seq_lt by done. done.
Qed.

Lemma word_bytes i : (i < 16)%nat ->
  exists b0 b1 b2 b3, take 4 (drop (4 * i) buffer) = [b0; b1; b2; b3] /\
    0 <= b0 < 256 /\ 0 <= b1 < 256 /\ 0 <= b2 < 256 /\ 0 <= b3 < 256.
Proof.
  intros Hi. assert (length (take 4 (drop (4 * i) buffer)) = 4%nat) as Hl
    by (rewrite length_take, length_drop; lia).
  assert (bytes (take 4 (drop (4 * i) buffer))) as Hb by by apply bytes_take, bytes_drop.
  destruct (take 4 _) as [|b0 [|b1 [|b2 [|b3 [|? ?]]]]]; try done.
  exists b0, b1, b2, b3. apply bytes_cons in Hb as [? Hb]. apply bytes_cons in Hb as [? Hb].
  apply bytes_cons in Hb as [? Hb]. apply bytes_cons in Hb as [? Hb]. done.
Qed.

(** [blk0] reads a word of the message. *)
Lemma blk0_word i : (i < 16)%nat ->
  (rol (lw (words buffer) (Z.of_nat i)) 24 .& 0xFF00FF00) .| (rol (lw (words buffer) (Z.of_nat i)) 8 .& 0x00FF00FF) =
  lw (be_words buffer) (Z.of_nat i).
Proof.
  intros Hi. unfold words, be_words. rewrite !lw_words by done.
  destruct (word_bytes i Hi) as (b0 & b1 & b2 & b3 & -> & H0 & H1 & H2 & H3). by apply bswap_word.
Qed.

Let W : list Z := schedule buffer.
Let Wn (n : nat) : list Z := Nat.iter n next_word (be_words buffer).

Lemma Wn_S n : Wn (S n) = next_word (Wn n).
Proof. apply Nat.iter_succ. Qed.

Lemma Wn_length n : length (Wn n) = (16 + n)%nat.
Proof.
  induction n as [|n IH]; [done|]. rewrite Wn_S. unfold next_word. rewrite length_app, IH. cbn. lia.
Qed.

Lemma Wn_stable n m t : t < 16 + Z.of_nat n -> lw (Wn (m + n)) t = lw (Wn n) t.
Proof.
  intros Ht. induction m as [|m IH]; [done|]. rewrite <- IH. cbn [Nat.add].
  rewrite Wn_S. unfold next_word, lw. cbv zeta. rewrite aget_app_l; [done|]. rewrite Wn_length. lia.
Qed.

Lemma W_head t : t < 16 -> lw W t = lw (be_words buffer) t.
Proof. intros Ht. apply (Wn_stable 0 64). lia. Qed.

Lemma W_next t : 16 <= t < 80 -> lw W t = rol (lw W (t - 3) .^ lw W (t - 8) .^ lw W (t - 14) .^ lw W (t - 16)) 1.
Proof.
  intros Ht. assert (exists n, t = Z.of_nat n + 16) as [n Hn] by (exists (Z.to_nat (t - 16)); lia).
  assert (forall j, j < t -> lw W j = lw (Wn n) j) as Hold.
  { intros j Hj. unfold W. change (schedule buffer) with (Wn 64).
    replace 64%nat with ((64 - n) + n)%nat by lia. apply Wn_stable. lia. }
  rewrite (Hold (t - 3)), (Hold (t - 8)), (Hold (t - 14)), (Hold (t - 16)) by lia. unfold W.
  change (schedule buffer) with (Wn 64). replace 64%nat with ((63 - n) + S n)%nat by lia.
  rewrite (Wn_stable (S n)), Wn_S by lia. unfold next_word at 1. cbv zeta.
  assert (zlen (Wn n) = t) as E by (rewrite Wn_length; lia). rewrite E. unfold lw at 1.
  rewrite aget_app_r by lia. rewrite E, Z.sub_diag. done.
Qed.

Lemma seqZ_snoc i : 0 <= i -> seqZ 0 (i + 1) = seqZ 0 i ++ [i].
Proof.
  intros Hi. replace (i + 1) with (Z.of_nat (S (Z.to_nat i))) by lia. rewrite seqZ_S.
  by rewrite Z2Nat.id.
Qed.

(** After [i] rounds: the working variables, and the words that the block holds. *)
Record rounds_inv (s0 : regs) (i : Z) (st : regs * list Z) : Prop := {
  ri_regs : st.1 = foldl (fips_round W) s0 (seqZ 0 i);
  ri_len : length st.2 = 16%nat;
  ri_done : forall t, 0 <= t -> i - 16 <= t < i -> lw st.2 (t mod 16) = lw W t;
  ri_todo : forall t, i <= t < 16 -> lw st.2 t = lw (words buffer) t
}.

Lemma set_lw_eq l i x : 0 <= i < zlen l -> lw (set_lw l i x) i = x.
Proof. intros Hi. unfold lw, set_lw. by rewrite aget_insert_eq. Qed.
Lemma set_lw_ne l i j x : 0 <= i -> i <> j -> lw (set_lw l i x) j = lw l j.
Proof. intros Hi Hj. unfold lw, set_lw. by rewrite aget_insert_ne. Qed.

Lemma land15 x : x .& 15 = x mod 16.
Proof. change 15 with (Z.ones 4). by rewrite land_ones_mod. Qed.

(** The word of a round, and the block after it. *)
Lemma round_word s0 i st : 0 <= i < 80 -> rounds_inv s0 i st ->
  (if i <? 16 then blk0 i st.2 else blk i st.2) = (lw W i, set_lw st.2 (i mod 16) (lw W i)).
Proof.
  intros Hi [_ Hl Hd Ht]. destruct (Z.ltb_spec i 16).
  - unfold blk0. rewrite Ht by lia. pose proof (blk0_word (Z.to_nat i)) as Hb.
    rewrite Z2Nat.id in Hb by lia. rewrite Hb by lia. rewrite W_head by done. rewrite Z.mod_small by lia. done.
  - unfold blk. rewrite !land15.
    assert (forall k, 0 < k <= 16 -> lw st.2 ((i + (16 - k)) mod 16) = lw W (i - k)) as Hk.
    { intros k Hk. rewrite <- Hd by lia. f_equal. replace (i + (16 - k)) with (i - k + 1 * 16) by lia. by rewrite Z.mod_add by lia. }
    pose proof (Hk 3 ltac:(lia)) as E3. pose proof (Hk 8 ltac:(lia)) as E8.
    pose proof (Hk 14 ltac:(lia)) as E14. pose proof (Hk 16 ltac:(lia)) as E16.
    change (16 - 3) with 13 in E3. change (16 - 8) with 8 in E8. change (16 - 14) with 2 in E14.
    change (16 - 16) with 0 in E16. rewrite Z.add_0_r in E16. rewrite E3, E8, E14, E16, <- W_next by lia. done.
Qed.

(** One round is one of FIPS 180. *)
Lemma round_fips s i :
  (if i <? 16 then R0 (lw W i) s else if i <? 20 then R1 (lw W i) s else if i <? 40 then R2 (lw W i) s
   else if i <? 60 then R3 (lw W i) s else R4 (lw W i) s) = fips_round W s i.
Proof.
  destruct s as [[[[a b] c] d] e]. unfold R4, R3, R2, R1, R0, fips_round, f_t, K_t.
  rewrite !ch_eq, !maj_eq. unfold Parity.
  destruct (Z.ltb_spec i 16), (Z.ltb_spec i 20), (Z.ltb_spec i 40), (Z.ltb_spec i 60); try lia;
    do 4 f_equal; f_equal; lia.
Qed.

Lemma round_inv s0 i st : 0 <= i < 80 -> rounds_inv s0 i st -> rounds_inv s0 (i + 1) (round st i).
Proof.
  intros Hi Hinv. pose proof (round_word s0 i st Hi Hinv) as Ew. destruct Hinv as [Hr Hl Hd Ht].
  destruct st as [s l]. cbn [fst snd] in *. unfold round. rewrite Ew, round_fips.
  pose proof (Z.mod_pos_bound i 16 ltac:(lia)) as Hm. split; cbn [fst snd].
  - rewrite seqZ_snoc, foldl_app by lia. by rewrite Hr.
  - unfold set_lw. by rewrite length_insert.
  - intros t H0 Hti. destruct (Z.eq_dec t i) as [->|Hne]; [rewrite set_lw_eq by lia; done|].
    rewrite set_lw_ne; [apply Hd; lia|lia|]. intros E. 
    assert ((i - t) mod 16 = 0) by (rewrite Zminus_mod, E, Z.sub_diag; done). rewrite Z.mod_small in *; lia.
  - intros t Hti. rewrite set_lw_ne; [apply Ht; lia|lia|]. rewrite Z.mod_small by lia. lia.
Qed.

Lemma transform_compress s : SHA1_Transform s buffer = compress s buffer.
Proof.
  assert (forall n, (n <= 80)%nat -> rounds_inv s (Z.of_nat n) (foldl round (s, words buffer) (seqZ 0 (Z.of_nat n)))) as H.
  { induction n as [|n IH]; intros Hn.
    - split; [reflexivity|apply length_map|intros; lia|reflexivity].
    - rewrite Nat2Z.inj_succ, <- Z.add_1_r, seqZ_snoc, foldl_app by lia. cbn [foldl].
      apply (round_inv s (Z.of_nat n)); [lia|]. apply IH. lia. }
  unfold SHA1_Transform, compress. f_equal. apply (ri_regs s 80), (H 80%nat). lia.
Qed.
End Block.

(** ** Messages *)

Lemma md_loop_fuel f1 f2 s data :
  (length data <= f1)%nat -> (length data <= f2)%nat -> md_loop f1 s data = md_loop f2 s data.
Proof.
  revert f2 s data. induction f1 as [|f1 IH]; intros f2 s data H1 H2.
  - destruct data; [by destruct f2|cbn in H1; lia].
  - destruct f2 as [|f2]; [destruct data; [done|cbn in H2; lia]|]. cbn [md_loop].
    destruct (Z.leb_spec 64 (zlen data)); [|done]. apply IH; rewrite length_drop; lia.
Qed.

Lemma md_small s data : zlen data < 64 -> md s data = (s, data).
Proof.
  intros Hl. unfold md. destruct (length data) eqn:E; [done|]. cbn [md_loop].
  destruct (Z.leb_spec 64 (zlen data)); [lia|done].
Qed.

Lemma md_block s block data : length block = 64%nat -> md s (block ++ data) = md (compress s block) data.
Proof.
  intros Hl. unfold md. rewrite (md_loop_fuel _ (S (63 + length data))) by (rewrite length_app; lia).
  cbn [md_loop].
  destruct (Z.leb_spec 64 (zlen (block ++ data))) as [_|Hx]; [|rewrite length_app in Hx; lia].
  rewrite take_app_length', drop_app_length' by done. apply md_loop_fuel; lia.
Qed.

(** Induction on the blocks of a message. *)
Lemma block_ind (P : list Z -> Prop) :
  (forall d, zlen d < 64 -> P d) ->
  (forall block d, length block = 64%nat -> P d -> P (block ++ d)) -> forall d, P d.
Proof.
  intros Hs Hb d. remember (length d) as n eqn:E. revert d E.
  induction (lt_wf n) as [n _ IH]. intros d ->. destruct (Z.lt_ge_cases (zlen d) 64); [auto|].
  rewrite <- (take_drop 64 d). apply Hb; [rewrite length_take; lia|].
  apply (IH (length (drop 64 d))); [rewrite length_drop; lia|done].
Qed.

Lemma md_app s d1 d2 : md s (d1 ++ d2) = let '(s1, r) := md s d1 in md s1 (r ++ d2).
Proof.
  revert s. induction d1 as [d1 Hl|block d1 Hl IH] using block_ind; intros s.
  - by rewrite (md_small s d1).
  - rewrite <- app_assoc, (md_block s block (d1 ++ d2)), (md_block s block d1) by done. apply IH.
Qed.

Lemma md_rest s d : zlen (md s d).2 = zlen d mod 64.
Proof.
  revert s. induction d as [d Hl|block d Hl IH] using block_ind; intros s.
  - rewrite md_small by done. by rewrite Z.mod_small by lia.
  - rewrite md_block, IH, length_app, Hl by done. replace (Z.of_nat (64 + length d)) with (zlen d + 1 * 64) by lia.
    by rewrite Z.mod_add.
Qed.

Lemma md_suffix s d : exists p, d = p ++ (md s d).2.
Proof.
  revert s. induction d as [d Hl|block d Hl IH] using block_ind; intros s.
  - exists []. by rewrite md_small.
  - destruct (IH (compress s block)) as [p Hp]. exists (block ++ p). rewrite md_block by done.
    by rewrite <- app_assoc, <- Hp.
Qed.

(** ** The context *)

(** The counter for [n] bytes. *)
Definition count_of (n : Z) : Z * Z := (u32 (8 * n), u32 (8 * n / 2 ^ 32)).

(** [c] has taken the bytes [data]. *)
Record ctx_rep (c : SHA1_CTX) (data : list Z) : Prop := {
  cr_state : state c = (md init_state data).1;
  cr_len : zlen (cbuffer c) = 64;
  cr_rest : take (length (md init_state data).2) (cbuffer c) = (md init_state data).2;
  cr_count : count c = count_of (zlen data);
  cr_bytes : bytes data
}.

Lemma add_count_of n len : 0 <= n -> 0 <= len < 2 ^ 29 -> add_count (count_of n) len = count_of (n + len).
Proof.
  intros Hn Hl. unfold add_count, count_of, u64, u32. rewrite Z.shiftl_mul_pow2, Z.shiftr_div_pow2 by lia.
  change (2 ^ 3) with 8. rewrite (Z.mod_small (len * 8)) by lia. rewrite (Z.div_small len) by lia.
  rewrite Z.add_0_r. f_equal; [zdiv|].
  destruct (Z.ltb_spec ((8 * n mod 2 ^ 32 + len * 8) mod 2 ^ 32) (len * 8)); zdiv.
Qed.

Lemma count_index n : 0 <= n -> ((count_of n).1 >>> 3) .& 63 = n mod 64.
Proof.
  intros Hn. change 63 with (Z.ones 6). rewrite land_ones_mod, Z.shiftr_div_pow2 by lia.
  unfold count_of, u32. cbn [fst]. change (2 ^ 3) with 8. change (2 ^ 6) with 64. zdiv.
Qed.

Lemma blocks_loop_md fuel s data i :
  bytes data -> 0 <= i <= zlen data -> zlen data - i <= Z.of_nat fuel ->
  blocks_loop fuel s data i =
  ((md s (drop (Z.to_nat i) data)).1, zlen data - zlen (md s (drop (Z.to_nat i) data)).2).
Proof.
  intros Hb. revert s i. induction fuel as [|fuel IH]; intros s i Hi Hf; cbn [blocks_loop].
  - rewrite md_small by (rewrite length_drop; lia). cbn [fst snd]. rewrite length_drop. f_equal. lia.
  - destruct (Z.ltb_spec (i + 63) (zlen data)).
    + assert (length (take 64 (drop (Z.to_nat i) data)) = 64%nat) as Hblock
        by (rewrite length_take, length_drop; lia).
      assert (md s (drop (Z.to_nat i) data) =
        md (compress s (take 64 (drop (Z.to_nat i) data))) (drop (Z.to_nat (i + 64)) data)) as ->.
      { rewrite <- (take_drop 64 (drop (Z.to_nat i) data)) at 1. rewrite md_block, drop_drop by done.
        by replace (Z.to_nat (i + 64)) with (Z.to_nat i + 64)%nat by lia. }
      rewrite IH by lia. rewrite transform_compress; [done|done|by apply bytes_take, bytes_drop].
    + rewrite md_small by (rewrite length_drop; lia). cbn [fst snd]. rewrite length_drop. f_equal. lia.
Qed.

Lemma update_rep c d1 d2 :
  ctx_rep c d1 -> bytes d2 -> zlen d2 < 2 ^ 29 ->
  exists c', sat_SHA1_Update c d2 = Some c' /\ ctx_rep c' (d1 ++ d2).
Proof.
  intros [Hs Hl Hr Hc Hb1] Hb2 Hlen. pose proof (md_rest init_state d1) as Hj.
  pose proof (md_app init_state d1 d2) as Happ. pose proof (md_rest init_state (d1 ++ d2)) as Hj2.
  assert (bytes (md init_state d1).2) as Hbr.
  { destruct (md_suffix init_state d1) as [p Hp]. rewrite Hp in Hb1. by apply Forall_app in Hb1 as [_ ?]. }
  assert (bytes (d1 ++ d2)) as Hb by by apply Forall_app.
  destruct (md init_state d1) as [s r] eqn:Emd. cbn [fst snd] in *.
  pose proof (Z.mod_pos_bound (zlen d1) 64 ltac:(lia)).
  unfold sat_SHA1_Update. rewrite Hc, count_index, add_count_of, <- Hj, Hs by lia.
  destruct (Z.gtb_spec (zlen r + zlen d2) 63).
  - rewrite memcpy_Some by lia. cbn [mbind option_bind]. rewrite Nat2Z.id, Hr, drop_0.
    replace (Z.to_nat (zlen r + (64 - zlen r))) with 64%nat by lia. rewrite (drop_ge (cbuffer c)) by lia.
    rewrite app_nil_r. set (block := r ++ take _ d2).
    assert (length block = 64%nat) as Hbl by (subst block; rewrite length_app, length_take; lia).
    rewrite transform_compress; [|done|apply Forall_app; split; [done|by apply bytes_take]].
    rewrite blocks_loop_md by (done || lia).
    assert (md s (r ++ d2) = md (compress s block) (drop (Z.to_nat (64 - zlen r)) d2)) as Hmd.
    { rewrite <- md_block by done. subst block. by rewrite <- app_assoc, take_drop. }
    rewrite <- Hmd, <- Happ. cbv beta match. clearbody block.
    destruct (md_suffix (compress s block) (drop (Z.to_nat (64 - zlen r)) d2)) as [p Hp].
    rewrite <- Hmd, <- Happ in Hp. set (r' := (md init_state (d1 ++ d2)).2) in *.
    assert (length r' <= length d2)%nat as Hr'.
    { apply (f_equal length) in Hp. rewrite length_drop, length_app in Hp. lia. }
    assert (drop (Z.to_nat (zlen d2 - zlen r')) d2 = r') as Hdr.
    { rewrite <- (take_drop (Z.to_nat (64 - zlen r)) d2) at 2. rewrite Hp, app_assoc. apply drop_app_length'.
      apply (f_equal length) in Hp. rewrite length_drop, length_app in Hp. rewrite length_app, length_take. lia. }
    pose proof (Z.mod_pos_bound (zlen (d1 ++ d2)) 64 ltac:(lia)).
    rewrite memcpy_Some by lia. cbn [mbind option_bind]. rewrite Hdr.
    replace (Z.to_nat (zlen d2 - (zlen d2 - zlen r'))) with (length r') by lia. rewrite (take_ge r') by lia.
    eexists. split; [done|]. split; cbn [state cbuffer count]; [done| | | |done].
    + rewrite !length_app, length_take, length_drop. lia.
    + fold r'. change (take (Z.to_nat 0) block) with (@nil Z). rewrite app_nil_l. by apply take_app_length'.
    + by rewrite length_app, Nat2Z.inj_add.
  - rewrite memcpy_Some by lia. cbn [mbind option_bind]. rewrite Nat2Z.id, Hr, drop_0.
    rewrite (take_ge d2) by lia. rewrite (md_small s (r ++ d2)) in Happ by (rewrite length_app; lia).
    eexists. split; [done|]. split; cbn [state cbuffer count]; rewrite ?Happ; cbn [fst snd]; [done| | | |done].
    + rewrite !length_app, length_drop. lia.
    + rewrite app_assoc. by rewrite take_app_length.
    + by rewrite length_app, Nat2Z.inj_add.
Qed.

Lemma init_rep mem : zlen mem = 64 -> ctx_rep (sat_SHA1_Init mem) [].
Proof. intros Hm. split; try done. apply Forall_nil_2. Qed.

(** ** Padding and digest *)

Lemma be_bytes_bytes n v : bytes (be_bytes n v).
Proof. apply Forall_rev, put_le_bytes. Qed.

Lemma be_bytes_length n v : length (be_bytes n v) = n.
Proof. unfold be_bytes. by rewrite length_rev, put_le_length. Qed.

(** The four bytes of a word. *)
Lemma be_byte_word x i : (i .& 3) = 0 ->
  [be_byte x i; be_byte x (i + 1); be_byte x (i + 2); be_byte x (i + 3)] = be_bytes 4 x.
Proof.
  intros Hi. change 3 with (Z.ones 2) in Hi. rewrite land_ones_mod in Hi by lia.
  assert (forall k, 0 <= k < 4 -> (i + k) .& 3 = k) as Hk.
  { intros k Hk. change 3 with (Z.ones 2). rewrite land_ones_mod by lia. change (2 ^ 2) with 4 in *. zdiv. }
  unfold be_byte, u8. rewrite <- (Z.add_0_r i) at 1. rewrite !Hk by lia.
  change 255 with (Z.ones 8). rewrite !land_ones_mod, !Z.mod_mod by lia. rewrite !Z.shiftr_div_pow2 by lia.
  unfold be_bytes. cbn [put_le rev app]. rewrite !Z.div_div by lia.
  change (2 ^ 8) with 256. change (2 ^ ((3 - 0) * 8)) with (256 * 256 * 256). change (2 ^ ((3 - 1) * 8)) with (256 * 256).
  change (2 ^ ((3 - 2) * 8)) with 256. change (2 ^ ((3 - 3) * 8)) with 1. by rewrite Z.div_1_r.
Qed.

Lemma finalcount_of n : 0 <= n -> finalcount (count_of n) = be_bytes 8 (8 * n).
Proof.
  intros Hn. unfold be_bytes. change 8%nat with (4 + 4)%nat. rewrite put_le_app, rev_app_distr.
  change (256 ^ Z.of_nat 4) with (2 ^ 32). fold (be_bytes 4 (8 * n / 2 ^ 32)). fold (be_bytes 4 (8 * n)).
  assert (forall v, be_bytes 4 v = be_bytes 4 (u32 v)) as Hu by (intros v; unfold be_bytes; by rewrite <- (put_le_mod 4)).
  rewrite (Hu (8 * n)), (Hu (8 * n / 2 ^ 32)).
  rewrite <- (be_byte_word (u32 (8 * n / 2 ^ 32)) 0) by done. rewrite <- (be_byte_word (u32 (8 * n)) 4) by done.
  reflexivity.
Qed.

Lemma digest_fips s : digest_of s = fips_digest s.
Proof.
  destruct s as [[[[a b] c] d] e]. unfold fips_digest. cbn [map concat].
  rewrite <- (be_byte_word a 0), <- (be_byte_word b 4), <- (be_byte_word c 8), <- (be_byte_word d 12),
    <- (be_byte_word e 16) by done. reflexivity.
Qed.

Lemma count_504 n : 0 <= n -> (count_of n).1 .& 504 = 8 * (n mod 64).
Proof.
  intros Hn. unfold count_of, u32. cbn [fst].
  replace (8 * n mod 2 ^ 32) with (Z.shiftl (n mod 2 ^ 29) 3) by (rewrite Z.shiftl_mul_pow2 by lia; zdiv).
  change 504 with (Z.shiftl (Z.ones 6) 3). rewrite <- Z.shiftl_land, land_ones_mod, Z.shiftl_mul_pow2 by lia.
  change (2 ^ 6) with 64. change (2 ^ 3) with 8. zdiv.
Qed.

Lemma pad_loop_rep fuel c d :
  ctx_rep c d -> (55 - (zlen d - 1)) mod 64 < Z.of_nat fuel ->
  exists c', pad_loop fuel c = Some c' /\
    ctx_rep c' (d ++ replicate (Z.to_nat ((55 - (zlen d - 1)) mod 64)) 0).
Proof.
  revert c d. induction fuel as [|fuel IH]; intros c d Hc Hf.
  { pose proof (Z.mod_pos_bound (55 - (zlen d - 1)) 64). lia. }
  cbn [pad_loop]. rewrite (cr_count _ _ Hc), count_504 by lia.
  destruct (Z.eqb_spec (8 * (zlen d mod 64)) 448) as [E|E]; cbn [negb].
  - exists c. replace ((55 - (zlen d - 1)) mod 64) with 0 by zdiv. by rewrite app_nil_r.
  - destruct (update_rep c d [0] Hc) as (c1 & -> & Hc1); [by repeat constructor|done|]. cbn [mbind option_bind].
    assert (zlen (d ++ [0]) = zlen d + 1) as El by (rewrite length_app; cbn; lia).
    assert ((55 - (zlen d - 1)) mod 64 = (55 - (zlen (d ++ [0]) - 1)) mod 64 + 1) as Em by (rewrite El; zdiv).
    destruct (IH c1 (d ++ [0]) Hc1) as (c2 & E2 & Hc2); [lia|]. exists c2. split; [done|].
    rewrite Em, Z2Nat.inj_add, Nat.add_1_r by (apply Z.mod_pos_bound || lia; lia). cbn [replicate].
    by rewrite <- app_assoc in Hc2.
Qed.

Lemma final_rep c msg :
  ctx_rep c msg -> sat_SHA1_Final c = Some (fips_sha1 msg).
Proof.
  intros Hc. unfold sat_SHA1_Final. rewrite (cr_count _ _ Hc), finalcount_of by lia.
  destruct (update_rep c msg [128] Hc) as (c1 & -> & Hc1); [by repeat constructor|done|]. cbn [mbind option_bind].
  destruct (pad_loop_rep 64 c1 _ Hc1) as (c2 & -> & Hc2); [apply Z.mod_pos_bound; lia|]. cbn [mbind option_bind].
  destruct (update_rep c2 _ (be_bytes 8 (8 * zlen msg)) Hc2) as (c3 & -> & Hc3); [apply be_bytes_bytes|by rewrite be_bytes_length|].
  cbn [mbind option_bind]. rewrite digest_fips, (cr_state _ _ Hc3). unfold fips_sha1, padded.
  replace (zlen (msg ++ [128]) - 1) with (zlen msg) by (rewrite length_app; cbn; lia).
  by rewrite <- !app_assoc.
Qed.

Lemma lsha1_fips mem text :
  zlen mem = 64 -> bytes text -> zlen text < 2 ^ 29 -> lsha1 mem text = Some (fips_sha1 text).
Proof.
  intros Hm Hb Hl. unfold lsha1.
  destruct (update_rep _ [] text (init_rep mem Hm) Hb Hl) as (c & -> & Hc). by apply final_rep in Hc.
Qed.

Lemma fips_digest_shape s : bytes (fips_digest s) /\ length (fips_digest s) = 20%nat.
Proof.
  destruct s as [[[[a b] c] d] e]. unfold fips_digest. cbn [map concat]. split.
  - repeat (apply Forall_app_2; [apply be_bytes_bytes|]). apply Forall_nil_2.
  - by rewrite !length_app, !be_bytes_length.
Qed.

(** ** The key of the HMAC *)

Lemma byte_lxor b c : 0 <= b < 256 -> 0 <= c < 256 -> 0 <= Z.lxor b c < 256.
Proof.
  intros Hb Hc. replace (Z.lxor b c) with (u8 (Z.lxor b c)); [apply byte_u8|].
  apply Z.bits_inj'. intros i Hi. rewrite testbit_u8 by done. destruct (Z.ltb_spec i 8); [done|].
  by rewrite Z.lxor_spec, !byte_bit.
Qed.

Lemma byte_cons_lxor b x c y : 0 <= b < 256 -> 0 <= c < 256 ->
  Z.lxor (b + 256 * x) (c + 256 * y) = Z.lxor b c + 256 * Z.lxor x y.
Proof.
  intros Hb Hc. pose proof (byte_lxor b c Hb Hc). apply Z.bits_inj'. intros i Hi.
  rewrite Z.lxor_spec, !byte_cons_bit by done. case_match; by rewrite Z.lxor_spec.
Qed.

(** A word of four equal bytes. *)
Definition quad (x : Z) : Z := get_le [x; x; x; x].

Lemma word_xor b0 b1 b2 b3 x :
  0 <= b0 < 256 -> 0 <= b1 < 256 -> 0 <= b2 < 256 -> 0 <= b3 < 256 -> 0 <= x < 256 ->
  put_le 4 (get_le [b0; b1; b2; b3] .^ quad x) = map (Z.lxor x) [b0; b1; b2; b3].
Proof.
  intros H0 H1 H2 H3 Hx. unfold quad. cbn [get_le]. rewrite !byte_cons_lxor, Z.lxor_0_l by done.
  rewrite (Z.lxor_comm b0), (Z.lxor_comm b1), (Z.lxor_comm b2), (Z.lxor_comm b3).
  pose proof (byte_lxor x b0 Hx H0). pose proof (byte_lxor x b1 Hx H1).
  pose proof (byte_lxor x b2 Hx H2). pose proof (byte_lxor x b3 Hx H3).
  by rewrite !put_le_cons by done.
Qed.

(** The chunks of a list, joined again. *)
Lemma chunks_join {A} (l : list A) k n s :
  concat (map (fun i => take k (drop (k * i) l)) (seq s n)) = take (k * n) (drop (k * s) l).
Proof.
  revert s. induction n as [|n IH]; intros s; cbn [seq map concat]; [by rewrite Nat.mul_0_r|].
  rewrite IH. replace (k * S n)%nat with (k + k * n)%nat by lia.
  replace (k * S s)%nat with (k * s + k)%nat by lia. rewrite <- drop_drop.
  rewrite <- (take_drop k (drop (k * s) l)) at 3. symmetry.
  destruct (Nat.le_gt_cases k (length (drop (k * s) l))).
  - rewrite take_app_add'; [done|]. by rewrite length_take_le.
  - rewrite (drop_ge (drop (k * s) l)) by lia. rewrite !app_nil_r, take_nil, app_nil_r.
    rewrite take_take. f_equal. lia.
Qed.

Lemma xor_key_pad key x :
  length key = 64%nat -> bytes key -> 0 <= x < 256 -> xor_key key (quad x) = xor_pad x key.
Proof.
  intros Hl Hb Hx. unfold xor_key, words, xor_pad. rewrite map_map.
  transitivity (map (Z.lxor x) (take 64 (drop 0 key))); [|by rewrite drop_0, take_ge by lia].
  pose proof (chunks_join key 4 16 0) as E. change (4 * 16)%nat with 64%nat in E. change (4 * 0)%nat with 0%nat in E.
  rewrite <- E, concat_map, map_map. f_equal. apply map_ext_in. intros i Hi%in_seq.
  destruct (word_bytes key Hl Hb i) as (b0 & b1 & b2 & b3 & -> & ? & ? & ? & ?); [lia|]. by apply word_xor.
Qed.

Lemma xor_pad_twice x y key : xor_pad x (xor_pad y key) = xor_pad (x .^ y) key.
Proof. unfold xor_pad. rewrite map_map. apply map_ext. intros b. by rewrite Z.lxor_assoc. Qed.

Lemma xor_pad_bytes x key : 0 <= x < 256 -> bytes key -> bytes (xor_pad x key).
Proof.
  intros Hx Hb. apply Forall_map. apply (Forall_impl _ _ _ Hb). intros b Hb'. by apply byte_lxor.
Qed.

Lemma hmac_key_rep mem key : zlen mem = 64 -> bytes key -> zlen key < 2 ^ 29 ->
  (if zlen key >? BLOCKSIZE then
     d ← lsha1 mem key; memcpy (replicate 64 0) 0 d 0 SHA1_DIGEST_SIZE
   else memcpy (replicate 64 0) 0 key 0 (zlen key)) = Some (hmac_key key) /\
  bytes (hmac_key key) /\ length (hmac_key key) = 64%nat.
Proof.
  intros Hm Hb Hl. unfold hmac_key, BLOCKSIZE. destruct (fips_digest_shape (md init_state (padded key)).1) as [Hd Hd'].
  fold (fips_sha1 key) in Hd, Hd'.
  assert (forall d, bytes d -> zlen d <= 64 ->
    memcpy (replicate 64 0) 0 d 0 (zlen d) = Some (d ++ replicate (64 - length d) 0) /\
    bytes (d ++ replicate (64 - length d) 0) /\ length (d ++ replicate (64 - length d) 0) = 64%nat) as H.
  { intros d Hbd Hld. split_and!.
    - rewrite memcpy_Some by (rewrite ?length_replicate; lia). change (take _ (replicate 64 0)) with (@nil Z).
      rewrite drop_0, take_ge by lia. rewrite app_nil_l. rewrite Z.add_0_l, Nat2Z.id. by rewrite drop_replicate.
    - apply Forall_app_2; [done|]. by apply Forall_replicate.
    - rewrite length_app, length_replicate. lia. }
  destruct (Z.gtb_spec (zlen key) 64).
  - rewrite lsha1_fips by done. cbn [mbind option_bind]. unfold SHA1_DIGEST_SIZE.
    specialize (H (fips_sha1 key) Hd ltac:(lia)). by rewrite Hd' in *.
  - by apply H.
Qed.

Lemma lhmac_fips mem key text :
  zlen mem = 64 -> bytes key -> bytes text -> zlen key < 2 ^ 29 -> zlen text < 2 ^ 29 ->
  lhmac_sha1 mem key text = Some (hmac_sha1 key text).
Proof.
  intros Hm Hk Ht Hlk Hlt. unfold lhmac_sha1.
  destruct (hmac_key_rep mem key Hm Hk Hlk) as (-> & Hb & Hl). cbn [mbind option_bind].
  change 0x5c5c5c5c with (quad 0x5c). change (quad 0x5c .^ 0x36363636) with (quad 0x6a).
  rewrite (xor_key_pad (hmac_key key)) by done.
  rewrite xor_key_pad; [|unfold xor_pad; by rewrite length_map|by apply xor_pad_bytes|done].
  rewrite xor_pad_twice. change (0x6a .^ 0x5c) with 0x36.
  assert (forall x, 0 <= x < 256 -> bytes (xor_pad x (hmac_key key)) /\ zlen (xor_pad x (hmac_key key)) < 2 ^ 29) as H.
  { intros x Hx. split; [by apply xor_pad_bytes|]. unfold xor_pad. by rewrite length_map, Hl. }
  destruct (H 0x5c) as [H5 H5']; [done|]. destruct (H 0x36) as [H3 H3']; [done|].
  destruct (update_rep _ [] _ (init_rep mem Hm) H5 H5') as (c1 & -> & Hc1). cbn [mbind option_bind].
  destruct (update_rep _ [] _ (init_rep mem Hm) H3 H3') as (c2 & -> & Hc2). cbn [mbind option_bind].
  destruct (update_rep _ _ text Hc2 Ht Hlt) as (c3 & -> & Hc3). cbn [mbind option_bind].
  rewrite (final_rep _ _ Hc3). cbn [mbind option_bind app].
  destruct (fips_digest_shape (md init_state (padded (xor_pad 0x36 (hmac_key key) ++ text))).1) as [Hd Hd'].
  fold (fips_sha1 (xor_pad 0x36 (hmac_key key) ++ text)) in Hd, Hd'.
  destruct (update_rep _ _ _ Hc1 Hd) as (c4 & -> & Hc4); [by rewrite Hd'|]. cbn [mbind option_bind].
  by rewrite (final_rep _ _ Hc4).
Qed.

(** C35: [sha1] and [hmac_sha1] are the algorithms of FIPS 180 and RFC 2104: whatever the memory of the context held,
    and with a message or a key of any length below 2^29 bytes, the loops end, no copy leaves its array, and
    the circular schedule of 16 words, the byte swaps and the bit counts give the digest of the 80-word
    schedule over the padded message. *)
Theorem sha1_reference mem key text :
  zlen mem = 64 -> bytes key -> bytes text -> zlen key < 2 ^ 29 -> zlen text < 2 ^ 29 ->
  lsha1 mem text = Some (fips_sha1 text) /\ lhmac_sha1 mem key text = Some (hmac_sha1 key text).
Proof. intros Hm Hk Ht Hlk Hlt. split; [by apply lsha1_fips|by apply lhmac_fips]. Qed.

(** The second test case of RFC 2202. *)
Lemma sha1_reference_witness :
  lhmac_sha1 (replicate 64 170) (ascii_codes "Jefe") (ascii_codes "what do ya want for nothing?") =
  Some (concat (map (be_bytes 4) [0xeffcdf6a; 0xe5eb2fa2; 0xd27416d5; 0xf184df9c; 0x259a7c79])).
Proof.
  transitivity (Some (hmac_sha1 (ascii_codes "Jefe") (ascii_codes "what do ya want for nothing?"))).
  - apply (sha1_reference (replicate 64 170) (ascii_codes "Jefe") (ascii_codes "what do ya want for nothing?"));
      first [done|repeat constructor; cbn; lia].
  - vm_compute. reflexivity.
Defined.

(** A piece of 2^29 bytes always adds a carry of its own, which the exact counter does not have. *)
Lemma add_count_huge : add_count (count_of 0) (2 ^ 29) <> count_of (2 ^ 29).
Proof. vm_compute. intros [=]. Qed.
