(* ===== verification/Stm.v ===== *)
(** * Shared versions of a message (src/lualib/lstm.c)

    A writer publishes versions of a message in an [stm_object]; readers in
    other services take copies of the current version.  Objects and versions
    are counted.  The model is a step relation: the writer and any number of
    readers interleave between the accesses to the shared counters; the
    reader-writer lock is taken in one step when it is free
    ([Lock.rwlock_exclusion] justifies it).  Addresses of freed memory are
    given out again, and every access to freed memory is a fault. *)

From S2P Require Import Prelude.

(** ** Data *)

Notation addr := Z (only parsing).

Record stm_copy := Copy { c_reference : Z; c_sz : Z; c_msg : addr }.

(** [lock], [reference] and [copy]; [o_read] counts the holders of the lock
    for reading. *)
Record stm_object := Object { o_read : Z; o_write : bool; o_reference : Z; o_copy : option addr }.

(** Memory: versions and messages. *)
Inductive cell := CopyCell (c : stm_copy) | MsgCell (data : list Z).
Notation heap := (gmap Z cell) (only parsing).

(** What an access can run into. *)
Inductive fault := FObject | FCopy | FMsg | FAssert.
Inductive outcome (A : Type) := Blocked | Fault (f : fault) | Next (a : A).
Arguments Blocked {A}.
Arguments Fault {A} f.
Arguments Next {A} a.

#[global] Instance outcome_ret : MRet outcome := fun A a => Next a.
#[global] Instance outcome_bind : MBind outcome := fun A B f o =>
  match o with Blocked => Blocked | Fault e => Fault e | Next a => f a end.

(** The writer between its accesses.  [WIdle] is outside a call, [WGone] after
    [ldeletewriter]; the others are in [stm_grab], [stm_update], [stm_release]. *)
Inductive wpc :=
  | WIdle
  | WGrabLock | WGrab | WGrabbed (ref : Z)
  | WUpdateLock (copy : addr) | WSwap (copy : addr) | WSwapped (old : option addr) | WReleaseOld (old : option addr)
  | WReleaseLock | WRelease | WDrop | WUnlock
  | WGone.

(** A reader: in [lread] ([stm_copy], then the comparison and the call of the
    Lua function) and [ldeletereader] ([stm_releasereader], then the last copy). *)
Inductive rpc :=
  | RIdle
  | RCopyLock | RRead | RAdd (ret : option addr) | RCopied (ret : option addr) | RCompare (ret : option addr) | RCall
  | RReleaseLock | RSub | RUnlock | RReleaseCopy
  | RGone.

(** [boxreader]; [r_got] is what the Lua function was last called with. *)
Record reader := Reader { r_pc : rpc; r_last : option addr; r_got : option (list Z) }.

(** [tokens] are the pointers that [lcopy] returned and no [lnewreader] has
    taken yet. *)
Record stm := Stm { obj : option stm_object; mem : heap; writer : wpc; tokens : Z; readers : list reader }.

Definition set_obj (s : stm) (o : option stm_object) : stm := Stm o (mem s) (writer s) (tokens s) (readers s).
Definition set_mem (s : stm) (h : heap) : stm := Stm (obj s) h (writer s) (tokens s) (readers s).
Definition set_writer (s : stm) (p : wpc) : stm := Stm (obj s) (mem s) p (tokens s) (readers s).
Definition set_tokens (s : stm) (n : Z) : stm := Stm (obj s) (mem s) (writer s) n (readers s).
Definition set_reader (s : stm) (i : nat) (r : reader) : stm :=
  Stm (obj s) (mem s) (writer s) (tokens s) (<[i := r]> (readers s)).

(** ** Operations *)

Definition the_object (s : stm) : outcome stm_object := match obj s with Some o => Next o | None => Fault FObject end.

Definition stm_newcopy (h : heap) (a msg : addr) (data : list Z) : heap :=
  <[a := CopyCell (Copy 1 (u32 (zlen data)) msg)]> (<[msg := MsgCell data]> h).

Definition stm_releasecopy (h : heap) (copy : option addr) : outcome heap :=
  match copy with
  | None => Next h
  | Some a =>
      match h !! a with
      | Some (CopyCell c) =>
          let ref := c_reference c - 1 in
          if ref =? 0 then
            match h !! c_msg c with
            | Some (MsgCell _) => Next (delete a (delete (c_msg c) h))
            | _ => Fault FMsg
            end
          else Next (<[a := CopyCell (Copy ref (c_sz c) (c_msg c))]> h)
      | _ => Fault FCopy
      end
  end.

(** [__sync_fetch_and_add(&ret->reference,1)] and the assertion after it. *)
Definition grab_copy (h : heap) (ret : option addr) : outcome heap :=
  match ret with
  | None => Next h
  | Some a =>
      match h !! a with
      | Some (CopyCell c) =>
          if c_reference c >? 0 then Next (<[a := CopyCell (Copy (c_reference c + 1) (c_sz c) (c_msg c))]> h)
          else Fault FAssert
      | _ => Fault FCopy
      end
  end.

Definition rwlock_rlock (o : stm_object) : outcome stm_object :=
  if o_write o then Blocked else Next (Object (o_read o + 1) (o_write o) (o_reference o) (o_copy o)).
Definition rwlock_runlock (o : stm_object) : stm_object := Object (o_read o - 1) (o_write o) (o_reference o) (o_copy o).
Definition rwlock_wlock (o : stm_object) : outcome stm_object :=
  if o_write o || negb (o_read o =? 0) then Blocked else Next (Object (o_read o) true (o_reference o) (o_copy o)).
Definition rwlock_wunlock (o : stm_object) : stm_object := Object (o_read o) false (o_reference o) (o_copy o).

Definition set_reference (o : stm_object) (n : Z) : stm_object := Object (o_read o) (o_write o) n (o_copy o).
Definition set_copy (o : stm_object) (c : option addr) : stm_object := Object (o_read o) (o_write o) (o_reference o) c.

(** [stm_new]: an object with its first version, as [lnewwriter] makes it. *)
Definition stm_new (a msg : addr) (data : list Z) : stm :=
  Stm (Some (Object 0 false 1 (Some a))) (stm_newcopy ∅ a msg data) WIdle 0 [].

(** The next access of the writer, by the call it is in. *)
Definition stm_grab (s : stm) : outcome stm :=
  match writer s with
  | WGrabLock => o ← the_object s; o ← rwlock_rlock o; Next (set_writer (set_obj s (Some o)) WGrab)
  | WGrab =>
      o ← the_object s;
      Next (set_writer (set_obj s (Some (set_reference o (o_reference o + 1)))) (WGrabbed (o_reference o)))
  | WGrabbed ref =>
      o ← the_object s;
      if ref >? 0 then
        Next (set_tokens (set_writer (set_obj s (Some (rwlock_runlock o))) WIdle) (tokens s + 1))
      else Fault FAssert
  | _ => Blocked
  end.

Definition stm_update (s : stm) : outcome stm :=
  match writer s with
  | WUpdateLock c => o ← the_object s; o ← rwlock_wlock o; Next (set_writer (set_obj s (Some o)) (WSwap c))
  | WSwap c =>
      o ← the_object s;
      Next (set_writer (set_obj s (Some (set_copy o (Some c)))) (WSwapped (o_copy o)))
  | WSwapped old =>
      o ← the_object s; Next (set_writer (set_obj s (Some (rwlock_wunlock o))) (WReleaseOld old))
  | WReleaseOld old => h ← stm_releasecopy (mem s) old; Next (set_writer (set_mem s h) WIdle)
  | _ => Blocked
  end.

Definition stm_release (s : stm) : outcome stm :=
  match writer s with
  | WReleaseLock =>
      o ← the_object s;
      match o_copy o with
      | None => Fault FAssert
      | Some _ => o ← rwlock_wlock o; Next (set_writer (set_obj s (Some o)) WRelease)
      end
  | WRelease =>
      o ← the_object s; h ← stm_releasecopy (mem s) (o_copy o); Next (set_writer (set_mem s h) WDrop)
  | WDrop =>
      o ← the_object s;
      let o := set_reference (set_copy o None) (o_reference o - 1) in
      if o_reference o >? 0 then Next (set_writer (set_obj s (Some o)) WUnlock)
      else Next (set_writer (set_obj s None) WGone)
  | WUnlock => o ← the_object s; Next (set_writer (set_obj s (Some (rwlock_wunlock o))) WGone)
  | _ => Blocked
  end.

Definition wstep (s : stm) : outcome stm :=
  match writer s with
  | WIdle | WGone => Blocked
  | WGrabLock | WGrab | WGrabbed _ => stm_grab s
  | WUpdateLock _ | WSwap _ | WSwapped _ | WReleaseOld _ => stm_update s
  | WReleaseLock | WRelease | WDrop | WUnlock => stm_release s
  end.

(** The next access of a reader: the system, and the reader after it. *)
Definition goto (r : reader) (p : rpc) : reader := Reader p (r_last r) (r_got r).

Definition stm_copy_of (s : stm) (r : reader) : outcome (stm * reader) :=
  match r_pc r with
  | RCopyLock => o ← the_object s; o ← rwlock_rlock o; Next (set_obj s (Some o), goto r RRead)
  | RRead => o ← the_object s; Next (s, goto r (RAdd (o_copy o)))
  | RAdd ret => h ← grab_copy (mem s) ret; Next (set_mem s h, goto r (RCopied ret))
  | RCopied ret => o ← the_object s; Next (set_obj s (Some (rwlock_runlock o)), goto r (RCompare ret))
  | _ => Blocked
  end.

(** [lread] after [stm_copy]; the Lua function reads the message. *)
Definition lread (s : stm) (r : reader) : outcome (stm * reader) :=
  match r_pc r with
  | RCompare ret =>
      if decide (ret = r_last r) then
        h ← stm_releasecopy (mem s) ret; Next (set_mem s h, goto r RIdle)
      else
        h ← stm_releasecopy (mem s) (r_last r);
        Next (set_mem s h, Reader (match ret with Some _ => RCall | None => RIdle end) ret (r_got r))
  | RCall =>
      match r_last r with
      | None => Fault FCopy
      | Some a =>
          match mem s !! a with
          | Some (CopyCell c) =>
              match mem s !! c_msg c with
              | Some (MsgCell data) => Next (s, Reader RIdle (r_last r) (Some data))
              | _ => Fault FMsg
              end
          | _ => Fault FCopy
          end
      end
  | _ => Blocked
  end.

Definition stm_releasereader (s : stm) (r : reader) : outcome (stm * reader) :=
  match r_pc r with
  | RReleaseLock => o ← the_object s; o ← rwlock_rlock o; Next (set_obj s (Some o), goto r RSub)
  | RSub =>
      o ← the_object s;
      let o := set_reference o (o_reference o - 1) in
      if o_reference o =? 0 then
        match o_copy o with None => Next (set_obj s None, goto r RReleaseCopy) | Some _ => Fault FAssert end
      else Next (set_obj s (Some o), goto r RUnlock)
  | RUnlock => o ← the_object s; Next (set_obj s (Some (rwlock_runlock o)), goto r RReleaseCopy)
  | _ => Blocked
  end.

(** [ldeletereader] after [stm_releasereader]. *)
Definition ldeletereader (s : stm) (r : reader) : outcome (stm * reader) :=
  h ← stm_releasecopy (mem s) (r_last r); Next (set_mem s h, Reader RGone None (r_got r)).

Definition rstep (s : stm) (r : reader) : outcome (stm * reader) :=
  match r_pc r with
  | RIdle | RGone => Blocked
  | RCopyLock | RRead | RAdd _ | RCopied _ => stm_copy_of s r
  | RCompare _ | RCall => lread s r
  | RReleaseLock | RSub | RUnlock => stm_releasereader s r
  | RReleaseCopy => ldeletereader s r
  end.

(** One step of the system: a Lua call begins, or a thread makes an access. *)
Inductive step : stm -> stm -> Prop :=
  | step_lcopy s : writer s = WIdle -> step s (set_writer s WGrabLock)
  | step_lupdate s a msg data :
      writer s = WIdle -> mem s !! a = None -> mem s !! msg = None -> a <> msg ->
      step s (set_writer (set_mem s (stm_newcopy (mem s) a msg data)) (WUpdateLock a))
  | step_ldeletewriter s : writer s = WIdle -> step s (set_writer s WReleaseLock)
  | step_writer s s' : wstep s = Next s' -> step s s'
  | step_lnewreader s :
      0 < tokens s ->
      step s (Stm (obj s) (mem s) (writer s) (tokens s - 1) (readers s ++ [Reader RIdle None None]))
  | step_lread s i r :
      readers s !! i = Some r -> r_pc r = RIdle -> step s (set_reader s i (Reader RCopyLock (r_last r) (r_got r)))
  | step_ldeletereader s i r :
      readers s !! i = Some r -> r_pc r = RIdle -> step s (set_reader s i (Reader RReleaseLock (r_last r) (r_got r)))
  | step_reader s i r s' r' :
      readers s !! i = Some r -> rstep s r = Next (s', r') -> step s (set_reader s' i r').

(** ** What the counters count *)

Definition holds (c : option addr) (a : addr) : bool := bool_decide (c = Some a).

(** The version that a thread holds besides the reader's last one. *)
Definition w_holds (p : wpc) : option addr :=
  match p with
  | WUpdateLock c | WSwap c => Some c
  | WSwapped old | WReleaseOld old => old
  | _ => None
  end.
Definition r_holds (p : rpc) : option addr :=
  match p with RCopied ret | RCompare ret => ret | _ => None end.

(** The version the object holds: none between its release and the reset. *)
Definition o_holds (s : stm) : option addr :=
  match obj s, writer s with
  | None, _ | _, WDrop => None
  | Some o, _ => o_copy o
  end.

Definition holders (s : stm) (a : addr) : Z :=
  Z.b2z (holds (o_holds s) a) + Z.b2z (holds (w_holds (writer s)) a) +
  countb (fun r => holds (r_last r) a) (readers s) + countb (fun r => holds (r_holds (r_pc r)) a) (readers s).

(** The writer has not released the object; the reader has not. *)
Definition w_live (p : wpc) : bool := match p with WUnlock | WGone => false | _ => true end.
Definition w_grabbed (p : wpc) : bool := match p with WGrabbed _ => true | _ => false end.
Definition r_live (r : reader) : bool := match r_pc r with RUnlock | RReleaseCopy | RGone => false | _ => true end.

Definition references (s : stm) : Z :=
  Z.b2z (w_live (writer s)) + Z.b2z (w_grabbed (writer s)) + tokens s + countb r_live (readers s).

(** Who holds the lock. *)
Definition w_reads (p : wpc) : bool := match p with WGrab | WGrabbed _ => true | _ => false end.
Definition w_writes (p : wpc) : bool :=
  match p with WSwap _ | WSwapped _ | WRelease | WDrop | WUnlock => true | _ => false end.
Definition r_reads (r : reader) : bool :=
  match r_pc r with RRead | RAdd _ | RCopied _ | RSub | RUnlock => true | _ => false end.
Definition lock_readers (s : stm) : Z := Z.b2z (w_reads (writer s)) + countb r_reads (readers s).

(** Memory holds a version while it has a holder, and the message of each. *)
Record heap_ok (h : heap) (count : addr -> Z) : Prop := {
  h_held a : 0 < count a -> exists c data, h !! a = Some (CopyCell c) /\ c_reference c = count a /\
    h !! c_msg c = Some (MsgCell data);
  h_copy a c : h !! a = Some (CopyCell c) -> 0 < count a;
  h_msg m data : h !! m = Some (MsgCell data) -> exists a c, h !! a = Some (CopyCell c) /\ c_msg c = m;
  h_own a b c d : h !! a = Some (CopyCell c) -> h !! b = Some (CopyCell d) -> c_msg c = c_msg d -> a = b
}.

Definition content (h : heap) (a : addr) : option (list Z) :=
  match h !! a with
  | Some (CopyCell c) => match h !! c_msg c with Some (MsgCell data) => Some data | _ => None end
  | _ => None
  end.

(** What a reader knows: the version it is about to count is the current one,
    and its last version is the one its function was called with. *)
Definition reader_ok (o : option stm_object) (h : heap) (r : reader) : Prop :=
  match r_pc r with
  | RAdd ret => exists o', o = Some o' /\ o_copy o' = ret
  | RGone => r_last r = None
  | _ => True
  end /\ match r_last r with
  | Some a => match r_pc r with RCall => True | _ => r_got r = content h a end
  | None => r_pc r <> RCall
  end.

Record object_ok (s : stm) (o : stm_object) : Prop := {
  ob_reference : o_reference o = references s;
  ob_read : o_read o = lock_readers s;
  ob_write : o_write o = w_writes (writer s);
  ob_excl : o_write o = true -> o_read o = 0;
  ob_copy : is_Some (o_copy o) <-> w_live (writer s) = true
}.

Record stm_inv (s : stm) : Prop := {
  si_tokens : 0 <= tokens s;
  si_obj : match obj s with Some o => 0 < references s /\ object_ok s o | None => references s = 0 end;
  si_locked : w_writes (writer s) = true -> is_Some (obj s);
  si_grabbed : match writer s with WGrabbed ref => 0 < ref | _ => True end;
  si_heap : heap_ok (mem s) (holders s);
  si_readers i r : readers s !! i = Some r -> reader_ok (obj s) (mem s) r
}.

(** ** Memory *)

#[local] Arguments holds : simpl never.
Lemma holds_None a : holds None a = false.
Proof. done. Qed.
Lemma holds_eq a : holds (Some a) a = true.
Proof. by apply bool_decide_eq_true. Qed.
Lemma holds_ne a b : a <> b -> holds (Some a) b = false.
Proof. intros H. apply bool_decide_eq_false. by intros [=]. Qed.

Lemma heap_ok_ext h f g : (forall a, f a = g a) -> heap_ok h f -> heap_ok h g.
Proof.
  intros E [H1 H2 H3 H4]. split; [|intros a c Hc; rewrite <- E; by eapply H2|done|done].
  intros a. rewrite <- E. apply H1.
Qed.

(** Changing the counter of a version does not change what others see. *)
Lemma heap_ok_counter h f g a c :
  heap_ok h f -> h !! a = Some (CopyCell c) -> (forall b, b <> a -> g b = f b) -> 0 < g a ->
  heap_ok (<[a := CopyCell (Copy (g a) (c_sz c) (c_msg c))]> h) g /\
  forall b, content (<[a := CopyCell (Copy (g a) (c_sz c) (c_msg c))]> h) b = content h b.
Proof.
  intros [H1 H2 H3 H4] Ha Hg Hpos. set (h' := <[a := _]> h).
  assert (forall b d, h' !! b = Some (CopyCell d) -> exists d', h !! b = Some (CopyCell d') /\ c_msg d' = c_msg d) as Hc.
  { intros b d. subst h'. destruct (decide (b = a)) as [->|Hne].
    - rewrite lookup_insert_eq. intros [= <-]. by exists c.
    - rewrite lookup_insert_ne by done. intros Hd. by exists d. }
  assert (forall m d, h' !! m = Some (MsgCell d) <-> h !! m = Some (MsgCell d)) as Hm.
  { intros m d. subst h'. destruct (decide (m = a)) as [->|Hne]; [rewrite lookup_insert_eq, Ha; split; discriminate|].
    by rewrite lookup_insert_ne. }
  split; [split|].
  - intros b Hb. destruct (decide (b = a)) as [->|Hne].
    + destruct (H1 a (H2 a c Ha)) as (c' & d & Ec & _ & Ed). rewrite Ha in Ec. injection Ec as <-.
      exists (Copy (g a) (c_sz c) (c_msg c)), d. subst h'. rewrite lookup_insert_eq. split_and!; [done|done|]. by apply Hm.
    + rewrite Hg in Hb |- * by done. destruct (H1 b Hb) as (c' & d & Ec & Er & Ed). exists c', d.
      split_and!; [subst h'; by rewrite lookup_insert_ne|done|by apply Hm].
  - intros b d Hd. destruct (decide (b = a)) as [->|Hne]; [done|]. rewrite Hg by done.
    destruct (Hc b d Hd) as (d' & Hd' & _). by eapply H2.
  - intros m d Hd%Hm. destruct (H3 m d Hd) as (b & d' & Hb & Eb). subst h'. destruct (decide (b = a)) as [->|Hne].
    + eexists a, _. rewrite lookup_insert_eq. split; [done|]. cbn. rewrite Ha in Hb. by injection Hb as <-.
    + exists b, d'. by rewrite lookup_insert_ne.
  - intros b b' d d' Hb Hb' E. destruct (Hc b d Hb) as (e & He & Ee). destruct (Hc b' d' Hb') as (e' & He' & Ee').
    apply (H4 b b' e e' He He'). congruence.
  - intros b. unfold content. subst h'. destruct (decide (b = a)) as [->|Hne].
    + rewrite lookup_insert_eq, Ha. cbn. destruct (decide (c_msg c = a)) as [->|Hne]; [by rewrite lookup_insert_eq, Ha|].
      by rewrite lookup_insert_ne.
    + rewrite lookup_insert_ne by done. destruct (h !! b) as [[d|]|] eqn:Eb; [|done|done].
      destruct (decide (c_msg d = a)) as [->|Hne']; [by rewrite lookup_insert_eq, Ha|]. by rewrite lookup_insert_ne.
Qed.

(** Giving up a version. *)
Lemma heap_release h f c : heap_ok h f ->
  match c with Some a => 0 < f a | None => True end ->
  exists h', stm_releasecopy h c = Next h' /\ heap_ok h' (fun b => f b - Z.b2z (holds c b)) /\
    forall b, 0 < f b - Z.b2z (holds c b) -> content h' b = content h b.
Proof.
  intros Hok Hc. destruct c as [a|]; [|eexists; split; [done|]; split; [|done]; by eapply heap_ok_ext; [|done]; intros b; rewrite holds_None; cbn; lia].
  pose proof (h_held _ _ Hok a Hc) as (c & data & Ea & Er & Em). cbn [stm_releasecopy]. rewrite Ea, Em. cbv zeta.
  destruct (Z.eqb_spec (c_reference c - 1) 0) as [E1|E1].
  - eexists. split; [done|].
    assert (forall b x, delete a (delete (c_msg c) h) !! b = Some x <-> h !! b = Some x /\ b <> a /\ b <> c_msg c) as Hd.
    { intros b x. rewrite !lookup_delete_Some. naive_solver. }
    assert (forall b, 0 < f b - Z.b2z (holds (Some a) b) -> b <> a) as Hne.
    { intros b Hb ->. rewrite holds_eq in Hb. cbn in Hb. lia. }
    assert (forall b d, b <> a -> h !! b = Some (CopyCell d) -> c_msg d <> c_msg c /\ c_msg d <> a) as Hmsg.
    { intros b d Hb Hbd. split; intros E; [by apply Hb, (h_own _ _ Hok b a d c)|].
      destruct (h_held _ _ Hok b) as (d' & x & E1' & _ & E2); [by eapply h_copy|]. rewrite Hbd in E1'. injection E1' as <-.
      rewrite E, Ea in E2. done. }
    split; [split|].
    + intros b Hb. pose proof (Hne b Hb) as Hba. rewrite holds_ne in Hb |- * by done. cbn [Z.b2z] in *.
      rewrite Z.sub_0_r in *. destruct (h_held _ _ Hok b Hb) as (d & x & E2 & E3 & E4). exists d, x.
      destruct (Hmsg b d Hba E2). rewrite !Hd. split_and!; try done. intros ->. rewrite Em in E2. done.
    + intros b d (Hb & Hba & _)%Hd. rewrite holds_ne by done. pose proof (h_copy _ _ Hok b d Hb). cbn. lia.
    + intros m d (Hm & Hma & Hmc)%Hd. destruct (h_msg _ _ Hok m d Hm) as (b & e & Hb & He). exists b, e. split; [|done].
      apply Hd. split_and!; [done|intros ->; rewrite Ea in Hb; congruence|intros ->; rewrite Em in Hb; congruence].
    + intros b b' d d' (Hb & _)%Hd (Hb' & _)%Hd. by apply (h_own _ _ Hok).
    + intros b Hb. pose proof (Hne b Hb) as Hba. rewrite holds_ne in Hb by done. cbn [Z.b2z] in Hb.
      destruct (h_held _ _ Hok b ltac:(lia)) as (d & x & E2 & E3 & E4). destruct (Hmsg b d Hba E2). unfold content.
      assert (delete a (delete (c_msg c) h) !! b = Some (CopyCell d)) as ->
        by (apply Hd; split_and!; [done|done|intros ->; rewrite Em in E2; done]).
      assert (delete a (delete (c_msg c) h) !! c_msg d = Some (MsgCell x)) as -> by by apply Hd.
      by rewrite E2, E4.
  - rewrite Er in *. eexists. split; [done|].
    set (g := fun b => f b - Z.b2z (holds (Some a) b)).
    replace (f a - 1) with (g a) by (subst g; cbv beta; by rewrite holds_eq).
    destruct (heap_ok_counter h f g a c Hok Ea) as [H1 H2].
    + intros b Hb. subst g. cbv beta. rewrite holds_ne by done. apply Z.sub_0_r.
    + subst g. cbv beta. rewrite holds_eq. cbn. lia.
    + split; [exact H1|]. intros b _. apply H2.
Qed.

(** Taking a version that has a holder. *)
Lemma heap_grab h f c : heap_ok h f ->
  match c with Some a => 0 < f a | None => True end ->
  exists h', grab_copy h c = Next h' /\ heap_ok h' (fun b => f b + Z.b2z (holds c b)) /\
    forall b, content h' b = content h b.
Proof.
  intros Hok Hc. destruct c as [a|]; [|eexists; split; [done|]; split; [|done]; by eapply heap_ok_ext; [|done]; intros b; rewrite holds_None; cbn; lia].
  pose proof (h_held _ _ Hok a Hc) as (c & data & Ea & Er & Em). cbn [grab_copy]. rewrite Ea, Er.
  destruct (Z.gtb_spec (f a) 0); [|lia]. eexists. split; [done|].
  set (g := fun b => f b + Z.b2z (holds (Some a) b)).
  replace (f a + 1) with (g a) by (subst g; cbv beta; by rewrite holds_eq).
  apply heap_ok_counter with f; [done|done| |].
  - intros b Hb. subst g. cbv beta. rewrite holds_ne by done. apply Z.add_0_r.
  - subst g. cbv beta. rewrite holds_eq. cbn. lia.
Qed.

(** A new version, at addresses that are not in use. *)
Lemma heap_new h f a m data : heap_ok h f -> (forall b, 0 <= f b) ->
  h !! a = None -> h !! m = None -> a <> m ->
  heap_ok (stm_newcopy h a m data) (fun b => f b + Z.b2z (holds (Some a) b)) /\
  forall b, 0 < f b -> content (stm_newcopy h a m data) b = content h b.
Proof.
  intros Hok Hf Ha Hm Ham. unfold stm_newcopy. set (c0 := Copy 1 _ m).
  assert (f a = 0) as Hfa.
  { destruct (Z.eq_dec (f a) 0); [done|]. destruct (h_held _ _ Hok a) as (c & x & E & _); [specialize (Hf a); lia|]. congruence. }
  assert (forall b x, h !! b = Some x -> <[a := CopyCell c0]> (<[m := MsgCell data]> h) !! b = Some x) as Hold.
  { intros b x Hb. rewrite !lookup_insert_ne; [done|congruence|congruence]. }
  assert (forall b d, <[a := CopyCell c0]> (<[m := MsgCell data]> h) !! b = Some (CopyCell d) ->
    (b = a /\ d = c0) \/ h !! b = Some (CopyCell d)) as Hcopy.
  { intros b d. rewrite lookup_insert_Some, lookup_insert_Some. naive_solver. }
  split; [split|].
  - intros b Hb. destruct (decide (b = a)) as [->|Hne].
    + exists c0, data. rewrite holds_eq, Hfa. split_and!; [by rewrite lookup_insert_eq|done|].
      rewrite lookup_insert_ne by done. apply lookup_insert_eq.
    + rewrite holds_ne in Hb |- * by done. cbn [Z.b2z] in *. rewrite Z.add_0_r in *.
      destruct (h_held _ _ Hok b Hb) as (c & x & E1 & E2 & E3). exists c, x. split_and!; auto.
  - intros b d [[-> ->]|Hb]%Hcopy; [rewrite holds_eq; cbn; lia|]. pose proof (h_copy _ _ Hok b d Hb).
    specialize (Hf b). destruct (holds (Some a) b); cbn; lia.
  - intros m' d. rewrite !lookup_insert_Some. intros [[_ [=]]|[_ [[<- [= <-]]|[_ Hm']]]].
    + exists a, c0. rewrite lookup_insert_eq. done.
    + destruct (h_msg _ _ Hok m' d Hm') as (b & c & Hb & Hc). exists b, c. auto.
  - assert (forall b d, h !! b = Some (CopyCell d) -> c_msg d <> m) as Hfresh.
    { intros b d Hb E. destruct (h_held _ _ Hok b) as (c & x & E1 & _ & E3); [by eapply h_copy|]. congruence. }
    intros b b' d d' [[-> ->]|Hb]%Hcopy [[-> ->]|Hb']%Hcopy E; [done| | |by eapply (h_own _ _ Hok)].
    + by destruct (Hfresh b' d' Hb').
    + by destruct (Hfresh b d Hb).
  - intros b Hb. destruct (h_held _ _ Hok b Hb) as (c & x & E1 & _ & E3). unfold content.
    by rewrite (Hold b _ E1), (Hold _ _ E3), E1, E3.
Qed.

(** ** The writer's steps *)

Lemma holders_nonneg s a : 0 <= holders s a.
Proof.
  unfold holders. pose proof (countb_nonneg (fun r => holds (r_last r) a) (readers s)).
  pose proof (countb_nonneg (fun r => holds (r_holds (r_pc r)) a) (readers s)).
  destruct (holds (o_holds s) a), (holds (w_holds (writer s)) a); cbn; lia.
Qed.

Lemma holders_last s i r a : readers s !! i = Some r -> r_last r = Some a -> 0 < holders s a.
Proof.
  intros Hi Ha. unfold holders. pose proof (countb_nonneg (fun r => holds (r_holds (r_pc r)) a) (readers s)).
  pose proof (countb_pos (fun r => holds (r_last r) a) (readers s) i r Hi) as Hp. cbv beta in Hp.
  rewrite Ha, holds_eq in Hp. specialize (Hp eq_refl).
  destruct (holds (o_holds s) a), (holds (w_holds (writer s)) a); cbn; lia.
Qed.

Lemma holders_pc s i r a : readers s !! i = Some r -> r_holds (r_pc r) = Some a -> 0 < holders s a.
Proof.
  intros Hi Ha. unfold holders. pose proof (countb_nonneg (fun r => holds (r_last r) a) (readers s)).
  pose proof (countb_pos (fun r => holds (r_holds (r_pc r)) a) (readers s) i r Hi) as Hp. cbv beta in Hp.
  rewrite Ha, holds_eq in Hp. specialize (Hp eq_refl).
  destruct (holds (o_holds s) a), (holds (w_holds (writer s)) a); cbn; lia.
Qed.

Lemma holders_object s a : o_holds s = Some a -> 0 < holders s a.
Proof.
  intros Ha. unfold holders. rewrite Ha, holds_eq. pose proof (countb_nonneg (fun r => holds (r_last r) a) (readers s)).
  pose proof (countb_nonneg (fun r => holds (r_holds (r_pc r)) a) (readers s)).
  destruct (holds (w_holds (writer s)) a); cbn; lia.
Qed.

Lemma holders_writer s a : w_holds (writer s) = Some a -> 0 < holders s a.
Proof.
  intros Ha. unfold holders. rewrite Ha, holds_eq. pose proof (countb_nonneg (fun r => holds (r_last r) a) (readers s)).
  pose proof (countb_nonneg (fun r => holds (r_holds (r_pc r)) a) (readers s)).
  destruct (holds (o_holds s) a); cbn; lia.
Qed.

Lemma reader_ok_mem o h h' r : reader_ok o h r ->
  (forall a, r_last r = Some a -> content h' a = content h a) -> reader_ok o h' r.
Proof.
  intros [H1 H2] Hc. split; [done|]. destruct (r_last r) as [a|] eqn:E; [|done].
  specialize (Hc a eq_refl). destruct (r_pc r); try done; congruence.
Qed.

Lemma reader_ok_obj o o' h r : reader_ok (Some o) h r ->
  (r_reads r = true -> o_copy o' = o_copy o) -> reader_ok (Some o') h r.
Proof.
  intros [H1 H2] Hc. split; [|done]. unfold r_reads in Hc. destruct (r_pc r); try done.
  destruct H1 as (o1 & [= <-] & <-). exists o'. split; [done|auto].
Qed.

(** A thread that holds a reference finds the object. *)
Lemma writer_object s : stm_inv s -> w_live (writer s) = true -> exists o, obj s = Some o /\ object_ok s o.
Proof.
  intros [Ht Ho _ _ _ _] Hw. destruct (obj s) as [o|]; [exists o; split; [done|apply Ho]|].
  unfold references in Ho. rewrite Hw in Ho. pose proof (countb_nonneg r_live (readers s)).
  destruct (w_grabbed (writer s)); cbn in Ho; lia.
Qed.

Lemma reader_object s i r : stm_inv s -> readers s !! i = Some r -> r_live r = true ->
  exists o, obj s = Some o /\ object_ok s o.
Proof.
  intros [Ht Ho _ _ _ _] Hi Hr. destruct (obj s) as [o|]; [exists o; split; [done|apply Ho]|].
  unfold references in Ho. pose proof (countb_pos r_live (readers s) i r Hi Hr).
  destruct (w_live (writer s)), (w_grabbed (writer s)); cbn in Ho; lia.
Qed.

(** While the writer holds the lock no reader does. *)
Lemma writer_excludes s o i r : object_ok s o -> w_writes (writer s) = true -> readers s !! i = Some r -> r_reads r = false.
Proof.
  intros [_ Hr Hw Hx _] Hww Hi. destruct (r_reads r) eqn:E; [|done]. pose proof (countb_pos r_reads _ i r Hi E).
  specialize (Hx ltac:(congruence)). unfold lock_readers in Hr. destruct (w_reads (writer s)); cbn in Hr; lia.
Qed.

Lemma reader_excludes s o i r : object_ok s o -> readers s !! i = Some r -> r_reads r = true -> o_write o = false.
Proof.
  intros Hob Hi Hr. destruct (o_write o) eqn:E; [|done]. rewrite (ob_write _ _ Hob) in E.
  by rewrite (writer_excludes s o i r) in Hr.
Qed.

(** The writer moves on and changes the object, not the memory. *)
Lemma writer_moves s o o' p :
  stm_inv s -> obj s = Some o -> object_ok s o ->
  object_ok (set_writer (set_obj s (Some o')) p) o' ->
  0 < references (set_writer s p) ->
  (forall a, holders (set_writer (set_obj s (Some o')) p) a = holders s a) ->
  (match p with WGrabbed ref => 0 < ref | _ => True end) ->
  (forall i r, readers s !! i = Some r -> r_reads r = true -> o_copy o' = o_copy o) ->
  stm_inv (set_writer (set_obj s (Some o')) p).
Proof.
  intros [Ht Ho Hk Hg Hh Hr] Eo Hob Hob' Href Hhold Hp Hc. split; [done|by split|done|done| |].
  - by eapply heap_ok_ext; [intros a; symmetry; apply Hhold|].
  - intros i r Hi. cbn in Hi |- *. rewrite Eo in Hr. eapply reader_ok_obj; eauto.
Qed.

Ltac counts := unfold references, lock_readers in *; cbn in *.

(** Discharges the counters of [writer_moves]. *)
Ltac move_writer o Ew Eo :=
  apply writer_moves with o; try done;
  [ split; counts; rewrite ?Ew in *; cbn in *; try done; try lia
  | counts; rewrite ?Ew in *; cbn in *; lia
  | intros ?; unfold holders, o_holds; cbn; rewrite ?Ew, ?Eo; cbn; try done; try lia
  | ..].

Ltac get_object s Hinv Ew o Eo Hob :=
  destruct (writer_object s Hinv) as (o & Eo & Hob); [by rewrite Ew|];
  unfold the_object; rewrite Eo; cbn [mbind outcome_bind].

(** The writer gives up a version. *)
Lemma writer_releases s p c h :
  stm_inv s -> w_live p = w_live (writer s) -> w_grabbed p = w_grabbed (writer s) -> w_grabbed p = false ->
  w_reads p = w_reads (writer s) -> w_writes p = w_writes (writer s) ->
  heap_ok h (fun b => holders s b - Z.b2z (holds c b)) ->
  (forall b, 0 < holders s b - Z.b2z (holds c b) -> content h b = content (mem s) b) ->
  (forall b, holders (set_writer (set_mem s h) p) b = holders s b - Z.b2z (holds c b)) ->
  stm_inv (set_writer (set_mem s h) p).
Proof.
  intros [Ht Ho Hk Hg Hh Hr] E1 E2 E3 E4 E5 Hok Hc Hhold.
  assert (references (set_writer (set_mem s h) p) = references s) as Eref by (unfold references; cbn; by rewrite E1, E2).
  split; [done| | | | |].
  - cbn [obj set_writer set_mem]. rewrite Eref. destruct (obj s) as [o|]; [|done]. destruct Ho as [? [H1 H2 H3 H4 H5]].
    split; [done|]. split; cbn; rewrite ?Eref, ?E1, ?E5; try done.
    unfold lock_readers in *. cbn. by rewrite E4.
  - cbn. by rewrite E5.
  - cbn. by destruct p.
  - by eapply heap_ok_ext; [intros a; symmetry; apply Hhold|].
  - intros i r Hi. cbn in Hi |- *. apply reader_ok_mem with (mem s); [by eapply Hr|]. intros a Ha. apply Hc.
    rewrite <- Hhold. by apply (holders_last (set_writer (set_mem s h) p) i r a).
Qed.

Lemma wstep_ok s : stm_inv s ->
  match wstep s with Blocked => True | Fault _ => False | Next s' => stm_inv s' end.
Proof.
  intros Hinv. pose proof Hinv as [Ht Ho Hk Hg Hh Hr]. pose proof (countb_nonneg r_live (readers s)).
  pose proof (countb_nonneg r_reads (readers s)). unfold wstep, stm_grab, stm_update, stm_release. destruct (writer s) eqn:Ew; try done.
  - get_object s Hinv Ew o Eo Hob. pose proof Hob as [H1 H2 H3 H4 H5]. unfold rwlock_rlock. rewrite H3, Ew. cbn.
    move_writer o Ew Eo.
  - get_object s Hinv Ew o Eo Hob. pose proof Hob as [H1 H2 H3 H4 H5]. move_writer o Ew Eo. counts; rewrite Ew in *; cbn in *; lia.
  - get_object s Hinv Ew o Eo Hob. pose proof Hob as [H1 H2 H3 H4 H5]. destruct (Z.gtb_spec ref 0); [|lia].
    split; [cbn; lia| |done|done| |].
    + cbn. split; [counts; lia|]. split; counts; rewrite ?Ew in *; cbn in *; try done; lia.
    + eapply heap_ok_ext; [|exact Hh]. intros a. unfold holders, o_holds. cbn. by rewrite Ew, Eo.
    + intros i r Hi. cbn in Hi |- *. rewrite Eo in Hr. eapply reader_ok_obj; eauto.
  - get_object s Hinv Ew o Eo Hob. pose proof Hob as [H1 H2 H3 H4 H5]. unfold rwlock_wlock. rewrite H3, Ew. cbn.
    destruct (Z.eqb_spec (o_read o) 0); cbn; [|done]. move_writer o Ew Eo.
  - get_object s Hinv Ew o Eo Hob. pose proof Hob as [H1 H2 H3 H4 H5]. move_writer o Ew Eo.
    intros i r Hi Hrd. rewrite (writer_excludes s o i r) in Hrd; [done|done|by rewrite Ew|done].
  - get_object s Hinv Ew o Eo Hob. pose proof Hob as [H1 H2 H3 H4 H5]. move_writer o Ew Eo.
  - destruct (heap_release (mem s) (holders s) old Hh) as (h & -> & Hh' & Hc).
    { destruct old; [|done]. apply holders_writer. by rewrite Ew. } cbn [mbind outcome_bind].
    apply writer_releases with old; rewrite ?Ew; try done. intros b. unfold holders, o_holds. cbn. rewrite Ew. cbn. rewrite holds_None. cbn. lia.
  - get_object s Hinv Ew o Eo Hob. pose proof Hob as [H1 H2 H3 H4 H5]. destruct (o_copy o) as [c|] eqn:Ec.
    + unfold rwlock_wlock. rewrite H3, Ew. cbn. destruct (Z.eqb_spec (o_read o) 0); cbn; [|done]. move_writer o Ew Eo.
    + destruct H5 as [_ H5]. rewrite Ew in H5. by destruct H5.
  - get_object s Hinv Ew o Eo Hob.
    destruct (heap_release (mem s) (holders s) (o_copy o) Hh) as (h & -> & Hh' & Hc).
    { destruct (o_copy o) eqn:E; [|done]. apply holders_object. unfold o_holds. by rewrite Eo, Ew. } cbn [mbind outcome_bind].
    apply writer_releases with (o_copy o); rewrite ?Ew; try done. intros b. unfold holders, o_holds. cbn. rewrite Ew, Eo. cbn. rewrite holds_None. cbn. lia.
  - get_object s Hinv Ew o Eo Hob. pose proof Hob as [H1 H2 H3 H4 H5]. cbn [o_reference set_reference set_copy].
    destruct (Z.gtb_spec (o_reference o - 1) 0).
    + move_writer o Ew Eo.
      intros i r Hi Hrd. rewrite (writer_excludes s o i r) in Hrd; [done|done|by rewrite Ew|done].
    + assert (references (set_writer (set_obj s None) WGone) = 0) as Eref by (counts; rewrite Ew in *; cbn in *; lia).
      split; [done|exact Eref|done|done| |].
      * eapply heap_ok_ext; [|exact Hh]. intros a. unfold holders, o_holds. cbn. by rewrite Ew, Eo.
      * intros i r Hi. cbn in Hi |- *. pose proof (writer_excludes s o i r Hob) as Hx. rewrite Ew in Hx.
        specialize (Hx eq_refl Hi). destruct (Hr i r Hi) as [G1 G2]. split; [|done]. unfold r_reads in Hx. by destruct (r_pc r).
  - destruct Hk as [o Eo]; [done|]. rewrite Eo in Ho. destruct Ho as [Hpos Hob]. unfold the_object. rewrite Eo.
    cbn [mbind outcome_bind]. pose proof Hob as [H1 H2 H3 H4 H5]. move_writer o Ew Eo.
Qed.

(** ** The readers' steps *)

Lemma holders_reader s i r r' a : readers s !! i = Some r ->
  holders (set_reader s i r') a = holders s a
    - Z.b2z (holds (r_last r) a) + Z.b2z (holds (r_last r') a)
    - Z.b2z (holds (r_holds (r_pc r)) a) + Z.b2z (holds (r_holds (r_pc r')) a).
Proof. intros Hi. unfold holders, o_holds. cbn. rewrite !(countb_insert _ _ _ _ _ Hi). lia. Qed.

Lemma references_reader s i r r' : readers s !! i = Some r ->
  references (set_reader s i r') = references s - Z.b2z (r_live r) + Z.b2z (r_live r').
Proof. intros Hi. unfold references. cbn. rewrite (countb_insert _ _ _ _ _ Hi). lia. Qed.

Lemma lock_readers_reader s i r r' : readers s !! i = Some r ->
  lock_readers (set_reader s i r') = lock_readers s - Z.b2z (r_reads r) + Z.b2z (r_reads r').
Proof. intros Hi. unfold lock_readers. cbn. rewrite (countb_insert _ _ _ _ _ Hi). lia. Qed.

Lemma set_readers_ok s i r' (o : option stm_object) h :
  (forall j q, readers s !! j = Some q -> j <> i -> reader_ok o h q) -> reader_ok o h r' ->
  forall j q, <[i := r']> (readers s) !! j = Some q -> reader_ok o h q.
Proof.
  intros Ho Hi j q [(-> & -> & _)|[Hne Hj]]%list_lookup_insert_Some; [done|]. by apply (Ho j).
Qed.

(** A reader moves on and changes the object, not the memory. *)
Lemma reader_moves s i r r' o o' :
  stm_inv s -> readers s !! i = Some r -> obj s = Some o -> object_ok s o ->
  r_last r' = r_last r -> r_holds (r_pc r') = r_holds (r_pc r) ->
  o_copy o' = o_copy o -> o_write o' = o_write o ->
  o_reference o' = o_reference o - Z.b2z (r_live r) + Z.b2z (r_live r') ->
  o_read o' = o_read o - Z.b2z (r_reads r) + Z.b2z (r_reads r') ->
  (o_write o = true -> r_reads r' = r_reads r) -> 0 < o_reference o' ->
  reader_ok (Some o') (mem s) r' ->
  stm_inv (set_reader (set_obj s (Some o')) i r').
Proof.
  intros [Ht Ho Hk Hg Hh Hr] Hi Eo [H1 H2 H3 H4 H5] El Eh Ec Ew Eref Erd Hex Hpos Hok.
  pose proof (references_reader (set_obj s (Some o')) i r r' Hi) as Er1.
  pose proof (lock_readers_reader (set_obj s (Some o')) i r r' Hi) as Er2.
  change (references (set_obj s (Some o'))) with (references s) in Er1.
  change (lock_readers (set_obj s (Some o'))) with (lock_readers s) in Er2.
  split; [done| |done|done| |].
  - cbn [obj set_reader set_obj]. split; [lia|]. split; [lia|lia| | |].
    + cbn. by rewrite Ew.
    + rewrite Ew. intros Hw. rewrite Erd, Hex, H4 by done. lia.
    + cbn. by rewrite Ec.
  - eapply heap_ok_ext; [|exact Hh]. intros a. rewrite (holders_reader _ i r) by done. rewrite El, Eh.
    assert (o_holds (set_obj s (Some o')) = o_holds s) as Eh' by (unfold o_holds; cbn; by rewrite Eo, Ec).
    replace (holders (set_obj s (Some o')) a) with (holders s a) by (unfold holders; by rewrite Eh').
    generalize (holders s a) (Z.b2z (holds (r_last r) a)) (Z.b2z (holds (r_holds (r_pc r)) a)). clear. lia.
  - cbn. apply set_readers_ok; [|done]. intros j q Hj Hne. rewrite Eo in Hr. by eapply reader_ok_obj; [eapply Hr|].
Qed.

(** A reader moves on and changes the memory, not the object. *)
Lemma reader_remembers s i r r' h :
  stm_inv s -> readers s !! i = Some r -> r_live r' = r_live r -> r_reads r' = r_reads r ->
  heap_ok h (fun a => holders (set_reader s i r') a) ->
  (forall a, 0 < holders (set_reader s i r') a -> content h a = content (mem s) a) ->
  reader_ok (obj s) (mem s) r' ->
  stm_inv (set_reader (set_mem s h) i r').
Proof.
  intros [Ht Ho Hk Hg Hh Hr] Hi El Erd Hok Hc Hr'.
  pose proof (references_reader (set_mem s h) i r r' Hi) as Er1.
  pose proof (lock_readers_reader (set_mem s h) i r r' Hi) as Er2.
  change (references (set_mem s h)) with (references s) in Er1.
  change (lock_readers (set_mem s h)) with (lock_readers s) in Er2. rewrite El in Er1. rewrite Erd in Er2.
  split; [done| |done|done|exact Hok|].
  - cbn [obj set_reader set_mem]. destruct (obj s) as [o|] eqn:Eo; [|lia]. destruct Ho as [Hpos [H1 H2 H3 H4 H5]].
    split; [lia|]. split; try done; lia.
  - cbn. apply set_readers_ok.
    + intros j q Hj Hne. eapply reader_ok_mem; [by eapply Hr|].
      intros a Ha. apply Hc. apply (holders_last _ j q); [|done]. cbn. by rewrite list_lookup_insert_ne.
    + eapply reader_ok_mem; [done|]. intros a Ha. apply Hc. apply (holders_last _ i r'); [|done]. cbn.
      apply list_lookup_insert_eq. by eapply lookup_lt_Some.
Qed.

Ltac reader_object s i Hinv Hi o Eo Hob :=
  destruct (reader_object s i _ Hinv Hi eq_refl) as (o & Eo & Hob); unfold the_object; rewrite Eo; cbn [mbind outcome_bind].

(** The counters after a reader's step in memory. *)
Ltac reader_counts s i Hi :=
  match goal with
  | Hok : heap_ok ?h _ |- heap_ok ?h _ => eapply heap_ok_ext; [|exact Hok]; intros ?; cbv beta
  | Hc : forall b, 0 < _ -> content ?h b = _ |- forall a, 0 < _ -> content ?h a = _ =>
      let a := fresh "a" in let Ha := fresh "Ha" in intros a Ha; apply Hc; revert Ha
  | Hc : forall b, content ?h b = _ |- forall a, 0 < _ -> content ?h a = _ => intros; apply Hc
  | |- forall a, 0 < _ -> content ?h a = content ?h a => done
  end;
  rewrite ?(holders_reader s i _ _ _ Hi); cbn; rewrite ?holds_None; cbn; try lia.

Lemma rstep_ok s i r : stm_inv s -> readers s !! i = Some r ->
  match rstep s r with
  | Blocked => True
  | Fault f => f = FObject /\ r_pc r = RUnlock /\ obj s = None
  | Next (s', r') => stm_inv (set_reader s' i r')
  end.
Proof.
  intros Hinv Hi. pose proof Hinv as [Ht Ho Hk Hg Hh Hr]. pose proof (Hr i r Hi) as Hri.
  assert (forall o, obj s = Some o -> object_ok s o -> 0 < o_reference o) as Hpos
    by (intros o Eo [-> _ _ _ _]; rewrite Eo in Ho; apply Ho).
  destruct r as [pc last got]. pose proof (fun a => holders_last s i _ a Hi) as Hlast. cbn in Hlast.
  pose proof (fun a => holders_pc s i _ a Hi) as Hpc. cbn in Hpc.
  pose proof Hri as [Hri1 Hri2]. cbn in Hri1, Hri2. unfold rstep, stm_copy_of, lread, stm_releasereader, ldeletereader, goto. cbn [r_pc r_last r_got]. destruct pc; try done.
  - reader_object s i Hinv Hi o Eo Hob.
    unfold rwlock_rlock. destruct (o_write o) eqn:Ew; [done|]. cbn [mbind outcome_bind].
    eapply reader_moves; try done; cbn; try lia; [by eapply Hpos|by split; destruct last].
  - reader_object s i Hinv Hi o Eo Hob. apply (reader_remembers s i _ _ (mem s) Hinv Hi); try done; try reader_counts s i Hi; try by destruct last.
    split; [cbn; by exists o|by destruct last].
  - destruct Hri1 as (o & Eo & Ec). destruct (heap_grab (mem s) (holders s) ret Hh) as (h & -> & Hh' & Hc).
    { destruct ret as [a|]; [|done]. apply holders_object. unfold o_holds. rewrite Eo, Ec.
      rewrite Eo in Ho. pose proof (reader_excludes s o i _ (proj2 Ho) Hi eq_refl) as Hx.
      rewrite (ob_write _ _ (proj2 Ho)) in Hx. by destruct (writer s). }
    cbn [mbind outcome_bind]. apply (reader_remembers s i _ _ h Hinv Hi); try done; try reader_counts s i Hi; try by destruct last.
  - reader_object s i Hinv Hi o Eo Hob. eapply reader_moves; try done; cbn; try lia; [|by eapply Hpos|by split; destruct last].
    intros Hw. by rewrite (reader_excludes s o i _ Hob Hi) in Hw.
  - destruct (decide (ret = last)) as [->|Hne].
    + destruct (heap_release (mem s) (holders s) last Hh) as (h & -> & Hh' & Hc).
      { destruct last; [|done]. by apply Hlast. }
      cbn [mbind outcome_bind]. apply (reader_remembers s i _ _ h Hinv Hi); try done; try reader_counts s i Hi; try by destruct last.
    + destruct (heap_release (mem s) (holders s) last Hh) as (h & -> & Hh' & Hc).
      { destruct last; [|done]. by apply Hlast. }
      cbn [mbind outcome_bind]. apply (reader_remembers s i _ _ h Hinv Hi); destruct ret; try done; try reader_counts s i Hi; try by destruct last.
  - destruct last as [a|]; [|done].
    destruct (h_held _ _ Hh a (Hlast a eq_refl)) as (c & data & E1 & _ & E2). rewrite E1, E2.
    apply (reader_remembers s i _ _ (mem s) Hinv Hi); try done; try reader_counts s i Hi; try by destruct last.
    split; [done|]. cbn. unfold content. by rewrite E1, E2.
  - reader_object s i Hinv Hi o Eo Hob.
    unfold rwlock_rlock. destruct (o_write o) eqn:Ew; [done|]. cbn [mbind outcome_bind].
    eapply reader_moves; try done; cbn; try lia; [by eapply Hpos|by split; destruct last].
  - reader_object s i Hinv Hi o Eo Hob. cbn [o_reference set_reference o_copy]. pose proof (Hpos o Eo Hob) as Hp.
    pose proof Hob as [H1 H2 H3 H4 H5]. pose proof (reader_excludes s o i _ Hob Hi eq_refl) as Hx.
    destruct (Z.eqb_spec (o_reference o - 1) 0).
    + pose proof (references_reader s i _ (Reader RReleaseCopy last got) Hi) as Er. cbn in Er.
      assert (w_live (writer s) = false) as Hlive.
      { destruct (w_live (writer s)) eqn:E; [|done]. pose proof (countb_pos r_live _ i _ Hi eq_refl).
        unfold references in H1. rewrite E in H1.
        destruct (w_grabbed (writer s)); cbn in H1; lia. }
      assert (o_copy o = None) as Ec by (apply eq_None_not_Some; rewrite H5; by rewrite Hlive).
      rewrite Ec.
      split; [done| | |done| |].
      * change (references (set_reader s i (Reader RReleaseCopy last got)) = 0). lia.
      * cbn. intros Hw. congruence.
      * eapply heap_ok_ext; [|exact Hh]. intros a. rewrite (holders_reader (set_obj s None) i _ _ a Hi). cbn. rewrite holds_None. cbn.
        assert (o_holds s = None) as En by (unfold o_holds; rewrite Eo, Ec; by destruct (writer s)).
        unfold holders. rewrite En. cbn. lia.
      * cbn. apply set_readers_ok; [|split; [done|by destruct last]]. intros j q Hj Hne. destruct (Hr j q Hj) as [G1 G2].
        split; [|done]. destruct (r_live q) eqn:Eq; [|unfold r_live in Eq; by destruct (r_pc q)].
        pose proof (countb_two r_live (readers s) i j _ q Hi Hj ltac:(done) eq_refl Eq). unfold references in H1.
        destruct (w_live (writer s)), (w_grabbed (writer s)); cbn in H1; lia.
    + eapply reader_moves; try done; cbn; try lia. by split; destruct last.
  - unfold the_object. destruct (obj s) as [o|] eqn:Eo; [|done]. destruct Ho as [Hp Hob]. cbn [mbind outcome_bind].
    eapply reader_moves; try done; cbn; try lia; [|by eapply Hpos|by split; destruct last].
    intros Hw. by rewrite (reader_excludes s o i _ Hob Hi) in Hw.
  - destruct (heap_release (mem s) (holders s) last Hh) as (h & -> & Hh' & Hc).
    { destruct last; [|done]. by apply Hlast. }
    cbn [mbind outcome_bind]. apply (reader_remembers s i _ _ h Hinv Hi); try done; try reader_counts s i Hi.
Qed.

(** ** Reachable states *)

Lemma countb_app {A} (f : A -> bool) l1 l2 : countb f (l1 ++ l2) = countb f l1 + countb f l2.
Proof. unfold countb. by rewrite filter_app, length_app, Nat2Z.inj_add. Qed.

(** A call that only begins. *)
Lemma writer_begins s p : writer s = WIdle -> p = WGrabLock \/ p = WReleaseLock -> stm_inv s -> stm_inv (set_writer s p).
Proof.
  intros Ew Hp [Ht Ho Hk Hg Hh Hr].
  assert (forall a, holders s a = holders (set_writer s p) a) as Eh
    by (intros a; unfold holders, o_holds; cbn; rewrite Ew; by destruct Hp as [-> | ->]).
  assert (references (set_writer s p) = references s) as Er
    by (unfold references; cbn; rewrite Ew; by destruct Hp as [-> | ->]).
  split; [done| | | | |done].
  - cbn [obj set_writer]. destruct (obj s) as [o|]; [|lia]. destruct Ho as [Hpos [H1 H2 H3 H4 H5]]. split; [lia|].
    rewrite Ew in *. unfold lock_readers in *. rewrite Ew in *.
    split; try (cbn; by destruct Hp as [-> | ->]). by rewrite Er.
  - cbn. by destruct Hp as [-> | ->].
  - cbn. by destruct Hp as [-> | ->].
  - by eapply heap_ok_ext.
Qed.

Lemma reader_begins s i r p : readers s !! i = Some r -> r_pc r = RIdle -> p = RCopyLock \/ p = RReleaseLock ->
  stm_inv s -> stm_inv (set_reader s i (Reader p (r_last r) (r_got r))).
Proof.
  intros Hi Er Hp Hinv. pose proof Hinv as [Ht Ho Hk Hg Hh Hr]. destruct r as [pc last got]. cbn in *. subst pc.
  destruct (Hr i _ Hi) as [_ G]. cbn in G.
  apply (reader_remembers s i _ _ (mem s) Hinv Hi); try (by destruct Hp as [-> | ->]).
  - eapply heap_ok_ext; [|exact Hh]. intros a. rewrite (holders_reader s i _ _ a Hi). destruct Hp as [-> | ->]; cbn; lia.
  - split; destruct Hp as [-> | ->]; cbn; by destruct last.
Qed.

Lemma update_begins s a m data : writer s = WIdle -> mem s !! a = None -> mem s !! m = None -> a <> m ->
  stm_inv s -> stm_inv (set_writer (set_mem s (stm_newcopy (mem s) a m data)) (WUpdateLock a)).
Proof.
  intros Ew Ha Hm Ham [Ht Ho Hk Hg Hh Hr].
  destruct (heap_new (mem s) (holders s) a m data Hh (holders_nonneg s) Ha Hm Ham) as [Hok Hc].
  split; [done| |done|done| |].
  - cbn [obj set_writer set_mem]. unfold references in *. cbn. rewrite Ew in Ho. cbn in Ho.
    destruct (obj s) as [o|]; [|done]. destruct Ho as [Hpos [H1 H2 H3 H4 H5]]. split; [done|].
    unfold lock_readers, references in *. rewrite Ew in *. by split.
  - eapply heap_ok_ext; [|exact Hok]. intros b. unfold holders, o_holds. cbn. rewrite Ew. cbn. rewrite holds_None. cbn. lia.
  - intros i r Hi. cbn in Hi |- *. eapply reader_ok_mem; [by eapply Hr|]. intros b Hb. apply Hc. by eapply holders_last.
Qed.

Lemma newreader_inv s : 0 < tokens s -> stm_inv s ->
  stm_inv (Stm (obj s) (mem s) (writer s) (tokens s - 1) (readers s ++ [Reader RIdle None None])).
Proof.
  intros Ht' [Ht Ho Hk Hg Hh Hr]. split; cbn; [lia| |done|done| |].
  - unfold references, lock_readers in *. cbn. rewrite countb_app. change (countb r_live [_]) with 1.
    destruct (obj s) as [o|]; [|lia]. destruct Ho as [Hpos [H1 H2 H3 H4 H5]]. split; [lia|].
    split; cbn; unfold references, lock_readers in *; cbn; rewrite ?countb_app; try done.
    + change (countb r_live [_]) with 1. lia.
    + change (countb r_reads [_]) with 0. lia.
  - eapply heap_ok_ext; [|exact Hh]. intros a. unfold holders, o_holds. cbn. rewrite !countb_app, !countb_cons. cbn.
    rewrite !holds_None. cbn. change (countb _ []) with 0. lia.
  - intros i r [Hi|[_ Hi]]%lookup_app_Some; [by eapply Hr|]. apply list_lookup_singleton_Some in Hi as [_ <-].
    by split.
Qed.

Lemma step_inv s s' : step s s' -> stm_inv s -> stm_inv s'.
Proof.
  intros Hst Hinv. destruct Hst as [s Ew|s a m data Ew Ha Hm Ham|s Ew|s s' E|s Ht|s i r Hi Er|s i r Hi Er|s i r s' r' Hi E].
  - apply writer_begins; auto.
  - by apply update_begins.
  - apply writer_begins; auto.
  - pose proof (wstep_ok s Hinv) as H. by rewrite E in H.
  - by apply newreader_inv.
  - apply reader_begins; auto.
  - apply reader_begins; auto.
  - pose proof (rstep_ok s i r Hinv Hi) as H. by rewrite E in H.
Qed.

Lemma stm_new_inv a m data : a <> m -> stm_inv (stm_new a m data).
Proof.
  intros Ham. split; [done| |done|done| |].
  - split; [done|]. split; try done; by split.
  - assert (heap_ok ∅ (fun _ => 0)) as H0 by (split; [lia|intros ? ?; by rewrite lookup_empty..]).
    destruct (heap_new ∅ (fun _ => 0) a m data H0) as [H _]; try done.
    eapply heap_ok_ext; [|exact H]. intros b. unfold holders. cbn. rewrite holds_None. cbn.
    change (countb _ []) with 0. lia.
  - done.
Qed.

Lemma reachable_inv a m data s : a <> m -> rtc step (stm_new a m data) s -> stm_inv s.
Proof.
  intros Ham Hs. pose proof (stm_new_inv a m data Ham) as H0. revert H0.
  induction Hs as [|s1 s2 s3 Hst _ IH]; [done|]. intros H1. by apply IH, (step_inv s1).
Qed.

(** ** Properties *)

(** Inside a call. *)
Definition w_busy (p : wpc) : bool := match p with WIdle | WGone => false | _ => true end.
Definition r_busy (p : rpc) : bool := match p with RIdle | RGone => false | _ => true end.

Definition blocked {A} (o : outcome A) : bool := match o with Blocked => true | _ => false end.

Lemma release_runs {A} h c (f : heap -> A) : blocked (h ← stm_releasecopy h c; Next (f h)) = false.
Proof. unfold stm_releasecopy. by repeat case_match. Qed.
Lemma grab_runs {A} h c (f : heap -> A) : blocked (h ← grab_copy h c; Next (f h)) = false.
Proof. unfold grab_copy. by repeat case_match. Qed.

(** The accesses that wait are those that take the lock. *)
Lemma wstep_blocked s : stm_inv s -> w_busy (writer s) = true -> blocked (wstep s) = true ->
  0 < countb r_reads (readers s).
Proof.
  intros Hinv Hb. pose proof Hinv as [Ht Ho Hk Hg Hh Hr]. pose proof (countb_nonneg r_reads (readers s)).
  pose proof (writer_object s Hinv) as Hobj. pose proof (wstep_ok s Hinv) as Hok. revert Hok.
  unfold wstep, stm_grab, stm_update, stm_release, lock_readers, the_object. destruct (writer s) eqn:Ew; try done; try (by rewrite release_runs).
  all: try (destruct Hobj as (o & Eo & Hob); [done|]; rewrite Eo; cbn [mbind outcome_bind]; pose proof Hob as [H1 H2 H3 H4 H5];
    unfold lock_readers in H2; rewrite Ew in *; cbn in H2, H3).
  - unfold rwlock_rlock. by rewrite H3.
  - done.
  - by destruct (ref >? 0).
  - unfold rwlock_wlock. rewrite H3. cbn. destruct (Z.eqb_spec (o_read o) 0); cbn; [done|]. intros; lia.
  - done.
  - done.
  - destruct (o_copy o); [|done]. unfold rwlock_wlock. rewrite H3. cbn.
    destruct (Z.eqb_spec (o_read o) 0); cbn; [done|]. intros; lia.
  - by rewrite release_runs.
  - by destruct (_ >? _).
  - destruct Hk as [o Eo]; [done|]. by rewrite Eo.
Qed.

Lemma rstep_blocked s i r : stm_inv s -> readers s !! i = Some r -> r_busy (r_pc r) = true ->
  blocked (rstep s r) = true -> w_writes (writer s) = true.
Proof.
  intros Hinv Hi Hb. pose proof (reader_object s i r Hinv Hi) as Hobj. unfold rstep, stm_copy_of, lread, stm_releasereader, ldeletereader, goto, the_object.
  destruct r as [pc last got]. cbn [r_pc r_last r_got] in *. destruct pc; try done;
    try (by rewrite release_runs); try (by rewrite grab_runs); try (by destruct (obj s)).
  - destruct Hobj as (o & Eo & Hob); [done|]. rewrite Eo. cbn [mbind outcome_bind]. unfold rwlock_rlock.
    rewrite <- (ob_write _ _ Hob). by destruct (o_write o).
  - case_decide; by rewrite release_runs.
  - by repeat case_match.
  - destruct Hobj as (o & Eo & Hob); [done|]. rewrite Eo. cbn [mbind outcome_bind]. unfold rwlock_rlock.
    rewrite <- (ob_write _ _ Hob). by destruct (o_write o).
  - destruct (obj s); [|done]. cbn. by repeat case_match.
Qed.

(** Whoever is in a call, some thread can go on. *)
Lemma progress s : stm_inv s ->
  w_busy (writer s) = true \/ (exists i r, readers s !! i = Some r /\ r_busy (r_pc r) = true) ->
  w_busy (writer s) = true /\ blocked (wstep s) = false \/
  exists i r, readers s !! i = Some r /\ r_busy (r_pc r) = true /\ blocked (rstep s r) = false.
Proof.
  intros Hinv Hb.
  assert (w_writes (writer s) = true -> w_busy (writer s) = true /\ blocked (wstep s) = false) as Hwr.
  { intros Hw. assert (w_busy (writer s) = true) as Hbw by by destruct (writer s). split; [done|].
    destruct (blocked (wstep s)) eqn:Eb; [|done]. pose proof (wstep_blocked s Hinv Hbw Eb) as Hc. exfalso.
    destruct (si_locked s Hinv Hw) as [o Eo]. pose proof (si_obj s Hinv) as Ho. rewrite Eo in Ho.
    destruct Ho as [_ [_ H2 H3 H4 _]]. rewrite H3 in H4. specialize (H4 Hw). unfold lock_readers in H2.
    destruct (w_reads (writer s)); cbn in H2; lia. }
  assert (forall i r, readers s !! i = Some r -> r_busy (r_pc r) = true ->
    w_busy (writer s) = true /\ blocked (wstep s) = false \/
    exists i r, readers s !! i = Some r /\ r_busy (r_pc r) = true /\ blocked (rstep s r) = false) as Hrd.
  { intros i r Hi Hbr. destruct (blocked (rstep s r)) eqn:Eb; [|by right; exists i, r].
    left. apply Hwr. by apply (rstep_blocked s i r). }
  destruct Hb as [Hbw|(i & r & Hi & Hbr)]; [|by apply (Hrd i r)].
  destruct (blocked (wstep s)) eqn:Eb; [|by left]. pose proof (wstep_blocked s Hinv Hbw Eb) as Hc.
  unfold countb in Hc. destruct (filter r_reads (readers s)) as [|q l] eqn:Ef; [cbn in Hc; lia|].
  assert (q ∈ filter r_reads (readers s)) as [Hq Hin]%list_elem_of_filter by (rewrite Ef; left).
  apply list_elem_of_lookup in Hin as [i Hi]. apply (Hrd i q Hi). unfold r_reads in Hq. by destruct (r_pc q).
Qed.

(** At the end nothing is left. *)
Lemma finished_empty s : stm_inv s -> writer s = WGone -> tokens s = 0 ->
  (forall i r, readers s !! i = Some r -> r_pc r = RGone) -> obj s = None /\ mem s = ∅.
Proof.
  intros [Ht Ho Hk Hg Hh Hr] Ew Et Hgone.
  assert (forall (f : reader -> bool), (forall i r, readers s !! i = Some r -> f r = false) -> countb f (readers s) = 0) as Hz.
  { intros f Hf. unfold countb. destruct (filter f (readers s)) as [|q l] eqn:Ef; [done|].
    assert (q ∈ filter f (readers s)) as [Hq Hin]%list_elem_of_filter by (rewrite Ef; left).
    apply list_elem_of_lookup in Hin as [i Hi]. rewrite (Hf i q Hi) in Hq. done. }
  assert (references s = 0) as E0.
  { unfold references. rewrite Ew, Et, (Hz r_live); [done|]. intros i r Hi. unfold r_live. by rewrite (Hgone i r Hi). }
  assert (obj s = None) as Eo by (destruct (obj s); [lia|done]). split; [done|].
  assert (forall a, holders s a = 0) as Hh0.
  { intros a. unfold holders, o_holds. rewrite Eo, Ew. cbn. rewrite holds_None. cbn. rewrite !Hz; [done| |].
    - intros i r Hi. by rewrite (Hgone i r Hi).
    - intros i r Hi. destruct (Hr i r Hi) as [G _]. rewrite (Hgone i r Hi) in G. by rewrite G. }
  apply map_empty. intros a. destruct (mem s !! a) as [[c|data]|] eqn:E; [| |done]; exfalso.
  - pose proof (h_copy _ _ Hh a c E). rewrite Hh0 in *. lia.
  - destruct (h_msg _ _ Hh a data E) as (b & c & Hb & _). pose proof (h_copy _ _ Hh b c Hb). rewrite Hh0 in *. lia.
Qed.

(** C38: In every interleaving of a writer and its readers: the reference of the object counts the writer, the
    pointers that [lcopy] handed out and the readers; a version is in memory exactly while somebody holds it
    and its reference counts the holders; no thread touches a freed version or message, no assertion fails,
    and the only access to a freed object is the [rwlock_runlock] of [stm_releasereader]; a reader's last
    version holds what its function was called with, so an answer that nothing is new is right; some thread
    in a call can always go on; and when the writer and all readers are gone everything is freed. *)
Theorem stm_counts a m data s :
  a <> m -> rtc step (stm_new a m data) s ->
  (forall o, obj s = Some o -> o_reference o = references s) /\
  (obj s = None -> references s = 0) /\
  (forall c, 0 < holders s c -> exists cp, mem s !! c = Some (CopyCell cp) /\ c_reference cp = holders s c) /\
  (forall c cp, mem s !! c = Some (CopyCell cp) -> 0 < holders s c) /\
  (forall f, wstep s <> Fault f) /\
  (forall i r f, readers s !! i = Some r -> rstep s r = Fault f -> f = FObject /\ r_pc r = RUnlock /\ obj s = None) /\
  (forall i r c, readers s !! i = Some r -> r_last r = Some c -> r_pc r <> RCall -> r_got r = content (mem s) c) /\
  (w_busy (writer s) = true \/ (exists i r, readers s !! i = Some r /\ r_busy (r_pc r) = true) ->
    w_busy (writer s) = true /\ blocked (wstep s) = false \/
    exists i r, readers s !! i = Some r /\ r_busy (r_pc r) = true /\ blocked (rstep s r) = false) /\
  (writer s = WGone -> tokens s = 0 -> (forall i r, readers s !! i = Some r -> r_pc r = RGone) ->
    obj s = None /\ mem s = ∅).
Proof.
  intros Ham Hs%reachable_inv; [|done]. pose proof Hs as [Ht Ho Hk Hg Hh Hr]. split_and!.
  - intros o Eo. rewrite Eo in Ho. apply Ho.
  - intros Eo. by rewrite Eo in Ho.
  - intros c Hc. destruct (h_held _ _ Hh c Hc) as (cp & d & H1 & H2 & _). by exists cp.
  - apply (h_copy _ _ Hh).
  - intros f E. pose proof (wstep_ok s Hs) as H. by rewrite E in H.
  - intros i r f Hi E. pose proof (rstep_ok s i r Hs Hi) as H. by rewrite E in H.
  - intros i r c Hi Hl Hp. destruct (Hr i r Hi) as [_ G]. rewrite Hl in G. by destruct (r_pc r).
  - by apply progress.
  - by apply finished_empty.
Qed.

(** ** Concrete runs *)

Inductive action :=
  | ACopy | AUpdate (a m : addr) (data : list Z) | ADelete | AWriter | ANewReader | ARead (i : nat) | ADeleteReader (i : nat) | AReader (i : nat).

Definition act (s : stm) (x : action) : option stm :=
  let begin_writer p := match writer s with WIdle => Some (set_writer s p) | _ => None end in
  let begin_reader i p :=
    r ← readers s !! i; match r_pc r with RIdle => Some (set_reader s i (Reader p (r_last r) (r_got r))) | _ => None end in
  match x with
  | ACopy => begin_writer WGrabLock
  | AUpdate a m data =>
      match writer s, mem s !! a, mem s !! m, decide (a = m) with
      | WIdle, None, None, right _ => Some (set_writer (set_mem s (stm_newcopy (mem s) a m data)) (WUpdateLock a))
      | _, _, _, _ => None
      end
  | ADelete => begin_writer WReleaseLock
  | AWriter => match wstep s with Next s' => Some s' | _ => None end
  | ANewReader =>
      if 0 <? tokens s then Some (Stm (obj s) (mem s) (writer s) (tokens s - 1) (readers s ++ [Reader RIdle None None]))
      else None
  | ARead i => begin_reader i RCopyLock
  | ADeleteReader i => begin_reader i RReleaseLock
  | AReader i => r ← readers s !! i; match rstep s r with Next (s', r') => Some (set_reader s' i r') | _ => None end
  end.

Lemma act_step s x s' : act s x = Some s' -> step s s'.
Proof.
  destruct x; cbn [act].
  - destruct (writer s) eqn:E; try done. intros [= <-]. by constructor.
  - destruct (writer s) eqn:E; try done. destruct (mem s !! a) eqn:Ea; try done. destruct (mem s !! m) eqn:Em; try done.
    case_decide; [done|]. intros [= <-]. by constructor.
  - destruct (writer s) eqn:E; try done. intros [= <-]. by constructor.
  - destruct (wstep s) eqn:E; try done. intros [= <-]. by constructor.
  - destruct (Z.ltb_spec 0 (tokens s)); [|done]. intros [= <-]. by constructor.
  - destruct (readers s !! i) as [r|] eqn:E; [|done]. cbn. destruct (r_pc r) eqn:Ep; try done. intros [= <-]. by constructor.
  - destruct (readers s !! i) as [r|] eqn:E; [|done]. cbn. destruct (r_pc r) eqn:Ep; try done. intros [= <-]. by constructor.
  - destruct (readers s !! i) as [r|] eqn:E; [|done]. cbn. destruct (rstep s r) as [| |[s1 r1]] eqn:Ep; try done.
    intros [= <-]. by eapply step_reader.
Qed.

Fixpoint acts (s : stm) (l : list action) : option stm :=
  match l with [] => Some s | x :: l => s ← act s x; acts s l end.

Lemma acts_steps s l s' : acts s l = Some s' -> rtc step s s'.
Proof.
  revert s. induction l as [|x l IH]; intros s; cbn; [intros [= <-]; apply rtc_refl|].
  destruct (act s x) as [s1|] eqn:E; [|done]. intros H. eapply rtc_l; [by eapply act_step|]. by apply IH.
Qed.

Definition two_readers : list action :=
  [ACopy; AWriter; AWriter; AWriter; ACopy; AWriter; AWriter; AWriter; ANewReader; ANewReader].
Definition read_run (i : nat) : list action := [ARead i; AReader i; AReader i; AReader i; AReader i; AReader i; AReader i].

(** Two readers read, an update frees the first version when the last of them
    has read the second, and everything is deleted in turn. *)
Definition demo_run : list action :=
  two_readers ++ read_run 0 ++ read_run 1 ++ AUpdate 3 4 [9] :: replicate 4 AWriter ++ read_run 0 ++
  ADelete :: replicate 4 AWriter ++ [ADeleteReader 0; AReader 0; AReader 0; AReader 0; AReader 0] ++
  [ADeleteReader 1; AReader 1; AReader 1; AReader 1].

Example demo_run_end : option_map (fun s => (writer s, r_pc <$> readers s, r_got <$> readers s, bool_decide (mem s = ∅)))
    (acts (stm_new 1 2 [5; 6]) demo_run) =
  Some (WGone, [RGone; RGone], [Some [9]; Some [5; 6]], true).
Proof. vm_compute. reflexivity. Qed.

Definition demo_end : stm := default (stm_new 1 2 []) (acts (stm_new 1 2 [5; 6]) demo_run).

Lemma stm_counts_witness : obj demo_end = None /\ mem demo_end = ∅.
Proof.
  apply (stm_counts 1 2 [5; 6] demo_end); [lia| |vm_compute; reflexivity|vm_compute; reflexivity|].
  - apply (acts_steps _ demo_run). vm_compute. reflexivity.
  - intros [|[|i]] r; vm_compute; [intros [= <-]; reflexivity..|discriminate].
Defined.

(** Two readers that are released at once: both have the lock and have
    decremented the reference, the second frees the object, and the first
    unlocks it. *)
Definition race_run : list action :=
  two_readers ++ ADelete :: replicate 4 AWriter ++
  [ADeleteReader 0; ADeleteReader 1; AReader 0; AReader 1; AReader 0; AReader 1].

Lemma stm_release_race : exists s r,
  rtc step (stm_new 1 2 [5; 6]) s /\ readers s !! 0%nat = Some r /\ rstep s r = Fault FObject.
Proof.
  destruct (acts (stm_new 1 2 [5; 6]) race_run) as [s|] eqn:E; [|by vm_compute in E].
  exists s, (Reader RUnlock None None). split; [by apply acts_steps with race_run|].
  revert E. vm_compute. intros [= <-]. done.
Qed.
