(* ===== verification/Multicast.v ===== *)
(** * Multicast packages (src/lualib/lmulticast.c)

    A message for many services is packed once; the pointer to the package is
    what is sent.  [bind] sets the number of receivers, every receiver unpacks
    and closes, and the last one frees.  Memory is explicit: an access to a
    block that is not there is a fault. *)

From S2P Require Import Prelude.

(** ** Data *)

Record mc_package := Package { reference : Z; size : Z; data : Z }.

(** Blocks: a package, a pointer to one (the message that is sent), bytes. *)
Inductive cell := PackageCell (p : mc_package) | PointerCell (p : Z) | DataCell (l : list Z).
Notation heap := (gmap Z cell) (only parsing).

(** How a call from Lua ends.  [Error] is [luaL_error], after which the memory
    is what it was then. *)
Inductive result (A : Type) := Ok (a : A) (h : heap) | Error (h : heap) | Fault.
Arguments Ok {A} a h.
Arguments Error {A} h.
Arguments Fault {A}.

(** The size of a pointer to a package. *)
Definition pointer_size : Z := 8.

Definition get_package (h : heap) (a : Z) : option mc_package :=
  match h !! a with Some (PackageCell p) => Some p | _ => None end.
Definition get_pointer (h : heap) (a : Z) : option Z :=
  match h !! a with Some (PointerCell p) => Some p | _ => None end.
Definition get_data (h : heap) (a : Z) : option (list Z) :=
  match h !! a with Some (DataCell l) => Some l | _ => None end.

(** [package], [ret] and [copy] are the addresses that [pixel_alloc] returns. *)
Definition pack (h : heap) (package ret : Z) (d n : Z) : result (Z * Z) :=
  let h := <[package := PackageCell (Package 0 (u32 n) d)]> h in
  Ok (ret, pointer_size) (<[ret := PointerCell package]> h).

Definition mc_packlocal (h : heap) (package ret : Z) (d n : Z) : result (Z * Z) :=
  if negb (n =? u32 n) then Error h else pack h package ret d n.

(** [(int)luaL_checkinteger]. *)
Definition s32 (x : Z) : Z := (x + 2 ^ 31) mod 2 ^ 32 - 2 ^ 31.

(** [pixel_alloc(0, size)] and the copy of [l] into the new memory: nothing for
    size 0.  The size is an [int]: from 2^31 on it is negative, no memory of the
    size that [malloc] is asked for can be had, and a null pointer is cleared. *)
Definition pixel_alloc_copy (h : heap) (copy : Z) (l : list Z) : option (Z * heap) :=
  let size := s32 (zlen l) in
  if size =? 0 then Some (0, h)
  else if size <? 0 then None
  else Some (copy, <[copy := DataCell l]> h).

Definition mc_packremote (h : heap) (package ret copy : Z) (d n : Z) : result (Z * Z) :=
  if negb (n =? u32 n) then Error h
  else match get_data h d with
  | Some l =>
      if n <=? zlen l then
        match pixel_alloc_copy h copy (take (Z.to_nat n) l) with
        | Some (msg, h) => pack h package ret msg n
        | None => Fault
        end
      else Fault
  | None => Fault
  end.

Definition mc_packstring (h : heap) (package ret copy : Z) (msg : list Z) : result (Z * Z) :=
  let n := zlen msg in
  if negb (n =? u32 n) then Error h
  else match pixel_alloc_copy h copy msg with
  | Some (data, h) => pack h package ret data n
  | None => Fault
  end.

Definition mc_unpacklocal (h : heap) (ptr sz : Z) : result (Z * Z * Z) :=
  if negb (s32 sz =? pointer_size) then Error h
  else match get_pointer h ptr with
  | None => Fault
  | Some a => match get_package h a with None => Fault | Some p => Ok (a, data p, size p) h end
  end.

Definition mc_bindrefer (h : heap) (ptr ref : Z) : result Z :=
  match get_pointer h ptr with
  | None => Fault
  | Some a =>
      match get_package h a with
      | None => Fault
      | Some p =>
          if negb (reference p =? 0) then Error h
          else Ok a (<[a := PackageCell (Package (s32 ref) (size p) (data p))]> h)
      end
  end.

(** [pixel_alloc(p, 0)]: a null pointer is not freed. *)
Definition free (h : heap) (a : Z) : option heap :=
  if a =? 0 then Some h else match h !! a with Some _ => Some (delete a h) | None => None end.

Definition mc_closelocal (h : heap) (a : Z) : result unit :=
  match get_package h a with
  | None => Fault
  | Some p =>
      let ref := s32 (reference p - 1) in
      let h := <[a := PackageCell (Package ref (size p) (data p))]> h in
      if ref <=? 0 then
        match h ← free h (data p); free h a with
        | None => Fault
        | Some h => if ref <? 0 then Error h else Ok tt h
        end
      else Ok tt h
  end.

Definition mc_remote (h : heap) (ptr : Z) : result (Z * Z) :=
  match get_pointer h ptr with
  | None => Fault
  | Some a =>
      match get_package h a with
      | None => Fault
      | Some p => match free h a with None => Fault | Some h => Ok (data p, size p) h end
      end
  end.

Definition mc_nextid (id : Z) : Z := u32 (u32 id + 256).

(** ** The receivers *)

(** What the services that got the pointer do, in any order. *)
Inductive receipt := Unpack (ptr : Z) | Close (package : Z).

(** The packages, data and sizes that were unpacked, and the memory. *)
Fixpoint receipts (h : heap) (l : list receipt) : option (list (Z * Z * Z) * heap) :=
  match l with
  | [] => Some ([], h)
  | Unpack ptr :: l =>
      match mc_unpacklocal h ptr pointer_size with
      | Ok x h => '(xs, h) ← receipts h l; Some (x :: xs, h)
      | _ => None
      end
  | Close a :: l => match mc_closelocal h a with Ok _ h => receipts h l | _ => None end
  end.

Definition is_close (x : receipt) : bool := match x with Close _ => true | _ => false end.

Lemma s32_small x : - 2 ^ 31 <= x < 2 ^ 31 -> s32 x = x.
Proof. intros Hx. unfold s32. rewrite Z.mod_small; lia. Qed.

(** The memory while [n] receivers are left. *)
Definition live (h : heap) (a n sz d : Z) : heap := <[a := PackageCell (Package n sz d)]> h.

Lemma close_live h a n sz d : 1 < n < 2 ^ 31 -> mc_closelocal (live h a n sz d) a = Ok tt (live h a (n - 1) sz d).
Proof.
  intros Hn. unfold mc_closelocal, get_package, live. rewrite lookup_insert_eq. cbn [reference size data].
  rewrite s32_small by lia. destruct (Z.leb_spec (n - 1) 0); [lia|]. by rewrite insert_insert_eq.
Qed.

(** Where the data is: a null pointer without data. *)
Definition holds (h : heap) (d : Z) (l : list Z) : Prop :=
  match l with [] => d = 0 /\ h !! d = None | _ => d <> 0 /\ h !! d = Some (DataCell l) end.

Lemma holds_insert h d l a x : d <> a -> holds h d l -> holds (<[a := x]> h) d l.
Proof. intros Hn. destruct l; cbn [holds]; intros [E1 E2]; (split; [done|]); by rewrite lookup_insert_ne. Qed.

Lemma close_last h a sz d l :
  a <> 0 -> a <> d -> holds h d l -> mc_closelocal (live h a 1 sz d) a = Ok tt (delete a (delete d h)).
Proof.
  intros Ha Had Hd. unfold mc_closelocal, get_package, live. rewrite lookup_insert_eq. cbn [reference size data].
  change (s32 (1 - 1)) with 0. rewrite insert_insert_eq. cbn [Z.leb Z.compare].
  set (h1 := <[a := _]> h).
  assert (E : free h1 d = Some (<[a := PackageCell (Package 0 sz d)]> (delete d h))).
  { unfold free, h1. destruct l as [|x l], Hd as [Hd1 Hd2].
    - subst d. by rewrite Z.eqb_refl, delete_id.
    - rewrite (proj2 (Z.eqb_neq _ _) Hd1), lookup_insert_ne, Hd2 by done. by rewrite delete_insert_ne. }
  rewrite E. cbn [mbind option_bind]. unfold free. rewrite (proj2 (Z.eqb_neq _ _) Ha), lookup_insert_eq. cbn.
  by rewrite delete_insert_eq.
Qed.

(** The copy of a string. *)
Lemma alloc_copy_ok h copy l :
  copy <> 0 -> h !! copy = None -> h !! 0 = None -> zlen l < 2 ^ 31 ->
  exists d h', pixel_alloc_copy h copy l = Some (d, h') /\ holds h' d l /\ delete d h' = h /\ (d = copy \/ d = 0) /\
    forall a, a <> copy -> h' !! a = h !! a.
Proof.
  intros Hc0 Hc H0 Hl. unfold pixel_alloc_copy. rewrite s32_small by lia. destruct l as [|x l].
  - exists 0, h. cbn [holds]. rewrite delete_id by done. auto 6.
  - rewrite (proj2 (Z.eqb_neq _ _)), (proj2 (Z.ltb_ge _ _)) by (cbn [length]; lia).
    exists copy, (<[copy := DataCell (x :: l)]> h). cbn [holds]. rewrite lookup_insert_eq, delete_insert_id by done.
    split; [done|]. split; [done|]. split; [done|]. split; [by left|]. intros a Ha. by rewrite lookup_insert_ne.
Qed.

Lemma unpack_live h a n sz d ptr : ptr <> a -> h !! ptr = Some (PointerCell a) ->
  mc_unpacklocal (live h a n sz d) ptr pointer_size = Ok (a, d, sz) (live h a n sz d).
Proof.
  intros Hp Hh. unfold mc_unpacklocal, get_pointer, get_package, live. change (s32 pointer_size) with 8. cbn [negb Z.eqb pointer_size].
  rewrite lookup_insert_ne, Hh by done. by rewrite lookup_insert_eq.
Qed.

(** The receipts before the last close. *)
Lemma receipts_live h a n sz d ptr l :
  ptr <> a -> h !! ptr = Some (PointerCell a) -> countb is_close l < n < 2 ^ 31 ->
  Forall (fun x => x = Unpack ptr \/ x = Close a) l ->
  exists k, receipts (live h a n sz d) l = Some (replicate k (a, d, sz), live h a (n - countb is_close l) sz d).
Proof.
  intros Hp Hh. revert n. induction l as [|x l IH]; intros n Hn Hl.
  - exists 0%nat. cbn [receipts]. change (countb is_close []) with 0. by rewrite Z.sub_0_r.
  - apply Forall_cons in Hl as [Hx Hl]. rewrite countb_cons in Hn |- *. destruct Hx as [-> | ->]; cbn [receipts is_close Z.b2z] in *.
    + rewrite unpack_live by done. destruct (IH n) as [k ->]; [lia|done|]. cbn [mbind option_bind].
      exists (S k). cbn [replicate]. do 3 f_equal. 
    + pose proof (countb_nonneg is_close l). rewrite close_live by lia. destruct (IH (n - 1)) as [k ->]; [lia|done|].
      exists k. do 3 f_equal. lia.
Qed.

(** ** Properties *)

(** A string of 2^31 bytes or more, which the test of the size accepts. *)
Lemma packstring_long h package ret copy msg :
  2 ^ 31 <= zlen msg < 2 ^ 32 -> mc_packstring h package ret copy msg = Fault.
Proof.
  intros Hl. unfold mc_packstring, pixel_alloc_copy. cbv zeta. assert (u32 (zlen msg) = zlen msg) as -> by (apply Z.mod_small; lia).
  rewrite Z.eqb_refl. cbn [negb]. assert (s32 (zlen msg) = zlen msg - 2 ^ 32) as ->.
  { unfold s32. replace (zlen msg + 2 ^ 31) with (zlen msg - 2 ^ 31 + 1 * 2 ^ 32) by lia. rewrite Z.mod_add, Z.mod_small by lia. lia. }
  rewrite (proj2 (Z.eqb_neq _ _)), (proj2 (Z.ltb_lt _ _)) by lia. done.
Qed.

(** C40: A string below 2^31 bytes is packed and bound to [n] receivers.  Whatever the order in which they
    unpack and close, as long as fewer than [n] closes were made every unpack gives the package with the
    string (a null pointer for the empty string) and its size; the last close frees the package and the string
    and leaves the rest of the memory as it was; a close after that uses freed memory.  A second [bind] is an
    error. *)
Theorem multicast_lifetime h package ret copy msg n l :
  h !! package = None -> h !! ret = None -> h !! copy = None -> h !! 0 = None ->
  package <> 0 -> ret <> 0 -> copy <> 0 ->
  package <> ret -> package <> copy -> ret <> copy ->
  zlen msg < 2 ^ 31 -> 0 < n < 2 ^ 31 ->
  countb is_close l = n - 1 -> Forall (fun x => x = Unpack ret \/ x = Close package) l ->
  exists h1 h2 h3 d k,
    mc_packstring h package ret copy msg = Ok (ret, 8) h1 /\
    mc_bindrefer h1 ret n = Ok package h2 /\ mc_bindrefer h2 ret n = Error h2 /\
    receipts h2 l = Some (replicate k (package, d, zlen msg), h3) /\
    mc_unpacklocal h3 ret 8 = Ok (package, d, zlen msg) h3 /\ holds h3 d msg /\
    mc_closelocal h3 package = Ok tt (<[ret := PointerCell package]> h) /\
    mc_closelocal (<[ret := PointerCell package]> h) package = Fault.
Proof.
  intros Hp Hr Hc H0 Zp Zr Zc Npr Npc Nrc Hlen Hn Hcl Hl.
  destruct (alloc_copy_ok h copy msg) as (d & h' & Ed & Hd & Edel & Hdc & Hsame); [done..|].
  set (hp := <[ret := PointerCell package]> h').
  assert (d <> package /\ d <> ret) as [Ndp Ndr] by (destruct Hdc; subst; split; congruence).
  assert (hp !! ret = Some (PointerCell package)) as Hret by (subst hp; apply lookup_insert_eq).
  assert (Hhp : holds hp d msg) by (by apply holds_insert).
  destruct (receipts_live hp package n (zlen msg) d ret l) as [k Hk]; [done|done|lia|done|].
  rewrite Hcl in Hk. replace (n - (n - 1)) with 1 in Hk by lia.
  exists (live hp package 0 (zlen msg) d), (live hp package n (zlen msg) d), (live hp package 1 (zlen msg) d), d, k.
  assert (u32 (zlen msg) = zlen msg) as Eu by (apply Z.mod_small; lia). split_and!.
  - unfold mc_packstring. cbv zeta. rewrite Eu, Z.eqb_refl, Ed. cbn [negb]. unfold pack. rewrite Eu. unfold live. subst hp.
    by rewrite (insert_insert_ne _ ret package) by done.
  - unfold mc_bindrefer, get_pointer, get_package, live. rewrite lookup_insert_ne, Hret by done.
    rewrite lookup_insert_eq. cbn [reference size data negb Z.eqb]. by rewrite s32_small, insert_insert_eq by lia.
  - unfold mc_bindrefer, get_pointer, get_package, live. rewrite lookup_insert_ne, Hret by done.
    rewrite lookup_insert_eq. cbn [reference]. by destruct (Z.eqb_spec n 0); [lia|].
  - done.
  - by apply (unpack_live hp).
  - by apply holds_insert.
  - rewrite (close_last hp _ _ _ msg) by done. f_equal. subst hp.
    rewrite delete_insert_ne, Edel by done. apply delete_id. by rewrite lookup_insert_ne.
  - unfold mc_closelocal, get_package. by rewrite lookup_insert_ne, Hp by done.
Qed.

(** Three receivers; the second unpacks after the first has closed. *)
Lemma multicast_lifetime_witness : exists h3 d,
  mc_closelocal h3 1 = Ok tt {[2 := PointerCell 1]} /\ holds h3 d [7; 8].
Proof.
  destruct (multicast_lifetime ∅ 1 2 3 [7; 8] 3 [Unpack 2; Close 1; Unpack 2; Close 1]) as (h1 & h2 & h3 & d & k & _ & _ & _ & _ & _ & H1 & H2 & _);
    try done.
  - repeat (constructor; [by auto|]). constructor.
  - exists h3, d. split; [exact H2|exact H1].
Defined.


(** A package that nobody receives: [bind] to 0 leaves the reference at 0, and a close then
    frees the package and is an error. *)
Example bind_zero : exists h1,
  mc_bindrefer (<[1 := PackageCell (Package 0 2 3)]> (<[2 := PointerCell 1]> {[3 := DataCell [7; 8]]})) 2 0 = Ok 1 h1 /\
  mc_closelocal h1 1 = Error {[2 := PointerCell 1]}.
Proof. eexists. split; [reflexivity|]. vm_compute. reflexivity. Qed.
