(* ===== verification/SprotoPack.v ===== *)
(** * Packing zeros away (src/lualib/sproto/sproto.c, lsproto.c)

    [sproto_pack] writes each group of eight bytes as a header byte, with a bit
    for each byte that is not zero, and those bytes; runs of groups without
    (many) zeros are written as they are after [0xff] and their number.
    [sproto_unpack] is the inverse.  Buffers are arrays with the space that is
    left; an access outside of an array is [None].  The C [int]s are integers:
    the bound on the packed size shows that they stay small. *)

From S2P Require Import Prelude Buffer.

#[local] Open Scope word_scope.
#[local] Open Scope eff_scope.

(** ** Packing *)

(** A pointer into the source or into [tmp]. *)
Inductive ptr := PSrc (o : Z) | PTmp (o : Z).
Definition advance (p : ptr) (n : Z) : ptr := match p with PSrc o => PSrc (o + n) | PTmp o => PTmp (o + n) end.

(** [n] bytes from a pointer. *)
Definition bytes_at (srcv tmp : list Z) (p : ptr) (n : Z) : option (list Z) :=
  let '(l, o) := match p with PSrc o => (srcv, o) | PTmp o => (tmp, o) end in
  if (0 <=? o) && (0 <=? n) && (o + n <=? zlen l) then Some (take (Z.to_nat n) (drop (Z.to_nat o) l)) else None.

(** The loop of [pack_seg] from byte [i]: the header, the number of bytes that
    are not zero, and the buffer. *)
Fixpoint seg_loop (seg : list Z) (i header notzero : Z) (buf : list Z) (b sz : Z) : option (Z * Z * list Z) :=
  match seg with
  | [] => Some (header, notzero, buf)
  | x :: seg =>
      if negb (x =? 0) then
        let header := u8 (header .| Z.shiftl 1 i) in
        if sz >? 0 then
          buf ← aset buf b x; seg_loop seg (i + 1) header (notzero + 1) buf (b + 1) (sz - 1)
        else seg_loop seg (i + 1) header (notzero + 1) buf b sz
      else seg_loop seg (i + 1) header notzero buf b sz
  end.

(** [b] is the offset of [buffer]. *)
Definition pack_seg (src buf : list Z) (b sz n : Z) : option (list Z * Z) :=
  '(header, notzero, buf) ← seg_loop src 0 0 0 buf (b + 1) (sz - 1);
  let notzero := if ((notzero =? 7) || (notzero =? 6)) && (n >? 0) then 8 else notzero in
  if notzero =? 8 then Some (buf, if n >? 0 then 8 else 10)
  else
    buf ← (if sz - 1 <? 0 then Some buf else aset buf b header);
    Some (buf, notzero + 1).

Fixpoint zero_loop (n : nat) (buf : list Z) (o : Z) : option (list Z) :=
  match n with O => Some buf | S n => buf ← aset buf o 0; zero_loop n buf (o + 1) end.

(** [src] are the [n] bytes. *)
Definition write_ff (src buf : list Z) (des n : Z) : option (list Z) :=
  let align8_n := (n + 7) .& Z.lnot 7 in
  buf ← aset buf des 255;
  buf ← aset buf (des + 1) (u8 (align8_n / 8 - 1));
  buf ← memcpy buf (des + 2) src 0 n;
  zero_loop (Z.to_nat (align8_n - n)) buf (des + n + 2).

(** The variables of [sproto_pack]; [pos] is the offset of [buffer]. *)
Record pack_state := PS {
  src : ptr; tmp : list Z; ff_srcstart : option ptr; ff_desstart : Z; ff_n : Z;
  psize : Z; pbuf : list Z; pos : Z; bufsz : Z
}.

(** [write_ff] for the run, when there is room. *)
Definition write_run (srcv tmp : list Z) (start : option ptr) (buf : list Z) (des n room : Z) : option (list Z) :=
  if room >=? 0 then p ← start; l ← bytes_at srcv tmp p n; write_ff l buf des n else Some buf.

Definition pack_turn (srcv : list Z) (srcsz : Z) (st : pack_state) (i : Z) : option pack_state :=
  let padding := i + 8 - srcsz in
  '(p, tm) ← (if padding >? 0 then
                l ← bytes_at srcv (tmp st) (src st) (8 - padding);
                Some (PTmp 0, l ++ replicate (Z.to_nat padding) 0)
              else Some (src st, tmp st));
  seg ← bytes_at srcv tm p 8;
  '(buf, n) ← pack_seg seg (pbuf st) (pos st) (bufsz st) (ff_n st);
  let room := bufsz st - n in
  '(buf, ffs, ffd, ffn) ←
    (if n =? 10 then Some (buf, Some p, pos st, 1)
     else if (n =? 8) && (ff_n st >? 0) then
       let ffn := ff_n st + 1 in
       if ffn =? 256 then
         buf ← write_run srcv tm (ff_srcstart st) buf (ff_desstart st) (256 * 8) room;
         Some (buf, ff_srcstart st, ff_desstart st, 0)
       else Some (buf, ff_srcstart st, ff_desstart st, ffn)
     else if ff_n st >? 0 then
       buf ← write_run srcv tm (ff_srcstart st) buf (ff_desstart st) (ff_n st * 8) room;
       Some (buf, ff_srcstart st, ff_desstart st, 0)
     else Some (buf, ff_srcstart st, ff_desstart st, 0));
  Some (PS (advance p 8) tm ffs ffd ffn (psize st + n) buf (pos st + n) room).

(** [for (i=0;i<srcsz;i+=8)] *)
Fixpoint pack_loop (fuel : nat) (srcv : list Z) (srcsz : Z) (st : pack_state) (i : Z) : option pack_state :=
  match fuel with
  | O => None
  | S fuel =>
      if i <? srcsz then st ← pack_turn srcv srcsz st i; pack_loop fuel srcv srcsz st (i + 8) else Some st
  end.

(** The buffer and the size that is returned. *)
Definition sproto_pack (srcv buffer : list Z) : option (list Z * Z) :=
  let srcsz := zlen srcv in
  st ← pack_loop (S (length srcv)) srcv srcsz (PS (PSrc 0) [] None 0 0 0 buffer 0 (zlen buffer)) 0;
  if ff_n st =? 1 then
    buf ← write_run srcv (tmp st) (ff_srcstart st) (pbuf st) (ff_desstart st) 8 (bufsz st);
    Some (buf, psize st)
  else if (ff_n st >? 1) && (bufsz st >=? 0) then
    match ff_srcstart st with
    | Some (PSrc o) =>
        buf ← write_run srcv (tmp st) (ff_srcstart st) (pbuf st) (ff_desstart st) (srcsz - o) (bufsz st);
        Some (buf, psize st)
    | _ => None
    end
  else Some (pbuf st, psize st).

(** ** Unpacking *)

(** The eight bytes of a header: the offset in the source, what is left of it,
    the buffer, its offset and room. *)
Fixpoint unpack_seg (k : nat) (i header : Z) (srcv : list Z) (s srcsz : Z) (buf : list Z) (b room : Z)
    : option (option (Z * Z * list Z * Z * Z)) :=
  match k with
  | O => Some (Some (s, srcsz, buf, b, room))
  | S k =>
      if (header >>> i) .& 1 =? 1 then
        if srcsz <? 0 then Some None
        else
          x ← aget srcv s;
          if room >? 0 then
            buf ← aset buf b x; unpack_seg k (i + 1) header srcv (s + 1) (srcsz - 1) buf (b + 1) (room - 1)
          else unpack_seg k (i + 1) header srcv (s + 1) (srcsz - 1) buf b room
      else if room >? 0 then
        buf ← aset buf b 0; unpack_seg k (i + 1) header srcv s srcsz buf (b + 1) (room - 1)
      else unpack_seg k (i + 1) header srcv s srcsz buf b room
  end.

(** [while (srcsz > 0)]: the buffer and the size, -1 for an invalid stream. *)
Fixpoint unpack_loop (fuel : nat) (srcv : list Z) (s srcsz : Z) (buf : list Z) (b room size : Z) : option (list Z * Z) :=
  match fuel with
  | O => None
  | S fuel =>
      if srcsz >? 0 then
        header ← aget srcv s;
        let srcsz := srcsz - 1 in
        let s := s + 1 in
        if header =? 255 then
          if srcsz <? 0 then Some (buf, -1)
          else
            x ← aget srcv s;
            let n := (x + 1) * 8 in
            if srcsz <? n + 1 then Some (buf, -1)
            else
              buf ← (if room >=? n then memcpy buf b srcv (s + 1) n else Some buf);
              unpack_loop fuel srcv (s + 1 + n) (srcsz - (n + 1)) buf (b + n) (room - n) (size + n)
        else
          r ← unpack_seg 8 0 header srcv s srcsz buf b room;
          match r with
          | None => Some (buf, -1)
          | Some (s, srcsz, buf, b, room) => unpack_loop fuel srcv s srcsz buf b room (size + 8)
          end
      else Some (buf, size)
  end.

Definition sproto_unpack (srcv buffer : list Z) : option (list Z * Z) :=
  unpack_loop (S (length srcv)) srcv 0 (zlen srcv) buffer 0 (zlen buffer) 0.

(** ** The Lua functions *)

(** [maxsz] of [lpack]. *)
Definition lpack_maxsz (sz : Z) : Z := (sz + 2047) / 2048 * 2 + sz.

Definition ENCODE_BUFFERSIZE : Z := 2050.
Definition ENCODE_MAXSIZE : Z := 0x1000000.

(** The loop of [expand_buffer]. *)
Fixpoint double_until (fuel : nat) (osz nsz : Z) : option Z :=
  match fuel with
  | O => None
  | S fuel => let osz := osz * 2 in if osz <? nsz then double_until fuel osz nsz else Some osz
  end.

(** [junk] is what new memory holds. *)
Definition expand_buffer (junk : Z -> list Z) (osz nsz : Z) : eff (list Z) :=
  let* osz := elift (double_until 32 osz nsz) in if osz >? ENCODE_MAXSIZE then Some LErr else eret (junk osz).

(** The buffer that [pushfunction_withbuffer] gives a closure. *)
Definition pushfunction_withbuffer (junk : Z -> list Z) : list Z := junk ENCODE_BUFFERSIZE.

(** [output] is the buffer of the closure; the string, and the buffer after
    the call. *)
Definition lpack (buffer output : list Z) (junk : Z -> list Z) : eff (list Z * list Z) :=
  let maxsz := lpack_maxsz (zlen buffer) in
  let* output := (if zlen output <? maxsz then expand_buffer junk (zlen output) maxsz else eret output) in
  let* ' (out, bytes) := elift (sproto_pack buffer (take (Z.to_nat maxsz) output)) in
  if bytes >? maxsz then Some LErr else eret (take (Z.to_nat bytes) out, out ++ drop (Z.to_nat maxsz) output).

Definition lunpack (buffer output : list Z) (junk : Z -> list Z) : eff (list Z * list Z) :=
  let* ' (out, r) := elift (sproto_unpack buffer output) in
  if r <? 0 then Some LErr
  else if r >? zlen output then
    let* output := expand_buffer junk (zlen output) r in
    let* ' (out, r') := elift (sproto_unpack buffer (take (Z.to_nat r) output)) in
    if r' <? 0 then Some LErr else eret (take (Z.to_nat r') out, out ++ drop (Z.to_nat r) output)
  else eret (take (Z.to_nat r) out, out).

(** ** The format *)

Definition nz (seg : list Z) : Z := countb (fun x => negb (x =? 0)) seg.

(** The header: bit [i] for byte [i]. *)
Fixpoint seg_header (seg : list Z) (i : Z) : Z :=
  match seg with [] => 0 | x :: seg => (if x =? 0 then 0 else 2 ^ i) + seg_header seg (i + 1) end.

Definition sparse (seg : list Z) : list Z := seg_header seg 0 :: filter (fun x => x <> 0) seg.

Definition flush (run : list (list Z)) : list Z :=
  match run with [] => [] | _ => 255 :: zlen run - 1 :: concat run end.

(** [segs] after the groups of [run], which are not written yet. *)
Fixpoint packed (run segs : list (list Z)) : list Z :=
  match segs with
  | [] => flush run
  | s :: rest =>
      if (negb (bool_decide (run = []))) && (6 <=? nz s) then
        if zlen run =? 255 then flush (run ++ [s]) ++ packed [] rest else packed (run ++ [s]) rest
      else if nz s =? 8 then packed [s] rest
      else flush run ++ sparse s ++ packed [] rest
  end.

(** Groups of eight, the last one filled with zeros. *)
Definition seg_at (l : list Z) (k : nat) : list Z :=
  let s := take 8 (drop (8 * k) l) in s ++ replicate (8 - length s) 0.
Definition seg_count (l : list Z) : nat := Z.to_nat ((zlen l + 7) / 8).
Definition segments (l : list Z) : list (list Z) := map (seg_at l) (seq 0 (seg_count l)).

Definition sproto_packed (l : list Z) : list Z := packed [] (segments l).

Example pack_small :
  sproto_pack [8; 0; 0; 0; 3; 0; 2; 0; 0x19; 0; 0; 0; 0xaa; 1; 0; 0] (replicate 20 7) =
  Some ([0x51; 8; 3; 2; 0x31; 0x19; 0xaa; 1; 7; 7; 7; 7; 7; 7; 7; 7; 7; 7; 7; 7], 8).
Proof. vm_compute. reflexivity. Qed.
Example pack_ff :
  sproto_pack (replicate 30 0x8a) (replicate 40 7) =
  Some (255 :: 3 :: replicate 30 0x8a ++ [0; 0] ++ replicate 6 7, 34).
Proof. vm_compute. reflexivity. Qed.

(** ** One group *)

Lemma zero_loop_wrote n buf o : 0 <= o -> o + Z.of_nat n <= zlen buf ->
  exists buf', zero_loop n buf o = Some buf' /\ wrote buf buf' o (replicate n 0).
Proof.
  revert buf o. induction n as [|n IH]; intros buf o Ho Hl; cbn [zero_loop]; [exists buf; split; [done|apply wrote_nil]|].
  destruct (aset_wrote buf o 0) as (b1 & -> & H1); [lia|]. cbn [mbind option_bind].
  destruct (IH b1 (o + 1)) as (b2 & -> & H2); [lia|destruct H1; lia|]. exists b2. split; [done|].
  by apply (wrote_app buf b1 b2 o [0] (replicate n 0)).
Qed.

Lemma nz_cons x seg : nz (x :: seg) = (if x =? 0 then 0 else 1) + nz seg.
Proof. unfold nz. rewrite countb_cons. by destruct (x =? 0). Qed.

Lemma nz_filter seg : nz seg = zlen (filter (fun x => x <> 0) seg).
Proof.
  induction seg as [|x seg IH]; [done|]. rewrite nz_cons, IH, filter_cons.
  destruct (Z.eqb_spec x 0); case_decide; try done. cbn [length]. lia.
Qed.

Lemma header_bit h i : 0 <= h < 2 ^ i -> 0 <= i < 8 -> u8 (h .| Z.shiftl 1 i) = h + 2 ^ i.
Proof.
  intros Hh Hi. rewrite Z.lor_comm, lor_shiftl by lia. rewrite Z.mul_1_l, Z.add_comm. apply Z.mod_small.
  assert (2 ^ i <= 2 ^ 7) by (apply Z.pow_le_mono_r; lia). lia.
Qed.

Lemma seg_loop_wrote seg i h n buf b sz :
  0 <= i -> i + zlen seg <= 8 -> 0 <= h < 2 ^ i -> 0 <= b -> sz <= zlen buf - b ->
  exists buf', seg_loop seg i h n buf b sz = Some (h + seg_header seg i, n + nz seg, buf') /\
    kept buf buf' b /\ (nz seg <= sz -> wrote buf buf' b (filter (fun x => x <> 0) seg)).
Proof.
  revert i h n buf b sz. induction seg as [|x seg IH]; intros i h n buf b sz Hi Hl Hh Hb Hs; cbn [seg_loop seg_header].
  - exists buf. change (nz []) with 0. rewrite !Z.add_0_r. split_and!; [done|done|intros _; apply wrote_nil].
  - cbn [length] in Hl. assert (2 ^ (i + 1) = 2 * 2 ^ i) as E2 by by rewrite <- Z.pow_succ_r.
    rewrite nz_cons, filter_cons. destruct (Z.eqb_spec x 0) as [->|Hx]; cbn [negb].
    + destruct (IH (i + 1) h n buf b sz) as (buf' & -> & H1 & H2); [lia..|]. exists buf'. case_decide; [done|].
      rewrite !Z.add_0_l. done.
    + case_decide; [|done]. rewrite header_bit by lia. destruct (Z.gtb_spec sz 0).
      * destruct (aset_wrote buf b x) as (b1 & -> & W1); [lia|]. cbn [mbind option_bind]. pose proof (proj1 W1).
        destruct (IH (i + 1) (h + 2 ^ i) (n + 1) b1 (b + 1) (sz - 1)) as (b2 & -> & W2 & W3); [lia..|].
        exists b2. rewrite !Z.add_assoc. split_and!; [done| |].
        -- apply (kept_trans _ b1); [apply (wrote_kept _ _ b [x]); [lia|done]|]. by apply (kept_le _ _ (b + 1)); [lia|].
        -- intros Hn. apply (wrote_app buf b1 b2 b [x]); [done|done|]. apply W3. lia.
      * destruct (IH (i + 1) (h + 2 ^ i) (n + 1) buf b sz) as (b2 & -> & W2 & W3); [lia..|].
        exists b2. rewrite !Z.add_assoc. split_and!; [done|done|]. intros Hn.
        pose proof (countb_nonneg (fun x => negb (x =? 0)) seg). unfold nz in Hn. lia.
Qed.

Lemma nz_bounds seg : 0 <= nz seg <= zlen seg.
Proof. unfold nz, countb. pose proof (length_filter (fun x => negb (x =? 0)) seg). lia. Qed.

(** A group that goes into a run. *)
Definition dense (run : bool) (seg : list Z) : bool := (run && (6 <=? nz seg)) || (nz seg =? 8).

Lemma pack_seg_wrote seg buf b sz n :
  length seg = 8%nat -> 0 <= b -> sz <= zlen buf - b -> 0 <= n ->
  exists buf', pack_seg seg buf b sz n =
    Some (buf', if dense (0 <? n) seg then if 0 <? n then 8 else 10 else nz seg + 1) /\ kept buf buf' b /\
    (dense (0 <? n) seg = false -> nz seg + 1 <= sz -> wrote buf buf' b (sparse seg)).
Proof.
  intros Hl Hb Hs Hn. unfold pack_seg.
  destruct (seg_loop_wrote seg 0 0 0 buf (b + 1) (sz - 1)) as (b1 & -> & W1 & W2); [lia..|]. cbn [mbind option_bind].
  rewrite !Z.add_0_l. pose proof (nz_bounds seg) as Hnz. pose proof (proj1 W1).
  assert ((if (if ((nz seg =? 7) || (nz seg =? 6)) && (n >? 0) then 8 else nz seg) =? 8 then true else false) =
    dense (0 <? n) seg) as Ed by (unfold dense; repeat case_match; lia).
  assert (kept buf b1 b) as W0 by (apply (kept_le _ _ (b + 1)); [lia|done]).
  destruct (_ =? 8) eqn:E8; rewrite <- Ed.
  - exists b1. split_and!; [|done|done]. replace (n >? 0) with (0 <? n) by lia. done.
  - assert ((if ((nz seg =? 7) || (nz seg =? 6)) && (n >? 0) then 8 else nz seg) = nz seg) as -> by (repeat case_match; lia).
    destruct (Z.ltb_spec (sz - 1) 0); [exists b1; split_and!; [done|done|lia]|].
    destruct (aset_wrote b1 b (seg_header seg 0)) as (b2 & E2 & W3); [lia|]. rewrite E2. cbn [mbind option_bind].
    exists b2. split_and!; [done| |].
    + apply (kept_trans _ b1); [done|]. apply (wrote_kept _ _ b [seg_header seg 0]); [lia|done].
    + intros _ Hfit. apply (wrote_over buf b1 b2 b (seg_header seg 0) _ E2); [lia|]. apply W2. lia.
Qed.

(** ** Runs *)

Lemma write_ff_wrote l buf des k :
  1 <= k <= 256 -> 8 * (k - 1) < zlen l <= 8 * k -> 0 <= des -> des + 2 + 8 * k <= zlen buf ->
  exists buf', write_ff l buf des (zlen l) = Some buf' /\
    wrote buf buf' des (255 :: k - 1 :: l ++ replicate (Z.to_nat (8 * k - zlen l)) 0).
Proof.
  intros Hk Hl Hd Hb. unfold write_ff.
  assert ((zlen l + 7) .& Z.lnot 7 = 8 * k) as Ha.
  { change 7 with (Z.ones 3) at 2. rewrite <- Z.ldiff_land, Z.ldiff_ones_r by lia.
    rewrite Z.shiftr_div_pow2, Z.shiftl_mul_pow2 by lia. change (2 ^ 3) with 8. zdiv. }
  rewrite Ha. cbv zeta. rewrite (Z.mul_comm 8), Z.div_mul by lia.
  assert (u8 (k - 1) = k - 1) as -> by (apply Z.mod_small; lia).
  destruct (aset_wrote buf des 255) as (b1 & -> & W1); [lia|]. cbn [mbind option_bind]. pose proof (proj1 W1).
  destruct (aset_wrote b1 (des + 1) (k - 1)) as (b2 & -> & W2); [lia|]. cbn [mbind option_bind]. pose proof (proj1 W2).
  destruct (memcpy_wrote b2 (des + 2) l 0 (zlen l)) as (b3 & -> & W3); [lia..|].
  rewrite drop_0, Nat2Z.id, take_ge in W3 by lia. cbn [mbind option_bind]. pose proof (proj1 W3).
  destruct (zero_loop_wrote (Z.to_nat (k * 8 - zlen l)) b3 (des + zlen l + 2)) as (b4 & -> & W4); [lia|lia|].
  exists b4. split; [done|]. apply (wrote_app buf b1 b4 des [255]); [lia|done|].
  apply (wrote_app b1 b2 b4 _ [k - 1]); [lia|done|]. replace (des + Z.of_nat (length [255]) + Z.of_nat (length [k - 1])) with (des + 2) by (cbn; lia).
  apply (wrote_app b2 b3); [lia|done|]. by replace (des + 2 + zlen l) with (des + zlen l + 2) by lia.
Qed.

(** ** The groups of the source *)

Section Pack.
Context (l : list Z).
Let N : nat := seg_count l.

Lemma seg_count_bounds : 8 * Z.of_nat N - 8 < zlen l <= 8 * Z.of_nat N.
Proof. unfold N, seg_count. zdiv. Qed.

Lemma seg_at_length k : length (seg_at l k) = 8%nat.
Proof. unfold seg_at. rewrite length_app, length_replicate, length_take, length_drop. lia. Qed.

Lemma seg_at_full k : (8 * (k + 1) <= length l)%nat -> seg_at l k = take 8 (drop (8 * k) l).
Proof.
  intros Hk. unfold seg_at. rewrite length_take, length_drop.
  replace (8 - 8 `min` (length l - 8 * k))%nat with 0%nat by lia. apply app_nil_r.
Qed.

(** A run of groups is a piece of the source, filled with zeros at the end. *)
Lemma segs_concat s n : (s + n <= N)%nat ->
  concat (map (seg_at l) (seq s n)) =
  take (8 * n) (drop (8 * s) l) ++ replicate (8 * n - length (take (8 * n) (drop (8 * s) l))) 0.
Proof.
  pose proof seg_count_bounds. revert s. induction n as [|n IH]; intros s Hs; cbn [seq map concat]; [done|].
  destruct n as [|n]; [cbn [seq map concat]; rewrite app_nil_r; done|].
  rewrite IH by lia. rewrite seg_at_full by lia. rewrite app_assoc.
  replace (8 * S s)%nat with (8 * s + 8)%nat by lia. rewrite <- drop_drop.
  replace (8 * S (S n))%nat with (8 + 8 * S n)%nat by lia. set (d := drop (8 * s) l).
  assert (take 8 d ++ take (8 * S n) (drop 8 d) = take (8 + 8 * S n) d) as <- by apply take_take_drop.
  f_equal. f_equal. rewrite length_app, (length_take d 8). subst d. rewrite length_drop. lia.
Qed.

Lemma bytes_at_src tm (o n : Z) : 0 <= o -> 0 <= n -> o + n <= zlen l ->
  bytes_at l tm (PSrc o) n = Some (take (Z.to_nat n) (drop (Z.to_nat o) l)).
Proof. intros. unfold bytes_at. by rewrite !(proj2 (Z.leb_le _ _)) by lia. Qed.

Context (buf0 : list Z).
Let B : Z := zlen buf0.

(** The run before group [k] has [r] groups. *)
Definition run (k r : nat) : list (list Z) := map (seg_at l) (seq (k - r) r).

Lemma run_length k r : length (run k r) = r.
Proof. unfold run. by rewrite length_map, length_seq. Qed.

Lemma run_snoc k r : (r <= k)%nat -> run (S k) (S r) = run k r ++ [seg_at l k].
Proof.
  intros Hr. unfold run. rewrite seq_S, map_app. cbn [map]. replace (S k - S r)%nat with (k - r)%nat by lia.
  by replace (k - r + r)%nat with k by lia.
Qed.

(** What the run takes. *)
Definition run_size (r : nat) : Z := if decide (r = 0%nat) then 0 else 2 + 8 * Z.of_nat r.

(** Before group [k]: [E] is written, [r] groups are in the run. *)
Record pack_inv (k : nat) (E : list Z) (r : nat) (st : pack_state) : Prop := {
  pi_src : (k < N)%nat -> src st = PSrc (8 * Z.of_nat k);
  pi_run : (r <= 255)%nat /\ (r <= k)%nat /\ (k <= N)%nat;
  pi_n : ff_n st = Z.of_nat r;
  pi_des : (0 < r)%nat -> ff_desstart st = zlen E;
  pi_start : (0 < r)%nat ->
    ff_srcstart st = Some (PSrc (8 * Z.of_nat (k - r))) /\ 8 * (Z.of_nat (k - r) + 1) <= zlen l \/
    r = 1%nat /\ ff_srcstart st = Some (PTmp 0) /\ tmp st = seg_at l (k - 1) /\ k = N;
  pi_pos : pos st = zlen E + run_size r;
  pi_size : psize st = pos st;
  pi_room : bufsz st = B - pos st;
  pi_len : length (pbuf st) = length buf0;
  pi_buf : 0 <= bufsz st -> take (length E) (pbuf st) = E
}.

(** The run is written when there is room for it. *)
Lemma flush_run k r tm E buf des start n room :
  (0 < r <= 256)%nat -> (r <= k <= N)%nat -> length buf = length buf0 -> des = zlen E ->
  (room >= 0 -> take (length E) buf = E /\ des + 2 + 8 * Z.of_nat r <= B) ->
  (exists seg, bytes_at l tm start n = Some seg /\ zlen seg = n /\ 8 * Z.of_nat r - 8 < n <= 8 * Z.of_nat r /\
    concat (run k r) = seg ++ replicate (Z.to_nat (8 * Z.of_nat r - n)) 0) ->
  exists buf', write_run l tm (Some start) buf des n room = Some buf' /\ length buf' = length buf0 /\
    (room >= 0 -> take (length (E ++ flush (run k r))) buf' = E ++ flush (run k r) /\
       drop (length (E ++ flush (run k r))) buf' = drop (length (E ++ flush (run k r))) buf).
Proof.
  intros Hr Hk Hlen -> Hroom (seg & Hseg & Hn & Hb & Hc). unfold write_run.
  destruct (Z.geb_spec room 0) as [Hge|]; [|exists buf; split_and!; [done|done|lia]].
  destruct (Hroom ltac:(lia)) as [W HB]. cbn [mbind option_bind]. rewrite Hseg. cbn [mbind option_bind]. rewrite <- Hn.
  unfold B in HB. destruct (write_ff_wrote seg buf (zlen E) (Z.of_nat r)) as (buf' & -> & W'); [lia..|].
  exists buf'. destruct W' as (W1 & W2 & W3). split_and!; [done|congruence|]. intros _.
  assert (255 :: Z.of_nat r - 1 :: seg ++ replicate (Z.to_nat (8 * Z.of_nat r - zlen seg)) 0 = flush (run k r)) as Ef.
  { rewrite Hn, <- Hc. unfold flush. rewrite run_length. pose proof (run_length k r) as Hx.
    destruct (run k r); [cbn in Hx; lia|done]. }
  rewrite Ef in W2, W3. rewrite length_app. rewrite Nat2Z.id, W in W2.
  replace (Z.to_nat (zlen E + zlen (flush (run k r)))) with (length E + length (flush (run k r)))%nat in * by lia. done.
Qed.

Lemma start_full k r n tm : (r <= k <= N)%nat -> (0 < r)%nat ->
  8 * Z.of_nat r - 8 < n <= 8 * Z.of_nat r -> n = zlen l - 8 * Z.of_nat (k - r) \/ n = 8 * Z.of_nat r /\ 8 * Z.of_nat k <= zlen l ->
  exists seg, bytes_at l tm (PSrc (8 * Z.of_nat (k - r))) n = Some seg /\ zlen seg = n /\ 8 * Z.of_nat r - 8 < n <= 8 * Z.of_nat r /\
    concat (run k r) = seg ++ replicate (Z.to_nat (8 * Z.of_nat r - n)) 0.
Proof.
  intros Hr Hr0 Hn Hcase. pose proof seg_count_bounds. rewrite bytes_at_src by lia.
  replace (Z.to_nat (8 * Z.of_nat (k - r))) with (8 * (k - r))%nat by lia.
  assert (length (take (Z.to_nat n) (drop (8 * (k - r)) l)) = Z.to_nat n) as Hlen by (rewrite length_take, length_drop; lia).
  eexists. split_and!; [done|lia|lia|lia|]. unfold run. rewrite segs_concat by lia.
  assert (take (8 * r) (drop (8 * (k - r)) l) = take (Z.to_nat n) (drop (8 * (k - r)) l)) as ->.
  { destruct Hcase as [Hc|[-> _]]; [|f_equal; lia]. rewrite !take_ge; [done|rewrite length_drop; lia..]. }
  rewrite Hlen. do 2 f_equal. lia.
Qed.

(** The safe messages: the 256th group of a run is not one that was filled up. *)
Definition safe_length : Prop := zlen l mod 8 < 6 \/ zlen l < 2046.

Lemma nz_padded k : (k < N)%nat -> nz (seg_at l k) <= Z.max 0 (zlen l - 8 * Z.of_nat k).
Proof.
  intros Hk. unfold seg_at, nz, countb. rewrite filter_app, length_app.
  assert (filter (fun x => Is_true (negb (x =? 0))) (replicate (8 - length (take 8 (drop (8 * k) l))) 0) = []) as ->.
  { induction (8 - _)%nat as [|n IH]; [done|]. cbn [replicate]. by rewrite filter_cons. }
  pose proof (length_filter (fun x => Is_true (negb (x =? 0))) (take 8 (drop (8 * k) l))) as Hf.
  rewrite length_take, length_drop in Hf. cbn [length]. lia.
Qed.

Lemma full_in_run k : safe_length -> (k < N)%nat -> (255 <= k)%nat -> 6 <= nz (seg_at l k) -> 8 * (Z.of_nat k + 1) <= zlen l.
Proof.
  intros Hs Hk H255 Hnz. pose proof (nz_padded k Hk). pose proof seg_count_bounds.
  destruct Hs as [Hs|Hs]; [|lia]. destruct (Z.le_gt_cases (8 * (Z.of_nat k + 1)) (zlen l)); [done|].
  replace (zlen l) with (zlen l - 8 * Z.of_nat k + Z.of_nat k * 8) in Hs by lia.
  rewrite Z.mod_add, Z.mod_small in Hs by lia. lia.
Qed.

(** The group that a turn looks at. *)
Lemma turn_group k st E r : (k < N)%nat -> pack_inv k E r st ->
  exists p tm,
    (if 8 * Z.of_nat k + 8 - zlen l >? 0 then
       d ← bytes_at l (tmp st) (src st) (8 - (8 * Z.of_nat k + 8 - zlen l));
       Some (PTmp 0, d ++ replicate (Z.to_nat (8 * Z.of_nat k + 8 - zlen l)) 0)
     else Some (src st, tmp st)) = Some (p, tm) /\
    bytes_at l tm p 8 = Some (seg_at l k) /\
    (p = PSrc (8 * Z.of_nat k) /\ 8 * (Z.of_nat k + 1) <= zlen l \/ p = PTmp 0 /\ tm = seg_at l k /\ S k = N).
Proof.
  intros Hk [Hsrc Hrun _ _ _ _ _ _ _ _]. pose proof seg_count_bounds. rewrite Hsrc by done.
  destruct (Z.gtb_spec (8 * Z.of_nat k + 8 - zlen l) 0).
  - rewrite bytes_at_src by lia. cbn [mbind option_bind]. do 2 eexists. split; [done|].
    replace (Z.to_nat (8 * Z.of_nat k)) with (8 * k)%nat by lia.
    assert (take (Z.to_nat (8 - (8 * Z.of_nat k + 8 - zlen l))) (drop (8 * k) l) ++
      replicate (Z.to_nat (8 * Z.of_nat k + 8 - zlen l)) 0 = seg_at l k) as ->.
    { unfold seg_at. rewrite !take_ge by (rewrite length_drop; lia). f_equal. f_equal. rewrite length_drop. lia. }
    split; [|right; split_and!; [done|done|lia]]. unfold bytes_at. rewrite seg_at_length.
    change (Z.to_nat 0) with 0%nat. rewrite drop_0, take_ge; [done|]. by rewrite seg_at_length.
  - do 2 eexists. split; [done|]. rewrite bytes_at_src by lia. split; [|left; split; [done|lia]].
    rewrite seg_at_full by lia. do 2 f_equal. f_equal. lia.
Qed.

Lemma flush_length k r : zlen (flush (run k r)) = run_size r.
Proof.
  assert (forall xs, length (concat (map (seg_at l) xs)) = (8 * length xs)%nat) as H.
  { induction xs as [|x xs IH]; [done|]. cbn [map concat length]. rewrite length_app, seg_at_length, IH. lia. }
  unfold flush, run_size. destruct (run k r) as [|s0 rs] eqn:Er.
  - pose proof (run_length k r) as Hx. rewrite Er in Hx. cbn in Hx. by subst r.
  - pose proof (run_length k r) as Hx. rewrite <- Er. cbn [length]. unfold run. rewrite H, length_seq.
    rewrite Er in Hx. cbn in Hx. case_decide; lia.
Qed.

Lemma packed_dense k r rest : (0 < r)%nat -> 6 <= nz (seg_at l k) ->
  packed (run k r) (seg_at l k :: rest) =
  if Z.of_nat r =? 255 then flush (run k r ++ [seg_at l k]) ++ packed [] rest else packed (run k r ++ [seg_at l k]) rest.
Proof.
  intros Hr Hnz. cbn [packed]. rewrite bool_decide_eq_false_2, run_length.
  - by rewrite (proj2 (Z.leb_le _ _)) by lia.
  - intros E. pose proof (run_length k r) as Hx. rewrite E in Hx. cbn in Hx. lia.
Qed.

(** A turn that only puts the group into the run. *)
Lemma turn_runs k E r st p tm buf' n :
  (k < N)%nat -> pack_inv k E r st -> (r < 255)%nat ->
  (p = PSrc (8 * Z.of_nat k) /\ 8 * (Z.of_nat k + 1) <= zlen l \/ p = PTmp 0 /\ tm = seg_at l k /\ S k = N) ->
  kept (pbuf st) buf' (pos st) -> n = (if decide (r = 0%nat) then 10 else 8) ->
  pack_inv (S k) E (S r)
    (PS (advance p 8) tm (if decide (r = 0%nat) then Some p else ff_srcstart st)
        (if decide (r = 0%nat) then pos st else ff_desstart st) (Z.of_nat r + 1)
        (psize st + n) buf' (pos st + n) (bufsz st - n)).
Proof.
  intros Hk [I1 (I2 & I3 & I4) I5 I6 I7 I8 I9 I10 I11 I12] Hr Hp [K1 K2] Hn.
  split; cbn [src tmp ff_srcstart ff_desstart ff_n psize pbuf pos bufsz].
  - intros Hk'. destruct Hp as [[-> _]|(_ & _ & ?)]; [|lia]. cbn. f_equal. lia.
  - lia.
  - lia.
  - intros _. case_decide; [|apply I6; lia]. rewrite I8. unfold run_size. case_decide; lia.
  - intros _. replace (S k - S r)%nat with (k - r)%nat by lia. case_decide as Hr0.
    + subst r. rewrite Nat.sub_0_r. destruct Hp as [[-> Hp]|(-> & -> & Hp)]; [left; done|right].
      split_and!; [done|done|f_equal; lia|done].
    + destruct I7 as [I7|(_ & _ & _ & I7)]; [lia|by left|lia].
  - rewrite I8. unfold run_size. destruct (decide (S r = 0%nat)) as [?|_]; [lia|]. case_decide; lia.
  - lia.
  - lia.
  - lia.
  - intros Hroom. assert (0 <= n) by (case_decide; lia). rewrite <- (I12 ltac:(lia)) at 2.
    assert (length E <= Z.to_nat (pos st))%nat as HE by (rewrite I8; unfold run_size; case_decide; lia).
    apply (f_equal (take (length E))) in K2. by rewrite !take_take, !Nat.min_l in K2 by done.
Qed.

(** A turn that writes: nothing is left in the run. *)
Lemma turn_writes k E E' r st p tm fs fd n buf' :
  (k < N)%nat -> pack_inv k E r st -> 0 <= n ->
  (p = PSrc (8 * Z.of_nat k) /\ 8 * (Z.of_nat k + 1) <= zlen l \/ p = PTmp 0 /\ tm = seg_at l k /\ S k = N) ->
  length buf' = length buf0 -> zlen E' = pos st + n -> (0 <= bufsz st - n -> take (length E') buf' = E') ->
  pack_inv (S k) E' 0 (PS (advance p 8) tm fs fd 0 (psize st + n) buf' (pos st + n) (bufsz st - n)).
Proof.
  intros Hk [I1 (I2 & I3 & I4) I5 I6 I7 I8 I9 I10 I11 I12] Hn Hp Hlb HE Hbuf.
  split; cbn [src tmp ff_srcstart ff_desstart ff_n psize pbuf pos bufsz]; try lia; try done.
  - intros Hk'. destruct Hp as [[-> _]|(_ & _ & ?)]; [|lia]. cbn. f_equal. lia.
  - change (run_size 0) with 0. lia.
Qed.

Lemma run_start_ok k r st E : pack_inv k E r st -> (k < N)%nat -> (0 < r)%nat ->
  exists start, ff_srcstart st = Some start /\ start = PSrc (8 * Z.of_nat (k - r)).
Proof. intros [_ _ _ _ I7 _ _ _ _ _] Hk Hr. destruct I7 as [[-> _]|(_ & _ & _ & ?)]; [done| |lia]. by eexists. Qed.

Lemma turn_ok k E r st : safe_length -> (k < N)%nat -> pack_inv k E r st ->
  exists E' r' st', pack_turn l (zlen l) st (8 * Z.of_nat k) = Some st' /\ pack_inv (S k) E' r' st' /\
    forall rest, E' ++ packed (run (S k) r') rest = E ++ packed (run k r) (seg_at l k :: rest).
Proof.
  intros Hsafe Hk Hinv. pose proof Hinv as [I1 (I2 & I3 & I4) I5 I6 I7 I8 I9 I10 I11 I12].
  unfold pack_turn. cbv zeta. destruct (turn_group k st E r Hk Hinv) as (p & tm & -> & Hseg & Hp).
  cbn [mbind option_bind]. rewrite Hseg. cbn [mbind option_bind]. rewrite I5. unfold B in I10.
  assert (0 <= pos st) as Hpos by (rewrite I8; unfold run_size; case_decide; lia).
  destruct (pack_seg_wrote (seg_at l k) (pbuf st) (pos st) (bufsz st) (Z.of_nat r)) as (b1 & -> & K & W);
    [apply seg_at_length|done|lia|lia|]. cbn [mbind option_bind]. pose proof (nz_bounds (seg_at l k)) as Hnz.
  rewrite seg_at_length in Hnz. unfold dense in *. pose proof (proj1 K) as Kl.
  destruct r as [|r].
  - (* no run *)
    change (0 <? Z.of_nat 0) with false in *. cbn [andb orb] in *. change (Z.of_nat 0 >? 0) with false. rewrite andb_false_r.
    destruct (Z.eqb_spec (nz (seg_at l k)) 8) as [E8|E8]; cbn [Z.eqb Pos.eqb].
    + do 3 eexists. split; [done|]. split; [exact (turn_runs k E 0 st p tm b1 10 Hk Hinv ltac:(lia) Hp K eq_refl)|].
      intros rest. rewrite run_snoc by lia. cbn [packed]. rewrite E8. done.
    + destruct (Z.eqb_spec (nz (seg_at l k) + 1) 10); [lia|]. exists (E ++ sparse (seg_at l k)). do 2 eexists. split; [done|].
      assert (zlen (sparse (seg_at l k)) = nz (seg_at l k) + 1) as Hs by (rewrite nz_filter; cbn [sparse length]; lia).
      change (run_size 0) with 0 in I8. split.
      * apply turn_writes with E 0%nat; [done|done|lia|done|congruence|rewrite length_app; lia|]. intros Hroom.
        destruct W as (_ & W & _); [done|lia|]. rewrite Hs in W. rewrite length_app.
        replace (Z.to_nat (pos st + (nz (seg_at l k) + 1))) with (length E + length (sparse (seg_at l k)))%nat in W by lia.
        replace (Z.to_nat (pos st)) with (length E) in W by lia. by rewrite I12 in W by lia.
      * intros rest. cbn [packed run seq map bool_decide negb andb flush app]. rewrite bool_decide_eq_true_2 by done.
        cbn [negb andb]. destruct (Z.eqb_spec (nz (seg_at l k)) 8); [done|]. by rewrite <- app_assoc.
  - destruct (run_start_ok k (S r) st E Hinv Hk ltac:(lia)) as (start & Hst & Hst'). rewrite Hst.
    assert ((0 <? Z.of_nat (S r)) = true) as E0 by lia. rewrite E0 in *. cbn [andb] in *.
    assert ((Z.of_nat (S r) >? 0) = true) as E1 by lia. rewrite E1, andb_true_r.
    rewrite I6 by lia. unfold run_size in I8. cbn [decide] in I8. destruct (decide (S r = 0%nat)) as [?|_] in I8; [lia|].
    assert (0 <= bufsz st -> take (length E) b1 = E) as HE.
    { intros Hroom. rewrite <- (I12 Hroom) at 2. destruct K as [_ K].
      apply (f_equal (take (length E))) in K. by rewrite !take_take, !Nat.min_l in K by lia. }
    destruct (Z.leb_spec 6 (nz (seg_at l k))) as [H6|H6]; cbn [orb].
    + change (8 =? 10) with false. change (8 =? 8) with true. cbn match.
      destruct (Z.eqb_spec (Z.of_nat (S r) + 1) 256) as [E256|E256].
      * assert (S r = 255%nat) as Er by lia. rewrite Er in *.
        pose proof (full_in_run k Hsafe Hk ltac:(lia) H6) as Hfull.
        destruct (flush_run (S k) 256 tm E b1 (zlen E) start (256 * 8) (bufsz st - 8)) as (b2 & -> & L2 & F2);
          [lia|lia|congruence|done|intros; split; [apply HE; lia|unfold B; lia]| |].
        { rewrite Hst'. change (256 * 8) with (8 * Z.of_nat 256). replace (k - 255)%nat with (S k - 256)%nat by lia.
          apply start_full; lia. }
        cbn [mbind option_bind]. exists (E ++ flush (run (S k) 256)). do 2 eexists. split; [done|]. split.
        -- apply turn_writes with E 255%nat; [done|done|lia|done|congruence| |].
           ++ rewrite length_app, Nat2Z.inj_add, flush_length. change (run_size 256) with 2050. lia.
           ++ intros Hroom. apply F2. lia.
        -- intros rest. rewrite packed_dense by lia. cbn [Z.eqb Z.of_nat]. rewrite <- run_snoc by lia.
           rewrite <- app_assoc. done.
      * do 3 eexists. split; [done|]. split.
        -- pose proof (turn_runs k E (S r) st p tm b1 8 Hk Hinv ltac:(lia) Hp K eq_refl) as H. cbn [decide] in H.
           destruct (decide (S r = 0%nat)) as [?|_] in H; [lia|]. rewrite Hst, I6 in H by lia. exact H.
        -- intros rest. rewrite packed_dense by lia. destruct (Z.eqb_spec (Z.of_nat (S r)) 255); [lia|]. by rewrite run_snoc.
    + destruct (Z.eqb_spec (nz (seg_at l k)) 8); [lia|]. cbn match.
      destruct (Z.eqb_spec (nz (seg_at l k) + 1) 10); [lia|]. destruct (Z.eqb_spec (nz (seg_at l k) + 1) 8); [lia|].
      pose proof seg_count_bounds.
      destruct (flush_run k (S r) tm E b1 (zlen E) start (Z.of_nat (S r) * 8) (bufsz st - (nz (seg_at l k) + 1))) as (b2 & -> & L2 & F2);
        [lia|lia|congruence|done|intros; split; [apply HE; lia|unfold B; lia]| |].
      { rewrite Hst', (Z.mul_comm (Z.of_nat (S r)) 8). apply start_full; lia. }
      cbn [mbind option_bind]. exists ((E ++ flush (run k (S r))) ++ sparse (seg_at l k)). do 2 eexists. split; [done|].
      assert (zlen (sparse (seg_at l k)) = nz (seg_at l k) + 1) as Hs by (rewrite nz_filter; cbn [sparse length]; lia).
      assert (zlen (E ++ flush (run k (S r))) = pos st) as Hp'
        by (rewrite length_app, Nat2Z.inj_add, flush_length, I8; unfold run_size; case_decide; lia).
      split.
      * apply turn_writes with E (S r); [done|done|lia|done|congruence|rewrite length_app; lia|]. intros Hroom.
        destruct F2 as [F2 F3]; [lia|]. destruct W as (_ & W & _); [done|lia|].
        rewrite length_app. rewrite <- take_take_drop, F2, F3. f_equal.
        apply (f_equal (drop (Z.to_nat (pos st)))) in W. rewrite Hs in W.
        rewrite drop_app_length' in W by (rewrite length_take; lia).
        replace (length (sparse (seg_at l k))) with (Z.to_nat (nz (seg_at l k) + 1)) by lia.
        rewrite <- W, <- Hp', Nat2Z.id. rewrite skipn_firstn_comm. f_equal. lia.
      * intros rest. cbn [packed]. rewrite bool_decide_eq_false_2.
        -- rewrite (proj2 (Z.leb_gt _ _)) by lia. cbn [negb andb]. destruct (Z.eqb_spec (nz (seg_at l k)) 8); [lia|].
           by rewrite <- !app_assoc.
        -- intros Hx. pose proof (run_length k (S r)) as Hy. rewrite Hx in Hy. cbn in Hy. lia.
Qed.

Lemma loop_ok fuel k E r st : safe_length -> pack_inv k E r st -> (N - k < fuel)%nat ->
  exists E' r' st', pack_loop fuel l (zlen l) st (8 * Z.of_nat k) = Some st' /\ pack_inv N E' r' st' /\
    E' ++ flush (run N r') = E ++ packed (run k r) (map (seg_at l) (seq k (N - k))).
Proof.
  intros Hsafe. revert k E r st. induction fuel as [|fuel IH]; intros k E r st Hinv Hf; [lia|]. cbn [pack_loop].
  pose proof seg_count_bounds. pose proof (pi_run _ _ _ _ Hinv) as (_ & _ & HkN).
  destruct (Z.ltb_spec (8 * Z.of_nat k) (zlen l)).
  - destruct (turn_ok k E r st Hsafe ltac:(lia) Hinv) as (E1 & r1 & st1 & -> & H1 & E1'). cbn [mbind option_bind].
    replace (8 * Z.of_nat k + 8) with (8 * Z.of_nat (S k)) by lia.
    destruct (IH (S k) E1 r1 st1 H1) as (E2 & r2 & st2 & H2 & I2 & E2'); [lia|]. exists E2, r2, st2.
    split; [done|]. split; [done|]. rewrite E2', E1'. replace (N - k)%nat with (S (N - S k)) by lia. done.
  - assert (k = N) as -> by lia. exists E, r, st. rewrite Nat.sub_diag. done.
Qed.

(** What [sproto_pack] leaves: the whole packed message when there is room. *)
Lemma sproto_pack_ok : safe_length ->
  exists buf', sproto_pack l buf0 = Some (buf', zlen (sproto_packed l)) /\ length buf' = length buf0 /\
    (zlen (sproto_packed l) <= zlen buf0 -> take (length (sproto_packed l)) buf' = sproto_packed l).
Proof.
  intros Hsafe. unfold sproto_pack. cbv zeta. pose proof seg_count_bounds as HN.
  set (st0 := PS _ _ _ _ _ _ _ _ _).
  assert (pack_inv 0 [] 0 st0) as H0.
  { subst st0. split; cbn; try lia; try done. }
  destruct (loop_ok (S (length l)) 0 [] 0 st0 Hsafe H0) as (E & r & st & Hloop & Hinv & HE); [lia|].
  change (8 * Z.of_nat 0) with 0 in Hloop. rewrite Hloop. cbn [mbind option_bind].
  rewrite Nat.sub_0_r, app_nil_l in HE. change (packed (run 0 0) _) with (sproto_packed l) in HE.
  pose proof Hinv as [I1 (I2 & I3 & I4) I5 I6 I7 I8 I9 I10 I11 I12]. rewrite I5.
  assert (psize st = zlen (sproto_packed l)) as Es by (rewrite <- HE, length_app, Nat2Z.inj_add, flush_length; lia).
  assert (forall start n, ff_srcstart st = Some start -> (0 < r)%nat ->
    (exists seg, bytes_at l (tmp st) start n = Some seg /\ zlen seg = n /\ 8 * Z.of_nat r - 8 < n <= 8 * Z.of_nat r /\
      concat (run N r) = seg ++ replicate (Z.to_nat (8 * Z.of_nat r - n)) 0) ->
    exists buf', write_run l (tmp st) (ff_srcstart st) (pbuf st) (ff_desstart st) n (bufsz st) = Some buf' /\
      length buf' = length buf0 /\ (zlen (sproto_packed l) <= zlen buf0 -> take (length (sproto_packed l)) buf' = sproto_packed l)) as Hrun.
  { intros start n Hst Hr Hseg. rewrite Hst, I6 by done. unfold B in I10.
    destruct (flush_run N r (tmp st) E (pbuf st) (zlen E) start n (bufsz st)) as (b2 & E2 & L2 & F2);
      [lia|lia|done|done| |done|].
    - intros Hroom. split; [apply I12; lia|]. unfold run_size in I8. unfold B. case_decide; lia.
    - exists b2. split_and!; [done|done|]. intros Hfit. rewrite HE in F2. apply F2. lia. }
  assert (0 <= bufsz st <-> zlen (sproto_packed l) <= zlen buf0) as Hroom by (unfold B in I10; lia).
  destruct (Z.eqb_spec (Z.of_nat r) 1) as [Er|Er].
  - assert (r = 1%nat) as -> by lia. destruct I7 as [[Hst Hfull]|(_ & Hst & Htmp & _)]; [lia| |].
    + destruct (Hrun _ 8 Hst ltac:(lia)) as (b2 & -> & L2 & F2).
      { apply start_full; lia. }
      cbn [mbind option_bind]. exists b2. by rewrite Es.
    + destruct (Hrun _ 8 Hst ltac:(lia)) as (b2 & -> & L2 & F2).
      { unfold bytes_at. rewrite Htmp, seg_at_length. change (Z.to_nat 0) with 0%nat. rewrite drop_0. cbn [andb Z.leb Z.compare].
        eexists. split; [done|]. rewrite take_ge by (by rewrite seg_at_length). rewrite seg_at_length.
        split_and!; [done|lia|lia|]. unfold run. cbn [seq map concat]. done. }
      cbn [mbind option_bind]. exists b2. by rewrite Es.
  - destruct (Z.gtb_spec (Z.of_nat r) 1) as [Hr|Hr]; cbn [andb].
    + destruct (Z.geb_spec (bufsz st) 0) as [Hb|Hb].
      * destruct I7 as [[Hst Hfull]|(? & _)]; [lia| |lia]. rewrite Hst.
        destruct (Hrun _ (zlen l - 8 * Z.of_nat (N - r)) Hst ltac:(lia)) as (b2 & E2 & L2 & F2).
        { apply start_full; lia. }
        rewrite Hst in E2. rewrite E2. cbn [mbind option_bind]. exists b2. by rewrite Es.
      * exists (pbuf st). rewrite Es. split_and!; [done|done|]. intros Hfit. lia.
    + assert (r = 0%nat) as -> by lia. exists (pbuf st). rewrite Es. split_and!; [done|done|]. intros Hfit.
      rewrite <- HE. cbn [flush run seq map]. rewrite app_nil_r. apply I12. lia.
Qed.

End Pack.

(** ** Unpacking a packed message *)

Lemma seg_header_shift seg i : 0 <= i -> seg_header seg i = 2 ^ i * seg_header seg 0.
Proof.
  intros Hi. revert i Hi. enough (forall i, 0 <= i -> seg_header seg i = 2 ^ i * seg_header seg 0 /\
    seg_header seg (i + 1) = 2 * seg_header seg i) as H by (intros i Hi; by apply H).
  induction seg as [|x seg IH]; intros i Hi; cbn [seg_header]; [lia|].
  destruct (IH (i + 1) ltac:(lia)) as [E1 E2]. destruct (IH i Hi) as [E3 E4]. destruct (IH 0 ltac:(lia)) as [_ E5].
  rewrite Z.add_0_l in E5. change (0 + 1) with 1. rewrite E2, E4, E5.
  assert (2 ^ (i + 1) = 2 * 2 ^ i) as E by by rewrite <- Z.pow_succ_r. rewrite E. change (2 ^ 0) with 1.
  rewrite E3. destruct (x =? 0); lia.
Qed.

Lemma seg_header_cons x seg : seg_header (x :: seg) 0 = (if x =? 0 then 0 else 1) + 2 * seg_header seg 0.
Proof. cbn [seg_header]. rewrite (seg_header_shift seg (0 + 1)) by lia. done. Qed.

Lemma seg_header_full seg : 0 <= seg_header seg 0 /\ seg_header seg 0 + (zlen seg - nz seg) < 2 ^ zlen seg.
Proof.
  induction seg as [|x seg IH]; [by split|]. rewrite seg_header_cons, nz_cons. cbn [length].
  rewrite Nat2Z.inj_succ, Z.pow_succ_r by lia. pose proof (nz_bounds seg). destruct (x =? 0); lia.
Qed.

Lemma unpack_seg_ok seg i header srcv s srcsz buf b room rest :
  0 <= i -> header >>> i = seg_header seg 0 -> 0 <= s -> srcsz = zlen (filter (fun x => x <> 0) seg ++ rest) ->
  drop (Z.to_nat s) srcv = filter (fun x => x <> 0) seg ++ rest -> 0 <= b -> b + room = zlen buf ->
  exists buf' b' room', unpack_seg (length seg) i header srcv s srcsz buf b room =
      Some (Some (s + nz seg, zlen rest, buf', b', room')) /\
    length buf' = length buf /\ 0 <= b' /\ b' + room' = zlen buf /\
    (zlen seg <= room -> b' = b + zlen seg /\ wrote buf buf' b seg).
Proof.
  revert i s srcsz buf b room. induction seg as [|x seg IH]; intros i s srcsz buf b room Hi Hh Hs Hsz Hd Hb Hr;
    cbn [length unpack_seg].
  { exists buf, b, room. cbn in Hsz. change (nz []) with 0. rewrite Z.add_0_r, Hsz.
    split_and!; [done|done|done|done|]. intros _. rewrite Z.add_0_r. split; [done|apply wrote_nil]. }
  rewrite seg_header_cons in Hh.
  assert (header >>> (i + 1) = seg_header seg 0) as Hh'.
  { rewrite <- Z.shiftr_shiftr, Hh, Z.shiftr_div_pow2 by lia. change (2 ^ 1) with 2. destruct (x =? 0); zdiv. }
  assert (header >>> i .& 1 = if x =? 0 then 0 else 1) as ->.
  { rewrite Hh. pose proof (land_ones_mod ((if x =? 0 then 0 else 1) + 2 * seg_header seg 0) 1 ltac:(lia)) as E.
    change (Z.ones 1) with 1 in E. change (2 ^ 1) with 2 in E. rewrite E. destruct (x =? 0); zdiv. }
  rewrite nz_cons. cbn [length] in *. rewrite filter_cons in Hsz, Hd.
  assert (forall b1 : list Z, length b1 = length buf -> b + 1 + (room - 1) = zlen b1) as Hr1 by lia.
  destruct (Z.eqb_spec x 0) as [->|Hx]; cbn [Z.eqb Pos.eqb].
  - case_decide; [done|]. destruct (Z.gtb_spec room 0).
    + destruct (aset_wrote buf b 0) as (b1 & -> & W1); [lia|]. cbn [mbind option_bind]. pose proof (proj1 W1).
      destruct (IH (i + 1) s srcsz b1 (b + 1) (room - 1)) as (b2 & b' & room' & -> & L & B1 & B2 & W2); [lia|done|done|done|done|lia|lia|].
      exists b2, b', room'. rewrite Z.add_0_l. split_and!; [done|lia|done|lia|]. intros Hfit. destruct W2 as [-> W2]; [lia|].
      split; [lia|]. by apply (wrote_app buf b1 b2 b [0] seg).
    + destruct (IH (i + 1) s srcsz buf b room) as (b2 & b' & room' & -> & L & B1 & B2 & W2); [lia|done|done|done|done|done|done|].
      exists b2, b', room'. rewrite Z.add_0_l. split_and!; [done|done|done|done|]. lia.
  - case_decide; [|done]. cbn [length app] in Hsz, Hd. destruct (Z.ltb_spec srcsz 0); [lia|].
    assert (aget srcv s = Some x) as ->.
    { unfold aget. rewrite (proj2 (Z.leb_le _ _)) by lia. rewrite <- (Nat.add_0_r (Z.to_nat s)), <- lookup_drop. by rewrite Hd. }
    assert (drop (Z.to_nat (s + 1)) srcv = filter (fun x => x <> 0) seg ++ rest) as Hd'.
    { replace (Z.to_nat (s + 1)) with (Z.to_nat s + 1)%nat by lia. by rewrite <- drop_drop, Hd. }
    cbn [mbind option_bind]. destruct (Z.gtb_spec room 0).
    + destruct (aset_wrote buf b x) as (b1 & -> & W1); [lia|]. cbn [mbind option_bind]. pose proof (proj1 W1).
      destruct (IH (i + 1) (s + 1) (srcsz - 1) b1 (b + 1) (room - 1)) as (b2 & b' & room' & -> & L & B1 & B2 & W2); [lia|done|lia|lia|done|lia|lia|].
      exists b2, b', room'. rewrite Z.add_assoc. split_and!; [done|lia|done|lia|]. intros Hfit. destruct W2 as [-> W2]; [lia|].
      split; [lia|]. by apply (wrote_app buf b1 b2 b [x] seg).
    + destruct (IH (i + 1) (s + 1) (srcsz - 1) buf b room) as (b2 & b' & room' & -> & L & B1 & B2 & W2); [lia|done|lia|lia|done|done|done|].
      exists b2, b', room'. rewrite Z.add_assoc. split_and!; [done|done|done|done|]. lia.
Qed.

(** A piece of the stream was unpacked to [out] in one turn. *)
Definition unpacks (piece out : list Z) : Prop :=
  forall fuel srcv s rest buf b room size,
    drop (Z.to_nat s) srcv = piece ++ rest -> 0 <= s -> 0 <= b -> b + room = zlen buf ->
    exists buf' b' room' s',
      unpack_loop (S fuel) srcv s (zlen (piece ++ rest)) buf b room size =
      unpack_loop fuel srcv s' (zlen rest) buf' b' room' (size + zlen out) /\
      drop (Z.to_nat s') srcv = rest /\ 0 <= s' /\ 0 <= b' /\ b' + room' = zlen buf' /\
      length buf' = length buf /\
      (zlen out <= room -> b' = b + zlen out /\ wrote buf buf' b out).

Lemma unpacks_run run : run <> [] -> (length run <= 256)%nat -> Forall (fun seg => length seg = 8%nat) run ->
  unpacks (flush run) (concat run).
Proof.
  intros Hne Hlen Hall fuel srcv s rest buf b room size Hd Hs Hb Hr.
  assert (length (concat run) = 8 * length run)%nat as Hc.
  { clear -Hall. induction Hall as [|seg run Hseg _ IH]; [done|]. cbn. rewrite length_app, Hseg, IH. lia. }
  assert (flush run = 255 :: zlen run - 1 :: concat run) as Ef by by destruct run. rewrite Ef in Hd |- *.
  cbn [app length] in Hd |- *. destruct (aget_drop _ _ _ _ Hs Hd) as [E1 Hd1].
  destruct (aget_drop srcv (s + 1) _ _ ltac:(lia) Hd1) as [E2 Hd2].
  cbn [unpack_loop]. destruct (Z.gtb_spec (Z.of_nat (S (S (length (concat run ++ rest))))) 0); [|lia].
  rewrite E1. cbn [mbind option_bind Z.eqb Pos.eqb]. rewrite E2. cbn [mbind option_bind].
  destruct (Z.ltb_spec (Z.of_nat (S (S (length (concat run ++ rest)))) - 1) 0); [lia|]. rewrite length_app in *.
  destruct (Z.ltb_spec (Z.of_nat (S (S (length (concat run) + length rest))) - 1) ((zlen run - 1 + 1) * 8 + 1)); [lia|].
  assert (zlen srcv - (s + 1 + 1) = Z.of_nat (length (concat run) + length rest)) as Hsrc.
  { apply (f_equal length) in Hd2. rewrite length_drop, length_app in Hd2. destruct run; [done|]. cbn [length] in *. lia. }
  assert (exists buf', (if room >=? (zlen run - 1 + 1) * 8 then memcpy buf b srcv (s + 1 + 1) ((zlen run - 1 + 1) * 8) else Some buf) = Some buf' /\
    length buf' = length buf /\ (zlen (concat run) <= room -> wrote buf buf' b (concat run))) as (buf' & -> & L & W).
  { destruct (Z.geb_spec room ((zlen run - 1 + 1) * 8)); [|exists buf; split_and!; [done|done|lia]].
    destruct (memcpy_wrote buf b srcv (s + 1 + 1) ((zlen run - 1 + 1) * 8)) as (b1 & -> & W1); [lia..|].
    rewrite Hd2, take_app_length' in W1 by lia. exists b1. split_and!; [done|apply W1|done]. }
  cbn [mbind option_bind].
  exists buf', (b + (zlen run - 1 + 1) * 8), (room - (zlen run - 1 + 1) * 8), (s + 1 + 1 + (zlen run - 1 + 1) * 8).
  split_and!; try lia.
  - f_equal; lia.
  - replace (Z.to_nat (s + 1 + 1 + (zlen run - 1 + 1) * 8)) with (Z.to_nat (s + 1 + 1) + length (concat run))%nat by lia.
    by rewrite <- drop_drop, Hd2, drop_app_length.
  - intros Hfit. split; [lia|by apply W].
Qed.

Lemma unpacks_sparse seg : length seg = 8%nat -> nz seg < 8 -> unpacks (sparse seg) seg.
Proof.
  intros Hl Hnz fuel srcv s rest buf b room size Hd Hs Hb Hr. unfold sparse in *. cbn [app length] in *.
  destruct (aget_drop _ _ _ _ Hs Hd) as [E1 Hd1]. cbn [unpack_loop].
  destruct (Z.gtb_spec (Z.of_nat (S (length (filter (fun x => x <> 0) seg ++ rest)))) 0); [|lia].
  rewrite E1. cbn [mbind option_bind]. pose proof (seg_header_full seg) as [Hh Hh']. rewrite Hl in Hh'. change (2 ^ Z.of_nat 8) with 256 in Hh'.
  destruct (Z.eqb_spec (seg_header seg 0) 255); [lia|].
  destruct (unpack_seg_ok seg 0 (seg_header seg 0) srcv (s + 1) (zlen (filter (fun x => x <> 0) seg ++ rest)) buf b room rest)
    as (buf' & b' & room' & E & L & B1 & B2 & W); [done|apply Z.shiftr_0_r|lia|done|done|done|done|].
  rewrite Hl in E, W.
  replace (Z.of_nat (S (length (filter (fun x => x <> 0) seg ++ rest))) - 1) with (zlen (filter (fun x => x <> 0) seg ++ rest)) by lia.
  rewrite E. cbn [mbind option_bind]. exists buf', b', room', (s + 1 + nz seg). split_and!; try lia.
  - f_equal. lia.
  - replace (Z.to_nat (s + 1 + nz seg)) with (Z.to_nat (s + 1) + length (filter (fun x : Z => x <> 0%Z) seg))%nat by (rewrite nz_filter; lia).
    by rewrite <- drop_drop, Hd1, drop_app_length.
  - pose proof (nz_bounds seg). lia.
  - intros Hfit. rewrite Hl in Hfit |- *. by apply W.
Qed.

Lemma unpack_pieces pieces : Forall (fun p => unpacks p.1 p.2) pieces ->
  forall fuel srcv s buf b room size,
    (length pieces < fuel)%nat -> drop (Z.to_nat s) srcv = concat pieces.*1 -> 0 <= s -> 0 <= b -> b + room = zlen buf ->
    exists buf', unpack_loop fuel srcv s (zlen (concat pieces.*1)) buf b room size =
        Some (buf', size + zlen (concat pieces.*2)) /\ length buf' = length buf /\
      (zlen (concat pieces.*2) <= room -> wrote buf buf' b (concat pieces.*2)).
Proof.
  induction 1 as [|[piece out] pieces Hp _ IH]; intros fuel srcv s buf b room size Hf Hd Hs Hb Hr.
  - destruct fuel as [|fuel]; [cbn in Hf; lia|]. exists buf.
    cbn [fmap list_fmap concat length unpack_loop]. change (Z.of_nat 0 >? 0) with false. cbn match. rewrite Z.add_0_r.
    split_and!; [done|done|intros _; apply wrote_nil].
  - cbn [fmap list_fmap concat fst snd length] in *. destruct fuel as [|fuel]; [lia|].
    destruct (Hp fuel srcv s (concat pieces.*1) buf b room size) as (b1 & b' & room' & s' & -> & D1 & S1 & B1 & R1 & L1 & W1);
      [done..|]. destruct (IH fuel srcv s' b1 b' room' (size + zlen out)) as (b2 & E2 & L2 & W2); [lia|done..|].
    rewrite E2. exists b2. rewrite length_app, Nat2Z.inj_add, Z.add_assoc. split_and!; [done|congruence|]. intros Hfit.
    destruct W1 as [-> W1]; [lia|]. apply (wrote_app buf b1 b2); [done|done|]. apply W2. lia.
Qed.

Lemma packed_pieces run segs :
  Forall (fun seg => length seg = 8%nat) run -> Forall (fun seg => length seg = 8%nat) segs -> (length run <= 255)%nat ->
  exists pieces, Forall (fun p => unpacks p.1 p.2) pieces /\ concat pieces.*1 = packed run segs /\
    concat pieces.*2 = concat run ++ concat segs /\ (length pieces <= length (packed run segs))%nat.
Proof.
  intros Hrun Hsegs Hlen. revert run Hrun Hlen. induction Hsegs as [|seg segs Hseg Hsegs IH]; intros run Hrun Hlen; cbn [packed concat].
  - destruct run as [|s0 run]; [exists []; split_and!; try done; constructor|].
    exists [(flush (s0 :: run), concat (s0 :: run))]. cbn [fmap list_fmap fst snd concat length flush]. rewrite !app_nil_r.
    split_and!; [|done|done|lia]. constructor; [|constructor]. cbn. apply (unpacks_run (s0 :: run)); [done|cbn in *; lia|done].
  - rewrite (app_assoc (concat run)). destruct (negb (bool_decide (run = [])) && (6 <=? nz seg)) eqn:Ed.
    + apply andb_true_iff in Ed as [Hne%negb_true_iff%bool_decide_eq_false _].
      assert (Forall (fun seg => length seg = 8%nat) (run ++ [seg])) as Hrun' by (apply Forall_app_2; [done|by constructor]).
      assert (concat (run ++ [seg]) = concat run ++ seg) as Ec by (rewrite concat_app; cbn; by rewrite app_nil_r).
      destruct (Z.eqb_spec (zlen run) 255).
      * destruct (IH [] ltac:(constructor) ltac:(cbn; lia)) as (pieces & P1 & P2 & P3 & P4).
        exists ((flush (run ++ [seg]), concat (run ++ [seg])) :: pieces). cbn [fmap list_fmap fst snd concat length].
        rewrite P2, P3, Ec. split_and!; [|done|done|].
        -- constructor; [|done]. cbn. rewrite <- Ec. apply unpacks_run; [by destruct run|rewrite length_app; cbn; lia|done].
        -- rewrite length_app. assert (1 <= length (flush (run ++ [seg])))%nat by (destruct run; cbn; lia). lia.
      * destruct (IH (run ++ [seg]) Hrun') as (pieces & P1 & P2 & P3 & P4); [rewrite length_app; cbn; lia|].
        exists pieces. by rewrite P3, Ec.
    + destruct (Z.eqb_spec (nz seg) 8) as [E8|E8].
      * assert (run = []) as ->.
        { destruct run; [done|]. rewrite E8 in Ed. done. }
        destruct (IH [seg] ltac:(by constructor) ltac:(cbn; lia)) as (pieces & P1 & P2 & P3 & P4).
        exists pieces. rewrite P3. cbn [concat app]. by rewrite app_nil_r.
      * destruct (IH [] ltac:(constructor) ltac:(cbn; lia)) as (pieces & P1 & P2 & P3 & P4). pose proof (nz_bounds seg).
        assert (unpacks (sparse seg) seg) as Hsp by (apply unpacks_sparse; lia).
        destruct run as [|s0 run].
        -- exists ((sparse seg, seg) :: pieces). cbn [fmap list_fmap fst snd concat length flush app sparse]. rewrite P2, P3.
           split_and!; [by constructor|done|done|]. rewrite length_app. lia.
        -- exists ((flush (s0 :: run), concat (s0 :: run)) :: (sparse seg, seg) :: pieces).
           cbn [fmap list_fmap fst snd concat length]. rewrite P2, P3. split_and!; [|done|cbn; by rewrite <- !app_assoc|].
           ++ constructor; [|by constructor]. apply (unpacks_run (s0 :: run)); [done|cbn in *; lia|done].
           ++ rewrite !length_app. cbn [flush length sparse]. lia.
Qed.

(** ** The size *)

(** Groups cost at most their bytes, and two bytes for a run of 256. *)
Lemma packed_size run segs :
  Forall (fun seg => length seg = 8%nat) run -> Forall (fun seg => length seg = 8%nat) segs -> (length run <= 255)%nat ->
  zlen (packed run segs) <= 8 * (zlen run + zlen segs) + (zlen run + zlen segs + 255) / 256 * 2.
Proof.
  intros Hrun Hsegs Hlen. revert run Hrun Hlen.
  assert (forall run : list (list Z), Forall (fun seg => length seg = 8%nat) run ->
    zlen (flush run) = if decide (run = []) then 0 else 2 + 8 * zlen run) as Hfl.
  { intros run Hrun. destruct run as [|s0 run]; [done|]. case_decide; [done|]. unfold flush. cbn [length].
    enough (length (concat (s0 :: run)) = 8 * S (length run))%nat by (cbn [length] in *; lia).
    change (S (length run)) with (length (s0 :: run)). induction Hrun as [|x l Hx _ IHl]; [done|]. cbn. rewrite length_app, Hx.
    destruct l; [done|]. rewrite IHl; [cbn; lia|by destruct l]. }
  induction Hsegs as [|seg segs Hseg Hsegs IH]; intros run Hrun Hlen; cbn [packed length].
  - rewrite Hfl by done. case_decide; [subst; cbn [length]; zdiv|]. destruct run; [done|]. cbn [length]. zdiv.
  - pose proof (nz_bounds seg). assert (zlen (sparse seg) = nz seg + 1) as Hsp by (rewrite nz_filter; cbn [sparse length]; lia).
    destruct (negb (bool_decide (run = [])) && (6 <=? nz seg)) eqn:Ed.
    + assert (Forall (fun seg => length seg = 8%nat) (run ++ [seg])) as Hrun' by (apply Forall_app_2; [done|by constructor]).
      destruct (Z.eqb_spec (zlen run) 255).
      * specialize (IH [] ltac:(constructor) ltac:(cbn; lia)). rewrite length_app, Nat2Z.inj_add, Hfl by done.
        rewrite length_app. cbn [length] in *. case_decide; [by destruct run|]. zdiv.
      * specialize (IH (run ++ [seg]) Hrun'). rewrite length_app in IH. cbn [length] in IH. specialize (IH ltac:(lia)).
        replace (zlen run + Z.of_nat (S (length segs))) with (Z.of_nat (length run + 1) + zlen segs) by lia. done.
    + destruct (Z.eqb_spec (nz seg) 8) as [E8|E8].
      * assert (run = []) as -> by (destruct run; [done|]; rewrite E8 in Ed; done).
        specialize (IH [seg] ltac:(by constructor) ltac:(cbn; lia)). cbn [length] in *.
        replace (Z.of_nat 0 + Z.of_nat (S (length segs))) with (Z.of_nat 1 + zlen segs) by lia. done.
      * specialize (IH [] ltac:(constructor) ltac:(cbn; lia)). rewrite !length_app, !Nat2Z.inj_add, Hfl, Hsp by done.
        cbn [length] in IH. case_decide as Hr; [subst run; cbn [length]; zdiv|].
        rewrite bool_decide_eq_false_2 in Ed by done. cbn [negb andb] in Ed. zdiv.
Qed.

(** ** Properties *)

Lemma segments_concat l : concat (segments l) = l ++ replicate (8 * seg_count l - length l) 0.
Proof.
  unfold segments. rewrite (segs_concat l 0 (seg_count l)) by lia. pose proof (seg_count_bounds l).
  rewrite drop_0, take_ge by lia. done.
Qed.

Lemma segments_shape l : Forall (fun seg => length seg = 8%nat) (segments l) /\ length (segments l) = seg_count l.
Proof.
  unfold segments. split; [|by rewrite length_map, length_seq]. apply Forall_map, Forall_forall. intros k _. apply seg_at_length.
Qed.

Lemma sproto_unpack_ok l out :
  exists out', sproto_unpack (sproto_packed l) out = Some (out', 8 * Z.of_nat (seg_count l)) /\ length out' = length out /\
    (8 * Z.of_nat (seg_count l) <= zlen out ->
     take (8 * seg_count l) out' = l ++ replicate (8 * seg_count l - length l) 0).
Proof.
  destruct (segments_shape l) as [H1 H2]. pose proof (seg_count_bounds l).
  destruct (packed_pieces [] (segments l) ltac:(constructor) H1 ltac:(cbn; lia)) as (pieces & P1 & P2 & P3 & P4).
  destruct (unpack_pieces pieces P1 (S (length (sproto_packed l))) (sproto_packed l) 0 out 0 (zlen out) 0)
    as (out' & E & L & W); [unfold sproto_packed; lia|by rewrite P2|done|done|lia|].
  rewrite P3, P2 in E. rewrite P3 in W. change (packed [] (segments l)) with (sproto_packed l) in E.
  change (concat (@nil (list Z)) ++ concat (segments l)) with (concat (segments l)) in *. rewrite segments_concat in *.
  assert (zlen (l ++ replicate (8 * seg_count l - length l) 0) = 8 * Z.of_nat (seg_count l)) as El
    by (rewrite length_app, length_replicate; lia).
  rewrite El in *. exists out'. split_and!; [exact E|done|]. intros Hfit. destruct (W Hfit) as (_ & W' & _).
  rewrite El in W'. by replace (8 * seg_count l)%nat with (Z.to_nat (0 + 8 * Z.of_nat (seg_count l))) at 1 by lia.
Qed.

Lemma sproto_packed_size l :
  zlen (sproto_packed l) <= 8 * Z.of_nat (seg_count l) + (zlen l + 2047) / 2048 * 2.
Proof.
  destruct (segments_shape l) as [H1 H2]. pose proof (packed_size [] (segments l) ltac:(constructor) H1 ltac:(cbn; lia)) as H.
  unfold sproto_packed. rewrite H2 in H. pose proof (seg_count_bounds l). cbn [length] in H. zdiv.
Qed.

(** A buffer that grows is large enough, and not too large. *)
Lemma double_until_ok fuel : forall osz nsz, 0 < osz < nsz -> nsz <= osz * 2 ^ Z.of_nat fuel ->
  exists sz, double_until fuel osz nsz = Some sz /\ nsz <= sz < 2 * nsz.
Proof.
  induction fuel as [|fuel IH]; intros osz nsz Ho Hn; [cbn in Hn; lia|]. cbn [double_until]. destruct (Z.ltb_spec (osz * 2) nsz); [|exists (osz * 2); split; [done|lia]].
  apply IH; [lia|]. rewrite Nat2Z.inj_succ, Z.pow_succ_r in Hn by lia. lia.
Qed.

Lemma expand_buffer_ok junk osz nsz : (forall n, 0 <= n -> zlen (junk n) = n) -> 0 < osz < nsz -> 2 * nsz <= ENCODE_MAXSIZE ->
  exists o, expand_buffer junk osz nsz = eret o /\ nsz <= zlen o.
Proof.
  intros Hj Ho Hn. unfold ENCODE_MAXSIZE in Hn. destruct (double_until_ok 32 osz nsz) as (sz & E & Hsz); [lia|change (2 ^ Z.of_nat 32) with 0x100000000; lia|].
  exists (junk sz). unfold expand_buffer. rewrite E. cbn [elift ebind]. unfold ENCODE_MAXSIZE. rewrite Z.gtb_ltb, (proj2 (Z.ltb_ge _ _)), Hj by lia. split; [done|lia].
Qed.

(** C36: Packing and unpacking are inverse up to the zeros that fill the last eight bytes.  For every message
    (except that no 256th group of a run of groups without zeros may be one that was filled up) and a buffer
    of any size, [sproto_pack] returns the size of the packed message, stays within its arrays, and leaves the
    packed message when it fits; [sproto_unpack] of it returns the size of the message rounded up, stays
    within its arrays, and gives the message and zeros when they fit.  The packed size is at most the rounded
    size and two bytes for each 2048, so [lpack] of a message of whole groups, of at most half of the largest
    buffer, never fails and [lunpack] gives it back, from any buffers that are not empty. *)
Theorem sproto_roundtrip l buf out :
  safe_length l ->
  (exists buf', sproto_pack l buf = Some (buf', zlen (sproto_packed l)) /\ length buf' = length buf /\
    (zlen (sproto_packed l) <= zlen buf -> take (length (sproto_packed l)) buf' = sproto_packed l)) /\
  (exists out', sproto_unpack (sproto_packed l) out = Some (out', 8 * Z.of_nat (seg_count l)) /\ length out' = length out /\
    (8 * Z.of_nat (seg_count l) <= zlen out ->
     take (8 * seg_count l) out' = l ++ replicate (8 * seg_count l - length l) 0)) /\
  zlen (sproto_packed l) <= 8 * Z.of_nat (seg_count l) + (zlen l + 2047) / 2048 * 2 /\
  (zlen l mod 8 = 0 -> 2 * lpack_maxsz (zlen l) <= ENCODE_MAXSIZE -> 0 < zlen buf -> 0 < zlen out ->
    forall junk, (forall n, 0 <= n -> zlen (junk n) = n) ->
    exists p buf' out', lpack l buf junk = eret (p, buf') /\ lunpack p out junk = eret (l, out')).
Proof.
  intros Hsafe. split_and!; [by apply sproto_pack_ok|apply sproto_unpack_ok|apply sproto_packed_size|].
  intros H8 Hmax Hbuf Hout junk Hjunk. pose proof (sproto_packed_size l) as Hsize. pose proof (seg_count_bounds l).
  assert (8 * Z.of_nat (seg_count l) = zlen l) as E8 by zdiv. set (maxsz := lpack_maxsz (zlen l)) in *.
  assert (0 <= maxsz /\ zlen l <= maxsz /\ zlen (sproto_packed l) <= maxsz) as (Hm & Hlm & Hpm) by (subst maxsz; unfold lpack_maxsz; zdiv).
  assert (exists buf', lpack l buf junk = eret (sproto_packed l, buf')) as [buf' E].
  { unfold lpack. fold maxsz. assert (exists o, (if zlen buf <? maxsz then expand_buffer junk (zlen buf) maxsz else eret buf) = eret o /\ maxsz <= zlen o) as (o & -> & Ho).
    { destruct (Z.ltb_spec (zlen buf) maxsz); [by apply expand_buffer_ok|by exists buf]. }
    cbn [ebind eret]. assert (zlen (take (Z.to_nat maxsz) o) = maxsz) as Ht by (rewrite length_take; lia).
    destruct (sproto_pack_ok l (take (Z.to_nat maxsz) o) Hsafe) as (b & -> & Lb & Fb). cbn [elift ebind].
    rewrite Z.gtb_ltb, (proj2 (Z.ltb_ge _ _)), Nat2Z.id, Fb by lia. by eexists. }
  exists (sproto_packed l), buf'. unfold lunpack. destruct (sproto_unpack_ok l out) as (o & -> & Lo & Fo). cbn [elift ebind]. rewrite E8 in *.
  assert (l ++ replicate (8 * seg_count l - length l) 0 = l) as El
    by (replace (8 * seg_count l - length l)%nat with 0%nat by lia; apply app_nil_r).
  destruct (Z.ltb_spec (zlen l) 0); [lia|]. destruct (Z.gtb_spec (zlen l) (zlen out)).
  - destruct (expand_buffer_ok junk (zlen out) (zlen l)) as (o2 & -> & Ho2); [done|lia|lia|]. cbn [ebind eret].
    destruct (sproto_unpack_ok l (take (Z.to_nat (zlen l)) o2)) as (o3 & -> & Lo3 & Fo3). cbn [elift ebind]. rewrite E8, length_take in *.
    destruct (Z.ltb_spec (zlen l) 0); [lia|]. rewrite El in Fo3.
    replace (Z.to_nat (zlen l)) with (8 * seg_count l)%nat by lia. rewrite Fo3 by lia. by eexists.
  - rewrite El in Fo. replace (Z.to_nat (zlen l)) with (8 * seg_count l)%nat by lia. rewrite Fo by lia. by eexists.
Qed.

(** A message with a run, a group of zeros and a sparse group. *)
Lemma sproto_roundtrip_witness : exists p buf' out',
  lpack (replicate 17 3 ++ replicate 15 0) [0] (fun n => replicate (Z.to_nat n) 9) = eret (p, buf') /\
  lunpack p [0] (fun n => replicate (Z.to_nat n) 9) = eret (replicate 17 3 ++ replicate 15 0, out').
Proof.
  apply (sproto_roundtrip (replicate 17 3 ++ replicate 15 0) [0] [0]).
  - left. vm_compute. reflexivity.
  - vm_compute. reflexivity.
  - vm_compute. congruence.
  - done.
  - done.
  - intros n Hn. rewrite length_replicate. lia.
Defined.

(** [lpack] fails for nine bytes without zeros: the packed message takes 12, and [maxsz] is 11. *)
Lemma lpack_nine : lpack (replicate 9 1) [0] (fun n => replicate (Z.to_nat n) 0) = Some LErr.
Proof. vm_compute. reflexivity. Qed.

(** A run whose 256th group was filled up reads past the end of the message. *)
Lemma pack_overread : sproto_pack (replicate (Z.to_nat 2047) 1) (replicate (Z.to_nat 2100) 0) = None.
Proof. vm_compute. reflexivity. Qed.

(** A stream that lacks its last byte reads past the end. *)
Lemma unpack_overread : sproto_unpack [3; 1] (replicate 8 0) = None /\ sproto_unpack [255] (replicate 8 0) = None.
Proof. split; vm_compute; reflexivity. Qed.
