(* ===== verification/Sproto.v ===== *)
(** * Encoding and decoding by a schema (src/lualib/sproto/sproto.c)

    A type is a list of fields in the order of their tags.  [sproto_encode]
    asks a callback for the value of each field and writes records of 16 bits,
    then the data that does not fit into them; [sproto_decode] walks over a
    message and gives each value to a callback.  The callbacks are parameters;
    they may raise a Lua error ([LErr]).  A buffer is a list of bytes and a
    pointer an offset; a read or write outside is [None].  [int] is compared
    with [size_t] as C does ([u64]). *)

From S2P Require Import Prelude Buffer.

#[local] Open Scope eff_scope.

(** ** Types *)

Definition SPROTO_TARRAY : Z := 0x80.
Definition SIZEOF_LENGTH : Z := 4.
Definition SIZEOF_HEADER : Z := 2.
Definition SIZEOF_FIELD : Z := 2.
Definition SPROTO_TINTEGER : Z := 0.
Definition SPROTO_TBOOLEAN : Z := 1.
Definition SPROTO_TSTRING : Z := 2.
Definition SPROTO_TSTRUCT : Z := 3.

(** [st] is the position of the type in [sproto]. *)
Record field := Field { tag : Z; type : Z; fname : string; st : option nat; key : Z }.

(** [n] is the length of [f]. *)
Record sproto_type := SType { tname : string; base : Z; maxn : Z; f : list field }.

Record sproto_arg := Arg {
  tagname : string; tagid : Z; atype : Z; subtype : option nat; value : list Z; length_ : Z; index : Z; mainindex : Z
}.

Definition set_arg (a : sproto_arg) (v : list Z) (n i : Z) : sproto_arg :=
  Arg (tagname a) (tagid a) (atype a) (subtype a) v n i (mainindex a).

(** [type & ~SPROTO_TARRAY] and [type & SPROTO_TARRAY]. *)
Definition base_type (t : Z) : Z := Z.land t (Z.lnot SPROTO_TARRAY).
Definition is_array (t : Z) : bool := negb (Z.land t SPROTO_TARRAY =? 0).

(** ** Fields by tag *)

(** The search of [findtag] and [query_proto] between [b] and [e]. *)
Fixpoint bisect {A} (tag_of : A -> Z) (fuel : nat) (l : list A) (t b e : Z) : option (option A) :=
  match fuel with
  | O => None
  | S fuel =>
      if b <? e then
        let mid := (b + e) / 2 in
        x ← aget l mid;
        if tag_of x =? t then Some (Some x)
        else if t >? tag_of x then bisect tag_of fuel l t (mid + 1) e else bisect tag_of fuel l t b mid
      else Some None
  end.

Definition findtag (ty : sproto_type) (t : Z) : option (option field) :=
  if base ty >=? 0 then
    let t := t - base ty in
    if (t <? 0) || (t >=? zlen (f ty)) then Some None else x ← aget (f ty) t; Some (Some x)
  else bisect tag (S (length (f ty))) (f ty) t 0 (zlen (f ty)).

(** ** Encoding *)

Section Encode.

(** What the callback returns, the bytes it leaves at [args->value] and what it
    does to its own data ([args->ud]). *)
Context {U : Type} (cb : sproto_arg -> seff U (Z * list Z)).
Abbreviation enc := (seff U).

(** A call: the callback may write the [length] bytes it was given. *)
Definition call (a : sproto_arg) : enc (Z * list Z) :=
  let+ ' (sz, w) := cb a in if zlen w <=? length_ a then sret (sz, w) else fun _ => None.

Definition fill_size (buf : list Z) (o sz : Z) : option (list Z * Z) :=
  buf ← put buf o (put_le 4 sz); Some (buf, sz + SIZEOF_LENGTH).

Definition encode_integer (v : Z) (buf : list Z) (o size : Z) : option (list Z * Z) :=
  if u64 size <? u64 (SIZEOF_LENGTH + 4) then Some (buf, -1)
  else buf ← put buf (o + 4) (put_le 4 v); fill_size buf o 4.

Definition encode_uint64 (v : Z) (buf : list Z) (o size : Z) : option (list Z * Z) :=
  if u64 size <? u64 (SIZEOF_LENGTH + 8) then Some (buf, -1)
  else buf ← put buf (o + 4) (put_le 8 v); fill_size buf o 8.

Definition encode_object (a : sproto_arg) (buf : list Z) (o size : Z) : enc (list Z * Z) :=
  if size <? SIZEOF_LENGTH then sret (buf, -1)
  else
    let+ ' (sz, w) := call (set_arg a (slice buf (o + SIZEOF_LENGTH) (size - SIZEOF_LENGTH)) (size - SIZEOF_LENGTH) (index a)) in
    let+ buf := slift (put buf (o + SIZEOF_LENGTH) w) in
    if sz <=? 0 then sret (buf, sz)
    else slift (fill_size buf o (if atype a =? SPROTO_TSTRING then sz - 1 else sz)).

(** The four bytes above a 32-bit integer. *)
Definition uint32_to_uint64 (negative : bool) (buf : list Z) (b : Z) : option (list Z) :=
  put buf (b + 4) (replicate 4 (if negative then 255 else 0)).

(** [for (i=index-2;i>=0;i--)]: [k] integers are left. *)
Fixpoint rearrange (k : nat) (buf : list Z) (header : Z) : option (list Z) :=
  match k with
  | O => Some buf
  | S k =>
      let i := Z.of_nat k in
      buf ← memcpy buf (header + 1 + i * 8) buf (header + 1 + i * 4) 4;
      x ← aget buf (header + 1 + i * 8 + 3);
      buf ← uint32_to_uint64 (negb (Z.land x 0x80 =? 0)) buf (header + 1 + i * 8);
      rearrange k buf header
  end.

(** The integer in the union after a call. *)
Definition union_value (w : list Z) (n : nat) : option Z := if (n <=? length w)%nat then Some (get_le (take n w)) else None.

(** The loop of [encode_integer_array]: the buffer, the offset after the last
    integer and [intlen]; no offset for [NULL]. *)
Fixpoint integer_loop (fuel : nat) (a : sproto_arg) (buf : list Z) (header b size intlen i : Z) : enc (list Z * option (Z * Z)) :=
  match fuel with
  | O => fun _ => None
  | S fuel =>
      let+ ' (sz, w) := call (set_arg a [] 8 i) in
      if sz <? 0 then sret (buf, None)
      else if sz =? 0 then sret (buf, Some (b, intlen))
      else if u64 size <? 8 then sret (buf, None)
      else if sz =? 4 then
        let+ v := slift (union_value w 4) in
        let+ buf := slift (put buf b (put_le 4 v)) in
        let+ buf := slift (if intlen =? 8 then uint32_to_uint64 (negb (Z.land v 0x80000000 =? 0)) buf b else Some buf) in
        integer_loop fuel a buf header (b + intlen) (size - intlen) intlen (i + 1)
      else if negb (sz =? 8) then sret (buf, None)
      else
        let+ r := (if intlen =? 4 then
                let size := i32 (size - (i - 1) * 4) in
                if u64 size <? 8 then sret None
                else
                  let+ buf := slift (rearrange (Z.to_nat (i - 1)) buf header) in
                  sret (Some (buf, b + (i - 1) * 4, size))
              else sret (Some (buf, b, size))) in
        match r with
        | None => sret (buf, None)
        | Some (buf, b, size) =>
            let+ v := slift (union_value w 8) in
            let+ buf := slift (put buf b (put_le 8 v)) in
            integer_loop fuel a buf header (b + 8) (size - 8) 8 (i + 1)
        end
  end.

(** The offset after the array, if it is not [NULL]. *)
Definition encode_integer_array (a : sproto_arg) (buf : list Z) (o size : Z) : enc (list Z * option Z) :=
  if size <? 1 then sret (buf, None)
  else
    let+ ' (buf, r) := integer_loop (S (length buf)) a buf o (o + 1) (size - 1) 4 1 in
    match r with
    | None => sret (buf, None)
    | Some (b, intlen) =>
        if b =? o + 1 then sret (buf, Some o)
        else let+ buf := slift (aset buf o intlen) in sret (buf, Some b)
    end.

Fixpoint boolean_loop (fuel : nat) (a : sproto_arg) (buf : list Z) (b size i : Z) : enc (list Z * option Z) :=
  match fuel with
  | O => fun _ => None
  | S fuel =>
      let+ ' (sz, w) := call (set_arg a (put_le 4 0) 4 i) in
      if sz <? 0 then sret (buf, None)
      else if sz =? 0 then sret (buf, Some b)
      else if size <? 1 then sret (buf, None)
      else
        let v := get_le (w ++ drop (length w) (put_le 4 0)) in
        let+ buf := slift (aset buf b (if v =? 0 then 0 else 1)) in
        boolean_loop fuel a buf (b + 1) (size - 1) (i + 1)
  end.

Fixpoint object_loop (fuel : nat) (a : sproto_arg) (buf : list Z) (b size i : Z) : enc (list Z * option Z) :=
  match fuel with
  | O => fun _ => None
  | S fuel =>
      if size <? SIZEOF_LENGTH then sret (buf, None)
      else
        let size := size - SIZEOF_LENGTH in
        let+ ' (sz, w) := call (set_arg a (slice buf (b + SIZEOF_LENGTH) size) size i) in
        let+ buf := slift (put buf (b + SIZEOF_LENGTH) w) in
        if sz =? 0 then sret (buf, Some b)
        else if sz <? 0 then sret (buf, None)
        else
          let sz := if atype a =? SPROTO_TSTRING then sz - 1 else sz in
          let+ ' (buf, _) := slift (fill_size buf b sz) in
          object_loop fuel a buf (b + SIZEOF_LENGTH + sz) (size - sz) (i + 1)
  end.

Definition encode_array (a : sproto_arg) (buf : list Z) (o size : Z) : enc (list Z * Z) :=
  if size <? SIZEOF_LENGTH then sret (buf, -1)
  else
    let size := size - SIZEOF_LENGTH in
    let b := o + SIZEOF_LENGTH in
    let+ ' (buf, r) := (if atype a =? SPROTO_TINTEGER then encode_integer_array a buf b size
                  else if atype a =? SPROTO_TBOOLEAN then boolean_loop (S (length buf)) a buf b size 1
                  else object_loop (S (length buf)) a buf b size 1) in
    match r with
    | None => sret (buf, -1)
    | Some e => let sz := e - (o + SIZEOF_LENGTH) in if sz =? 0 then sret (buf, 0) else slift (fill_size buf o sz)
    end.

(** The value of a field: what goes into the record ([value]), and [sz]. *)
Definition encode_field (x : field) (buf : list Z) (o size : Z) : enc (list Z * Z * Z) :=
  let a t := Arg (fname x) (tag x) t (st x) [] 0 0 (key x) in
  if is_array (type x) then let+ ' (buf, sz) := encode_array (a (base_type (type x))) buf o size in sret (buf, 0, sz)
  else if (type x =? SPROTO_TINTEGER) || (type x =? SPROTO_TBOOLEAN) then
    let+ ' (sz, w) := call (set_arg (a (type x)) [] 8 0) in
    if sz <? 0 then sret (buf, 0, -1)
    else if sz =? 0 then sret (buf, 0, 0)
    else if sz =? 4 then
      let+ v := slift (union_value w 4) in
      if v <? 0x7fff then sret (buf, (v + 1) * 2, 2)
      else let+ ' (buf, sz) := slift (encode_integer v buf o size) in sret (buf, 0, sz)
    else if sz =? 8 then
      let+ v := slift (union_value w 8) in
      let+ ' (buf, sz) := slift (encode_uint64 v buf o size) in sret (buf, 0, sz)
    else sret (buf, 0, -1)
  else if (type x =? SPROTO_TSTRUCT) || (type x =? SPROTO_TSTRING) then
    let+ ' (buf, sz) := encode_object (a (type x)) buf o size in sret (buf, 0, sz)
  else sret (buf, 0, -1).

(** The record of a field, after a record that skips tags; the new [index]. *)
Definition put_record (buf : list Z) (idx lasttag t v : Z) : option (option (list Z * Z)) :=
  let skip := t - lasttag - 1 in
  r ← (if skip >? 0 then
         let skip := (skip - 1) * 2 + 1 in
         if skip >? 0xffff then Some None
         else buf ← put buf (SIZEOF_HEADER + SIZEOF_FIELD * idx) (put_le 2 skip); Some (Some (buf, idx + 1))
       else Some (Some (buf, idx)));
  match r with
  | None => Some None
  | Some (buf, idx) => buf ← put buf (SIZEOF_HEADER + SIZEOF_FIELD * idx) (put_le 2 v); Some (Some (buf, idx + 1))
  end.

(** The loop over the fields: [data] and [size], [index] and [lasttag]. *)
Fixpoint encode_fields (fs : list field) (buf : list Z) (o size idx lasttag : Z) : enc (list Z * option (Z * Z)) :=
  match fs with
  | [] => sret (buf, Some (o, idx))
  | x :: fs =>
      let+ ' (buf, v, sz) := encode_field x buf o size in
      if sz <? 0 then sret (buf, None)
      else if sz >? 0 then
        let (o, size) := if v =? 0 then (o + sz, size - sz) else (o, size) in
        let+ r := slift (put_record buf idx lasttag (tag x) v) in
        match r with
        | None => sret (buf, None)
        | Some (buf, idx) => encode_fields fs buf o size idx (tag x)
        end
      else encode_fields fs buf o size idx lasttag
  end.

(** The buffer and the size of the message, or -1. *)
Definition sproto_encode (ty : sproto_type) (buffer : list Z) : enc (list Z * Z) :=
  let header_sz := SIZEOF_HEADER + maxn ty * SIZEOF_FIELD in
  let size := zlen buffer in
  if size <? header_sz then sret (buffer, -1)
  else
    let+ ' (buf, r) := encode_fields (f ty) buffer header_sz (size - header_sz) 0 (-1) in
    match r with
    | None => sret (buf, -1)
    | Some (o, idx) =>
        let+ buf := slift (put buf 0 (put_le 2 idx)) in
        let datasz := o - header_sz in
        let+ buf := slift (if negb (idx =? maxn ty) then
                        memcpy buf (SIZEOF_HEADER + idx * SIZEOF_FIELD) buf header_sz datasz
                      else Some buf) in
        sret (buf, SIZEOF_HEADER + idx * SIZEOF_FIELD + datasz)
    end.

End Encode.

(** ** Decoding *)

Definition toword (s : list Z) (i : Z) : option Z := a ← aget s i; b ← aget s (i + 1); Some (get_le [a; b]).
Definition todword (s : list Z) (i : Z) : option Z :=
  a ← aget s i; b ← aget s (i + 1); c ← aget s (i + 2); d ← aget s (i + 3); Some (get_le [a; b; c; d]).

Definition expand64 (v : Z) : Z := if Z.land v 0x80000000 =? 0 then v else Z.lor v (u64 (Z.shiftl (Z.ones 64) 32)).

Section Decode.
Context {U : Type} (cb : sproto_arg -> seff U Z).

(** A call with [length] bytes at an offset: they must be inside of the message. *)
Definition give (a : sproto_arg) (s : list Z) (o n i : Z) (u : U) : eff (Z * U) :=
  if (0 <=? n) && (0 <=? o) && (o + n <=? zlen s) then cb (set_arg a (slice s o n) n i) u else None.

(** A call with an integer of 64 bits; what it returns is not looked at. *)
Definition give_int (a : sproto_arg) (v i : Z) (u : U) : eff U :=
  let* ' (_, u) := cb (set_arg a (put_le 8 v) 8 i) u in eret u.

Fixpoint decode_array_object (fuel : nat) (a : sproto_arg) (s : list Z) (o sz i : Z) (u : U) : eff (Z * U) :=
  match fuel with
  | O => None
  | S fuel =>
      if sz >? 0 then
        if sz <? SIZEOF_LENGTH then eret (-1, u)
        else
          let* hsz := elift (todword s o) in
          let sz := sz - SIZEOF_LENGTH in
          if hsz >? u32 sz then eret (-1, u)
          else
            let* ' (r, u) := give a s (o + SIZEOF_LENGTH) (i32 hsz) i u in
            if negb (r =? 0) then eret (-1, u)
            else decode_array_object fuel a s (o + SIZEOF_LENGTH + hsz) (i32 (sz - hsz)) (i + 1) u
      else eret (0, u)
  end.

(** The integers of an array from the [i]-th on, [n] of them, of [len] bytes. *)
Fixpoint decode_integers (n : nat) (a : sproto_arg) (s : list Z) (o len i : Z) (u : U) : eff U :=
  match n with
  | O => eret u
  | S n =>
      let* v := elift (if len =? 4 then v ← todword s (o + i * 4); Some (expand64 v)
                       else low ← todword s (o + i * 8); hi ← todword s (o + i * 8 + 4);
                            Some (Z.lor low (u64 (Z.shiftl hi 32)))) in
      let* u := give_int a v (i + 1) u in decode_integers n a s o len (i + 1) u
  end.

Fixpoint decode_booleans (n : nat) (a : sproto_arg) (s : list Z) (o i : Z) (u : U) : eff U :=
  match n with
  | O => eret u
  | S n => let* v := elift (aget s (o + i)) in let* u := give_int a v (i + 1) u in decode_booleans n a s o (i + 1) u
  end.

Definition decode_array (a : sproto_arg) (s : list Z) (o : Z) (u : U) : eff (Z * U) :=
  let* sz := elift (todword s o) in
  let o := o + SIZEOF_LENGTH in
  if atype a =? SPROTO_TINTEGER then
    if sz <? 1 then eret (-1, u)
    else
      let* len := elift (aget s o) in
      let o := o + 1 in
      let sz := sz - 1 in
      if (len =? 4) || (len =? 8) then
        if negb (sz mod len =? 0) then eret (-1, u)
        else let* u := decode_integers (Z.to_nat (sz / len)) a s o len 0 u in eret (0, u)
      else eret (-1, u)
  else if atype a =? SPROTO_TBOOLEAN then
    let* u := decode_booleans (Z.to_nat sz) a s o 0 u in eret (0, u)
  else if (atype a =? SPROTO_TSTRING) || (atype a =? SPROTO_TSTRUCT) then
    decode_array_object (S (length s)) a s o (i32 sz) 1 u
  else eret (-1, u).

(** The data of a field at an offset. *)
Definition decode_data (x : field) (a : sproto_arg) (s : list Z) (o : Z) (u : U) : eff (Z * U) :=
  if is_array (type x) then decode_array a s o u
  else if type x =? SPROTO_TINTEGER then
    let* sz := elift (todword s o) in
    if sz =? 4 then
      let* v := elift (todword s (o + SIZEOF_LENGTH)) in
      let* u := give_int a (expand64 v) 0 u in eret (0, u)
    else if negb (sz =? 8) then eret (-1, u)
    else
      let* low := elift (todword s (o + SIZEOF_LENGTH)) in
      let* hi := elift (todword s (o + SIZEOF_LENGTH + 4)) in
      let* u := give_int a (Z.lor low (u64 (Z.shiftl hi 32))) 0 u in eret (0, u)
  else if (type x =? SPROTO_TSTRING) || (type x =? SPROTO_TSTRUCT) then
    let* sz := elift (todword s o) in
    let* ' (r, u) := give a s (o + SIZEOF_LENGTH) (i32 sz) 0 u in
    if negb (r =? 0) then eret (-1, u) else eret (0, u)
  else eret (-1, u).

(** The loop over the [n] records from the [i]-th on.  [o] and [size] are
    [datastream] and [size]; [None] in the result is -1. *)
Fixpoint decode_fields (n : nat) (ty : sproto_type) (s : list Z) (i o size t : Z) (u : U) : eff (option Z * U) :=
  match n with
  | O => eret (Some size, u)
  | S n =>
      let* v := elift (toword s (SIZEOF_HEADER + i * SIZEOF_FIELD)) in
      let t := t + 1 in
      if negb (Z.land v 1 =? 0) then decode_fields n ty s (i + 1) o size (t + v / 2) u
      else
        let v := v / 2 - 1 in
        let current := o in
        let* r := (if v <? 0 then
                     if size <? SIZEOF_LENGTH then eret None
                     else
                       let* sz := elift (todword s o) in
                       if u32 size <? u32 (sz + SIZEOF_LENGTH) then eret None
                       else eret (Some (o + u32 (sz + SIZEOF_LENGTH), i32 (size - u32 (sz + SIZEOF_LENGTH))))
                   else eret (Some (o, size))) in
        match r with
        | None => eret (None, u)
        | Some (o, size) =>
            let* x := elift (findtag ty t) in
            match x with
            | None => decode_fields n ty s (i + 1) o size t u
            | Some x =>
                let a := Arg (fname x) (tag x) (base_type (type x)) (st x) [] 0 0 (key x) in
                let* ' (r, u) :=
                  (if v <? 0 then decode_data x a s current u
                   else if negb (type x =? SPROTO_TINTEGER) && negb (type x =? SPROTO_TBOOLEAN) then eret (-1, u)
                   else let* u := give_int a v 0 u in eret (0, u)) in
                if negb (r =? 0) then eret (None, u) else decode_fields n ty s (i + 1) o size t u
            end
        end
  end.

(** What is used of the message, -1 for an error. *)
Definition sproto_decode (ty : sproto_type) (data : list Z) (u : U) : eff (Z * U) :=
  let size := zlen data in
  if size <? SIZEOF_HEADER then eret (-1, u)
  else
    let* fn := elift (toword data 0) in
    let size := size - SIZEOF_HEADER in
    if size <? fn * SIZEOF_FIELD then eret (-1, u)
    else
      let* ' (r, u) := decode_fields (Z.to_nat fn) ty data 0 (SIZEOF_HEADER + fn * SIZEOF_FIELD) (size - fn * SIZEOF_FIELD) (-1) u in
      match r with None => eret (-1, u) | Some rest => eret (zlen data - rest, u) end.

End Decode.
