(* ===== verification/SprotoOk.v ===== *)
(** * Encoding and decoding by a schema: the round trip

    The wire format of a list of values, and the proof that [sproto_encode]
    writes it and [sproto_decode] reads it back. *)

From S2P Require Import Prelude Buffer Sproto.

#[local] Open Scope eff_scope.

(** ** Values *)

(** The value of a field, or of an element of an array.  [EObj] is a string or
    an encoded struct, for which the callback needs [need] bytes. *)
Inductive elem := EInt (z : Z) | EBool (b : bool) | EObj (l : list Z) (need : Z).
Inductive val := One (e : elem) | Many (l : list elem).

(** 32 bits are enough. *)
Definition small (z : Z) : bool := (- 2 ^ 31 <=? z) && (z <? 2 ^ 31).

Definition elem_ok (t : Z) (e : elem) : Prop :=
  match e with
  | EInt z => t = SPROTO_TINTEGER /\ - 2 ^ 63 <= z < 2 ^ 63
  | EBool _ => t = SPROTO_TBOOLEAN
  | EObj l need => (t = SPROTO_TSTRING \/ t = SPROTO_TSTRUCT /\ 0 < zlen l) /\ zlen l <= need
  end.

Definition val_ok (x : field) (v : option val) : Prop :=
  match v with
  | None => True
  | Some (One e) => is_array (type x) = false /\ elem_ok (type x) e
  | Some (Many l) => is_array (type x) = true /\ Forall (elem_ok (base_type (type x))) l
  end.

(** ** What the callback answers *)

Definition arg_of (x : field) (t : Z) (v : list Z) (n i : Z) : sproto_arg := Arg (fname x) (tag x) t (st x) v n i (key x).

Section Serves.
Context {U : Type} (cb : sproto_arg -> seff U (Z * list Z)).

(** Element [i] of a field is [e]; the data of the callback goes from [u] to
    [u']. *)
Definition answers (x : field) (t i : Z) (e : elem) (u u' : U) : Prop :=
  match e with
  | EInt z => forall v, cb (arg_of x t v 8 i) u = eret (if small z then (4, put_le 4 z) else (8, put_le 8 z), u')
  | EBool b => forall v n, cb (arg_of x t v n i) u = eret (4, put_le 4 (Z.b2z b), u')
  | EObj l need => forall v n, zlen v = n -> need <= n < 2 ^ 31 -> exists w, cb (arg_of x t v n i) u =
      eret (if t =? SPROTO_TSTRING then zlen l + 1 else zlen l, w, u') /\ zlen w <= n /\ take (length l) w = l
  end.

(** There is no element [i]. *)
Definition answers_nil (x : field) (t i : Z) (u u' : U) : Prop := forall v n, cb (arg_of x t v n i) u = eret (0, [], u').

(** The elements of an array from [i] on, and the end. *)
Fixpoint answers_from (x : field) (t i : Z) (l : list elem) (u u' : U) : Prop :=
  match l with
  | [] => answers_nil x t i u u'
  | e :: l => exists u1, answers x t i e u u1 /\ answers_from x t (i + 1) l u1 u'
  end.

Definition serves (x : field) (v : option val) (u u' : U) : Prop :=
  match v with
  | None => answers_nil x (base_type (type x)) (if is_array (type x) then 1 else 0) u u'
  | Some (One e) => answers x (type x) 0 e u u'
  | Some (Many l) => answers_from x (base_type (type x)) 1 l u u'
  end.

(** All fields. *)
Fixpoint serves_all (fsv : list (field * option val)) (u u' : U) : Prop :=
  match fsv with
  | [] => u = u'
  | (x, v) :: fsv => exists u1, serves x v u u1 /\ serves_all fsv u1 u'
  end.

End Serves.

(** ** The format *)

(** The width of the integers of an array. *)
Definition int_size (l : list elem) : nat :=
  if forallb (fun e => match e with EInt z => small z | _ => true end) l then 4%nat else 8%nat.

Definition elem_data (w : nat) (e : elem) : list Z :=
  match e with
  | EInt z => put_le w z
  | EBool b => [Z.b2z b]
  | EObj l _ => put_le 4 (zlen l) ++ l
  end.

(** What is behind the size of an array. *)
Definition body (t : Z) (l : list elem) : list Z :=
  let d := concat (map (elem_data (int_size l)) l) in if t =? SPROTO_TINTEGER then Z.of_nat (int_size l) :: d else d.
Definition array_data (t : Z) (l : list elem) : list Z := put_le 4 (zlen (body t l)) ++ body t l.

(** The record of a value (0: the value is in the data) and the data; a value
    that is not written has none. *)
Definition wire (x : field) (v : option val) : option (Z * list Z) :=
  match v with
  | None | Some (Many []) => None
  | Some (One (EInt z)) =>
      if (0 <=? z) && (z <? 0x7fff) then Some ((z + 1) * 2, [])
      else let n := if small z then 4%nat else 8%nat in Some (0, put_le 4 (Z.of_nat n) ++ put_le n z)
  | Some (One (EBool b)) => Some ((Z.b2z b + 1) * 2, [])
  | Some (One (EObj l _)) => Some (0, put_le 4 (zlen l) ++ l)
  | Some (Many l) => Some (0, array_data (base_type (type x)) l)
  end.

(** The record that skips tags. *)
Definition skip_word (lasttag t : Z) : list Z := let skip := t - lasttag - 1 in if skip >? 0 then [(skip - 1) * 2 + 1] else [].

(** The records from [lasttag] on, and the data. *)
Fixpoint records (fs : list (field * option val)) (lasttag : Z) : list Z :=
  match fs with
  | [] => []
  | (x, v) :: fs =>
      match wire x v with
      | None => records fs lasttag
      | Some (r, _) => skip_word lasttag (tag x) ++ r :: records fs (tag x)
      end
  end.

Fixpoint data (fs : list (field * option val)) : list Z :=
  match fs with
  | [] => []
  | (x, v) :: fs => match wire x v with None => data fs | Some (_, d) => d ++ data fs end
  end.

Definition message (fs : list (field * option val)) : list Z :=
  let r := records fs (-1) in put_le 2 (zlen r) ++ concat (map (put_le 2) r) ++ data fs.

(** The calls of the decoder. *)
Definition elem_event (x : field) (t i : Z) (e : elem) : sproto_arg :=
  match e with
  | EInt z => arg_of x t (put_le 8 z) 8 i
  | EBool b => arg_of x t (put_le 8 (Z.b2z b)) 8 i
  | EObj l _ => arg_of x t l (zlen l) i
  end.

Fixpoint elem_events (x : field) (t i : Z) (l : list elem) : list sproto_arg :=
  match l with [] => [] | e :: l => elem_event x t i e :: elem_events x t (i + 1) l end.

Definition val_events (x : field) (v : option val) : list sproto_arg :=
  match v with
  | None => []
  | Some (One e) => [elem_event x (type x) 0 e]
  | Some (Many l) => elem_events x (base_type (type x)) 1 l
  end.

Definition events (fs : list (field * option val)) : list sproto_arg := concat (map (fun p => val_events p.1 p.2) fs).

(** The space that the encoder needs for a value, as it tests it. *)
Definition elem_need (e : elem) : Z := match e with EInt _ | EBool _ => 8 | EObj _ need => 4 + need end.
Definition obj_need (l : list elem) : Z := foldr (fun e n => elem_need e + n) 0 l.
Definition need (v : option val) : Z :=
  match v with
  | None => 20
  | Some (One e) => 4 + elem_need e
  | Some (Many l) => 20 + obj_need l
  end.

(** ** Types *)

(** [maxn] as the schema reader computes it: the fields and the gaps. *)
Fixpoint count_max (fs : list field) (last : Z) : Z :=
  match fs with [] => 0 | x :: fs => 1 + (if tag x >? last + 1 then 1 else 0) + count_max fs (tag x) end.

Fixpoint ascending (fs : list field) (last : Z) : Prop :=
  match fs with [] => True | x :: fs => last < tag x /\ ascending fs (tag x) end.

Record type_wf (ty : sproto_type) : Prop := {
  wf_ascending : ascending (f ty) (-1);
  wf_tags : Forall (fun x => tag x < 2 ^ 15) (f ty);
  wf_types : Forall (fun x => 0 <= base_type (type x) <= 3 /\ (is_array (type x) = false -> base_type (type x) = type x)) (f ty);
  wf_maxn : maxn ty = count_max (f ty) (-1);
  wf_base : 0 <= base ty -> forall i x, f ty !! i = Some x -> tag x = base ty + Z.of_nat i
}.

(** The examples of the documentation. *)
Definition person : sproto_type :=
  SType "person" 0 4 [Field 0 2 "name" None (-1); Field 1 0 "age" None (-1); Field 2 1 "marital" None (-1);
                      Field 3 0x83 "children" (Some 0%nat) (-1)].

(** A callback from values. *)
Definition serve (vs : list (field * option val)) (a : sproto_arg) : seff unit (Z * list Z) :=
  match find (fun '(x, _) => tag x =? tagid a) vs with
  | Some (_, Some v) =>
      match (match v with One e => if index a =? 0 then Some e else None | Many l => if index a >? 0 then aget l (index a - 1) else None end) with
      | None => sret (0, [])
      | Some (EInt z) => sret (if small z then (4, put_le 4 z) else (8, put_le 8 z))
      | Some (EBool b) => sret (4, put_le 4 (Z.b2z b))
      | Some (EObj l n) => if n <=? length_ a then sret (if atype a =? SPROTO_TSTRING then zlen l + 1 else zlen l, l) else sret (-1, [])
      end
  | _ => sret (0, [])
  end.

Definition alice : list (field * option val) :=
  zip (f person) [Some (One (EObj (ascii "Alice") 5)); Some (One (EInt 13)); Some (One (EBool false)); None].
Definition bob : list (field * option val) :=
  zip (f person) [Some (One (EObj (ascii "Bob") 3)); Some (One (EInt 40)); None; Some (Many [EObj (message alice) 17])].

Example alice_message : message alice =
  [3; 0; 0; 0; 0x1c; 0; 2; 0; 5; 0; 0; 0; 0x41; 0x6c; 0x69; 0x63; 0x65].
Proof. reflexivity. Qed.

Example bob_message : message bob =
  [4; 0; 0; 0; 0x52; 0; 1; 0; 0; 0; 3; 0; 0; 0; 0x42; 0x6f; 0x62; 0x15; 0; 0; 0; 0x11; 0; 0; 0] ++ message alice.
Proof. reflexivity. Qed.

Example bob_encode :
  match sproto_encode (serve bob) person (replicate 100 9) tt with Some (LOk (b, n, _)) => slice b 0 n = message bob | _ => False end.
Proof. vm_compute. reflexivity. Qed.
Example bob_decode :
  sproto_decode (fun a u => eret (0, u ++ [a])) person (message bob) [] = Some (LOk (zlen (message bob), events bob)).
Proof. vm_compute. reflexivity. Qed.

(** ** Integers in a buffer *)

Lemma small_spec z : small z = true <-> - 2 ^ 31 <= z < 2 ^ 31.
Proof. unfold small. rewrite andb_true_iff, Z.leb_le, Z.ltb_lt. done. Qed.

Lemma word_sign z : - 2 ^ 31 <= z < 2 ^ 31 -> negb (Z.land (z mod 2 ^ 32) 0x80000000 =? 0) = (z <? 0).
Proof.
  intros Hz. assert (Z.land (z mod 2 ^ 32) 0x80000000 = if z <? 0 then 0x80000000 else 0) as ->; [|by destruct (z <? 0)].
  apply Z.bits_inj'. intros i Hi. rewrite Z.land_spec. change 0x80000000 with (2 ^ 31).
  rewrite Z.pow2_bits_eqb by lia. destruct (Z.eqb_spec 31 i) as [<-|Hne].
  - rewrite andb_true_r. replace (Z.testbit (z mod 2 ^ 32) 31) with (z <? 0); [by destruct (z <? 0)|].
    rewrite Z.testbit_odd, Z.shiftr_div_pow2 by lia.
    destruct (Z.ltb_spec z 0).
    + replace (z mod 2 ^ 32 / 2 ^ 31) with 1 by (apply Z.div_unique with (z mod 2 ^ 32 - 2 ^ 31); zdiv). done.
    + replace (z mod 2 ^ 32 / 2 ^ 31) with 0 by (symmetry; apply Z.div_small; zdiv). done.
  - rewrite andb_false_r. destruct (z <? 0); [|by rewrite Z.bits_0]. by rewrite Z.pow2_bits_false by lia.
Qed.

Lemma byte_sign z : - 2 ^ 31 <= z < 2 ^ 31 -> negb (Z.land (z / 2 ^ 24 mod 256) 128 =? 0) = (z <? 0).
Proof.
  intros Hz. assert (0 <= z / 2 ^ 24 mod 256 < 256) as Hb by (apply Z.mod_pos_bound; lia).
  pose proof (byte_forall (fun x => Bool.eqb (negb (Z.land x 128 =? 0)) (128 <=? x)) ltac:(vm_compute; reflexivity) _ Hb) as E.
  apply Bool.eqb_prop in E. rewrite E. destruct (Z.ltb_spec z 0); [apply Z.leb_le|apply Z.leb_gt]; zdiv.
Qed.

(** The 64-bit form of a small integer is its 32-bit form and the sign. *)
Lemma put_le_sext z : - 2 ^ 31 <= z < 2 ^ 31 -> put_le 8 z = put_le 4 z ++ replicate 4 (if z <? 0 then 255 else 0).
Proof.
  intros Hz. change 8%nat with (4 + 4)%nat. rewrite put_le_app. f_equal. change (256 ^ Z.of_nat 4) with (2 ^ 32).
  destruct (Z.ltb_spec z 0).
  - replace (z / 2 ^ 32) with (-1) by zdiv. done.
  - by rewrite Z.div_small by lia.
Qed.

Lemma union_small z : union_value (put_le 4 z) 4 = Some (z mod 2 ^ 32).
Proof. unfold union_value. rewrite put_le_length. cbn [Nat.leb]. by rewrite take_ge, get_put_le by by rewrite put_le_length. Qed.
Lemma union_large z : union_value (put_le 8 z) 8 = Some (z mod 2 ^ 64).
Proof. unfold union_value. rewrite put_le_length. cbn [Nat.leb]. by rewrite take_ge, get_put_le by by rewrite put_le_length. Qed.

(** A write at [b] and the pieces before it. *)
Lemma put_ok buf o l : 0 <= o -> o + zlen l <= zlen buf ->
  exists buf', put buf o l = Some buf' /\ length buf' = length buf /\ kept buf buf' o /\ piece buf' o l.
Proof.
  intros Ho Hl. destruct (put_wrote buf o l Ho Hl) as (buf' & -> & W). exists buf'. split; [done|]. split; [apply W|].
  split; [by apply (wrote_keeps _ _ o l); [lia| |]|]. apply (piece_wrote buf); [lia|done].
Qed.

Lemma fill_size_ok buf o sz : 0 <= o -> o + 4 <= zlen buf ->
  exists buf', fill_size buf o sz = Some (buf', sz + 4) /\ wrote buf buf' o (put_le 4 sz).
Proof.
  intros Ho Hl. unfold fill_size. destruct (put_wrote buf o (put_le 4 sz)) as (buf' & -> & W); [lia|rewrite put_le_length; lia|].
  by exists buf'.
Qed.

(** ** Arrays of integers *)

Definition ints (w : nat) (l : list Z) : list Z := concat (map (put_le w) l).

Lemma ints_length w l : length (ints w l) = (w * length l)%nat.
Proof. unfold ints. induction l as [|z l IH]; cbn; [lia|]. rewrite length_app, put_le_length, IH. lia. Qed.

Lemma ints_snoc w l z : ints w (l ++ [z]) = ints w l ++ put_le w z.
Proof. unfold ints. rewrite map_app, concat_app. cbn. by rewrite app_nil_r. Qed.

Lemma memcpy_self_wrote buf d o n l : 0 <= d -> 0 <= o -> zlen l = n -> piece buf o l -> d + n <= zlen buf -> o + n <= zlen buf ->
  exists buf', memcpy buf d buf o n = Some buf' /\ wrote buf buf' d l.
Proof.
  intros Hd Ho Hn Hp H1 H2. destruct (memcpy_wrote buf d buf o n) as (buf' & -> & W); [lia..|]. exists buf'. split; [done|].
  unfold piece, slice in Hp. rewrite Hn in Hp. by rewrite Hp in W.
Qed.

Lemma rearrange_ok l buf h : 0 <= h -> Forall (fun z => small z = true) l ->
  piece buf (h + 1) (ints 4 l) -> h + 1 + 8 * zlen l <= zlen buf ->
  exists buf', rearrange (length l) buf h = Some buf' /\ wrote buf buf' (h + 1) (ints 8 l).
Proof.
  intros Hh. revert buf. induction l as [|z l IH] using rev_ind; intros buf Hs Hp Hb.
  - exists buf. split; [done|apply wrote_nil].
  - apply Forall_app in Hs as [Hs Hz]. apply Forall_cons in Hz as [Hz%small_spec _].
    rewrite ints_snoc in Hp. apply piece_app in Hp as [Hp1 Hp2]; [|lia]. rewrite ints_length in Hp2.
    rewrite length_app in *. cbn [length] in *. replace (length l + 1)%nat with (S (length l)) by lia. cbn [rearrange].
    destruct (memcpy_self_wrote buf (h + 1 + zlen l * 8) (h + 1 + zlen l * 4) 4 (put_le 4 z)) as (b1 & -> & W1);
      [lia|lia|by rewrite put_le_length| |lia|lia|].
    { by replace (h + 1 + zlen l * 4) with (h + 1 + Z.of_nat (4 * length l)) by lia. }
    cbn [mbind option_bind]. assert (piece b1 (h + 1 + zlen l * 8) (put_le 4 z)) as P1 by (apply (piece_wrote buf); [lia|done]). pose proof (proj1 W1) as L1.
    assert (aget b1 (h + 1 + zlen l * 8 + 3) = Some (z / 2 ^ 24 mod 256)) as ->.
    { replace (put_le 4 z) with (put_le 3 z ++ put_le 1 (z / 256 ^ Z.of_nat 3)) in P1 by (symmetry; apply (put_le_app 3 1)).
      apply piece_app in P1 as [_ P1]; [|lia]. rewrite put_le_length in P1. unfold piece, slice in P1. cbn [put_le length] in P1.
      destruct (drop (Z.to_nat (h + 1 + zlen l * 8 + Z.of_nat 3)) b1) as [|x rest] eqn:Ed; [done|]. injection P1 as ->.
      exact (proj1 (aget_drop b1 (h + 1 + zlen l * 8 + Z.of_nat 3) _ _ ltac:(lia) Ed)). }
    cbn [mbind option_bind]. rewrite byte_sign by done. unfold uint32_to_uint64.
    destruct (put_wrote b1 (h + 1 + zlen l * 8 + 4) (replicate 4 (if z <? 0 then 255 else 0))) as (b2 & -> & W2); [lia|rewrite length_replicate; lia|].
    cbn [mbind option_bind]. pose proof (proj1 W2) as L2.
    assert (wrote buf b2 (h + 1 + zlen l * 8) (put_le 8 z)) as W.
    { rewrite put_le_sext by done. apply (wrote_app _ b1); [lia|done|]. by rewrite put_le_length. }
    destruct (IH b2 Hs) as (b3 & -> & W3); [|lia|].
    { apply (piece_kept buf _ (h + 1 + zlen l * 8)); [lia|rewrite ints_length; lia| |done].
      apply (wrote_kept _ _ _ (put_le 8 z)); [lia|done]. }
    exists b3. split; [done|]. rewrite ints_snoc. apply (wrote_app_rev _ b2); [lia| | |done]; rewrite ints_length, ?put_le_length; [lia|].
    by replace (h + 1 + Z.of_nat (8 * length l)) with (h + 1 + zlen l * 8) by lia.
Qed.

Lemma store_int32 buf b w z : small z = true -> w = 4%nat \/ w = 8%nat -> 0 <= b -> b + Z.of_nat w <= zlen buf ->
  exists b1 b2, put buf b (put_le 4 (z mod 2 ^ 32)) = Some b1 /\
    (if Z.of_nat w =? 8 then uint32_to_uint64 (negb (Z.land (z mod 2 ^ 32) 0x80000000 =? 0)) b1 b else Some b1) = Some b2 /\
    wrote buf b2 b (put_le w z).
Proof.
  intros Hz%small_spec Hw Hb Hl. rewrite (put_le_mod 4). destruct (put_wrote buf b (put_le 4 z)) as (b1 & -> & W1); [lia|rewrite put_le_length; lia|].
  exists b1. destruct Hw as [-> | ->]; [by exists b1|]. change (Z.of_nat 8 =? 8) with true. cbv match.
  rewrite word_sign by done. unfold uint32_to_uint64. pose proof (proj1 W1) as L1.
  destruct (put_wrote b1 (b + 4) (replicate 4 (if z <? 0 then 255 else 0))) as (b2 & -> & W2); [lia|rewrite length_replicate; lia|].
  exists b2. split_and!; [done..|]. rewrite put_le_sext by done. apply (wrote_app _ b1); [lia|done|]. by rewrite put_le_length.
Qed.

(** One more integer behind those that are there. *)
Lemma ints_step buf buf' o w p z : 0 <= o -> o + Z.of_nat (w * length p) <= zlen buf ->
  piece buf o (ints w p) -> wrote buf buf' (o + Z.of_nat (w * length p)) (put_le w z) ->
  piece buf' o (ints w (p ++ [z])) /\ kept buf buf' o.
Proof.
  intros Ho Hl Hp W. rewrite ints_snoc. split; [|by apply (wrote_keeps _ _ _ _ o) in W; [|lia..]].
  apply piece_app; [lia|]. rewrite ints_length. split; [|by apply (piece_wrote buf); [lia|]].
  apply (piece_kept buf _ (o + Z.of_nat (w * length p))); [lia|rewrite ints_length; lia| |done].
  apply (wrote_kept _ _ _ (put_le w z)); [lia|done].
Qed.

(** [m] returns [r] and the buffer with [d] at [o] and nothing changed before,
    and the data of the callback goes from [u] to [u']. *)
Definition landed {U A} (m : seff U (list Z * A)) (buf : list Z) (o : Z) (d : list Z) (r : A) (u u' : U) : Prop :=
  exists buf', m u = eret (buf', r, u') /\ kept buf buf' o /\ piece buf' o d.

Lemma landed_nil {U A} buf o (r : A) (u : U) : landed (sret (buf, r)) buf o [] r u u.
Proof. by exists buf. Qed.

(** A write, and what follows it. *)
Lemma landed_step {U A} (m : seff U (list Z * A)) buf b1 o d1 d2 r u u' : 0 <= o -> kept buf b1 o -> piece b1 o d1 ->
  landed m b1 (o + zlen d1) d2 r u u' -> landed m buf o (d1 ++ d2) r u u'.
Proof.
  intros Ho K1 P1 (b2 & E & K2 & P2). exists b2. split; [done|].
  split; [apply (kept_trans _ b1); [done|]; apply (kept_le _ _ (o + zlen d1)); [lia|done]|].
  apply piece_app; [done|]. split; [|done]. by apply (piece_kept b1 _ (o + zlen d1)); [..|lia| |].
Qed.

Section Encoder.
Context {U : Type} (cb : sproto_arg -> seff U (Z * list Z)) (x : field).

Lemma call_ok a sz w u u' : cb a u = eret (sz, w, u') -> zlen w <= length_ a -> call cb a u = eret (sz, w, u').
Proof. intros H Hl. unfold call, sbind. rewrite H. cbn [eret]. rewrite (proj2 (Z.leb_le _ _)) by done. done. Qed.

Lemma integer_loop_ok t h S0 r u' : forall fuel p w buf u, (length r < fuel)%nat ->
  (w = 4%nat /\ Forall (fun z => small z = true) p \/ w = 8%nat) ->
  0 <= h -> 8 * (zlen p + zlen r) <= S0 -> h + 1 + S0 <= zlen buf < 2 ^ 31 -> piece buf (h + 1) (ints w p) ->
  answers_from cb x t (zlen p + 1) (map EInt r) u u' ->
  let w' := if forallb small r then w else 8%nat in
  landed (integer_loop cb fuel (arg_of x t [] 0 0) buf h (h + 1 + Z.of_nat (w * length p)) (S0 - Z.of_nat (w * length p)) (Z.of_nat w) (zlen p + 1))
    buf (h + 1) (ints w' (p ++ r)) (Some (h + 1 + Z.of_nat (w' * length (p ++ r)), Z.of_nat w')) u u'.
Proof.
  induction r as [|z r IH]; intros fuel p w buf u Hf Hw Hh HS Hb Hp Ha w'; destruct fuel as [|fuel]; cbn [length] in *; try lia;
    unfold landed; cbn [integer_loop map answers_from] in *; unfold sbind, slift, sret.
  - rewrite app_nil_r. rewrite (call_ok _ 0 [] u u') by (apply Ha || (cbn; lia)). cbn [sbind sret slift eret Z.ltb Z.eqb Z.compare].
    exists buf. done.
  - destruct Ha as (u1 & Hz & Ha). specialize (Hz []).
    assert (u64 (S0 - Z.of_nat (w * length p)) = S0 - Z.of_nat (w * length p)) as Eu by (apply Z.mod_small; destruct Hw as [[-> _]| ->]; lia).
    assert (forall q b2, piece b2 (h + 1) (ints q (p ++ [z])) -> zlen b2 = zlen buf -> kept buf b2 (h + 1) ->
      (q = 4%nat /\ Forall (fun z => small z = true) (p ++ [z]) \/ q = 8%nat) -> w' = (if forallb small r then q else 8%nat) ->
      landed (integer_loop cb fuel (arg_of x t [] 0 0) b2 h (h + 1 + Z.of_nat (q * length p) + Z.of_nat q)
          (S0 - Z.of_nat (q * length p) - Z.of_nat q) (Z.of_nat q) (zlen p + 1 + 1))
        buf (h + 1) (ints w' (p ++ z :: r)) (Some (h + 1 + Z.of_nat (w' * length (p ++ z :: r)), Z.of_nat w')) u1 u') as Next.
    { intros q b2 P2 L2 K2 Hq Ew. destruct (IH fuel (p ++ [z]) q b2 u1) as (buf' & E & K & P); try lia; try done.
      - rewrite length_app. cbn [length]. lia.
      - rewrite length_app. cbn [length]. by replace (Z.of_nat (length p + 1) + 1) with (zlen p + 1 + 1) by lia.
      - rewrite <- app_assoc in E, P. cbn [app] in E, P. rewrite <- Ew in E, P. exists buf'. rewrite <- E. split_and!; [|by apply (kept_trans _ b2)|done].
        rewrite !length_app. cbn [length]. f_equal; lia. }
    destruct (small z) eqn:Sz.
    + rewrite (call_ok _ 4 (put_le 4 z) u u1) by (apply Hz || (cbn; lia)). cbn [sbind sret slift eret Z.ltb Z.eqb Z.compare Pos.compare Pos.compare_cont Pos.eqb].
      rewrite Eu. replace (_ <? 8) with false by (symmetry; apply Z.ltb_ge; destruct Hw as [[-> _]| ->]; lia).
      rewrite union_small. cbn [sbind sret slift eret].
      destruct (store_int32 buf (h + 1 + Z.of_nat (w * length p)) w z) as (b1 & b2 & -> & E2 & W); [done|tauto|lia|destruct Hw as [[-> _]| ->]; lia|].
      cbn [sbind sret slift eret]. rewrite E2. cbn [sbind sret slift eret].
      destruct (ints_step buf b2 (h + 1) w p z) as [P2 K2]; [lia|destruct Hw as [[-> _]| ->]; lia|done..|].
      apply Next; [done|by destruct W as [-> _]|done| |subst w'; cbn [forallb]; rewrite Sz; done].
      destruct Hw as [[-> Hw]| ->]; [left|by right]. split; [done|]. apply Forall_app. split; [done|]. by constructor.
    + rewrite (call_ok _ 8 (put_le 8 z) u u1) by (apply Hz || (cbn; lia)). cbn [sbind sret slift eret Z.ltb Z.eqb Z.compare Pos.compare Pos.compare_cont Pos.eqb negb].
      rewrite Eu. replace (_ <? 8) with false by (symmetry; apply Z.ltb_ge; destruct Hw as [[-> _]| ->]; lia).
      assert (exists b0, (if Z.of_nat w =? 4 then
          if u64 (i32 (S0 - Z.of_nat (w * length p) - (zlen p + 1 - 1) * 4)) <? 8 then sret None
          else let+ buf := slift (rearrange (Z.to_nat (zlen p + 1 - 1)) buf h) in
            sret (Some (buf, h + 1 + Z.of_nat (w * length p) + (zlen p + 1 - 1) * 4, i32 (S0 - Z.of_nat (w * length p) - (zlen p + 1 - 1) * 4)))
          else sret (Some (buf, h + 1 + Z.of_nat (w * length p), S0 - Z.of_nat (w * length p)))) u1 =
        eret (Some (b0, h + 1 + Z.of_nat (8 * length p), S0 - Z.of_nat (8 * length p)), u1) /\
        piece b0 (h + 1) (ints 8 p) /\ kept buf b0 (h + 1)) as (b0 & E0 & P0 & K0).
      { destruct Hw as [[-> Hw]| ->]; [|exists buf; done]. change (Z.of_nat 4 =? 4) with true. cbv match.
        replace (i32 _) with (S0 - Z.of_nat (8 * length p)) by (unfold i32; rewrite Z.mod_small; lia).
        replace (u64 _) with (S0 - Z.of_nat (8 * length p)) by (symmetry; apply Z.mod_small; lia).
        rewrite (proj2 (Z.ltb_ge _ _)) by lia. replace (Z.to_nat (zlen p + 1 - 1)) with (length p) by lia. unfold sbind, slift, sret.
        destruct (rearrange_ok p buf h) as (b0 & -> & W0); [done..|lia|]. exists b0. cbn [eret].
        split_and!; [repeat (lia || f_equal)|by apply (piece_wrote buf); [lia|]|by apply (wrote_kept _ _ _ (ints 8 p)); [lia|]]. }
      unfold sbind, slift, sret in E0. rewrite E0. cbn [sbind sret slift eret]. rewrite union_large. cbn [sbind sret slift eret]. rewrite (put_le_mod 8). pose proof (proj1 K0) as L0.
      destruct (put_wrote b0 (h + 1 + Z.of_nat (8 * length p)) (put_le 8 z)) as (b1 & -> & W1); [lia|rewrite put_le_length; lia|].
      cbn [sbind sret slift eret]. destruct (ints_step b0 b1 (h + 1) 8 p z) as [P1 K1]; [lia..|done|done|].
      apply (Next 8%nat); [done|rewrite (proj1 W1); lia|by apply (kept_trans _ b0)|by right|subst w'; cbn [forallb]; rewrite Sz; by destruct forallb].
Qed.

Lemma int_elems l : Forall (elem_ok SPROTO_TINTEGER) l -> exists zs, l = map EInt zs.
Proof.
  induction 1 as [|e l He _ [zs ->]]; [by exists []|].
  destruct e as [z|b|d n]; cbn in He; [by exists (z :: zs)|done|destruct He as [[?|[? _]] _]; done].
Qed.
Lemma bool_elems l : Forall (elem_ok SPROTO_TBOOLEAN) l -> exists bs, l = map EBool bs.
Proof.
  induction 1 as [|e l He _ [zs ->]]; [by exists []|].
  destruct e as [z|b|d n]; cbn in He; [by destruct He|by exists (b :: zs)|destruct He as [[?|[? _]] _]; done].
Qed.

Lemma int_size_ints zs : int_size (map EInt zs) = if forallb small zs then 4%nat else 8%nat.
Proof.
  unfold int_size. replace (forallb _ (map EInt zs)) with (forallb small zs); [done|].
  induction zs as [|z zs IH]; [done|]. cbn [forallb map]. by rewrite IH.
Qed.

Lemma encode_integer_array_ok l buf o size u u' : Forall (elem_ok SPROTO_TINTEGER) l -> answers_from cb x SPROTO_TINTEGER 1 l u u' ->
  0 <= o -> 8 * zlen l + 1 <= size -> o + size <= zlen buf < 2 ^ 31 ->
  let d := if decide (l = []) then [] else body SPROTO_TINTEGER l in
  landed (encode_integer_array cb (arg_of x SPROTO_TINTEGER [] 0 0) buf o size) buf o d (Some (o + zlen d)) u u'.
Proof.
  intros [zs ->]%int_elems Ha Ho Hs Hb d. rewrite length_map in Hs.
  unfold landed, encode_integer_array, sbind, slift, sret. rewrite (proj2 (Z.ltb_ge _ _)) by lia.
  destruct (integer_loop_ok SPROTO_TINTEGER o (size - 1) zs u' (S (length buf)) [] 4%nat buf u) as (b1 & E & K1 & P1);
    [lia|by left|lia|cbn [length]; lia|lia|done|exact Ha|].
  cbn [app length] in E, P1. rewrite Z.add_0_r, Z.sub_0_r in E. change (Z.of_nat 0 + 1) with 1 in E.
  change (Z.of_nat 4) with 4 in E. rewrite E. cbn [sbind sret slift eret].
  rewrite <- int_size_ints in P1 |- *. set (w := int_size (map EInt zs)) in *.
  assert (w = 4 \/ w = 8)%nat as Hw by (subst w; rewrite int_size_ints; destruct (forallb small zs); auto).
  destruct (Z.eqb_spec (o + 1 + Z.of_nat (w * length zs)) (o + 1)).
  - assert (zs = []) as -> by (destruct zs; [done|exfalso; clear - e Hw; cbn [length] in e; nia]). exists b1. cbn. rewrite Z.add_0_r. split; [done|]. split; [|done].
    by apply (kept_le _ _ (o + 1)); [lia|].
  - destruct (aset_wrote b1 o (Z.of_nat w)) as (b2 & -> & W2); [rewrite (proj1 K1); lia|]. cbn [sbind sret slift eret].
    subst d. rewrite decide_False by (intros Hm; destruct zs; [cbn [length] in *; lia|done]). exists b2. unfold body. cbn [Z.eqb SPROTO_TINTEGER]. fold w.
    assert (concat (map (elem_data w) (map EInt zs)) = ints w zs) as -> by (unfold ints; by rewrite map_map).
    cbn [length]. rewrite ints_length. split; [repeat (lia || f_equal)|]. split.
    + apply (kept_trans _ b1); [by apply (kept_le _ _ (o + 1)); [lia|]|]. by apply (wrote_kept _ _ _ [Z.of_nat w]); [rewrite (proj1 K1); lia|].
    + apply (piece_app _ _ [Z.of_nat w]); [done|]. split; [by apply (piece_wrote b1); [rewrite (proj1 K1); lia|]|].
      by apply (piece_behind b1 _ o [Z.of_nat w]); [|cbn [length]; lia| |].
Qed.

Lemma boolean_loop_ok l u' : forall fuel buf b size i u, (length l < fuel)%nat -> Forall (elem_ok SPROTO_TBOOLEAN) l ->
  answers_from cb x SPROTO_TBOOLEAN i l u u' -> 0 <= b -> zlen l <= size -> b + size <= zlen buf ->
  landed (boolean_loop cb fuel (arg_of x SPROTO_TBOOLEAN [] 0 0) buf b size i) buf b (body SPROTO_TBOOLEAN l) (Some (b + zlen (body SPROTO_TBOOLEAN l))) u u'.
Proof.
  induction l as [|e l IH]; intros [|fuel] buf b size i u Hf Hl Ha Hb Hs Hz; cbn [length] in *; try lia; cbn [boolean_loop answers_from] in *.
  - unfold landed, sbind. rewrite (call_ok _ 0 [] u u') by (apply Ha || (cbn; lia)).
    cbn. rewrite Z.add_0_r. by exists buf.
  - apply Forall_cons in Hl as [He Hl]. destruct Ha as (u1 & Ha1 & Ha).
    destruct e as [z|v|d n]; [by destruct He|clear He|destruct He as [[?|[? _]] _]; done].
    unfold landed, sbind, slift. rewrite (call_ok _ 4 (put_le 4 (Z.b2z v)) u u1) by (apply Ha1 || (cbn; lia)).
    cbn [sbind sret slift eret Z.ltb Z.eqb Z.compare]. rewrite (proj2 (Z.ltb_ge _ _)) by lia.
    replace (if get_le _ =? 0 then 0 else 1) with (Z.b2z v) by (by destruct v).
    destruct (aset_wrote buf b (Z.b2z v)) as (b1 & -> & W1); [lia|]. cbn [sbind sret slift eret].
    change (body SPROTO_TBOOLEAN (EBool v :: l)) with ([Z.b2z v] ++ body SPROTO_TBOOLEAN l).
    apply (landed_step _ _ b1); [done|by apply (wrote_kept _ _ _ [Z.b2z v]); [lia|]|by apply (piece_wrote buf); [lia|]|].
    rewrite length_app, Nat2Z.inj_add, Z.add_assoc. apply (IH fuel b1 (b + 1)); [lia|done|done|lia|lia|rewrite (proj1 W1); lia].
Qed.

(** An object behind its size. *)
Lemma object_write t i buf b size l nd u u' : elem_ok t (EObj l nd) -> answers cb x t i (EObj l nd) u u' ->
  0 <= b -> nd <= size -> b + 4 + size <= zlen buf < 2 ^ 31 ->
  exists w b1 b2, call cb (arg_of x t (slice buf (b + 4) size) size i) u = eret (if t =? SPROTO_TSTRING then zlen l + 1 else zlen l, w, u') /\
    put buf (b + 4) w = Some b1 /\ fill_size b1 b (zlen l) = Some (b2, zlen l + 4) /\
    kept buf b2 b /\ piece b2 b (put_le 4 (zlen l) ++ l).
Proof.
  intros He Ha Hb Hn Hl. destruct He as [_ He0]. destruct (Ha (slice buf (b + 4) size) size) as (w & E & Hw & Hp); [unfold slice; rewrite length_take, length_drop; lia|lia|]. exists w.
  destruct (put_wrote buf (b + 4) w) as (b1 & E1 & W1); [lia..|]. pose proof (proj1 W1) as L1.
  destruct (fill_size_ok b1 b (zlen l)) as (b2 & E2 & W2); [lia..|]. exists b1, b2. split_and!; [by apply call_ok|done|done| |].
  - apply (kept_trans _ b1); [by apply (wrote_keeps _ _ (b + 4) w); [lia..|]|by apply (wrote_kept _ _ _ (put_le 4 (zlen l))); [lia|]].
  - apply piece_app; [done|]. split; [by apply (piece_wrote b1); [lia|]|]. rewrite put_le_length.
    apply (piece_behind b1 _ b (put_le 4 (zlen l))); [done|rewrite put_le_length; lia|done|].
    assert (piece b1 (b + 4) w) as P by (apply (piece_wrote buf); [lia|done]).
    rewrite <- (take_drop (length l) w), Hp in P. by apply piece_app in P as [P _]; [|lia].
Qed.

Lemma obj_elem t e : t = SPROTO_TSTRING \/ t = SPROTO_TSTRUCT -> elem_ok t e ->
  exists l nd, e = EObj l nd /\ zlen l <= nd /\
    (if t =? SPROTO_TSTRING then zlen l + 1 else zlen l) > 0 /\
    (if t =? SPROTO_TSTRING then (if t =? SPROTO_TSTRING then zlen l + 1 else zlen l) - 1
     else (if t =? SPROTO_TSTRING then zlen l + 1 else zlen l)) = zlen l.
Proof.
  intros Ht He. destruct e as [z|v|l nd]; cbn in He; [by destruct He as [-> _], Ht|by rewrite He in Ht; destruct Ht|].
  exists l, nd. destruct He as [He Hn]. split_and!; [done..| |].
  - destruct He as [-> | [-> ?]]; cbn; lia.
  - destruct Ht as [-> | ->]; cbn; lia.
Qed.

Lemma obj_need_nonneg t l : t = SPROTO_TSTRING \/ t = SPROTO_TSTRUCT -> Forall (elem_ok t) l -> 0 <= obj_need l.
Proof.
  intros Ht. induction 1 as [|e l He Hl IH]; [done|]. destruct (obj_elem t e Ht He) as (d & nd & -> & Hn & _). cbn [obj_need foldr elem_need]. fold (obj_need l). lia.
Qed.

Lemma object_loop_ok t l u' : t = SPROTO_TSTRING \/ t = SPROTO_TSTRUCT -> forall fuel buf b size i u, (length l < fuel)%nat ->
  Forall (elem_ok t) l -> answers_from cb x t i l u u' -> 0 <= b -> obj_need l + 4 <= size -> b + size <= zlen buf < 2 ^ 31 ->
  landed (object_loop cb fuel (arg_of x t [] 0 0) buf b size i) buf b (body t l) (Some (b + zlen (body t l))) u u'.
Proof.
  intros Ht. induction l as [|e l IH]; intros [|fuel] buf b size i u Hf Hl Ha Hb Hs Hz; cbn [length] in *; try lia; cbn [object_loop answers_from] in *;
    unfold landed, sbind, slift, sret.
  - change SIZEOF_LENGTH with 4. cbn in Hs. rewrite (proj2 (Z.ltb_ge _ _)) by lia.
    rewrite (call_ok _ 0 [] u u') by (apply Ha || (cbn; lia)).
    cbn [sbind sret slift eret].
    destruct (put_wrote buf (b + 4) []) as (b1 & -> & W1); [lia|cbn; lia|].
    exists b1. replace (body t []) with (@nil Z) by (by destruct Ht as [-> | ->]). cbn [length]. rewrite Z.add_0_r. split; [done|].
    split; [|done]. by apply (wrote_keeps _ _ (b + 4) []); [lia..|].
  - apply Forall_cons in Hl as [He Hl]. destruct Ha as (u1 & Ha1 & Ha).
    destruct (obj_elem t e Ht He) as (d & nd & -> & Hn & Hsz & Esz). cbn [obj_need foldr elem_need] in Hs. fold (obj_need l) in Hs.
    pose proof (obj_need_nonneg t l Ht Hl). change SIZEOF_LENGTH with 4. rewrite (proj2 (Z.ltb_ge _ _)) by lia.
    destruct (object_write t i buf b (size - 4) d nd u u1 He Ha1) as (w & b1 & b2 & E1 & E2 & E3 & K & P); [lia..|].
    change (set_arg (arg_of x t [] 0 0) (slice buf (b + 4) (size - 4)) (size - 4) i) with (arg_of x t (slice buf (b + 4) (size - 4)) (size - 4) i).
    rewrite E1. cbn [sbind sret slift eret]. rewrite E2. cbn [sbind sret slift eret].
    destruct (Z.eqb_spec (if t =? SPROTO_TSTRING then zlen d + 1 else zlen d) 0); [lia|].
    rewrite (proj2 (Z.ltb_ge _ 0)) by lia. cbn [arg_of atype]. rewrite Esz, E3. cbn [sbind sret slift eret].
    replace (body t (EObj d nd :: l)) with ((put_le 4 (zlen d) ++ d) ++ body t l) by (by destruct Ht as [-> | ->]).
    apply (landed_step _ _ b2); [done..|]. rewrite (length_app (put_le 4 _ ++ d)), Nat2Z.inj_add, Z.add_assoc.
    assert (zlen (put_le 4 (zlen d) ++ d) = 4 + zlen d) as -> by (rewrite length_app, put_le_length; lia).
    rewrite (Z.add_assoc b 4). apply IH; [lia|done|done|lia|lia|]. rewrite (proj1 K). lia.
Qed.

Lemma fill_size_lands buf b1 o d (u : U) : 0 <= o -> o + 4 <= zlen buf -> kept buf b1 (o + 4) -> piece b1 (o + 4) d ->
  landed (slift (fill_size b1 o (zlen d))) buf o (put_le 4 (zlen d) ++ d) (zlen d + 4) u u.
Proof.
  intros Ho Hl K P. unfold landed, slift. pose proof (proj1 K) as L. destruct (fill_size_ok b1 o (zlen d)) as (b2 & -> & W); [lia..|].
  exists b2. split; [done|]. split.
  - apply (kept_trans _ b1); [by apply (kept_le _ _ (o + 4)); [lia|]|by apply (wrote_kept _ _ _ (put_le 4 (zlen d))); [lia|]].
  - apply piece_app; [done|]. split; [by apply (piece_wrote b1); [lia|]|]. rewrite put_le_length.
    by apply (piece_behind b1 _ o (put_le 4 (zlen d))); [|rewrite put_le_length| |].
Qed.

Lemma scalar_need t l : t = SPROTO_TINTEGER \/ t = SPROTO_TBOOLEAN -> Forall (elem_ok t) l -> obj_need l = 8 * zlen l.
Proof.
  intros Ht. induction 1 as [|e l He _ IH]; [done|]. cbn [obj_need foldr length]. fold (obj_need l). rewrite IH.
  destruct e; cbn [elem_need]; [lia..|]. exfalso. destruct Ht as [-> | ->], He as [[He|[He _]] _]; discriminate.
Qed.

Lemma body_nil t l : t <> SPROTO_TINTEGER -> Forall (elem_ok t) l -> zlen (body t l) = 0 -> l = [].
Proof.
  intros Ht He. unfold body. rewrite (proj2 (Z.eqb_neq _ _)) by done. destruct He as [|e l He _]; [done|]. cbn [map concat].
  rewrite length_app. destruct e; cbn [elem_data length]; rewrite ?length_app, ?put_le_length; try lia. by destruct He.
Qed.

Lemma encode_array_ok t l buf o size u u' : 0 <= t <= 3 -> Forall (elem_ok t) l -> answers_from cb x t 1 l u u' ->
  0 <= o -> need (Some (Many l)) <= size -> o + size <= zlen buf < 2 ^ 31 ->
  let d := if decide (l = []) then [] else array_data t l in
  landed (encode_array cb (arg_of x t [] 0 0) buf o size) buf o d (zlen d) u u'.
Proof.
  intros Ht Hl Ha Ho Hs Hb d. cbn [need] in Hs. unfold landed, encode_array, sbind. change SIZEOF_LENGTH with 4.
  assert (0 <= obj_need l) as Hn.
  { destruct (decide (t = SPROTO_TSTRING \/ t = SPROTO_TSTRUCT)) as [E|E]; [by apply (obj_need_nonneg t)|].
    rewrite (scalar_need t) by (done || unfold SPROTO_TSTRING, SPROTO_TSTRUCT, SPROTO_TINTEGER, SPROTO_TBOOLEAN in *; lia). lia. }
  rewrite (proj2 (Z.ltb_ge _ _)) by lia. cbn [arg_of atype].
  set (d0 := if decide (l = []) then [] else body t l).
  assert (landed (if t =? SPROTO_TINTEGER then encode_integer_array cb (arg_of x t [] 0 0) buf (o + 4) (size - 4)
    else if t =? SPROTO_TBOOLEAN then boolean_loop cb (S (length buf)) (arg_of x t [] 0 0) buf (o + 4) (size - 4) 1
    else object_loop cb (S (length buf)) (arg_of x t [] 0 0) buf (o + 4) (size - 4) 1) buf (o + 4) d0 (Some (o + 4 + zlen d0)) u u') as (b1 & E & K & P).
  { destruct (Z.eqb_spec t SPROTO_TINTEGER) as [-> |N0].
    { pose proof (scalar_need _ l (or_introl eq_refl) Hl). apply encode_integer_array_ok; [done..|lia|lia|lia]. }
    assert (d0 = body t l) as ->.
    { subst d0. case_decide as E; [|done]. subst l. by unfold body; rewrite (proj2 (Z.eqb_neq _ _)). }
    destruct (Z.eqb_spec t SPROTO_TBOOLEAN) as [-> |N1].
    { pose proof (scalar_need _ l (or_intror eq_refl) Hl). apply boolean_loop_ok; [lia|done..|lia|lia|lia]. }
    assert (t = SPROTO_TSTRING \/ t = SPROTO_TSTRUCT) as Hc by (unfold SPROTO_TSTRING, SPROTO_TSTRUCT, SPROTO_TINTEGER, SPROTO_TBOOLEAN in *; lia).
    apply object_loop_ok; [done| |done..|lia|lia|lia].
    enough (zlen l <= obj_need l) by lia. clear - Hl Hc. induction Hl as [|e l He Hl IH]; [done|].
    destruct (obj_elem _ _ Hc He) as (? & ? & -> & ? & _). cbn [obj_need foldr length elem_need]. fold (obj_need l). lia. }
  rewrite E. cbn [sbind sret slift eret]. replace (o + 4 + zlen d0 - (o + 4)) with (zlen d0) by lia.
  destruct (Z.eqb_spec (zlen d0) 0) as [E0|E0].
  - assert (l = []) as El. { subst d0. case_decide as D; [done|]. destruct (decide (t = SPROTO_TINTEGER)) as [-> |]; [done|by apply (body_nil t)]. }
    subst d. rewrite decide_True by done. exists b1. split; [done|]. split; [by apply (kept_le _ _ (o + 4)); [lia|]|done].
  - subst d d0. case_decide as D; [done|]. unfold array_data. rewrite length_app, put_le_length, Nat2Z.inj_add, Z.add_comm. by apply fill_size_lands; [|lia| |].
Qed.

(** What the encoder of a field leaves. *)
Definition field_done (v : option val) (buf : list Z) (o : Z) (m : seff U (list Z * Z * Z)) (u u' : U) : Prop :=
  exists buf' r sz, m u = eret (buf', r, sz, u') /\ kept buf buf' o /\
    match wire x v with
    | None => r = 0 /\ sz = 0
    | Some (r', d) => r = r' /\ 0 < sz /\ (if r =? 0 then sz = zlen d else d = []) /\ piece buf' o d
    end.

Lemma encode_number_lands buf o n z (u : U) : 0 <= o -> o + 4 + Z.of_nat n <= zlen buf ->
  exists b1, put buf (o + 4) (put_le n z) = Some b1 /\
    landed (slift (fill_size b1 o (Z.of_nat n))) buf o (put_le 4 (Z.of_nat n) ++ put_le n z) (Z.of_nat n + 4) u u.
Proof.
  intros Ho Hl. destruct (put_ok buf (o + 4) (put_le n z)) as (b1 & -> & L & K & P); [lia|rewrite put_le_length; lia|]. exists b1. split; [done|].
  pose proof (fill_size_lands buf b1 o (put_le n z) u Ho ltac:(lia) K P) as E. by rewrite put_le_length in E.
Qed.

Lemma encode_int_field z buf o size u u' : is_array (type x) = false -> type x = SPROTO_TINTEGER -> answers cb x (type x) 0 (EInt z) u u' ->
  0 <= o -> 12 <= size -> o + size <= zlen buf < 2 ^ 31 -> - 2 ^ 63 <= z < 2 ^ 63 ->
  field_done (Some (One (EInt z))) buf o (encode_field cb x buf o size) u u'.
Proof.
  intros Hx Ht Ha Ho Hs Hb Hz. unfold encode_field, sbind, slift, sret. rewrite Hx, (proj2 (Z.eqb_eq (type x) _)) by done. cbn [orb].
  assert (u64 size = size) as Eu by (apply Z.mod_small; lia). specialize (Ha []). unfold field_done. cbn [wire].
  destruct (small z) eqn:Sz.
  - rewrite (call_ok _ 4 (put_le 4 z) u u') by (apply Ha || (cbn; lia)). cbn [sbind sret slift eret Z.ltb Z.eqb Z.compare Pos.compare Pos.compare_cont Pos.eqb].
    rewrite union_small. cbn [sbind sret slift eret]. apply small_spec in Sz.
    assert ((z mod 2 ^ 32 <? 0x7fff) = (0 <=? z) && (z <? 0x7fff)) as ->.
    { destruct (Z.leb_spec 0 z); cbn [andb]; [by rewrite Z.mod_small by lia|]. apply Z.ltb_ge. zdiv. }
    destruct (Z.leb_spec 0 z), (Z.ltb_spec z 0x7fff); cbn [andb].
    1: { exists buf, ((z + 1) * 2), 2. rewrite Z.mod_small by lia. rewrite (proj2 (Z.eqb_neq _ _)) by lia. done. }
    all: unfold encode_integer; change (u64 (SIZEOF_LENGTH + 4)) with 8; rewrite Eu, (proj2 (Z.ltb_ge _ _)) by lia; rewrite (put_le_mod 4);
      destruct (encode_number_lands buf o 4 z u') as (b1 & -> & b2 & E & K & P); [lia..|]; cbn [mbind option_bind]; 
      change (Z.of_nat 4) with 4 in *; unfold slift in E; rewrite E; cbn [sbind sret slift eret]; exists b2, 0, 8;
      rewrite length_app, !put_le_length; split_and!; done.
  - assert ((0 <=? z) && (z <? 0x7fff) = false) as ->.
    { apply not_true_iff_false. intros E. assert (small z = true); [|congruence]. apply small_spec. apply andb_true_iff in E as [?%Z.leb_le ?%Z.ltb_lt]. lia. }
    rewrite (call_ok _ 8 (put_le 8 z) u u') by (apply Ha || (cbn; lia)). cbn [sbind sret slift eret Z.ltb Z.eqb Z.compare Pos.compare Pos.compare_cont Pos.eqb].
    rewrite union_large. cbn [sbind sret slift eret]. unfold encode_uint64. change (u64 (SIZEOF_LENGTH + 8)) with 12. rewrite Eu, (proj2 (Z.ltb_ge _ _)) by lia. rewrite (put_le_mod 8).
    destruct (encode_number_lands buf o 8 z u') as (b1 & -> & b2 & E & K & P); [lia..|]. cbn [mbind option_bind].
    change (Z.of_nat 8) with 8 in *. unfold slift in E. rewrite E. cbn [sbind sret slift eret]. exists b2, 0, 12. rewrite length_app, !put_le_length. split_and!; done.
Qed.

Lemma encode_bool_field b buf o size u u' : is_array (type x) = false -> type x = SPROTO_TBOOLEAN -> answers cb x (type x) 0 (EBool b) u u' ->
  field_done (Some (One (EBool b))) buf o (encode_field cb x buf o size) u u'.
Proof.
  intros Hx Ht Ha. unfold field_done, encode_field, sbind, slift, sret. rewrite Hx, Ht. rewrite Ht in Ha. replace ((SPROTO_TBOOLEAN =? SPROTO_TINTEGER) || (SPROTO_TBOOLEAN =? SPROTO_TBOOLEAN)) with true by done. cbv iota beta.
  rewrite (call_ok _ 4 (put_le 4 (Z.b2z b)) u u') by (apply Ha || (cbn; lia)).
  exists buf, ((Z.b2z b + 1) * 2), 2. cbn [wire]. by destruct b.
Qed.

Lemma encode_object_field l nd buf o size u u' : is_array (type x) = false -> elem_ok (type x) (EObj l nd) -> answers cb x (type x) 0 (EObj l nd) u u' ->
  0 <= o -> 4 + nd <= size -> o + size <= zlen buf < 2 ^ 31 ->
  field_done (Some (One (EObj l nd))) buf o (encode_field cb x buf o size) u u'.
Proof.
  intros Hx He Ha Ho Hs Hb. unfold field_done, encode_field. rewrite Hx.
  assert (type x = SPROTO_TSTRING \/ type x = SPROTO_TSTRUCT) as Ht by (cbn in He; tauto).
  replace ((type x =? SPROTO_TINTEGER) || (type x =? SPROTO_TBOOLEAN)) with false by (by destruct Ht as [-> | ->]).
  replace ((type x =? SPROTO_TSTRUCT) || (type x =? SPROTO_TSTRING)) with true by (by destruct Ht as [-> | ->]).
  destruct (obj_elem _ _ Ht He) as (? & ? & [= <- <-] & Hn & Hsz & Esz).
  unfold encode_object, sbind, slift, sret. change SIZEOF_LENGTH with 4. rewrite (proj2 (Z.ltb_ge _ _)) by lia.
  destruct (object_write (type x) 0 buf o (size - 4) l nd u u' He Ha) as (w & b1 & b2 & E1 & E2 & E3 & K & P); [lia..|].
  change (set_arg _ _ _ _) with (arg_of x (type x) (slice buf (o + 4) (size - 4)) (size - 4) 0). rewrite E1. cbn [sbind sret slift eret]. rewrite E2. cbn [sbind sret slift eret].
  rewrite (proj2 (Z.leb_gt _ 0)) by lia. cbn [atype]. rewrite Esz, E3. cbn [sbind sret slift eret].
  exists b2, 0, (zlen l + 4). cbn [wire]. rewrite length_app, put_le_length. split_and!; try done; cbn; lia.
Qed.

Lemma encode_none_field buf o size u u' : 0 <= base_type (type x) <= 3 -> (is_array (type x) = false -> base_type (type x) = type x) ->
  serves cb x None u u' -> 0 <= o -> 20 <= size -> o + size <= zlen buf < 2 ^ 31 -> field_done None buf o (encode_field cb x buf o size) u u'.
Proof.
  intros Ht Hbt Ha Ho Hs Hb. unfold field_done, encode_field, sbind, slift, sret. cbn [serves] in Ha. destruct (is_array (type x)).
  - destruct (encode_array_ok (base_type (type x)) [] buf o size u u') as (b1 & E & K & _); [done|done|exact Ha|done|cbn; lia|done|].
    unfold arg_of in E. rewrite E. by exists b1, 0, 0.
  - rewrite (Hbt eq_refl) in *. destruct ((type x =? SPROTO_TINTEGER) || (type x =? SPROTO_TBOOLEAN)) eqn:Es.
    + rewrite (call_ok _ 0 [] u u') by (apply Ha || (cbn; lia)). by exists buf, 0, 0.
    + replace ((type x =? SPROTO_TSTRUCT) || (type x =? SPROTO_TSTRING)) with true.
      2: { unfold SPROTO_TINTEGER, SPROTO_TBOOLEAN, SPROTO_TSTRING, SPROTO_TSTRUCT in *. lia. }
      unfold encode_object, sbind, slift, sret. change SIZEOF_LENGTH with 4. rewrite (proj2 (Z.ltb_ge _ _)) by lia.
      rewrite (call_ok _ 0 [] u u') by (apply Ha || (cbn; lia)). cbn [sbind sret slift eret].
      destruct (put_wrote buf (o + 4) []) as (b1 & -> & W1); [lia|cbn; lia|]. exists b1, 0, 0. split_and!; try done.
      by apply (wrote_keeps _ _ (o + 4) []); [lia..|].
Qed.

Definition field_wf : Prop := 0 <= base_type (type x) <= 3 /\ (is_array (type x) = false -> base_type (type x) = type x).

Lemma encode_field_ok v buf o size u u' : field_wf -> val_ok x v -> serves cb x v u u' -> 0 <= o -> need v <= size -> o + size <= zlen buf < 2 ^ 31 ->
  field_done v buf o (encode_field cb x buf o size) u u'.
Proof.
  intros [Ht Hbt] Hv Ha Ho Hs Hb. destruct v as [[e|l]|]; [| |by apply encode_none_field].
  - destruct Hv as [Hx He]. destruct e as [z|b|l nd]; cbn [need elem_need] in Hs.
    + apply encode_int_field; [done|apply He|done|done|lia|done|apply He].
    + by apply encode_bool_field.
    + apply encode_object_field; [done..|lia|lia].
  - destruct Hv as [Hx Hl]. destruct (encode_array_ok (base_type (type x)) l buf o size u u') as (b1 & E & K & P); [done..|].
    unfold field_done, encode_field, sbind, sret. rewrite Hx. unfold arg_of in E. rewrite E. cbn [sbind sret slift eret].
    exists b1, 0, (zlen (if decide (l = []) then [] else array_data (base_type (type x)) l)). split_and!; [done..|]. cbn [wire].
    destruct l as [|e l]; [done|]. rewrite decide_False in * by done. split_and!; [done| |done|done].
    unfold array_data. rewrite length_app, put_le_length. lia.
Qed.

End Encoder.

(** ** The records *)

Definition words (l : list Z) : list Z := concat (map (put_le 2) l).

Lemma words_app l1 l2 : words (l1 ++ l2) = words l1 ++ words l2.
Proof. unfold words. by rewrite map_app, concat_app. Qed.
Lemma words_length l : zlen (words l) = 2 * zlen l.
Proof. pose proof (ints_length 2 l) as E. unfold ints in E. unfold words. rewrite E. lia. Qed.

Lemma put_record_ok buf idx lasttag t v : 0 <= idx -> -1 <= lasttag -> t < 2 ^ 15 ->
  2 + 2 * (idx + zlen (skip_word lasttag t ++ [v])) <= zlen buf ->
  exists buf', put_record buf idx lasttag t v = Some (Some (buf', idx + zlen (skip_word lasttag t ++ [v]))) /\
    wrote buf buf' (2 + 2 * idx) (words (skip_word lasttag t ++ [v])).
Proof.
  intros Hi Hlt Ht. unfold put_record, skip_word. change SIZEOF_HEADER with 2. change SIZEOF_FIELD with 2.
  destruct (t - lasttag - 1 >? 0) eqn:Es; cbn [app length]; intros Hl.
  - rewrite Z.gtb_ltb, (proj2 (Z.ltb_ge _ _)) by lia. set (sk := (t - lasttag - 1 - 1) * 2 + 1).
    destruct (put_wrote buf (2 + 2 * idx) (put_le 2 sk)) as (b1 & -> & W1); [lia|rewrite put_le_length; lia|]. cbn [mbind option_bind].
    pose proof (proj1 W1) as L1.
    destruct (put_wrote b1 (2 + 2 * (idx + 1)) (put_le 2 v)) as (b2 & -> & W2); [lia|rewrite put_le_length; lia|]. cbn [mbind option_bind].
    exists b2. split; [repeat (lia || f_equal)|]. apply (wrote_app _ b1 _ _ (put_le 2 sk) (put_le 2 v ++ [])); [lia|done|].
    rewrite app_nil_r, put_le_length. by replace (2 + 2 * idx + Z.of_nat 2) with (2 + 2 * (idx + 1)) by lia.
  - cbn [mbind option_bind]. destruct (put_wrote buf (2 + 2 * idx) (put_le 2 v)) as (b1 & -> & W1); [lia|rewrite put_le_length; lia|].
    cbn [mbind option_bind]. exists b1. split; [done|]. unfold words. cbn [map concat]. by rewrite app_nil_r.
Qed.

(** No more records than [maxn]. *)
Lemma records_count fsv : forall last lw, lw <= last -> ascending (map fst fsv) last ->
  zlen (records fsv lw) <= count_max (map fst fsv) last + (if lw <? last then 1 else 0).
Proof.
  induction fsv as [|[x v] fsv IH]; intros last lw Hl Ha; cbn [records map fst count_max ascending length] in *.
  - destruct (lw <? last); cbn; lia.
  - destruct Ha as [Hx Ha]. destruct (wire x v) as [[r d]|].
    + rewrite length_app. cbn [length]. specialize (IH (tag x) (tag x) ltac:(lia) Ha). rewrite Z.ltb_irrefl in IH.
      unfold skip_word. destruct (tag x - lw - 1 >? 0) eqn:E1, (tag x >? last + 1) eqn:E2, (Z.ltb_spec lw last); cbn [length]; lia.
    + specialize (IH (tag x) lw ltac:(lia) Ha). rewrite (proj2 (Z.ltb_lt lw (tag x))) in IH by lia.
      destruct (tag x >? last + 1), (lw <? last); lia.
Qed.

Lemma data_bound t l : 0 <= t <= 3 -> Forall (elem_ok t) l -> zlen (body t l) <= obj_need l + 1.
Proof.
  intros Ht Hl. unfold body. assert (forall w, (w <= 8)%nat -> zlen (concat (map (elem_data w) l)) <= obj_need l) as H.
  { intros w Hw. induction Hl as [|e l He _ IH]; [done|]. cbn [map concat obj_need foldr]. fold (obj_need l). rewrite length_app.
    destruct e as [z|b|d nd]; cbn [elem_data elem_need length]; rewrite ?length_app, ?put_le_length; [lia..|]. destruct He as [_ He]. lia. }
  specialize (H (int_size l)). assert (int_size l <= 8)%nat by (unfold int_size; case_match; lia).
  destruct (t =? SPROTO_TINTEGER); cbn [length]; lia.
Qed.

Lemma wire_bound x v r d : field_wf x -> val_ok x v -> wire x v = Some (r, d) -> zlen d <= need v.
Proof.
  intros [Ht _] Hv. destruct v as [[e|l]|]; [| |done]; cbn [wire need].
  - destruct e as [z|b|l nd]; cbn [elem_need].
    + intros H. destruct ((0 <=? z) && (z <? 0x7fff)); [|destruct (small z)]; injection H as <- <-; cbn; lia.
    + by intros [= <- <-].
    + intros E. assert (d = put_le 4 (zlen l) ++ l) as -> by congruence. rewrite length_app, put_le_length. destruct Hv as [_ [_ Hn]]. lia.
  - destruct l as [|e l]; [done|]. intros E. assert (d = array_data (base_type (type x)) (e :: l)) as -> by congruence. unfold array_data. rewrite length_app, put_le_length.
    pose proof (data_bound _ (e :: l) Ht (proj2 Hv)). lia.
Qed.

Lemma need_nonneg x v : field_wf x -> val_ok x v -> 0 <= need v.
Proof.
  intros [Ht _] Hv. destruct v as [[e|l]|]; [| |done]; cbn [need].
  - destruct e as [z|b|l nd]; cbn; [lia..|]. destruct Hv as [_ [_ Hn]]. lia.
  - pose proof (data_bound _ l Ht (proj2 Hv)). lia.
Qed.

(** A field and its value. *)
Definition good (p : field * option val) : Prop := field_wf p.1 /\ tag p.1 < 2 ^ 15 /\ val_ok p.1 p.2.

Definition needs (fsv : list (field * option val)) : Z := foldr (fun p n => need p.2 + n) 0 fsv.

Lemma ascending_le fs last last' : last' <= last -> ascending fs last -> ascending fs last'.
Proof. destruct fs; [done|]. cbn. intros ? [? ?]. split; [lia|done]. Qed.

Lemma encode_fields_ok {U} (cb : sproto_arg -> seff U (Z * list Z)) h fsv u' : forall buf o size rs lasttag u, Forall good fsv ->
  serves_all cb fsv u u' -> -1 <= lasttag -> ascending (map fst fsv) lasttag ->
  piece buf 2 (words rs) -> 2 + 2 * (zlen rs + zlen (records fsv lasttag)) <= h -> h <= o -> needs fsv <= size ->
  o + size <= zlen buf < 2 ^ 31 ->
  exists buf', encode_fields cb (map fst fsv) buf o size (zlen rs) lasttag u =
      eret (buf', Some (o + zlen (data fsv), zlen (rs ++ records fsv lasttag)), u') /\
    length buf' = length buf /\ piece buf' 2 (words (rs ++ records fsv lasttag)) /\ piece buf' o (data fsv) /\
    (forall p l, h <= p -> p + zlen l <= o -> piece buf p l -> piece buf' p l).
Proof.
  induction fsv as [|[x v] fsv IH]; intros buf o size rs lasttag u Hg Hsv Hlt Has Hp Hh Ho Hs Hb; cbn [encode_fields map fst needs foldr records data serves_all] in *.
  { subst u'. exists buf. cbn. rewrite Z.add_0_r, app_nil_r. done. }
  apply Forall_cons in Hg as [(Hwf & Htag & Hv) Hg]. destruct Hsv as (u1 & Hsv & Hsvs). cbn [fst snd] in *. fold (needs fsv) in Hs. destruct Has as [Hx Has].
  pose proof (need_nonneg x v Hwf Hv) as Hn. assert (0 <= needs fsv) as Hns.
  { clear - Hg. induction Hg as [|[y w] l (Hy & _ & Hw) _ IH]; [done|]. cbn [needs foldr snd]. fold (needs l).
    pose proof (need_nonneg y w Hy Hw). lia. }
  unfold sbind, slift, sret.
  destruct (encode_field_ok cb x v buf o size u u1) as (b1 & r & sz & -> & K & Hf); [done..|lia|lia|lia|]. cbn [sbind sret slift eret].
  pose proof (proj1 K) as L1. destruct (wire x v) as [[r' d]|] eqn:Ew.
  - destruct Hf as (-> & Hsz & Hd & P). pose proof (wire_bound _ _ _ _ Hwf Hv Ew) as Hdn.
    rewrite (proj2 (Z.ltb_ge _ _)) by lia. rewrite Z.gtb_ltb, (proj2 (Z.ltb_lt _ _)) by lia.
    assert ((if r' =? 0 then (o + sz, size - sz) else (o, size)) = (o + zlen d, size - zlen d)) as ->.
    { destruct (r' =? 0); subst; [done|]. cbn [length]. by rewrite Z.add_0_r, Z.sub_0_r. }
    change (skip_word lasttag (tag x) ++ r' :: records fsv (tag x)) with (skip_word lasttag (tag x) ++ [r'] ++ records fsv (tag x)) in Hh |- *.
    rewrite (app_assoc (skip_word _ _)) in Hh |- *.
    set (ws := skip_word lasttag (tag x) ++ [r']) in *. rewrite length_app in Hh.
    destruct (put_record_ok b1 (zlen rs) lasttag (tag x) r') as (b2 & -> & W); [lia..|subst ws; lia|]. fold ws in W |- *. cbn [sbind sret slift eret].
    pose proof (proj1 W) as L2. replace (zlen rs + zlen ws) with (zlen (rs ++ ws)) by (rewrite length_app; lia).
    destruct (IH b2 (o + zlen d) (size - zlen d) (rs ++ ws) (tag x) u1) as (b3 & -> & L3 & P3 & D3 & K3); [done|done|lia|done| |rewrite length_app; lia|lia|lia|lia|].
    { rewrite words_app. apply piece_app; [lia|]. rewrite words_length. split; [|by apply (piece_wrote b1); [lia|]].
      apply (piece_kept b1 _ (2 + 2 * zlen rs)); [lia|rewrite words_length; lia|by apply (wrote_kept _ _ _ (words ws)); [lia|]|].
      by apply (piece_kept buf _ o); [lia|rewrite words_length; lia| |]. }
    assert (forall p l, h <= p -> piece b1 p l -> piece b2 p l) as B.
    { intros p l Hpl. apply (piece_behind b1 _ (2 + 2 * zlen rs) (words ws)); [lia|rewrite words_length; lia|done]. }
    exists b3. rewrite <- app_assoc in P3 |- *. split_and!; [|congruence|done| |].
    + by replace (o + zlen (d ++ data fsv)) with (o + zlen d + zlen (data fsv)) by (rewrite length_app; lia).
    + apply piece_app; [lia|]. split; [|done]. apply K3; [lia..|]. by apply B.
    + intros p l Hp1 Hp2 Hpl. apply K3; [lia..|]. apply B; [done|]. by apply (piece_kept buf _ o); [lia..| |].
  - destruct Hf as [-> ->]. change (0 <? 0) with false. change (0 >? 0) with false. cbv iota beta.
    destruct (IH b1 o size rs lasttag u1) as (b2 & -> & L2 & P2 & D2 & K2); [done|done|done|by apply (ascending_le _ (tag x)); [lia|]| |done..|lia|lia|].
    { by apply (piece_kept buf _ o); [lia|rewrite words_length; lia| |]. }
    exists b2. split_and!; [done|congruence|done|done|]. intros p l Hp1 Hp2 Hpl. apply K2; [done..|]. by apply (piece_kept buf _ o); [lia..| |].
Qed.

Lemma data_needs fsv : Forall good fsv -> zlen (data fsv) <= needs fsv.
Proof.
  induction 1 as [|[x v] l (Hx & _ & Hv) _ IH]; [done|]. cbn [data needs foldr fst snd] in *. fold (needs l).
  pose proof (need_nonneg x v Hx Hv). destruct (wire x v) as [[r d]|] eqn:Ew; [|lia]. pose proof (wire_bound _ _ _ _ Hx Hv Ew). rewrite length_app. lia.
Qed.

Lemma records_maxn ty fsv : type_wf ty -> map fst fsv = f ty -> zlen (records fsv (-1)) <= maxn ty.
Proof.
  intros Hty Hf. pose proof (records_count fsv (-1) (-1) ltac:(lia)) as Hc. rewrite Hf, <- (wf_maxn ty Hty) in Hc.
  specialize (Hc (wf_ascending ty Hty)). by rewrite Z.ltb_irrefl, Z.add_0_r in Hc.
Qed.

Lemma message_bound ty fsv : type_wf ty -> map fst fsv = f ty -> Forall good fsv -> 2 <= zlen (message fsv) <= 2 + 2 * maxn ty + needs fsv.
Proof.
  intros Hty Hf Hg. pose proof (records_maxn ty fsv Hty Hf). pose proof (data_needs fsv Hg). unfold message. fold (words (records fsv (-1))).
  rewrite !length_app, put_le_length. pose proof (words_length (records fsv (-1))). lia.
Qed.

(** The encoder leaves the message at the start of the buffer. *)
Lemma sproto_encode_ok {U} (cb : sproto_arg -> seff U (Z * list Z)) ty fsv buffer u u' : type_wf ty -> map fst fsv = f ty -> Forall good fsv ->
  serves_all cb fsv u u' ->
  2 + 2 * maxn ty + needs fsv <= zlen buffer < 2 ^ 31 -> 0 <= needs fsv ->
  landed (sproto_encode cb ty buffer) buffer 0 (message fsv) (zlen (message fsv)) u u'.
Proof.
  intros Hty Hf Hg Hsv Hb Hn. unfold landed, sproto_encode, sbind, slift, sret. change SIZEOF_HEADER with 2. change SIZEOF_FIELD with 2.
  pose proof (records_maxn ty fsv Hty Hf) as Hc. rewrite (proj2 (Z.ltb_ge _ _)) by lia.
  destruct (encode_fields_ok cb (2 + maxn ty * 2) fsv u' buffer (2 + maxn ty * 2) (zlen buffer - (2 + maxn ty * 2)) [] (-1) u) as (b1 & E & L1 & P1 & D1 & _);
    [done|done|lia|rewrite Hf; apply Hty|done|cbn [length]; lia|lia|lia|lia|].
  rewrite Hf in E. change (zlen []) with 0 in E. rewrite E. cbn [sbind sret slift eret app]. cbn [app] in P1. unfold message. fold (words (records fsv (-1))).
  set (rs := records fsv (-1)) in *. set (d := data fsv) in *.
  destruct (put_wrote b1 0 (put_le 2 (zlen rs))) as (b2 & -> & W2); [lia|rewrite put_le_length; lia|]. cbn [sbind sret slift eret]. pose proof (proj1 W2) as L2.
  pose proof (data_needs fsv Hg : zlen d <= needs fsv) as Hd.
  assert (forall p l, 2 <= p -> piece b1 p l -> piece b2 p l) as B.
  { intros p l Hpl. apply (piece_behind b1 _ 0 (put_le 2 (zlen rs))); [lia|rewrite put_le_length; lia|done]. }
  apply B in P1; [|lia]. apply B in D1; [|lia].
  assert (piece b2 0 (put_le 2 (zlen rs))) as P0 by (apply (piece_wrote b1); [lia|done]).
  replace (2 + maxn ty * 2 + zlen d - (2 + maxn ty * 2)) with (zlen d) by lia.
  assert (exists b3, (if negb (zlen rs =? maxn ty) then memcpy b2 (2 + zlen rs * 2) b2 (2 + maxn ty * 2) (zlen d) else Some b2) = Some b3 /\
    length b3 = length b2 /\ kept b2 b3 (2 + zlen rs * 2) /\ piece b3 (2 + zlen rs * 2) d) as (b3 & -> & L3 & K3 & D3).
  { destruct (Z.eqb_spec (zlen rs) (maxn ty)) as [-> |Hne]; cbn [negb]; [by exists b2|].
    destruct (memcpy_self_wrote b2 (2 + zlen rs * 2) (2 + maxn ty * 2) (zlen d) d) as (b3 & -> & W3); [lia|lia|done|done|lia|lia|].
    exists b3. split_and!; [done|apply W3|by apply (wrote_kept _ _ _ d); [lia|]|by apply (piece_wrote b2); [lia|]]. }
  cbn [sbind sret slift eret]. exists b3. split; [|split].
  - rewrite !length_app, put_le_length. pose proof (words_length rs). repeat (lia || f_equal).
  - split; [congruence|done].
  - pose proof (words_length rs). apply piece_app; [lia|]. rewrite put_le_length. split; [|apply piece_app; [lia|]; split].
    + by apply (piece_kept b2 _ (2 + zlen rs * 2)); [lia|rewrite put_le_length; lia| |].
    + by apply (piece_kept b2 _ (2 + zlen rs * 2)); [lia|lia| |].
    + by replace (0 + Z.of_nat 2 + zlen (words rs)) with (2 + zlen rs * 2) by lia.
Qed.

(** ** Reading *)

(** The bytes [l] are at [o], inside. *)
Definition has (s : list Z) (o : Z) (l : list Z) : Prop := exists pre post, s = pre ++ l ++ post /\ o = zlen pre.

Lemma has_app s o l1 l2 : has s o (l1 ++ l2) -> has s o l1 /\ has s (o + zlen l1) l2.
Proof.
  intros (pre & post & -> & ->). split.
  - exists pre, (l2 ++ post). by rewrite <- app_assoc.
  - exists (pre ++ l1), post. by rewrite length_app, <- !app_assoc, Nat2Z.inj_add.
Qed.

Lemma has_bound s o l : has s o l -> 0 <= o /\ o + zlen l <= zlen s.
Proof. intros (pre & post & -> & ->). rewrite !length_app. lia. Qed.

Lemma has_slice s o l : has s o l -> slice s o (zlen l) = l.
Proof.
  intros (pre & post & -> & ->). unfold slice. rewrite !Nat2Z.id, drop_app_length. by rewrite take_app_length.
Qed.

Lemma has_cons s o b l : has s o (b :: l) -> aget s o = Some b /\ has s (o + 1) l.
Proof.
  intros H. apply (has_app _ _ [b] l) in H as [(pre & post & -> & ->) H2]. split; [|done].
  rewrite aget_app_r by lia. by rewrite Z.sub_diag.
Qed.

Lemma toword_ok s o v : has s o (put_le 2 v) -> toword s o = Some (v mod 2 ^ 16).
Proof.
  intros H. change (2 ^ 16) with (256 ^ Z.of_nat 2). rewrite <- get_put_le. unfold toword. cbn [put_le] in *.
  apply has_cons in H as [-> H]. by apply has_cons in H as [-> _].
Qed.

Lemma todword_ok s o v : has s o (put_le 4 v) -> todword s o = Some (v mod 2 ^ 32).
Proof.
  intros H. change (2 ^ 32) with (256 ^ Z.of_nat 4). rewrite <- get_put_le. unfold todword. cbn [put_le] in *.
  apply has_cons in H as [-> H]. apply has_cons in H as [-> H]. cbn [mbind option_bind].
  replace (o + 2) with (o + 1 + 1) by lia. apply has_cons in H as [-> H]. cbn [mbind option_bind].
  replace (o + 3) with (o + 1 + 1 + 1) by lia. by apply has_cons in H as [-> _].
Qed.

Lemma expand64_ok z : - 2 ^ 31 <= z < 2 ^ 31 -> expand64 (z mod 2 ^ 32) = z mod 2 ^ 64.
Proof.
  intros Hz. unfold expand64. pose proof (word_sign z Hz) as E. destruct (Z.eqb_spec (Z.land (z mod 2 ^ 32) 0x80000000) 0); cbn [negb] in E.
  - symmetry in E. apply Z.ltb_ge in E. by rewrite !Z.mod_small by lia.
  - symmetry in E. apply Z.ltb_lt in E. replace (u64 (Z.shiftl (Z.ones 64) 32)) with (Z.shiftl (2 ^ 32 - 1) 32) by done.
    rewrite Z.lor_comm, lor_shiftl by zdiv. zdiv.
Qed.

(** The two words of a 64-bit integer. *)
Lemma todwords_ok s o z : has s o (put_le 8 z) ->
  exists low hi, todword s o = Some low /\ todword s (o + 4) = Some hi /\ Z.lor low (u64 (Z.shiftl hi 32)) = z mod 2 ^ 64.
Proof.
  intros H. change (put_le 8 z) with (put_le (4 + 4) z) in H. rewrite put_le_app in H. apply has_app in H as [H1%todword_ok H2].
  rewrite put_le_length in H2. apply todword_ok in H2. do 2 eexists. split_and!; [done|done|]. change (256 ^ Z.of_nat 4) with (2 ^ 32).
  rewrite Z.shiftl_mul_pow2 by lia. unfold u64. rewrite (Z.mod_small (_ * _)) by zdiv. rewrite <- Z.shiftl_mul_pow2 by lia.
  rewrite Z.lor_comm, lor_shiftl by zdiv. zdiv.
Qed.

(** ** Fields by tag *)

Lemma ascending_lookup fs : forall last (i : nat) y, ascending fs last -> fs !! i = Some y -> last < tag y.
Proof.
  induction fs as [|x fs IH]; intros last i y Ha Hy; [done|]. destruct Ha as [Hx Ha]. destruct i as [|i]; [by injection Hy as <-|].
  specialize (IH _ _ _ Ha Hy). lia.
Qed.

Lemma ascending_lt fs : forall last (i j : nat) x y, ascending fs last -> fs !! i = Some x -> fs !! j = Some y -> (i < j)%nat -> tag x < tag y.
Proof.
  induction fs as [|z fs IH]; intros last i j x y Ha Hx Hy Hij; [done|]. destruct Ha as [_ Ha].
  destruct j as [|j]; [lia|]. destruct i as [|i]; [injection Hx as <-; by apply (ascending_lookup fs _ j)|].
  apply (IH _ i j x y Ha Hx Hy). lia.
Qed.

Lemma bisect_ok {A} (tag_of : A -> Z) l (k : nat) x :
  (forall (i j : nat) x y, l !! i = Some x -> l !! j = Some y -> (i < j)%nat -> tag_of x < tag_of y) -> l !! k = Some x -> forall fuel b e,
  0 <= b -> b <= Z.of_nat k < e -> e <= zlen l -> e - b < Z.of_nat fuel -> bisect tag_of fuel l (tag_of x) b e = Some (Some x).
Proof.
  intros Ha Hx. induction fuel as [|fuel IH]; intros b e Hb Hk He Hf; [lia|]. cbn [bisect]. rewrite (proj2 (Z.ltb_lt _ _)) by lia.
  set (mid := (b + e) / 2). assert (b <= mid < e) as Hm by (subst mid; zdiv).
  replace mid with (Z.of_nat (Z.to_nat mid)) by lia. set (m := Z.to_nat mid). rewrite aget_nat.
  destruct (lookup_lt_is_Some_2 l m) as [y Hy]; [lia|]. rewrite Hy. cbn [mbind option_bind].
  destruct (Nat.lt_trichotomy m k) as [L|[-> |L]].
  - pose proof (Ha _ _ _ _ Hy Hx L). rewrite (proj2 (Z.eqb_neq _ _)), Z.gtb_ltb, (proj2 (Z.ltb_lt _ _)) by lia. apply IH; lia.
  - rewrite Hx in Hy. injection Hy as ->. by rewrite Z.eqb_refl.
  - pose proof (Ha _ _ _ _ Hx Hy L). rewrite (proj2 (Z.eqb_neq _ _)), Z.gtb_ltb, (proj2 (Z.ltb_ge _ _)) by lia. apply IH; lia.
Qed.

Lemma findtag_ok ty x : type_wf ty -> x ∈ f ty -> findtag ty (tag x) = Some (Some x).
Proof.
  intros Hty [k Hk]%list_elem_of_lookup. pose proof (lookup_lt_Some _ _ _ Hk). unfold findtag. rewrite Z.geb_leb.
  destruct (Z.leb_spec 0 (base ty)).
  - rewrite (wf_base ty Hty ltac:(done) k x Hk). replace (base ty + Z.of_nat k - base ty) with (Z.of_nat k) by lia.
    rewrite (proj2 (Z.ltb_ge _ _)), Z.geb_leb, (proj2 (Z.leb_gt _ _)) by lia. cbn [orb]. by rewrite aget_nat, Hk.
  - apply (bisect_ok _ _ k); [|done|lia..]. intros i j y z Hy Hz. by apply (ascending_lt _ _ _ _ _ _ (wf_ascending ty Hty)).
Qed.

(** ** The decoder *)

(** The callback takes the values [l] one after the other; its data goes from
    [u] to [u']. *)
Fixpoint takes {U} (cb : sproto_arg -> seff U Z) (l : list sproto_arg) (u u' : U) : Prop :=
  match l with
  | [] => u = u'
  | a :: l => exists u1, cb a u = eret (0, u1) /\ takes cb l u1 u'
  end.

Lemma takes_app {U} (cb : sproto_arg -> seff U Z) l1 l2 u u' : takes cb (l1 ++ l2) u u' <-> exists u1, takes cb l1 u u1 /\ takes cb l2 u1 u'.
Proof.
  revert u. induction l1 as [|a l1 IH]; intros u; cbn [takes app].
  - split; [intros H; by exists u|by intros (u1 & -> & H)].
  - split.
    + intros (u1 & E & (u2 & H1 & H2)%IH). exists u2. split; [by exists u1|done].
    + intros (u2 & (u1 & E & H1) & H2). exists u1. split; [done|]. apply IH. by exists u2.
Qed.

(** A callback that never fails. *)
Lemma takes_foldl {U} (step : U -> sproto_arg -> U) l u : takes (fun a u => eret (0, step u a)) l u (foldl step u l).
Proof. revert u. induction l as [|a l IH]; intros u; [done|]. by exists (step u a). Qed.

Section Decoder.
Context {U : Type} (cb : sproto_arg -> seff U Z) (x : field).

Lemma give_ok t s o l i u u' : has s o l -> cb (arg_of x t l (zlen l) i) u = eret (0, u') ->
  give cb (arg_of x t [] 0 0) s o (zlen l) i u = eret (0, u').
Proof.
  intros H HP. pose proof (has_bound _ _ _ H). unfold give. rewrite !(proj2 (Z.leb_le _ _)) by lia. cbn [andb].
  rewrite (has_slice _ _ _ H). change (set_arg _ _ _ _) with (arg_of x t l (zlen l) i). by rewrite HP.
Qed.

Lemma give_int_ok t v z i u u' : v = z mod 2 ^ 64 -> cb (arg_of x t (put_le 8 z) 8 i) u = eret (0, u') ->
  give_int cb (arg_of x t [] 0 0) v i u = eret u'.
Proof.
  intros -> HP. unfold give_int. change (2 ^ 64) with (256 ^ Z.of_nat 8). rewrite (put_le_mod 8 z). change (set_arg _ _ _ _) with (arg_of x t (put_le 8 z) 8 i). by rewrite HP.
Qed.

Lemma decode_integers_ok t w zs s o : (w = 4%nat /\ Forall (fun z => small z = true) zs \/ w = 8%nat) -> forall k u u',
  has s (o + k * Z.of_nat w) (ints w zs) -> takes cb (elem_events x t (k + 1) (map EInt zs)) u u' ->
  decode_integers cb (length zs) (arg_of x t [] 0 0) s o (Z.of_nat w) k u = eret u'.
Proof.
  induction zs as [|z zs IH]; intros Hw k u u' H HP; [cbn in HP |- *; by rewrite HP|]. cbn [length decode_integers map elem_events takes elem_event] in *. destruct HP as (u1 & HP1 & HP).
  assert (has s (o + k * Z.of_nat w) (put_le w z) /\ has s (o + (k + 1) * Z.of_nat w) (ints w zs)) as [H1 H2].
  { apply has_app in H as [H1 H2]. split; [done|]. rewrite put_le_length in H2.
    by replace (o + (k + 1) * Z.of_nat w) with (o + k * Z.of_nat w + Z.of_nat w) by lia. }
  assert ((if Z.of_nat w =? 4 then v ← todword s (o + k * 4); Some (expand64 v)
    else low ← todword s (o + k * 8); hi ← todword s (o + k * 8 + 4); Some (Z.lor low (u64 (Z.shiftl hi 32)))) = Some (z mod 2 ^ 64)) as ->.
  { destruct Hw as [[-> Hs]| ->].
    - change (Z.of_nat 4) with 4 in *. rewrite (todword_ok _ _ _ H1). cbn [Z.eqb Pos.eqb mbind option_bind].
      apply Forall_cons in Hs as [Hz%small_spec _]. by rewrite expand64_ok.
    - change (Z.of_nat 8) with 8 in *. destruct (todwords_ok _ _ _ H1) as (low & hi & -> & -> & <-). done. }
  cbn [elift ebind]. rewrite (give_int_ok t _ z _ _ u1) by done. cbn [ebind eret].
  apply IH; [|done|done]. destruct Hw as [[-> Hs]| ->]; [left|by right]. split; [done|]. by apply Forall_cons in Hs as [_ Hs].
Qed.

Lemma decode_booleans_ok t bs s o : forall k u u', has s (o + k) (map Z.b2z bs) -> takes cb (elem_events x t (k + 1) (map EBool bs)) u u' ->
  decode_booleans cb (length bs) (arg_of x t [] 0 0) s o k u = eret u'.
Proof.
  induction bs as [|b bs IH]; intros k u u' H HP; [cbn in HP |- *; by rewrite HP|]. cbn [map] in H. apply has_cons in H as [H1 H2].
  cbn [length decode_booleans map elem_events takes elem_event] in *. destruct HP as (u1 & HP1 & HP). rewrite H1. cbn [elift ebind].
  rewrite (give_int_ok t _ (Z.b2z b) _ _ u1) by (done || by destruct b). cbn [ebind eret]. apply IH; [|done]. by rewrite Z.add_assoc.
Qed.

Lemma decode_array_object_ok t l s : t = SPROTO_TSTRING \/ t = SPROTO_TSTRUCT -> zlen s < 2 ^ 31 -> Forall (elem_ok t) l ->
  forall fuel o i u u', (length l < fuel)%nat -> has s o (body t l) -> takes cb (elem_events x t i l) u u' ->
  decode_array_object cb fuel (arg_of x t [] 0 0) s o (zlen (body t l)) i u = eret (0, u').
Proof.
  intros Ht Hs. induction 1 as [|e l He Hl IH]; intros [|fuel] o i u u' Hf H HP; try (cbn in Hf; lia); cbn [decode_array_object elem_events takes] in *.
  - rewrite <- HP. by replace (body t []) with (@nil Z) by (by destruct Ht as [-> | ->]).
  - destruct (obj_elem t e Ht He) as (d & nd & -> & _). destruct HP as (u1 & HP1 & HP).
    replace (body t (EObj d nd :: l)) with (put_le 4 (zlen d) ++ d ++ body t l) in * by (destruct Ht as [-> | ->]; unfold body; cbn [map concat elem_data]; by rewrite app_assoc).
    pose proof (has_bound _ _ _ H) as Hb. rewrite !length_app, put_le_length in *.
    apply has_app in H as [H1 H]. rewrite put_le_length in H. apply has_app in H as [H2 H3].
    rewrite Z.gtb_ltb, (proj2 (Z.ltb_lt _ _)) by lia. change SIZEOF_LENGTH with 4. rewrite (proj2 (Z.ltb_ge _ _)) by lia.
    rewrite (todword_ok _ _ _ H1). cbn [elift ebind]. rewrite (Z.mod_small (zlen d)) by lia. unfold u32. rewrite Z.mod_small by lia.
    rewrite Z.gtb_ltb, (proj2 (Z.ltb_ge _ _)) by lia. rewrite !i32_id by lia. rewrite (give_ok t s (o + 4) d _ _ u1) by done. cbn [ebind eret Z.eqb negb].
    replace (Z.of_nat (4 + (length d + length (body t l))) - 4 - zlen d) with (zlen (body t l)) by lia.
    apply IH; [cbn in Hf; lia|done|done].
Qed.

Lemma decode_array_ok t l s o u u' : 0 <= t <= 3 -> zlen s < 2 ^ 31 -> Forall (elem_ok t) l -> has s o (array_data t l) -> takes cb (elem_events x t 1 l) u u' ->
  decode_array cb (arg_of x t [] 0 0) s o u = eret (0, u').
Proof.
  intros Ht Hs Hl H HP. unfold array_data in H. pose proof (has_bound _ _ _ H) as Hb. rewrite length_app, put_le_length in Hb.
  apply has_app in H as [H1 H]. rewrite put_le_length in H. change (Z.of_nat 4) with 4 in H.
  unfold decode_array. rewrite (todword_ok _ _ _ H1), (Z.mod_small (zlen _)) by lia. cbn [elift ebind arg_of atype]. change SIZEOF_LENGTH with 4.
  fold (arg_of x t [] 0 0). destruct (Z.eqb_spec t SPROTO_TINTEGER) as [-> |N0].
  - apply int_elems in Hl as [zs ->]. unfold body in *. cbn [Z.eqb SPROTO_TINTEGER] in *. rewrite int_size_ints in *.
    set (w := if forallb small zs then 4%nat else 8%nat) in *.
    assert (concat (map (elem_data w) (map EInt zs)) = ints w zs) as E by (unfold ints; by rewrite map_map). rewrite E in *.
    cbn [length] in *. rewrite ints_length in *. apply has_cons in H as [Hw H].
    rewrite (proj2 (Z.ltb_ge _ _)) by lia. rewrite Hw. cbn [elift ebind].
    assert ((w = 4%nat /\ Forall (fun z => small z = true) zs) \/ w = 8%nat) as Hws.
    { subst w. destruct (forallb small zs) eqn:Ef; [left|by right]. split; [done|]. rewrite Forall_forall. rewrite forallb_forall in Ef.
      intros z Hz. apply Ef. by apply list_elem_of_In. }
    replace ((Z.of_nat w =? 4) || (Z.of_nat w =? 8)) with true by (by destruct Hws as [[-> _]| ->]).
    replace (Z.of_nat (S (w * length zs)) - 1) with (zlen zs * Z.of_nat w) by lia.
    assert (0 < Z.of_nat w) by (destruct Hws as [[-> _]| ->]; lia).
    rewrite Z.mod_mul, Z.div_mul, Nat2Z.id by lia. cbn [Z.eqb negb].
    rewrite (decode_integers_ok _ w _ _ _ Hws _ _ u'); [done|by rewrite Z.add_0_r|done].
  - destruct (Z.eqb_spec t SPROTO_TBOOLEAN) as [-> |N1].
    + apply bool_elems in Hl as [bs ->]. unfold body in *. cbn [Z.eqb SPROTO_TINTEGER SPROTO_TBOOLEAN] in *.
      assert (forall w, concat (map (elem_data w) (map EBool bs)) = map Z.b2z bs) as E.
      { intros w. clear. induction bs as [|b bs IH]; [done|]. cbn [map concat elem_data app]. by f_equal. }
      rewrite E in *. rewrite length_map, Nat2Z.id. rewrite (decode_booleans_ok _ _ _ _ _ _ u') by (done || by rewrite Z.add_0_r). done.
    + assert (t = SPROTO_TSTRING \/ t = SPROTO_TSTRUCT) as Hc by (unfold SPROTO_TSTRING, SPROTO_TSTRUCT, SPROTO_TINTEGER, SPROTO_TBOOLEAN in *; lia).
      replace ((t =? SPROTO_TSTRING) || (t =? SPROTO_TSTRUCT)) with true by (by destruct Hc as [-> | ->]).
      rewrite i32_id by lia. apply decode_array_object_ok; [done..| |done|done].
      enough (zlen l <= zlen (body t l)) by lia. clear - Hl Hc. induction Hl as [|e l He Hl IH]; [cbn; lia|].
      destruct (obj_elem t e Hc He) as (d & nd & -> & _).
      replace (body t (EObj d nd :: l)) with ((put_le 4 (zlen d) ++ d) ++ body t l) by (by destruct Hc as [-> | ->]).
      rewrite !length_app, put_le_length. cbn [length]. lia.
Qed.

Lemma decode_data_ok v d s o u u' : field_wf x -> val_ok x v -> zlen s < 2 ^ 31 -> wire x v = Some (0, d) -> has s o d -> takes cb (val_events x v) u u' ->
  decode_data cb x (arg_of x (base_type (type x)) [] 0 0) s o u = eret (0, u').
Proof.
  intros [Ht Hbt] Hv Hs Hw H HP. unfold decode_data. destruct v as [[e|l]|]; [| |done].
  - destruct Hv as [Hx He]. rewrite Hx. rewrite (Hbt Hx) in *. cbn [wire] in Hw. destruct e as [z|b|l nd]; cbn [val_events takes elem_event] in *; destruct HP as (u1 & HP & ->).
    + destruct He as [Ht0 Hz]. rewrite (proj2 (Z.eqb_eq _ _)) by done. change SIZEOF_LENGTH with 4.
      assert (exists n, d = put_le 4 (Z.of_nat n) ++ put_le n z /\ (n = 4%nat /\ small z = true \/ n = 8%nat)) as (n & -> & Hn).
      { destruct (Z.leb_spec 0 z), (Z.ltb_spec z 0x7fff); cbn [andb] in Hw; [injection Hw as ? _; lia|..].
        all: exists (if small z then 4%nat else 8%nat); split; [congruence|destruct (small z); auto]. }
      apply has_app in H as [H1 H2]. rewrite put_le_length in H2. change (Z.of_nat 4) with 4 in H2.
      rewrite (todword_ok _ _ _ H1). destruct Hn as [[-> Sz%small_spec]| ->]; cbn [elift ebind].
      * change (Z.of_nat 4 mod 2 ^ 32 =? 4) with true. cbv match. rewrite (todword_ok _ _ _ H2). cbn [elift ebind].
        rewrite expand64_ok, (give_int_ok _ _ z _ _ u') by done. done.
      * change (Z.of_nat 8 mod 2 ^ 32 =? 4) with false. change (Z.of_nat 8 mod 2 ^ 32 =? 8) with true. cbn [negb].
        destruct (todwords_ok _ _ _ H2) as (low & hi & -> & -> & E). cbn [elift ebind]. rewrite E, (give_int_ok _ _ z _ _ u') by done. done.
    + injection Hw as ? _. destruct b; cbn in *; lia.
    + assert (type x = SPROTO_TSTRING \/ type x = SPROTO_TSTRUCT) as Hc by (cbn in He; tauto).
      replace (type x =? SPROTO_TINTEGER) with false by (by destruct Hc as [-> | ->]).
      replace ((type x =? SPROTO_TSTRING) || (type x =? SPROTO_TSTRUCT)) with true by (by destruct Hc as [-> | ->]).
      assert (d = put_le 4 (zlen l) ++ l) as -> by congruence. pose proof (has_bound _ _ _ H) as Hb. rewrite length_app, put_le_length in Hb.
      apply has_app in H as [H1 H2]. rewrite put_le_length in H2. change (Z.of_nat 4) with 4 in H2. change SIZEOF_LENGTH with 4.
      rewrite (todword_ok _ _ _ H1). cbn [elift ebind]. rewrite (Z.mod_small (zlen l)), i32_id by lia.
      rewrite (give_ok _ _ _ l _ _ u') by done. done.
  - destruct Hv as [Hx Hl]. rewrite Hx. cbn [wire] in Hw. destruct l as [|e l]; [done|].
    assert (d = array_data (base_type (type x)) (e :: l)) as -> by congruence. by apply (decode_array_ok _ (e :: l)).
Qed.

(** A value is in its record, or in the data behind its size. *)
Lemma wire_cases v r d : field_wf x -> val_ok x v -> wire x v = Some (r, d) ->
  r = 0 /\ (exists rest, d = put_le 4 (zlen rest) ++ rest) \/
  d = [] /\ (exists z, r = (z + 1) * 2 /\ 0 <= z < 0x7fff /\ (type x = SPROTO_TINTEGER \/ type x = SPROTO_TBOOLEAN) /\
    val_events x v = [arg_of x (base_type (type x)) (put_le 8 z) 8 0]).
Proof.
  intros [Ht Hbt] Hv Hw. destruct v as [[e|l]|]; [| |done].
  - destruct Hv as [Hx He]. rewrite (Hbt Hx). cbn [wire] in Hw. destruct e as [z|b|l nd].
    + destruct ((0 <=? z) && (z <? 0x7fff)) eqn:Ez.
      * apply andb_true_iff in Ez as [?%Z.leb_le ?%Z.ltb_lt]. injection Hw as <- <-. right. split; [done|]. exists z.
        split_and!; [done..| |done]. left. apply He.
      * left. split; [congruence|]. exists (put_le (if small z then 4 else 8) z). rewrite put_le_length. congruence.
    + injection Hw as <- <-. right. split; [done|]. exists (Z.b2z b). split_and!; [done|destruct b; done..|by right|done].
    + left. split; [congruence|]. exists l. congruence.
  - cbn [wire] in Hw. destruct l as [|e l]; [done|]. left. split; [congruence|]. exists (body (base_type (type x)) (e :: l)).
    unfold array_data in Hw. congruence.
Qed.

End Decoder.

(** A field and its value, for the decoder. *)
Definition known (ty : sproto_type) (p : field * option val) : Prop :=
  field_wf p.1 /\ tag p.1 < 2 ^ 15 /\ val_ok p.1 p.2 /\ findtag ty (tag p.1) = Some (Some p.1).

Section Decode.
Context {U : Type} (cb : sproto_arg -> seff U Z).

Lemma wire_none x v : wire x v = None -> val_events x v = [].
Proof.
  destruct v as [[e|[|e l]]|]; try done. destruct e as [z|b|l nd]; cbn [wire]; [|done..].
  by destruct ((0 <=? z) && (z <? 0x7fff)).
Qed.

Lemma land_1 z : Z.land z 1 = z mod 2.
Proof. by apply (Z.land_ones z 1). Qed.

(** A record that skips tags moves on to the tag of its field. *)
Lemma decode_skip n ty s i o size lw t u : -1 <= lw < t -> t < 2 ^ 15 -> has s (2 + 2 * i) (words (skip_word lw t)) ->
  decode_fields cb (length (skip_word lw t) + n) ty s i o size lw u =
    decode_fields cb n ty s (i + zlen (skip_word lw t)) o size (t - 1) u.
Proof.
  intros Hl Ht H. unfold skip_word in *. destruct (t - lw - 1 >? 0) eqn:E; cbn [length Nat.add].
  - rewrite Z.gtb_ltb in E. apply Z.ltb_lt in E. cbn [decode_fields]. change SIZEOF_HEADER with 2. change SIZEOF_FIELD with 2.
    unfold words in H. cbn [map concat] in H. rewrite app_nil_r in H. replace (2 + i * 2) with (2 + 2 * i) by lia.
    rewrite (toword_ok _ _ _ H). cbn [elift ebind]. rewrite Z.mod_small by lia.
    assert (Z.land ((t - lw - 1 - 1) * 2 + 1) 1 = 1) as ->.
    { rewrite land_1. zdiv. }
    cbn [Z.eqb negb]. f_equal; zdiv.
  - rewrite Z.gtb_ltb in E. apply Z.ltb_ge in E. f_equal; lia.
Qed.

Lemma decode_fields_ok ty fsv : forall s i o lw u u', Forall (known ty) fsv -> -1 <= lw -> ascending (map fst fsv) lw ->
  zlen s < 2 ^ 31 -> has s (2 + 2 * i) (words (records fsv lw)) -> has s o (data fsv) -> takes cb (events fsv) u u' ->
  decode_fields cb (length (records fsv lw)) ty s i o (zlen (data fsv)) lw u = eret (Some 0, u').
Proof.
  induction fsv as [|[x v] fsv IH]; intros s i o lw u u' Hk Hl Ha Hs Hr Hd HP; [cbn in HP |- *; by rewrite HP|].
  apply Forall_cons in Hk as [(Hwf & Ht & Hv & Hfind) Hk]. destruct Ha as [Hx Ha]. cbn [fst snd] in *.
  change (events ((x, v) :: fsv)) with (val_events x v ++ events fsv) in HP. apply takes_app in HP as (u1 & HP1 & HP). cbn [records data] in *.
  destruct (wire x v) as [[r d]|] eqn:Ew.
  2: { rewrite (wire_none _ _ Ew) in HP1. cbn [takes] in HP1. subst u1. apply IH; [done|done|by apply (ascending_le _ (tag x)); [lia|]|done..]. }
  rewrite words_app in Hr. apply has_app in Hr as [Hr1 Hr]. rewrite words_length in Hr.
  rewrite (length_app (skip_word _ _)), decode_skip by (done || lia). set (j := i + zlen (skip_word lw (tag x))).
  replace (2 + 2 * i + 2 * zlen (skip_word lw (tag x))) with (2 + 2 * j) in Hr by lia.
  apply (has_app _ _ (put_le 2 r)) in Hr as [Hr2 Hr]. rewrite put_le_length in Hr.
  assert (0 <= r < 2 ^ 16 /\ Z.land r 1 = 0) as [Hrb Hr1'].
  { destruct (wire_cases x v r d Hwf Hv Ew) as [[-> _]|(_ & z & -> & Hz & _)]; [done|]. split; [lia|].
    rewrite land_1. zdiv. }
  pose proof (has_bound _ _ _ Hd) as Hb. rewrite length_app in Hb. apply has_app in Hd as [Hd1 Hd].
  cbn [length decode_fields]. change SIZEOF_HEADER with 2. change SIZEOF_FIELD with 2. replace (2 + j * 2) with (2 + 2 * j) by lia.
  rewrite (toword_ok _ _ _ Hr2), Z.mod_small by lia. cbn [elift ebind]. rewrite Hr1'. cbn [Z.eqb negb].
  replace (tag x - 1 + 1) with (tag x) by lia. rewrite Hfind. fold (arg_of x (base_type (type x)) [] 0 0).
  assert (has s (2 + 2 * (j + 1)) (words (records fsv (tag x)))) as Hr3 by (by replace (2 + 2 * (j + 1)) with (2 + 2 * j + Z.of_nat 2) by lia).
  specialize (IH s (j + 1) (o + zlen d) (tag x) u1 u' Hk ltac:(lia) Ha Hs Hr3 Hd HP).
  destruct (wire_cases x v r d Hwf Hv Ew) as [[-> [rest Er]]|(-> & z & -> & Hz & Htype & Ev)].
  - cbn [Z.div Z.sub Z.ltb]. change (0 / 2 - 1 <? 0) with true. cbv match. change SIZEOF_LENGTH with 4.
    pose proof Hd1 as Hd2. rewrite Er in Hd2. apply has_app in Hd2 as [Hsz _].
    assert (zlen d = 4 + zlen rest) as Ed by (rewrite Er, length_app, put_le_length; lia).
    rewrite length_app, (proj2 (Z.ltb_ge _ _)), (todword_ok _ _ _ Hsz), (Z.mod_small (zlen rest)) by lia. cbn [elift ebind].
    assert (u32 (zlen rest + 4) = zlen d) as -> by (unfold u32; rewrite Z.mod_small; lia). unfold u32. rewrite Z.mod_small by lia.
    rewrite (proj2 (Z.ltb_ge _ _)) by lia. cbn [ebind eret]. rewrite (decode_data_ok cb x v d _ _ _ u1) by done. cbn [ebind eret Z.eqb negb].
    replace (i32 (Z.of_nat (length d + length (data fsv)) - zlen d)) with (zlen (data fsv)) by (rewrite i32_id; lia). done.
  - rewrite Z.div_mul, (proj2 (Z.ltb_ge _ _)) by lia. cbn [elift ebind eret app].
    replace (negb (type x =? SPROTO_TINTEGER) && negb (type x =? SPROTO_TBOOLEAN)) with false by (by destruct Htype as [-> | ->]).
    replace (z + 1 - 1) with z by lia. rewrite Ev in *. destruct HP1 as (u2 & HP1 & ->).
    fold (arg_of x (base_type (type x)) [] 0 0). rewrite (give_int_ok cb x _ _ z _ _ u1) by (done || (symmetry; apply Z.mod_small; lia)). cbn [ebind eret Z.eqb negb foldl] in *.
    cbn [length] in IH. rewrite Z.add_0_r in IH. done.
Qed.

(** At most a record for each tag. *)
Lemma records_bound fsv : forall lw, Forall (fun p => tag p.1 < 2 ^ 15) fsv -> lw < 2 ^ 15 -> ascending (map fst fsv) lw ->
  zlen (records fsv lw) <= 2 ^ 15 - 1 - lw.
Proof.
  induction fsv as [|[x v] fsv IH]; intros lw Ht Hl Ha; [cbn; lia|]. apply Forall_cons in Ht as [Hx Ht]. destruct Ha as [Hlx Ha]. cbn [fst records] in *.
  destruct (wire x v) as [[r d]|].
  - specialize (IH (tag x) Ht Hx Ha). rewrite length_app. cbn [length]. unfold skip_word. destruct (tag x - lw - 1 >? 0) eqn:E; cbn [length]; lia.
  - apply IH; [done..|]. by apply (ascending_le _ (tag x)); [lia|].
Qed.

Lemma sproto_decode_ok ty fsv u u' : Forall (known ty) fsv -> ascending (map fst fsv) (-1) -> zlen (message fsv) < 2 ^ 31 -> takes cb (events fsv) u u' ->
  sproto_decode cb ty (message fsv) u = eret (zlen (message fsv), u').
Proof.
  intros Hk Ha Hs HP. unfold sproto_decode. change SIZEOF_HEADER with 2. change SIZEOF_FIELD with 2.
  set (s := message fsv) in *. set (rs := records fsv (-1)).
  assert (has s 0 (put_le 2 (zlen rs) ++ words rs ++ data fsv)) as H by (exists [], []; by rewrite app_nil_r).
  pose proof (has_bound _ _ _ H) as Hb. rewrite !length_app, put_le_length in Hb. pose proof (words_length rs) as Hwl.
  assert (zlen s = 2 + 2 * zlen rs + zlen (data fsv)) as Es by (subst s; unfold message; fold rs; rewrite !length_app, put_le_length; fold (words rs); lia).
  apply has_app in H as [H0 H]. rewrite put_le_length in H. apply has_app in H as [H1 H2].
  assert (zlen rs < 2 ^ 16) as Hrs.
  { pose proof (records_bound fsv (-1)) as B. fold rs in B. enough (zlen rs <= 2 ^ 15 - 1 - -1) by lia. apply B; [|lia|done].
    eapply Forall_impl; [exact Hk|]. by intros p (_ & ? & _). }
  rewrite (proj2 (Z.ltb_ge _ _)) by lia. rewrite (toword_ok _ _ _ H0), Z.mod_small by lia. cbn [elift ebind].
  rewrite (proj2 (Z.ltb_ge _ _)), Nat2Z.id by lia.
  replace (zlen s - 2 - zlen rs * 2) with (zlen (data fsv)) by lia.
  rewrite (decode_fields_ok ty fsv s 0 (2 + zlen rs * 2) (-1) _ u'); [|done|lia|done|done|done| |done].
  - cbn [ebind eret]. by rewrite Z.sub_0_r.
  - by replace (2 + zlen rs * 2) with (0 + Z.of_nat 2 + zlen (words rs)) by lia.
Qed.

End Decode.

(** ** Encoding and decoding *)

Lemma all_good ty fsv : type_wf ty -> map fst fsv = f ty -> Forall (fun p => val_ok p.1 p.2) fsv -> Forall good fsv /\ Forall (known ty) fsv.
Proof.
  intros Hty Hf Hv. assert (Forall (fun x => field_wf x /\ tag x < 2 ^ 15 /\ findtag ty (tag x) = Some (Some x)) (map fst fsv)) as H.
  { rewrite Hf, Forall_forall. intros x Hx. pose proof (proj1 (Forall_forall _ _) (wf_types ty Hty) x Hx).
    pose proof (proj1 (Forall_forall _ _) (wf_tags ty Hty) x Hx). split_and!; [done|done|]. by apply findtag_ok. }
  clear Hf. split; induction fsv as [|p fsv IH]; constructor; apply Forall_cons in H as [(H1 & H2 & H3) H]; apply Forall_cons in Hv as [H4 Hv]; try done; by apply IH.
Qed.

Lemma needs_nonneg fsv : Forall good fsv -> 0 <= needs fsv.
Proof.
  induction 1 as [|[y w] l (Hy & _ & Hw) _ IH]; [done|]. cbn [needs foldr snd]. fold (needs l). pose proof (need_nonneg y w Hy Hw). cbn [snd] in *. lia.
Qed.

(** The callback [serve] does serve the values it has. *)
Lemma serve_serves vs x v : find (fun '(y, _) => tag y =? tag x) vs = Some (x, v) -> val_ok x v -> serves (serve vs) x v tt tt.
Proof.
  intros Hf Hv. assert (forall t e i, elem_ok t e ->
    (match v with Some (One e) => if i =? 0 then Some e else None | Some (Many l) => if i >? 0 then aget l (i - 1) else None | None => None end) = Some e ->
    answers (serve vs) x t i e tt tt) as Ans.
  { intros t e i He Hi. destruct v as [v|]; [|done]. destruct e as [z|b|l nd]; cbn [answers]; intros *; unfold serve, arg_of; cbn [tagid index length_ atype]; rewrite Hf, Hi; [done..|].
    intros Hv0 Hn. exists l. rewrite (proj2 (Z.leb_le _ _)) by lia. destruct He as [_ He]. split_and!; [done|lia|by apply take_ge]. }
  destruct v as [[e|l]|]; cbn [serves val_ok] in *.
  - apply Ans; [apply Hv|done].
  - destruct Hv as [Hx Hl]. assert (Hfrom : forall pre suf, l = pre ++ suf -> answers_from (serve vs) x (base_type (type x)) (1 + zlen pre) suf tt tt).
    { intros pre suf. revert pre. induction suf as [|e suf IH]; intros pre El; cbn [answers_from].
      - intros v n. unfold serve, arg_of. cbn [tagid index]. rewrite Hf, Z.gtb_ltb, (proj2 (Z.ltb_lt _ _)) by lia.
        rewrite El, app_nil_r. replace (1 + zlen pre - 1) with (zlen pre) by lia. by rewrite aget_None by lia.
      - exists tt. split.
        + apply Ans; [rewrite El in Hl; by apply Forall_app in Hl as [_ [? _]%Forall_cons]|]. rewrite Z.gtb_ltb, (proj2 (Z.ltb_lt _ _)) by lia.
          replace (1 + zlen pre - 1) with (zlen pre) by lia. by rewrite aget_nat, El, list_lookup_middle.
        + specialize (IH (pre ++ [e])). rewrite length_app in IH. cbn [length] in IH. replace (1 + zlen pre + 1) with (1 + Z.of_nat (length pre + 1)) by lia.
          apply IH. by rewrite <- app_assoc. }
    by apply (Hfrom []).
  - intros v n. unfold serve, arg_of. cbn [tagid]. by rewrite Hf.
Qed.

Lemma serve_all vs fsv : Forall (fun p => find (fun '(y, _) => tag y =? tag p.1) vs = Some p /\ val_ok p.1 p.2) fsv -> serves_all (serve vs) fsv tt tt.
Proof. induction 1 as [|[x v] fsv [Hf Hv] _ IH]; [done|]. exists tt. split; [by apply serve_serves|done]. Qed.

Lemma bob_ok : Forall (fun p => find (fun '(y, _) => tag y =? tag p.1) bob = Some p /\ val_ok p.1 p.2) bob.
Proof.
  repeat apply Forall_cons_2; [split; [reflexivity|]..|apply Forall_nil_2]; cbn [fst snd val_ok].
  - split; [done|]. split; [by left|done].
  - split; [done|]. split; [done|lia].
  - done.
  - split; [done|]. apply Forall_cons_2; [|apply Forall_nil_2]. split; [by right|done].
Qed.

(** What the encoder does when 64-bit integers follow 32-bit ones: the size
    that is left becomes negative and passes the test; the writes leave the
    buffer. *)
Example encode_overruns :
  let ty := SType "t" 0 1 [Field 0 0x80 "n" None (-1)] in
  let vs := [(Field 0 0x80 "n" None (-1), Some (Many (replicate 10 (EInt 1) ++ [EInt (2 ^ 40)])))] in
  sproto_encode (serve vs) ty (replicate 60 0) tt = None.
Proof. vm_compute. reflexivity. Qed.

(** A size close to [2^32] wraps in the test of the decoder, which then gives
    the callback a negative length. *)
Example decode_overreads :
  let ty := SType "t" 0 1 [Field 0 2 "s" None (-1)] in
  sproto_decode (fun a u => eret (0, u)) ty [1; 0; 0; 0; 0xfc; 0xff; 0xff; 0xff] tt = None.
Proof. vm_compute. reflexivity. Qed.

(** C37: a well-formed type, with values that the callback serves and a
    buffer large enough for them: [sproto_encode] stays inside of its buffer,
    leaves the bytes of [message] at the start of it and returns their number
    (an array of structs has the size of the whole array in front, which the
    README leaves out in its second example, see [bob_message]); [sproto_decode] reads those bytes, stays inside of them,
    hands exactly the values that are present to its callback, in order and
    with the integers extended to 64 bits ([events]), if the callback takes
    them, and reports that it used all. *)
Theorem sproto_encode_decode {U V} (cb : sproto_arg -> seff U (Z * list Z)) (cb' : sproto_arg -> seff V Z) ty vs buffer u u' v v' (fs := zip (f ty) vs) :
  type_wf ty -> length vs = length (f ty) -> Forall (fun p => val_ok p.1 p.2) fs -> serves_all cb fs u u' -> takes cb' (events fs) v v' ->
  SIZEOF_HEADER + SIZEOF_FIELD * maxn ty + needs fs <= zlen buffer < 2 ^ 31 ->
  exists buf n, sproto_encode cb ty buffer u = eret (buf, n, u') /\ length buf = length buffer /\ slice buf 0 n = message fs /\
    sproto_decode cb' ty (slice buf 0 n) v = eret (n, v').
Proof.
  intros Hty Hl Hv Hs Ht Hb. assert (map fst fs = f ty) as Hf by (apply (fst_zip (f ty) vs); lia).
  destruct (all_good ty fs Hty Hf Hv) as [Hg Hk]. pose proof (needs_nonneg fs Hg) as Hn.
  destruct (sproto_encode_ok cb ty fs buffer u u' Hty Hf Hg Hs Hb Hn) as (buf & E & [L _] & P).
  exists buf, (zlen (message fs)). split_and!; [done..|]. unfold piece in P. rewrite P.
  apply sproto_decode_ok; [done|by rewrite Hf; apply Hty| |done].
  assert (zlen (slice buf 0 (zlen (message fs))) <= zlen buf) by (unfold slice; rewrite length_take, length_drop; lia). rewrite P in *. lia.
Qed.

Lemma sproto_encode_decode_witness : exists buf n,
  sproto_encode (serve bob) person (replicate 100 9) tt = eret (buf, n, tt) /\ length buf = 100%nat /\ slice buf 0 n = message bob /\
  sproto_decode (fun a u => eret (0, u ++ [a])) person (slice buf 0 n) [] = eret (n, events bob).
Proof.
  apply (sproto_encode_decode (serve bob) (fun a u => eret (0, u ++ [a])) person (map snd bob) (replicate 100 9) tt tt [] (events bob)).
  - split; [vm_compute; tauto|by repeat constructor|repeat constructor; vm_compute; congruence|done|].
    intros _ [|[|[|[|i]]]] x Hx; by inversion Hx.
  - done.
  - eapply Forall_impl; [exact bob_ok|]. by intros p [_ H].
  - exact (serve_all bob bob bob_ok).
  - exact (takes_foldl (fun u a => u ++ [a]) (events bob) []).
  - split; [|done]. vm_compute. congruence.
Defined.
