(* ===== verification/SprotoSchema.v ===== *)
(** * Reading a schema (src/lualib/sproto/sproto.c)

    [sproto_create] reads a schema that is itself encoded by sproto (a bundle)
    into types and protocols, in memory from a pool of chunks.
    [SprotoSchemaOk] has the proofs.

    The bundle is a list of bytes and a pointer into it an offset; a read
    outside, and a write to the null pointer, is [None].  A type is its position
    in the array of types. *)

From S2P Require Import Prelude Buffer Sproto.

(** ** The pool *)

Definition CHUNK_SIZE : Z := 1000.

(** [header] has the sizes of the chunks, the newest first: the bytes behind
    [struct chunk] (negative when not even that fits).  A chunk is known by the
    number of chunks before it. *)
Record pool := Pool { header : list Z; current : option nat; current_used : Z }.

Definition pool_init : pool := Pool [] None 0.

(** The chunks that are freed, in this order. *)
Definition pool_release (p : pool) : list nat := rev (seq 0 (length (header p))).

Declare Scope schema_scope.
Delimit Scope schema_scope with schema.

(** What reads a schema: [None] is [NULL]; the pool is kept also then. *)
Definition rd (A : Type) : Type := pool -> option (option A * pool).
Definition rret {A} (a : A) : rd A := fun p => Some (Some a, p).
Definition null {A} : rd A := fun p => Some (None, p).
Definition rlift {A} (x : option A) : rd A := fun p => a ← x; Some (Some a, p).
Definition rbind {A B} (m : rd A) (k : A -> rd B) : rd B := fun p =>
  '(r, p) ← m p; match r with None => Some (None, p) | Some a => k a p end.

Notation "'let!' x ':=' m 'in' k" := (rbind m (fun x => k)) (at level 10, x name, m at level 200, k at level 200) : schema_scope.
Notation "'let!' ' p ':=' m 'in' k" := (rbind m (fun x => match x with p => k end))
  (at level 10, p strict pattern, m at level 200, k at level 200) : schema_scope.
#[local] Open Scope schema_scope.

(** Records of the schema; the position of a type stands for a pointer to it. *)
Definition SPROTO_REQUEST : Z := 0.
Definition SPROTO_RESPONSE : Z := 1.

Record protocol := Protocol { pname : string; ptag : Z; request : option nat; response : option nat }.
Record sproto := SProto { memory : pool; types : list sproto_type; proto : list protocol }.

(** The values of [import_field] while it reads. *)
Record ifield := IField { f_tag : Z; f_type : Z; f_name : option string; f_st : option nat; f_key : Z; f_array : Z }.

Section Read.

(** Whether [malloc] gives memory, by the chunks there are and the size. *)
Context (malloc : nat -> Z -> bool).

Definition pool_newchunk (p : pool) (sz : Z) : pool * option nat :=
  let n := u64 (sz + 8) in
  if malloc (length (header p)) n then (Pool (n - 8 :: header p) (current p) (current_used p), Some (length (header p)))
  else (p, None).

(** A chunk of its own, and the chunk that is used now. *)
Definition pool_own (p : pool) (sz : Z) : pool * option (nat * Z) := let (p, c) := pool_newchunk p sz in (p, c ← c; Some (c, 0)).
Definition pool_current (p : pool) : pool * option nat :=
  match current p with
  | Some c => (p, Some c)
  | None =>
      let (p, c) := pool_newchunk p CHUNK_SIZE in
      (match c with None => p | Some _ => Pool (header p) c (current_used p) end, c)
  end.

(** A chunk and an offset, or [NULL]. *)
Definition pool_alloc (p : pool) (sz : Z) : pool * option (nat * Z) :=
  let sz := Z.land (u64 (sz + 7)) (Z.lnot 7) in
  if sz >=? CHUNK_SIZE then pool_own p sz
  else
    let (p, c) := pool_current p in
    match c with
    | None => (p, None)
    | Some c =>
        if sz + current_used p <=? CHUNK_SIZE then (Pool (header p) (current p) (current_used p + sz), Some (c, current_used p))
        else if sz >=? current_used p then pool_own p sz
        else let (p, r) := pool_own p CHUNK_SIZE in (Pool (header p) (Some (pred (length (header p)))) sz, r)
    end.

Definition ralloc (sz : Z) : rd (option (nat * Z)) := fun p => let (p, r) := pool_alloc p sz in Some (Some r, p).

(** ** Parts of a bundle *)

Section Bundle.
Context (s : list Z).

Fixpoint count_array_loop (fuel : nat) (o length n : Z) : option Z :=
  match fuel with
  | O => None
  | S fuel =>
      if length >? 0 then
        if length <? SIZEOF_LENGTH then Some (-1)
        else
          nsz ← todword s o;
          let nsz := u32 (nsz + SIZEOF_LENGTH) in
          if nsz >? length then Some (-1) else count_array_loop fuel (o + nsz) (length - nsz) (n + 1)
      else Some n
  end.

Definition count_array (o : Z) : option Z :=
  length_ ← todword s o; count_array_loop (S (length s)) (o + SIZEOF_LENGTH) length_ 0.

(** The loop over the [n] words that are left: their data is inside. *)
Fixpoint struct_field_loop (n : nat) (w o sz : Z) : option bool :=
  match n with
  | O => Some true
  | S n =>
      value ← toword s w;
      if negb (value =? 0) then struct_field_loop n (w + SIZEOF_FIELD) o sz
      else if sz <? SIZEOF_LENGTH then Some false
      else
        dsz ← todword s o;
        let dsz := u32 (SIZEOF_LENGTH + dsz) in
        if sz <? dsz then Some false else struct_field_loop n (w + SIZEOF_FIELD) (o + dsz) (sz - dsz)
  end.

Definition struct_field (o sz : Z) : option Z :=
  if sz <? SIZEOF_LENGTH then Some (-1)
  else
    fn ← toword s o;
    let header := SIZEOF_HEADER + SIZEOF_FIELD * fn in
    if sz <? header then Some (-1)
    else
      ok ← struct_field_loop (Z.to_nat fn) (o + SIZEOF_HEADER) (o + header) (sz - header);
      Some (if (ok : bool) then fn else -1).

(** A string of C ends at the first zero. *)
Fixpoint cstring (l : list Z) : string :=
  match l with
  | [] => EmptyString
  | b :: l => if b =? 0 then EmptyString else String (Ascii.ascii_of_N (Z.to_N b)) (cstring l)
  end.

(** The buffer must have room for the string and the zero behind it. *)
Definition import_string (o : Z) : rd string :=
  let! sz := rlift (todword s o) in
  let! buffer := ralloc (u32 (sz + 1)) in
  let! _ := rlift buffer in
  if (sz <? u32 (sz + 1)) && (o + SIZEOF_LENGTH + sz <=? zlen s) then rret (cstring (slice s (o + SIZEOF_LENGTH) sz))
  else rlift None.

(** ** Fields and types *)

(** [type_n] types. *)
Context (type_n : Z).

(** [switch (tag)]; [None] is [NULL]. *)
Definition field_value (tag value : Z) (x : ifield) : option ifield :=
  if tag =? 1 then
    if value >=? SPROTO_TSTRUCT then None else Some (IField (f_tag x) value (f_name x) (f_st x) (f_key x) (f_array x))
  else if tag =? 2 then
    if value >=? type_n then None
    else if f_type x >=? 0 then None
    else Some (IField (f_tag x) SPROTO_TSTRUCT (f_name x) (Some (Z.to_nat value)) (f_key x) (f_array x))
  else if tag =? 3 then Some (IField value (f_type x) (f_name x) (f_st x) (f_key x) (f_array x))
  else if tag =? 4 then
    Some (IField (f_tag x) (f_type x) (f_name x) (f_st x) (f_key x) (if negb (value =? 0) then SPROTO_TARRAY else f_array x))
  else if tag =? 5 then Some (IField (f_tag x) (f_type x) (f_name x) (f_st x) value (f_array x))
  else None.

(** The loop over the [n] words from [w] on; [c] is where the data begins. *)
Fixpoint import_field_loop (n : nat) (w c tag : Z) (x : ifield) : rd ifield :=
  match n with
  | O => rret x
  | S n =>
      let tag := tag + 1 in
      let! value := rlift (toword s w) in
      let next := import_field_loop n (w + SIZEOF_FIELD) c in
      if negb (Z.land value 1 =? 0) then next (tag + value / 2) x
      else if tag =? 0 then
        if negb (value =? 0) then null
        else let! name := import_string c in next tag (IField (f_tag x) (f_type x) (Some name) (f_st x) (f_key x) (f_array x))
      else if value =? 0 then null
      else match field_value tag (value / 2 - 1) x with None => null | Some x => next tag x end
  end.

(** The field and the offset behind it. *)
Definition import_field (o : Z) : rd (field * Z) :=
  let! sz := rlift (todword s o) in
  let o := o + SIZEOF_LENGTH in
  let result := o + sz in
  let! fn := rlift (struct_field o sz) in
  if fn <? 0 then null
  else
    let o := o + SIZEOF_HEADER in
    let! x := import_field_loop (Z.to_nat fn) o (o + fn * SIZEOF_FIELD) (-1) (IField (-1) (-1) None None (-1) 0) in
    match f_name x with
    | None => null
    | Some name =>
        if (f_tag x <? 0) || (f_type x <? 0) then null
        else rret (Field (f_tag x) (Z.lor (f_type x) (f_array x)) name (f_st x) (f_key x), result)
    end.

(** The [n] fields from [o] on, and [maxn]. *)
Fixpoint import_fields (n : nat) (o last maxn : Z) : rd (list field * Z) :=
  match n with
  | O => rret ([], maxn)
  | S n =>
      let! ' (x, o) := import_field o in
      if tag x <=? last then null
      else
        let! ' (fs, maxn) := import_fields n o (tag x) (if tag x >? last + 1 then maxn + 1 else maxn) in
        rret (x :: fs, maxn)
  end.

(** [n] words are zero. *)
Fixpoint zero_words (n : nat) (w : Z) : option bool :=
  match n with
  | O => Some true
  | S n => v ← toword s w; if negb (v =? 0) then Some false else zero_words n (w + SIZEOF_FIELD)
  end.

(** To read the first field of no fields is a fault. *)
Definition import_type (o : Z) : rd (sproto_type * Z) :=
  let! sz := rlift (todword s o) in
  let o := o + SIZEOF_LENGTH in
  let result := o + sz in
  let! fn := rlift (struct_field o sz) in
  if (fn <=? 0) || (fn >? 2) then null
  else
    let! zero := rlift (zero_words (Z.to_nat fn) (o + SIZEOF_HEADER)) in
    if negb zero then null
    else
      let o := o + (SIZEOF_HEADER + fn * SIZEOF_FIELD) in
      let! name := import_string o in
      if fn =? 1 then rret (SType name 0 0 [], result)
      else
        let! dsz := rlift (todword s o) in
        let o := o + u32 (dsz + SIZEOF_LENGTH) in
        let! n := rlift (count_array o) in
        if n <? 0 then null
        else
          let! f := ralloc (32 * n) in
          let! _ := rlift f in
          let! ' (fs, maxn) := import_fields (Z.to_nat n) (o + SIZEOF_LENGTH) (-1) n in
          let! first := rlift (head fs) in
          let! end_ := rlift (last fs) in
          let base := tag first in
          rret (SType name (if tag end_ - base + 1 =? n then base else -1) maxn fs, result).

(** ** Protocols *)

Record iproto := IProto { i_name : option string; i_tag : Z; i_request : option nat; i_response : option nat }.

(** [switch (i)] but for the name. *)
Definition protocol_value (i value : Z) (x : iproto) : option iproto :=
  if i =? 1 then if value <? 0 then None else Some (IProto (i_name x) value (i_request x) (i_response x))
  else if i =? 2 then
    if (value <? 0) || (value >=? type_n) then None else Some (IProto (i_name x) (i_tag x) (Some (Z.to_nat value)) (i_response x))
  else if i =? 3 then
    if (value <? 0) || (value >=? type_n) then None else Some (IProto (i_name x) (i_tag x) (i_request x) (Some (Z.to_nat value)))
  else None.

(** The loop over the [n] words from [w] on, with [i]; [c] is where the data
    begins. *)
Fixpoint import_protocol_loop (n : nat) (i w c : Z) (x : iproto) : rd iproto :=
  match n with
  | O => rret x
  | S n =>
      let! value := rlift (toword s w) in
      let next := import_protocol_loop n (i + 1) (w + SIZEOF_FIELD) c in
      if negb (Z.land value 1 =? 0) then next x
      else
        let value := value / 2 - 1 in
        if i =? 0 then
          if negb (value =? -1) then null else let! name := import_string c in next (IProto (Some name) (i_tag x) (i_request x) (i_response x))
        else match protocol_value i value x with None => null | Some x => next x end
  end.

(** What [struct_field] returns is not tested: no word is read if it is -1. *)
Definition import_protocol (o : Z) : rd (protocol * Z) :=
  let! sz := rlift (todword s o) in
  let o := o + SIZEOF_LENGTH in
  let result := o + sz in
  let! fn := rlift (struct_field o sz) in
  let o := o + SIZEOF_HEADER in
  let! x := import_protocol_loop (Z.to_nat fn) 0 o (o + SIZEOF_FIELD * fn) (IProto None (-1) None None) in
  match i_name x with
  | None => null
  | Some name => if i_tag x <? 0 then null else rret (Protocol name (i_tag x) (i_request x) (i_response x), result)
  end.

(** [n] parts one behind the other. *)
Fixpoint import_all {A} (import : Z -> rd (A * Z)) (n : nat) (o : Z) : rd (list A) :=
  match n with
  | O => rret []
  | S n => let! ' (x, o) := import o in let! l := import_all import n o in rret (x :: l)
  end.

End Bundle.

(** ** The bundle *)

(** One round of the first loop: the number of parts at [content], memory for
    them, and the next offset. *)
Definition bundle_part (s : list Z) (w content : Z) : rd (Z * Z) :=
  let! value := rlift (toword s w) in
  if negb (value =? 0) then null
  else
    let! n := rlift (count_array s content) in
    if n <? 0 then null
    else
      let! a := ralloc (n * 32) in
      let! _ := rlift (if n =? 0 then Some tt else _ ← a; Some tt) in
      let! sz := rlift (todword s content) in
      rret (n, content + u32 (sz + SIZEOF_LENGTH)).

Definition create_from_bundle (s : list Z) : rd (list sproto_type * list protocol) :=
  let! fn := rlift (struct_field s 0 (zlen s)) in
  if (fn <? 0) || (fn >? 2) then null
  else
    let stream := SIZEOF_HEADER in
    let content := stream + fn * SIZEOF_FIELD in
    let typedata := content + SIZEOF_LENGTH in
    let! ' (type_n, content) := (if fn >? 0 then bundle_part s stream content else rret (0, content)) in
    let protocoldata := content + SIZEOF_LENGTH in
    let! ' (protocol_n, _) := (if fn >? 1 then bundle_part s (stream + SIZEOF_FIELD) content else rret (0, content)) in
    let! ts := import_all (import_type s type_n) (Z.to_nat type_n) typedata in
    let! ps := import_all (import_protocol s type_n) (Z.to_nat protocol_n) protocoldata in
    rret (ts, ps).

(** The schema, or no schema and the chunks that are freed. *)
Definition sproto_create (s : list Z) : option (sproto + list nat) :=
  let (p, r) := pool_alloc pool_init 48 in
  match r with
  | None => Some (inr [])
  | Some _ =>
      '(r, p) ← create_from_bundle s p;
      Some (match r with None => inr (pool_release p) | Some (ts, ps) => inl (SProto p ts ps) end)
  end.

End Read.

Definition sproto_release (sp : option sproto) : list nat := match sp with None => [] | Some sp => pool_release (memory sp) end.

(** ** Queries *)

Definition sproto_prototag (sp : sproto) (name : string) : Z :=
  match list_find (fun p => name = pname p) (proto sp) with Some (_, p) => ptag p | None => -1 end.

Definition query_proto (sp : sproto) (tag : Z) : option (option protocol) :=
  bisect ptag (S (length (proto sp))) (proto sp) tag 0 (zlen (proto sp)).

(** The position of the type. *)
Definition sproto_protoquery (sp : sproto) (tag what : Z) : option (option nat) :=
  if (what <? 0) || (what >? 1) then Some None
  else p ← query_proto sp tag; Some (p ← p; if what =? SPROTO_REQUEST then request p else response p).

Definition sproto_protoname (sp : sproto) (tag : Z) : option (option string) := p ← query_proto sp tag; Some (option_map pname p).

Definition sproto_type_named (sp : sproto) (name : string) : option nat := fst <$> list_find (fun t => name = tname t) (types sp).
