(* ===== verification/SprotoSchemaOk.v ===== *)
(** * Reading a schema: proofs

    The pool gives memory that does not overlap ([pool_bounds]); a schema that
    is accepted has well-formed types ([create_types]); the bundle of a schema
    is read as that schema ([create_bundle]). *)

From S2P Require Import Prelude Buffer Sproto SprotoOk SprotoSchema.

#[local] Open Scope schema_scope.

(** ** The pool *)

(** Memory that was given: a chunk, an offset and a size. *)
Definition region : Type := nat * Z * Z.

Definition apart (a b : region) : Prop := a.1.1 <> b.1.1 \/ a.1.2 + a.2 <= b.1.2 \/ b.1.2 + b.2 <= a.1.2.

(** The memory is aligned and inside of its chunk. *)
Definition inside (p : pool) (a : region) : Prop :=
  exists n, rev (header p) !! a.1.1 = Some n /\ 0 <= a.1.2 /\ a.1.2 mod 8 = 0 /\ a.1.2 + a.2 <= n.

(** Calls of [pool_alloc]. *)
Fixpoint pool_run (malloc : nat -> Z -> bool) (p : pool) (szs : list Z) : pool * list (option (nat * Z)) :=
  match szs with
  | [] => (p, [])
  | sz :: szs => let (p, r) := pool_alloc malloc p sz in let (p, rs) := pool_run malloc p szs in (p, r :: rs)
  end.

Definition round8 (sz : Z) : Z := Z.land (u64 (sz + 7)) (Z.lnot 7).

Lemma round8_ok sz : 0 <= sz <= 2 ^ 64 - 16 -> sz <= round8 sz /\ round8 sz mod 8 = 0 /\ 0 <= round8 sz <= 2 ^ 64 - 16.
Proof.
  intros Hs. unfold round8, u64. rewrite Z.mod_small by lia. change (Z.lnot 7) with (Z.lnot (Z.ones 3)).
  rewrite <- Z.ldiff_land, Z.ldiff_ones_r, Z.shiftl_mul_pow2, Z.shiftr_div_pow2 by lia. change (2 ^ 3) with 8. split_and!; zdiv.
Qed.

(** The memory that was given: the current chunk is used up to [current_used]. *)
Record pool_ok (p : pool) (l : list region) : Prop := {
  pk_inside : Forall (inside p) l;
  pk_apart : forall (i j : nat) a b, l !! i = Some a -> l !! j = Some b -> i <> j -> apart a b;
  pk_current : forall c, current p = Some c -> rev (header p) !! c = Some CHUNK_SIZE /\ forall a, a ∈ l -> a.1.1 = c -> a.1.2 + a.2 <= current_used p;
  pk_used : 0 <= current_used p <= CHUNK_SIZE /\ current_used p mod 8 = 0
}.

Lemma apart_sym a b : apart a b -> apart b a.
Proof. unfold apart. intros [?|[?|?]]; [left; congruence|by right; right|by right; left]. Qed.

Lemma apart_snoc l a : (forall (i j : nat) a b, l !! i = Some a -> l !! j = Some b -> i <> j -> apart a b) -> (forall b, b ∈ l -> apart b a) ->
  forall (i j : nat) x y, (l ++ [a]) !! i = Some x -> (l ++ [a]) !! j = Some y -> i <> j -> apart x y.
Proof.
  intros Hl Ha i j x y Hi Hj Hne. apply lookup_app_Some in Hi as [Hi|[Hi1 Hi]], Hj as [Hj|[Hj1 Hj]].
  - by apply (Hl i j).
  - apply list_lookup_singleton_Some in Hj as [_ <-]. apply Ha. by apply (list_elem_of_lookup_2 _ i).
  - apply list_lookup_singleton_Some in Hi as [_ <-]. apply apart_sym, Ha. by apply (list_elem_of_lookup_2 _ j).
  - apply list_lookup_singleton_Some in Hi as [Hi _], Hj as [Hj _]. lia.
Qed.

(** A chunk more. *)
Lemma inside_newchunk p n u c a : inside p a -> inside (Pool (n :: header p) c u) a.
Proof. intros (m & Hm & H). exists m. split; [|done]. cbn [header rev]. by apply lookup_app_l_Some. Qed.

Lemma inside_chunk p a : inside p a -> (a.1.1 < length (header p))%nat.
Proof. intros (m & Hm & _). apply lookup_lt_Some in Hm. by rewrite length_rev in Hm. Qed.

Lemma newchunk_lookup p n : rev (n :: header p) !! length (header p) = Some n.
Proof. cbn [rev]. rewrite lookup_app_r by (rewrite length_rev; lia). by rewrite length_rev, Nat.sub_diag. Qed.

Lemma inside_grown p q a : (exists k, header q = k ++ header p) -> inside p a -> inside q a.
Proof. intros [k E] (m & Hm & H). exists m. split; [|done]. rewrite E, rev_app_distr. by apply lookup_app_l_Some. Qed.

Section Alloc.
Context (malloc : nat -> Z -> bool).

(** Memory from a new chunk. *)
Lemma own_ok p l n sz c u : pool_ok p l -> sz <= n -> 0 <= u <= CHUNK_SIZE -> u mod 8 = 0 ->
  (c = current p /\ u = current_used p \/ c = Some (length (header p)) /\ n = CHUNK_SIZE /\ sz <= u) ->
  pool_ok (Pool (n :: header p) c u) (l ++ [(length (header p), 0, sz)]).
Proof.
  intros [H1 H2 H3 H4] Hn Hu Hu8 Hc. split.
  - apply Forall_app. split; [eapply Forall_impl; [exact H1|]; intros a; apply inside_newchunk|]. apply Forall_singleton.
    exists n. cbn [fst snd header]. rewrite newchunk_lookup. split_and!; [done|lia|done|lia].
  - apply apart_snoc; [done|]. intros b Hb. left. pose proof (inside_chunk p b (proj1 (Forall_forall _ _) H1 b Hb)). cbn. lia.
  - intros c' E. cbn [current current_used header] in *. subst c. destruct Hc as [[E ->]|([= ->] & -> & Hsz)].
    + destruct (H3 c' (eq_sym E)) as [H5 H6]. split; [cbn [rev]; by apply lookup_app_l_Some|]. intros a [Ha| ->%list_elem_of_singleton]%elem_of_app Ec; [by apply H6|].
      cbn in Ec. subst c'. apply lookup_lt_Some in H5. rewrite length_rev in H5. lia.
    + split; [apply newchunk_lookup|]. intros a [Ha| ->%list_elem_of_singleton]%elem_of_app Ec; [|cbn; lia].
      pose proof (inside_chunk p a (proj1 (Forall_forall _ _) H1 a Ha)). lia.
  - by split.
Qed.

Lemma newchunk_cases p n : 0 <= n <= 2 ^ 64 - 16 ->
  pool_newchunk malloc p n =
    if malloc (length (header p)) (n + 8) then (Pool (n :: header p) (current p) (current_used p), Some (length (header p)))
    else (p, None).
Proof.
  intros Hn. unfold pool_newchunk. assert (u64 (n + 8) = n + 8) as -> by (apply Z.mod_small; lia).
  by replace (n + 8 - 8) with n by lia.
Qed.

Lemma pool_current_ok p l q r : pool_ok p l -> pool_current malloc p = (q, r) ->
  (r = None /\ q = p) \/ (exists c, r = Some c /\ current q = Some c /\ pool_ok q l).
Proof.
  intros Hp. unfold pool_current. destruct (current p) as [c|] eqn:Ec; [intros [= <- <-]; by right; exists c|].
  rewrite newchunk_cases by done. destruct (malloc _ _); intros [= <- <-]; [right|by left].
  eexists. split; [done|]. split; [done|]. destruct Hp as [H1 H2 H3 H4]. split.
  - eapply Forall_impl; [exact H1|]. intros a. apply inside_newchunk.
  - done.
  - intros c [= <-]. split; [apply newchunk_lookup|]. intros a Ha E. pose proof (inside_chunk p a (proj1 (Forall_forall _ _) H1 a Ha)). lia.
  - done.
Qed.

Lemma pool_own_cases p n q r : 0 <= n <= 2 ^ 64 - 16 -> pool_own malloc p n = (q, r) ->
  (r = None /\ q = p) \/ (r = Some (length (header p), 0) /\ q = Pool (n :: header p) (current p) (current_used p)).
Proof.
  intros Hn. unfold pool_own. rewrite newchunk_cases by done.
  destruct (malloc _ _); intros [= <- <-]; [by right|by left].
Qed.

Lemma pool_alloc_grows p sz p' r : pool_alloc malloc p sz = (p', r) -> exists k, header p' = k ++ header p.
Proof.
  unfold pool_alloc, pool_own, pool_current, pool_newchunk. intros E.
  repeat case_match; simplify_eq; cbn [header];
    first [by exists []|by eexists [_]|by eexists [_; _]].
Qed.

(** What was given is apart from what is given. *)
Lemma pool_alloc_ok p l sz p' c' o : pool_ok p l -> 0 <= sz <= 2 ^ 64 - 16 -> pool_alloc malloc p sz = (p', Some (c', o)) ->
  pool_ok p' (l ++ [(c', o, sz)]).
Proof.
  intros Hp Hs. destruct (round8_ok sz Hs) as (R1 & R2 & R3). unfold pool_alloc. fold (round8 sz). set (n := round8 sz) in *.
  rewrite Z.geb_leb. destruct (Z.leb_spec CHUNK_SIZE n).
  { intros E. apply pool_own_cases in E as [[? _]|[[= -> ->] ->]]; [discriminate| |lia].
    apply own_ok; [done|lia|apply Hp|apply Hp|by left]. }
  destruct (pool_current malloc p) as [q rq] eqn:Eq.
  apply (pool_current_ok _ l) in Eq as [[-> ->]|(c & -> & Hc & Hq)]; [discriminate| |done].
  pose proof Hq as [H1 H2 H3 H4]. destruct (H3 c Hc) as [H5 H6]. rewrite Z.geb_leb.
  destruct (Z.leb_spec (n + current_used q) CHUNK_SIZE); [|destruct (Z.leb_spec (current_used q) n)].
  - intros [= <- <- <-]. split.
    + apply Forall_app. split; [done|]. apply Forall_singleton. exists CHUNK_SIZE. cbn [fst snd header]. split_and!; [done|lia|apply H4|lia].
    + apply apart_snoc; [done|]. intros b Hb. destruct (decide (b.1.1 = c)) as [E|E]; [|by left]. right. left. cbn. by apply H6.
    + intros c' E. cbn [current current_used header] in *. rewrite Hc in E. injection E as <-. split; [done|].
      intros a [Ha| ->%list_elem_of_singleton]%elem_of_app Ec; [specialize (H6 a Ha Ec); lia|cbn; lia].
    + cbn. split; [lia|]. destruct H4 as [_ H4]. rewrite Z.add_mod, H4, R2 by lia. done.
  - intros E. apply pool_own_cases in E as [[? _]|[[= -> ->] ->]]; [discriminate| |lia].
    apply own_ok; [by split|lia|apply H4|apply H4|by left].
  - destruct (pool_own malloc q CHUNK_SIZE) as [q2 r2] eqn:E. intros [= <- ->].
    apply pool_own_cases in E as [[? _]|[[= -> ->] ->]]; [discriminate| |done].
    cbn [header length pred]. apply own_ok; [by split|lia|lia|done|]. right. by split_and!.
Qed.

Lemma pool_alloc_total p sz : (forall n sz, malloc n sz = true) -> exists p' c o, pool_alloc malloc p sz = (p', Some (c, o)).
Proof.
  intros Hmalloc.
  assert (Hown : forall q n, exists q' c, pool_own malloc q n = (q', Some (c, 0))).
  { intros q n. unfold pool_own, pool_newchunk. rewrite Hmalloc. by do 2 eexists. }
  assert (exists q c, pool_current malloc p = (q, Some c)) as (q & c & E).
  { unfold pool_current, pool_newchunk. rewrite Hmalloc. destruct (current p); by do 2 eexists. }
  unfold pool_alloc. rewrite E. destruct (Hown p (Z.land (u64 (sz + 7)) (Z.lnot 7))) as (q1 & c1 & E1).
  destruct (Hown q (Z.land (u64 (sz + 7)) (Z.lnot 7))) as (q2 & c2 & E2). destruct (Hown q CHUNK_SIZE) as (q3 & c3 & E3).
  rewrite E1, E2, E3. repeat case_match; by do 3 eexists.
Qed.

End Alloc.

Lemma pool_init_ok : pool_ok pool_init [].
Proof. by split. Qed.

(** The pieces that the calls gave before one was refused. *)
Fixpoint given (szs : list Z) (rs : list (option (nat * Z))) : list region :=
  match szs, rs with sz :: szs, Some x :: rs => (x, sz) :: given szs rs | _, _ => [] end.

Lemma pool_run_grows malloc szs : forall p p' rs a, pool_run malloc p szs = (p', rs) -> inside p a -> inside p' a.
Proof.
  induction szs as [|sz szs IH]; intros p p' rs a; cbn [pool_run]; [by intros [= <- _]|].
  destruct (pool_alloc malloc p sz) as [p1 r] eqn:E1. destruct (pool_run malloc p1 szs) as [p2 rs2] eqn:E2. intros [= <- _] Ha.
  eapply IH; [exact E2|]. eapply inside_grown; [|exact Ha]. by eapply pool_alloc_grows.
Qed.

Lemma pool_run_ok malloc szs : Forall (fun sz => 0 <= sz <= 2 ^ 64 - 16) szs -> forall p l p' rs, pool_ok p l ->
  pool_run malloc p szs = (p', rs) -> exists p1, pool_ok p1 (l ++ given szs rs) /\ forall a, inside p1 a -> inside p' a.
Proof.
  induction 1 as [|sz szs Hs _ IH]; intros p l p' rs Hp; cbn [pool_run].
  - intros [= <- <-]. exists p. by rewrite app_nil_r.
  - destruct (pool_alloc malloc p sz) as [p1 r] eqn:E1. destruct (pool_run malloc p1 szs) as [p2 rs2] eqn:E2. intros [= <- <-].
    destruct r as [[c o]|]; cbn [given].
    + destruct (IH p1 (l ++ [(c, o, sz)]) p2 rs2) as (q & Hq & Hi); [by eapply pool_alloc_ok|done|].
      exists q. split; [by rewrite <- app_assoc in Hq|done].
    + exists p. rewrite app_nil_r. split; [done|]. intros a Ha. eapply pool_run_grows; [exact E2|].
      eapply inside_grown; [|exact Ha]. by eapply pool_alloc_grows.
Qed.

(** Nothing is refused while there is memory. *)
Lemma pool_run_total malloc szs : (forall n sz, malloc n sz = true) -> forall p p' rs,
  pool_run malloc p szs = (p', rs) -> length (given szs rs) = length szs.
Proof.
  intros Hm. induction szs as [|sz szs IH]; intros p p' rs; cbn [pool_run]; [done|].
  destruct (pool_alloc_total malloc p sz Hm) as (p1 & c & o & ->).
  destruct (pool_run malloc p1 szs) as [p2 rs2] eqn:E2. intros [= <- <-]. cbn [given length]. f_equal. by eapply IH.
Qed.

(** A failed allocation leaves a chunk in use that has been used before: the
    memory that is given next was given before. *)
Example pool_overlap :
  (pool_run (fun n _ => (n =? 0)%nat) pool_init [448; 448; 200; 8]).2 = [Some (0%nat, 0); Some (0%nat, 448); None; Some (0%nat, 200)].
Proof. vm_compute. reflexivity. Qed.

(** The size of the chunk wraps at 64 bits: [malloc] is asked for nothing. *)
Example pool_wraps : (pool_alloc (fun _ sz => sz =? 0) pool_init (2 ^ 64 - 8)) = (Pool [-8] None 0, Some (0%nat, 0)).
Proof. vm_compute. reflexivity. Qed.

(** ** What reading gives *)

(** Whatever is read satisfies [Q]. *)
Definition reads {A} (m : rd A) (Q : A -> Prop) : Prop := forall p r p', m p = Some (Some r, p') -> Q r.

Lemma reads_ret {A} (a : A) (Q : A -> Prop) : Q a -> reads (rret a) Q.
Proof. by intros Ha p r p' [= <- _]. Qed.
Lemma reads_null {A} (Q : A -> Prop) : reads null Q.
Proof. by intros p r p'. Qed.
Lemma reads_lift {A} (x : option A) (Q : A -> Prop) : (forall a, x = Some a -> Q a) -> reads (rlift x) Q.
Proof. intros H p r p'. unfold rlift. destruct x as [a|]; [|done]. intros [= <- _]. by apply H. Qed.
Lemma reads_bind {A B} (m : rd A) (k : A -> rd B) (Q : A -> Prop) (R : B -> Prop) :
  reads m Q -> (forall a, Q a -> reads (k a) R) -> reads (rbind m k) R.
Proof.
  intros Hm Hk p r p'. unfold rbind. destruct (m p) as [[[a|] q]|] eqn:E; [|done|done]. cbn. intros H. by apply (Hk a (Hm p a q E) q r p').
Qed.
Lemma reads_any {A B} (m : rd A) (k : A -> rd B) (R : B -> Prop) : (forall a, reads (k a) R) -> reads (rbind m k) R.
Proof. intros H. apply (reads_bind m k (fun _ => True)); [by intros p|]. intros a _. apply H. Qed.

Lemma toword_bound s i v : bytes s -> toword s i = Some v -> 0 <= v < 2 ^ 16.
Proof.
  intros Hs. unfold toword. intros (a & Ha & (b & Hb & [= <-])%bind_Some)%bind_Some. unfold aget in *.
  destruct (0 <=? i); [|done]. destruct (0 <=? i + 1); [|done].
  assert (0 <= a < 256) by (apply (proj1 (Forall_forall _ _) Hs); by apply (list_elem_of_lookup_2 _ _ _ Ha)).
  assert (0 <= b < 256) by (apply (proj1 (Forall_forall _ _) Hs); by apply (list_elem_of_lookup_2 _ _ _ Hb)). cbn [get_le]. lia.
Qed.

(** A field that was accepted, with [n] types. *)
Definition field_ok (n : Z) (x : field) : Prop :=
  0 <= tag x < 2 ^ 15 /\ (exists b, 0 <= b <= 3 /\ (type x = b \/ type x = Z.lor b SPROTO_TARRAY)) /\
  (base_type (type x) = SPROTO_TSTRUCT -> is_Some (st x)) /\ forall k, st x = Some k -> Z.of_nat k < n.

Lemma field_ok_type n x : field_ok n x -> 0 <= base_type (type x) <= 3 /\ (is_array (type x) = false -> base_type (type x) = type x).
Proof.
  intros (_ & (b & Hb & Ht) & _). assert (b = 0 \/ b = 1 \/ b = 2 \/ b = 3) as Hc by lia.
  destruct Hc as [-> |[-> |[-> | ->]]], Ht as [-> | ->]; vm_compute; split_and!; congruence.
Qed.

Section Types.
Context (malloc : nat -> Z -> bool) (s : list Z) (Hs : bytes s) (n : Z).

(** The values while a field is read: before the third word there is no type. *)
Definition ifield_ok (tag : Z) (x : ifield) : Prop :=
  -1 <= f_tag x < 2 ^ 15 /\ -1 <= f_type x <= 3 /\ (tag < 2 -> f_type x <> 3) /\ (f_type x = 3 -> is_Some (f_st x)) /\
  (forall k, f_st x = Some k -> Z.of_nat k < n) /\ (f_array x = 0 \/ f_array x = SPROTO_TARRAY) /\ -1 <= f_key x.

Lemma import_field_loop_reads m : forall w c tag x, -1 <= tag -> ifield_ok tag x -> reads (import_field_loop malloc s n m w c tag x) (ifield_ok (2 ^ 60)).
Proof.
  induction m as [|m IH]; intros w c tag x Ht Hx; cbn [import_field_loop].
  { apply reads_ret. destruct Hx as (H1 & H2 & H3 & H4 & H5 & H6 & H7). split_and!; try done; lia. }
  apply (reads_bind _ _ (fun v => 0 <= v < 2 ^ 16)).
  { apply reads_lift. intros v. by apply toword_bound. }
  intros v Hv. destruct Hx as (H1 & H2 & H3 & H4 & H5 & H6 & H7).
  assert (forall t, tag + 1 <= t -> ifield_ok t x) as Hlater by (intros t Hle; split_and!; try done; lia).
  rewrite land_1. destruct (Z.eqb_spec (v mod 2) 0) as [Hev|Hod]; cbn [negb]; [|apply IH; [zdiv|apply Hlater; zdiv]].
  destruct (Z.eqb_spec (tag + 1) 0) as [E|E].
  { destruct (negb (v =? 0)); [apply reads_null|]. apply reads_any. intros name. apply IH; [lia|]. split_and!; cbn; try done; lia. }
  destruct (Z.eqb_spec v 0) as [E0|E0]; [apply reads_null|]. set (u := v / 2 - 1). assert (0 <= u < 2 ^ 15) as Hu by (subst u; zdiv). clearbody u.
  destruct (field_value n (tag + 1) u x) as [y|] eqn:Ey; [|apply reads_null]. apply IH; [lia|].
  unfold field_value in Ey. rewrite !Z.geb_leb in Ey. clear IH Hlater E.
  destruct (Z.eqb_spec (tag + 1) 1); [destruct (Z.leb_spec SPROTO_TSTRUCT u) as [|L]; [done|]; change SPROTO_TSTRUCT with 3 in L; injection Ey as <-; split_and!; cbn; try done; lia|].
  destruct (Z.eqb_spec (tag + 1) 2); [destruct (Z.leb_spec n u); [done|]; destruct (0 <=? f_type x); [done|]; injection Ey as <-; split_and!; cbn; try done; try lia; intros k [= <-]; lia|].
  destruct (Z.eqb_spec (tag + 1) 3); [injection Ey as <-; split_and!; cbn; try done; lia|].
  destruct (Z.eqb_spec (tag + 1) 4); [injection Ey as <-; split_and!; cbn; try done; try lia; destruct (negb _); [by right|done]|].
  destruct (Z.eqb_spec (tag + 1) 5); [injection Ey as <-; split_and!; cbn; try done; lia|done].
Qed.

Lemma import_field_reads o : reads (import_field malloc s n o) (fun r => field_ok n r.1).
Proof.
  unfold import_field. apply reads_any. intros sz. apply reads_any. intros fn. destruct (fn <? 0); [apply reads_null|].
  apply (reads_bind _ _ (ifield_ok (2 ^ 60))).
  { apply import_field_loop_reads; [done|]. split_and!; cbn; try done; by left. }
  intros x (H1 & H2 & H3 & H4 & H5 & H6 & H7). destruct (f_name x); [|apply reads_null].
  destruct (Z.ltb_spec (f_tag x) 0); [apply reads_null|]. destruct (Z.ltb_spec (f_type x) 0); [apply reads_null|]. cbn [orb].
  apply reads_ret. split_and!; cbn [fst tag st type]; try lia.
  - exists (f_type x). split; [lia|]. destruct H6 as [-> | ->]; [left; apply Z.lor_0_r|by right].
  - intros E. apply H4. assert (f_type x = 0 \/ f_type x = 1 \/ f_type x = 2 \/ f_type x = 3) as Hc by lia.
    destruct Hc as [Hc|[Hc|[Hc|Hc]]]; [..|done]; rewrite Hc in E; destruct H6 as [H6|H6]; rewrite H6 in E; by vm_compute in E.
  - done.
Qed.

Lemma import_fields_reads m : forall o last maxn, reads (import_fields malloc s n m o last maxn)
  (fun r => length r.1 = m /\ Forall (field_ok n) r.1 /\ ascending r.1 last /\ r.2 = maxn + count_max r.1 last - Z.of_nat m).
Proof.
  induction m as [|m IH]; intros o last maxn; cbn [import_fields].
  { apply reads_ret. split_and!; try done. cbn. lia. }
  apply (reads_bind _ _ _ _ (import_field_reads o)). intros [x o'] Hx. cbn [fst] in Hx. destruct (Z.leb_spec (tag x) last); [apply reads_null|].
  apply (reads_bind _ _ _ _ (IH _ _ _)). intros [fs mx] (H1 & H2 & H3 & H4). cbn [fst snd] in *. apply reads_ret. cbn [fst snd length ascending count_max].
  split_and!; [lia|by constructor|done|done|]. rewrite H4. destruct (tag x >? last + 1); lia.
Qed.

(** Tags without a gap. *)
Lemma ascending_between fs : forall last (i j : nat) x y, ascending fs last -> fs !! i = Some x -> fs !! j = Some y -> (i <= j)%nat ->
  tag x + Z.of_nat (j - i) <= tag y.
Proof.
  induction fs as [|z fs IH]; intros last i j x y Ha Hx Hy Hij; [done|]. destruct Ha as [_ Ha]. destruct j as [|j].
  - assert (i = 0)%nat as -> by lia. cbn in *. assert (x = y) by congruence. subst. lia.
  - destruct i as [|i]; [|apply (IH (tag z) i j); [done..|lia]]. injection Hx as <-. destruct fs as [|z' fs]; [done|]. pose proof Ha as [Hz _].
    pose proof (IH (tag z) 0%nat j z' y Ha eq_refl Hy ltac:(lia)). lia.
Qed.

Lemma import_type_reads o : reads (import_type malloc s n o) (fun r => type_wf r.1 /\ Forall (field_ok n) (f r.1)).
Proof.
  unfold import_type. apply reads_any. intros sz. apply reads_any. intros fn. destruct (_ || _); [apply reads_null|].
  apply reads_any. intros zero. destruct (negb zero); [apply reads_null|]. apply reads_any. intros name.
  destruct (fn =? 1). { apply reads_ret. split; [|constructor]. split; try constructor; try done. }
  apply reads_any. intros dsz. apply reads_any. intros m. destruct (Z.ltb_spec m 0); [apply reads_null|].
  apply reads_any. intros r. apply reads_any. intros _. apply (reads_bind _ _ _ _ (import_fields_reads _ _ _ _)).
  intros [fs maxn] (H1 & H2 & H3 & H4). cbn [fst snd] in *. apply (reads_bind _ _ (fun x => head fs = Some x)); [by apply reads_lift|].
  intros x0 Hx0. apply (reads_bind _ _ (fun x => last fs = Some x)); [by apply reads_lift|]. intros x1 Hx1. apply reads_ret.
  cbn [fst f]. split; [|done]. split; cbn [Sproto.f Sproto.maxn Sproto.base].
  - done.
  - eapply Forall_impl; [exact H2|]. intros x Hx. apply Hx.
  - eapply Forall_impl; [exact H2|]. intros x. apply field_ok_type.
  - lia.
  - intros Hb i x Hi. rewrite head_lookup in Hx0. rewrite last_lookup in Hx1. pose proof (lookup_lt_Some _ _ _ Hi).
    destruct (Z.eqb_spec (tag x1 - tag x0 + 1) m); [|lia].
    pose proof (ascending_between fs _ 0 i x0 x H3 Hx0 Hi ltac:(lia)). pose proof (ascending_between fs _ i _ x x1 H3 Hi Hx1 ltac:(lia)). lia.
Qed.

(** A protocol that was accepted. *)
Definition protocol_ok (n : Z) (p : protocol) : Prop :=
  0 <= ptag p < 2 ^ 15 /\ (forall k, request p = Some k -> Z.of_nat k < n) /\ (forall k, response p = Some k -> Z.of_nat k < n).

Lemma import_protocol_loop_reads m : forall i w c x,
  -1 <= i_tag x < 2 ^ 15 -> (forall k, i_request x = Some k -> Z.of_nat k < n) -> (forall k, i_response x = Some k -> Z.of_nat k < n) ->
  reads (import_protocol_loop malloc s n m i w c x) (fun x => -1 <= i_tag x < 2 ^ 15 /\
    (forall k, i_request x = Some k -> Z.of_nat k < n) /\ (forall k, i_response x = Some k -> Z.of_nat k < n)).
Proof.
  induction m as [|m IH]; intros i w c x H1 H2 H3; cbn [import_protocol_loop]; [by apply reads_ret|].
  apply (reads_bind _ _ (fun v => 0 <= v < 2 ^ 16)).
  { apply reads_lift. intros v. by apply toword_bound. }
  intros v Hv. destruct (negb _); [by apply IH|]. set (u := v / 2 - 1). assert (-1 <= u < 2 ^ 15) as Hu by (subst u; zdiv). clearbody u.
  destruct (i =? 0). { destruct (negb _); [apply reads_null|]. apply reads_any. intros name. by apply IH. }
  destruct (protocol_value n i u x) as [y|] eqn:Ey; [|apply reads_null]. unfold protocol_value in Ey. rewrite !Z.geb_leb in Ey.
  destruct (i =? 1); [destruct (u <? 0); [done|]; injection Ey as <-; by apply IH|].
  destruct (i =? 2); [|destruct (i =? 3); [|done]];
    (destruct (Z.ltb_spec u 0), (Z.leb_spec n u); try done); injection Ey as <-; apply IH; try done; intros k [= <-]; lia.
Qed.

Lemma import_protocol_reads o : reads (import_protocol malloc s n o) (fun r => protocol_ok n r.1).
Proof.
  unfold import_protocol. apply reads_any. intros sz. apply reads_any. intros fn. eapply reads_bind; [apply import_protocol_loop_reads; [cbn; lia|done|done]|].
  intros x (H1 & H2 & H3). destruct (i_name x); [|apply reads_null]. destruct (Z.ltb_spec (i_tag x) 0); [apply reads_null|]. apply reads_ret. split_and!; cbn; try done; lia.
Qed.

End Types.

Lemma import_all_reads {A} (import : Z -> rd (A * Z)) (Q : A -> Prop) n : (forall o, reads (import o) (fun r => Q r.1)) ->
  forall o, reads (import_all import n o) (fun l => length l = n /\ Forall Q l).
Proof.
  intros Hi. induction n as [|n IH]; intros o; cbn [import_all]; [by apply reads_ret|].
  apply (reads_bind _ _ _ _ (Hi o)). intros [x o'] Hx. apply (reads_bind _ _ _ _ (IH o')). intros l [Hl Hf]. apply reads_ret. cbn in *. split; [lia|by constructor].
Qed.

Lemma bundle_reads malloc s : bytes s -> reads (create_from_bundle malloc s) (fun r =>
  Forall (fun t => type_wf t /\ Forall (field_ok (zlen r.1)) (f t)) r.1 /\ Forall (protocol_ok (zlen r.1)) r.2).
Proof.
  intros Hs. assert (forall w c, reads (bundle_part malloc s w c) (fun r => 0 <= r.1)) as Hpart.
  { intros w c. unfold bundle_part. apply reads_any. intros v. destruct (negb _); [apply reads_null|]. apply reads_any. intros n.
    destruct (Z.ltb_spec n 0); [apply reads_null|]. apply reads_any. intros a. apply reads_any. intros _. apply reads_any. intros sz. by apply reads_ret. }
  unfold create_from_bundle. apply reads_any. intros fn. destruct (_ || _); [apply reads_null|].
  apply (reads_bind _ _ (fun r => 0 <= r.1)). { destruct (fn >? 0); [apply Hpart|by apply reads_ret]. }
  intros [n c] Hn. cbn [fst] in Hn. apply reads_any. intros [m c']. 
  eapply reads_bind; [apply (import_all_reads _ (fun t => type_wf t /\ Forall (field_ok n) (f t))), (import_type_reads malloc s Hs n)|]. intros ts [Ht1 Ht2].
  eapply reads_bind; [apply (import_all_reads _ (protocol_ok n)), (import_protocol_reads malloc s Hs n)|]. intros ps [_ Hp]. apply reads_ret. cbn [fst snd].
  rewrite Ht1. by rewrite Z2Nat.id.
Qed.

(** ** Reading a bundle *)

(** The fields of the types that describe a schema (sprotoparser.lua):
    [.type { .field { name 0 : string  buildin 1 : integer  type 2 : integer
    tag 3 : integer  array 4 : boolean  key 5 : integer }  name 0 : string
    fields 1 : *field }  .protocol { name 0 : string  tag 1 : integer
    request 2 : integer  response 3 : integer }
    .group { type 0 : *type  protocol 1 : *protocol }]. *)
Definition meta (t ty : Z) : field := Field t ty "" None (-1).
Definition obj (l : list Z) : elem := EObj l (zlen l).
Definition int (z : Z) : val := One (EInt z).

Definition field_message (x : field) : list Z :=
  let b := base_type (type x) in
  message [(meta 0 SPROTO_TSTRING, Some (One (obj (ascii (fname x)))));
           (meta 1 SPROTO_TINTEGER, if b =? SPROTO_TSTRUCT then None else Some (int b));
           (meta 2 SPROTO_TINTEGER, if b =? SPROTO_TSTRUCT then k ← st x; Some (int (Z.of_nat k)) else None);
           (meta 3 SPROTO_TINTEGER, Some (int (tag x)));
           (meta 4 SPROTO_TBOOLEAN, if is_array (type x) then Some (One (EBool true)) else None);
           (meta 5 SPROTO_TINTEGER, if key x <? 0 then None else Some (int (key x)))].

Definition array_of (l : list (list Z)) : option val := Some (Many (map obj l)).

Definition type_message (t : sproto_type) : list Z :=
  message [(meta 0 SPROTO_TSTRING, Some (One (obj (ascii (tname t)))));
           (meta 1 (Z.lor SPROTO_TSTRUCT SPROTO_TARRAY), array_of (map field_message (f t)))].

Definition protocol_message (p : protocol) : list Z :=
  message [(meta 0 SPROTO_TSTRING, Some (One (obj (ascii (pname p)))));
           (meta 1 SPROTO_TINTEGER, Some (int (ptag p)));
           (meta 2 SPROTO_TINTEGER, k ← request p; Some (int (Z.of_nat k)));
           (meta 3 SPROTO_TINTEGER, k ← response p; Some (int (Z.of_nat k)))].

Definition bundle (ts : list sproto_type) (ps : list protocol) : list Z :=
  message [(meta 0 (Z.lor SPROTO_TSTRUCT SPROTO_TARRAY), array_of (map type_message ts));
           (meta 1 (Z.lor SPROTO_TSTRUCT SPROTO_TARRAY), array_of (map protocol_message ps))].

(** *** Words and parts *)

Definition part (l : list Z) : list Z := put_le 4 (zlen l) ++ l.
Definition parts (ls : list (list Z)) : list Z := concat (map part ls).

(** Records, and data with a part for each record that is zero. *)
Definition packed (rs : list Z) (ls : list (list Z)) : list Z := put_le 2 (zlen rs) ++ words rs ++ parts ls.

Definition field_words (x : field) : list Z :=
  let b := base_type (type x) in
  0 :: (if b =? SPROTO_TSTRUCT then [1; (match st x with Some k => Z.of_nat k | None => 0 end + 1) * 2] else [(b + 1) * 2; 1]) ++
  [(tag x + 1) * 2] ++ (if is_array (type x) then [4] else if key x <? 0 then [] else [1]) ++ (if key x <? 0 then [] else [(key x + 1) * 2]).

Definition protocol_words (p : protocol) : list Z :=
  [0; (ptag p + 1) * 2] ++ (match request p with Some k => [(Z.of_nat k + 1) * 2] | None => match response p with Some _ => [1] | None => [] end end) ++
  (match response p with Some k => [(Z.of_nat k + 1) * 2] | None => [] end).

(** What a schema may have: tags, keys and positions fit a word, names have no
    zero and there is a type behind a struct. *)
Definition plain (s : string) : Prop := Forall (fun b => b <> 0) (ascii s) /\ Z.of_nat (String.length s) < 2 ^ 31.

Record field_src (n : Z) (x : field) : Prop := {
  fs_tag : 0 <= tag x < 0x7fff;
  fs_type : exists b, 0 <= b <= 3 /\ (type x = b \/ type x = Z.lor b SPROTO_TARRAY);
  fs_st : if base_type (type x) =? SPROTO_TSTRUCT then exists k, st x = Some k /\ Z.of_nat k < n else st x = None;
  fs_key : -1 <= key x < 0x7fff;
  fs_name : plain (fname x)
}.

Definition type_base (fs : list field) : Z :=
  match head fs, last fs with Some x, Some y => if tag y - tag x + 1 =? zlen fs then tag x else -1 | _, _ => 0 end.

Record type_src (n : Z) (t : sproto_type) : Prop := {
  ts_name : plain (tname t);
  ts_fields : Forall (field_src n) (f t);
  ts_ascending : ascending (f t) (-1);
  ts_maxn : maxn t = count_max (f t) (-1);
  ts_base : base t = type_base (f t)
}.

Record protocol_src (n : Z) (p : protocol) : Prop := {
  ps_name : plain (pname p);
  ps_tag : 0 <= ptag p < 0x7fff;
  ps_request : forall k, request p = Some k -> Z.of_nat k < n;
  ps_response : forall k, response p = Some k -> Z.of_nat k < n
}.

Record schema_src (ts : list sproto_type) (ps : list protocol) : Prop := {
  ss_types : Forall (type_src (zlen ts)) ts;
  ss_protocols : Forall (protocol_src (zlen ts)) ps;
  ss_some : ts <> [];
  ss_number : zlen ts < 0x7fff;
  ss_size : zlen (bundle ts ps) < 2 ^ 31
}.

Lemma message_packed fs rs ls : records fs (-1) = rs -> data fs = parts ls -> message fs = packed rs ls.
Proof. intros <- E. unfold message, packed. by rewrite E. Qed.

Lemma base_cases x n : field_src n x -> exists b, base_type (type x) = b /\ (b = 0 \/ b = 1 \/ b = 2 \/ b = 3) /\
  type x = Z.lor b (if is_array (type x) then SPROTO_TARRAY else 0).
Proof.
  intros Hx. destruct (fs_type _ _ Hx) as (b & Hb & Ht). exists b. assert (b = 0 \/ b = 1 \/ b = 2 \/ b = 3) as Hc by lia.
  destruct Hc as [-> |[-> |[-> | ->]]], Ht as [-> | ->]; vm_compute; split_and!; tauto.
Qed.

Lemma wire_word t z : 0 <= z < 0x7fff -> wire t (Some (int z)) = Some ((z + 1) * 2, []).
Proof. intros Hz. cbn. by rewrite (proj2 (Z.leb_le _ _)), (proj2 (Z.ltb_lt _ _)) by lia. Qed.

(** The record and the data of one value. *)
Lemma records_word x z fs last : 0 <= z < 0x7fff -> records ((x, Some (int z)) :: fs) last = skip_word last (tag x) ++ ((z + 1) * 2 :: records fs (tag x)).
Proof. intros Hz. cbn [records]. by rewrite wire_word. Qed.
Lemma data_word x z fs : 0 <= z < 0x7fff -> data ((x, Some (int z)) :: fs) = data fs.
Proof. intros Hz. cbn [data]. by rewrite wire_word. Qed.
Lemma records_obj x l fs last : records ((x, Some (One (obj l))) :: fs) last = skip_word last (tag x) ++ (0 :: records fs (tag x)).
Proof. done. Qed.
Lemma data_obj x l fs : data ((x, Some (One (obj l))) :: fs) = part l ++ data fs.
Proof. done. Qed.
Lemma records_true x fs last : records ((x, Some (One (EBool true))) :: fs) last = skip_word last (tag x) ++ (4 :: records fs (tag x)).
Proof. done. Qed.
Lemma data_true x fs : data ((x, Some (One (EBool true))) :: fs) = data fs.
Proof. done. Qed.
Lemma records_none x fs last : records ((x, None) :: fs) last = records fs last.
Proof. done. Qed.
Lemma data_none x fs : data ((x, None) :: fs) = data fs.
Proof. done. Qed.

Ltac wires := repeat first [rewrite records_obj|rewrite records_none|rewrite records_true|rewrite records_word by lia
  |rewrite data_obj|rewrite data_none|rewrite data_true|rewrite data_word by lia].

Lemma parts_one l : parts [l] = put_le 4 (zlen l) ++ l.
Proof. unfold parts, part. cbn. by rewrite app_nil_r. Qed.

Lemma field_packed n x : n < 0x7fff -> field_src n x -> field_message x = packed (field_words x) [ascii (fname x)].
Proof.
  intros Hn Hx. pose proof Hx as [H1 _ H3 H4 _]. destruct (base_cases x n Hx) as (b & Eb & Hb & _). unfold field_message, field_words. cbv zeta. rewrite Eb in *.
  assert (match st x with Some k => Z.of_nat k | None => 0 end < 0x7fff) as Hst.
  { destruct (b =? SPROTO_TSTRUCT); [destruct H3 as (k & -> & Hk); lia|by rewrite H3]. }
  assert ((b =? SPROTO_TSTRUCT) = true -> exists k, st x = Some k) as Hsome by (intros E; rewrite E in H3; destruct H3 as (k & ? & _); by exists k).
  apply message_packed.
  - destruct Hb as [-> |[-> |[-> | ->]]]; [| | |destruct Hsome as [k Ek]; [done|]; rewrite Ek in *];
      destruct (is_array (type x)); destruct (Z.ltb_spec (key x) 0); cbn [Z.eqb SPROTO_TSTRUCT Pos.eqb mbind option_bind]; wires; done.
  - destruct Hb as [-> |[-> |[-> | ->]]]; [| | |destruct Hsome as [k Ek]; [done|]; rewrite Ek in *];
      destruct (is_array (type x)); destruct (Z.ltb_spec (key x) 0); cbn [Z.eqb SPROTO_TSTRUCT Pos.eqb mbind option_bind]; wires; done.
Qed.

Lemma protocol_packed n p : n < 0x7fff -> protocol_src n p -> protocol_message p = packed (protocol_words p) [ascii (pname p)].
Proof.
  intros Hn [_ H1 H2 H3]. unfold protocol_message, protocol_words.
  apply message_packed; (destruct (request p) as [k|]; [specialize (H2 k eq_refl)|]); (destruct (response p) as [k'|]; [specialize (H3 k' eq_refl)|]);
    cbn [mbind option_bind]; wires; done.
Qed.

Lemma array_data_objs t l : (t =? SPROTO_TINTEGER) = false -> array_data t (map obj l) = part (parts l).
Proof.
  intros Ht. unfold array_data, body, part. rewrite Ht. assert (forall w, concat (map (elem_data w) (map obj l)) = parts l) as E; [|by rewrite !E].
  intros w. unfold parts. by rewrite map_map.
Qed.

Lemma type_packed t : type_message t = match f t with [] => packed [0] [ascii (tname t)] | fs => packed [0; 0] [ascii (tname t); parts (map field_message fs)] end.
Proof.
  unfold type_message, array_of. destruct (f t) as [|x fs] eqn:E; [done|]. apply message_packed; [done|]. cbn [map data obj wire].
  fold (obj (field_message x)). change (obj (field_message x) :: map obj (map field_message fs)) with (map obj (map field_message (x :: fs))).
  rewrite array_data_objs by done. unfold parts at 2. cbn [map concat]. by rewrite app_nil_r.
Qed.

Lemma bundle_packed ts ps : ts <> [] -> bundle ts ps = match ps with [] => packed [0] [parts (map type_message ts)]
  | _ => packed [0; 0] [parts (map type_message ts); parts (map protocol_message ps)] end.
Proof.
  intros Hts. unfold bundle, array_of. destruct ts as [|t ts]; [done|]. destruct ps as [|p ps].
  - apply message_packed; [done|]. cbn [map data wire].
    change (obj (type_message t) :: map obj (map type_message ts)) with (map obj (map type_message (t :: ts))).
    rewrite array_data_objs by done. unfold parts at 2. cbn [map concat]. by rewrite app_nil_r.
  - apply message_packed; [done|]. cbn [map data wire].
    change (obj (type_message t) :: map obj (map type_message ts)) with (map obj (map type_message (t :: ts))).
    change (obj (protocol_message p) :: map obj (map protocol_message ps)) with (map obj (map protocol_message (p :: ps))).
    rewrite !array_data_objs by done. unfold parts at 3. cbn [map concat]. by rewrite app_nil_r.
Qed.

(** *** Counting *)

Definition word16 (r : Z) : Prop := 0 <= r < 2 ^ 16.

Lemma has_words s w r rs : has s w (words (r :: rs)) -> word16 r -> toword s w = Some r /\ has s (w + 2) (words rs).
Proof.
  intros H Hr. change (words (r :: rs)) with (put_le 2 r ++ words rs) in H. apply has_app in H as [H1%toword_ok H2]. rewrite put_le_length in H2.
  split; [|done]. by rewrite Z.mod_small in H1.
Qed.

Lemma has_part s o l : has s o (part l) -> zlen l < 2 ^ 32 -> todword s o = Some (zlen l) /\ has s (o + 4) l.
Proof.
  intros H Hl. apply has_app in H as [H1%todword_ok H2]. rewrite put_le_length in H2. split; [|done]. rewrite Z.mod_small in H1 by lia. done.
Qed.

Lemma has_parts s o l ls : has s o (parts (l :: ls)) -> has s o (part l) /\ has s (o + zlen (part l)) (parts ls).
Proof. intros H. by apply has_app in H. Qed.

Lemma part_length l : zlen (part l) = 4 + zlen l.
Proof. unfold part. rewrite length_app, put_le_length. lia. Qed.

Lemma parts_cons_length l ls : zlen (parts (l :: ls)) = 4 + zlen l + zlen (parts ls).
Proof. change (parts (l :: ls)) with (part l ++ parts ls). rewrite length_app. pose proof (part_length l). lia. Qed.

Lemma count_array_loop_ok s ls : forall fuel o n, has s o (parts ls) -> zlen (parts ls) < 2 ^ 32 - 4 -> zlen (parts ls) < Z.of_nat fuel ->
  count_array_loop s fuel o (zlen (parts ls)) n = Some (n + zlen ls).
Proof.
  induction ls as [|l ls IH]; intros [|fuel] o n Hh Hl Hf; try (cbn in Hf; lia); cbn [count_array_loop].
  - cbn. f_equal. lia.
  - pose proof (parts_cons_length l ls) as El. apply has_parts in Hh as [H1 H2]. destruct (has_part _ _ _ H1) as [-> _]; [lia|].
    rewrite Z.gtb_ltb, (proj2 (Z.ltb_lt _ _)), (proj2 (Z.ltb_ge _ SIZEOF_LENGTH)) by (change SIZEOF_LENGTH with 4; lia). cbn [mbind option_bind]. change SIZEOF_LENGTH with 4.
    unfold u32. rewrite Z.mod_small, Z.gtb_ltb, (proj2 (Z.ltb_ge _ _)) by lia. rewrite part_length in H2. replace (o + (zlen l + 4)) with (o + (4 + zlen l)) by lia.
    replace (zlen (parts (l :: ls)) - (zlen l + 4)) with (zlen (parts ls)) by lia. rewrite IH; [cbn [length]; f_equal; lia|done|lia|lia].
Qed.

Lemma count_array_ok s o ls : has s o (part (parts ls)) -> zlen (parts ls) < 2 ^ 32 - 4 -> count_array s o = Some (zlen ls).
Proof.
  intros Hh Hl. destruct (has_part _ _ _ Hh) as [E H2]; [lia|]. unfold count_array. rewrite E. cbn [mbind option_bind].
  pose proof (has_bound _ _ _ H2). by rewrite count_array_loop_ok by (try done; lia).
Qed.

(** Each word that is zero has its part. *)
Fixpoint zeros (rs : list Z) : nat := match rs with [] => O | r :: rs => ((if (r =? 0)%Z then 1 else 0) + zeros rs)%nat end.

Lemma struct_field_loop_ok s rs : forall ls w o sz, has s w (words rs) -> has s o (parts ls) -> Forall word16 rs -> zeros rs = length ls ->
  zlen (parts ls) <= sz -> zlen (parts ls) < 2 ^ 32 - 4 -> struct_field_loop s (length rs) w o sz = Some true.
Proof.
  induction rs as [|r rs IH]; intros ls w o sz Hw Ho Hr Hz Hsz Hl; [done|]. apply Forall_cons in Hr as [Hr Hrs]. cbn [length struct_field_loop].
  destruct (has_words _ _ _ _ Hw Hr) as [-> Hw2]. cbn [mbind option_bind]. cbn [zeros] in Hz. destruct (Z.eqb_spec r 0) as [->|Hne]; cbn [negb].
  - destruct ls as [|l ls]; [done|]. pose proof (parts_cons_length l ls) as El. apply has_parts in Ho as [H1 H2]. destruct (has_part _ _ _ H1) as [E _]; [lia|].
    rewrite (proj2 (Z.ltb_ge _ _)) by (change SIZEOF_LENGTH with 4; lia). rewrite E. cbn [mbind option_bind]. change SIZEOF_LENGTH with 4. unfold u32.
    rewrite Z.mod_small, (proj2 (Z.ltb_ge _ _)) by lia. rewrite part_length in H2. apply (IH ls); try done; cbn in Hz; lia.
  - by apply (IH ls).
Qed.

Lemma packed_length rs ls : zlen (packed rs ls) = 2 + 2 * zlen rs + zlen (parts ls).
Proof. unfold packed. rewrite !length_app, put_le_length. pose proof (words_length rs). lia. Qed.

(** A struct: its number of words, the words and the data. *)
Lemma struct_field_ok s o rs ls : has s o (packed rs ls) -> rs <> [] -> zlen rs < 2 ^ 16 -> Forall word16 rs -> zeros rs = length ls ->
  zlen (parts ls) < 2 ^ 32 - 4 ->
  struct_field s o (zlen (packed rs ls)) = Some (zlen rs) /\ has s (o + 2) (words rs) /\ has s (o + 2 + zlen rs * 2) (parts ls).
Proof.
  intros Hh Hne Hn Hr Hz Hl. pose proof (packed_length rs ls) as El. apply has_app in Hh as [H1%toword_ok H2]. apply has_app in H2 as [H2 H3].
  rewrite put_le_length in H2, H3. rewrite words_length in H3. rewrite Z.mod_small in H1 by lia. change (Z.of_nat 2) with 2 in *.
  replace (o + 2 + 2 * zlen rs) with (o + 2 + zlen rs * 2) in H3 by lia. split; [|done].
  assert (0 < zlen rs) by (destruct rs; [done|cbn; lia]). unfold struct_field. change SIZEOF_LENGTH with 4. change SIZEOF_HEADER with 2. change SIZEOF_FIELD with 2.
  rewrite (proj2 (Z.ltb_ge _ _)) by lia. rewrite H1. cbn [mbind option_bind]. rewrite (proj2 (Z.ltb_ge _ _)) by lia. rewrite Nat2Z.id.
  replace (o + (2 + 2 * zlen rs)) with (o + 2 + zlen rs * 2) by lia. rewrite (struct_field_loop_ok s rs ls); try done. lia.
Qed.

(** *** Reading the parts *)

(** Reading gives [a], whatever the pool has given before. *)
Definition gives {A} (m : rd A) (a : A) : Prop := forall p l, pool_ok p l -> exists p' l', m p = Some (Some a, p') /\ pool_ok p' l'.

Lemma gives_ret {A} (a : A) : gives (rret a) a.
Proof. intros p l Hp. by exists p, l. Qed.
Lemma gives_lift {A} (x : option A) a : x = Some a -> gives (rlift x) a.
Proof. intros -> p l Hp. by exists p, l. Qed.
Lemma gives_bind {A B} (m : rd A) (k : A -> rd B) a b : gives m a -> gives (k a) b -> gives (rbind m k) b.
Proof. intros Hm Hk p l Hp. destruct (Hm p l Hp) as (p1 & l1 & E & H1). unfold rbind. rewrite E. cbn. by apply (Hk p1 l1). Qed.

Section Gives.
Context (malloc : nat -> Z -> bool) (Hmalloc : forall n sz, malloc n sz = true) (s : list Z) (n : Z) (Hn : n < 0x7fff).

Lemma gives_alloc {B} sz (k : option (nat * Z) -> rd B) b : 0 <= sz <= 2 ^ 64 - 16 -> (forall c, gives (k (Some c)) b) -> gives (rbind (ralloc malloc sz) k) b.
Proof.
  intros Hs Hk p l Hp. destruct (pool_alloc_total malloc p sz Hmalloc) as (p1 & c & o & E).
  pose proof (pool_alloc_ok malloc p l sz p1 c o Hp Hs E) as H1. unfold rbind, ralloc. rewrite E. cbn. by apply (Hk (c, o) p1 _ H1).
Qed.

Lemma cstring_ascii x : plain x -> cstring (ascii x) = x.
Proof.
  intros [Hx _]. induction x as [|a x IH]; [done|]. change (ascii (String a x)) with (Z.of_N (Ascii.N_of_ascii a) :: ascii x) in *.
  apply Forall_cons in Hx as [Ha Hx]. cbn [cstring]. rewrite (proj2 (Z.eqb_neq _ _) Ha), IH by done. f_equal. by rewrite N2Z.id, Ascii.ascii_N_embedding.
Qed.

Lemma ascii_length x : length (ascii x) = String.length x.
Proof. induction x as [|a x IH]; [done|]. cbn. f_equal. exact IH. Qed.

Lemma import_string_gives o x : has s o (part (ascii x)) -> plain x -> gives (import_string malloc s o) x.
Proof.
  intros Hh Hx. pose proof Hx as [_ Hlen]. rewrite <- ascii_length in Hlen. destruct (has_part _ _ _ Hh) as [E H2]; [lia|]. pose proof (has_bound _ _ _ H2).
  unfold import_string. apply (gives_bind _ _ _ _ (gives_lift _ _ E)). unfold u32. rewrite Z.mod_small by lia. apply gives_alloc; [lia|]. intros c.
  apply (gives_bind _ _ c); [by apply gives_lift|]. change SIZEOF_LENGTH with 4. rewrite (proj2 (Z.ltb_lt _ _)), (proj2 (Z.leb_le _ _)) by lia. cbn [andb].
  rewrite (has_slice _ _ _ H2), cstring_ascii by done. apply gives_ret.
Qed.

(** One word, even and not zero. *)
Lemma even_word v : 0 <= v -> negb (Z.land ((v + 1) * 2) 1 =? 0) = false /\ (v + 1) * 2 / 2 - 1 = v /\ ((v + 1) * 2 =? 0) = false.
Proof. intros Hv. rewrite land_1. split_and!; zdiv. Qed.

(** The words of a field, one by one. *)
Lemma loop_skip m w c tag x rs y : has s w (words (1 :: rs)) -> (has s (w + 2) (words rs) -> gives (import_field_loop malloc s n m (w + 2) c (tag + 1) x) y) ->
  gives (import_field_loop malloc s n (S m) w c tag x) y.
Proof.
  intros Hw H. destruct (has_words _ _ _ _ Hw) as [E Hw2]; [done|]. cbn [import_field_loop]. apply (gives_bind _ _ _ _ (gives_lift _ _ E)).
  change (negb (Z.land 1 1 =? 0)) with true. change (1 / 2) with 0. rewrite Z.add_0_r. by apply H.
Qed.

Lemma loop_name m w c x rs y name : has s w (words (0 :: rs)) -> has s c (part (ascii name)) -> plain name ->
  (has s (w + 2) (words rs) -> gives (import_field_loop malloc s n m (w + 2) c 0 (IField (f_tag x) (f_type x) (Some name) (f_st x) (f_key x) (f_array x))) y) ->
  gives (import_field_loop malloc s n (S m) w c (-1) x) y.
Proof.
  intros Hw Hc Hp H. destruct (has_words _ _ _ _ Hw) as [E Hw2]; [done|]. cbn [import_field_loop]. apply (gives_bind _ _ _ _ (gives_lift _ _ E)).
  change (negb (Z.land 0 1 =? 0)) with false. change (-1 + 1 =? 0) with true. change (negb (0 =? 0)) with false. cbv iota.
  apply (gives_bind _ _ name); [by apply import_string_gives|]. by apply H.
Qed.

Lemma loop_value m w c tag x rs y v x' : has s w (words ((v + 1) * 2 :: rs)) -> 0 <= v < 0x7fff -> 0 <= tag -> field_value n (tag + 1) v x = Some x' ->
  (has s (w + 2) (words rs) -> gives (import_field_loop malloc s n m (w + 2) c (tag + 1) x') y) -> gives (import_field_loop malloc s n (S m) w c tag x) y.
Proof.
  intros Hw Hv Ht Ex H. destruct (has_words _ _ _ _ Hw) as [E Hw2]; [unfold word16; lia|]. cbn [import_field_loop]. apply (gives_bind _ _ _ _ (gives_lift _ _ E)).
  destruct (even_word v) as (-> & -> & ->); [lia|]. rewrite (proj2 (Z.eqb_neq _ _)) by lia. rewrite Ex. by apply H.
Qed.

Lemma import_field_loop_gives x w c : has s w (words (field_words x)) -> has s c (part (ascii (fname x))) -> field_src n x ->
  exists y, gives (import_field_loop malloc s n (length (field_words x)) w c (-1) (IField (-1) (-1) None None (-1) 0)) y /\
    f_name y = Some (fname x) /\ 0 <= f_tag y /\ 0 <= f_type y /\ Field (f_tag y) (Z.lor (f_type y) (f_array y)) (fname x) (f_st y) (f_key y) = x.
Proof.
  intros Hw Hc Hx. pose proof Hx as [H1 _ H3 H4 H5]. destruct (base_cases x n Hx) as (b & Eb & Hb & Et).
  exists (IField (tag x) b (Some (fname x)) (st x) (key x) (if is_array (type x) then SPROTO_TARRAY else 0)). split; [|cbn; split_and!; try lia; [done|destruct x; cbn in *; by rewrite <- Et]].
  unfold field_words in *. cbv zeta in *. rewrite Eb in *. cbn [app] in Hw. cbn [length app]. apply (loop_name _ _ _ _ _ _ _ Hw Hc H5). clear Hw. intros Hw.
  assert (exists k, (k < 0 /\ key x = -1) \/ key x = k /\ 0 <= k < 0x7fff) as (k & Hk) by (exists (if key x <? 0 then -1 else key x); destruct (Z.ltb_spec (key x) 0); lia).
  assert (forall w y rest, has s w (words rest) -> rest = [(tag x + 1) * 2] ++ (if is_array (type x) then [4] else if key x <? 0 then [] else [1]) ++ (if key x <? 0 then [] else [(key x + 1) * 2]) ->
    f_type y = b -> f_name y = Some (fname x) -> f_st y = st x -> f_key y = -1 -> f_array y = 0 ->
    gives (import_field_loop malloc s n (length rest) w c 2 y) (IField (tag x) b (Some (fname x)) (st x) (key x) (if is_array (type x) then SPROTO_TARRAY else 0))) as Hrest.
  { clear Hw. intros w' y rest Hw -> E1 E2 E3 E4 E5. cbn [app] in Hw. cbn [app length]. eapply loop_value; [exact Hw|lia|lia|reflexivity|].
    clear Hw. intros Hw. change (2 + 1) with 3. rewrite E1, E2, E3, E4, E5.
    destruct (is_array (type x)), (Z.ltb_spec (key x) 0) as [L|L]; cbn [app length] in *.
    - eapply (loop_value _ _ _ _ _ _ _ 1); [exact Hw|lia|lia|reflexivity|]. intros _. replace (key x) with (-1) by lia. apply gives_ret.
    - eapply (loop_value _ _ _ _ _ _ _ 1); [exact Hw|lia|lia|reflexivity|]. clear Hw. intros Hw. eapply loop_value; [exact Hw|lia|lia|reflexivity|]. intros _. apply gives_ret.
    - replace (key x) with (-1) by lia. apply gives_ret.
    - apply (loop_skip _ _ _ _ _ _ _ Hw). clear Hw. intros Hw. eapply loop_value; [exact Hw|lia|lia|reflexivity|]. intros _. apply gives_ret. }
  destruct (Z.eqb_spec b SPROTO_TSTRUCT) as [E|E].
  - destruct H3 as (j & Ej & Hj). rewrite Ej in Hw. cbn [app length] in *. apply (loop_skip _ _ _ _ _ _ _ Hw). clear Hw. intros Hw. rewrite Ej.
    apply (loop_value _ _ _ _ _ _ _ _ (IField (-1) SPROTO_TSTRUCT (Some (fname x)) (st x) (-1) 0) Hw); [lia|lia| |].
    + unfold field_value. change (0 + 1 + 1) with 2. cbn [Z.eqb Pos.eqb f_type f_tag f_name f_key f_array]. rewrite !Z.geb_leb, (proj2 (Z.leb_gt n _)) by lia. by rewrite Ej, Nat2Z.id.
    + clear Hw. intros Hw. rewrite <- Ej. by apply (Hrest _ _ _ Hw).
  - cbn [app length] in *. assert (0 <= b < 3) as Hb3 by (change SPROTO_TSTRUCT with 3 in E; lia).
    apply (loop_value _ _ _ _ _ _ _ _ (IField (-1) b (Some (fname x)) None (-1) 0) Hw); [lia|lia| |].
    + unfold field_value. change (0 + 1) with 1. cbn [Z.eqb Pos.eqb f_type f_tag f_name f_key f_array]. by rewrite Z.geb_leb, (proj2 (Z.leb_gt _ _)) by (change SPROTO_TSTRUCT with 3; lia).
    + clear Hw. intros Hw. apply (loop_skip _ _ _ _ _ _ _ Hw). clear Hw. intros Hw. by apply (Hrest _ _ _ Hw).
Qed.

Lemma field_words_ok x : field_src n x -> field_words x <> [] /\ zlen (field_words x) <= 6 /\ Forall word16 (field_words x) /\ zeros (field_words x) = 1%nat.
Proof.
  intros Hx. pose proof Hx as [H1 _ H3 H4 _]. destruct (base_cases x n Hx) as (b & Eb & Hb & _). unfold field_words. cbv zeta. rewrite Eb in *.
  assert (0 <= match st x with Some k => Z.of_nat k | None => 0 end < 0x7fff) as Hst.
  { destruct (b =? SPROTO_TSTRUCT); [destruct H3 as (k & -> & Hk); lia|by rewrite H3]. }
  assert (forall v, 0 <= v < 0x7fff -> word16 ((v + 1) * 2) /\ ((v + 1) * 2 =? 0) = false) as Hv by (unfold word16; intros v Hv; lia).
  destruct (Hv (tag x) H1) as [T1 T2]. destruct (Hv _ Hst) as [S1 S2]. destruct (Hv b ltac:(lia)) as [B1 B2].
  split; [done|].
  destruct (b =? SPROTO_TSTRUCT), (is_array (type x)), (Z.ltb_spec (key x) 0) as [L|L];
    try (destruct (Hv (key x) ltac:(lia)) as [K1 K2]); cbn [app length zeros]; rewrite ?T2, ?S2, ?B2, ?K2; (split; [lia|split; [repeat (apply Forall_cons_2; [done|]); apply Forall_nil_2|done]]).
Qed.

Lemma import_field_gives o x : has s o (part (field_message x)) -> field_src n x -> zlen (field_message x) < 2 ^ 31 ->
  gives (import_field malloc s n o) (x, o + zlen (part (field_message x))).
Proof.
  intros Hh Hx Hl. destruct (has_part _ _ _ Hh) as [E H2]; [lia|]. rewrite part_length. pose proof (fs_name _ _ Hx) as Hp.
  rewrite (field_packed n) in * by done. destruct (field_words_ok x Hx) as (W1 & W2 & W3 & W4). rewrite packed_length in Hl.
  destruct (struct_field_ok _ _ _ _ H2) as (E2 & Hw & Hd); [done|lia|done|by rewrite W4|lia|]. apply has_parts in Hd as [Hd _].
  unfold import_field. apply (gives_bind _ _ _ _ (gives_lift _ _ E)). change SIZEOF_LENGTH with 4. change SIZEOF_HEADER with 2. change SIZEOF_FIELD with 2.
  apply (gives_bind _ _ _ _ (gives_lift _ _ E2)). rewrite (proj2 (Z.ltb_ge _ _)), Nat2Z.id by lia.
  destruct (import_field_loop_gives x _ _ Hw Hd Hx) as (y & Hy & Y1 & Y2 & Y3 & Y4). apply (gives_bind _ _ _ _ Hy). rewrite Y1, Y4.
  rewrite !(proj2 (Z.ltb_ge _ _)) by lia. cbn [orb]. rewrite Z.add_assoc. apply gives_ret.
Qed.

Lemma import_fields_gives fs : forall o last maxn, has s o (parts (map field_message fs)) -> zlen (parts (map field_message fs)) < 2 ^ 31 ->
  Forall (field_src n) fs -> ascending fs last -> gives (import_fields malloc s n (length fs) o last maxn) (fs, maxn + count_max fs last - zlen fs).
Proof.
  induction fs as [|x fs IH]; intros o last maxn Hh Hl Hf Ha; cbn [import_fields length].
  { replace (maxn + count_max [] last - Z.of_nat 0) with maxn by (cbn; lia). apply gives_ret. }
  apply Forall_cons in Hf as [Hx Hf]. destruct Ha as [Hlast Ha]. cbn [map] in *. pose proof (parts_cons_length (field_message x) (map field_message fs)) as El.
  apply has_parts in Hh as [H1 H2]. eapply gives_bind; [apply import_field_gives; [done|done|lia]|]. cbn iota beta. rewrite (proj2 (Z.leb_gt _ _)) by lia.
  eapply gives_bind; [apply (IH _ _ _ H2); [lia|done|done]|]. cbn iota beta.
  replace (maxn + count_max (x :: fs) last - Z.of_nat (S (length fs))) with ((if tag x >? last + 1 then maxn + 1 else maxn) + count_max fs (tag x) - zlen fs);
    [apply gives_ret|]. cbn [count_max]. destruct (tag x >? last + 1); lia.
Qed.

Lemma zero_words_ok m : forall w rs, has s w (words rs) -> rs = replicate m 0 -> zero_words s m w = Some true.
Proof.
  induction m as [|m IH]; intros w rs Hw ->; [done|]. cbn [zero_words]. cbn [replicate] in Hw. destruct (has_words _ _ _ _ Hw) as [-> Hw2]; [done|].
  cbn [mbind option_bind Z.eqb negb]. by apply (IH _ _ Hw2).
Qed.

Lemma import_type_gives o t : has s o (part (type_message t)) -> type_src n t -> zlen (type_message t) < 2 ^ 31 ->
  gives (import_type malloc s n o) (t, o + zlen (part (type_message t))).
Proof.
  intros Hh [T1 T2 T3 T4 T5] Hl. destruct (has_part _ _ _ Hh) as [E H2]; [lia|]. rewrite part_length, Z.add_assoc.
  unfold import_type. apply (gives_bind _ _ _ _ (gives_lift _ _ E)). change SIZEOF_LENGTH with 4. change SIZEOF_HEADER with 2. change SIZEOF_FIELD with 2.
  rewrite type_packed in *. destruct (f t) as [|x fs] eqn:Ef.
  - rewrite packed_length in Hl. destruct (struct_field_ok _ _ _ _ H2) as (E2 & Hw & Hd); [done|done|by repeat constructor|done|lia|]. apply has_parts in Hd as [Hd _].
    apply (gives_bind _ _ _ _ (gives_lift _ _ E2)). cbn [length Z.of_nat Pos.of_succ_nat Z.leb Z.gtb Z.compare Pos.compare Pos.compare_cont orb Z.to_nat Pos.to_nat Pos.iter_op].
    eapply gives_bind; [apply gives_lift; by apply (zero_words_ok _ _ _ Hw)|]. cbn [negb].
    eapply gives_bind; [apply import_string_gives; [|exact T1]; by rewrite Z.add_assoc|]. cbn [Z.eqb Pos.eqb].
    assert (SType (tname t) 0 0 [] = t) as ->; [|apply gives_ret]. destruct t. cbn in *. by subst.
  - set (ms := map field_message (x :: fs)) in *. rewrite packed_length, !parts_cons_length in Hl.
    destruct (struct_field_ok _ _ _ _ H2) as (E2 & Hw & Hd); [done|done|by repeat constructor|done|rewrite !parts_cons_length; lia|].
    apply has_parts in Hd as [Hd Hd2]. apply has_parts in Hd2 as [Hd2 _].
    apply (gives_bind _ _ _ _ (gives_lift _ _ E2)). cbn [length Z.of_nat Pos.of_succ_nat Pos.succ Z.leb Z.gtb Z.compare Pos.compare Pos.compare_cont orb Z.to_nat Pos.to_nat Pos.iter_op Nat.add].
    eapply gives_bind; [apply gives_lift; by apply (zero_words_ok _ _ _ Hw)|]. cbn [negb].
    rewrite !Z.add_assoc. eapply gives_bind; [apply import_string_gives; [exact Hd|exact T1]|]. cbn [Z.eqb Pos.eqb].
    destruct (has_part _ _ _ Hd) as [E3 _]; [lia|]. apply (gives_bind _ _ _ _ (gives_lift _ _ E3)).
    unfold u32. rewrite Z.mod_small by lia. rewrite part_length in Hd2. rewrite (Z.add_comm (zlen (ascii (tname t))) 4).
    eapply gives_bind; [apply gives_lift; apply (count_array_ok _ _ ms Hd2); lia|].
    assert (zlen ms = zlen (x :: fs)) as Elen by (subst ms; by rewrite length_map). rewrite Elen, (proj2 (Z.ltb_ge _ _)) by lia.
    destruct (has_part _ _ _ Hd2) as [_ Hd3]; [lia|]. pose proof (has_bound _ _ _ Hd3).
    assert (zlen (x :: fs) <= zlen (parts ms)) as Hfew.
    { rewrite <- Elen. clear. induction ms as [|m ms IH]; [done|]. rewrite parts_cons_length. cbn [length]. lia. }
    apply gives_alloc; [lia|]. intros c. apply (gives_bind _ _ c); [by apply gives_lift|]. rewrite Nat2Z.id.
    eapply gives_bind; [apply import_fields_gives; [exact Hd3|fold ms; lia|done|done]|]. cbn iota beta.
    destruct (last (x :: fs)) as [y|] eqn:Ey; [|by apply last_None in Ey].
    apply (gives_bind _ _ x); [by apply gives_lift|]. apply (gives_bind _ _ y); [by apply gives_lift|].
    replace (SType _ _ _ _) with t; [apply gives_ret|]. transitivity (SType (tname t) (base t) (maxn t) (f t)); [by destruct t|].
    rewrite T4, T5, Ef. f_equal; [unfold type_base; cbn [head]; by rewrite Ey|lia].
Qed.

(** The words of a protocol. *)
Lemma protocol_value_gives m i w c x rs y v x' : has s w (words ((v + 1) * 2 :: rs)) -> 0 <= v < 0x7fff -> 0 < i -> protocol_value n i v x = Some x' ->
  (has s (w + 2) (words rs) -> gives (import_protocol_loop malloc s n m (i + 1) (w + 2) c x') y) -> gives (import_protocol_loop malloc s n (S m) i w c x) y.
Proof.
  intros Hw Hv Hi Ex H. destruct (has_words _ _ _ _ Hw) as [E Hw2]; [unfold word16; lia|]. cbn [import_protocol_loop]. apply (gives_bind _ _ _ _ (gives_lift _ _ E)).
  destruct (even_word v) as (-> & -> & _); [lia|]. rewrite (proj2 (Z.eqb_neq i 0)) by lia. rewrite Ex. by apply H.
Qed.

Lemma protocol_skip_gives m i w c x rs y : has s w (words (1 :: rs)) -> (has s (w + 2) (words rs) -> gives (import_protocol_loop malloc s n m (i + 1) (w + 2) c x) y) ->
  gives (import_protocol_loop malloc s n (S m) i w c x) y.
Proof.
  intros Hw H. destruct (has_words _ _ _ _ Hw) as [E Hw2]; [done|]. cbn [import_protocol_loop]. apply (gives_bind _ _ _ _ (gives_lift _ _ E)).
  change (negb (Z.land 1 1 =? 0)) with true. by apply H.
Qed.

Lemma import_protocol_loop_gives p w c : has s w (words (protocol_words p)) -> has s c (part (ascii (pname p))) -> protocol_src n p ->
  gives (import_protocol_loop malloc s n (length (protocol_words p)) 0 w c (IProto None (-1) None None)) (IProto (Some (pname p)) (ptag p) (request p) (response p)).
Proof.
  intros Hw Hc [H1 H2 H3 H4]. unfold protocol_words in *. cbn [app length] in *.
  destruct (has_words _ _ _ _ Hw) as [E Hw2]; [done|]. cbn [import_protocol_loop]. apply (gives_bind _ _ _ _ (gives_lift _ _ E)).
  change (negb (Z.land 0 1 =? 0)) with false. change (negb (0 / 2 - 1 =? -1)) with false. change (0 =? 0) with true. cbv iota.
  apply (gives_bind _ _ (pname p)); [by apply import_string_gives|]. clear E Hw. change SIZEOF_FIELD with 2. change (0 + 1) with 1.
  cbn [i_name i_tag i_request i_response].
  eapply protocol_value_gives; [exact Hw2|lia|lia|unfold protocol_value; cbn [Z.eqb Pos.eqb]; by rewrite (proj2 (Z.ltb_ge _ _)) by lia|]. clear Hw2. intros Hw. change (1 + 1) with 2.
  assert (forall i k x, (i = 2 \/ i = 3) -> Z.of_nat k < n -> protocol_value n i (Z.of_nat k) x =
    Some (if i =? 2 then IProto (i_name x) (i_tag x) (Some k) (i_response x) else IProto (i_name x) (i_tag x) (i_request x) (Some k))) as Hv.
  { intros i k x Hi Hk. unfold protocol_value. rewrite !Z.geb_leb, (proj2 (Z.ltb_ge _ _)), (proj2 (Z.leb_gt _ _)), Nat2Z.id by lia. by destruct Hi as [-> | ->]. }
  destruct (request p) as [k|].
  - specialize (H3 k eq_refl). cbn [app length] in *. eapply protocol_value_gives; [exact Hw|lia|lia|apply Hv; [by left|done]|]. clear Hw. intros Hw.
    change (2 + 1) with 3. cbn [Z.eqb Pos.eqb i_name i_tag i_request i_response]. destruct (response p) as [j|]; [|apply gives_ret].
    specialize (H4 j eq_refl). cbn [length] in *. eapply protocol_value_gives; [exact Hw|lia|lia|apply Hv; [by right|done]|]. intros _. apply gives_ret.
  - destruct (response p) as [j|]; [|apply gives_ret]. cbn [app length] in *. apply (protocol_skip_gives _ _ _ _ _ _ _ Hw). clear Hw. intros Hw. change (2 + 1) with 3.
    specialize (H4 j eq_refl). eapply protocol_value_gives; [exact Hw|lia|lia|apply Hv; [by right|done]|]. intros _. apply gives_ret.
Qed.

Lemma protocol_words_ok p : protocol_src n p -> zlen (protocol_words p) <= 4 /\ Forall word16 (protocol_words p) /\ zeros (protocol_words p) = 1%nat.
Proof.
  intros [_ H1 H2 H3]. assert (forall v, 0 <= v < 0x7fff -> word16 ((v + 1) * 2) /\ ((v + 1) * 2 =? 0) = false) as Hv by (unfold word16; intros v Hv; lia).
  unfold protocol_words. destruct (Hv (ptag p) H1) as [T1 T2].
  destruct (request p) as [k|]; [specialize (H2 k eq_refl); destruct (Hv (Z.of_nat k) ltac:(lia)) as [R1 R2]|];
    (destruct (response p) as [j|]; [specialize (H3 j eq_refl); destruct (Hv (Z.of_nat j) ltac:(lia)) as [S1 S2]|]);
    cbn [app length zeros]; rewrite ?T2, ?R2, ?S2; (split; [lia|split; [repeat (apply Forall_cons_2; [done|]); apply Forall_nil_2|done]]).
Qed.

Lemma import_protocol_gives o p : has s o (part (protocol_message p)) -> protocol_src n p -> zlen (protocol_message p) < 2 ^ 31 ->
  gives (import_protocol malloc s n o) (p, o + zlen (part (protocol_message p))).
Proof.
  intros Hh Hp Hl. destruct (has_part _ _ _ Hh) as [E H2]; [lia|]. rewrite part_length, Z.add_assoc.
  rewrite (protocol_packed n) in * by done. destruct (protocol_words_ok p Hp) as (W2 & W3 & W4). rewrite packed_length in Hl.
  destruct (struct_field_ok _ _ _ _ H2) as (E2 & Hw & Hd); [done|lia|done|by rewrite W4|lia|]. apply has_parts in Hd as [Hd _].
  unfold import_protocol. apply (gives_bind _ _ _ _ (gives_lift _ _ E)). change SIZEOF_LENGTH with 4. change SIZEOF_HEADER with 2. change SIZEOF_FIELD with 2.
  apply (gives_bind _ _ _ _ (gives_lift _ _ E2)). rewrite Nat2Z.id. rewrite (Z.mul_comm 2).
  apply (gives_bind _ _ _ _ (import_protocol_loop_gives p _ _ Hw Hd Hp)). cbn [i_name i_tag i_request i_response]. pose proof (ps_tag _ _ Hp).
  rewrite (proj2 (Z.ltb_ge _ _)) by lia. destruct p. apply gives_ret.
Qed.

End Gives.

Lemma import_all_gives {A} s (import : Z -> rd (A * Z)) (msg : A -> list Z) l :
  (forall x o, x ∈ l -> has s o (part (msg x)) -> gives (import o) (x, o + zlen (part (msg x)))) ->
  forall o, has s o (parts (map msg l)) -> gives (import_all import (length l) o) l.
Proof.
  induction l as [|x l IH]; intros Hi o Hh; cbn [import_all length]; [apply gives_ret|]. cbn [map] in Hh. apply has_parts in Hh as [H1 H2].
  eapply gives_bind; [apply Hi; [by left|exact H1]|]. cbn iota beta. eapply gives_bind; [apply IH; [|exact H2]|apply gives_ret]. intros y o' Hy. apply Hi. by right.
Qed.

Lemma bundle_part_gives malloc s w o rs ls : (forall n sz, malloc n sz = true) -> has s w (words (0 :: rs)) -> has s o (part (parts ls)) -> zlen (parts ls) < 2 ^ 31 ->
  gives (bundle_part malloc s w o) (zlen ls, o + zlen (part (parts ls))).
Proof.
  intros Hm Hw Hh Hl. destruct (has_words _ _ _ _ Hw) as [E _]; [done|]. unfold bundle_part. apply (gives_bind _ _ _ _ (gives_lift _ _ E)). cbn [Z.eqb negb].
  eapply gives_bind; [apply gives_lift; apply (count_array_ok _ _ ls Hh); lia|]. rewrite (proj2 (Z.ltb_ge _ _)) by lia.
  assert (zlen ls <= zlen (parts ls)) as Hfew by (clear; induction ls as [|m ls IH]; [done|]; rewrite parts_cons_length; cbn [length]; lia).
  apply gives_alloc; [done|lia|]. intros c. apply (gives_bind _ _ tt); [apply gives_lift; by destruct (_ =? _)|].
  destruct (has_part _ _ _ Hh) as [E2 _]; [lia|]. apply (gives_bind _ _ _ _ (gives_lift _ _ E2)). change SIZEOF_LENGTH with 4. unfold u32.
  rewrite Z.mod_small by lia. rewrite part_length. rewrite (Z.add_comm _ 4). apply gives_ret.
Qed.

Lemma part_in_parts l ls : l ∈ ls -> zlen l <= zlen (parts ls).
Proof.
  induction ls as [|m ls IH]; intros Hl; [by apply elem_of_nil in Hl|]. rewrite parts_cons_length. apply elem_of_cons in Hl as [->|Hl]; [lia|]. specialize (IH Hl). lia.
Qed.

Lemma bundle_gives malloc ts ps : (forall n sz, malloc n sz = true) -> schema_src ts ps -> gives (create_from_bundle malloc (bundle ts ps)) (ts, ps).
Proof.
  intros Hm [H1 H2 H3 H4 H5]. set (s := bundle ts ps) in *. set (tm := parts (map type_message ts)). set (pm := parts (map protocol_message ps)).
  assert (exists rs ls, s = packed (0 :: rs) (tm :: ls) /\ (ps = [] /\ rs = [] /\ ls = [] \/ ps <> [] /\ rs = [0] /\ ls = [pm])) as (rs & ls & Es & Hc).
  { subst s. rewrite bundle_packed by done. destruct ps as [|p ps]; [exists [], []; split; [done|by left]|exists [0], [pm]; split; [done|by right]]. }
  assert (has s 0 (packed (0 :: rs) (tm :: ls))) as Hh by (exists [], []; rewrite app_nil_r; by split).
  rewrite Es, packed_length, parts_cons_length in H5.
  destruct (struct_field_ok _ _ _ _ Hh) as (E2 & Hw & Hd); [done| | | |rewrite parts_cons_length; lia|].
  { destruct Hc as [(_ & -> & _)|(_ & -> & _)]; done. }
  { destruct Hc as [(_ & -> & _)|(_ & -> & _)]; by repeat (apply Forall_cons_2; [done|]). }
  { destruct Hc as [(_ & -> & ->)|(_ & -> & ->)]; done. }
  rewrite <- Es in E2. unfold create_from_bundle. apply (gives_bind _ _ _ _ (gives_lift _ _ E2)). change SIZEOF_HEADER with 2. change SIZEOF_FIELD with 2. change SIZEOF_LENGTH with 4.
  change (0 + 2) with 2 in *. rewrite (proj2 (Z.ltb_ge _ _)) by lia. rewrite !Z.gtb_ltb, (proj2 (Z.ltb_ge 2 _)), (proj2 (Z.ltb_lt 0 _)) by (destruct Hc as [(_ & -> & _)|(_ & -> & _)]; cbn; lia). cbn [orb].
  apply has_parts in Hd as [Hd Hd2]. destruct (has_part _ _ _ Hd) as [_ Htm]; [lia|]. pose proof (part_length tm) as Epl.
  eapply gives_bind; [apply (bundle_part_gives _ _ _ _ rs (map type_message ts)); [done|exact Hw|exact Hd|fold tm; lia]|]. fold tm. cbn iota beta. rewrite length_map.
  assert (gives (import_all (import_type malloc s (zlen ts)) (length ts) (2 + zlen (0 :: rs) * 2 + 4)) ts) as Gt.
  { apply (import_all_gives s _ type_message); [|done]. intros t o Ht Hpt. apply import_type_gives; [done|lia|done|by apply (proj1 (Forall_forall _ _) H1)|].
    pose proof (part_in_parts (type_message t) (map type_message ts)) as Hle. rewrite list_elem_of_In in Hle. specialize (Hle (in_map type_message ts t (proj1 (list_elem_of_In _ _) Ht))). fold tm in Hle. lia. }
  destruct Hc as [(-> & -> & ->)|(Hps & -> & ->)].
  - cbn [Z.ltb Z.compare Pos.compare Pos.compare_cont length Z.of_nat Pos.of_succ_nat]. eapply gives_bind; [apply gives_ret|]. cbn iota beta. rewrite Nat2Z.id.
    eapply gives_bind; [exact Gt|]. cbn [Z.to_nat import_all]. eapply gives_bind; [apply gives_ret|]. apply gives_ret.
  - apply has_parts in Hd2 as [Hd2 _]. rewrite parts_cons_length in H5. destruct (has_part _ _ _ Hd2) as [_ Hpm]; [lia|].
    destruct (has_words _ _ _ _ Hw) as [_ Hw2]; [done|]. rewrite (proj2 (Z.ltb_lt _ _)) by (cbn; lia).
    eapply gives_bind; [apply (bundle_part_gives _ _ _ _ [] (map protocol_message ps)); [done|exact Hw2|exact Hd2|fold pm; lia]|]. cbn iota beta. rewrite length_map, !Nat2Z.id.
    eapply gives_bind; [exact Gt|]. eapply gives_bind; [|apply gives_ret].
    apply (import_all_gives s _ protocol_message); [|exact Hpm]. intros p o Hp Hpp. apply import_protocol_gives; [done|lia|done|by apply (proj1 (Forall_forall _ _) H2)|].
    pose proof (part_in_parts (protocol_message p) (map protocol_message ps)) as Hle. rewrite list_elem_of_In in Hle. specialize (Hle (in_map protocol_message ps p (proj1 (list_elem_of_In _ _) Hp))). fold pm in Hle. lia.
Qed.

(** ** The properties *)

(** C34: Memory from the pool of a schema. Whether [malloc] gives memory or not,
    the pieces of memory that are given before one is refused, of sizes up to
    2^64 - 16, are each inside of their chunk, aligned to 8 bytes, and apart
    from all others; [pool_release] frees each chunk once; nothing is refused
    while [malloc] gives memory. After a refusal memory may be given twice
    ([pool_overlap]), and a larger size wraps ([pool_wraps]). *)
Theorem pool_bounds malloc szs p rs (l := given szs rs) :
  Forall (fun sz => 0 <= sz <= 2 ^ 64 - 16) szs -> pool_run malloc pool_init szs = (p, rs) ->
  Forall (inside p) l /\
  (forall (i j : nat) a b, l !! i = Some a -> l !! j = Some b -> i <> j -> apart a b) /\
  pool_release p ≡ₚ seq 0 (length (header p)) /\
  ((forall n sz, malloc n sz = true) -> length l = length szs).
Proof.
  intros Hs E. destruct (pool_run_ok malloc szs Hs pool_init [] p rs pool_init_ok E) as (p1 & [H1 H2 _ _] & Hi).
  split_and!; [|done| |].
  - eapply Forall_impl; [exact H1|exact Hi].
  - unfold pool_release. symmetry. apply Permutation_rev.
  - intros Hm. by eapply pool_run_total.
Qed.

(** The third chunk is refused; the piece after it is wrong. *)
Lemma pool_bounds_witness : exists p l,
  pool_run (fun n _ => (n <? 2)%nat) pool_init [48; 448; 2000; 501; 8; 700] =
    (p, [Some (0%nat, 0); Some (0%nat, 48); Some (1%nat, 0); Some (0%nat, 496); None; Some (1%nat, 8)]) /\
  l = [((0%nat, 0), 48); ((0%nat, 48), 448); ((1%nat, 0), 2000); ((0%nat, 496), 501)] /\ Forall (inside p) l.
Proof.
  set (malloc := fun (n : nat) (_ : Z) => (n <? 2)%nat).
  destruct (pool_run malloc pool_init [48; 448; 2000; 501; 8; 700]) as [p rs] eqn:E.
  destruct (pool_bounds malloc [48; 448; 2000; 501; 8; 700] p rs) as (H & _); [repeat constructor; done|exact E|].
  exists p, (given [48; 448; 2000; 501; 8; 700] rs). vm_compute in E. injection E as <- <-. split; [reflexivity|].
  split; [reflexivity|exact H].
Defined.

(** C33: A schema that [sproto_create] accepts is well-formed, whatever the
    bytes are: the tags of a type ascend and fit a word, [base] and [maxn] are
    what [findtag] and [sproto_encode] rely on, the kinds of fields are known, a
    struct has a type, and each type that a field or a protocol refers to is one
    of the schema. *)
Theorem create_types malloc s sp : bytes s -> sproto_create malloc s = Some (inl sp) ->
  Forall (fun t => type_wf t /\ Forall (field_ok (zlen (types sp))) (f t)) (types sp) /\ Forall (protocol_ok (zlen (types sp))) (proto sp).
Proof.
  intros Hs. unfold sproto_create. destruct (pool_alloc malloc pool_init 48) as [p [r|]]; [|done].
  intros ([[[ts ps]|] q] & E & [= <-])%bind_Some. apply (bundle_reads malloc s Hs p (ts, ps) q E).
Qed.

Definition demo_types : list sproto_type := [person; SType "empty" 0 0 []; SType "gaps" (-1) 4 [Field 3 1 "flag" None (-1); Field 9 0x80 "n" None 7]].
Definition demo_protocols : list protocol := [Protocol "foobar" 1 (Some 0%nat) None; Protocol "foo" 2 None (Some 1%nat); Protocol "bar" 3 None None].

Lemma create_types_witness : exists sp, sproto_create (fun _ _ => true) (bundle demo_types demo_protocols) = Some (inl sp) /\
  Forall (fun t => type_wf t /\ Forall (field_ok (zlen (types sp))) (f t)) (types sp) /\ Forall (protocol_ok (zlen (types sp))) (proto sp).
Proof.
  eexists. assert (forall sp, sproto_create (fun _ _ => true) (bundle demo_types demo_protocols) = Some (inl sp) ->
    Forall (fun t => type_wf t /\ Forall (field_ok (zlen (types sp))) (f t)) (types sp) /\ Forall (protocol_ok (zlen (types sp))) (proto sp)) as H.
  { intros sp. apply (create_types (fun _ _ => true) (bundle demo_types demo_protocols) sp). apply (bool_decide_unpack _). vm_compute. reflexivity. }
  split; [vm_compute; reflexivity|]. apply H. vm_compute. reflexivity.
Defined.

(** C32: Reading the bundle of a schema with at least one type (the empty one is
    refused, see [empty_schema]). If types, fields and protocols fit the format, the bytes that sprotoparser.lua writes for them, as [sproto_encode]
    does, are read by [sproto_create] as exactly these types and protocols;
    [sproto_type] finds each type by its name and [query_proto] each protocol by
    its tag. *)
Theorem create_bundle malloc ts ps : (forall n sz, malloc n sz = true) -> schema_src ts ps ->
  exists p, let sp := SProto p ts ps in
    sproto_create malloc (bundle ts ps) = Some (inl sp) /\
    (NoDup (map tname ts) -> forall k t, ts !! k = Some t -> sproto_type_named sp (tname t) = Some k) /\
    ((forall (i j : nat) x y, ps !! i = Some x -> ps !! j = Some y -> (i < j)%nat -> ptag x < ptag y) ->
       forall x, x ∈ ps -> query_proto sp (ptag x) = Some (Some x)).
Proof.
  intros Hm Hs. destruct (pool_alloc_total malloc pool_init 48 Hm) as (p & c & o & E).
  pose proof (pool_alloc_ok malloc pool_init [] 48 p c o pool_init_ok ltac:(lia) E) as Hp.
  destruct (bundle_gives malloc ts ps Hm Hs p _ Hp) as (q & l & E2 & _). exists q. split; [|split].
  - unfold sproto_create. rewrite E, E2. done.
  - intros Hnd k t Hk. unfold sproto_type_named. cbn [types]. enough (list_find (fun t0 => tname t = tname t0) ts = Some (k, t)) as -> by done.
    apply list_find_Some. split_and!; [done|done|]. intros j y Hj Hjk Ey. assert (j = k); [|lia].
    apply (NoDup_lookup (map tname ts) _ _ (tname t)); [done|by rewrite list_lookup_fmap, Hj; cbn; f_equal|by rewrite list_lookup_fmap, Hk].
  - intros Hasc x [k Hk]%list_elem_of_lookup. pose proof (lookup_lt_Some _ _ _ Hk). unfold query_proto. cbn [proto]. apply (bisect_ok _ _ k); [done|done|lia..].
Qed.

Ltac is_plain := split; [apply (bool_decide_unpack _); vm_compute; reflexivity|vm_compute; reflexivity].
Ltac is_field b := split; [cbn; lia|exists b; vm_compute; split_and!; try congruence; by (left + right)|vm_compute; eauto|cbn; lia|is_plain].

Lemma demo_src : schema_src demo_types demo_protocols.
Proof.
  split; [| |done|done|vm_compute; reflexivity].
  - repeat (apply Forall_cons_2; [split; [is_plain| |vm_compute; tauto|reflexivity|reflexivity]|]); [..|apply Forall_nil_2].
    + repeat (apply Forall_cons_2); [is_field 2|is_field 0|is_field 1|is_field 3|apply Forall_nil_2].
    + apply Forall_nil_2.
    + repeat (apply Forall_cons_2); [is_field 1|is_field 0|apply Forall_nil_2].
  - repeat (apply Forall_cons_2; [split; [is_plain|cbn; lia| |]; cbn; intros k Hk; inversion Hk; cbn; lia|]). apply Forall_nil_2.
Qed.

Lemma create_bundle_witness : exists p, let sp := SProto p demo_types demo_protocols in
  sproto_create (fun _ _ => true) (bundle demo_types demo_protocols) = Some (inl sp) /\
  (NoDup (map tname demo_types) -> forall k t, demo_types !! k = Some t -> sproto_type_named sp (tname t) = Some k) /\
  ((forall (i j : nat) x y, demo_protocols !! i = Some x -> demo_protocols !! j = Some y -> (i < j)%nat -> ptag x < ptag y) ->
     forall x, x ∈ demo_protocols -> query_proto sp (ptag x) = Some (Some x)).
Proof. apply (create_bundle (fun _ _ => true) demo_types demo_protocols); [done|exact demo_src]. Defined.

(** A schema without types, which sprotoparser.lua writes as two bytes, is
    refused: the test of the size asks for four. *)
Example empty_schema : exists l, sproto_create (fun _ _ => true) [0; 0] = Some (inr l).
Proof. eexists. vm_compute. reflexivity. Qed.

(** A list of no fields: the first field is read all the same. *)
Example no_fields : sproto_create (fun _ _ => true)
  (packed [0] [parts [packed [0; 0] [ascii "t"; []]]]) = None.
Proof. vm_compute. reflexivity. Qed.

(** A size close to [2^32] passes the test of [struct_field]. *)
Example size_wraps : struct_field [1; 0; 0; 0; 0xfc; 0xff; 0xff; 0xff] 0 8 = Some 1.
Proof. vm_compute. reflexivity. Qed.
