(* ===== verification/SprotoLua.v ===== *)
(** * The Lua functions of sproto (src/lualib/sproto/lsproto.c)

    The functions work on a Lua stack with a limit ([luaL_checkstack]): a push
    beyond it is undefined behaviour, [None].  Tables are objects of a heap, so
    a table that contains itself is a value like any other.  [encode] and
    [decode] are the callbacks of [Sproto]: their data is the record of the C
    code, which names slots of the stack, and the Lua state.

    Metatables are left out.  A Lua error ends the call; what the state is
    after it does not matter here. *)

From S2P Require Import Prelude Buffer SprotoPack Sproto SprotoSchema.

#[local] Open Scope eff_scope.

(** ** Lua values *)

(** A float is an opaque number.  [LProto] and [LType] are light userdata: a
    [struct sproto] and its [i]-th type; [LMem] points to bytes; [LFun] is
    any other value. *)
Inductive lval :=
  | LNil | LBool (b : bool) | LInt (z : Z) | LFlt (z : Z) | LStr (s : list Z) | LTab (t : nat)
  | LProto (p : nat) | LType (p i : nat) | LMem (l : list Z) | LFun (z : Z).

#[export] Instance lval_eq_dec : EqDecision lval.
Proof. solve_decision. Defined.

(** What Lua does and this code does not define: a number as a string or as an
    integer, the contents of new memory, whether [malloc] gives memory. *)
Class Lua := {
  lua_tostr : lval -> list Z;
  lua_toint : lval -> option Z;
  junk : Z -> list Z;
  malloc : nat -> Z -> bool;
  junk_length n : 0 <= n -> zlen (junk n) = n
}.

(** A table, in the order of [next]. *)
Definition table : Type := list (lval * lval).

Definition tfind (tb : table) (k : lval) : option (nat * (lval * lval)) := list_find (fun p => p.1 = k) tb.
Definition tget (tb : table) (k : lval) : lval := match tfind tb k with Some (_, (_, v)) => v | None => LNil end.
Definition tset (tb : table) (k v : lval) : table :=
  match tfind tb k, v with
  | Some (i, _), LNil => delete i tb
  | Some (i, _), _ => <[i := (k, v)]> tb
  | None, LNil => tb
  | None, _ => tb ++ [(k, v)]
  end.

(** The entry after a key; no entry after the last; no result for a key that
    is not there. *)
Definition tnext (tb : table) (k : lval) : option (option (lval * lval)) :=
  match k with
  | LNil => Some (tb !! 0%nat)
  | _ => match tfind tb k with Some (i, _) => Some (tb !! S i) | None => None end
  end.

Definition name_key (n : string) : lval := LStr (ascii n).

(** ** The Lua state *)

(** [room] is the limit of the stack; [ubuf] the userdata among the upvalues of
    [encode]; [protos] the objects made by [sproto_create], [None] once
    they are released. *)
Record lstate := LState {
  stk : list lval; room : Z; heap : list table; ubuf : list Z; protos : list (option sproto); G_sproto : list (option nat)
}.

Definition set_stk (s : lstate) (l : list lval) : lstate := LState l (room s) (heap s) (ubuf s) (protos s) (G_sproto s).
Definition set_heap (s : lstate) (h : list table) : lstate := LState (stk s) (room s) h (ubuf s) (protos s) (G_sproto s).
Definition set_ubuf (s : lstate) (b : list Z) : lstate := LState (stk s) (room s) (heap s) b (protos s) (G_sproto s).
Definition set_protos (s : lstate) (l : list (option sproto)) : lstate := LState (stk s) (room s) (heap s) (ubuf s) l (G_sproto s).
Definition set_G (s : lstate) (l : list (option nat)) : lstate := LState (stk s) (room s) (heap s) (ubuf s) (protos s) l.

Abbreviation L := (seff lstate).

Definition serr {S A} : seff S A := fun _ => Some LErr.
Definition lget {A} (g : lstate -> A) : L A := fun s => eret (g s, s).
Definition lmod (g : lstate -> lstate) : L unit := fun s => eret (tt, g s).

(** A change of the stack, within its limit. *)
Definition restack (g : list lval -> option (list lval)) : L unit := fun s =>
  match g (stk s) with
  | Some l => if zlen l <=? room s then eret (tt, set_stk s l) else None
  | None => None
  end.

(** The position of an index of the stack. *)
Definition absindex (s : list lval) (i : Z) : Z := if i >? 0 then i - 1 else if i <? 0 then zlen s + i else -1.

Definition lua_gettop : L Z := lget (fun s => zlen (stk s)).
Definition lua_checkstack (n : Z) : L unit :=
  lmod (fun s => LState (stk s) (Z.max (room s) (zlen (stk s) + n)) (heap s) (ubuf s) (protos s) (G_sproto s)).
Definition lua_at (i : Z) : L lval := fun s => slift (aget (stk s) (absindex (stk s) i)) s.
(** An argument; absent is nil. *)
Definition lua_arg (i : Z) : L lval := lget (fun s => default LNil (aget (stk s) (i - 1))).

Definition lua_push (v : lval) : L unit := restack (fun s => Some (s ++ [v])).
Definition lua_settop (n : Z) : L unit :=
  restack (fun s => if n <? 0 then None else Some (take (Z.to_nat n) s ++ replicate (Z.to_nat n - length s) LNil)).
Definition lua_pop (n : Z) : L unit := let+ top := lua_gettop in lua_settop (top - n).
Definition lua_pushvalue (i : Z) : L unit := let+ v := lua_at i in lua_push v.
Definition lua_replace (i : Z) : L unit := let+ v := lua_at (-1) in
  restack (fun s => s ← aset s (absindex s i) v; Some (take (length s - 1) s)).
(** [lua_insert(L, -2)]: the two values on top change places. *)
Definition lua_swap : L unit :=
  restack (fun s => match drop (length s - 2) s with [a; b] => Some (take (length s - 2) s ++ [b; a]) | _ => None end).

(** The table in a slot: the code has tested that it is one. *)
Definition lua_table (i : Z) : L nat := let+ v := lua_at i in match v with LTab t => sret t | _ => fun _ => None end.
Definition table_get (t : nat) (k : lval) : L lval := fun s => slift (tb ← heap s !! t; Some (tget tb k)) s.
Definition table_set (t : nat) (k v : lval) : L unit := fun s =>
  match heap s !! t with Some tb => eret (tt, set_heap s (<[t := tset tb k v]> (heap s))) | None => None end.

Definition lua_getfield (i : Z) (n : string) : L unit :=
  let+ t := lua_table i in let+ v := table_get t (name_key n) in lua_push v.
Definition lua_geti (i n : Z) : L unit := let+ t := lua_table i in let+ v := table_get t (LInt n) in lua_push v.

(** Whether there was an entry. *)
Definition lua_next (i : Z) : L bool :=
  let+ t := lua_table i in
  let+ k := lua_at (-1) in
  let+ _ := lua_pop 1 in
  let+ tb := (fun s => slift (heap s !! t) s) in
  match tnext tb k with
  | None => serr
  | Some None => sret false
  | Some (Some (k, v)) => let+ _ := lua_push k in let+ _ := lua_push v in sret true
  end.

Definition lua_newtable : L unit := fun s => lua_push (LTab (length (heap s))) (set_heap s (heap s ++ [[]])).

(** The value on top goes into a table. *)
Definition set_top (i : Z) (k : lval) : L unit :=
  let+ t := lua_table i in let+ v := lua_at (-1) in let+ _ := lua_pop 1 in table_set t k v.
Definition lua_setfield (i : Z) (n : string) : L unit := set_top i (name_key n).
Definition lua_seti (i n : Z) : L unit := set_top i (LInt n).
(** The key is below the value. *)
Definition lua_settable (i : Z) : L unit :=
  let+ t := lua_table i in
  let+ k := lua_at (-2) in
  let+ v := lua_at (-1) in
  let+ _ := lua_pop 2 in
  match k with LNil => serr | _ => table_set t k v end.

Definition lua_istable (v : lval) : bool := match v with LTab _ => true | _ => false end.
(** A number is also a string. *)
Definition lua_isstring (v : lval) : bool := match v with LStr _ | LInt _ | LFlt _ => true | _ => false end.

(** A callback with a record that is gone after it. *)
Definition with_ud {T A} (self : T) (m : seff (T * lstate) A) : L (A * T) := fun s =>
  match m (self, s) with None => None | Some LErr => Some LErr | Some (LOk (a, (self, s))) => eret (a, self, s) end.

(** The data of a callback: a record and the Lua state. *)
Section Data.
Context {S : Type}.
Definition on_lua {A} (m : L A) : seff (S * lstate) A := fun '(self, s) =>
  match m s with None => None | Some LErr => Some LErr | Some (LOk (a, s)) => eret (a, (self, s)) end.
Definition get_self : seff (S * lstate) S := fun u => eret (u.1, u).
Definition put_self (self : S) : seff (S * lstate) unit := fun u => eret (tt, (self, u.2)).
End Data.

(** ** Encoding *)

Definition ENCODE_DEEPLEVEL : Z := 64.

(** The tag of a field stands for the address of its name: it is unique in a type. *)
Record encode_ud := EncodeUd { array_tag : option Z; array_index : Z; tbl_index : Z; deep : Z; iter_index : Z }.
Definition set_array (self : encode_ud) (t : option Z) (i : Z) : encode_ud :=
  EncodeUd t i (tbl_index self) (deep self) (iter_index self).

Section Callbacks.
Context `{Lua} (tys : list sproto_type).

(** [args->subtype]. *)
Definition subtype_of (a : sproto_arg) : option sproto_type := i ← subtype a; tys !! i.

(** The table of an array, when its first element is asked for; false: there is
    none. *)
Definition encode_new_array (args : sproto_arg) : seff (encode_ud * lstate) bool :=
  let+ self := get_self in
  let+ _ := put_self (set_array self (Some (tagid args)) (array_index self)) in
  let+ _ := on_lua (lua_getfield (tbl_index self) (tagname args)) in
  let+ v := on_lua (lua_at (-1)) in
  match v with
  | LNil =>
      let+ _ := (if negb (array_index self =? 0) then on_lua (lua_replace (array_index self)) else sret tt) in
      let+ _ := put_self (set_array self (Some (tagid args)) 0) in
      sret false
  | LTab _ =>
      let+ _ := (if negb (array_index self =? 0) then on_lua (lua_replace (array_index self))
                 else let+ top := on_lua lua_gettop in put_self (set_array self (Some (tagid args)) top)) in
      sret true
  | _ => serr
  end.

(** The element of an array comes on top of the stack. *)
Definition encode_element (args : sproto_arg) : seff (encode_ud * lstate) bool :=
  let+ self := get_self in
  let+ found := (if bool_decide (array_tag self = Some (tagid args)) then sret true else encode_new_array args) in
  if negb found then sret false
  else
    let+ self := get_self in
    if mainindex args >=? 0 then
      let+ _ := on_lua (lua_pushvalue (iter_index self)) in
      let+ more := on_lua (lua_next (array_index self)) in
      if negb more then
        let+ _ := on_lua (lua_push LNil) in
        let+ _ := on_lua (lua_replace (iter_index self)) in
        sret false
      else
        let+ _ := on_lua lua_swap in
        let+ _ := on_lua (lua_replace (iter_index self)) in
        sret true
    else let+ _ := on_lua (lua_geti (array_index self) (index args)) in sret true.

Definition encode_integer_value (v : lval) : seff (encode_ud * lstate) (Z * list Z) :=
  match v with
  | LInt v =>
      let+ _ := on_lua (lua_pop 1) in
      let vh := Z.shiftr v 31 in
      if (vh =? 0) || (vh =? -1) then sret (4, put_le 4 v) else sret (8, put_le 8 v)
  | _ => serr
  end.

Definition encode_boolean_value (v : lval) : seff (encode_ud * lstate) (Z * list Z) :=
  match v with LBool b => let+ _ := on_lua (lua_pop 1) in sret (4, put_le 4 (Z.b2z b)) | _ => serr end.

Definition encode_string_value (args : sproto_arg) (v : lval) : seff (encode_ud * lstate) (Z * list Z) :=
  if negb (lua_isstring v) then serr
  else
    let str := match v with LStr l => l | _ => lua_tostr v end in
    let sz := zlen str in
    if sz >? u64 (length_ args) then sret (-1, [])
    else let+ _ := on_lua (lua_pop 1) in sret (sz + 1, str).

(** A table in slot [top]; [cb] is [encode] itself. *)
Definition encode_struct_value (cb : sproto_arg -> seff (encode_ud * lstate) (Z * list Z)) (args : sproto_arg) (v : lval)
  : seff (encode_ud * lstate) (Z * list Z) :=
  let+ self := get_self in
  let+ top := on_lua lua_gettop in
  if negb (lua_istable v) then serr
  else
    let+ _ := on_lua (lua_push LNil) in
    let+ ty := slift (subtype_of args) in
    let+ _ := slift (if length_ args =? zlen (value args) then Some tt else None) in
    let+ ' (buf, r, _) := on_lua (with_ud (EncodeUd None 0 top (deep self + 1) (top + 1)) (sproto_encode cb ty (value args))) in
    let+ _ := on_lua (lua_settop (top - 1)) in
    sret (r, buf).

(** The [switch]; the value is on top of the stack. *)
Definition encode_value (cb : sproto_arg -> seff (encode_ud * lstate) (Z * list Z)) (args : sproto_arg) : seff (encode_ud * lstate) (Z * list Z) :=
  let+ v := on_lua (lua_at (-1)) in
  match v with
  | LNil => let+ _ := on_lua (lua_pop 1) in sret (0, [])
  | _ =>
      if atype args =? SPROTO_TINTEGER then encode_integer_value v
      else if atype args =? SPROTO_TBOOLEAN then encode_boolean_value v
      else if atype args =? SPROTO_TSTRING then encode_string_value args v
      else if atype args =? SPROTO_TSTRUCT then encode_struct_value cb args v
      else serr
  end.

(** [encode]: what it returns and what it writes at [args->value].  [fuel] is
    more than the levels that are left. *)
Fixpoint encode (fuel : nat) (args : sproto_arg) : seff (encode_ud * lstate) (Z * list Z) :=
  match fuel with
  | O => fun _ => None
  | S fuel =>
      let+ self := get_self in
      if deep self >=? ENCODE_DEEPLEVEL then serr
      else
        let+ found := (if index args >? 0 then encode_element args
                       else let+ _ := on_lua (lua_getfield (tbl_index self) (tagname args)) in sret true) in
        if found then encode_value (encode fuel) args else sret (0, [])
  end.

(** ** Decoding *)

Record decode_ud := DecodeUd {
  d_array_tag : option Z; d_array_index : Z; result_index : Z; d_deep : Z; mainindex_tag : Z; key_index : Z
}.

Definition decode_new_array (args : sproto_arg) : seff (decode_ud * lstate) unit :=
  let+ self := get_self in
  if bool_decide (d_array_tag self = Some (tagid args)) then sret tt
  else
    let set i := put_self (DecodeUd (Some (tagid args)) i (result_index self) (d_deep self) (mainindex_tag self) (key_index self)) in
    let+ _ := on_lua lua_newtable in
    let+ _ := on_lua (lua_pushvalue (-1)) in
    let+ _ := on_lua (lua_setfield (result_index self) (tagname args)) in
    if negb (d_array_index self =? 0) then
      let+ _ := on_lua (lua_replace (d_array_index self)) in set (d_array_index self)
    else let+ top := on_lua lua_gettop in set top.

(** What the end of [decode] does with the value on top. *)
Definition decode_store (args : sproto_arg) : seff (decode_ud * lstate) Z :=
  let+ self := get_self in
  if index args >? 0 then
    let+ _ := on_lua (lua_seti (d_array_index self) (index args)) in sret 0
  else
    let+ _ := (if mainindex_tag self =? tagid args then
                 let+ _ := on_lua (lua_pushvalue (-1)) in on_lua (lua_replace (key_index self))
               else sret tt) in
    let+ _ := on_lua (lua_setfield (result_index self) (tagname args)) in sret 0.

(** A struct that goes into a table under its main index. *)
Definition decode_keyed (cb : sproto_arg -> seff (decode_ud * lstate) Z) (ty : sproto_type) (args : sproto_arg) : seff (decode_ud * lstate) Z :=
  let+ self := get_self in
  let+ ri := on_lua lua_gettop in
  let+ _ := on_lua (lua_push LNil) in
  let+ ki := on_lua lua_gettop in
  let+ ' (r, sub) := on_lua (with_ud (DecodeUd None 0 ri (d_deep self + 1) (mainindex args) ki) (sproto_decode cb ty (value args))) in
  if (r <? 0) || negb (r =? length_ args) then sret r
  else
    let+ _ := on_lua (lua_pushvalue (key_index sub)) in
    let+ k := on_lua (lua_at (-1)) in
    match k with
    | LNil => serr
    | _ =>
        let+ _ := on_lua (lua_pushvalue (result_index sub)) in
        let+ _ := on_lua (lua_settable (d_array_index self)) in
        let+ _ := on_lua (lua_settop (result_index sub - 1)) in
        sret 0
    end.

Definition decode_struct (cb : sproto_arg -> seff (decode_ud * lstate) Z) (args : sproto_arg) : seff (decode_ud * lstate) Z :=
  let+ self := get_self in
  let+ _ := on_lua lua_newtable in
  let+ ty := slift (subtype_of args) in
  if mainindex args >=? 0 then decode_keyed cb ty args
  else
    let+ ri := on_lua lua_gettop in
    let+ ' (r, _) := on_lua (with_ud (DecodeUd None 0 ri (d_deep self + 1) (-1) 0) (sproto_decode cb ty (value args))) in
    if (r <? 0) || negb (r =? length_ args) then sret r
    else let+ _ := on_lua (lua_settop ri) in decode_store args.

(** The [switch] of [decode], and what follows it. *)
Definition decode_value (cb : sproto_arg -> seff (decode_ud * lstate) Z) (args : sproto_arg) : seff (decode_ud * lstate) Z :=
  if atype args =? SPROTO_TINTEGER then
    let+ v := slift (union_value (value args) 8) in
    let+ _ := on_lua (lua_push (LInt (i64 v))) in decode_store args
  else if atype args =? SPROTO_TBOOLEAN then
    let+ v := slift (union_value (value args) 8) in
    let+ _ := on_lua (lua_push (LBool (negb (i32 v =? 0)))) in decode_store args
  else if atype args =? SPROTO_TSTRING then
    let+ _ := on_lua (lua_push (LStr (value args))) in decode_store args
  else if atype args =? SPROTO_TSTRUCT then decode_struct cb args
  else serr.

Fixpoint decode (fuel : nat) (args : sproto_arg) : seff (decode_ud * lstate) Z :=
  match fuel with
  | O => fun _ => None
  | S fuel =>
      let+ self := get_self in
      if d_deep self >=? ENCODE_DEEPLEVEL then serr
      else
        let+ _ := (if index args >? 0 then decode_new_array args else sret tt) in
        decode_value (decode fuel) args
  end.

End Callbacks.

(** ** The functions called from Lua

    They return the number of their results, which are on top of the stack. *)

Section Functions.
Context `{Lua}.

(** The first argument: no type when it is not userdata. *)
Definition type_arg : L (option (list sproto_type * sproto_type)) :=
  let+ v := lua_arg 1 in
  match v with
  | LType p i => fun s => slift (sp ← protos s !! p; sp ← sp; ty ← types sp !! i; Some (Some (types sp, ty))) s
  | LProto _ | LMem _ => fun _ => None
  | _ => sret None
  end.

(** The object at a pointer; none for [NULL]. *)
Definition proto_arg : L (option (nat * sproto)) :=
  let+ v := lua_arg 1 in
  match v with
  | LProto p => fun s => slift (sp ← protos s !! p; sp ← sp; Some (Some (p, sp))) s
  | LType _ _ | LMem _ => fun _ => None
  | _ => sret None
  end.

(** [expand_buffer] on the upvalues of [encode]. *)
Definition expand_ubuf (osz nsz : Z) : L unit := fun s =>
  let* b := expand_buffer junk osz nsz in eret (tt, set_ubuf s b).

(** The loop of [lencode]; the table is in slot 2. *)
Fixpoint lencode_loop (fuel : nat) (tys : list sproto_type) (ty : sproto_type) : L Z :=
  match fuel with
  | O => fun _ => None
  | S fuel =>
      let+ _ := lua_settop 2 in
      let+ _ := lua_push LNil in
      let+ buffer := lget ubuf in
      let+ ' (buf, r, _) := with_ud (EncodeUd None 0 2 0 3) (sproto_encode (encode tys 65) ty buffer) in
      let+ _ := lmod (fun s => set_ubuf s buf) in
      if r <? 0 then
        let+ _ := expand_ubuf (zlen buf) (zlen buf * 2) in lencode_loop fuel tys ty
      else let+ _ := lua_push (LStr (take (Z.to_nat r) buf)) in sret 1
  end.

Definition lencode : L Z :=
  let+ t := type_arg in
  match t with
  | None => serr
  | Some (tys, ty) =>
      let+ v := lua_arg 2 in
      if negb (lua_istable v) then serr
      else let+ _ := lua_checkstack (ENCODE_DEEPLEVEL * 2 + 8) in lencode_loop 26 tys ty
  end.

(** The bytes in a string, or at a pointer with their number behind it. *)
Definition getbuffer (i : Z) : L (list Z) :=
  let+ v := lua_arg i in
  match v with
  | LStr l => sret l
  | LMem l =>
      let+ n := lua_arg (i + 1) in
      match (match n with LInt n => Some n | n => lua_toint n end) with
      | None => serr
      | Some n => slift (if (0 <=? n) && (n <=? zlen l) then Some (take (Z.to_nat n) l) else None)
      end
  | _ => serr
  end.

Definition ldecode : L Z :=
  let+ t := type_arg in
  match t with
  | None => serr
  | Some (tys, ty) =>
      let+ buffer := getbuffer 2 in
      let+ v := lua_at (-1) in
      let+ _ := (if negb (lua_istable v) then lua_newtable else sret tt) in
      let+ _ := lua_checkstack (ENCODE_DEEPLEVEL * 3 + 8) in
      let+ top := lua_gettop in
      let+ ' (r, _) := with_ud (DecodeUd None 0 top 0 (-1) 0) (sproto_decode (decode tys 65) ty buffer) in
      if r <? 0 then serr
      else let+ _ := lua_settop top in let+ _ := lua_push (LInt r) in sret 2
  end.

(** [luaL_checklstring] *)
Definition check_string (i : Z) : L (list Z) :=
  let+ v := lua_arg i in
  if negb (lua_isstring v) then serr else sret (match v with LStr l => l | _ => lua_tostr v end).

Definition lnewproto : L Z :=
  let+ buffer := check_string 1 in
  let+ r := slift (sproto_create malloc buffer) in
  match r with
  | inr _ => sret 0
  | inl sp =>
      let+ p := lget (fun s => length (protos s)) in
      let+ _ := lmod (fun s => set_protos s (protos s ++ [Some sp])) in
      let+ _ := lua_push (LProto p) in sret 1
  end.

Definition ldeleteproto : L Z :=
  let+ sp := proto_arg in
  match sp with
  | None => serr
  | Some (p, _) => let+ _ := lmod (fun s => set_protos s (<[p := None]> (protos s))) in sret 0
  end.

Definition lquerytype : L Z :=
  let+ sp := proto_arg in
  match sp with
  | None => serr
  | Some (p, sp) =>
      let+ type_name := check_string 2 in
      match sproto_type_named sp (cstring type_name) with
      | Some i => let+ _ := lua_push (LType p i) in sret 1
      | None => serr
      end
  end.

Definition push_type (p : nat) (i : option nat) : L unit := lua_push (match i with None => LNil | Some i => LType p i end).

Definition lprotocol : L Z :=
  let+ sp := proto_arg in
  match sp with
  | None => serr
  | Some (p, sp) =>
      let+ v := lua_arg 2 in
      let+ tag :=
        match v with
        | LInt _ | LFlt _ =>
            let tag := i32 (match v with LInt z => z | v => default 0 (lua_toint v) end) in
            let+ name := slift (sproto_protoname sp tag) in
            match name with
            | None => sret None
            | Some name => let+ _ := lua_push (name_key name) in sret (Some tag)
            end
        | _ =>
            let+ tag := (match v with
                         | LStr name => sret (sproto_prototag sp (cstring name))
                         | _ => if bool_decide (proto sp = []) then sret (-1) else fun _ => None
                         end) in
            if tag <? 0 then sret None else let+ _ := lua_push (LInt tag) in sret (Some tag)
        end in
      match tag with
      | None => sret 0
      | Some tag =>
          let+ request := slift (sproto_protoquery sp tag SPROTO_REQUEST) in
          let+ _ := push_type p request in
          let+ response := slift (sproto_protoquery sp tag SPROTO_RESPONSE) in
          let+ _ := push_type p response in
          sret 3
      end
  end.

Definition MAX_GLOBALSPROTO : Z := 16.

(** [luaL_optinteger(L, i, 0)] *)
Definition opt_integer (i : Z) : L Z :=
  let+ v := lua_arg i in
  match v with
  | LNil => sret 0
  | LInt z => sret z
  | v => match lua_toint v with Some z => sret z | None => serr end
  end.

Definition lsaveproto : L Z :=
  let+ v := lua_arg 1 in
  let+ sp := (match v with LProto p => sret (Some p) | LType _ _ | LMem _ => fun _ => None | _ => sret None end) in
  let+ index := opt_integer 2 in
  let index := i32 index in
  if (index <? 0) || (index >=? MAX_GLOBALSPROTO) then serr
  else
    let+ g := lget G_sproto in
    let+ g := slift (aset g index sp) in
    let+ _ := lmod (fun s => set_G s g) in sret 0.

Definition lloadproto : L Z :=
  let+ index := opt_integer 1 in
  let index := i32 index in
  if (index <? 0) || (index >=? MAX_GLOBALSPROTO) then serr
  else
    let+ g := lget G_sproto in
    let+ sp := slift (aget g index) in
    match sp with None => serr | Some p => let+ _ := lua_push (LProto p) in sret 1 end.

(** ** Defaults *)

Definition encode_default (tys : list sproto_type) (args : sproto_arg) : L (Z * list Z) :=
  let+ _ := lua_push (name_key (tagname args)) in
  let+ _ :=
    (if index args >? 0 then lua_newtable
     else if atype args =? SPROTO_TINTEGER then lua_push (LInt 0)
     else if atype args =? SPROTO_TBOOLEAN then lua_push (LBool false)
     else if atype args =? SPROTO_TSTRING then lua_push (LStr [])
     else if atype args =? SPROTO_TSTRUCT then
       let+ _ := lua_newtable in
       let+ ty := slift (subtype_of tys args) in
       let+ _ := lua_push (name_key (tname ty)) in
       lua_setfield (-2) "__type"
     else sret tt) in
  let+ _ := lua_settable (-3) in
  sret (0, []).

(** The loop with larger buffers; the userdata is below the table. *)
Fixpoint ldefault_loop (fuel : nat) (tys : list sproto_type) (ty : sproto_type) (sz : Z) : L unit :=
  match fuel with
  | O => fun _ => None
  | S fuel =>
      let+ ' (_, ret) := sproto_encode (encode_default tys) ty (junk sz) in
      if ret >=? 0 then sret tt
      else
        let+ _ := lua_push (LMem (junk (sz * 2))) in
        let+ _ := lua_replace (-3) in
        ldefault_loop fuel tys ty (sz * 2)
  end.

Definition ldefault : L Z :=
  let+ t := type_arg in
  match t with
  | None => serr
  | Some (tys, ty) =>
      let+ _ := lua_newtable in
      let+ ' (_, ret) := sproto_encode (encode_default tys) ty (junk 64) in
      let+ _ := (if ret <? 0 then
                   let+ _ := lua_push (LMem (junk 128)) in
                   let+ _ := lua_swap in
                   ldefault_loop 32 tys ty 128
                 else sret tt) in
      sret 1
  end.

End Functions.
