(* ===== verification/SprotoLuaOk.v ===== *)
(** * The Lua functions of sproto: tables there and back

    Typed trees stand for the Lua values that a schema describes; [rep] says
    that a value on the heap is one.  The callback [encode] serves a tree
    ([SprotoOk.serves_all]) and [decode] takes its values
    ([SprotoOk.takes]), so what [lencode] writes, [ldecode] reads. *)

From S2P Require Import Prelude Buffer Sproto SprotoOk SprotoSchema SprotoLua.

#[local] Open Scope eff_scope.

(** ** Typed trees *)

(** [TObj i fs] is a table of the [i]-th type; [inr] is an array. *)
Inductive tree := TInt (z : Z) | TBool (b : bool) | TStr (s : list Z) | TObj (i : nat) (fs : list (option (tree + list tree))).

(** The space that a value needs in a message. *)
Definition size_of (e : elem) : Z := match e with EObj _ nd => nd | _ => 0 end.

Section Trees.
Context (tys : list sproto_type).

Definition fields_of (i : nat) : list field := match tys !! i with Some ty => f ty | None => [] end.
Definition header_of (i : nat) : Z := match tys !! i with Some ty => 2 + 2 * maxn ty | None => 0 end.

(** What [sproto_encode] is given for a tree. *)
Fixpoint elem_of (v : tree) : elem :=
  match v with
  | TInt z => EInt z
  | TBool b => EBool b
  | TStr s => EObj s (zlen s)
  | TObj i fs =>
      let fsv := zip (fields_of i) (map (fun o => match o with
                   | None => None
                   | Some (inl v) => Some (One (elem_of v))
                   | Some (inr vs) => Some (Many (map elem_of vs))
                   end) fs) in
      EObj (message fsv) (header_of i + needs fsv)
  end.

Definition val_of (o : option (tree + list tree)) : option val :=
  match o with None => None | Some (inl v) => Some (One (elem_of v)) | Some (inr vs) => Some (Many (map elem_of vs)) end.
Definition vals_of (i : nat) (fs : list (option (tree + list tree))) : list (field * option val) := zip (fields_of i) (map val_of fs).

(** The slots of the stack that [encode] needs above a table on it. *)
Fixpoint slots (v : tree) : Z :=
  match v with
  | TObj i fs =>
      2 + zlen (filter (fun x => is_array (type x)) (fields_of i)) +
      foldr (fun o m => match o with
               | None => m
               | Some (inl v) => Z.max (slots v) m
               | Some (inr vs) => foldr (fun v m => Z.max (slots v) m) m vs
               end) 2 fs
  | _ => 0
  end.

Definition scalar (v : tree) : option lval :=
  match v with TInt z => Some (LInt z) | TBool b => Some (LBool b) | TStr s => Some (LStr s) | TObj _ _ => None end.

(** The value of the field with a tag, if it can be a key. *)
Definition main_key (k : Z) (v : tree) : option lval :=
  match v with
  | TObj i fs =>
      match find (fun p => tag p.1 =? k) (zip (fields_of i) fs) with Some (_, Some (inl v)) => scalar v | _ => None end
  | _ => None
  end.

(** A tree of a type, of at most [n] levels of tables. *)
Fixpoint typed (n : nat) (t : Z) (sub : option nat) (v : tree) : Prop :=
  match v with
  | TInt z => t = SPROTO_TINTEGER /\ - 2 ^ 63 <= z < 2 ^ 63
  | TBool _ => t = SPROTO_TBOOLEAN
  | TStr _ => t = SPROTO_TSTRING
  | TObj i fs =>
      match n with
      | O => False
      | S n =>
          t = SPROTO_TSTRUCT /\ sub = Some i /\
          (exists ty, tys !! i = Some ty /\ type_wf ty /\ NoDup (map fname (f ty))) /\
          Forall2 (fun x o => (0 <= key x -> is_array (type x) = true /\ base_type (type x) = SPROTO_TSTRUCT) /\
            match o with
            | None => True
            | Some (inl v) => is_array (type x) = false /\ typed n (type x) (st x) v
            | Some (inr vs) => is_array (type x) = true /\ Forall (typed n (base_type (type x)) (st x)) vs /\
                (0 <= key x -> Forall (fun v => is_Some (main_key (key x) v)) vs /\ NoDup (map (main_key (key x)) vs))
            end) (fields_of i) fs
      end
  end.

(** The values of an array at a table: by position, or by their main keys. *)
Definition array_rep (R : tree -> lval -> Prop) (x : field) (vs : list tree) (ta : table) : Prop :=
  if key x >=? 0 then Forall2 (fun v p => R v p.2 /\ main_key (key x) v = Some p.1) vs ta
  else (forall (i : nat) v, vs !! i = Some v -> R v (tget ta (LInt (Z.of_nat i + 1)))) /\ tget ta (LInt (zlen vs + 1)) = LNil.

(** The value of a field; nothing is also an empty array. *)
Definition field_rep (R : tree -> lval -> Prop) (h : list table) (x : field) (o : option (tree + list tree)) (l : lval) : Prop :=
  match o with
  | None => l = LNil
  | Some (inl v) => R v l
  | Some (inr vs) => vs = [] /\ l = LNil \/ exists a ta, l = LTab a /\ h !! a = Some ta /\ array_rep R x vs ta
  end.

(** A Lua value is a tree, on a heap. *)
Fixpoint rep (n : nat) (h : list table) (v : tree) (l : lval) : Prop :=
  match v with
  | TInt z => l = LInt z
  | TBool b => l = LBool b
  | TStr s => l = LStr s
  | TObj i fs =>
      match n with
      | O => False
      | S n => exists t tb, l = LTab t /\ h !! t = Some tb /\
          Forall2 (fun x o => field_rep (rep n h) h x o (tget tb (name_key (fname x)))) (fields_of i) fs
      end
  end.

(** The slots of the arrays of a type. *)
Definition array_slots (i : nat) : Z := zlen (filter (fun x => is_array (type x)) (fields_of i)).

Lemma slots_list vs m : m <= foldr (fun v m => Z.max (slots v) m) m vs /\ forall v, v ∈ vs -> slots v <= foldr (fun v m => Z.max (slots v) m) m vs.
Proof.
  induction vs as [|w vs [IH1 IH2]]; cbn [foldr]; [split; [lia|by intros v ?%not_elem_of_nil]|]. split; [lia|].
  intros v [-> |Hv]%elem_of_cons; [lia|]. specialize (IH2 v Hv). lia.
Qed.

Lemma slots_obj i fs : 4 + array_slots i <= slots (TObj i fs) /\
  forall v, Some (inl v) ∈ fs \/ (exists vs, Some (inr vs) ∈ fs /\ v ∈ vs) -> 2 + array_slots i + slots v <= slots (TObj i fs).
Proof.
  cbn [slots]. fold (array_slots i). set (g := fun o m => _). enough (2 <= foldr g 2 fs /\
    forall v, Some (inl v) ∈ fs \/ (exists vs, Some (inr vs) ∈ fs /\ v ∈ vs) -> slots v <= foldr g 2 fs) as [H1 H2] by (split; [lia|intros v Hv; specialize (H2 v Hv); lia]).
  induction fs as [|o fs [IH1 IH2]]; cbn [foldr].
  - split; [lia|]. by intros v [?%not_elem_of_nil|(vs & ?%not_elem_of_nil & _)].
  - assert (foldr g 2 fs <= g o (foldr g 2 fs)) as Hg by (destruct o as [[w|vs]|]; subst g; cbv beta iota; [lia|apply slots_list|lia]).
    split; [lia|]. intros v [[E|Hv]%elem_of_cons|(vs & [E|Hvs]%elem_of_cons & Hv)].
    + subst o g. cbv beta iota. lia.
    + specialize (IH2 v (or_introl Hv)). lia.
    + subst o g. cbv beta iota. by apply slots_list.
    + specialize (IH2 v (or_intror (ex_intro _ vs (conj Hvs Hv)))). lia.
Qed.

Lemma elem_of_obj i fs : elem_of (TObj i fs) = EObj (message (vals_of i fs)) (header_of i + needs (vals_of i fs)).
Proof. reflexivity. Qed.

End Trees.

(** ** Steps on the stack *)

Lemma sbind_eq {S A B} (m : seff S A) (k : A -> seff S B) s a s' : m s = eret (a, s') -> sbind m k s = k a s'.
Proof. unfold sbind. by intros ->. Qed.

Lemma on_lua_eq {S A} (m : L A) (self : S) s a s' : m s = eret (a, s') -> on_lua m (self, s) = eret (a, (self, s')).
Proof. unfold on_lua. by intros ->. Qed.

(** Lengths of stacks. *)
Ltac slen := repeat (rewrite length_app in * || cbn [length] in * ); lia.

(** A step of a program, by an equation for it. *)
Ltac lstep tac := erewrite sbind_eq; [|tac]; cbv beta iota.

(** The case of the [switch] for a type. *)
Ltac pick :=
  cbn [atype arg_of]; rewrite ?Z.eqb_refl;
  change (SPROTO_TBOOLEAN =? SPROTO_TINTEGER) with false; change (SPROTO_TSTRING =? SPROTO_TINTEGER) with false;
  change (SPROTO_TSTRUCT =? SPROTO_TINTEGER) with false; change (SPROTO_TSTRING =? SPROTO_TBOOLEAN) with false;
  change (SPROTO_TSTRUCT =? SPROTO_TBOOLEAN) with false; change (SPROTO_TSTRUCT =? SPROTO_TSTRING) with false; cbv iota.

Section Stack.
Implicit Types (s : lstate) (l : list lval) (v : lval).

Lemma restack_eq g s l l' : g l = Some l' -> zlen l' <= room s -> restack g (set_stk s l) = eret (tt, set_stk s l').
Proof. intros Hg Hl. unfold restack. cbn [stk set_stk]. rewrite Hg. cbn [room set_stk]. by rewrite (proj2 (Z.leb_le _ _)). Qed.

Lemma push_eq s l v : zlen l + 1 <= room s -> lua_push v (set_stk s l) = eret (tt, set_stk s (l ++ [v])).
Proof. intros Hl. apply restack_eq; [done|]. rewrite length_app. cbn [length]. lia. Qed.

Lemma gettop_eq s l : lua_gettop (set_stk s l) = eret (zlen l, set_stk s l).
Proof. done. Qed.

Lemma at_eq s l i v : 0 < i -> aget l (i - 1) = Some v -> lua_at i (set_stk s l) = eret (v, set_stk s l).
Proof. intros Hi Hv. unfold lua_at, absindex. cbn [stk set_stk]. rewrite Z.gtb_ltb, (proj2 (Z.ltb_lt _ _)) by lia. by rewrite Hv. Qed.

Lemma top_eq s l v : lua_at (-1) (set_stk s (l ++ [v])) = eret (v, set_stk s (l ++ [v])).
Proof.
  unfold lua_at, absindex. cbn [stk set_stk]. change (-1 >? 0) with false. change (-1 <? 0) with true. cbv iota.
  rewrite length_app. cbn [length]. replace (Z.of_nat (length l + 1) + -1) with (zlen l) by lia. by rewrite aget_nat, list_lookup_middle.
Qed.

Lemma below_eq s l v w : lua_at (-2) (set_stk s (l ++ [v; w])) = eret (v, set_stk s (l ++ [v; w])).
Proof.
  unfold lua_at, absindex. cbn [stk set_stk]. change (-2 >? 0) with false. change (-2 <? 0) with true. cbv iota.
  rewrite length_app. cbn [length]. replace (Z.of_nat (length l + 2) + -2) with (zlen l) by lia. by rewrite aget_nat, list_lookup_middle.
Qed.

Lemma settop_eq s l l' : zlen l <= room s -> lua_settop (zlen l) (set_stk s (l ++ l')) = eret (tt, set_stk s l).
Proof.
  intros Hl. apply restack_eq; [|done]. rewrite (proj2 (Z.ltb_ge _ _)), Nat2Z.id, take_app_length, length_app by lia.
  replace (length l - (length l + length l'))%nat with 0%nat by lia. by rewrite app_nil_r.
Qed.

Lemma pop_eq s l l' n : n = zlen l' -> zlen l <= room s -> lua_pop n (set_stk s (l ++ l')) = eret (tt, set_stk s l).
Proof.
  intros -> Hl. unfold lua_pop. lstep ltac:(apply gettop_eq). rewrite length_app. replace (Z.of_nat (length l + length l') - zlen l') with (zlen l) by lia.
  by apply settop_eq.
Qed.

Lemma pushvalue_eq s l i v : 0 < i -> aget l (i - 1) = Some v -> zlen l + 1 <= room s ->
  lua_pushvalue i (set_stk s l) = eret (tt, set_stk s (l ++ [v])).
Proof. intros Hi Hv Hl. unfold lua_pushvalue. lstep ltac:(by apply at_eq). by apply push_eq. Qed.

Lemma replace_eq s l1 w l2 v i : i = zlen l1 + 1 -> zlen (l1 ++ w :: l2) <= room s ->
  lua_replace i (set_stk s (l1 ++ w :: l2 ++ [v])) = eret (tt, set_stk s (l1 ++ v :: l2)).
Proof.
  intros -> Hl. unfold lua_replace. change (l1 ++ w :: l2 ++ [v]) with (l1 ++ (w :: l2) ++ [v]). rewrite app_assoc. lstep ltac:(apply top_eq).
  apply restack_eq; [|by rewrite !length_app in *; cbn [length] in *].
  unfold absindex. rewrite Z.gtb_ltb, (proj2 (Z.ltb_lt _ _)) by lia. replace (zlen l1 + 1 - 1) with (zlen l1) by lia.
  unfold aset. rewrite (proj2 (Z.leb_le _ _)), (proj2 (Z.ltb_lt _ _)) by (rewrite ?length_app; cbn [length]; lia). cbn [andb mbind option_bind].
  rewrite Nat2Z.id, <- app_assoc. rewrite insert_app_r_alt, Nat.sub_diag by lia. cbn [app list_insert insert]. f_equal.
  rewrite length_app. cbn [length]. rewrite length_app. cbn [length].
  replace (length l1 + S (length l2 + 1) - 1)%nat with (length (l1 ++ v :: l2)) by (rewrite length_app; cbn [length]; lia).
  change (l1 ++ v :: l2 ++ [v]) with (l1 ++ (v :: l2) ++ [v]). by rewrite app_assoc, take_app_length.
Qed.

Lemma swap_eq s l a b : zlen l + 2 <= room s -> lua_swap (set_stk s (l ++ [a; b])) = eret (tt, set_stk s (l ++ [b; a])).
Proof.
  intros Hl. apply restack_eq; [|rewrite length_app; cbn [length]; lia]. rewrite length_app. cbn [length].
  replace (length l + 2 - 2)%nat with (length l) by lia. by rewrite drop_app_length, take_app_length.
Qed.

Lemma table_eq s l i t : 0 < i -> aget l (i - 1) = Some (LTab t) -> lua_table i (set_stk s l) = eret (t, set_stk s l).
Proof. intros Hi Ht. unfold lua_table. lstep ltac:(by apply at_eq). done. Qed.

Lemma table_get_eq s l t k tb : heap s !! t = Some tb -> table_get t k (set_stk s l) = eret (tget tb k, set_stk s l).
Proof. intros Ht. unfold table_get. cbn [heap set_stk]. by rewrite Ht. Qed.

Lemma getfield_eq s l i t tb n : 0 < i -> aget l (i - 1) = Some (LTab t) -> heap s !! t = Some tb -> zlen l + 1 <= room s ->
  lua_getfield i n (set_stk s l) = eret (tt, set_stk s (l ++ [tget tb (name_key n)])).
Proof.
  intros Hi Ht Hb Hl. unfold lua_getfield. lstep ltac:(by apply table_eq). lstep ltac:(by apply table_get_eq). by apply push_eq.
Qed.

Lemma geti_eq s l i t tb n : 0 < i -> aget l (i - 1) = Some (LTab t) -> heap s !! t = Some tb -> zlen l + 1 <= room s ->
  lua_geti i n (set_stk s l) = eret (tt, set_stk s (l ++ [tget tb (LInt n)])).
Proof.
  intros Hi Ht Hb Hl. unfold lua_geti. lstep ltac:(by apply table_eq). lstep ltac:(by apply table_get_eq). by apply push_eq.
Qed.

(** The key is on top, the table below it. *)
Lemma next_eq s l i t tb k e : 0 < i <= zlen l -> aget l (i - 1) = Some (LTab t) -> heap s !! t = Some tb -> zlen l + 2 <= room s ->
  tnext tb k = Some e ->
  lua_next i (set_stk s (l ++ [k])) =
    match e with None => eret (false, set_stk s l) | Some (k, v) => eret (true, set_stk s (l ++ [k; v])) end.
Proof.
  intros Hi Ht Hb Hl He. unfold lua_next.
  lstep ltac:(apply table_eq; [lia|]; unfold aget in *; rewrite (proj2 (Z.leb_le _ _)) in * by lia; rewrite lookup_app_l by lia; exact Ht).
  lstep ltac:(apply top_eq). lstep ltac:(apply pop_eq; [done|lia]).
  unfold slift. unfold sbind at 1. cbn [heap set_stk]. rewrite Hb. cbn [eret]. rewrite He. destruct e as [[k' v]|]; [|done].
  lstep ltac:(apply push_eq; lia). lstep ltac:(apply push_eq; rewrite length_app; cbn [length]; lia). by rewrite <- app_assoc.
Qed.

End Stack.

(** ** What a typed tree is for the encoder *)

Section Typed.
Context (tys : list sproto_type).

Lemma obj_typed n t sub i fs : typed tys n t sub (TObj i fs) -> exists n' ty, n = S n' /\ t = SPROTO_TSTRUCT /\ sub = Some i /\
  tys !! i = Some ty /\ type_wf ty /\ NoDup (map fname (f ty)) /\ fields_of tys i = f ty /\ header_of tys i = 2 + 2 * maxn ty /\ length fs = length (f ty).
Proof.
  destruct n as [|n]; [done|]. intros (-> & -> & (ty & Hty & Hwf & Hnd) & Hfs). exists n, ty. apply Forall2_length in Hfs.
  unfold fields_of, header_of in *. rewrite Hty in *. split_and!; congruence || done.
Qed.

Lemma Forall2_zip_map {A B C} (P : A -> B -> Prop) (Q : A * C -> Prop) (g : B -> C) l k :
  Forall2 P l k -> (forall x y, P x y -> Q (x, g y)) -> Forall Q (zip l (map g k)).
Proof. intros H HQ. induction H as [|x y l k Hxy _ IH]; [constructor|]. cbn [map zip zip_with]. constructor; [by apply HQ|done]. Qed.

(** The fields of an object, one level down. *)
Lemma typed_fields n t sub i fs : typed tys (S n) t sub (TObj i fs) ->
  Forall2 (fun x o => (0 <= key x -> is_array (type x) = true /\ base_type (type x) = SPROTO_TSTRUCT) /\
    match o with
    | None => True
    | Some (inl v) => is_array (type x) = false /\ typed tys n (type x) (st x) v
    | Some (inr vs) => is_array (type x) = true /\ Forall (typed tys n (base_type (type x)) (st x)) vs /\
        (0 <= key x -> Forall (fun v => is_Some (main_key tys (key x) v)) vs /\ NoDup (map (main_key tys (key x)) vs))
    end) (fields_of tys i) fs.
Proof. by intros (_ & _ & _ & H). Qed.

Lemma vals_ok n t sub i fs : (forall t sub v, typed tys n t sub v -> elem_ok t (elem_of tys v)) -> typed tys (S n) t sub (TObj i fs) ->
  Forall (fun p => val_ok p.1 p.2) (vals_of tys i fs).
Proof.
  intros IH Ht. apply (Forall2_zip_map _ _ _ _ _ (typed_fields _ _ _ _ _ Ht)). intros x [[v|vs]|] [_ H]; cbn [fst snd val_of val_ok]; [| |done].
  - split; [apply H|]. by eapply IH, H.
  - destruct H as (Hx & Hvs & _). split; [done|]. apply Forall_map. eapply Forall_impl; [exact Hvs|]. intros v Hv. by eapply IH.
Qed.

Lemma vals_fst n t sub i fs ty : typed tys n t sub (TObj i fs) -> tys !! i = Some ty -> map fst (vals_of tys i fs) = f ty.
Proof.
  intros Ht Hi. destruct (obj_typed _ _ _ _ _ Ht) as (n' & ty' & _ & _ & _ & Hi' & _ & _ & Ef & _ & El). assert (ty' = ty) as -> by congruence.
  unfold vals_of. rewrite Ef. apply (fst_zip (f ty) (map (val_of tys) fs)). rewrite length_map. lia.
Qed.

Lemma typed_elem n : forall t sub v, typed tys n t sub v -> elem_ok t (elem_of tys v).
Proof.
  induction n as [|n IH]; intros t sub [z|b|s|i fs] Hv; try (cbn in Hv |- *; exact Hv || (split; [by left|lia])).
  destruct (obj_typed _ _ _ _ _ Hv) as (n' & ty & _ & -> & _ & Hi & Hwf & _ & _ & Eh & _). rewrite elem_of_obj. cbn [elem_ok]. rewrite Eh.
  pose proof (vals_fst _ _ _ _ _ _ Hv Hi) as Hf. destruct (all_good ty _ Hwf Hf (vals_ok _ _ _ _ _ IH Hv)) as [Hg _].
  pose proof (message_bound ty _ Hwf Hf Hg). split; [right; split; [done|lia]|lia].
Qed.

Lemma obj_good n t sub i fs ty : typed tys n t sub (TObj i fs) -> tys !! i = Some ty -> Forall good (vals_of tys i fs) /\ Forall (known ty) (vals_of tys i fs).
Proof.
  intros Hv Hi. destruct (obj_typed _ _ _ _ _ Hv) as (n' & ty' & -> & _ & _ & Hi' & Hwf & _). assert (ty' = ty) as -> by congruence.
  apply all_good; [done|by eapply vals_fst|]. eapply vals_ok; [apply typed_elem|exact Hv].
Qed.

End Typed.

(** ** The callback of the encoder *)

Lemma answers_by {U} (cb cb' : sproto_arg -> seff U (Z * list Z)) x t i e u u1 u' :
  (forall v n, cb (arg_of x t v n i) u = cb' (arg_of x t v n i) u1) -> answers cb' x t i e u1 u' -> answers cb x t i e u u'.
Proof.
  intros E H. destruct e as [z|b|l nd]; cbn [answers] in *; intros *; rewrite E; [by apply H..|]. apply H.
Qed.

(** The first call decides where an array starts. *)
Lemma answers_from_by {U} (cb : sproto_arg -> seff U (Z * list Z)) x t i l u u1 u' :
  (forall v n, cb (arg_of x t v n i) u = cb (arg_of x t v n i) u1) -> answers_from cb x t i l u1 u' -> answers_from cb x t i l u u'.
Proof.
  intros E. destruct l as [|e l]; cbn [answers_from].
  - intros H v n. by rewrite E.
  - intros (u2 & H & Hl). exists u2. split; [by eapply answers_by|done].
Qed.

Section EncodeCallback.
Context {LL : Lua} (tys : list sproto_type) (s : lstate).
Notation encode := (encode tys).
Notation encode_value := (encode_value tys).

(** The state of [encode] for the table [t] of depth [d] above the stack [B]:
    its iterator and the slots of its arrays. *)
Definition est (B : list lval) (t : nat) (d : Z) (tg : option Z) (ai : Z) (it : lval) (rest : list lval) : encode_ud * lstate :=
  (EncodeUd tg ai (zlen B + 1) d (zlen B + 2), set_stk s (B ++ LTab t :: it :: rest)).

(** [array_index] is 0 or one of those slots. *)
Definition slot_ok (B : list lval) (ai : Z) (rest : list lval) : Prop :=
  ai = 0 \/ exists r1 w r2, rest = r1 ++ w :: r2 /\ ai = zlen B + zlen r1 + 3.

Lemma aget_tbl B t it rest : aget (B ++ LTab t :: it :: rest) (zlen B + 1 - 1) = Some (LTab t).
Proof. replace (zlen B + 1 - 1) with (zlen B) by lia. by rewrite aget_nat, list_lookup_middle. Qed.

Lemma aget_iter B t it rest : aget (B ++ LTab t :: it :: rest) (zlen B + 2 - 1) = Some it.
Proof.
  change (LTab t :: it :: rest) with ([LTab t] ++ it :: rest). rewrite app_assoc.
  replace (zlen B + 2 - 1) with (zlen (B ++ [LTab t])) by (rewrite length_app; cbn [length]; lia). by rewrite aget_nat, list_lookup_middle.
Qed.

Lemma aget_slot B t it r1 w r2 : aget (B ++ LTab t :: it :: r1 ++ w :: r2) (zlen B + zlen r1 + 3 - 1) = Some w.
Proof.
  change (LTab t :: it :: r1 ++ w :: r2) with ((LTab t :: it :: r1) ++ w :: r2). rewrite app_assoc.
  replace (zlen B + zlen r1 + 3 - 1) with (zlen (B ++ LTab t :: it :: r1)) by (rewrite length_app; cbn [length]; lia). by rewrite aget_nat, list_lookup_middle.
Qed.

(** The value on top goes into the slot of the array, or stays as a new one. *)
Lemma store_slot B t ai it rest v : slot_ok B ai rest -> zlen B + zlen rest + 3 <= room s -> exists r1 r2,
  (if negb (ai =? 0) then
     ai = zlen B + zlen r1 + 3 /\
     lua_replace ai (set_stk s ((B ++ LTab t :: it :: rest) ++ [v])) = eret (tt, set_stk s (B ++ LTab t :: it :: r1 ++ v :: r2))
   else (B ++ LTab t :: it :: rest) ++ [v] = B ++ LTab t :: it :: r1 ++ v :: r2 /\ zlen ((B ++ LTab t :: it :: rest) ++ [v]) = zlen B + zlen r1 + 3) /\
  zlen (r1 ++ v :: r2) <= zlen rest + 1.
Proof.
  intros [-> |(r1 & w & r2 & -> & ->)] Hr.
  - exists rest, []. cbn [Z.eqb negb]. split_and!; rewrite ?length_app; cbn [length]; rewrite ?length_app; cbn [length]; [by rewrite <- app_assoc|lia|lia].
  - exists r1, r2. rewrite (proj2 (Z.eqb_neq _ _)) by lia. cbn [negb]. split_and!; [done| |rewrite !length_app; cbn [length]; lia].
    change (LTab t :: it :: r1 ++ w :: r2) with ((LTab t :: it :: r1) ++ w :: r2).
    change (LTab t :: it :: r1 ++ v :: r2) with ((LTab t :: it :: r1) ++ v :: r2). rewrite !app_assoc, <- (app_assoc _ (w :: r2)). cbn [app].
    rewrite length_app in Hr. cbn [length] in Hr. apply replace_eq; rewrite !length_app; cbn [length]; lia.
Qed.

(** The first steps of [encode_new_array]. *)
Ltac array_field t tb :=
  unfold encode_new_array, est; lstep ltac:(reflexivity); lstep ltac:(reflexivity); cbn [array_index set_array fst snd tbl_index deep iter_index];
  lstep ltac:(apply on_lua_eq; apply (getfield_eq _ _ _ t tb); [lia|apply aget_tbl|done|rewrite length_app; cbn [length]; lia]);
  lstep ltac:(apply on_lua_eq, top_eq).

Lemma new_array_eq B t d tg ai it rest nm tb a : heap s !! t = Some tb -> tget tb (name_key nm) = LTab a ->
  slot_ok B ai rest -> zlen B + zlen rest + 3 <= room s -> exists r1 r2,
  (forall args, tagname args = nm -> encode_new_array args (est B t d tg ai it rest) =
    eret (true, est B t d (Some (tagid args)) (zlen B + zlen r1 + 3) it (r1 ++ LTab a :: r2))) /\ zlen (r1 ++ LTab a :: r2) <= zlen rest + 1.
Proof.
  intros Hb Ha Hs Hr. destruct (store_slot B t ai it rest (LTab a) Hs Hr) as (r1 & r2 & E & Hl).
  exists r1, r2. split; [|done]. intros args <-. array_field t tb. rewrite Ha. destruct (Z.eqb_spec ai 0) as [-> |Hne]; cbn [negb] in *; destruct E as [E1 E2].
  - lstep ltac:(lstep ltac:(apply on_lua_eq, gettop_eq); reflexivity). cbn [snd]. by rewrite E2, E1.
  - lstep ltac:(apply on_lua_eq, E2). by rewrite <- E1.
Qed.

Lemma no_array_eq B t d tg ai it rest nm tb : heap s !! t = Some tb -> tget tb (name_key nm) = LNil ->
  slot_ok B ai rest -> zlen B + zlen rest + 3 <= room s -> exists rest',
  (forall args, tagname args = nm -> encode_new_array args (est B t d tg ai it rest) = eret (false, est B t d (Some (tagid args)) 0 it rest')) /\
  zlen rest' <= zlen rest + 1.
Proof.
  intros Hb Ha Hs Hr. destruct (store_slot B t ai it rest LNil Hs Hr) as (r1 & r2 & E & Hl).
  exists (r1 ++ LNil :: r2). split; [|done]. intros args <-. array_field t tb. rewrite Ha. destruct (Z.eqb_spec ai 0) as [-> |Hne]; cbn [negb] in *; destruct E as [E1 E2].
  - rewrite E1. done.
  - lstep ltac:(apply on_lua_eq, E2). done.
Qed.

(** A value on top of the stack of a state. *)
Definition top_of (u : encode_ud * lstate) (v : lval) : encode_ud * lstate := (u.1, set_stk s (stk u.2 ++ [v])).

(** The state while the array [a] is read. *)
Definition ready (B : list lval) (t : nat) (d tg : Z) (it : lval) (r1 : list lval) (a : nat) (r2 : list lval) : encode_ud * lstate :=
  est B t d (Some tg) (zlen B + zlen r1 + 3) it (r1 ++ LTab a :: r2).

Lemma encode_skip fuel args u : deep u.1 < 64 -> 0 < index args -> forall u', encode_element args u = eret (false, u') ->
  encode (S fuel) args u = eret (0, [], u').
Proof.
  intros Hd Hi u' E. cbn [SprotoLua.encode]. lstep ltac:(reflexivity). change ENCODE_DEEPLEVEL with 64. rewrite Z.geb_leb, (proj2 (Z.leb_gt _ _)) by lia.
  rewrite Z.gtb_ltb, (proj2 (Z.ltb_lt _ _)) by lia. lstep ltac:(apply E). done.
Qed.

Lemma encode_found fuel args u : deep u.1 < 64 -> 0 < index args -> forall u', encode_element args u = eret (true, u') ->
  encode (S fuel) args u = encode_value (encode fuel) args u' .
Proof.
  intros Hd Hi u' E. cbn [SprotoLua.encode]. lstep ltac:(reflexivity). change ENCODE_DEEPLEVEL with 64. rewrite Z.geb_leb, (proj2 (Z.leb_gt _ _)) by lia.
  rewrite Z.gtb_ltb, (proj2 (Z.ltb_lt _ _)) by lia. lstep ltac:(apply E). done.
Qed.

Lemma encode_single fuel args B t d tg ai it rest tb : d < 64 -> index args = 0 -> heap s !! t = Some tb -> zlen B + zlen rest + 3 <= room s ->
  encode (S fuel) args (est B t d tg ai it rest) =
    encode_value (encode fuel) args (top_of (est B t d tg ai it rest) (tget tb (name_key (tagname args)))).
Proof.
  intros Hd Hi Hb Hr. cbn [SprotoLua.encode]. lstep ltac:(reflexivity). change ENCODE_DEEPLEVEL with 64.
  cbn [fst est deep]. rewrite Z.geb_leb, (proj2 (Z.leb_gt _ _)), Hi by lia. change (0 >? 0) with false. cbv iota. cbn [tbl_index].
  lstep ltac:(lstep ltac:(apply on_lua_eq; apply (getfield_eq _ _ _ t tb); [lia|apply aget_tbl|done|rewrite length_app; cbn [length]; lia]); reflexivity). done.
Qed.

(** With the array found, the first call is like the others. *)
Lemma encode_first fuel args B t d tg ai rest r1 a r2 : d < 64 -> 0 < index args -> tg <> Some (tagid args) ->
  encode_new_array args (est B t d tg ai LNil rest) = eret (true, ready B t d (tagid args) LNil r1 a r2) ->
  encode (S fuel) args (est B t d tg ai LNil rest) = encode (S fuel) args (ready B t d (tagid args) LNil r1 a r2).
Proof.
  intros Hd Hi Hne E. cbn [SprotoLua.encode]. unfold get_self. unfold sbind at 1 4. cbn [fst eret est ready deep].
  destruct (d >=? ENCODE_DEEPLEVEL); [done|]. rewrite Z.gtb_ltb, (proj2 (Z.ltb_lt _ _)) by lia.
  enough (encode_element args (est B t d tg ai LNil rest) = encode_element args (ready B t d (tagid args) LNil r1 a r2)) as Ee by (unfold sbind; by rewrite Ee).
  unfold encode_element. lstep ltac:(reflexivity). rewrite bool_decide_false by done. lstep ltac:(exact E).
  symmetry. lstep ltac:(reflexivity). rewrite bool_decide_true by done. lstep ltac:(reflexivity). done.
Qed.

Lemma element_index args B t d it r1 a r2 ta : mainindex args < 0 -> heap s !! a = Some ta -> zlen B + zlen (r1 ++ LTab a :: r2) + 3 <= room s ->
  encode_element args (ready B t d (tagid args) it r1 a r2) =
    eret (true, top_of (ready B t d (tagid args) it r1 a r2) (tget ta (LInt (index args)))).
Proof.
  intros Hm Ha Hr. unfold encode_element. lstep ltac:(reflexivity). rewrite bool_decide_true by done. lstep ltac:(reflexivity). cbn [negb].
  lstep ltac:(reflexivity). rewrite Z.geb_leb, (proj2 (Z.leb_gt _ _)) by lia. cbn [fst ready est array_index].
  lstep ltac:(apply on_lua_eq; apply (geti_eq _ _ _ a ta); [lia|apply aget_slot|done|rewrite length_app; cbn [length]; lia]). done.
Qed.

Lemma element_next args B t d it r1 a r2 ta e : 0 <= mainindex args -> heap s !! a = Some ta -> zlen B + zlen (r1 ++ LTab a :: r2) + 4 <= room s ->
  tnext ta it = Some e ->
  encode_element args (ready B t d (tagid args) it r1 a r2) =
    match e with
    | None => eret (false, ready B t d (tagid args) LNil r1 a r2)
    | Some (k, v) => eret (true, top_of (ready B t d (tagid args) k r1 a r2) v)
    end.
Proof.
  intros Hm Ha Hr He. unfold encode_element. lstep ltac:(reflexivity). rewrite bool_decide_true by done. lstep ltac:(reflexivity). cbn [negb].
  lstep ltac:(reflexivity). rewrite Z.geb_leb, (proj2 (Z.leb_le _ _)) by lia. cbn [fst ready est array_index iter_index].
  lstep ltac:(apply on_lua_eq; apply (pushvalue_eq _ _ _ it); [lia|apply aget_iter|rewrite length_app; cbn [length]; lia]).
  assert (lua_next (zlen B + zlen r1 + 3) (set_stk s ((B ++ LTab t :: it :: r1 ++ LTab a :: r2) ++ [it])) =
    match e with
    | None => eret (false, set_stk s (B ++ LTab t :: it :: r1 ++ LTab a :: r2))
    | Some (k, v) => eret (true, set_stk s ((B ++ LTab t :: it :: r1 ++ LTab a :: r2) ++ [k; v]))
    end) as E.
  { apply (next_eq _ _ _ a ta _ e); [|apply aget_slot|done| |done]; slen. }
  assert (forall k l, zlen B + zlen l + 2 <= room s ->
    lua_replace (zlen B + 2) (set_stk s ((B ++ LTab t :: it :: l) ++ [k])) = eret (tt, set_stk s (B ++ LTab t :: k :: l))) as Eiter.
  { intros k l Hl. pose proof (replace_eq s (B ++ [LTab t]) it l k (zlen B + 2)) as R.
    repeat (rewrite <- app_assoc in R; cbn [app] in R). rewrite <- app_assoc. cbn [app]. apply R; slen. }
  destruct e as [[k v]|]; lstep ltac:(apply on_lua_eq, E); cbn [negb].
  - lstep ltac:(apply on_lua_eq, swap_eq; slen). unfold top_of, ready, est. cbn [fst snd stk set_stk].
    replace ((B ++ LTab t :: it :: r1 ++ LTab a :: r2) ++ [v; k]) with ((B ++ LTab t :: it :: (r1 ++ LTab a :: r2) ++ [v]) ++ [k])
      by (by repeat (rewrite <- app_assoc; cbn [app])).
    lstep ltac:(apply on_lua_eq, Eiter; slen). by repeat (rewrite <- app_assoc; cbn [app]).
  - lstep ltac:(apply on_lua_eq, push_eq; slen). lstep ltac:(apply on_lua_eq, Eiter; slen). done.
Qed.

(** Tables of at most [n] levels are encoded. *)
Definition obj_ok (n : nat) : Prop := forall fuel i fs B t d,
  typed tys n SPROTO_TSTRUCT (Some i) (TObj i fs) -> rep tys n (heap s) (TObj i fs) (LTab t) -> (n <= fuel)%nat ->
  0 <= d -> d + Z.of_nat n <= 64 -> zlen B + slots tys (TObj i fs) <= room s ->
  exists tg ai rest, serves_all (encode fuel) (vals_of tys i fs) (est B t d None 0 LNil []) (est B t d tg ai LNil rest) /\
    zlen B + zlen rest + 4 <= room s.

Lemma shiftr_small z : ((Z.shiftr z 31 =? 0) || (Z.shiftr z 31 =? -1)) = small z.
Proof.
  unfold small. rewrite Z.shiftr_div_pow2 by lia. destruct (Z.leb_spec (- 2 ^ 31) z), (Z.ltb_spec z (2 ^ 31)); cbn [andb].
  - apply orb_true_iff. rewrite !Z.eqb_eq. zdiv.
  - apply orb_false_iff. rewrite !Z.eqb_neq. zdiv.
  - apply orb_false_iff. rewrite !Z.eqb_neq. zdiv.
  - lia.
Qed.

Lemma value_answers n fuel self l lv v x t i : obj_ok n -> typed tys n t (st x) v -> rep tys n (heap s) v lv -> (n <= fuel)%nat ->
  0 <= deep self -> deep self + 1 + Z.of_nat n <= 64 -> zlen l + slots tys v <= room s -> zlen l <= room s ->
  answers (encode_value (encode fuel)) x t i (elem_of tys v) (self, set_stk s (l ++ [lv])) (self, set_stk s l).
Proof.
  intros IH Ht Hrep Hf Hd Hd2 Hr Hl. assert (forall a, encode_value (encode fuel) a (self, set_stk s (l ++ [lv])) =
    match lv with
    | LNil => let+ _ := on_lua (lua_pop 1) in sret (0, [])
    | _ =>
        if atype a =? SPROTO_TINTEGER then encode_integer_value lv
        else if atype a =? SPROTO_TBOOLEAN then encode_boolean_value lv
        else if atype a =? SPROTO_TSTRING then encode_string_value a lv
        else if atype a =? SPROTO_TSTRUCT then encode_struct_value tys (encode fuel) a lv
        else serr
    end (self, set_stk s (l ++ [lv]))) as E.
  { intros a. unfold SprotoLua.encode_value. lstep ltac:(apply on_lua_eq, top_eq). done. }
  assert (on_lua (lua_pop 1) (self, set_stk s (l ++ [lv])) = eret (tt, (self, set_stk s l))) as Epop by (by apply on_lua_eq, pop_eq).
  destruct v as [z|b|str|k fs].
  - destruct n; destruct Ht as [-> Hz]; cbn [rep] in Hrep; subst lv; intros w; rewrite E; pick; unfold encode_integer_value; lstep ltac:(exact Epop); rewrite shiftr_small; by destruct (small z).
  - assert (t = SPROTO_TBOOLEAN) as -> by (by destruct n). assert (lv = LBool b) as -> by (by destruct n).
    intros w m. rewrite E. pick. unfold encode_boolean_value. lstep ltac:(exact Epop). done.
  - assert (t = SPROTO_TSTRING) as -> by (by destruct n). assert (lv = LStr str) as -> by (by destruct n).
    intros w m Hw Hm. exists str. split_and!; [|lia|by apply take_ge]. rewrite E. pick. unfold encode_string_value. cbn [lua_isstring negb length_ arg_of].
    unfold u64. rewrite Z.mod_small, Z.gtb_ltb, (proj2 (Z.ltb_ge _ _)) by lia. lstep ltac:(exact Epop). done.
  - destruct (obj_typed _ _ _ _ _ _ Ht) as (n' & ty & -> & -> & Hst & Hi & Hwf & _ & _ & Eh & _).
    pose proof (vals_fst _ _ _ _ _ _ _ Ht Hi) as Hfst. destruct (obj_good _ _ _ _ _ _ _ Ht Hi) as [Hg _].
    pose proof (needs_nonneg _ Hg). destruct Hrep as (t0 & tb & -> & Hrep). rewrite elem_of_obj, Eh. intros w m Hw Hm.
    destruct (IH fuel k fs l t0 (deep self + 1)) as (tg & ai & rest & Hs & _); [by rewrite <- Hst|by exists t0, tb|done|lia|lia|lia|].
    destruct (sproto_encode_ok (encode fuel) ty (vals_of tys k fs) w _ _ Hwf Hfst Hg Hs) as (buf & Eenc & [Lb _] & P); [lia|done|].
    exists buf. split_and!; [|lia|].
    2: { unfold piece, slice in P. by rewrite Nat2Z.id in P. }
    rewrite E. pick. unfold encode_struct_value. lstep ltac:(reflexivity).
    lstep ltac:(apply on_lua_eq, gettop_eq). cbn [lua_istable negb]. pose proof (proj1 (slots_obj tys k fs)) as H4. unfold array_slots in H4.
    lstep ltac:(apply on_lua_eq, push_eq; slen). unfold subtype_of, slift, sret. cbn [subtype arg_of mbind option_bind]. rewrite Hst. cbn [mbind option_bind]. rewrite Hi.
    unfold sbind at 1. cbn [eret length_ value arg_of]. rewrite Hw, Z.eqb_refl. unfold sbind at 1. cbn [eret].
    assert (with_ud (EncodeUd None 0 (zlen (l ++ [LTab t0])) (deep self + 1) (zlen (l ++ [LTab t0]) + 1)) (sproto_encode (encode fuel) ty w)
       (set_stk s ((l ++ [LTab t0]) ++ [LNil])) = eret ((buf, zlen (message (vals_of tys k fs)), (est l t0 (deep self + 1) tg ai LNil rest).1), set_stk s (l ++ LTab t0 :: LNil :: rest))) as Ew.
    { unfold with_ud. replace (EncodeUd None 0 (zlen (l ++ [LTab t0])) (deep self + 1) (zlen (l ++ [LTab t0]) + 1), set_stk s ((l ++ [LTab t0]) ++ [LNil]))
        with (est l t0 (deep self + 1) None 0 LNil []); [by rewrite Eenc|]. unfold est. rewrite <- app_assoc, length_app. cbn [app length]. repeat (lia || f_equal). }
    lstep ltac:(apply on_lua_eq, Ew). replace (zlen (l ++ [LTab t0]) - 1) with (zlen l) by slen. lstep ltac:(by apply on_lua_eq, settop_eq).
    pick. done.
Qed.

Lemma nil_value cb args self l : zlen l <= room s ->
  encode_value cb args (self, set_stk s (l ++ [LNil])) = eret (0, [], (self, set_stk s l)).
Proof.
  intros Hl. unfold SprotoLua.encode_value. lstep ltac:(apply on_lua_eq, top_eq). by lstep ltac:(by apply on_lua_eq, pop_eq).
Qed.

(** The slots that the elements of a field need. *)
Definition room_for (B rest : list lval) (vs : list tree) : Prop :=
  zlen B + zlen rest + 4 <= room s /\ Forall (fun v => zlen B + zlen rest + 2 + slots tys v <= room s) vs.

Lemma ready_len B t d tg it r1 a r2 : zlen (stk (ready B t d tg it r1 a r2).2) = zlen B + zlen (r1 ++ LTab a :: r2) + 2.
Proof. cbn [ready est snd stk set_stk]. slen. Qed.

Lemma index_answers n fuel B t d r1 a r2 x ty ta vs : obj_ok n -> (n <= fuel)%nat -> 0 <= d -> d + 1 + Z.of_nat n <= 64 ->
  key x < 0 -> heap s !! a = Some ta -> room_for B (r1 ++ LTab a :: r2) vs ->
  Forall (typed tys n ty (st x)) vs -> array_rep tys (rep tys n (heap s)) x vs ta ->
  forall suf pre, vs = pre ++ suf ->
  answers_from (encode (S fuel)) x ty (1 + zlen pre) (map (elem_of tys) suf) (ready B t d (tag x) LNil r1 a r2) (ready B t d (tag x) LNil r1 a r2).
Proof.
  intros IH Hf Hd Hd2 Hk Ha [Hr Hrs] Ht Hrep. unfold array_rep in Hrep. rewrite Z.geb_leb, (proj2 (Z.leb_gt _ _)) in Hrep by lia. destruct Hrep as [Hrep Hend].
  set (u := ready B t d (tag x) LNil r1 a r2).
  assert (forall i v m, 0 < i -> encode (S fuel) (arg_of x ty v m i) u = encode_value (encode fuel) (arg_of x ty v m i) (top_of u (tget ta (LInt i)))) as E.
  { intros i v m Hi. apply encode_found; [cbn; lia|done|]. apply (element_index (arg_of x ty v m i)); [done|done|slen]. }
  induction suf as [|v suf IHs]; intros pre Evs; cbn [map answers_from].
  - intros v m. rewrite E by lia. rewrite Evs, app_nil_r in Hend. replace (1 + zlen pre) with (zlen pre + 1) by lia. rewrite Hend.
    apply nil_value. subst u. rewrite ready_len. lia.
  - exists u. split.
    + eapply answers_by; [intros w m; apply E; lia|]. rewrite Evs in Ht, Hrs. apply Forall_app in Ht as [_ [Hv _]%Forall_cons]. apply Forall_app in Hrs as [_ [Hrv _]%Forall_cons].
      apply (value_answers n fuel (u.1)); [done|done| |done|cbn; lia|cbn; lia|subst u; rewrite ready_len; lia..].
      replace (1 + zlen pre) with (zlen pre + 1) by lia. apply Hrep. rewrite Evs. by rewrite list_lookup_middle.
    + replace (1 + zlen pre + 1) with (1 + zlen (pre ++ [v])) by slen. apply IHs. by rewrite <- app_assoc.
Qed.

Lemma tfind_middle pre k v suf : k ∉ map fst pre -> tfind (pre ++ (k, v) :: suf) k = Some (length pre, (k, v)).
Proof.
  intros Hk. apply list_find_Some. split_and!; [by rewrite list_lookup_middle|done|]. intros j [k' v'] Hj Hlt E. apply Hk. cbn [fst] in E. subst k'.
  apply list_elem_of_fmap. exists (k, v'). split; [done|]. rewrite lookup_app_l in Hj by done. by eapply list_elem_of_lookup_2.
Qed.

Definition last_key (pre : table) : lval := match last pre with None => LNil | Some (k, _) => k end.

Lemma tnext_app pre suf : LNil ∉ map fst pre -> NoDup (map fst pre) -> tnext (pre ++ suf) (last_key pre) = Some (head suf).
Proof.
  intros Hn Hd. unfold last_key. destruct pre as [|[k v] pre _] using rev_ind; [by destruct suf|]. rewrite last_snoc. rewrite map_app in *. cbn [map fst] in *.
  assert (k ∉ map fst pre) as Hk by (apply NoDup_app in Hd as (_ & Hd & _); intros Hk; by apply (Hd k Hk), elem_of_cons; left).
  unfold tnext. rewrite <- app_assoc. cbn [app]. rewrite tfind_middle by done. assert (k <> LNil) as Hkn by (intros ->; apply Hn, elem_of_app; right; by left).
  assert ((pre ++ (k, v) :: suf) !! S (length pre) = head suf) as E.
  { rewrite lookup_app_r by lia. replace (S (length pre) - length pre)%nat with 1%nat by lia. by destruct suf. }
  destruct k; done || exact (f_equal Some E).
Qed.

Lemma keyed_answers n fuel B t d r1 a r2 x ty ta vs : obj_ok n -> (n <= fuel)%nat -> 0 <= d -> d + 1 + Z.of_nat n <= 64 ->
  0 <= key x -> heap s !! a = Some ta -> room_for B (r1 ++ LTab a :: r2) vs ->
  Forall (typed tys n ty (st x)) vs -> Forall2 (fun v p => rep tys n (heap s) v p.2) vs ta -> LNil ∉ map fst ta -> NoDup (map fst ta) ->
  forall vsuf suf pre vpre, ta = pre ++ suf -> vs = vpre ++ vsuf -> length vpre = length pre ->
  answers_from (encode (S fuel)) x ty (1 + zlen pre) (map (elem_of tys) vsuf) (ready B t d (tag x) (last_key pre) r1 a r2) (ready B t d (tag x) LNil r1 a r2).
Proof.
  intros IH Hf Hd Hd2 Hk Ha [Hr Hrs] Ht Hrep Hn Hnd.
  induction vsuf as [|v vsuf IHs]; intros suf pre vpre Eta Evs El; cbn [map answers_from].
  all: assert (tnext ta (last_key pre) = Some (head suf)) as En by (rewrite Eta in Hn, Hnd |- *; rewrite map_app in Hn, Hnd; apply tnext_app;
    [intros Hx; apply Hn, elem_of_app; by left|by apply NoDup_app in Hnd as (? & _ & _)]).
  all: pose proof Hrep as H2; rewrite Eta, Evs in H2; apply Forall2_app_inv in H2 as [_ H2]; [|done].
  - apply Forall2_nil_inv_l in H2 as ->. intros v m. apply encode_skip; [cbn; lia|cbn; lia|].
    apply (element_next (arg_of x ty v m (1 + zlen pre)) B t d (last_key pre) r1 a r2 ta None); [done|done|slen|done].
  - apply Forall2_cons_inv_l in H2 as ([k lv] & suf' & Hv & _ & ->). cbn [snd head] in *. exists (ready B t d (tag x) k r1 a r2). split.
    + apply (answers_by _ (encode_value (encode fuel)) _ _ _ _ _ (top_of (ready B t d (tag x) k r1 a r2) lv)).
      { intros w m. apply encode_found; [cbn; lia|cbn; lia|].
        apply (element_next (arg_of x ty w m (1 + zlen pre)) B t d (last_key pre) r1 a r2 ta (Some (k, lv))); [done|done|slen|done]. }
      rewrite Evs in Ht, Hrs. apply Forall_app in Ht as [_ [Htv _]%Forall_cons]. apply Forall_app in Hrs as [_ [Hrv _]%Forall_cons].
      apply (value_answers n fuel); [done|done|done|done|cbn; lia|cbn; lia|rewrite ready_len; lia..].
    + replace (1 + zlen pre + 1) with (1 + zlen (pre ++ [(k, lv)])) by slen.
      assert (last_key (pre ++ [(k, lv)]) = k) as Ek by (unfold last_key; by rewrite last_snoc).
      specialize (IHs suf' (pre ++ [(k, lv)]) (vpre ++ [v])). rewrite Ek in IHs.
      apply IHs; [by rewrite <- app_assoc|by rewrite <- app_assoc|rewrite !length_app, El; done].
Qed.

(** A field and its value in a tree of [n] levels below. *)
Definition field_typed (n : nat) (x : field) (o : option (tree + list tree)) : Prop :=
  (0 <= key x -> is_array (type x) = true /\ base_type (type x) = SPROTO_TSTRUCT) /\
  match o with
  | None => True
  | Some (inl v) => is_array (type x) = false /\ typed tys n (type x) (st x) v
  | Some (inr vs) => is_array (type x) = true /\ Forall (typed tys n (base_type (type x)) (st x)) vs /\
      (0 <= key x -> Forall (fun v => is_Some (main_key tys (key x) v)) vs /\ NoDup (map (main_key tys (key x)) vs))
  end.

Definition children (o : option (tree + list tree)) : list tree :=
  match o with None => [] | Some (inl v) => [v] | Some (inr vs) => vs end.

Definition array_slot (x : field) : Z := if is_array (type x) then 1 else 0.

Lemma main_key_some k v l : main_key tys k v = Some l -> l <> LNil.
Proof.
  unfold main_key. destruct v as [| | |i fs]; try done. destruct (find _ _) as [[y [[w|ws]|]]|]; try done. by destruct w; intros [= <-].
Qed.

(** The main keys of the elements are the keys of the table. *)
Lemma array_keys (R : tree -> lval -> Prop) x vs ta : 0 <= key x -> array_rep tys R x vs ta -> NoDup (map (main_key tys (key x)) vs) ->
  Forall2 (fun v p => R v p.2) vs ta /\ (LNil ∉ map fst ta) /\ NoDup (map fst ta).
Proof.
  intros Hk H Hd. unfold array_rep in H. rewrite Z.geb_leb, (proj2 (Z.leb_le _ _)) in H by lia.
  assert (map (main_key tys (key x)) vs = map Some (map fst ta)) as E.
  { clear - H. induction H as [|v p vs ta [_ Hp] _ IH]; [done|]. cbn [map]. by rewrite Hp, IH. }
  split_and!.
  - eapply Forall2_impl; [exact H|]. by intros v p [? _].
  - intros Hn. assert (Some LNil ∈ map Some (map fst ta)) as Hin by (by apply (list_elem_of_fmap_2 Some)). rewrite <- E in Hin.
    apply list_elem_of_fmap in Hin as (v & Ev & _). by apply (main_key_some _ _ _ (eq_sym Ev)).
  - rewrite E in Hd. by apply (NoDup_fmap_1 Some) in Hd.
Qed.

Lemma element_none B t d tg ai rest rest' args : tg <> Some (tagid args) ->
  encode_new_array args (est B t d tg ai LNil rest) = eret (false, est B t d (Some (tagid args)) 0 LNil rest') ->
  encode_element args (est B t d tg ai LNil rest) = eret (false, est B t d (Some (tagid args)) 0 LNil rest').
Proof. intros Hne E. unfold encode_element. lstep ltac:(reflexivity). rewrite bool_decide_false by done. lstep ltac:(exact E). done. Qed.

Lemma field_serves n fuel B t d tb x o tg ai rest : obj_ok n -> (n <= fuel)%nat -> 0 <= d -> d + 1 + Z.of_nat n <= 64 ->
  heap s !! t = Some tb -> slot_ok B ai rest -> tg <> Some (tag x) -> zlen B + zlen rest + array_slot x + 4 <= room s ->
  Forall (fun v => zlen B + zlen rest + array_slot x + 2 + slots tys v <= room s) (children o) ->
  field_wf x -> field_typed n x o -> field_rep tys (rep tys n (heap s)) (heap s) x o (tget tb (name_key (fname x))) ->
  exists tg' ai' rest', serves (encode (S fuel)) x (val_of tys o) (est B t d tg ai LNil rest) (est B t d tg' ai' LNil rest') /\
    slot_ok B ai' rest' /\ zlen rest' <= zlen rest + array_slot x /\ (tg' = tg \/ tg' = Some (tag x)).
Proof.
  intros IH Hf Hd Hd2 Hb Hslot Hne Hr Hrs Hwf [Hkey Hty] Hrep.
  assert (tget tb (name_key (fname x)) = LNil -> is_array (type x) = true -> exists tg' ai' rest',
    answers_nil (encode (S fuel)) x (base_type (type x)) 1 (est B t d tg ai LNil rest) (est B t d tg' ai' LNil rest') /\
    slot_ok B ai' rest' /\ zlen rest' <= zlen rest + array_slot x /\ (tg' = tg \/ tg' = Some (tag x))) as Hnil.
  { intros En Hx. unfold array_slot in *. rewrite Hx in *. destruct (no_array_eq B t d tg ai LNil rest (fname x) tb) as (rest' & E & Hl); [done|done|done|lia|].
    exists (Some (tag x)), 0, rest'. split_and!; [|by left|done|by right]. intros v m. apply encode_skip; [cbn; lia|done|].
    by apply (element_none _ _ _ _ _ _ _ (arg_of x (base_type (type x)) v m 1)), E. }
  destruct o as [[v|vs]|]; cbn [field_rep val_of serves children] in *.
  - destruct Hty as [Hx Ht]. exists tg, ai, rest. split_and!; [|done|unfold array_slot; case_match; lia|by left]. apply Forall_cons_1 in Hrs as [Hrv _].
    unfold array_slot in *. rewrite Hx in *.
    apply (answers_by _ (encode_value (encode fuel)) _ _ _ _ _ (top_of (est B t d tg ai LNil rest) (tget tb (name_key (fname x))))).
    + intros w m. by apply (encode_single fuel (arg_of x (type x) w m 0)); [lia|..|lia].
    + apply (value_answers n fuel); [done..|cbn; lia|cbn; lia|cbn [est snd stk set_stk]; slen|cbn [est snd stk set_stk]; slen].
  - destruct Hty as (Hx & Ht & Hmk). destruct Hrep as [[-> En]|(a & ta & Ea & Ha & Harr)]; [by apply Hnil|].
    unfold array_slot in *. rewrite Hx in *. destruct (new_array_eq B t d tg ai LNil rest (fname x) tb a) as (r1 & r2 & E & Hl); [done|done|done|lia|].
    exists (Some (tag x)), (zlen B + zlen r1 + 3), (r1 ++ LTab a :: r2). split_and!; [|right; by exists r1, (LTab a), r2|done|by right].
    apply (answers_from_by _ _ _ _ _ _ (ready B t d (tag x) LNil r1 a r2)).
    { intros w m. apply (encode_first fuel (arg_of x (base_type (type x)) w m 1)); [lia|done|done|]. by apply E. }
    assert (room_for B (r1 ++ LTab a :: r2) vs) as Hroom.
    { split; [lia|]. eapply Forall_impl; [exact Hrs|]. cbv beta. intros; lia. }
    destruct (Z.leb_spec 0 (key x)) as [Hk|Hk].
    + destruct (Hmk Hk) as [_ Hnd]. destruct (array_keys _ x vs ta Hk Harr Hnd) as (Hr2 & Hn & Hnd2).
      by apply (keyed_answers n fuel B t d r1 a r2 x _ ta vs IH Hf Hd Hd2 Hk Ha Hroom Ht Hr2 Hn Hnd2 vs ta [] []).
    + by apply (index_answers n fuel B t d r1 a r2 x _ ta vs IH Hf Hd Hd2 Hk Ha Hroom Ht Harr vs []).
  - destruct (is_array (type x)) eqn:Hx; [by apply Hnil|]. exists tg, ai, rest. split_and!; [|done|unfold array_slot; case_match; lia|by left].
    unfold array_slot in *. rewrite Hx in *. intros w m. rewrite (encode_single fuel (arg_of x (base_type (type x)) w m 0) _ _ _ _ _ _ _ tb) by (done || lia).
    cbn [tagname arg_of]. rewrite Hrep. apply nil_value. cbn [est snd stk set_stk]. slen.
Qed.

(** The fields from the current one on. *)
Lemma fields_serve n fuel B t d tb S0 : obj_ok n -> (n <= fuel)%nat -> 0 <= d -> d + 1 + Z.of_nat n <= 64 -> heap s !! t = Some tb ->
  forall xs os last tg ai rest, ascending xs last -> Forall field_wf xs -> Forall2 (field_typed n) xs os ->
  Forall2 (fun x o => field_rep tys (rep tys n (heap s)) (heap s) x o (tget tb (name_key (fname x)))) xs os ->
  (forall k, tg = Some k -> k <= last) -> slot_ok B ai rest -> zlen rest + zlen (filter (fun x => is_array (type x)) xs) <= S0 ->
  zlen B + S0 + 4 <= room s -> Forall (fun o => Forall (fun v => zlen B + S0 + 2 + slots tys v <= room s) (children o)) os ->
  exists tg' ai' rest', serves_all (encode (S fuel)) (zip xs (map (val_of tys) os)) (est B t d tg ai LNil rest) (est B t d tg' ai' LNil rest') /\ zlen rest' <= S0.
Proof.
  intros IH Hf Hd Hd2 Hb. induction xs as [|x xs IHx]; intros [|o os] last tg ai rest Has Hwf Hty Hrep Htg Hslot Hl Hr Hrs; try by apply Forall2_length in Hty.
  { exists tg, ai, rest. split; [done|]. cbn [filter length] in Hl. lia. }
  apply Forall_cons in Hwf as [Hx Hwf]. apply Forall2_cons in Hty as [Htx Hty]. apply Forall2_cons in Hrep as [Hrx Hrep]. apply Forall_cons in Hrs as [Hrx2 Hrs].
  destruct Has as [Hlast Has]. cbn [map zip zip_with serves_all].
  assert (zlen rest + array_slot x + zlen (filter (fun x => is_array (type x)) xs) <= S0) as Hl2.
  { unfold array_slot. rewrite filter_cons in Hl. destruct (is_array (type x)); cbn [length] in Hl; case_decide; cbn [length] in Hl; try lia; done. }
  destruct (field_serves n fuel B t d tb x o tg ai rest) as (tg1 & ai1 & rest1 & Hs & Hslot1 & Hl1 & Htg1);
    [done|done|done|done|done|done| |lia| |done|done|done|].
  { intros E. specialize (Htg _ E). lia. }
  { eapply Forall_impl; [exact Hrx2|]. cbv beta. intros; lia. }
  destruct (IHx os (tag x) tg1 ai1 rest1) as (tg2 & ai2 & rest2 & Hs2 & Hl3); [done..| |done|lia|done|done|].
  { intros k Ek. destruct Htg1 as [-> | ->]; [specialize (Htg _ Ek); lia|]. by injection Ek as <-. }
  exists tg2, ai2, rest2. split; [by exists (est B t d tg1 ai1 LNil rest1)|done].
Qed.

Lemma obj_encodes n : obj_ok n.
Proof.
  induction n as [|n IH]; intros fuel i fs B t d Ht Hrep Hf Hd Hd2 Hr; [done|]. destruct fuel as [|fuel]; [lia|].
  destruct (obj_typed _ _ _ _ _ _ Ht) as (n' & ty & _ & _ & _ & Hi & Hwf & _ & Ef & _ & _). destruct Hrep as (t' & tb & [= <-] & Hb & Hrep).
  destruct (slots_obj tys i fs) as [H4 Hch]. unfold vals_of. rewrite Ef in *.
  destruct (fields_serve n fuel B t d tb (array_slots tys i) IH ltac:(lia) Hd ltac:(lia) Hb (f ty) fs (-1) None 0 []) as (tg & ai & rest & Hs & Hl);
    [apply Hwf| |rewrite <- Ef; exact (typed_fields _ _ _ _ _ _ Ht)|done|done|by left| |lia| |exists tg, ai, rest; split; [done|lia]].
  - rewrite Forall_forall. intros x Hx. exact (proj1 (Forall_forall _ _) (wf_types ty Hwf) x Hx).
  - unfold array_slots. rewrite Ef. cbn [length]. lia.
  - rewrite Forall_forall. intros o Ho. rewrite Forall_forall. intros v Hv. enough (2 + array_slots tys i + slots tys v <= slots tys (TObj i fs)) by lia.
    apply Hch. destruct o as [[w|ws]|]; cbn [children] in Hv; [left|right; by exists ws|by apply not_elem_of_nil in Hv].
    by apply list_elem_of_singleton in Hv as ->.
Qed.

End EncodeCallback.

(** ** [lencode] *)

Lemma checkstack_eq s l n : lua_checkstack n (set_stk s l) = eret (tt, set_stk (LState l (Z.max (room s) (zlen l + n)) (heap s) (ubuf s) (protos s) (G_sproto s)) l).
Proof. done. Qed.

Lemma type_arg_eq s p i l sp ty : protos s !! p = Some (Some sp) -> types sp !! i = Some ty ->
  type_arg (set_stk s (LType p i :: l)) = eret (Some (types sp, ty), set_stk s (LType p i :: l)).
Proof.
  intros Hp Hi. unfold type_arg. lstep ltac:(exact (eq_refl : lua_arg 1 (set_stk s (LType p i :: l)) = eret (LType p i, set_stk s (LType p i :: l)))).
  unfold slift. cbn [protos set_stk]. rewrite Hp. cbn [mbind option_bind]. by rewrite Hi.
Qed.

(** A table of the type and a buffer that its message fits into: [lencode]
    returns the message. *)
Lemma lencode_ok {LL : Lua} s p i t fs sp ty : protos s !! p = Some (Some sp) -> types sp !! i = Some ty ->
  typed (types sp) 64 SPROTO_TSTRUCT (Some i) (TObj i fs) -> rep (types sp) 64 (heap s) (TObj i fs) (LTab t) ->
  size_of (elem_of (types sp) (TObj i fs)) <= zlen (ubuf s) < 2 ^ 31 -> slots (types sp) (TObj i fs) <= 137 ->
  exists s1 l, lencode (set_stk s [LType p i; LTab t]) = eret (1, s1) /\
    stk s1 = l ++ [LStr (message (vals_of (types sp) i fs))] /\ heap s1 = heap s /\ protos s1 = protos s /\ length (ubuf s1) = length (ubuf s).
Proof.
  intros Hp Hi Ht Hrep Hsz Hsl. unfold lencode. lstep ltac:(by eapply type_arg_eq).
  lstep ltac:(exact (eq_refl : lua_arg 2 (set_stk s [LType p i; LTab t]) = eret (LTab t, set_stk s [LType p i; LTab t]))). cbn [lua_istable negb]. lstep ltac:(apply checkstack_eq).
  change (Z.max (room s) (zlen [LType p i; LTab t] + (ENCODE_DEEPLEVEL * 2 + 8))) with (Z.max (room s) 138).
  set (s' := LState _ _ _ _ _ _). assert (138 <= room s') as Hroom by (subst s'; cbn [room]; lia). change 26%nat with (S 25). generalize 25%nat as fuel. intros fuel. cbn [lencode_loop].
  lstep ltac:(apply (settop_eq s' [LType p i; LTab t] []); cbn [length]; lia). lstep ltac:(apply push_eq; cbn [length]; lia). cbn [app].
  lstep ltac:(reflexivity). cbn [ubuf set_stk].
  destruct (obj_encodes (types sp) s' 64%nat 65%nat i fs [LType p i] t 0) as (tg & ai & rest & Hs & Hl); [done|done|lia|lia|lia|cbn [length]; lia|].
  destruct (obj_typed _ _ _ _ _ _ Ht) as (n' & ty' & _ & _ & _ & Hi' & Hwf & _ & _ & Eh & _). assert (ty' = ty) as -> by congruence.
  pose proof (vals_fst _ _ _ _ _ _ _ Ht Hi) as Hf. pose proof (obj_good _ _ _ _ _ _ _ Ht Hi) as [Hg _]. pose proof (needs_nonneg _ Hg).
  pose proof (message_bound ty _ Hwf Hf Hg) as Hm. rewrite elem_of_obj, Eh in Hsz. cbn [size_of] in Hsz. set (m := message (vals_of (types sp) i fs)) in *.
  destruct (sproto_encode_ok (SprotoLua.encode (types sp) 65) ty (vals_of (types sp) i fs) (ubuf s) _ _ Hwf Hf Hg Hs) as (buf & E & [Lb _] & P); [lia|done|].
  fold m in E, P.
  assert (with_ud (EncodeUd None 0 2 0 3) (sproto_encode (SprotoLua.encode (types sp) 65) ty (ubuf s)) (set_stk s' [LType p i; LTab t; LNil]) =
    eret (buf, zlen m, EncodeUd tg ai 2 0 3, set_stk s' ([LType p i; LTab t; LNil] ++ rest))) as Ew.
  { unfold with_ud. change (EncodeUd None 0 2 0 3, set_stk s' [LType p i; LTab t; LNil]) with (est s' [LType p i] t 0 None 0 LNil []). by rewrite E. }
  change (ubuf s') with (ubuf s). lstep ltac:(exact Ew). lstep ltac:(reflexivity).
  rewrite (proj2 (Z.ltb_ge _ _)) by lia. change (set_ubuf (set_stk s' ([LType p i; LTab t; LNil] ++ rest)) buf) with (set_stk (set_ubuf s' buf) ([LType p i; LTab t; LNil] ++ rest)).
  lstep ltac:(apply push_eq; cbn [room set_ubuf]; slen).
  eexists _, ([LType p i; LTab t; LNil] ++ rest). split_and!; [reflexivity| |done|done|done]. cbn [stk set_stk]. repeat f_equal.
  rewrite Nat2Z.id. unfold piece, slice in P. by rewrite Nat2Z.id in P.
Qed.
