(* ===== verification/SprotoLuaRead.v ===== *)
(** * The Lua functions of sproto: decoding, and the round trip

    Values are built on a heap that only grows: a value that is finished
    lives in the tables allocated since it was begun ([own]), so it stays what
    it is while the tables around it are filled. *)

From S2P Require Import Prelude Buffer Sproto SprotoOk SprotoSchema SprotoLua SprotoLuaOk.

#[local] Open Scope eff_scope.

(** ** Tables *)

Lemma tfind_none tb k : k ∉ map fst tb -> tfind tb k = None.
Proof.
  intros Hk. apply list_find_None, Forall_forall. intros [k' v] Hin E. apply Hk. cbn [fst] in E. subst k'.
  apply list_elem_of_fmap. by exists (k, v).
Qed.

Lemma tset_fresh tb k v : k ∉ map fst tb -> v <> LNil -> tset tb k v = tb ++ [(k, v)].
Proof. intros Hk Hv. unfold tset. rewrite tfind_none by done. by destruct v. Qed.

Lemma tget_key tb k : tget tb k = match list_find (fun p => p.1 = k) tb with Some (_, (_, v)) => v | None => LNil end.
Proof. done. Qed.

Lemma tget_cons k' v tb k : tget ((k', v) :: tb) k = if decide (k' = k) then v else tget tb k.
Proof.
  unfold tget, tfind. cbn [list_find fst]. destruct (decide (k' = k)); [done|]. by destruct (list_find _ tb) as [[j [w z]]|].
Qed.

Lemma tget_tset tb k v k' : v <> LNil -> tget (tset tb k v) k' = if decide (k = k') then v else tget tb k'.
Proof.
  intros Hv. assert (tset tb k v = match tfind tb k with Some (i, _) => <[i := (k, v)]> tb | None => tb ++ [(k, v)] end) as ->.
  { unfold tset. destruct (tfind tb k) as [[j p]|]; by destruct v. }
  induction tb as [|[j w] tb IH]; [change (tget [(k, v)] k' = if decide (k = k') then v else tget [] k'); by rewrite tget_cons|]. unfold tfind in *. cbn [list_find fst]. destruct (decide (j = k)) as [-> |Hj].
  - cbn [insert list_insert]. rewrite !tget_cons. by destruct (decide (k = k')).
  - assert (forall tb', tget tb' k' = (if decide (k = k') then v else tget tb k') ->
      tget ((j, w) :: tb') k' = if decide (k = k') then v else tget ((j, w) :: tb) k') as Hc.
    { intros tb' E. rewrite !tget_cons, E. destruct (decide (j = k')), (decide (k = k')); congruence. }
    destruct (list_find _ tb) as [[i p]|]; by apply Hc.
Qed.

(** ** Steps that change tables *)

(** The state with a stack and a heap. *)
Definition sh (s : lstate) (l : list lval) (h : list table) : lstate := set_stk (set_heap s h) l.

Section Heap.
Implicit Types (s : lstate) (l : list lval) (v : lval) (h : list table).

Lemma newtable_eq s l h : zlen l + 1 <= room s -> lua_newtable (sh s l h) = eret (tt, sh s (l ++ [LTab (length h)]) (h ++ [[]])).
Proof.
  intros Hl. unfold lua_newtable. change (set_heap (sh s l h) (heap (sh s l h) ++ [[]])) with (set_stk (set_heap s (h ++ [[]])) l).
  change (heap (sh s l h)) with h. by apply push_eq.
Qed.

Lemma table_set_eq s l h t tb k v : h !! t = Some tb -> table_set t k v (sh s l h) = eret (tt, sh s l (<[t := tset tb k v]> h)).
Proof. intros Ht. unfold table_set. cbn [heap sh set_stk set_heap]. by rewrite Ht. Qed.

Lemma aget_app l l' i v : 0 < i -> aget l (i - 1) = Some v -> aget (l ++ l') (i - 1) = Some v.
Proof. intros Hi. unfold aget. case_match; [|done]. intros Hv. by apply lookup_app_l_Some. Qed.

Lemma set_top_eq s l h i t tb k v : 0 < i -> aget l (i - 1) = Some (LTab t) -> h !! t = Some tb -> zlen l <= room s ->
  set_top i k (sh s (l ++ [v]) h) = eret (tt, sh s l (<[t := tset tb k v]> h)).
Proof.
  intros Hi Ht Hb Hl. unfold set_top, sh. lstep ltac:(apply table_eq; [done|by apply aget_app]). lstep ltac:(apply top_eq).
  lstep ltac:(by apply pop_eq). by apply table_set_eq.
Qed.

Lemma settable_eq s l h i t tb k v : 0 < i -> aget l (i - 1) = Some (LTab t) -> h !! t = Some tb -> zlen l <= room s -> k <> LNil ->
  lua_settable i (sh s (l ++ [k; v]) h) = eret (tt, sh s l (<[t := tset tb k v]> h)).
Proof.
  intros Hi Ht Hb Hl Hk. unfold lua_settable, sh. lstep ltac:(apply table_eq; [done|by apply aget_app]). lstep ltac:(apply below_eq).
  replace (l ++ [k; v]) with ((l ++ [k]) ++ [v]) by (by rewrite <- app_assoc). lstep ltac:(apply top_eq).
  rewrite <- app_assoc. cbn [app]. lstep ltac:(by apply pop_eq). destruct k; [done|..]; by apply table_set_eq.
Qed.

End Heap.

(** ** Values on a heap that grows *)

Section Grow.
Context (tys : list sproto_type).

Lemma array_rep_impl (R R' : tree -> lval -> Prop) x vs ta : (forall v l, R v l -> R' v l) -> array_rep tys R x vs ta -> array_rep tys R' x vs ta.
Proof.
  intros HR. unfold array_rep. case_match.
  - intros H2. eapply Forall2_impl; [exact H2|]. intros v p [? ?]. auto.
  - intros [H1 H2]. split; [|done]. auto.
Qed.

Lemma field_rep_app R R' h h' x o l : (forall v l, R v l -> R' v l) -> field_rep tys R h x o l -> field_rep tys R' (h ++ h') x o l.
Proof.
  intros HR. destruct o as [[v|vs]|]; cbn [field_rep]; [by apply HR| |done].
  intros [?|(a & ta & -> & Ha & Harr)]; [by left|]. right. exists a, ta. split_and!; [done|by apply lookup_app_l_Some|by eapply array_rep_impl].
Qed.

Lemma rep_app n : forall h h' v l, rep tys n h v l -> rep tys n (h ++ h') v l.
Proof.
  induction n as [|n IH]; intros h h' [z|b|s|i fs] l; try done. intros (t & tb & -> & Ht & H). exists t, tb.
  split_and!; [done|by apply lookup_app_l_Some|]. eapply Forall2_impl; [exact H|]. intros x o Hx. eapply field_rep_app; [|exact Hx]. intros. by apply IH.
Qed.

(** A value that lives in [new], whatever the [N] tables before it are. *)
Definition own (n N : nat) (new : list table) (v : tree) (l : lval) : Prop := forall P, length P = N -> rep tys n (P ++ new) v l.
Definition own_field (n N : nat) (new : list table) (x : field) (o : option (tree + list tree)) (l : lval) : Prop :=
  forall P, length P = N -> field_rep tys (rep tys n (P ++ new)) (P ++ new) x o l.

Lemma own_app n N new new' v l : own n N new v l -> own n N (new ++ new') v l.
Proof. intros Ho P HP. rewrite app_assoc. by apply rep_app, Ho. Qed.

Lemma own_before n N pre new v l : own n (N + length pre) new v l -> own n N (pre ++ new) v l.
Proof. intros Ho P HP. rewrite app_assoc. apply Ho. rewrite length_app. lia. Qed.

Lemma own_field_app n N new new' x o l : own_field n N new x o l -> own_field n N (new ++ new') x o l.
Proof. intros Ho P HP. rewrite app_assoc. eapply field_rep_app; [|by apply Ho]. intros. by apply rep_app. Qed.

Lemma own_field_before n N pre new x o l : own_field n (N + length pre) new x o l -> own_field n N (pre ++ new) x o l.
Proof. intros Ho P HP. rewrite app_assoc. apply Ho. rewrite length_app. lia. Qed.

(** An array whose elements live behind its table. *)
Lemma own_array n N ta new x vs : array_rep tys (fun v l => own n (S N) new v l) x vs ta -> own_field n N (ta :: new) x (Some (inr vs)) (LTab N).
Proof.
  intros Harr P HP. right. exists N, ta. split_and!; [done|by rewrite lookup_app_r, HP, Nat.sub_diag by lia|].
  eapply array_rep_impl; [|exact Harr]. intros v l Ho. replace (P ++ ta :: new) with ((P ++ [ta]) ++ new) by (by rewrite <- app_assoc).
  apply Ho. rewrite length_app. cbn [length]. lia.
Qed.

Lemma rep_not_nil n h v l : rep tys n h v l -> l <> LNil.
Proof. destruct n, v as [| | |i fs]; cbn [rep]; try (by intros ->); [done|]. by intros (t & tb & -> & _). Qed.

End Grow.

(** ** The callback of the decoder *)

Section DecodeCallback.
Context {LL : Lua} (tys : list sproto_type) (s : lstate).
Notation decode := (decode tys).
Notation decode_value := (decode_value tys).

(** The state of [decode] for the result [r] on the heap, above the stack [B]:
    the slot of a key, the slot of an array. *)
Definition dst (B : list lval) (r : nat) (d mi ki : Z) (tg : option Z) (ai : Z) (l : list lval) (h : list table) : decode_ud * lstate :=
  (DecodeUd tg ai (zlen B + 1) d mi ki, sh s (B ++ LTab r :: l) h).

(** Tables of at most [n] levels are decoded. *)
Definition obj_dok (n : nat) : Prop := forall fuel i fs B mi ki ks d h,
  typed tys n SPROTO_TSTRUCT (Some i) (TObj i fs) -> (n <= fuel)%nat -> 0 <= d -> d + Z.of_nat n <= 64 -> zlen B + 3 * Z.of_nat n + 2 <= room s ->
  size_of (elem_of tys (TObj i fs)) < 2 ^ 31 -> mi < 0 /\ ks = [] \/ 0 <= mi /\ ki = zlen B + 2 /\ ks = [LNil] ->
  exists tg ai ks' ar tb new,
    takes (decode fuel) (events (vals_of tys i fs)) (dst B (length h) d mi ki None 0 ks (h ++ [[]])) (dst B (length h) d mi ki tg ai (ks' ++ ar) (h ++ tb :: new)) /\
    own tys n (length h) (tb :: new) (TObj i fs) (LTab (length h)) /\ (0 <= mi -> forall k, main_key tys mi (TObj i fs) = Some k -> ks' = [k]) /\ zlen ar <= 1.

(** The message of an object through [sproto_decode]. *)
Lemma obj_message n fuel i fs ty B mi ki ks d h : obj_dok n -> typed tys n SPROTO_TSTRUCT (Some i) (TObj i fs) -> tys !! i = Some ty ->
  (n <= fuel)%nat -> 0 <= d -> d + Z.of_nat n <= 64 -> zlen B + 3 * Z.of_nat n + 2 <= room s ->
  size_of (elem_of tys (TObj i fs)) < 2 ^ 31 -> mi < 0 /\ ks = [] \/ 0 <= mi /\ ki = zlen B + 2 /\ ks = [LNil] ->
  exists tg ai ks' ar tb new, let m := message (vals_of tys i fs) in
    with_ud (DecodeUd None 0 (zlen B + 1) d mi ki) (sproto_decode (decode fuel) ty m) (sh s (B ++ LTab (length h) :: ks) (h ++ [[]])) =
      eret (zlen m, DecodeUd tg ai (zlen B + 1) d mi ki, sh s (B ++ LTab (length h) :: ks' ++ ar) (h ++ tb :: new)) /\
    own tys n (length h) (tb :: new) (TObj i fs) (LTab (length h)) /\ (0 <= mi -> forall k, main_key tys mi (TObj i fs) = Some k -> ks' = [k]) /\ zlen ar <= 1.
Proof.
  intros IH Ht Hi Hf Hd Hd2 Hr Hsz Hks. destruct (IH fuel i fs B mi ki ks d h Ht Hf Hd Hd2 Hr Hsz Hks) as (tg & ai & ks' & ar & tb & new & Htk & Ho & Hk & Har).
  destruct (obj_typed _ _ _ _ _ _ Ht) as (n' & ty' & _ & _ & _ & Hi' & Hwf & _ & _ & Eh & _). assert (ty' = ty) as -> by congruence.
  pose proof (vals_fst _ _ _ _ _ _ _ Ht Hi) as Hfst. destruct (obj_good _ _ _ _ _ _ _ Ht Hi) as [Hg Hkn].
  pose proof (message_bound ty _ Hwf Hfst Hg). rewrite elem_of_obj in Hsz. cbn [size_of] in Hsz.
  exists tg, ai, ks', ar, tb, new. split_and!; [|done|done|done]. unfold with_ud.
  change (DecodeUd None 0 (zlen B + 1) d mi ki, sh s (B ++ LTab (length h) :: ks) (h ++ [[]])) with (dst B (length h) d mi ki None 0 ks (h ++ [[]])).
  rewrite (sproto_decode_ok (decode fuel) ty _ _ (dst B (length h) d mi ki tg ai (ks' ++ ar) (h ++ tb :: new)) Hkn); [done|rewrite Hfst; apply Hwf|lia|done].
Qed.

(** A value comes on top of the stack, or goes into a table under its key. *)
Lemma value_pushes n fuel self l h v x t i : obj_dok n -> typed tys n t (st x) v -> (n <= fuel)%nat -> key x < 0 ->
  0 <= d_deep self -> d_deep self + 1 + Z.of_nat n <= 64 -> zlen l + 3 * Z.of_nat n + 2 <= room s -> size_of (elem_of tys v) < 2 ^ 31 ->
  exists lv new, decode_value (decode fuel) (elem_event x t i (elem_of tys v)) (self, sh s l h) =
      decode_store (elem_event x t i (elem_of tys v)) (self, sh s (l ++ [lv]) (h ++ new)) /\
    own tys n (length h) new v lv /\ (forall k, scalar v = Some k -> lv = k).
Proof.
  intros IH Ht Hf Hk Hd Hd2 Hr Hsz.
  assert (forall lv A (k : unit -> seff (decode_ud * lstate) A), (let+ x := on_lua (lua_push lv) in k x) (self, sh s l h) = k tt (self, sh s (l ++ [lv]) h)) as Epush.
  { intros lv A k. unfold sh. lstep ltac:(apply on_lua_eq, push_eq; cbn [room set_heap]; lia). done. }
  destruct v as [z|b|str|k fs].
  - assert (t = SPROTO_TINTEGER /\ - 2 ^ 63 <= z < 2 ^ 63) as [-> Hz] by (destruct n; done). exists (LInt z), []. rewrite app_nil_r.
    split_and!; [|by destruct n|by intros k [= <-]]. unfold SprotoLua.decode_value. cbn [elem_of elem_event]. pick. cbn [value arg_of]. rewrite union_large. unfold slift. unfold sbind at 1. cbn [eret].
    by rewrite Epush, i64_wrap.
  - assert (t = SPROTO_TBOOLEAN) as -> by (by destruct n). exists (LBool b), []. rewrite app_nil_r.
    split_and!; [|by destruct n|by intros k [= <-]]. unfold SprotoLua.decode_value. cbn [elem_of elem_event]. pick. cbn [value arg_of]. rewrite union_large. unfold slift. unfold sbind at 1. cbn [eret].
    rewrite Epush. by destruct b.
  - assert (t = SPROTO_TSTRING) as -> by (by destruct n). exists (LStr str), []. rewrite app_nil_r.
    split_and!; [|by destruct n|by intros k [= <-]]. unfold SprotoLua.decode_value. cbn [elem_of elem_event]. pick. cbn [value arg_of]. by rewrite Epush.
  - destruct (obj_typed _ _ _ _ _ _ Ht) as (n' & ty & En & -> & Hst & Hi & Hwf & _). pose proof Ht as Ht'. rewrite Hst in Ht'.
    destruct (obj_message n fuel k fs ty l (-1) 0 [] (d_deep self + 1) h IH Ht' Hi Hf) as (tg & ai & ks' & ar & tb & new & E & Ho & _); [lia|lia|lia|done|left; done|].
    exists (LTab (length h)), (tb :: new). split_and!; [|done|done]. rewrite elem_of_obj in *. cbn [elem_event]. unfold SprotoLua.decode_value. pick. unfold decode_struct.
    lstep ltac:(reflexivity). lstep ltac:(apply on_lua_eq, newtable_eq; lia). unfold subtype_of, slift. cbn [subtype arg_of]. rewrite Hst. cbn [mbind option_bind]. rewrite Hi.
    unfold sbind at 1. cbn [eret mainindex value length_ arg_of]. rewrite Z.geb_leb, (proj2 (Z.leb_gt _ _)) by lia. lstep ltac:(apply on_lua_eq, gettop_eq).
    cbn [fst]. replace (zlen (l ++ [LTab (length h)])) with (zlen l + 1) by slen. lstep ltac:(apply on_lua_eq, E).
    rewrite Z.eqb_refl, (proj2 (Z.ltb_ge _ _)) by lia. cbn [orb negb].
    replace (zlen l + 1) with (zlen (l ++ [LTab (length h)])) by slen.
    change (l ++ LTab (length h) :: ks' ++ ar) with (l ++ [LTab (length h)] ++ ks' ++ ar). rewrite app_assoc. unfold sh.
    lstep ltac:(apply on_lua_eq, settop_eq; cbn [room set_heap]; slen). done.
Qed.

Lemma insert_middle {A} (l1 : list A) x y l2 i : i = length l1 -> <[i := y]> (l1 ++ x :: l2) = l1 ++ y :: l2.
Proof. intros ->. by rewrite insert_app_r_alt, Nat.sub_diag by lia. Qed.

Lemma lookup_middle {A} (l1 : list A) x l2 i : i = length l1 -> (l1 ++ x :: l2) !! i = Some x.
Proof. intros ->. by apply list_lookup_middle. Qed.

(** Whether there is a slot for an array. *)
Definition aslot_ok (B ks : list lval) (ai : Z) (ar : list lval) : Prop :=
  ai = 0 /\ ar = [] \/ ai = zlen B + zlen ks + 2 /\ exists w, ar = [w].

Lemma aslot_len B ks ai ar : aslot_ok B ks ai ar -> zlen ar <= 1.
Proof. intros [[_ ->]|[_ [w ->]]]; done. Qed.

Lemma decode_new_eq B h tb new d mi ki tg ai ks ar args : aslot_ok B ks ai ar -> tg <> Some (tagid args) -> zlen B + zlen ks + 4 <= room s ->
  decode_new_array args (dst B (length h) d mi ki tg ai (ks ++ ar) (h ++ tb :: new)) =
    eret (tt, dst B (length h) d mi ki (Some (tagid args)) (zlen B + zlen ks + 2) (ks ++ [LTab (length (h ++ tb :: new))])
                ((h ++ tset tb (name_key (tagname args)) (LTab (length (h ++ tb :: new))) :: new) ++ [[]])).
Proof.
  intros Ha Hne Hr. pose proof (aslot_len _ _ _ _ Ha) as Hl. unfold decode_new_array, dst. lstep ltac:(reflexivity). cbn [fst d_array_tag].
  rewrite bool_decide_false by done. lstep ltac:(apply on_lua_eq, newtable_eq; slen). set (A := length (h ++ tb :: new)) in *.
  lstep ltac:(apply on_lua_eq; unfold lua_pushvalue, sh; lstep ltac:(apply top_eq); apply push_eq; cbn [room set_heap]; slen). cbn [result_index].
  lstep ltac:(apply on_lua_eq; apply (set_top_eq s _ _ _ (length h) tb); [lia|apply aget_app; [lia|]| |slen]).
  2: { replace (zlen B + 1 - 1) with (zlen B) by lia. by rewrite aget_nat, list_lookup_middle. }
  2: { rewrite <- app_assoc. by apply list_lookup_middle. }
  assert (<[length h := tset tb (name_key (tagname args)) (LTab A)]> ((h ++ tb :: new) ++ [[]]) = (h ++ tset tb (name_key (tagname args)) (LTab A) :: new) ++ [[]]) as ->.
  { rewrite <- !app_assoc. cbn [app]. by apply insert_middle. }
  cbn [d_array_index]. destruct Ha as [[-> ->]|[-> [w ->]]].
  - cbn [Z.eqb negb]. unfold sh. lstep ltac:(apply on_lua_eq, gettop_eq). unfold put_self. cbn [snd d_deep mainindex_tag key_index].
    rewrite app_nil_r, <- app_assoc. cbn [app]. rewrite length_app. cbn [length]. rewrite length_app. cbn [length].
    by replace (Z.of_nat (length B + S (length ks + 1))) with (zlen B + zlen ks + 2) by lia.
  - rewrite (proj2 (Z.eqb_neq _ _)) by lia. cbn [negb].
    set (h2 := (h ++ _ :: new) ++ _). assert (lua_replace (zlen B + zlen ks + 2) (sh s ((B ++ LTab (length h) :: ks ++ [w]) ++ [LTab A]) h2) =
      eret (tt, sh s (B ++ LTab (length h) :: ks ++ [LTab A]) h2)) as R.
    { pose proof (replace_eq (set_heap s h2) (B ++ LTab (length h) :: ks) w [] (LTab A) (zlen B + zlen ks + 2)) as R. cbn [app] in R.
      repeat (rewrite <- app_assoc in R; cbn [app] in R). repeat (rewrite <- app_assoc; cbn [app]). apply R; [slen|cbn [room set_heap]; slen]. }
    lstep ltac:(apply on_lua_eq, R). done.
Qed.

(** The state while the array at the end of [h] is filled. *)
Definition filling (B : list lval) (r : nat) (d mi ki tg : Z) (ks : list lval) (h : list table) (ta : table) (new : list table) : decode_ud * lstate :=
  dst B r d mi ki (Some tg) (zlen B + zlen ks + 2) (ks ++ [LTab (length h)]) (h ++ ta :: new).

Lemma filling_slot B r ks a : aget (B ++ LTab r :: ks ++ [LTab a]) (zlen B + zlen ks + 2 - 1) = Some (LTab a).
Proof.
  change (LTab r :: ks ++ [LTab a]) with ((LTab r :: ks) ++ [LTab a]). rewrite app_assoc.
  replace (zlen B + zlen ks + 2 - 1) with (zlen (B ++ LTab r :: ks)) by slen. by rewrite aget_nat, list_lookup_middle.
Qed.

Lemma decode_filling fuel B r d mi ki tg ks h ta new args : d < 64 -> tagid args = tg ->
  decode (S fuel) args (filling B r d mi ki tg ks h ta new) = decode_value (decode fuel) args (filling B r d mi ki tg ks h ta new).
Proof.
  intros Hd <-. cbn [SprotoLua.decode]. lstep ltac:(reflexivity). cbn [fst filling dst d_deep]. change ENCODE_DEEPLEVEL with 64. rewrite Z.geb_leb, (proj2 (Z.leb_gt _ _)) by lia.
  erewrite sbind_eq; [reflexivity|]. destruct (index args >? 0); [|done]. unfold decode_new_array. lstep ltac:(reflexivity). cbn [fst d_array_tag]. by rewrite bool_decide_true.
Qed.

Lemma elem_event_tag x t i e : tagid (elem_event x t i e) = tag x /\ tagname (elem_event x t i e) = fname x /\ index (elem_event x t i e) = i.
Proof. by destruct e. Qed.

Lemma index_takes n fuel B r d mi ki ks h x t : obj_dok n -> (n <= fuel)%nat -> key x < 0 -> 0 <= d -> d + 1 + Z.of_nat n <= 64 ->
  zlen ks <= 1 -> zlen B + 3 * Z.of_nat n + 5 <= room s ->
  forall vs j ta new, 0 < j -> Forall (typed tys n t (st x)) vs -> Forall (fun v => size_of (elem_of tys v) < 2 ^ 31) vs ->
  exists ta' new', takes (decode (S fuel)) (elem_events x t j (map (elem_of tys) vs)) (filling B r d mi ki (tag x) ks h ta new) (filling B r d mi ki (tag x) ks h ta' (new ++ new')) /\
    (forall (i : nat) v, vs !! i = Some v -> own tys n (S (length h)) (new ++ new') v (tget ta' (LInt (j + Z.of_nat i)))) /\
    (forall k, (forall i, (i < length vs)%nat -> k <> LInt (j + Z.of_nat i)) -> tget ta' k = tget ta k).
Proof.
  intros IH Hf Hk Hd Hd2 Hks Hr. induction vs as [|v vs IHv]; intros j ta new Hj Ht Hsz.
  { exists ta, []. rewrite app_nil_r. cbn. split_and!; [done|by intros i v|done]. }
  apply Forall_cons in Ht as [Hv Ht]. apply Forall_cons in Hsz as [Hsv Hsz]. cbn [map elem_events takes].
  set (l := B ++ LTab r :: ks ++ [LTab (length h)]).
  destruct (value_pushes n fuel (filling B r d mi ki (tag x) ks h ta new).1 l (h ++ ta :: new) v x t j) as (lv & new1 & E & Ho & _);
    [done|done|done|done|cbn; lia|cbn; lia|subst l; slen|done|].
  assert (lv <> LNil) as Hlv by exact (rep_not_nil _ _ _ _ _ (Ho (h ++ ta :: new) eq_refl)).
  assert (own tys n (S (length h)) (new ++ new1) v lv) as Ho1.
  { apply own_before. rewrite length_app in Ho. cbn [length] in Ho. by replace (S (length h) + length new)%nat with (length h + S (length new))%nat by lia. }
  destruct (IHv (j + 1) (tset ta (LInt j) lv) (new ++ new1)) as (ta' & new2 & Htk & Hown & Hrest); [lia|done|done|]. rewrite <- app_assoc in Htk, Hown.
  exists ta', (new1 ++ new2). split_and!.
  - exists (filling B r d mi ki (tag x) ks h (tset ta (LInt j) lv) (new ++ new1)). split; [|done].
    rewrite decode_filling by (lia || apply elem_event_tag). change (filling B r d mi ki (tag x) ks h ta new) with ((filling B r d mi ki (tag x) ks h ta new).1, sh s l (h ++ ta :: new)).
    rewrite E. unfold decode_store. lstep ltac:(reflexivity). rewrite (proj2 (proj2 (elem_event_tag _ _ _ _))), Z.gtb_ltb, (proj2 (Z.ltb_lt _ _)) by lia.
    lstep ltac:(apply on_lua_eq; apply (set_top_eq s l _ _ (length h) ta); [cbn; lia|apply filling_slot|rewrite <- app_assoc; by apply list_lookup_middle|subst l; slen]).
    unfold sret, filling, dst. rewrite <- app_assoc. cbn [app]. by rewrite insert_middle.
  - intros [|i] w; cbn [lookup list_lookup]; [intros [= <-]|intros Hw].
    + rewrite Z.add_0_r, Hrest by (intros i _ [=]; lia). rewrite tget_tset by done. rewrite decide_True by done. rewrite app_assoc. by apply own_app.
    + replace (j + Z.of_nat (S i)) with (j + 1 + Z.of_nat i) by lia. by apply Hown.
  - intros k Hk'. rewrite Hrest.
    + rewrite tget_tset by done. rewrite decide_False; [done|]. intros <-. apply (Hk' 0%nat); [cbn; lia|]. by rewrite Z.add_0_r.
    + intros i Hi. replace (j + 1 + Z.of_nat i) with (j + Z.of_nat (S i)) by lia. apply Hk'. cbn. lia.
Qed.

(** A struct goes into a table under its main key. *)
Lemma keyed_push n fuel self l h a ta k v x i : obj_dok n -> typed tys n SPROTO_TSTRUCT (st x) v -> (n <= fuel)%nat -> 0 <= key x ->
  main_key tys (key x) v = Some k -> 0 <= d_deep self -> d_deep self + 1 + Z.of_nat n <= 64 -> zlen l + 3 * Z.of_nat n + 2 <= room s ->
  size_of (elem_of tys v) < 2 ^ 31 -> 0 < d_array_index self -> aget l (d_array_index self - 1) = Some (LTab a) -> h !! a = Some ta ->
  exists new, decode_value (decode fuel) (elem_event x SPROTO_TSTRUCT i (elem_of tys v)) (self, sh s l h) =
      eret (0, (self, sh s l (<[a := tset ta k (LTab (length h))]> (h ++ new)))) /\
    own tys n (length h) new v (LTab (length h)).
Proof.
  intros IH Ht Hf Hk Hkey Hd Hd2 Hr Hsz Hai Hal Hta. pose proof (main_key_some _ _ _ _ Hkey) as Hkn. destruct v as [| | |j fs]; [done..|].
  destruct (obj_typed _ _ _ _ _ _ Ht) as (n' & ty & En & _ & Hst & Hi & Hwf & _). pose proof Ht as Ht'. rewrite Hst in Ht'.
  destruct (obj_message n fuel j fs ty l (key x) (zlen l + 2) [LNil] (d_deep self + 1) h IH Ht' Hi Hf) as (tg & ai & ks' & ar & tb & new & E & Ho & Hmk & Har);
    [lia|lia|lia|done|right; done|]. rewrite (Hmk Hk k Hkey) in E. cbn [app] in E.
  exists (tb :: new). split; [|done]. rewrite elem_of_obj in *. cbn [elem_event]. unfold SprotoLua.decode_value. pick. unfold decode_struct.
  lstep ltac:(reflexivity). lstep ltac:(apply on_lua_eq, newtable_eq; lia). unfold subtype_of, slift. cbn [subtype arg_of]. rewrite Hst. cbn [mbind option_bind]. rewrite Hi.
  unfold sbind at 1. cbn [eret mainindex value length_ arg_of]. rewrite Z.geb_leb, (proj2 (Z.leb_le _ _)) by lia. unfold decode_keyed.
  lstep ltac:(reflexivity). lstep ltac:(apply on_lua_eq, gettop_eq). unfold sh in *. cbn [fst].
  lstep ltac:(apply on_lua_eq, push_eq; cbn [room set_heap]; slen). lstep ltac:(apply on_lua_eq, gettop_eq).
  replace (zlen ((l ++ [LTab (length h)]) ++ [LNil])) with (zlen l + 2) by slen. replace (zlen (l ++ [LTab (length h)])) with (zlen l + 1) by slen.
  replace ((l ++ [LTab (length h)]) ++ [LNil]) with (l ++ [LTab (length h); LNil]) by (by rewrite <- app_assoc).
  cbn [mainindex value length_ arg_of]. lstep ltac:(apply on_lua_eq, E). rewrite Z.eqb_refl, (proj2 (Z.ltb_ge _ _)) by lia. cbn [orb negb key_index result_index].
  set (l2 := l ++ LTab (length h) :: k :: ar) in *.
  assert (aget l2 (zlen l + 2 - 1) = Some k) as E1.
  { unfold l2. change (LTab (length h) :: k :: ar) with ([LTab (length h)] ++ k :: ar). rewrite app_assoc.
    replace (zlen l + 2 - 1) with (zlen (l ++ [LTab (length h)])) by slen. by rewrite aget_nat, list_lookup_middle. }
  lstep ltac:(apply on_lua_eq; apply (pushvalue_eq _ _ _ k); [lia|exact E1|subst l2; cbn [room set_heap]; slen]).
  lstep ltac:(apply on_lua_eq, top_eq).
  assert (forall A (p : unit -> seff (decode_ud * lstate) A), (let+ x := on_lua (lua_pushvalue (zlen l + 1)) in p x) (self, set_stk (set_heap s (h ++ tb :: new)) (l2 ++ [k])) =
    p tt (self, set_stk (set_heap s (h ++ tb :: new)) ((l2 ++ [k]) ++ [LTab (length h)]))) as Epush.
  { intros A p. lstep ltac:(apply on_lua_eq; apply (pushvalue_eq _ _ _ (LTab (length h)));
      [lia|apply aget_app; [lia|]; replace (zlen l + 1 - 1) with (zlen l) by lia; subst l2; by rewrite aget_nat, list_lookup_middle|subst l2; cbn [room set_heap]; slen]). done. }
  assert (aget l2 (d_array_index self - 1) = Some (LTab a)) as Hal2 by (by apply aget_app).
  assert ((h ++ tb :: new) !! a = Some ta) as Hta2 by (by apply lookup_app_l_Some).
  assert (forall A (p : unit -> seff (decode_ud * lstate) A), (let+ x := on_lua (lua_settable (d_array_index self)) in p x) (self, set_stk (set_heap s (h ++ tb :: new)) ((l2 ++ [k]) ++ [LTab (length h)])) =
    p tt (self, sh s l2 (<[a := tset ta k (LTab (length h))]> (h ++ tb :: new)))) as Eset.
  { intros A p. rewrite <- app_assoc. cbn [app]. lstep ltac:(apply on_lua_eq; apply (settable_eq s l2 _ _ a ta); [done|done|done|subst l2; slen|done]). done. }
  assert (forall A (p : unit -> seff (decode_ud * lstate) A) h', (let+ x := on_lua (lua_settop (zlen l + 1 - 1)) in p x) (self, sh s l2 h') = p tt (self, sh s l h')) as Etop.
  { intros A p h'. replace (zlen l + 1 - 1) with (zlen l) by lia. unfold sh, l2. lstep ltac:(apply on_lua_eq, settop_eq; cbn [room set_heap]; lia). done. }
  destruct k; [done|..]; by rewrite Epush, Eset, Etop.
Qed.

Lemma keyed_takes n fuel B r d mi ki ks h x : obj_dok n -> (n <= fuel)%nat -> 0 <= key x -> 0 <= d -> d + 1 + Z.of_nat n <= 64 ->
  zlen ks <= 1 -> zlen B + 3 * Z.of_nat n + 5 <= room s ->
  forall vs j (ta : table) new ks0, 0 < j -> Forall (typed tys n SPROTO_TSTRUCT (st x)) vs -> Forall (fun v => size_of (elem_of tys v) < 2 ^ 31) vs ->
  map (main_key tys (key x)) vs = map Some ks0 -> NoDup (map fst ta ++ ks0) ->
  exists ents new', takes (decode (S fuel)) (elem_events x SPROTO_TSTRUCT j (map (elem_of tys) vs)) (filling B r d mi ki (tag x) ks h ta new) (filling B r d mi ki (tag x) ks h (ta ++ ents) (new ++ new')) /\
    Forall2 (fun v p => own tys n (S (length h)) (new ++ new') v p.2 /\ main_key tys (key x) v = Some p.1) vs ents.
Proof.
  intros IH Hf Hk Hd Hd2 Hks Hr. induction vs as [|v vs IHv]; intros j ta new ks0 Hj Ht Hsz Ekeys Hnd.
  { exists [], []. rewrite !app_nil_r. cbn. split; [done|constructor]. }
  destruct ks0 as [|k ks0]; [done|]. cbn [map] in Ekeys. injection Ekeys as Ek Ekeys.
  apply Forall_cons in Ht as [Hv Ht]. apply Forall_cons in Hsz as [Hsv Hsz]. cbn [map elem_events takes].
  set (l := B ++ LTab r :: ks ++ [LTab (length h)]).
  destruct (keyed_push n fuel (filling B r d mi ki (tag x) ks h ta new).1 l (h ++ ta :: new) (length h) ta k v x j) as (new1 & E & Ho);
    [done|done|done|done|done|cbn; lia|cbn; lia|subst l; slen|done|cbn; lia|apply filling_slot|by apply list_lookup_middle|].
  set (lv := LTab (length (h ++ ta :: new))) in *.
  assert (own tys n (S (length h)) (new ++ new1) v lv) as Ho1.
  { apply own_before. rewrite length_app in Ho. cbn [length] in Ho. by replace (S (length h) + length new)%nat with (length h + S (length new))%nat by lia. }
  destruct (IHv (j + 1) (ta ++ [(k, lv)]) (new ++ new1) ks0) as (ents & new2 & Htk & Hown); [lia|done|done|done| |].
  { rewrite map_app, <- app_assoc. done. }
  rewrite <- !app_assoc in Htk. rewrite <- app_assoc in Hown. cbn [app] in Htk. exists ((k, lv) :: ents), (new1 ++ new2). split.
  - exists (filling B r d mi ki (tag x) ks h (ta ++ [(k, lv)]) (new ++ new1)). split; [|done].
    rewrite decode_filling by (lia || apply elem_event_tag). change (filling B r d mi ki (tag x) ks h ta new) with ((filling B r d mi ki (tag x) ks h ta new).1, sh s l (h ++ ta :: new)).
    rewrite E. unfold filling, dst. rewrite <- app_assoc. cbn [app fst]. rewrite insert_middle by done. rewrite tset_fresh; [done| |done].
    apply NoDup_app in Hnd as (_ & Hnd & _). intros Hin. apply (Hnd k Hin). by left.
  - constructor; [|done]. split; [|done]. cbn [snd]. rewrite app_assoc. by apply own_app.
Qed.

(** The slot of the key. *)
Definition kslot_ok (B : list lval) (mi ki : Z) (ks : list lval) : Prop := mi < 0 /\ ks = [] \/ 0 <= mi /\ ki = zlen B + 2 /\ exists k, ks = [k].

Lemma kslot_len B mi ki ks : kslot_ok B mi ki ks -> zlen ks <= 1.
Proof. by intros [[_ ->]|(_ & _ & k & ->)]. Qed.

Lemma decode_first fuel B h tb new d mi ki tg ai ks ar args : d < 64 -> 0 < index args -> aslot_ok B ks ai ar -> tg <> Some (tagid args) -> zlen B + zlen ks + 4 <= room s ->
  let h' := h ++ tset tb (name_key (tagname args)) (LTab (length (h ++ tb :: new))) :: new in
  decode (S fuel) args (dst B (length h) d mi ki tg ai (ks ++ ar) (h ++ tb :: new)) = decode (S fuel) args (filling B (length h) d mi ki (tagid args) ks h' [] []).
Proof.
  intros Hd Hi Ha Hne Hr h'. rewrite decode_filling by done. cbn [SprotoLua.decode]. lstep ltac:(reflexivity). cbn [fst dst d_deep]. change ENCODE_DEEPLEVEL with 64.
  rewrite Z.geb_leb, (proj2 (Z.leb_gt _ _)), Z.gtb_ltb, (proj2 (Z.ltb_lt _ _)) by lia. lstep ltac:(by apply decode_new_eq). unfold filling. fold h'.
  replace (length h') with (length (h ++ tb :: new)) by (subst h'; by rewrite !length_app). done.
Qed.

(** What the elements of an array become. *)
Lemma array_takes n fuel B r d mi ki ks h x vs : obj_dok n -> (n <= fuel)%nat -> 0 <= d -> d + 1 + Z.of_nat n <= 64 ->
  zlen ks <= 1 -> zlen B + 3 * Z.of_nat n + 5 <= room s -> field_typed tys n x (Some (inr vs)) -> Forall (fun v => size_of (elem_of tys v) < 2 ^ 31) vs ->
  exists ta new, takes (decode (S fuel)) (elem_events x (base_type (type x)) 1 (map (elem_of tys) vs)) (filling B r d mi ki (tag x) ks h [] []) (filling B r d mi ki (tag x) ks h ta new) /\
    array_rep tys (fun v l => own tys n (S (length h)) new v l) x vs ta.
Proof.
  intros IH Hf Hd Hd2 Hks Hr (Hkey & _ & Ht & Hmk) Hsz. unfold array_rep. rewrite Z.geb_leb. destruct (Z.leb_spec 0 (key x)) as [Hk|Hk].
  - destruct (Hkey Hk) as [_ Hb]. rewrite Hb in *. destruct (Hmk Hk) as [Hsome Hnd].
    assert (exists ks0, map (main_key tys (key x)) vs = map Some ks0) as [ks0 Eks].
    { clear - Hsome. induction Hsome as [|v vs [k Ek] _ [ks0 E]]; [by exists []|]. exists (k :: ks0). cbn [map]. by rewrite Ek, E. }
    destruct (keyed_takes n fuel B r d mi ki ks h x IH Hf Hk Hd Hd2 Hks Hr vs 1 [] [] ks0) as (ents & new & Htk & Hown); [done|done|done|done| |].
    { cbn [map app]. rewrite Eks in Hnd. by apply (NoDup_fmap_1 Some) in Hnd. }
    by exists ents, new.
  - destruct (index_takes n fuel B r d mi ki ks h x (base_type (type x)) IH Hf Hk Hd Hd2 Hks Hr vs 1 [] []) as (ta & new & Htk & Hown & Hrest); [done|done|done|].
    exists ta, new. split; [done|]. split.
    + intros i v Hv. replace (Z.of_nat i + 1) with (1 + Z.of_nat i) by lia. by apply Hown.
    + rewrite Hrest; [done|]. intros i Hi [=]. lia.
Qed.

(** A single value goes into the result, and into the slot of the key. *)
Lemma store_single fuel B h tb new d mi ki tg ai ks ar x t e lv h2 : d < 64 -> 0 <= tag x -> kslot_ok B mi ki ks -> zlen ar <= 1 -> zlen B + 5 <= room s ->
  decode_value (decode fuel) (elem_event x t 0 e) (dst B (length h) d mi ki tg ai (ks ++ ar) (h ++ tb :: new)) =
    decode_store (elem_event x t 0 e) ((dst B (length h) d mi ki tg ai (ks ++ ar) (h ++ tb :: new)).1, sh s ((B ++ LTab (length h) :: ks ++ ar) ++ [lv]) ((h ++ tb :: new) ++ h2)) ->
  decode (S fuel) (elem_event x t 0 e) (dst B (length h) d mi ki tg ai (ks ++ ar) (h ++ tb :: new)) =
    eret (0, dst B (length h) d mi ki tg ai ((if mi =? tag x then [lv] else ks) ++ ar) (h ++ tset tb (name_key (fname x)) lv :: new ++ h2)).
Proof.
  intros Hd Ht Hks Har Hr E. pose proof (kslot_len _ _ _ _ Hks) as Hkl. destruct (elem_event_tag x t 0 e) as (Ea & Eb & Ec).
  cbn [SprotoLua.decode]. lstep ltac:(reflexivity). cbn [fst dst d_deep]. change ENCODE_DEEPLEVEL with 64. rewrite Z.geb_leb, (proj2 (Z.leb_gt _ _)), Ec by lia.
  change (0 >? 0) with false. cbv iota. lstep ltac:(reflexivity). rewrite E. unfold decode_store. lstep ltac:(reflexivity).
  rewrite Ea, Eb, Ec. change (0 >? 0) with false. cbv iota. cbn [dst fst mainindex_tag key_index result_index]. set (hh := (h ++ tb :: new) ++ h2).
  assert (<[length h := tset tb (name_key (fname x)) lv]> hh = h ++ tset tb (name_key (fname x)) lv :: new ++ h2) as Ehh.
  { subst hh. rewrite <- app_assoc. cbn [app]. by apply insert_middle. }
  assert (forall ks', zlen ks' <= 1 -> lua_setfield (zlen B + 1) (fname x) (sh s ((B ++ LTab (length h) :: ks' ++ ar) ++ [lv]) hh) =
    eret (tt, sh s (B ++ LTab (length h) :: ks' ++ ar) (h ++ tset tb (name_key (fname x)) lv :: new ++ h2))) as Eset.
  { intros ks' Hl. rewrite <- Ehh. apply (set_top_eq s _ _ _ (length h) tb); [lia| | |slen].
    - replace (zlen B + 1 - 1) with (zlen B) by lia. by rewrite aget_nat, list_lookup_middle.
    - subst hh. rewrite <- app_assoc. by apply list_lookup_middle. }
  destruct (Z.eqb_spec mi (tag x)) as [-> |Hne].
  - destruct Hks as [[? _]|(_ & -> & k0 & ->)]; [lia|].
    assert (lua_replace (zlen B + 2) (sh s (((B ++ LTab (length h) :: [k0] ++ ar) ++ [lv]) ++ [lv]) hh) = eret (tt, sh s ((B ++ LTab (length h) :: [lv] ++ ar) ++ [lv]) hh)) as R.
    { pose proof (replace_eq (set_heap s hh) (B ++ [LTab (length h)]) k0 (ar ++ [lv]) lv (zlen B + 2)) as R. cbn [app] in R.
      repeat (rewrite <- app_assoc in R; cbn [app] in R). repeat (rewrite <- app_assoc; cbn [app]). apply R; [slen|cbn [room set_heap]; slen]. }
    lstep ltac:(lstep ltac:(apply on_lua_eq; unfold lua_pushvalue, sh; lstep ltac:(apply top_eq); apply push_eq; cbn [room set_heap]; slen); apply on_lua_eq, R).
    lstep ltac:(apply on_lua_eq, (Eset [lv]); done). done.
  - lstep ltac:(reflexivity). lstep ltac:(by apply on_lua_eq, Eset). done.
Qed.

Definition single_key (o : option (tree + list tree)) : option lval := match o with Some (inl v) => scalar v | _ => None end.

(** A field is decoded: the state after it. *)
Definition stored (n fuel : nat) (B : list lval) (h : list table) (tb : table) (new : list table) (d mi ki : Z) (tg : option Z) (ai : Z) (ks ar : list lval)
    (x : field) (o : option (tree + list tree)) : Prop :=
  exists tg' ai' ks' ar' tb' new',
    takes (decode (S fuel)) (val_events x (val_of tys o)) (dst B (length h) d mi ki tg ai (ks ++ ar) (h ++ tb :: new)) (dst B (length h) d mi ki tg' ai' (ks' ++ ar') (h ++ tb' :: new ++ new')) /\
    aslot_ok B ks' ai' ar' /\ kslot_ok B mi ki ks' /\ (tg' = tg \/ tg' = Some (tag x)) /\
    own_field tys n (S (length h) + length new) new' x o (tget tb' (name_key (fname x))) /\
    (forall k, k <> name_key (fname x) -> tget tb' k = tget tb k) /\
    (tag x <> mi -> ks' = ks) /\ (tag x = mi -> forall k, single_key o = Some k -> ks' = [k]).

Lemma field_takes n fuel B h tb new d mi ki tg ai ks ar x o : obj_dok n -> (n <= fuel)%nat -> 0 <= d -> d + 1 + Z.of_nat n <= 64 ->
  zlen B + 3 * Z.of_nat n + 5 <= room s -> 0 <= tag x -> field_typed tys n x o -> Forall (fun v => size_of (elem_of tys v) < 2 ^ 31) (children o) ->
  aslot_ok B ks ai ar -> kslot_ok B mi ki ks -> tg <> Some (tag x) -> tget tb (name_key (fname x)) = LNil -> zlen B + 5 <= room s ->
  stored n fuel B h tb new d mi ki tg ai ks ar x o.
Proof.
  intros IH Hf Hd Hd2 Hr Htag Hty Hsz Ha Hks Hne Hfresh Hr6. pose proof (kslot_len _ _ _ _ Hks) as Hkl. pose proof (aslot_len _ _ _ _ Ha) as Hal.
  assert (val_events x (val_of tys o) = [] -> (forall P, field_rep tys (rep tys n P) P x o LNil) -> single_key o = None ->
    stored n fuel B h tb new d mi ki tg ai ks ar x o) as Hnone.
  { intros Ev Hrep Hsk. exists tg, ai, ks, ar, tb, []. rewrite Ev, app_nil_r, Hsk, Hfresh. split_and!; [done|done|done|by left| |done|done|done]. intros P _. apply Hrep. }
  destruct o as [[v|[|v vs]]|]; [|by apply Hnone; auto; left| |by apply Hnone].
  - destruct Hty as [Hkey [Hx Ht]]. assert (key x < 0) as Hk by (destruct (Z.ltb_spec (key x) 0) as [|Hk]; [done|]; destruct (Hkey Hk) as [Hx' _]; congruence).
    apply Forall_cons_1 in Hsz as [Hsv _]. set (l := B ++ LTab (length h) :: ks ++ ar).
    destruct (value_pushes n fuel (dst B (length h) d mi ki tg ai (ks ++ ar) (h ++ tb :: new)).1 l (h ++ tb :: new) v x (type x) 0) as (lv & new' & E & Ho & Hsc);
      [done|done|done|done|cbn; lia|cbn; lia|subst l; slen|done|].
    assert (lv <> LNil) as Hlv by exact (rep_not_nil _ _ _ _ _ (Ho (h ++ tb :: new) eq_refl)).
    exists tg, ai, (if mi =? tag x then [lv] else ks), ar, (tset tb (name_key (fname x)) lv), new'. cbn [val_of val_events takes]. split_and!.
    + eexists. split; [|done]. by apply store_single; [lia|done|done|done|done|].
    + destruct (Z.eqb_spec mi (tag x)) as [-> |]; [|done]. destruct Hks as [[? _]|(_ & _ & k0 & ->)]; [lia|done].
    + destruct (Z.eqb_spec mi (tag x)) as [-> |]; [|done]. destruct Hks as [[? _]|(H0 & E0 & k0 & ->)]; [lia|right; eauto].
    + by left.
    + intros P HP. cbn [field_rep]. rewrite tget_tset, decide_True by done. apply Ho. rewrite length_app. cbn [length]. lia.
    + intros k Hk'. rewrite tget_tset, decide_False by done. done.
    + intros Hmi. by rewrite (proj2 (Z.eqb_neq _ _)) by congruence.
    + intros <- k Hk'. rewrite Z.eqb_refl. by rewrite (Hsc k Hk').
  - set (ws := v :: vs) in *. set (h' := h ++ tset tb (name_key (fname x)) (LTab (length (h ++ tb :: new))) :: new).
    assert (length h' = S (length h) + length new)%nat as Lh by (subst h'; rewrite length_app; cbn [length]; lia).
    destruct (array_takes n fuel B (length h) d mi ki ks h' x ws) as (ta & new' & Htk & Harr); [done..|].
    exists (Some (tag x)), (zlen B + zlen ks + 2), ks, [LTab (length h')], (tset tb (name_key (fname x)) (LTab (length (h ++ tb :: new)))), (ta :: new').
    split_and!; [|right; by eauto|done|by right| | |done|done].
    + cbn [val_of val_events]. unfold filling in Htk. unfold h' in Htk at 4. rewrite <- app_assoc in Htk. cbn [app] in Htk.
      subst ws. cbn [map elem_events takes] in Htk |- *. destruct Htk as (u1 & E & Htk). exists u1. split; [|exact Htk].
      destruct (elem_event_tag x (base_type (type x)) 1 (elem_of tys v)) as (Ea & Eb & Ec).
      rewrite decode_first by (done || lia || by rewrite ?Ea, ?Ec). rewrite Ea, Eb. exact E.
    + replace (LTab (length (h ++ tb :: new))) with (LTab (length h')) by (f_equal; rewrite Lh, length_app; cbn [length]; lia).
      rewrite tget_tset, decide_True by done. rewrite <- Lh. by apply own_array.
    + intros k Hk'. rewrite tget_tset, decide_False by done. done.
Qed.

Definition find_key (mi : Z) (fs : list (field * option (tree + list tree))) : option lval :=
  match find (fun p => tag p.1 =? mi) fs with Some (_, o) => single_key o | None => None end.

Lemma name_key_inj n1 n2 : name_key n1 = name_key n2 -> n1 = n2.
Proof. intros [= E]. by apply ascii_inj. Qed.

Lemma fields_take n fuel B h d mi ki : obj_dok n -> (n <= fuel)%nat -> 0 <= d -> d + 1 + Z.of_nat n <= 64 ->
  zlen B + 3 * Z.of_nat n + 5 <= room s -> zlen B + 5 <= room s ->
  forall xs os last tg ai ks ar tb new, -1 <= last -> ascending xs last -> Forall2 (field_typed tys n) xs os ->
  Forall (fun o => Forall (fun v => size_of (elem_of tys v) < 2 ^ 31) (children o)) os ->
  aslot_ok B ks ai ar -> kslot_ok B mi ki ks -> (forall k, tg = Some k -> k <= last) -> NoDup (map fname xs) ->
  Forall (fun x => tget tb (name_key (fname x)) = LNil) xs ->
  exists tg' ai' ks' ar' tb' new',
    takes (decode (S fuel)) (events (zip xs (map (val_of tys) os))) (dst B (length h) d mi ki tg ai (ks ++ ar) (h ++ tb :: new)) (dst B (length h) d mi ki tg' ai' (ks' ++ ar') (h ++ tb' :: new ++ new')) /\
    zlen ar' <= 1 /\ Forall2 (fun x o => own_field tys n (S (length h) + length new) new' x o (tget tb' (name_key (fname x)))) xs os /\
    (forall k, Forall (fun x => k <> name_key (fname x)) xs -> tget tb' k = tget tb k) /\
    (mi <= last -> ks' = ks) /\ (forall k, find_key mi (zip xs os) = Some k -> ks' = [k]).
Proof.
  intros IH Hf Hd Hd2 Hr Hr6. induction xs as [|x xs IHx]; intros [|o os] last tg ai ks ar tb new Hlast Has Hty Hsz Ha Hks Htg Hnd Hfresh; try by apply Forall2_length in Hty.
  { exists tg, ai, ks, ar, tb, []. rewrite app_nil_r. cbn. split_and!; [done|by eapply aslot_len|constructor|done|done|done]. }
  apply Forall2_cons in Hty as [Htx Hty]. apply Forall_cons in Hsz as [Hsx Hsz]. apply Forall_cons in Hfresh as [Hfx Hfresh]. apply NoDup_cons in Hnd as [Hnx Hnd].
  destruct Has as [Hlx Has]. assert (tg <> Some (tag x)) as Hne by (intros E; specialize (Htg _ E); lia).
  destruct (field_takes n fuel B h tb new d mi ki tg ai ks ar x o) as (tg1 & ai1 & ks1 & ar1 & tb1 & new1 & Ht1 & Ha1 & Hk1 & Htg1 & Ho1 & Hget1 & Hsame1 & Hkey1); [done|done|done|done|done|lia|done..|].
  destruct (IHx os (tag x) tg1 ai1 ks1 ar1 tb1 (new ++ new1)) as (tg2 & ai2 & ks2 & ar2 & tb2 & new2 & Ht2 & Ha2 & Ho2 & Hget2 & Hsame2 & Hkey2); [lia|done|done|done|done|done| |done| |].
  { intros k Ek. destruct Htg1 as [-> | ->]; [specialize (Htg _ Ek); lia|]. by injection Ek as <-. }
  { rewrite Forall_forall in Hfresh |- *. intros y Hy. rewrite Hget1; [by apply Hfresh|]. intros E%name_key_inj. apply Hnx. rewrite <- E. by apply list_elem_of_fmap_2. }
  rewrite <- app_assoc in Ht2. exists tg2, ai2, ks2, ar2, tb2, (new1 ++ new2). split_and!; [| |constructor| | |].
  - cbn [map zip zip_with]. change (events ((x, val_of tys o) :: zip xs (map (val_of tys) os))) with (val_events x (val_of tys o) ++ events (zip xs (map (val_of tys) os))).
    apply takes_app. by eexists.
  - done.
  - rewrite Hget2; [by apply own_field_app|]. rewrite Forall_forall. intros y Hy E%name_key_inj. apply Hnx. rewrite E. by apply list_elem_of_fmap_2.
  - eapply Forall2_impl; [exact Ho2|]. intros y p Hy. apply own_field_before. rewrite length_app in Hy. by rewrite <- Nat.add_assoc.
  - intros k Hk'. apply Forall_cons in Hk' as [Hkx Hk']. rewrite Hget2 by done. by apply Hget1.
  - intros Hmi. rewrite Hsame2, Hsame1 by lia. done.
  - intros k Hk'. unfold find_key in Hk', Hkey2. cbn [zip zip_with find fst] in Hk'. destruct (Z.eqb_spec (tag x) mi) as [E|E].
    + rewrite Hsame2 by lia. by apply Hkey1.
    + by apply Hkey2.
Qed.

Lemma needs_elem fsv x v : Forall good fsv -> (x, v) ∈ fsv -> need v <= needs fsv.
Proof.
  induction 1 as [|[y w] l (Hy & _ & Hw) Hl IH]; [by intros ?%not_elem_of_nil|]. cbn [needs foldr snd]. fold (needs l).
  pose proof (need_nonneg y w Hy Hw) as Hn. cbn [snd] in *. pose proof (needs_nonneg l Hl). intros [[= <- <-]|Hin]%elem_of_cons; [lia|]. specialize (IH Hin). lia.
Qed.

Lemma size_need t e : elem_ok t e -> 0 <= size_of e /\ size_of e <= elem_need e.
Proof. destruct e as [z|b|l nd]; cbn; [lia..|]. intros [_ H]. lia. Qed.

Lemma obj_need_ge t l : Forall (elem_ok t) l -> 0 <= obj_need l /\ forall e, e ∈ l -> elem_need e <= obj_need l.
Proof.
  induction 1 as [|e l He _ [IH1 IH2]]; [split; [done|by intros e ?%not_elem_of_nil]|]. cbn [obj_need foldr]. fold (obj_need l).
  destruct (size_need t e He). split; [lia|]. intros e' [-> |He']%elem_of_cons; [lia|]. specialize (IH2 e' He'). lia.
Qed.

Lemma count_max_nonneg l last : 0 <= count_max l last.
Proof. revert last. induction l as [|x l IH]; intros last; cbn [count_max]; [lia|]. specialize (IH (tag x)). case_match; lia. Qed.

(** The parts of a message are not larger than it. *)
Lemma child_sizes n t sub i fs : typed tys n t sub (TObj i fs) -> size_of (elem_of tys (TObj i fs)) < 2 ^ 31 ->
  Forall (fun o => Forall (fun v => size_of (elem_of tys v) < 2 ^ 31) (children o)) fs.
Proof.
  intros Ht Hsz. destruct (obj_typed _ _ _ _ _ _ Ht) as (n' & ty & -> & _ & _ & Hi & Hwf & _ & Ef & Eh & El).
  pose proof (obj_good _ _ _ _ _ _ _ Ht Hi) as [Hg _]. rewrite elem_of_obj, Eh in Hsz. cbn [size_of] in Hsz.
  assert (0 <= maxn ty) as Hm by (rewrite (wf_maxn ty Hwf); apply count_max_nonneg).
  rewrite Forall_forall. intros o [j Hj]%list_elem_of_lookup.
  destruct (lookup_lt_is_Some_2 (fields_of tys i) j) as [x Hx]; [rewrite Ef, <- El; by eapply lookup_lt_Some|].
  assert ((x, val_of tys o) ∈ vals_of tys i fs) as Hin.
  { apply (list_elem_of_lookup_2 _ j). unfold vals_of. apply lookup_zip_with_Some. exists x, (val_of tys o). split_and!; [done|done|].
    apply list_lookup_fmap_Some. by exists o. }
  pose proof (needs_elem _ _ _ Hg Hin) as Hn. pose proof (proj1 (Forall_forall _ _) Hg _ Hin) as (_ & _ & Hv). cbn [fst snd] in Hv.
  rewrite Forall_forall. intros v Hv'. destruct o as [[w|ws]|]; cbn [val_of val_ok need children] in *; [| |by apply not_elem_of_nil in Hv'].
  - apply list_elem_of_singleton in Hv' as ->. destruct Hv as [_ Hv]. pose proof (size_need _ _ Hv). lia.
  - destruct Hv as [_ Hv]. destruct (obj_need_ge _ _ Hv) as [_ Hge]. specialize (Hge (elem_of tys v) (list_elem_of_fmap_2 _ _ _ Hv')).
    pose proof (size_need _ _ (proj1 (Forall_forall _ _) Hv _ (list_elem_of_fmap_2 _ _ _ Hv'))). lia.
Qed.

Lemma obj_decodes n : obj_dok n.
Proof.
  induction n as [|n IH]; intros fuel i fs B mi ki ks d h Ht Hf Hd Hd2 Hr Hsz Hks; [done|]. destruct fuel as [|fuel]; [lia|].
  destruct (obj_typed _ _ _ _ _ _ Ht) as (n' & ty & _ & _ & _ & Hi & Hwf & Hnd & Ef & _ & _).
  pose proof (typed_fields _ _ _ _ _ _ Ht) as Hty. rewrite Ef in Hty.
  destruct (fields_take n fuel B h d mi ki IH ltac:(lia) Hd ltac:(lia) ltac:(lia) ltac:(lia) (f ty) fs (-1) None 0 ks [] [] []) as (tg & ai & ks' & ar & tb & new & Htk & Har & Ho & _ & _ & Hkey);
    [lia|apply Hwf|done|by eapply child_sizes|by left| |done|done| |].
  - destruct Hks as [?|(? & ? & ->)]; [by left|right; eauto].
  - by apply Forall_true.
  - rewrite app_nil_r in Htk. cbn [app] in Htk. exists tg, ai, ks', ar, tb, new. split_and!; [| | |done].
    + unfold vals_of. by rewrite Ef.
    + intros P HP. exists (length h), tb. split_and!; [done|by apply lookup_middle|]. rewrite Ef. eapply Forall2_impl; [exact Ho|]. intros x o Hx.
      specialize (Hx (P ++ [tb])). rewrite <- app_assoc in Hx. apply Hx.
      rewrite length_app. cbn [length]. rewrite Nat.add_1_r, Nat.add_0_r. f_equal. exact HP.
    + intros _ k Hk. apply Hkey. unfold main_key in Hk. unfold find_key. rewrite Ef in Hk. destruct (find _ _) as [[y [[w|ws]|]]|]; done.
Qed.

End DecodeCallback.

(** ** [ldecode], and both *)

Lemma ldecode_ok {LL : Lua} s p i fs sp ty (m := message (vals_of (types sp) i fs)) : protos s !! p = Some (Some sp) -> types sp !! i = Some ty ->
  typed (types sp) 64 SPROTO_TSTRUCT (Some i) (TObj i fs) -> size_of (elem_of (types sp) (TObj i fs)) < 2 ^ 31 -> 3 <= room s ->
  exists s1 new, ldecode (set_stk s [LType p i; LStr m]) = eret (2, s1) /\
    stk s1 = [LType p i; LStr m; LTab (length (heap s)); LInt (zlen m)] /\ heap s1 = heap s ++ new /\
    rep (types sp) 64 (heap s1) (TObj i fs) (LTab (length (heap s))).
Proof.
  intros Hp Hi Ht Hsz Hr. unfold ldecode. lstep ltac:(by eapply type_arg_eq). lstep ltac:(exact (eq_refl : getbuffer 2 (set_stk s [LType p i; LStr m]) = eret (m, set_stk s [LType p i; LStr m]))).
  lstep ltac:(exact (top_eq s [LType p i] (LStr m))). cbn [lua_istable negb].
  lstep ltac:(exact (newtable_eq s [LType p i; LStr m] (heap s) Hr)). cbn [app]. unfold sh. lstep ltac:(apply checkstack_eq).
  change (Z.max (room _) _) with (Z.max (room s) 203). set (s' := LState [] (Z.max (room s) 203) (heap s) (ubuf s) (protos s) (G_sproto s)).
  change (set_stk _ [LType p i; LStr m; LTab (length (heap s))]) with (sh s' ([LType p i; LStr m] ++ [LTab (length (heap s))]) (heap s ++ [[]])).
  lstep ltac:(reflexivity). change (zlen (stk (sh s' ([LType p i; LStr m] ++ [LTab (length (heap s))]) (heap s ++ [[]])))) with 3.
  destruct (obj_message (types sp) s' 64%nat 65%nat i fs ty [LType p i; LStr m] (-1) 0 [] 0 (heap s)) as (tg & ai & ks' & ar & tb & new & E & Ho & _);
    [apply obj_decodes|done|done|lia|lia|lia|cbn [length room s']; lia|done|by left|].
  lstep ltac:(exact E). rewrite (proj2 (Z.ltb_ge _ _)) by lia.
  assert (lua_settop 3 (sh s' ([LType p i; LStr m] ++ LTab (length (heap s)) :: ks' ++ ar) (heap s ++ tb :: new)) =
    eret (tt, sh s' [LType p i; LStr m; LTab (length (heap s))] (heap s ++ tb :: new))) as Etop.
  { apply (settop_eq (set_heap s' _) [LType p i; LStr m; LTab (length (heap s))]). cbn [length room set_heap s']. lia. }
  lstep ltac:(exact Etop). unfold sh. lstep ltac:(apply push_eq; cbn [length room set_heap s']; lia).
  eexists _, (tb :: new). split_and!; [reflexivity|done|done|]. by apply Ho.
Qed.

(** C39: the round trip through Lua.  A table that represents a typed tree (its
    fields by name, arrays by position or by main keys, at most 64 levels), a
    buffer that its message fits into and slots for its arrays within the
    stack that [lencode] asked for: [lencode] returns the bytes of [message]
    and leaves the tables as they are; [ldecode] of that message, in any state
    with the same schema, makes new tables, leaves the old ones, and returns a
    table that represents the same tree and the length of the message.  Neither
    leaves the stack, the buffer or the message. *)
Theorem lencode_ldecode {LL : Lua} s p i t fs sp ty (m := message (vals_of (types sp) i fs)) :
  protos s !! p = Some (Some sp) -> types sp !! i = Some ty -> stk s = [LType p i; LTab t] ->
  typed (types sp) 64 SPROTO_TSTRUCT (Some i) (TObj i fs) -> rep (types sp) 64 (heap s) (TObj i fs) (LTab t) ->
  size_of (elem_of (types sp) (TObj i fs)) <= zlen (ubuf s) < 2 ^ 31 -> slots (types sp) (TObj i fs) <= 137 ->
  (exists s1 l, lencode s = eret (1, s1) /\ stk s1 = l ++ [LStr m] /\ heap s1 = heap s /\ protos s1 = protos s) /\
  (forall s2, protos s2 = protos s -> stk s2 = [LType p i; LStr m] -> 3 <= room s2 -> exists s3 new t',
    ldecode s2 = eret (2, s3) /\ stk s3 = [LType p i; LStr m; LTab t'; LInt (zlen m)] /\ heap s3 = heap s2 ++ new /\
    rep (types sp) 64 (heap s3) (TObj i fs) (LTab t')).
Proof.
  intros Hp Hi Hs Ht Hrep Hsz Hsl. split.
  - destruct (lencode_ok s p i t fs sp ty) as (s1 & l & E & Hstk & Hh & Hpr & _); [done..|]. exists s1, l. destruct s; cbn in Hs; subst. done.
  - intros s2 Hp2 Hs2 Hr. destruct (ldecode_ok s2 p i fs sp ty) as (s3 & new & E & Hstk & Hh & Hrep3); [congruence|done|done|lia|done|].
    exists s3, new, (length (heap s2)). destruct s2; cbn in Hs2; subst. done.
Qed.

(** ** An address book *)

#[local] Instance demo_lua : Lua.
Proof. refine {| lua_tostr _ := []; lua_toint _ := None; junk n := replicate (Z.to_nat n) 0; malloc _ _ := true |}. intros n Hn. rewrite length_replicate. lia. Defined.

Definition friend : sproto_type :=
  SType "Person" 0 3 [Field 0 2 "name" None (-1); Field 1 0 "id" None (-1); Field 2 0x83 "friends" (Some 0%nat) (-1)].
Definition book : sproto_type := SType "Book" 0 2 [Field 0 0x83 "person" (Some 0%nat) 1; Field 1 0x80 "lucky" None (-1)].
Definition demo_types : list sproto_type := [friend; book].

Definition person_tree (n : string) (id : Z) (l : option (list tree)) : tree :=
  TObj 0 [Some (inl (TStr (ascii n))); Some (inl (TInt id)); inr <$> l].
Definition book_tree : tree :=
  TObj 1 [Some (inr [person_tree "Bob" 3 (Some [person_tree "Al" (2 ^ 40) None]); person_tree "Eve" 5 None]); Some (inr [TInt 5; TInt (-7)])].

Definition demo_heap : list table := [
  [(name_key "person", LTab 1); (name_key "lucky", LTab 4)];
  [(LInt 3, LTab 2); (LInt 5, LTab 3)];
  [(name_key "name", LStr (ascii "Bob")); (name_key "id", LInt 3); (name_key "friends", LTab 5)];
  [(name_key "name", LStr (ascii "Eve")); (name_key "id", LInt 5)];
  [(LInt 1, LInt 5); (LInt 2, LInt (-7))];
  [(LInt 1, LTab 6)];
  [(name_key "id", LInt (2 ^ 40)); (name_key "name", LStr (ascii "Al"))]
].
Definition demo_state (l : list lval) : lstate :=
  LState l 22 demo_heap (replicate 2050 0) [Some (SProto pool_init demo_types [])] (replicate 16 None).

Lemma friend_wf : type_wf friend /\ NoDup (map fname (f friend)).
Proof.
  split; [split|].
  - vm_compute. tauto.
  - by repeat constructor.
  - repeat constructor; vm_compute; congruence.
  - done.
  - intros _ [|[|[|i]]] x Hx; by inversion Hx.
  - apply (bool_decide_unpack _). vm_compute. exact I.
Qed.

Lemma book_wf : type_wf book /\ NoDup (map fname (f book)).
Proof.
  split; [split|].
  - vm_compute. tauto.
  - by repeat constructor.
  - repeat constructor; vm_compute; congruence.
  - done.
  - intros _ [|[|i]] x Hx; by inversion Hx.
  - apply (bool_decide_unpack _). vm_compute. exact I.
Qed.

(** Persons with friends, on a heap. *)
Lemma person_typed n id l k : - 2 ^ 63 <= id < 2 ^ 63 -> (forall vs, l = Some vs -> Forall (typed demo_types k SPROTO_TSTRUCT (Some 0%nat)) vs) ->
  typed demo_types (S k) SPROTO_TSTRUCT (Some 0%nat) (person_tree n id l).
Proof.
  intros Hid Hl. split_and!; [done|done|exists friend; split; [done|exact friend_wf]|].
  change (fields_of demo_types 0) with (f friend). apply Forall2_cons; split; [|apply Forall2_cons; split; [|apply Forall2_cons; split; [|constructor]]].
  - split; [by intros|]. by destruct k.
  - split; [by intros|]. by destruct k.
  - split; [by intros|]. destruct l as [vs|]; [|done]. split_and!; [done|by apply Hl|by intros].
Qed.

Lemma book_typed k : typed demo_types (S (S (S k))) SPROTO_TSTRUCT (Some 1%nat) book_tree.
Proof.
  split_and!; [done|done|exists book; split; [done|exact book_wf]|].
  change (fields_of demo_types 1) with (f book). apply Forall2_cons; split; [|apply Forall2_cons; split; [|constructor]].
  - split; [done|]. split_and!; [done| |].
    + constructor; [|constructor; [|constructor]]; apply person_typed; [lia| |lia|done]. intros vs [= <-]. constructor; [|constructor]. by apply person_typed.
    + intros _. split; [constructor; [|constructor; [|constructor]]; eexists; reflexivity|]. apply (bool_decide_unpack _). vm_compute. exact I.
  - split; [by intros|]. split_and!; [done| |by intros]. constructor; [|constructor; [|constructor]]; split; (done || lia).
Qed.

Lemma person_rep t n id tb l k : demo_heap !! t = Some tb -> tget tb (name_key "name") = LStr (ascii n) -> tget tb (name_key "id") = LInt id ->
  field_rep demo_types (rep demo_types k demo_heap) demo_heap (Field 2 0x83 "friends" (Some 0%nat) (-1)) (inr <$> l) (tget tb (name_key "friends")) ->
  rep demo_types (S k) demo_heap (person_tree n id l) (LTab t).
Proof.
  intros Ht Hn Hid Hl. exists t, tb. split_and!; [done|done|]. change (fields_of demo_types 0) with (f friend).
  apply Forall2_cons; split; [|apply Forall2_cons; split; [|apply Forall2_cons; split; [exact Hl|constructor]]]; by destruct k.
Qed.

Lemma book_rep k : rep demo_types (S (S (S k))) demo_heap book_tree (LTab 0).
Proof.
  eexists _, _. split_and!; [done|done|]. change (fields_of demo_types 1) with (f book). apply Forall2_cons; split; [|apply Forall2_cons; split; [|constructor]].
  - right. eexists _, _. split_and!; [reflexivity|reflexivity|]. unfold array_rep. cbn [key Z.geb Z.compare].
    constructor; [|constructor; [|constructor]]; (split; [|reflexivity]).
    + apply (person_rep _ _ _ [(name_key "name", LStr (ascii "Bob")); (name_key "id", LInt 3); (name_key "friends", LTab 5)]); [done..|].
      right. eexists _, _. split_and!; [reflexivity|reflexivity|]. split; [|reflexivity]. intros [|i] v Hv; [|by destruct i]. injection Hv as <-.
      by apply (person_rep _ _ _ [(name_key "id", LInt (2 ^ 40)); (name_key "name", LStr (ascii "Al"))]).
    + by apply (person_rep _ _ _ [(name_key "name", LStr (ascii "Eve")); (name_key "id", LInt 5)]).
  - right. eexists _, _. split_and!; [reflexivity|reflexivity|]. split; [|reflexivity]. intros [|[|i]] v Hv; [..|by destruct i]; by injection Hv as <-.
Qed.

Lemma lencode_ldecode_witness (m := message (vals_of demo_types 1 match book_tree with TObj _ fs => fs | _ => [] end)) :
  (exists s1 l, lencode (demo_state [LType 0 1; LTab 0]) = eret (1, s1) /\ stk s1 = l ++ [LStr m] /\ heap s1 = demo_heap /\
    protos s1 = protos (demo_state [])) /\
  (forall s2, protos s2 = protos (demo_state []) -> stk s2 = [LType 0 1; LStr m] -> 3 <= room s2 -> exists s3 new t',
    ldecode s2 = eret (2, s3) /\ stk s3 = [LType 0 1; LStr m; LTab t'; LInt (zlen m)] /\ heap s3 = heap s2 ++ new /\
    rep demo_types 64 (heap s3) book_tree (LTab t')).
Proof.
  apply (lencode_ldecode (demo_state [LType 0 1; LTab 0]) 0 1 0 _ (SProto pool_init demo_types []) book); [reflexivity|reflexivity|reflexivity|exact (book_typed 61)|exact (book_rep 61)| |].
  - vm_compute. split; congruence.
  - vm_compute. congruence.
Defined.

(** A table that contains itself through an array: [encode] uses three slots a
    level, [lencode] asked for two, and leaves the stack before it finds that
    the table is too deep. *)
Example encode_stack_overflow :
  lencode (LState [LType 0 0; LTab 0] 22 [[(name_key "friends", LTab 1)]; [(LInt 1, LTab 0)]] (replicate 2050 0) [Some (SProto pool_init demo_types [])] []) = None.
Proof. vm_compute. reflexivity. Qed.

(** The same table with more room is too deep. *)
Example encode_too_deep :
  lencode (LState [LType 0 0; LTab 0] 300 [[(name_key "friends", LTab 1)]; [(LInt 1, LTab 0)]] (replicate 2050 0) [Some (SProto pool_init demo_types [])] []) = Some LErr.
Proof. vm_compute. reflexivity. Qed.

(** Each array that is absent leaves a slot: an empty table of a type with
    many arrays is too much for the stack. *)
Definition wide : sproto_type := SType "Wide" 0 140 (map (fun i => Field (Z.of_nat i) 0x80 "a" None (-1)) (seq 0 140)).
Example encode_leaves_slots :
  lencode (LState [LType 0 0; LTab 0] 22 [[]] (replicate 2050 0) [Some (SProto pool_init [wide] [])] []) = None.
Proof. vm_compute. reflexivity. Qed.

(** A main index on a field that is no array: [decode] takes slot 0 for the
    table of the array. *)
Definition odd : list sproto_type := [SType "Odd" 0 1 [Field 0 3 "p" (Some 1%nat) 0]; SType "In" 0 1 [Field 0 0 "i" None (-1)]].
Example decode_key_no_array :
  ldecode (LState [LType 0 0; LStr ([1; 0; 0; 0] ++ [4; 0; 0; 0] ++ [1; 0; 4; 0])] 22 [] [] [Some (SProto pool_init odd [])] []) = None.
Proof. vm_compute. reflexivity. Qed.

(** The functions around them: a schema is made by [lnewproto], shared by
    [lsaveproto] and [lloadproto], and queried. *)
Example default_book :
  match ldefault (demo_state [LType 0 0]) with
  | Some (LOk (r, s)) => (r, stk s, nth 7 (heap s) [])
  | _ => (0, [], [])
  end = (1, [LType 0 0; LTab 7], [(name_key "name", LStr []); (name_key "id", LInt 0); (name_key "friends", LTab 8)]).
Proof. vm_compute. reflexivity. Qed.

Example save_load :
  match lsaveproto (demo_state [LProto 0; LInt 3]) with
  | Some (LOk (r, s)) => match lloadproto (set_stk s [LInt 3]) with Some (LOk (n, s)) => (r, n, stk s) | _ => (0, 0, []) end
  | _ => (0, 0, [])
  end = (0, 1, [LInt 3; LProto 0]) /\
  lsaveproto (demo_state [LProto 0; LInt 16]) = Some LErr /\ lloadproto (demo_state [LInt 4]) = Some LErr.
Proof. vm_compute. done. Qed.
