(* ===== verification/SockBuf.v ===== *)
(** * The read buffers of sockets (src/lualib/lsocket.c)

    A buffer is a list of nodes, each with a block of data that came from the
    socket; the nodes of all buffers come from one pool.  Lua takes bytes out
    by count, by line or all.  [buffers_refine]: whatever is done to any number
    of buffers, each behaves as a stream of bytes and every block is released
    once, when its last byte has been taken.

    A node is the index of its cell in [cells]; a block is a number and its
    bytes; [released] lists the blocks given back by [pixel_alloc].  A null
    pointer, a read outside of a block and a failed assertion are [None]. *)

From S2P Require Import Prelude Buffer.

(** ** State *)

Record buffer_node := Node { data : option (Z * list Z); nsize : Z; next : option nat }.
Record buffer := Buf { size : Z; offset : Z; head : option nat; tail : option nat }.
Record bufferpool := Pool { pool : option nat; freelist : option nat; cells : list buffer_node; released : list Z }.

Definition set_cell (bp : bufferpool) (n : nat) (c : buffer_node) : bufferpool :=
  Pool (pool bp) (freelist bp) (<[n := c]> (cells bp)) (released bp).
Definition cell (bp : bufferpool) (p : option nat) : option buffer_node := n ← p; cells bp !! n.

(** The bytes of a block from [from] on, [n] of them. *)
Definition block_bytes (c : buffer_node) (from n : Z) : option (list Z) :=
  '(_, d) ← data c;
  if (0 <=? from) && (0 <=? n) && (from + n <=? zlen d) then Some (slice d from n) else None.

(** ** Operations *)

Definition _freebuffer (b : buffer) (bp : bufferpool) : option (buffer * bufferpool) :=
  match head b with
  | None => Some (b, bp)
  | Some n =>
      c ← cells bp !! n;
      b ← match next c with
          | None => if decide (tail b = Some n) then Some (Buf (size b) 0 None None) else None
          | Some m => Some (Buf (size b) 0 (Some m) (tail b))
          end;
      Some (b, Pool (pool bp) (Some n) (<[n := Node None 0 (freelist bp)]> (cells bp))
                 (released bp ++ match data c with Some (id, _) => [id] | None => [] end))
  end.

(** The loop over the nodes; [out] is the Lua buffer. *)
Fixpoint pop_loop (fuel : nat) (b : buffer) (bp : bufferpool) (sz skip : Z) (out : list Z) : option (list Z * buffer * bufferpool) :=
  match fuel with
  | O => None
  | S fuel =>
      c ← cell bp (head b);
      let bytes := nsize c - offset b in
      if bytes >=? sz then
        out ← (if sz >? skip then w ← block_bytes c (offset b) (sz - skip); Some (out ++ w) else Some out);
        let b := Buf (size b) (offset b + sz) (head b) (tail b) in
        if bytes =? sz then '(b, bp) ← _freebuffer b bp; Some (out, b, bp) else Some (out, b, bp)
      else
        let real_size := sz - skip in
        out ← (if real_size >? 0 then
                 w ← block_bytes c (offset b) (if real_size <? bytes then real_size else bytes); Some (out ++ w)
               else Some out);
        '(b, bp) ← _freebuffer b bp;
        let sz := sz - bytes in
        if sz =? 0 then Some (out, b, bp) else pop_loop fuel b bp sz skip out
  end.

Definition lpop_string (b : buffer) (bp : bufferpool) (sz skip : Z) : option (list Z * buffer * bufferpool) :=
  c ← cell bp (head b);
  if sz <? nsize c - offset b then
    w ← block_bytes c (offset b) (sz - skip); Some (w, Buf (size b) (offset b + sz) (head b) (tail b), bp)
  else if sz =? nsize c - offset b then
    w ← block_bytes c (offset b) (sz - skip); '(b, bp) ← _freebuffer b bp; Some (w, b, bp)
  else pop_loop (S (length (cells bp))) b bp sz skip [].

Fixpoint readall_loop (fuel : nat) (b : buffer) (bp : bufferpool) (out : list Z) : option (list Z * buffer * bufferpool) :=
  match fuel with
  | O => None
  | S fuel =>
      match head b with
      | None => Some (out, b, bp)
      | Some n =>
          c ← cells bp !! n;
          w ← block_bytes c (offset b) (nsize c - offset b);
          '(b, bp) ← _freebuffer b bp;
          readall_loop fuel b bp (out ++ w)
      end
  end.

Definition lreadall (b : buffer) (bp : bufferpool) : option (list Z * buffer * bufferpool) :=
  '(out, b, bp) ← readall_loop (S (length (cells bp))) b bp [];
  Some (out, Buf 0 (offset b) (head b) (tail b), bp).

Fixpoint check_sep (fuel : nat) (bp : bufferpool) (node : option nat) (from : Z) (sep : list Z) : option bool :=
  match fuel with
  | O => None
  | S fuel =>
      c ← cell bp node;
      let sz := nsize c - from in
      if sz >=? zlen sep then w ← block_bytes c from (zlen sep); Some (bool_decide (w = sep))
      else
        ok ← (if sz >? 0 then w ← block_bytes c from sz; Some (bool_decide (w = take (Z.to_nat sz) sep)) else Some true);
        if negb ok then Some false
        else if sz <? 0 then None
        else check_sep fuel bp (next c) 0 (drop (Z.to_nat sz) sep)
  end.

(** The search of [lreadline]: the place of the separator, if it is there. *)
Fixpoint line_loop (n : nat) (b : buffer) (bp : bufferpool) (sep : list Z) (cur : option nat) (i from bytes : Z) : option (option Z) :=
  match n with
  | O => Some None
  | S n =>
      found ← check_sep (S (length (cells bp))) bp cur from sep;
      if (found : bool) then Some (Some i)
      else
        let from := from + 1 in
        let bytes := bytes - 1 in
        if bytes =? 0 then
          c ← cell bp cur;
          match next c with
          | None => Some None
          | Some m => c ← cells bp !! m; line_loop n b bp sep (Some m) (i + 1) 0 (nsize c)
          end
        else line_loop n b bp sep cur (i + 1) from bytes
  end.

Inductive line := NoLine | Found | Line (l : list Z).

Definition lreadline (b : buffer) (bp : bufferpool) (sep : list Z) (check : bool) : option (line * buffer * bufferpool) :=
  match head b with
  | None => Some (NoLine, b, bp)
  | Some n =>
      c ← cells bp !! n;
      r ← line_loop (Z.to_nat (size b - zlen sep + 1)) b bp sep (Some n) 0 (offset b) (nsize c - offset b);
      match r with
      | None => Some (NoLine, b, bp)
      | Some i =>
          if check then Some (Found, b, bp)
          else
            '(w, b, bp) ← lpop_string b bp (i + zlen sep) (zlen sep);
            Some (Line w, Buf (size b - (i + zlen sep)) (offset b) (head b) (tail b), bp)
      end
  end.

Definition lpopbuffer (b : buffer) (bp : bufferpool) (sz : Z) : option (option (list Z) * Z * buffer * bufferpool) :=
  if (size b <? sz) || (sz =? 0) then Some (None, size b, b, bp)
  else
    '(w, b, bp) ← lpop_string b bp sz 0;
    let b := Buf (size b - sz) (offset b) (head b) (tail b) in Some (Some w, size b, b, bp).

(** Two new nodes when none is free. *)
Definition node_alloc (bp : bufferpool) : bufferpool :=
  match freelist bp with
  | Some _ => bp
  | None =>
      let k := length (cells bp) in
      Pool (Some k) (Some k) (cells bp ++ [Node None 0 (Some (S k)); Node None 0 None]) (released bp)
  end.

Definition lpushbuffer (b : buffer) (bp : bufferpool) (d : Z * list Z) (sz : Z) : option (Z * buffer * bufferpool) :=
  let bp := node_alloc bp in
  n ← freelist bp;
  c ← cells bp !! n;
  let bp := Pool (pool bp) (next c) (<[n := Node (Some d) sz None]> (cells bp)) (released bp) in
  '(b, bp) ← match head b with
             | None => if decide (tail b = None) then Some (Buf (size b) (offset b) (Some n) (Some n), bp) else None
             | Some _ =>
                 t ← tail b;
                 c ← cells bp !! t;
                 Some (Buf (size b) (offset b) (head b) (Some n), set_cell bp t (Node (data c) (nsize c) (Some n)))
             end;
  let b := Buf (size b + sz) (offset b) (head b) (tail b) in Some (size b, b, bp).

Definition lfreebuffer (b : buffer) (bp : bufferpool) : option (buffer * bufferpool) := _freebuffer b bp.
Definition lnewbuffer : buffer := Buf 0 0 None None.

(** ** The specification: a list of blocks with what is left of them *)

Definition blocks := list (Z * list Z).
Definition stream (bl : blocks) : list Z := concat (map snd bl).

(** Take [n] bytes: the blocks that are used up, and what is left. *)
Fixpoint consume (n : Z) (bl : blocks) : list Z * blocks :=
  match bl with
  | [] => ([], [])
  | (id, d) :: bl' =>
      if n <? zlen d then ([], (id, drop (Z.to_nat n) d) :: bl')
      else let (ids, r) := consume (n - zlen d) bl' in (id :: ids, r)
  end.

(** The first place of a separator. *)
Fixpoint find_sep (sep s : list Z) : option nat :=
  if decide (sep = take (length sep) s) then Some O
  else match s with [] => None | _ :: s => S <$> find_sep sep s end.

(** ** The invariant *)

Fixpoint chain (h : list buffer_node) (p : option nat) (l : list nat) : Prop :=
  match l with
  | [] => p = None
  | n :: l => p = Some n /\ exists c, h !! n = Some c /\ chain h (next c) l
  end.

(** The nodes hold the blocks; the first one from [off] on. *)
Fixpoint content (h : list buffer_node) (ns : list nat) (bl : blocks) (off : Z) : Prop :=
  match ns, bl with
  | [], [] => True
  | n :: ns, (id, d) :: bl =>
      (exists c full, h !! n = Some c /\ data c = Some (id, full) /\ nsize c = zlen full /\ d = drop (Z.to_nat off) full /\ 0 <= off < zlen full) /\
      content h ns bl 0
  | _, _ => False
  end.

Record buf_ok (h : list buffer_node) (b : buffer) (ns : list nat) (bl : blocks) : Prop := {
  bk_chain : chain h (head b) ns;
  bk_content : content h ns bl (offset b);
  bk_tail : tail b = last ns;
  bk_size : size b = zlen (stream bl);
  bk_offset : ns = [] -> offset b = 0
}.

Lemma chain_frame h h' p l : (forall n, n ∈ l -> h' !! n = h !! n) -> chain h p l -> chain h' p l.
Proof.
  revert p. induction l as [|n l IH]; intros p Hf; [done|]. intros [-> (c & Hc & Hl)]. split; [done|]. exists c.
  rewrite Hf by left. split; [done|]. apply IH; [|done]. intros m Hm. apply Hf. by right.
Qed.

Lemma content_frame h h' ns bl off : (forall n, n ∈ ns -> h' !! n = h !! n) -> content h ns bl off -> content h' ns bl off.
Proof.
  revert bl off. induction ns as [|n ns IH]; intros [|[id d] bl] off Hf; try done. cbn [content]. rewrite Hf by left.
  intros [H Hc]. split; [done|]. apply IH; [|done]. intros m Hm. apply Hf. by right.
Qed.

Lemma buf_frame h h' b ns bl : (forall n, n ∈ ns -> h' !! n = h !! n) -> buf_ok h b ns bl -> buf_ok h' b ns bl.
Proof. intros Hf [H1 H2 H3 H4 H5]. split; try done; [by apply (chain_frame h)|by apply (content_frame h)]. Qed.

(** What an operation on one buffer does to the cells: the nodes of the buffer
    and the free ones, [own], are the nodes of both after it, or new. *)
Record owns (bp : bufferpool) (b : buffer) (bl : blocks) (ns fl : list nat) : Prop := {
  ow_buf : buf_ok (cells bp) b ns bl;
  ow_free : chain (cells bp) (freelist bp) fl;
  ow_nodup : NoDup (ns ++ fl)
}.

Lemma stream_cons id d bl : stream ((id, d) :: bl) = d ++ stream bl.
Proof. done. Qed.

Lemma cell_bound h n (c : buffer_node) : h !! n = Some c -> (n < length h)%nat.
Proof. apply lookup_lt_Some. Qed.

(** Only the cells in [own] change. *)
Definition local (own : list nat) (bp bp' : bufferpool) : Prop :=
  length (cells bp') = length (cells bp) /\ forall n, n ∉ own -> cells bp' !! n = cells bp !! n.

(** A buffer whose offset and size may not be right yet. *)
Definition owns_at (bp : bufferpool) (b : buffer) (off : Z) (bl : blocks) (ns fl : list nat) : Prop :=
  owns bp (Buf (zlen (stream bl)) off (head b) (tail b)) bl ns fl.

(** The outcome of an operation that releases [ids] and leaves [bl]. *)
Definition after (bp : bufferpool) (own : list nat) (ids : list Z) (sz : Z) (bl : blocks) (b' : buffer) (bp' : bufferpool) : Prop :=
  exists ns fl, size b' = sz /\ released bp' = released bp ++ ids /\ local own bp bp' /\ ns ++ fl ≡ₚ own /\
    owns_at bp' b' (offset b') bl ns fl.

Lemma freebuffer_ok b bp off id d bl n ns fl : owns_at bp b off ((id, d) :: bl) (n :: ns) fl ->
  exists b' bp', _freebuffer b bp = Some (b', bp') /\ after bp (n :: ns ++ fl) [id] (size b) bl b' bp' /\
    owns_at bp' b' (offset b') bl ns (n :: fl) /\ length (cells bp') = length (cells bp).
Proof.
  intros [[Hch Hco Ht Hs Ho] Hf Hnd]. cbn [head tail offset size] in *. destruct Hch as [Hh (c & Hc & Hch)]. destruct Hco as [(c' & full & Hc' & Hd & Hn & -> & Hoff) Hco].
  rewrite Hc in Hc'. injection Hc' as <-. unfold _freebuffer. rewrite Hh, Hc. cbn [mbind option_bind]. rewrite Hd.
  assert (n ∉ ns ++ fl) as Hni by (by apply NoDup_cons in Hnd as [? _]).
  assert (forall m, m ∈ ns ++ fl -> <[n := Node None 0 (freelist bp)]> (cells bp) !! m = cells bp !! m) as Hfr.
  { intros m Hm. apply list_lookup_insert_ne. intros ->. done. }
  assert (exists b', match next c with
      | None => if decide (tail b = Some n) then Some (Buf (size b) 0 None None) else None
      | Some m => Some (Buf (size b) 0 (Some m) (tail b)) end = Some b' /\ size b' = size b /\ offset b' = 0 /\ head b' = next c /\ tail b' = last ns)
    as (b' & -> & E1 & E2 & E3 & E4).
  { destruct ns as [|m ns]; cbn [chain] in Hch.
    - rewrite Hch, Ht. cbn. rewrite decide_True by done. by eexists.
    - destruct Hch as [-> _]. eexists. split_and!; try done. }
  cbn [mbind option_bind]. exists b'. set (bp' := Pool _ _ _ _).
  assert (owns_at bp' b' (offset b') bl ns (n :: fl)) as Hown.
  { split; [|split; [done|]|].
    + split; cbn [cells head offset tail size]; rewrite ?E2, ?E3, ?E4; try done.
      * apply (chain_frame (cells bp)); [|done]. intros m Hm. apply Hfr, elem_of_app. by left.
      * apply (content_frame (cells bp)); [|done]. intros m Hm. apply Hfr, elem_of_app. by left.
    + eexists. split; [apply list_lookup_insert_eq, (cell_bound _ _ _ Hc)|]. cbn [next].
      apply (chain_frame (cells bp)); [|done]. intros m Hm. apply Hfr, elem_of_app. by right.
    + by rewrite <- Permutation_middle. }
  exists bp'. split; [done|]. split; [|split; [done|apply length_insert]]. exists ns, (n :: fl). split_and!; [done..| | |done].
  - split; [apply length_insert|]. intros m Hm. apply list_lookup_insert_ne. intros ->. apply Hm. by left.
  - by rewrite <- Permutation_middle.
Qed.

Lemma local_trans own own' bp1 bp2 bp3 : own' ≡ₚ own -> local own bp1 bp2 -> local own' bp2 bp3 -> local own bp1 bp3.
Proof.
  intros Hp [L1 H1] [L2 H2]. split; [congruence|]. intros n Hn. rewrite H2, H1; [done|done|]. by rewrite Hp.
Qed.

Lemma after_trans bp own ids1 bp1 own1 ids2 sz bl b2 bp2 : own1 ≡ₚ own -> released bp1 = released bp ++ ids1 -> local own bp bp1 ->
  after bp1 own1 ids2 sz bl b2 bp2 -> after bp own (ids1 ++ ids2) sz bl b2 bp2.
Proof.
  intros Hp Hr Hl (ns & fl & Hs & Hr2 & Hl2 & Hp2 & Ho). exists ns, fl. split_and!; [done| | | |done].
  - by rewrite Hr2, Hr, app_assoc.
  - by apply (local_trans _ own1 _ bp1).
  - by rewrite Hp2.
Qed.

(** ** Taking bytes *)

Lemma owns_cons bp b off bl ns fl : owns_at bp b off bl ns fl -> bl <> [] ->
  exists n ns' id d bl' c full, ns = n :: ns' /\ bl = (id, d) :: bl' /\ head b = Some n /\ cells bp !! n = Some c /\
    data c = Some (id, full) /\ nsize c = zlen full /\ d = drop (Z.to_nat off) full /\ 0 <= off < zlen full.
Proof.
  intros [[Hch Hco _ _ _] _ _] Hbl. cbn [head offset] in *. destruct bl as [|[id d] bl]; [done|]. destruct ns as [|n ns]; [done|].
  destruct Hco as [(c & full & ? & ? & ? & ? & ?) _]. destruct Hch as [? _]. by exists n, ns, id, d, bl, c, full.
Qed.

(** Bytes of the first block. *)
Lemma block_bytes_ok c id full off n : data c = Some (id, full) -> 0 <= off < zlen full -> 0 <= n -> n <= zlen (drop (Z.to_nat off) full) ->
  block_bytes c off n = Some (take (Z.to_nat n) (drop (Z.to_nat off) full)).
Proof.
  intros Hd Ho Hn Hl. rewrite length_drop in Hl. unfold block_bytes. rewrite Hd. cbn [mbind option_bind].
  by rewrite !(proj2 (Z.leb_le _ _)) by lia.
Qed.

Lemma advance_ok bp b off id d bl ns fl n : owns_at bp b off ((id, d) :: bl) ns fl -> 0 <= n < zlen d ->
  owns_at bp b (off + n) ((id, drop (Z.to_nat n) d) :: bl) ns fl.
Proof.
  intros [[Hch Hco Ht Hs Ho] Hf Hnd] Hn. split; [|done|done]. cbn [head tail offset size] in *. split; cbn [head tail offset size]; try done.
  - destruct ns as [|m ns]; [done|]. destruct Hco as [(c & full & H1 & H2 & H3 & -> & H5) Hco]. split; [|done].
    exists c, full. rewrite length_drop in Hn. split_and!; [done..| |lia|lia]. rewrite drop_drop. f_equal. lia.
  - intros ->. done.
Qed.

(** A block has bytes left. *)
Definition live (bl : blocks) : Prop := Forall (fun p => p.2 <> []) bl.

Lemma content_live h ns bl off : content h ns bl off -> live bl.
Proof.
  revert ns off. induction bl as [|[id d] bl IH]; intros ns off Hco; [constructor|].
  destruct ns as [|n ns]; [done|]. destruct Hco as [(c & full & _ & _ & _ & -> & Ho) Hco]. constructor; [|by apply (IH ns 0)].
  cbn. intros E. apply (f_equal length) in E. rewrite length_drop in E. cbn in E. lia.
Qed.

Lemma owns_live bp b off bl ns fl : owns_at bp b off bl ns fl -> live bl.
Proof. intros [[_ Hco _ _ _] _ _]. by apply content_live in Hco. Qed.

Lemma consume_0 bl : live bl -> consume 0 bl = ([], bl).
Proof.
  destruct 1 as [|[id d] bl Hd _]; [done|]. cbn [consume snd] in *. rewrite (proj2 (Z.ltb_lt _ _)); [done|]. destruct d; [done|cbn; lia].
Qed.

Lemma consume_app n id d bl : zlen d <= n -> consume n ((id, d) :: bl) = (id :: (consume (n - zlen d) bl).1, (consume (n - zlen d) bl).2).
Proof. intros Hn. cbn [consume]. rewrite (proj2 (Z.ltb_ge _ _)) by done. by destruct consume. Qed.

Lemma local_refl own bp : local own bp bp.
Proof. by split. Qed.

(** What is read of the first block. *)
Lemma first_read bp b off id d bl ns fl n : owns_at bp b off ((id, d) :: bl) ns fl ->
  exists c, cell bp (head b) = Some c /\ nsize c - off = zlen d /\ (0 <= n <= zlen d -> block_bytes c off n = Some (take (Z.to_nat n) d)).
Proof.
  intros H. destruct (owns_cons _ _ _ _ _ _ H ltac:(done)) as (m & ns' & id' & d' & bl' & c & full & -> & E & Hh & Hc & Hd & Hn & Hdd & Ho).
  injection E as <- <- <-. exists c. unfold cell. rewrite Hh. cbn [mbind option_bind]. split; [done|]. subst d. split.
  - rewrite length_drop. lia.
  - intros Hl. by apply (block_bytes_ok c id full); [..|lia|lia].
Qed.

Lemma pop_loop_ok skip bl : 0 <= skip -> forall fuel b bp off ns fl sz out, (length bl < fuel)%nat -> offset b = off ->
  owns_at bp b off bl ns fl -> bl <> [] -> 0 <= sz <= zlen (stream bl) ->
  exists b' bp', pop_loop fuel b bp sz skip out = Some (out ++ take (Z.to_nat (sz - skip)) (stream bl), b', bp') /\
    after bp (ns ++ fl) (consume sz bl).1 (size b) (consume sz bl).2 b' bp'.
Proof.
  intros Hskip. induction bl as [|[id d] bl IH]; intros [|fuel] b bp off ns fl sz out Hf Hoff H Hbl Hsz; cbn [length] in Hf; try lia; [done|].
  cbn [pop_loop]. rewrite stream_cons in *. rewrite length_app in Hsz. pose proof (owns_live _ _ _ _ _ _ H) as Hl. apply Forall_cons in Hl as [Hd Hl]. cbn [snd] in Hd.
  destruct (owns_cons _ _ _ _ _ _ H ltac:(done)) as (n & ns' & ? & ? & ? & ? & ? & -> & _).
  destruct (Z.leb_spec sz (zlen d)) as [Hle|Hgt].
  - destruct (first_read _ _ _ _ _ _ _ _ (sz - skip) H) as (c & -> & En & Hr). cbn [mbind option_bind]. rewrite Hoff, En.
    rewrite Z.geb_leb, (proj2 (Z.leb_le _ _)) by lia.
    assert ((if sz >? skip then w ← block_bytes c off (sz - skip); Some (out ++ w) else Some out) = Some (out ++ take (Z.to_nat (sz - skip)) (d ++ stream bl))) as ->.
    { rewrite Z.gtb_ltb. destruct (Z.ltb_spec skip sz).
      - rewrite Hr by lia. cbn [mbind option_bind]. by rewrite take_app_le by lia.
      - replace (Z.to_nat (sz - skip)) with O by lia. by rewrite take_0, app_nil_r. }
    cbn [mbind option_bind]. destruct (Z.eqb_spec (zlen d) sz) as [E|E].
    + set (b1 := Buf _ _ _ _). destruct (freebuffer_ok b1 bp off id d bl n ns' fl H) as (b' & bp' & -> & Ha & _). cbn [mbind option_bind].
      exists b', bp'. split; [done|]. rewrite consume_app, <- E, Z.sub_diag, consume_0 by (done || lia). done.
    + eexists _, _. split; [done|]. cbn [consume]. rewrite (proj2 (Z.ltb_lt _ _)) by lia. exists (n :: ns'), fl. split_and!; [done|by rewrite app_nil_r|apply local_refl|done|].
      cbn [offset]. apply (advance_ok bp b off id d bl (n :: ns') fl sz); [done|lia].
  - destruct (first_read _ _ _ _ _ _ _ _ (if sz - skip <? zlen d then sz - skip else zlen d) H) as (c & -> & En & Hr). cbn [mbind option_bind]. rewrite Hoff, En.
    rewrite Z.geb_leb, (proj2 (Z.leb_gt _ _)) by lia.
    set (part := take (Z.to_nat (sz - skip)) d).
    assert ((if sz - skip >? 0 then w ← block_bytes c off (if sz - skip <? zlen d then sz - skip else zlen d); Some (out ++ w) else Some out) = Some (out ++ part)) as ->.
    { subst part. rewrite Z.gtb_ltb. destruct (Z.ltb_spec 0 (sz - skip)).
      - rewrite Hr by (destruct (Z.ltb_spec (sz - skip) (zlen d)); lia). cbn [mbind option_bind]. destruct (Z.ltb_spec (sz - skip) (zlen d)); [done|].
        by rewrite Nat2Z.id, !take_ge by lia.
      - replace (Z.to_nat (sz - skip)) with O by lia. by rewrite take_0, app_nil_r. }
    cbn [mbind option_bind]. destruct (freebuffer_ok b bp off id d bl n ns' fl H) as (b1 & bp1 & -> & Ha & Ho1 & L1). cbn [mbind option_bind].
    rewrite (proj2 (Z.eqb_neq _ _)) by lia.
    destruct (IH fuel b1 bp1 (offset b1) ns' (n :: fl) (sz - zlen d) (out ++ part)) as (b2 & bp2 & E & Ha2); [lia|done|done| |lia|].
    { intros ->. cbn in *. lia. }
    exists b2, bp2. rewrite E, consume_app by lia. destruct Ha as (? & ? & Es & Er & Hlo & _). split.
    + subst part. do 3 f_equal. rewrite <- app_assoc. f_equal. rewrite take_app. f_equal. f_equal. lia.
    + rewrite Es in Ha2. cbn [fst snd]. apply (after_trans _ _ [id] bp1 (ns' ++ n :: fl)); [by rewrite <- Permutation_middle|done|done|done].
Qed.

Lemma content_length h ns bl off : content h ns bl off -> length bl = length ns.
Proof. revert bl off. induction ns as [|n ns IH]; intros [|[id d] bl] off; try done. intros [_ H]. cbn [length]. f_equal. by apply (IH bl 0). Qed.

Lemma chain_bound h p l n : chain h p l -> n ∈ l -> (n < length h)%nat.
Proof.
  revert p. induction l as [|m l IH]; intros p Hc Hn; [by apply elem_of_nil in Hn|]. destruct Hc as [-> (c & Hc & Hl)].
  apply elem_of_cons in Hn as [-> |Hn]; [by apply (cell_bound _ _ c)|by apply (IH (next c))].
Qed.

(** Distinct cells. *)
Lemma nodup_bound (l : list nat) k : NoDup l -> (forall n, n ∈ l -> (n < k)%nat) -> (length l <= k)%nat.
Proof.
  intros Hn Hb. rewrite <- (length_seq k 0). apply submseteq_length, NoDup_submseteq; [done|]. intros n Hl. apply elem_of_seq. specialize (Hb n Hl). lia.
Qed.

Lemma owns_length bp b off bl ns fl : owns_at bp b off bl ns fl -> (length bl <= length (cells bp))%nat.
Proof.
  intros [[Hch Hco _ _ _] _ Hnd]. rewrite (content_length _ _ _ _ Hco). apply NoDup_app in Hnd as (Hnd & _).
  apply nodup_bound; [done|]. intros n. by apply (chain_bound _ _ _ _ Hch).
Qed.

Lemma lpop_string_ok b bp bl ns fl sz skip : owns_at bp b (offset b) bl ns fl -> bl <> [] -> 0 <= skip <= sz -> sz <= zlen (stream bl) ->
  exists b' bp', lpop_string b bp sz skip = Some (take (Z.to_nat (sz - skip)) (stream bl), b', bp') /\
    after bp (ns ++ fl) (consume sz bl).1 (size b) (consume sz bl).2 b' bp'.
Proof.
  intros H Hbl Hskip Hsz. pose proof (owns_length _ _ _ _ _ _ H) as Hf. unfold lpop_string.
  destruct (pop_loop_ok skip bl ltac:(lia) (S (length (cells bp))) b bp (offset b) ns fl sz []) as (b2 & bp2 & E2 & Ha2); [lia|done|done|done|lia|].
  destruct bl as [|[id d] bl]; [done|]. rewrite stream_cons in *. pose proof (owns_live _ _ _ _ _ _ H) as Hl. apply Forall_cons in Hl as [Hd Hl].
  destruct (owns_cons _ _ _ _ _ _ H ltac:(done)) as (n & ns' & ? & ? & ? & ? & ? & -> & _).
  destruct (first_read _ _ _ _ _ _ _ _ (sz - skip) H) as (c & -> & En & Hr). cbn [mbind option_bind]. rewrite En.
  destruct (Z.ltb_spec sz (zlen d)); [|destruct (Z.eqb_spec sz (zlen d)) as [E|E]].
  - rewrite Hr by lia. cbn [mbind option_bind]. eexists _, _. rewrite take_app_le by lia. split; [done|].
    cbn [consume]. rewrite (proj2 (Z.ltb_lt _ _)) by lia. exists (n :: ns'), fl. split_and!; [done|by rewrite app_nil_r|apply local_refl|done|].
    cbn [offset]. apply (advance_ok bp b (offset b) id d bl (n :: ns') fl sz); [done|lia].
  - rewrite Hr by lia. cbn [mbind option_bind]. destruct (freebuffer_ok b bp _ id d bl n ns' fl H) as (b' & bp' & -> & Ha & _). cbn [mbind option_bind].
    exists b', bp'. rewrite take_app_le by lia. split; [done|]. rewrite consume_app, E, Z.sub_diag, consume_0 by (done || lia). done.
  - exists b2, bp2. split; [done|]. done.
Qed.

(** ** Reading all *)

Lemma consume_all bl : live bl -> consume (zlen (stream bl)) bl = (map fst bl, []).
Proof.
  induction 1 as [|[id d] bl _ _ IH]; [done|]. rewrite stream_cons, length_app, consume_app by lia.
  replace (Z.of_nat (length d + length (stream bl)) - zlen d) with (zlen (stream bl)) by lia. by rewrite IH.
Qed.

Lemma readall_loop_ok bl : forall fuel b bp ns fl out, (length bl < fuel)%nat -> owns_at bp b (offset b) bl ns fl ->
  exists b' bp', readall_loop fuel b bp out = Some (out ++ stream bl, b', bp') /\ after bp (ns ++ fl) (map fst bl) (size b) [] b' bp'.
Proof.
  induction bl as [|[id d] bl IH]; intros [|fuel] b bp ns fl out Hf H; cbn [length] in Hf; try lia; cbn [readall_loop].
  - assert (ns = []) as -> by (destruct H as [[_ Hco _ _ _] _ _]; apply content_length in Hco; by destruct ns).
    pose proof (bk_chain _ _ _ _ (ow_buf _ _ _ _ _ H)) as Hh. cbn in Hh. rewrite Hh. exists b, bp. split; [by rewrite app_nil_r|].
    exists [], fl. split_and!; [done|by rewrite app_nil_r|apply local_refl|done|done].
  - destruct (owns_cons _ _ _ _ _ _ H ltac:(done)) as (n & ns' & ? & ? & ? & ? & ? & -> & _ & Hh & _).
    destruct (first_read _ _ _ _ _ _ _ _ (zlen d) H) as (c & Hc & En & Hr). rewrite Hh in *. unfold cell in Hc. cbn [mbind option_bind] in Hc.
    rewrite Hc. cbn [mbind option_bind]. rewrite En, Hr, Nat2Z.id, take_ge by lia. cbn [mbind option_bind].
    destruct (freebuffer_ok b bp _ id d bl n ns' fl H) as (b1 & bp1 & -> & (? & ? & Es & Er & Hlo & _) & Ho1 & _). cbn [mbind option_bind].
    destruct (IH fuel b1 bp1 ns' (n :: fl) (out ++ d)) as (b2 & bp2 & E & Ha2); [lia|done|]. exists b2, bp2. rewrite E, stream_cons, app_assoc. split; [done|].
    rewrite Es in Ha2. apply (after_trans _ _ [id] bp1 (ns' ++ n :: fl)); [by rewrite <- Permutation_middle|done|done|done].
Qed.

(** ** Searching *)

Lemma content_step h c id full n ns bl from : content h (n :: ns) ((id, full) :: bl) from -> h !! n = Some c -> 
  exists all, data c = Some (id, all) /\ nsize c = zlen all /\ full = drop (Z.to_nat from) all /\ 0 <= from < zlen all /\ content h ns bl 0.
Proof. intros [(c' & all & Hc & ? & ? & ? & ?) Hco] Hn. rewrite Hn in Hc. injection Hc as <-. by exists all. Qed.

Lemma sep_split (d s sep : list Z) : (length d < length sep)%nat ->
  sep = take (length sep) (d ++ s) <-> d = take (length d) sep /\ drop (length d) sep = take (length sep - length d) s.
Proof.
  intros Hl. rewrite take_app, (take_ge d) by lia. generalize (length sep - length d)%nat as k. intros k. split.
  - intros ->. by rewrite take_app_length, drop_app_length.
  - intros [E1 E2]. rewrite <- (take_drop (length d) sep), <- E1, E2. done.
Qed.

Lemma check_sep_ok bp ns : forall fuel p bl from sep, (length ns < fuel)%nat -> chain (cells bp) p ns -> content (cells bp) ns bl from -> bl <> [] ->
  zlen sep <= zlen (stream bl) -> check_sep fuel bp p from sep = Some (bool_decide (sep = take (length sep) (stream bl))).
Proof.
  induction ns as [|n ns IH]; intros [|fuel] p [|[id d] bl] from sep Hf Hch Hco Hbl Hl; cbn [length] in Hf; try lia; try done.
  cbn [check_sep]. destruct Hch as [-> (c & Hc & Hch)]. destruct (content_step _ _ _ _ _ _ _ _ Hco Hc) as (all & Hd & Hn & -> & Ho & Hco').
  unfold cell. cbn [mbind option_bind]. rewrite Hc. cbn [mbind option_bind]. rewrite stream_cons in *. rewrite length_app in Hl.
  assert (nsize c - from = zlen (drop (Z.to_nat from) all)) as -> by (rewrite length_drop; lia).
  assert (0 < zlen (drop (Z.to_nat from) all)) as Hpos by (rewrite length_drop; lia).
  pose proof (fun n => block_bytes_ok c id all from n Hd Ho) as Hr. set (d := drop (Z.to_nat from) all) in *.
  rewrite Z.geb_leb. destruct (Z.leb_spec (zlen sep) (zlen d)).
  - rewrite Hr, Nat2Z.id by lia. cbn [mbind option_bind]. rewrite take_app_le by lia. f_equal. apply bool_decide_ext. done.
  - rewrite Z.gtb_ltb, (proj2 (Z.ltb_lt 0 _)), Hr, !Nat2Z.id, (take_ge d) by lia. cbn [mbind option_bind].
    assert (sep = take (length sep) (d ++ stream bl) <-> d = take (length d) sep /\ drop (length d) sep = take (length (drop (length d) sep)) (stream bl)) as Hiff.
    { rewrite length_drop. apply sep_split. lia. }
    case_bool_decide as E; cbn [negb].
    + rewrite (proj2 (Z.ltb_ge _ 0)) by lia. rewrite IH with (bl := bl); [|lia|done|done| |rewrite length_drop; lia].
      * f_equal. apply bool_decide_ext. rewrite Hiff. naive_solver.
      * intros ->. cbn in Hl. lia.
    + f_equal. symmetry. apply bool_decide_eq_false. rewrite Hiff. naive_solver.
Qed.

Lemma find_sep_bound sep s k : find_sep sep s = Some k -> (k + length sep <= length s)%nat.
Proof.
  revert k. induction s as [|x s IH]; intros k; cbn [find_sep].
  - case_decide as E; [|done]. intros [= <-]. rewrite take_nil in E. by rewrite E.
  - case_decide as E; [intros [= <-]; apply (f_equal length) in E; rewrite length_take in E; lia|].
    intros (j & Hj & ->)%fmap_Some. cbn [length]. specialize (IH j Hj). lia.
Qed.

Lemma find_sep_short sep s : (length s < length sep)%nat -> find_sep sep s = None.
Proof. intros H. destruct (find_sep sep s) as [k|] eqn:E; [|done]. apply find_sep_bound in E. lia. Qed.

(** Moving on by a byte. *)
Lemma content_advance h n ns id d bl from : content h (n :: ns) ((id, d) :: bl) from -> 1 < zlen d ->
  content h (n :: ns) ((id, drop 1 d) :: bl) (from + 1).
Proof.
  intros [(c & full & H1 & H2 & H3 & -> & H5) Hco] Hd. rewrite length_drop in Hd. split; [|done]. exists c, full.
  split_and!; [done..| |lia|lia]. rewrite drop_drop. f_equal. lia.
Qed.

Lemma line_loop_ok b bp sep s : forall n p ns bl i from bytes, chain (cells bp) p ns -> NoDup ns -> content (cells bp) ns bl from ->
  (exists id d bl', bl = (id, d) :: bl' /\ bytes = zlen d) -> s = stream bl -> n = (S (length s) - length sep)%nat ->
  line_loop n b bp sep p i from bytes = Some ((fun k => i + Z.of_nat k) <$> find_sep sep s).
Proof.
  induction s as [|x s IH]; intros n p ns bl i from bytes Hch Hnd Hco (id & d & bl' & -> & ->) Hs ->; rewrite stream_cons in Hs;
    destruct ns as [|m ns]; try done; destruct Hch as [-> (c & Hc & Hch)];
    destruct (content_step _ _ _ _ _ _ _ _ Hco Hc) as (all & Hdt & Hn & Hd & Ho & Hco').
  { assert (0 < zlen d) by (rewrite Hd, length_drop; lia). destruct d; [cbn in *; lia|done]. }
  destruct (Nat.le_gt_cases (length sep) (length (x :: s))) as [Hl|Hl].
  2: { rewrite find_sep_short by done. replace (S (length (x :: s)) - length sep)%nat with O by lia. done. }
  replace (S (length (x :: s)) - length sep)%nat with (S (S (length s) - length sep)) by (cbn [length] in *; lia). cbn [line_loop].
  assert (forall q, q ∈ m :: ns -> (q < length (cells bp))%nat) as Hb.
  { intros q Hq. apply (chain_bound _ (Some m) (m :: ns)); [|done]. split; [done|]. by exists c. }
  pose proof (nodup_bound _ _ Hnd Hb) as Hlen.
  rewrite (check_sep_ok bp (m :: ns)) with (bl := (id, d) :: bl'); [|lia|split; [done|by exists c]|done|done|rewrite stream_cons, <- Hs; lia].
  rewrite stream_cons, <- Hs. cbn [mbind option_bind find_sep]. unfold bool_decide. destruct (decide_rel _ _ _) as [E|E].
  { rewrite decide_True by done. cbn. by rewrite Z.add_0_r. }
  rewrite decide_False by done. destruct d as [|y d]; [rewrite Hd, length_drop in *; apply (f_equal length) in Hd; rewrite length_drop in Hd; cbn in Hd; lia|].
  injection Hs as <- ->. destruct (Z.eqb_spec (zlen (x :: d) - 1) 0) as [E0|E0].
  - assert (d = []) as -> by (destruct d; [done|cbn in E0; lia]). unfold cell. cbn [mbind option_bind app]. rewrite Hc. cbn [mbind option_bind].
    destruct ns as [|m' ns]; cbn [chain] in Hch.
    + rewrite Hch. destruct bl' as [|[] ?]; [|done]. cbn. destruct sep; [done|]. cbn. done.
    + destruct Hch as [Hp (c' & Hc' & Hch)]. rewrite Hp, Hc'. cbn [mbind option_bind]. destruct bl' as [|[id' d'] bl']; [done|].
      assert (nsize c' = zlen d') as ->. { destruct (content_step _ _ _ _ _ _ _ _ Hco' Hc') as (? & _ & -> & -> & _). by rewrite drop_0. }
      rewrite IH with (ns := m' :: ns) (bl := (id', d') :: bl'); [|split; [done|by exists c']|by apply NoDup_cons in Hnd as [_ ?]|done|by exists id', d', bl'|done|done].
      f_equal. cbn [app]. destruct find_sep; [|done]. cbn. f_equal. lia.
  - rewrite IH with (ns := m :: ns) (bl := (id, d) :: bl'); [|split; [done|by exists c]|done| |exists id, d, bl'; cbn [length]; split; [done|lia]|by rewrite stream_cons|done].
    + f_equal. destruct find_sep; [|done]. cbn. f_equal. lia.
    + apply (content_advance _ _ _ _ (x :: d)); [done|]. cbn [length] in *. lia.
Qed.

(** ** One operation on one buffer *)

Lemma consume_stream bl : forall n, 0 <= n -> stream (consume n bl).2 = drop (Z.to_nat n) (stream bl).
Proof.
  induction bl as [|[id d] bl IH]; intros n Hn; [by destruct (Z.to_nat n)|]. rewrite stream_cons. destruct (Z.ltb_spec n (zlen d)) as [Hl|Hl].
  - cbn [consume]. rewrite (proj2 (Z.ltb_lt _ _)) by done. cbn [snd]. rewrite stream_cons, drop_app_le by lia. done.
  - rewrite consume_app by done. cbn [snd]. rewrite IH, drop_app_ge by lia. f_equal. lia.
Qed.

Lemma consume_ids bl : forall n, (consume n bl).1 ++ map fst (consume n bl).2 = map fst bl.
Proof.
  induction bl as [|[id d] bl IH]; intros n; [done|]. destruct (Z.ltb_spec n (zlen d)) as [Hl|Hl].
  - cbn [consume]. by rewrite (proj2 (Z.ltb_lt _ _)) by done.
  - rewrite consume_app by done. cbn [fst snd app map]. by rewrite IH.
Qed.

Lemma lreadline_ok b bp bl ns fl sep check : owns_at bp b (offset b) bl ns fl -> size b = zlen (stream bl) ->
  let k := if decide (bl = []) then None else find_sep sep (stream bl) in
  exists b' bp' r, lreadline b bp sep check = Some (r, b', bp') /\
    match k with
    | None => r = NoLine /\ b' = b /\ bp' = bp
    | Some k => if check then r = Found /\ b' = b /\ bp' = bp
                else let (ids, bl') := consume (Z.of_nat (k + length sep)) bl in
                  r = Line (take k (stream bl)) /\ after bp (ns ++ fl) ids (zlen (stream bl')) bl' b' bp'
    end.
Proof.
  intros H Hsz k. unfold lreadline. destruct bl as [|[id d] bl].
  - assert (ns = []) as -> by (destruct H as [[_ Hco _ _ _] _ _]; apply content_length in Hco; by destruct ns).
    pose proof (bk_chain _ _ _ _ (ow_buf _ _ _ _ _ H)) as Hh. cbn in Hh. rewrite Hh. by exists b, bp, NoLine.
  - subst k. rewrite decide_False by done. destruct (owns_cons _ _ _ _ _ _ H ltac:(done)) as (n & ns' & ? & ? & ? & ? & ? & -> & _ & Hh & _).
    destruct (first_read _ _ _ _ _ _ _ _ 0 H) as (c & Hc & En & _). rewrite Hh in *. unfold cell in Hc. cbn [mbind option_bind] in Hc.
    rewrite Hc. cbn [mbind option_bind]. rewrite En.
    rewrite (line_loop_ok b bp sep (stream ((id, d) :: bl)) _ (Some n) (n :: ns') ((id, d) :: bl)).
    + cbn [mbind option_bind]. destruct (find_sep sep (stream ((id, d) :: bl))) as [k|] eqn:Ek; cbn [fmap option_fmap option_map]; [|by exists b, bp, NoLine].
      destruct check; [by exists b, bp, Found|]. pose proof (find_sep_bound _ _ _ Ek) as Hk.
      destruct (lpop_string_ok b bp _ _ _ (0 + Z.of_nat k + zlen sep) (zlen sep) H) as (b' & bp' & -> & Ha); [done|lia|lia|].
      cbn [mbind option_bind]. eexists _, bp', _. split; [done|]. replace (0 + Z.of_nat k + zlen sep) with (Z.of_nat (k + length sep)) in * by lia.
      pose proof (consume_stream ((id, d) :: bl) (Z.of_nat (k + length sep)) ltac:(lia)) as Ecs.
      destruct (consume (Z.of_nat (k + length sep)) ((id, d) :: bl)) as [ids bl']. split; [do 2 f_equal; lia|].
      destruct Ha as (ns2 & fl2 & Es & Er & Hlo & Hp & Ho). exists ns2, fl2. split_and!; [|done..]. cbn [size fst snd] in *.
      rewrite Ecs, length_drop. lia.
    + rewrite <- Hh. apply (bk_chain _ _ _ _ (ow_buf _ _ _ _ _ H)).
    + pose proof (ow_nodup _ _ _ _ _ H) as Hnd. by apply NoDup_app in Hnd as [? _].
    + apply (bk_content _ _ _ _ (ow_buf _ _ _ _ _ H)).
    + by exists id, d, bl.
    + done.
    + rewrite Hsz. lia.
Qed.

Lemma lpopbuffer_ok b bp bl ns fl sz : owns_at bp b (offset b) bl ns fl -> size b = zlen (stream bl) -> 0 <= sz ->
  exists b' bp' r z, lpopbuffer b bp sz = Some (r, z, b', bp') /\
    (if (zlen (stream bl) <? sz) || (sz =? 0) then r = None /\ z = zlen (stream bl) /\ b' = b /\ bp' = bp
     else r = Some (take (Z.to_nat sz) (stream bl)) /\ z = zlen (stream (consume sz bl).2) /\
       after bp (ns ++ fl) (consume sz bl).1 z (consume sz bl).2 b' bp').
Proof.
  intros H Hsz Hs. unfold lpopbuffer. rewrite Hsz. destruct (Z.ltb_spec (zlen (stream bl)) sz); cbn [orb].
  { by exists b, bp, None, (zlen (stream bl)). }
  destruct (Z.eqb_spec sz 0); [by exists b, bp, None, (zlen (stream bl))|].
  destruct (lpop_string_ok b bp bl ns fl sz 0 H) as (b' & bp' & -> & Ha); [by intros ->; cbn in *; lia|lia|lia|]. cbn [mbind option_bind].
  rewrite Z.sub_0_r in *. destruct Ha as (ns2 & fl2 & Es & Er & Hlo & Hp & Ho).
  assert (size b' - sz = zlen (stream (consume sz bl).2)) as E by (rewrite consume_stream, length_drop by lia; lia).
  eexists _, bp', _, _. split; [done|]. cbn [size]. split; [done|]. split; [done|]. by exists ns2, fl2.
Qed.

Lemma lreadall_ok b bp bl ns fl : owns_at bp b (offset b) bl ns fl ->
  exists b' bp', lreadall b bp = Some (stream bl, b', bp') /\ after bp (ns ++ fl) (map fst bl) 0 [] b' bp'.
Proof.
  intros H. pose proof (owns_length _ _ _ _ _ _ H). destruct (readall_loop_ok bl (S (length (cells bp))) b bp ns fl [] ltac:(lia) H) as (b' & bp' & E & Ha).
  unfold lreadall. rewrite E. cbn [mbind option_bind app]. eexists _, _. split; [done|].
  destruct Ha as (ns2 & fl2 & Es & Er & Hlo & Hp & Ho). by exists ns2, fl2.
Qed.

Lemma free_chain_snoc h p l t c n c' : chain h p (l ++ [t]) -> h !! t = Some c -> NoDup (l ++ [t]) -> n ∉ l ++ [t] -> h !! n = Some c' -> next c' = None ->
  chain (<[t := Node (data c) (nsize c) (Some n)]> h) p ((l ++ [t]) ++ [n]).
Proof.
  revert p. induction l as [|m l IH]; intros p Hch Hc Hnd Hni Hc' Hn; cbn [app chain] in *.
  - destruct Hch as [-> _]. split; [done|]. eexists. split; [apply list_lookup_insert_eq, (cell_bound _ _ _ Hc)|]. split; [done|].
    exists c'. rewrite list_lookup_insert_ne by (intros ->; apply Hni; by left). done.
  - destruct Hch as [-> (cm & Hcm & Hch)]. apply NoDup_cons in Hnd as [Hm Hnd]. split; [done|]. exists cm.
    rewrite list_lookup_insert_ne by (intros <-; apply Hm, elem_of_app; right; by left). split; [done|].
    apply IH; try done. intros Hx. apply Hni. by right.
Qed.

Lemma content_snoc h h' ns bl off n id d : (forall m, m ∈ ns -> exists c c', h !! m = Some c /\ h' !! m = Some c' /\ data c' = data c /\ nsize c' = nsize c) ->
  (exists c, h' !! n = Some c /\ data c = Some (id, d) /\ nsize c = zlen d) -> d <> [] -> (ns = [] -> off = 0) ->
  content h ns bl off -> content h' (ns ++ [n]) (bl ++ [(id, d)]) off.
Proof.
  intros Hf Hn Hd. revert bl off. induction ns as [|m ns IH]; intros [|[id' d'] bl] off Ho Hco; try done; cbn [app content].
  - destruct Hn as (c & H1 & H2 & H3). split; [|done]. exists c, d. rewrite Ho by done. split_and!; [done..| |]; destruct d; cbn; try done; lia.
  - destruct Hco as [(c & full & H1 & H2 & H3 & H4) Hco]. split.
    + destruct (Hf m ltac:(by left)) as (c1 & c2 & E1 & E2 & E3 & E4). exists c2, full. rewrite E1 in H1. injection H1 as ->. split_and!; congruence || tauto.
    + apply IH; [|done|done]. intros q Hq. apply Hf. by right.
Qed.

Lemma node_alloc_ok bp b off bl ns fl : owns_at bp b off bl ns fl ->
  exists n fl' new, owns_at (node_alloc bp) b off bl ns (n :: fl') /\ n :: fl' ≡ₚ fl ++ new /\
    released (node_alloc bp) = released bp /\ (forall m, m ∈ new -> (length (cells bp) <= m)%nat) /\
    (length (cells bp) <= length (cells (node_alloc bp)))%nat /\ (forall m, (m < length (cells bp))%nat -> cells (node_alloc bp) !! m = cells bp !! m).
Proof.
  intros [Hb Hf Hnd]. unfold node_alloc. destruct fl as [|n fl]; cbn [chain] in Hf.
  - rewrite Hf. set (k := length (cells bp)). cbn [cells released].
    assert (forall m, (m < k)%nat -> (cells bp ++ [Node None 0 (Some (S k)); Node None 0 None]) !! m = cells bp !! m) as Hfr
      by (intros m Hm; by apply lookup_app_l).
    assert (forall m, m ∈ ns -> (m < k)%nat) as Hns by (intros m; apply (chain_bound _ _ _ _ (bk_chain _ _ _ _ Hb))).
    exists k, [S k], [k; S k]. split_and!; [|done|done| | |done].
    + split; cbn [cells freelist].
      * apply (buf_frame (cells bp)); [|done]. intros m Hm. by apply Hfr, Hns.
      * split; [done|]. eexists. split; [rewrite lookup_app_r by lia; replace (k - length (cells bp))%nat with O by lia; done|]. cbn [next].
        split; [done|]. eexists. split; [rewrite lookup_app_r by lia; replace (S k - length (cells bp))%nat with 1%nat by lia; done|done].
      * rewrite app_nil_r in Hnd. apply NoDup_app. split; [done|]. split.
        -- intros m Hm Hx. apply Hns in Hm. apply elem_of_cons in Hx as [-> |Hx]; [lia|]. apply list_elem_of_singleton in Hx. lia.
        -- apply NoDup_cons. split; [|apply NoDup_singleton]. intros Hx%list_elem_of_singleton. lia.
    + intros m Hm. apply elem_of_cons in Hm as [-> |Hm]; [lia|]. apply list_elem_of_singleton in Hm. lia.
    + rewrite length_app. lia.
  - destruct Hf as [Hf Hc]. rewrite Hf. exists n, fl, []. rewrite app_nil_r. split_and!; try done.
    intros m Hm. by apply elem_of_nil in Hm.
Qed.

Lemma lpushbuffer_ok b bp bl ns fl id d : owns_at bp b (offset b) bl ns fl -> size b = zlen (stream bl) -> d <> [] ->
  exists b' bp' ns' fl' new, lpushbuffer b bp (id, d) (zlen d) = Some (size b', b', bp') /\ size b' = zlen (stream (bl ++ [(id, d)])) /\
    released bp' = released bp /\ owns_at bp' b' (offset b') (bl ++ [(id, d)]) ns' fl' /\ ns' ++ fl' ≡ₚ ns ++ fl ++ new /\
    (forall m, m ∈ new -> (length (cells bp) <= m)%nat) /\ (length (cells bp) <= length (cells bp'))%nat /\
    (forall m, (m < length (cells bp))%nat -> m ∉ ns ++ fl -> cells bp' !! m = cells bp !! m).
Proof.
  intros H Hsz Hd. destruct (node_alloc_ok bp b (offset b) bl ns fl H) as (n & fl' & new & [Hb Hf Hnd] & Hp & Hr & Hnew & Hlen & Hfr).
  unfold lpushbuffer. set (bp1 := node_alloc bp) in *. destruct Hf as [Hf (cn & Hcn & Hfc)]. rewrite Hf. cbn [mbind option_bind]. rewrite Hcn. cbn [mbind option_bind].
  set (h := <[n := Node (Some (id, d)) (zlen d) None]> (cells bp1)).
  pose proof (cell_bound _ _ _ Hcn) as Hnb. assert (h !! n = Some (Node (Some (id, d)) (zlen d) None)) as Hhn by (by apply list_lookup_insert_eq).
  assert (forall m, m <> n -> h !! m = cells bp1 !! m) as Hh by (intros m Hm; by apply list_lookup_insert_ne).
  assert ((n ∉ ns) /\ (n ∉ fl') /\ NoDup (ns ++ fl') /\ NoDup ns) as (Hn1 & Hn2 & Hnd' & Hndn).
  { assert (NoDup (n :: ns ++ fl')) as Hx by (by rewrite Permutation_middle). apply NoDup_cons in Hx as [Hx1 Hx2]. apply not_elem_of_app in Hx1 as [? ?].
    split_and!; try done. by apply NoDup_app in Hx2 as [? _]. }
  destruct Hb as [Hch Hco Ht Hs Ho]. cbn [head tail offset size] in *.
  assert (exists b1 h1, match head b with
      | None => if decide (tail b = None) then Some (Buf (size b) (offset b) (Some n) (Some n), Pool (pool bp1) (next cn) h (released bp1)) else None
      | Some _ => t ← tail b; c ← h !! t;
          Some (Buf (size b) (offset b) (head b) (Some n), Pool (pool bp1) (next cn) (<[t := Node (data c) (nsize c) (Some n)]> h) (released bp1))
      end = Some (b1, Pool (pool bp1) (next cn) h1 (released bp1)) /\ size b1 = size b /\ offset b1 = offset b /\ tail b1 = Some n /\
      chain h1 (head b1) (ns ++ [n]) /\ length h1 = length (cells bp1) /\ h1 !! n = h !! n /\
      (forall m, m ∈ ns -> exists c c', cells bp1 !! m = Some c /\ h1 !! m = Some c' /\ data c' = data c /\ nsize c' = nsize c) /\
      (forall m, m ∉ ns -> h1 !! m = h !! m)) as (b1 & h1 & E & E1 & E2 & E3 & C1 & L1 & Hn1' & D1 & F1).
  { destruct (decide (ns = [])) as [-> |Hne].
    - cbn in Hch, Ht. rewrite Hch, Ht, decide_True by done. eexists _, h. split; [done|]. cbn [size offset tail head app]. split_and!; try done.
      + split; [done|]. eexists. by split.
      + apply length_insert.
      + intros m Hm. by apply elem_of_nil in Hm.
    - destruct (exists_last Hne) as (ns0 & t & ->). assert (t <> n) as Htn by (intros ->; apply Hn1, elem_of_app; right; by left).
      assert (exists m0 hd, head b = Some m0 /\ ns0 ++ [t] = m0 :: hd) as (m0 & hd & Hhd & _).
      { destruct ns0 as [|m0 l0]; cbn [app chain] in Hch; destruct Hch as [Hx _]; [by exists t, []|by exists m0, (l0 ++ [t])]. }
      assert (exists ct, cells bp1 !! t = Some ct) as [ct Hct].
      { apply lookup_lt_is_Some_2. apply (chain_bound _ _ _ _ Hch), elem_of_app. right. by left. }
      rewrite Ht, last_snoc, Hhd. cbn [mbind option_bind]. rewrite Hh, Hct by done. cbn [mbind option_bind].
      eexists _, _. split; [done|]. cbn [size offset tail head]. split_and!; try done.
      + apply (free_chain_snoc h _ _ _ _ n (Node (Some (id, d)) (zlen d) None)); [|by rewrite Hh|done|done|done|done].
        rewrite <- Hhd. apply (chain_frame (cells bp1)); [|done]. intros m Hm. apply Hh. by intros ->.
      + rewrite length_insert. apply length_insert.
      + by rewrite list_lookup_insert_ne by done.
      + intros m Hm. destruct (decide (m = t)) as [-> |Hmt].
        * exists ct. eexists. split; [done|]. split; [apply list_lookup_insert_eq; subst h; rewrite length_insert; by apply (cell_bound _ _ ct)|done].
        * destruct (lookup_lt_is_Some_2 (cells bp1) m) as [cm Hcm]; [by apply (chain_bound _ _ _ _ Hch)|].
          exists cm, cm. split_and!; [done| |done|done]. rewrite list_lookup_insert_ne by done. rewrite Hh; [done|]. by intros ->.
      + intros m Hm. apply list_lookup_insert_ne. intros <-. apply Hm, elem_of_app. right. by left. }
  cbn [head size offset tail cells set_cell pool freelist released] in *. unfold set_cell. cbn [head size offset tail cells pool freelist released].
  rewrite E. cbn [mbind option_bind]. set (b2 := Buf (size b1 + zlen d) (offset b1) (head b1) (tail b1)). set (bp2 := Pool _ _ h1 _).
  assert (forall m, m ∈ fl' -> h1 !! m = cells bp1 !! m) as Hfl.
  { intros m Hm. rewrite F1, Hh; [done|by intros ->|]. intros Hx. apply NoDup_app in Hnd' as (_ & Hx2 & _). by apply (Hx2 m). }
  exists b2, bp2, (ns ++ [n]), fl', new. split; [done|].
  assert (size b2 = zlen (stream (bl ++ [(id, d)]))) as E4.
  { subst b2. cbn [size]. unfold stream. rewrite map_app, concat_app, length_app. cbn [map concat snd]. rewrite app_nil_r. fold (stream bl). lia. }
  split_and!; [done|done| | |done|subst bp2; cbn [cells]; lia|].
  - split; cbn [cells freelist].
    + split; cbn [head tail offset size]; try done.
      * subst b2. cbn [offset]. rewrite E2. apply (content_snoc (cells bp1)); try done.
        exists (Node (Some (id, d)) (zlen d) None). split; [|done]. change (h1 !! n = Some (Node (Some (id, d)) (zlen d) None)). by rewrite Hn1'.
      * rewrite last_snoc. done.
      * intros Hx. by apply app_nil in Hx as [_ ?].
    + apply (chain_frame (cells bp1)); done.
    + rewrite <- app_assoc. done.
  - rewrite <- app_assoc. cbn [app]. by rewrite Hp.
  - intros m Hm Hx. subst bp2. cbn [cells]. apply not_elem_of_app in Hx as [Hx1 Hx2]. rewrite F1 by done. rewrite Hh, Hfr; [done|done|].
    intros ->. assert (n ∈ fl ++ new) as Hy by (rewrite <- Hp; by left). apply elem_of_app in Hy as [?|Hy]; [done|]. apply Hnew in Hy. lia.
Qed.

(** ** All buffers *)

Record world := World { the_pool : bufferpool; bufs : list buffer }.

Inductive op := Push (d : Z * list Z) | Pop (n : Z) | ReadAll | ReadLine (sep : list Z) (check : bool) | Free.
Inductive cmd := New | Do (k : nat) (o : op).
Inductive reply := RNone | RSize (n : Z) | RPop (l : option (list Z)) (n : Z) | RAll (l : list Z) | RLine (l : line).

(** [push] is called with the size of the block. *)
Definition op_run (b : buffer) (bp : bufferpool) (o : op) : option (reply * buffer * bufferpool) :=
  match o with
  | Push d => '(n, b, bp) ← lpushbuffer b bp d (zlen d.2); Some (RSize n, b, bp)
  | Pop n => '(l, n, b, bp) ← lpopbuffer b bp n; Some (RPop l n, b, bp)
  | ReadAll => '(l, b, bp) ← lreadall b bp; Some (RAll l, b, bp)
  | ReadLine sep check => '(l, b, bp) ← lreadline b bp sep check; Some (RLine l, b, bp)
  | Free => '(b, bp) ← lfreebuffer b bp; Some (RNone, b, bp)
  end.

Definition cmd_run (w : world) (c : cmd) : option (reply * world) :=
  match c with
  | New => Some (RNone, World (the_pool w) (bufs w ++ [lnewbuffer]))
  | Do k o => b ← bufs w !! k; '(r, b, bp) ← op_run b (the_pool w) o; Some (r, World bp (<[k := b]> (bufs w)))
  end.

Fixpoint cmds_run (w : world) (cs : list cmd) : option (list reply * world) :=
  match cs with
  | [] => Some ([], w)
  | c :: cs => '(r, w) ← cmd_run w c; '(rs, w) ← cmds_run w cs; Some (r :: rs, w)
  end.

Definition world_init : world := World (Pool None None [] []) [].

(** A buffer is a stream; a buffer that was freed is gone. *)
Definition op_spec (s : list Z) (o : op) : reply * option (list Z) :=
  match o with
  | Push d => (RSize (zlen (s ++ d.2)), Some (s ++ d.2))
  | Pop n => if (zlen s <? n) || (n =? 0) then (RPop None (zlen s), Some s)
             else (RPop (Some (take (Z.to_nat n) s)) (zlen s - n), Some (drop (Z.to_nat n) s))
  | ReadAll => (RAll s, Some [])
  | ReadLine sep check =>
      match (if decide (s = []) then None else find_sep sep s) with
      | None => (RLine NoLine, Some s)
      | Some k => if check then (RLine Found, Some s) else (RLine (Line (take k s)), Some (drop (k + length sep) s))
      end
  | Free => (RNone, None)
  end.

Definition cmd_spec (ss : list (option (list Z))) (c : cmd) : option (reply * list (option (list Z))) :=
  match c with
  | New => Some (RNone, ss ++ [Some []])
  | Do k o => s ← mjoin (ss !! k); let (r, s) := op_spec s o in Some (r, <[k := s]> ss)
  end.

Fixpoint cmds_spec (ss : list (option (list Z))) (cs : list cmd) : option (list reply * list (option (list Z))) :=
  match cs with
  | [] => Some ([], ss)
  | c :: cs => '(r, ss) ← cmd_spec ss c; '(rs, ss) ← cmds_spec ss cs; Some (r :: rs, ss)
  end.

(** Blocks are not empty, counts not negative. *)
Definition op_ok (o : op) : Prop := match o with Push d => d.2 <> [] | Pop n => 0 <= n | _ => True end.
Definition cmd_ok (c : cmd) : Prop := match c with New => True | Do _ o => op_ok o end.

(** Without that: [pop] with a negative count passes the test of the size and
    gives [lua_pushlstring] the count as a [size_t]; behind an empty block
    [readline] looks for the separator in front of the next one's data. *)
Example pop_negative : cmds_run world_init [New; Do 0 (Push (1, [65; 66])); Do 0 (Pop (-1))] = None.
Proof. vm_compute. reflexivity. Qed.

Example push_empty :
  cmds_run world_init [New; Do 0 (Push (1, [])); Do 0 (Push (2, [65; 66])); Do 0 (ReadLine [10] false)] = None.
Proof. vm_compute. reflexivity. Qed.

Definition op_pushed (o : op) : list Z := match o with Push d => [d.1] | _ => [] end.
Definition pushed (cs : list cmd) : list Z := concat (map (fun c => match c with Do _ o => op_pushed o | New => [] end) cs).

(** What an operation on one buffer leaves, for the others too. *)
Record leaves (bp : bufferpool) (own : list nat) (b' : buffer) (bp' : bufferpool) (ids : list Z) (bl' : blocks) (ns' fl' new : list nat) : Prop := {
  lv_released : released bp' = released bp ++ ids;
  lv_nodes : ns' ++ fl' ≡ₚ own ++ new;
  lv_new : forall m, m ∈ new -> (length (cells bp) <= m)%nat;
  lv_length : (length (cells bp) <= length (cells bp'))%nat;
  lv_frame : forall m, (m < length (cells bp))%nat -> m ∉ own -> cells bp' !! m = cells bp !! m;
  lv_owns : owns_at bp' b' (offset b') bl' ns' fl'
}.

Lemma after_leaves bp own ids sz bl' b' bp' : after bp own ids sz bl' b' bp' -> exists ns' fl', leaves bp own b' bp' ids bl' ns' fl' [] /\ size b' = sz.
Proof.
  intros (ns & fl & Hs & Hr & [Hl Hf] & Hp & Ho). exists ns, fl. split; [|done]. split; try done.
  - by rewrite app_nil_r.
  - intros m Hm. by apply elem_of_nil in Hm.
  - lia.
  - intros m _ Hm. by apply Hf.
Qed.

Lemma same_leaves bp b bl ns fl : owns_at bp b (offset b) bl ns fl -> leaves bp (ns ++ fl) b bp [] bl ns fl [].
Proof. intros H. split; try done; [by rewrite app_nil_r|by rewrite app_nil_r|]. intros m Hm. by apply elem_of_nil in Hm. Qed.

Lemma stream_nil bl : live bl -> stream bl = [] <-> bl = [].
Proof. intros H. split; [|by intros ->]. destruct H as [|[id d] bl Hd _]; [done|]. rewrite stream_cons. by intros [? _]%app_nil. Qed.

Lemma op_run_ok b bp bl ns fl o : owns_at bp b (offset b) bl ns fl -> size b = zlen (stream bl) -> op_ok o ->
  exists r b' bp' ids bl' ns' fl' new, op_run b bp o = Some (r, b', bp') /\ leaves bp (ns ++ fl) b' bp' ids bl' ns' fl' new /\
    op_spec (stream bl) o = (r, match o with Free => None | _ => Some (stream bl') end) /\
    (o <> Free -> size b' = zlen (stream bl')) /\ ids ++ map fst bl' = map fst bl ++ op_pushed o.
Proof.
  intros H Hs Ho. pose proof (owns_live _ _ _ _ _ _ H) as Hl. destruct o as [[id d]|n| |sep check|]; cbn [op_run op_spec op_pushed op_ok fst snd] in *.
  - destruct (lpushbuffer_ok b bp bl ns fl id d H Hs Ho) as (b' & bp' & ns' & fl' & new & -> & E1 & E2 & E3 & E4 & E5 & E6 & E7). cbn [mbind option_bind].
    assert (stream (bl ++ [(id, d)]) = stream bl ++ d) as Es by (unfold stream; rewrite map_app, concat_app; cbn; by rewrite app_nil_r).
    exists (RSize (size b')), b', bp', [], (bl ++ [(id, d)]), ns', fl', new. split_and!; [done| |by rewrite E1, Es|done|by rewrite map_app].
    split; try done; [by rewrite app_nil_r|by rewrite <- app_assoc].
  - destruct (lpopbuffer_ok b bp bl ns fl n H Hs Ho) as (b' & bp' & r & z & -> & Hc). cbn [mbind option_bind].
    destruct ((zlen (stream bl) <? n) || (n =? 0)) eqn:Ec.
    + destruct Hc as (-> & -> & -> & ->). eexists _, _, _, [], bl, ns, fl, []. split; [done|]. split; [by apply same_leaves|]. by rewrite app_nil_r.
    + destruct Hc as (-> & -> & (ns' & fl' & Hlv & Hsz)%after_leaves). eexists _, _, _, _, _, ns', fl', []. split; [done|]. split; [done|].
      apply orb_false_iff in Ec as [Ec%Z.ltb_ge _]. rewrite consume_stream by done. rewrite length_drop.
      split; [do 2 f_equal; lia|]. split; [intros _; rewrite Hsz, consume_stream by done; by rewrite length_drop|]. by rewrite consume_ids, app_nil_r.
  - destruct (lreadall_ok b bp bl ns fl H) as (b' & bp' & -> & (ns' & fl' & Hlv & Hsz)%after_leaves). cbn [mbind option_bind].
    eexists _, _, _, _, [], ns', fl', []. split; [done|]. split; [done|]. split; [done|]. split; [by rewrite Hsz|]. by rewrite !app_nil_r.
  - destruct (lreadline_ok b bp bl ns fl sep check H Hs) as (b' & bp' & r & -> & Hk). cbn [mbind option_bind].
    assert ((if decide (stream bl = []) then None else find_sep sep (stream bl)) = (if decide (bl = []) then None else find_sep sep (stream bl))) as ->.
    { destruct (decide (bl = [])) as [E|E]; [by rewrite decide_True by by apply stream_nil|by rewrite decide_False by by rewrite stream_nil]. }
    destruct (if decide (bl = []) then None else find_sep sep (stream bl)) as [k|].
    + destruct check.
      * destruct Hk as (-> & -> & ->). eexists _, _, _, [], bl, ns, fl, []. split; [done|]. split; [by apply same_leaves|]. by rewrite app_nil_r.
      * pose proof (consume_stream bl (Z.of_nat (k + length sep)) ltac:(lia)) as Ecs. pose proof (consume_ids bl (Z.of_nat (k + length sep))) as Eci.
        destruct (consume (Z.of_nat (k + length sep)) bl) as [ids bl']. cbn [fst snd] in *.
        destruct Hk as (-> & (ns' & fl' & Hlv & Hsz)%after_leaves). eexists _, _, _, _, _, ns', fl', []. split; [done|]. split; [done|].
        rewrite Nat2Z.id in Ecs. split; [by rewrite Ecs|]. split; [done|]. by rewrite app_nil_r.
    + destruct Hk as (-> & -> & ->). eexists _, _, _, [], bl, ns, fl, []. split; [done|]. split; [by apply same_leaves|]. by rewrite app_nil_r.
  - unfold lfreebuffer. destruct bl as [|[id d] bl].
    + assert (ns = []) as -> by (destruct H as [[_ Hco _ _ _] _ _]; apply content_length in Hco; by destruct ns).
      pose proof (bk_chain _ _ _ _ (ow_buf _ _ _ _ _ H)) as Hh. cbn in Hh. unfold _freebuffer. rewrite Hh. cbn [mbind option_bind].
      eexists _, _, _, [], [], [], fl, []. split; [done|]. split; [by apply same_leaves|]. done.
    + destruct (owns_cons _ _ _ _ _ _ H ltac:(done)) as (n & ns' & ? & ? & ? & ? & ? & -> & _).
      destruct (freebuffer_ok b bp _ id d bl n ns' fl H) as (b1 & bp1 & -> & (ns2 & fl2 & Hlv & _)%after_leaves & _). cbn [mbind option_bind].
      eexists _, _, _, _, bl, ns2, fl2, []. split; [done|]. split; [done|]. split; [done|]. split; [done|]. by rewrite app_nil_r.
Qed.

Record winv (w : world) (bls : list (option blocks)) (nss : list (list nat)) (fl : list nat) : Prop := {
  wi_bufs : length (bufs w) = length bls;
  wi_nodes : length nss = length bls;
  wi_ok : forall k b bl ns, bufs w !! k = Some b -> bls !! k = Some (Some bl) -> nss !! k = Some ns ->
    buf_ok (cells (the_pool w)) (Buf (zlen (stream bl)) (offset b) (head b) (tail b)) ns bl /\ size b = zlen (stream bl);
  wi_free : chain (cells (the_pool w)) (freelist (the_pool w)) fl;
  wi_nodup : NoDup (mjoin nss ++ fl);
  wi_bound : forall m, m ∈ mjoin nss -> (m < length (cells (the_pool w)))%nat
}.

Definition streams (bls : list (option blocks)) : list (option (list Z)) := fmap (M := list) (fmap (M := option) stream) bls.
Definition ids_of (o : option blocks) : list Z := match o with Some bl => map fst bl | None => [] end.
Definition held (bls : list (option blocks)) : list Z := mjoin (ids_of <$> bls).

Lemma held_insert (bls : list (option blocks)) k (bl : blocks) o : bls !! k = Some (Some bl) -> exists rest, held bls ≡ₚ map fst bl ++ rest /\ held (<[k := o]> bls) ≡ₚ ids_of o ++ rest.
Proof.
  intros H. destruct (join_split (ids_of <$> bls) k (map fst bl)) as (others & H1 & H2 & _); [by rewrite list_lookup_fmap, H|].
  exists others. split; [done|]. unfold held. rewrite <- (H2 (ids_of o)). by rewrite <- list_fmap_insert.
Qed.

Lemma op_step w bls nss fl k o s r s' : winv w bls nss fl -> op_ok o -> streams bls !! k = Some (Some s) -> op_spec s o = (r, s') ->
  exists b bp b' bls' nss' fl' lk, bufs w !! k = Some b /\ op_run b (the_pool w) o = Some (r, b', bp) /\
    winv (World bp (<[k := b']> (bufs w))) bls' nss' fl' /\ streams bls' = <[k := s']> (streams bls) /\
    released bp ++ held bls' ++ lk ≡ₚ released (the_pool w) ++ held bls ++ op_pushed o /\ (o <> Free -> lk = []).
Proof.
  intros [Hlb Hln Hok Hf Hnd Hbd] Ho Hs Hsp. unfold streams in Hs. rewrite list_lookup_fmap in Hs. apply fmap_Some in Hs as ([bl|] & Hbl & Es); [|done].
  injection Es as ->. pose proof (lookup_lt_Some _ _ _ Hbl) as Hk.
  destruct (lookup_lt_is_Some_2 (bufs w) k) as [b Hb]; [lia|]. destruct (lookup_lt_is_Some_2 nss k) as [ns Hns]; [lia|].
  destruct (Hok k b bl ns Hb Hbl Hns) as [Hbuf Hsz]. destruct (join_split nss k ns Hns) as (others & Hj1 & Hj2 & Hj3).
  assert (NoDup (ns ++ fl) /\ NoDup others /\ (forall m, m ∈ others -> m ∉ ns ++ fl)) as (Hnd1 & Hnd2 & Hdis).
  { assert (NoDup ((ns ++ fl) ++ others)) as Hx by (rewrite Hj1 in Hnd; revert Hnd; apply NoDup_Permutation_proper; solve_Permutation).
    apply NoDup_app in Hx as (? & Hx & ?). split_and!; [done|done|]. intros m Hm Hm'. by apply (Hx m). }
  destruct (op_run_ok b (the_pool w) bl ns fl o) as (r' & b' & bp & ids & bl' & ns' & fl' & new & E & [L1 L2 L3 L4 L5 [B1 B2 B3]] & Esp & Hsz' & Hids); [by split|done|done|].
  rewrite Hsp in Esp. injection Esp as <- Es'.
  set (o' := (match o with Free => None | _ => Some bl' end) : option blocks). assert (s' = stream <$> o') as -> by (subst o'; by destruct o).
  destruct (held_insert bls k bl o' Hbl) as (rest & H1 & H2).
  exists b, bp, b', (<[k := o']> bls), (<[k := ns']> nss), fl', (match o with Free => map fst bl' | _ => [] end). split_and!; [done|done| | | |by destruct o].
  - assert (forall m, m ∈ others -> cells bp !! m = cells (the_pool w) !! m) as Hfr.
    { intros m Hm. apply L5; [|by apply Hdis]. apply Hbd. rewrite Hj1. apply elem_of_app. by right. }
    split; cbn [bufs the_pool]; rewrite ?length_insert; try done.
    + intros j bj blj nsj Hbj Hblj Hnsj. destruct (decide (j = k)) as [-> |Hne].
      * rewrite list_lookup_insert_eq in Hbj by lia. rewrite list_lookup_insert_eq in Hblj by lia. rewrite list_lookup_insert_eq in Hnsj by lia. injection Hbj as <-. injection Hnsj as <-. subst o'. destruct o; try done; injection Hblj as <-; by split; [|apply Hsz'].
      * rewrite list_lookup_insert_ne in Hbj by done. rewrite list_lookup_insert_ne in Hblj by done. rewrite list_lookup_insert_ne in Hnsj by done. destruct (Hok j bj blj nsj Hbj Hblj Hnsj) as [Hbufj Hszj]. split; [|done].
        apply (buf_frame (cells (the_pool w))); [|done]. intros m Hm. apply Hfr. by apply (Hj3 j nsj).
    + rewrite Hj2. assert (NoDup ((ns' ++ fl') ++ others)) as Hx; [|revert Hx; apply NoDup_Permutation_proper; solve_Permutation].
      apply NoDup_app. split; [done|]. split; [|done]. intros m Hm Hm'. rewrite L2 in Hm. apply elem_of_app in Hm as [Hm|Hm]; [by apply (Hdis m)|].
      apply L3 in Hm. assert (m < length (cells (the_pool w)))%nat; [|lia]. apply Hbd. rewrite Hj1. apply elem_of_app. by right.
    + intros m Hm. rewrite Hj2 in Hm. apply elem_of_app in Hm as [Hm|Hm]; [by apply (chain_bound _ _ _ _ (bk_chain _ _ _ _ B1))|].
      assert (m < length (cells (the_pool w)))%nat; [|lia]. apply Hbd. rewrite Hj1. apply elem_of_app. by right.
  - unfold streams. by rewrite list_fmap_insert.
  - rewrite L1, H1, H2. rewrite <- (assoc_L (++)). apply Permutation_app_head.
    assert (ids ++ ids_of o' ++ (match o with Free => map fst bl' | _ => [] end) ≡ₚ map fst bl ++ op_pushed o) as Hp.
    { rewrite <- Hids. subst o'. destruct o; cbn [ids_of]; by rewrite ?app_nil_r. }
    transitivity ((ids ++ ids_of o' ++ (match o with Free => map fst bl' | _ => [] end)) ++ rest); [solve_Permutation|]. rewrite Hp. solve_Permutation.
Qed.

Lemma cmd_step w bls nss fl c r ss' : winv w bls nss fl -> cmd_ok c -> cmd_spec (streams bls) c = Some (r, ss') ->
  exists w' bls' nss' fl' lk, cmd_run w c = Some (r, w') /\ winv w' bls' nss' fl' /\ ss' = streams bls' /\
    released (the_pool w') ++ held bls' ++ lk ≡ₚ released (the_pool w) ++ held bls ++ pushed [c] /\ ((forall k, c <> Do k Free) -> lk = []).
Proof.
  intros Hw Hc. destruct c as [|k o]; cbn [cmd_spec cmd_run].
  - intros [= <- <-]. destruct Hw as [H1 H2 H3 H4 H5 H6].
    assert (mjoin (nss ++ [[]]) = mjoin nss) as En by (rewrite join_app; cbn; by rewrite app_nil_r).
    exists (World (the_pool w) (bufs w ++ [lnewbuffer])), (bls ++ [Some []]), (nss ++ [[]]), fl, []. split_and!; [done| | | |done].
    + split; cbn [the_pool bufs]; rewrite ?En, ?length_app; cbn [length]; try done; try lia.
      intros k b bl ns Hb Hbl Hns. destruct (Nat.lt_trichotomy k (length bls)) as [L|[->|L]].
      * rewrite lookup_app_l in Hb by lia. rewrite lookup_app_l in Hbl by lia. rewrite lookup_app_l in Hns by lia. by apply (H3 k).
      * rewrite <- H1, list_lookup_middle in Hb by done. rewrite list_lookup_middle in Hbl by done. rewrite <- H2, list_lookup_middle in Hns by done.
        injection Hb as <-. injection Hbl as <-. injection Hns as <-. done.
      * rewrite lookup_ge_None_2 in Hbl; [done|]. rewrite length_app. cbn. lia.
    + unfold streams. by rewrite fmap_app.
    + unfold held. rewrite fmap_app, join_app. cbn. by rewrite !app_nil_r.
  - intros H. destruct (streams bls !! k) as [[s|]|] eqn:Es; try done. cbn [mjoin option_join mbind option_bind] in H.
    destruct (op_spec s o) as [r' s'] eqn:Esp. injection H as <- <-.
    destruct (op_step w bls nss fl k o s r' s' Hw Hc Es Esp) as (b & bp & b' & bls' & nss' & fl' & lk & -> & E & Hw' & <- & Hp & Hlk).
    cbn [mbind option_bind]. rewrite E. cbn [mbind option_bind]. exists (World bp (<[k := b']> (bufs w))), bls', nss', fl', lk.
    split_and!; [done|done|done| |].
    + unfold pushed. cbn [map concat the_pool]. by rewrite app_nil_r.
    + intros Hf. apply Hlk. intros ->. by apply (Hf k).
Qed.

Lemma cmds_step cs : forall w bls nss fl rs ss', winv w bls nss fl -> Forall cmd_ok cs -> cmds_spec (streams bls) cs = Some (rs, ss') ->
  exists w' bls' nss' fl' lk, cmds_run w cs = Some (rs, w') /\ winv w' bls' nss' fl' /\ ss' = streams bls' /\
    released (the_pool w') ++ held bls' ++ lk ≡ₚ released (the_pool w) ++ held bls ++ pushed cs /\ ((forall k, Do k Free ∉ cs) -> lk = []).
Proof.
  induction cs as [|c cs IH]; intros w bls nss fl rs ss' Hw Hc; cbn [cmds_spec cmds_run].
  - intros [= <- <-]. exists w, bls, nss, fl, []. done.
  - apply Forall_cons in Hc as [Hc Hcs]. destruct (cmd_spec (streams bls) c) as [[r ss1]|] eqn:E1; [|done]. cbn [mbind option_bind].
    destruct (cmds_spec ss1 cs) as [[rs1 ss2]|] eqn:E2; [|done]. cbn [mbind option_bind]. intros [= <- <-].
    destruct (cmd_step w bls nss fl c r ss1 Hw Hc E1) as (w1 & bls1 & nss1 & fl1 & lk1 & -> & Hw1 & -> & Hp1 & Hlk1). cbn [mbind option_bind].
    destruct (IH w1 bls1 nss1 fl1 rs1 ss2 Hw1 Hcs E2) as (w2 & bls2 & nss2 & fl2 & lk2 & -> & Hw2 & -> & Hp2 & Hlk2). cbn [mbind option_bind].
    exists w2, bls2, nss2, fl2, (lk1 ++ lk2). split_and!; [done|done|done| |].
    + assert (pushed (c :: cs) = pushed [c] ++ pushed cs) as -> by (unfold pushed; cbn; by rewrite app_nil_r).
      transitivity ((released (the_pool w2) ++ held bls2 ++ lk2) ++ lk1); [solve_Permutation|]. rewrite Hp2.
      transitivity ((released (the_pool w1) ++ held bls1 ++ lk1) ++ pushed cs); [solve_Permutation|]. rewrite Hp1. solve_Permutation.
    + intros Hf. rewrite Hlk1, Hlk2; [done| |].
      * intros k Hk. apply (Hf k). by right.
      * intros k ->. apply (Hf k). by left.
Qed.

Lemma winv_live w (bls : list (option blocks)) nss fl : winv w bls nss fl -> forall k (o : option blocks), bls !! k = Some o -> live (default [] o).
Proof.
  intros [H1 H2 H3 _ _ _] k [bl|] Hbl; [|by constructor]. pose proof (lookup_lt_Some _ _ _ Hbl).
  destruct (lookup_lt_is_Some_2 (bufs w) k) as [b Hb]; [lia|]. destruct (lookup_lt_is_Some_2 nss k) as [ns Hns]; [lia|].
  destruct (H3 k b bl ns Hb Hbl Hns) as [[_ Hco _ _ _] _]. by apply content_live in Hco.
Qed.

(** C30: any sequence of calls on any number of buffers, which share the pool
    of nodes, as long as no block that is pushed is empty and no count given to
    [pop] is negative ([op_ok]; what happens otherwise is in [pop_negative] and
    [push_empty]), runs without a null pointer, an access outside of a block or a
    failed assertion and returns what the streams of bytes return: [push]
    appends, [pop] takes so many bytes or none, [readline] takes the bytes up
    to the first separator, wherever the blocks are cut, [readall] takes all.
    Every block pushed is released once, when all of its bytes were taken
    ([held] are the blocks that still have bytes), unless [free] was called:
    it releases the first block only, and the others are lost. *)
Theorem buffers_refine cs rs ss : Forall cmd_ok cs -> cmds_spec [] cs = Some (rs, ss) ->
  exists w (bls : list (option blocks)) lost, cmds_run world_init cs = Some (rs, w) /\ streams bls = ss /\
    Forall (fun bl => live (default [] bl)) bls /\
    released (the_pool w) ++ held bls ++ lost ≡ₚ pushed cs /\ ((forall k, Do k Free ∉ cs) -> lost = []).
Proof.
  intros Hc Hs. destruct (cmds_step cs world_init [] [] [] rs ss) as (w & bls & nss & fl & lk & E & Hw & -> & Hp & Hlk); [|done|done|].
  { split; try done; [by constructor|]. intros m Hm. by apply elem_of_nil in Hm. }
  exists w, bls, lk. split_and!; [done|done| |done|done]. apply Forall_lookup. intros k bl Hk. by apply (winv_live w bls nss fl Hw k).
Qed.

(** Two buffers; a line over three blocks; the second buffer reuses a node. *)
Lemma buffers_refine_witness :
  let cs := [New; New; Do 0 (Push (1, [65; 66])); Do 0 (Push (2, [13])); Do 0 (Push (3, [10; 67])); Do 1 (Push (4, [68; 69]));
             Do 0 (ReadLine [13; 10] true); Do 0 (ReadLine [13; 10] false); Do 0 (Pop 2); Do 0 (Pop 1); Do 1 (Push (5, [70]));
             Do 1 (Pop 1); Do 1 ReadAll] in
  let rs := [RNone; RNone; RSize 2; RSize 3; RSize 5; RSize 2; RLine Found; RLine (Line [65; 66]); RPop None 1; RPop (Some [67]) 0; RSize 3;
             RPop (Some [68]) 2; RAll [69; 70]] in
  exists w (bls : list (option blocks)) lost, cmds_run world_init cs = Some (rs, w) /\ streams bls = [Some []; Some []] /\
    Forall (fun bl => live (default [] bl)) bls /\
    released (the_pool w) ++ held bls ++ lost ≡ₚ pushed cs /\ ((forall k, Do k Free ∉ cs) -> lost = []).
Proof.
  intros cs rs. apply (buffers_refine cs rs [Some []; Some []]).
  - repeat constructor; cbn; congruence || lia.
  - reflexivity.
Defined.
