(* ===== verification/Lalloc.v ===== *)
(** * The allocator of Lua services (src/service/lalloc.c)

    Small blocks come in classes of eight bytes, big blocks from a list that is
    searched, huge blocks straight from the system; all the lists run through
    the free memory itself.  Memory is a map from addresses to bytes, a word
    takes eight of them.  [mmap] and [mremap] choose addresses; a read or write
    outside of the mapped regions is [None], also by the address that a failed
    call returns.

    [LallocOk] has the theorem; the examples below show how a split of the only
    free big block breaks the allocator. *)

From S2P Require Import Prelude.

(** ** Memory *)

Abbreviation mem := (gmap Z Z).

Definition byte_at (m : mem) (a : Z) : Z := default 0 (m !! a).
Definition get_bytes (m : mem) (p n : Z) : list Z := map (fun i => byte_at m (p + i)) (seqZ 0 n).
Fixpoint put_bytes (m : mem) (p : Z) (l : list Z) : mem :=
  match l with [] => m | b :: l => <[p := b]> (put_bytes m (p + 1) l) end.

Definition load (m : mem) (p : Z) : Z := get_le (get_bytes m p 8).
Definition store (m : mem) (p v : Z) : mem := put_bytes m p (put_le 8 v).

(** Fresh pages read as zero. *)
Definition zero_fill (m : mem) (p n : Z) : mem := filter (fun kv => kv.1 < p \/ p + n <= kv.1) m.

Definition within (p n : Z) (r : Z * Z) : bool := (r.1 <=? p) && (p + n <=? r.1 + r.2).

(** ** State *)

Definition SMALLSIZE : Z := 8.
Definition SMALLLEVEL : Z := 32.
Definition CHUNKSIZE : Z := 32 * 1024.
Definition HUGESIZE : Z := CHUNKSIZE - 16.
Definition BIGSEARCHDEPTH : nat := 128.
Definition MAP_FAILED : Z := 2 ^ 64 - 1.

(** Sizes of the structures; the fields of [struct hugeblock] and
    [struct bigblock] are at multiples of eight. *)
Definition sizeof_chunk : Z := 8.
Definition sizeof_size_t : Z := 8.
Definition sizeof_hugeblock : Z := 24.
Definition sizeof_allocator : Z := 328.

(** [base] is the address of the allocator, which is also that of its first
    chunk; [small_list], [chunk_list], [big_head], [big_tail] and [chunk_used]
    are its fields.  The node [huge_list] is read and written in memory. *)
Record allocator := Allocator {
  memory : mem; regions : list (Z * Z); base : Z;
  small_list : list Z; chunk_list : Z; big_head : Z; big_tail : Z; chunk_used : Z
}.

Definition huge_list (A : allocator) : Z := base A + 296.

Definition up_memory m A := Allocator m (regions A) (base A) (small_list A) (chunk_list A) (big_head A) (big_tail A) (chunk_used A).
Definition up_regions r A := Allocator (memory A) r (base A) (small_list A) (chunk_list A) (big_head A) (big_tail A) (chunk_used A).
Definition up_small l A := Allocator (memory A) (regions A) (base A) l (chunk_list A) (big_head A) (big_tail A) (chunk_used A).
Definition up_chunk c A := Allocator (memory A) (regions A) (base A) (small_list A) c (big_head A) (big_tail A) (chunk_used A).
Definition up_head h A := Allocator (memory A) (regions A) (base A) (small_list A) (chunk_list A) h (big_tail A) (chunk_used A).
Definition up_tail t A := Allocator (memory A) (regions A) (base A) (small_list A) (chunk_list A) (big_head A) t (chunk_used A).
Definition up_used u A := Allocator (memory A) (regions A) (base A) (small_list A) (chunk_list A) (big_head A) (big_tail A) u.

Abbreviation prog := (ust allocator).

Definition mapped (A : allocator) (p n : Z) : bool := existsb (within p n) (regions A).

(** The word at [p]. *)
Definition rd (p : Z) : prog Z := fun A => if mapped A p 8 then Some (load (memory A) p, A) else None.
Definition wr (p v : Z) : prog unit := fun A => if mapped A p 8 then Some (tt, up_memory (store (memory A) p v) A) else None.

(** Fields of the structures that live in free memory. *)
Definition next_ (p : Z) : Z := p.          (* struct chunk, struct smallblock *)
Definition big_sz (p : Z) : Z := p.
Definition big_next (p : Z) : Z := p + 8.
Definition huge_prev (p : Z) : Z := p.
Definition huge_next (p : Z) : Z := p + 8.
Definition huge_sz (p : Z) : Z := p + 16.

(** ** The system *)

(** Addresses that the system chooses: for a length, and for a region that
    changes its length. *)
Class Os := {
  mmap : list (Z * Z) -> Z -> Z;
  mremap : list (Z * Z) -> Z -> Z -> Z -> Z
}.

Definition page_up (n : Z) : Z := (n + 4095) / 4096 * 4096.

Section Calls.
Context {os : Os}.

Definition alloc_page (sz : Z) : prog Z := fun A =>
  let p := mmap (regions A) sz in
  if p =? MAP_FAILED then Some (p, A)
  else Some (p, up_regions ((p, page_up sz) :: regions A) (up_memory (zero_fill (memory A) p (page_up sz)) A)).

(** The pages of [n] bytes from [p] on: the start of a region. *)
Fixpoint cut_region (p n : Z) (rs : list (Z * Z)) : option (list (Z * Z)) :=
  match rs with
  | [] => None
  | (a, len) :: rs =>
      if a =? p then
        if n =? len then Some rs else if n <? len then Some ((a + n, len - n) :: rs) else None
      else rs ← cut_region p n rs; Some ((a, len) :: rs)
  end.

Definition munmap (p n : Z) : prog unit := fun A =>
  rs ← cut_region p (page_up n) (regions A); Some (tt, up_regions rs A).

Definition mremap_ (p osz nsz : Z) : prog Z := fun A =>
  let q := mremap (regions A) p osz nsz in
  if q =? MAP_FAILED then Some (q, A)
  else
    rs ← cut_region p (page_up osz) (regions A);
    let l := get_bytes (memory A) p (Z.min (page_up osz) (page_up nsz)) in
    Some (q, up_regions ((q, page_up nsz) :: rs) (up_memory (put_bytes (zero_fill (memory A) q (page_up nsz)) q l) A)).

(** ** The allocator *)

Definition allocator_new (m : mem) (rs : list (Z * Z)) : option allocator :=
  '(p, A) ← alloc_page CHUNKSIZE (Allocator m rs 0 [] 0 0 0 0);
  if mapped A p sizeof_allocator then
    let A := Allocator (put_bytes (memory A) p (replicate (Z.to_nat sizeof_allocator) 0)) (regions A) p
               (replicate (Z.to_nat (SMALLLEVEL + 1)) 0) p 0 0 sizeof_allocator in
    '(_, A) ← wr (huge_next (huge_list A)) (huge_list A) A;
    '(_, A) ← wr (huge_prev (huge_list A)) (huge_list A) A;
    Some A
  else None.

Definition chunk_new (sz : Z) : prog Z :=
  nc ← alloc_page CHUNKSIZE;
  if nc =? 0 then mret 0
  else
    c ← uget chunk_list;
    _ ← wr (next_ nc) c;
    _ ← umod (up_chunk nc);
    _ ← umod (up_used (sizeof_chunk + sz));
    mret (nc + sizeof_chunk).

Definition small_get (n : Z) : prog Z := fun A => p ← aget (small_list A) n; Some (p, A).
Definition small_set (n p : Z) : prog unit := fun A => l ← aset (small_list A) n p; Some (tt, up_small l A).

Definition memory_free_small (ptr n : Z) : prog unit :=
  p ← small_get n;
  _ ← wr (next_ ptr) p;
  small_set n ptr.

(** The classes above [n], from [i] on, [k] of them. *)
Fixpoint small_search (k : nat) (n sz i : Z) : prog Z :=
  match k with
  | O => chunk_new sz
  | S k =>
      ret_ ← small_get i;
      if negb (ret_ =? 0) then
        nx ← rd (next_ ret_);
        _ ← small_set i nx;
        let idx := i - n - 1 in
        let sb := ret_ + sz in
        p ← small_get idx;
        _ ← wr (next_ sb) p;
        _ ← small_set idx sb;
        mret ret_
      else small_search k n sz (i + 1)
  end.

Definition memory_alloc_small (n : Z) : prog Z :=
  node ← small_get n;
  if negb (node =? 0) then
    nx ← rd (next_ node);
    _ ← small_set n nx;
    mret node
  else
    let sz := (n + 1) * SMALLSIZE in
    used ← uget chunk_used;
    if used + sz <=? CHUNKSIZE then
      c ← uget chunk_list;
      _ ← umod (up_used (used + sz));
      mret (c + used)
    else small_search (Z.to_nat (SMALLLEVEL - n)) n sz (n + 1).

Definition memory_alloc_huge (sz : Z) : prog Z :=
  h ← alloc_page (sizeof_hugeblock + sz);
  if h =? 0 then mret 0
  else
    l ← uget huge_list;
    _ ← wr (huge_prev h) l;
    nx ← rd (huge_next l);
    _ ← wr (huge_next h) nx;
    _ ← wr (huge_sz h) sz;
    nx ← rd (huge_next l);
    _ ← wr (huge_prev nx) h;
    _ ← wr (huge_next l) h;
    mret (h + sizeof_hugeblock).

Definition memory_free_huge (ptr : Z) : prog unit :=
  let ptr := ptr - sizeof_hugeblock in
  p ← rd (huge_prev ptr);
  nx ← rd (huge_next ptr);
  _ ← wr (huge_next p) nx;
  nx ← rd (huge_next ptr);
  p ← rd (huge_prev ptr);
  _ ← wr (huge_prev nx) p;
  sz ← rd (huge_sz ptr);
  munmap ptr (sz + sizeof_hugeblock).

(** The rest of a block: [f] bytes at [ptr], when it is small. *)
Definition rest_class (f : Z) : Z := Z.quot (f - 1) SMALLSIZE.

(** [b->next = 0; A->big_tail->next = b; A->big_tail = b] *)
Definition big_append (b : Z) : prog unit :=
  _ ← wr (big_next b) 0;
  t ← uget big_tail;
  _ ← wr (big_next t) b;
  umod (up_tail b).

(** The loop of [lookup_biglist] from [b] on; [sz] is compared as [size_t] and
    [f] is an [int]. *)
Fixpoint big_loop (k : nat) (term b sz : Z) : prog Z :=
  match k with
  | O => mret 0
  | S k =>
      nx ← rd (big_next b);
      _ ← umod (up_head nx);
      bsz ← rd (big_sz b);
      if bsz >=? sz then
        if bsz =? sz then mret b
        else
          let f := i32 (bsz - sz) in
          _ ← wr (big_sz b) sz;
          let idx := rest_class f in
          let ptr := b + sz in
          if idx <? SMALLLEVEL then
            _ ← memory_free_small ptr idx; mret b
          else
            _ ← wr (big_sz ptr) f;
            _ ← (if f >? sz then
                   h ← uget big_head;
                   _ ← wr (big_next ptr) h;
                   umod (up_head ptr)
                 else big_append ptr);
            mret b
      else
        _ ← big_append b;
        b ← uget big_head;
        if negb (b =? term) then big_loop k term b sz else mret 0
  end.

Definition lookup_biglist (sz : Z) : prog Z :=
  b ← uget big_head;
  if b =? 0 then mret 0
  else
    t ← uget big_tail;
    if b =? t then
      bsz ← rd (big_sz b);
      if bsz >=? sz then
        let f := i32 (bsz - sz) in
        if f =? 0 then
          _ ← umod (up_head 0); _ ← umod (up_tail 0); mret b
        else
          let idx := rest_class f in
          let ptr := b + sz in
          if idx <? SMALLLEVEL then
            _ ← memory_free_small ptr idx;
            _ ← umod (up_head 0); _ ← umod (up_tail 0); mret b
          else
            _ ← umod (up_head ptr); _ ← umod (up_tail ptr); mret b
      else mret 0
    else big_loop BIGSEARCHDEPTH b b sz.

(** [(sz + sizeof(size_t) + 7) & ~7] *)
Definition big_round (sz : Z) : Z := Z.land (sz + sizeof_size_t + 7) (Z.lnot 7).

Definition memory_alloc_big (sz : Z) : prog Z :=
  let sz := big_round sz in
  used ← uget chunk_used;
  if used + sz <=? CHUNKSIZE then
    c ← uget chunk_list;
    let b := c + used in
    _ ← umod (up_used (used + sz));
    _ ← wr (big_sz b) sz;
    mret (b + sizeof_size_t)
  else
    b ← lookup_biglist sz;
    if b =? 0 then
      b ← chunk_new sz;
      if b =? 0 then mret 0
      else _ ← wr (big_sz b) sz; mret (b + sizeof_size_t)
    else mret (b + sizeof_size_t).

Definition memory_free_big (ptr : Z) : prog unit :=
  let b := ptr - sizeof_size_t in
  h ← uget big_head;
  if h =? 0 then
    _ ← umod (up_head b); _ ← umod (up_tail b); wr (big_next b) 0
  else
    _ ← wr (big_next b) h; umod (up_head b).

Definition memory_alloc (nsize : Z) : prog Z :=
  if nsize <=? SMALLLEVEL * SMALLSIZE then
    if nsize =? 0 then mret 0 else memory_alloc_small ((nsize - 1) / SMALLSIZE)
  else if nsize <=? HUGESIZE then memory_alloc_big nsize
  else memory_alloc_huge nsize.

Definition memory_free (ptr osize : Z) : prog unit :=
  if osize <=? SMALLLEVEL * SMALLSIZE then memory_free_small ptr ((osize - 1) / SMALLSIZE)
  else if osize <=? HUGESIZE then memory_free_big ptr
  else memory_free_huge ptr.

Definition memory_realloc_huge (ptr nsize : Z) : prog Z :=
  let h := ptr - sizeof_hugeblock in
  sz ← rd (huge_sz h);
  nh ← mremap_ h (sz + sizeof_hugeblock) (nsize + sizeof_hugeblock);
  if nh =? 0 then mret 0
  else
    _ ← wr (huge_sz nh) nsize;
    if h =? nh then mret ptr
    else
      p ← rd (huge_prev nh);
      _ ← wr (huge_next p) nh;
      nx ← rd (huge_next nh);
      _ ← wr (huge_prev nx) nh;
      mret (nh + sizeof_hugeblock).

(** [memcpy] between blocks. *)
Definition copy_bytes (d s n : Z) : prog unit := fun A =>
  if mapped A d n && mapped A s n && ((d + n <=? s) || (s + n <=? d)) then
    Some (tt, up_memory (put_bytes (memory A) d (get_bytes (memory A) s n)) A)
  else None.

Definition pixel_lalloc (ptr osize nsize : Z) : prog Z :=
  if ptr =? 0 then memory_alloc nsize
  else if nsize =? 0 then _ ← memory_free ptr osize; mret 0
  else if (osize >? HUGESIZE) && (nsize >? HUGESIZE) then memory_realloc_huge ptr nsize
  else if nsize <=? osize then mret ptr
  else
    tmp ← memory_alloc nsize;
    if tmp =? 0 then mret 0
    else
      _ ← copy_bytes tmp ptr osize;
      _ ← memory_free ptr osize;
      mret tmp.

(** [allocator_free]: the loops over the huge blocks and the chunks; there are
    not more than regions. *)
Fixpoint free_huge_loop (k : nat) (h : Z) : prog unit :=
  match k with
  | O => fun _ => None
  | S k =>
      l ← uget huge_list;
      if h =? l then mret tt
      else
        nh ← rd (huge_next h);
        sz ← rd (huge_sz h);
        _ ← munmap h sz;
        free_huge_loop k nh
  end.

Fixpoint free_chunk_loop (k : nat) (c : Z) : prog unit :=
  match k with
  | O => fun _ => None
  | S k =>
      if c =? 0 then mret tt
      else nc ← rd (next_ c); _ ← munmap c CHUNKSIZE; free_chunk_loop k nc
  end.

Definition allocator_free : prog unit :=
  l ← uget huge_list;
  h ← rd (huge_next l);
  k ← uget (fun A => S (length (regions A)));
  _ ← free_huge_loop k h;
  c ← uget chunk_list;
  free_chunk_loop k c.

End Calls.

(** ** Examples *)

(** A system that maps each region behind the others, up to 2^47. *)
Definition demo_end (rs : list (Z * Z)) : Z := foldr (fun r e => Z.max (r.1 + r.2) e) 65536 rs.
Definition demo_map (rs : list (Z * Z)) (sz : Z) : Z := if demo_end rs + page_up sz <=? 2 ^ 47 then demo_end rs else MAP_FAILED.
Definition demo_os : Os := {| mmap := demo_map; mremap rs p osz nsz := demo_map rs nsz |}.

(** Calls with a pointer, an old and a new size, the pointers by the number of
    the call that returned them. *)
Fixpoint lalloc_calls (A : allocator) (cs : list (option nat * Z * Z)) (rs : list Z) : option (list Z * allocator) :=
  match cs with
  | [] => Some (rs, A)
  | (p, osize, nsize) :: cs =>
      ptr ← match p with None => Some 0 | Some i => rs !! i end;
      '(r, A) ← pixel_lalloc (os := demo_os) ptr osize nsize A;
      lalloc_calls A cs (rs ++ [r])
  end.

Definition demo_calls (cs : list (option nat * Z * Z)) : option (list Z) :=
  A ← allocator_new (os := demo_os) ∅ []; '(rs, _) ← lalloc_calls A cs []; Some rs.

(** The only free big block (608 bytes) is split: its first 512 bytes are
    returned, 96 bytes become a small block, and the size of the first part
    stays 608.  Freed and allocated again, the block has all of the 608 bytes,
    and the next small block lies inside of it. *)
Example lone_split_overlap : exists r,
  demo_calls [(None, 0, 600); (None, 0, 31800); (Some 0%nat, 600, 0); (None, 0, 500);
              (Some 3%nat, 500, 0); (None, 0, 600); (None, 0, 90)] = Some r /\
  exists p q, r !! 5%nat = Some p /\ r !! 6%nat = Some q /\ p <= q /\ q + 90 <= p + 600.
Proof.
  eexists. split; [vm_compute; reflexivity|]. eexists _, _. split; [reflexivity|]. split; [reflexivity|]. split; vm_compute; congruence.
Qed.

(** A huge block whose header reaches into another page: [allocator_free] leaves
    that page mapped. *)
Example free_leaves_page :
  (A ← allocator_new (os := demo_os) ∅ []; '(_, A) ← lalloc_calls A [(None, 0, 40960)] [];
   '(_, A) ← allocator_free A; Some (regions A)) = Some [(139264, 4096)].
Proof. vm_compute. reflexivity. Qed.
