(* ===== verification/LallocInv.v ===== *)
(** * The allocator of Lua services: invariant, small and big blocks (src/service/lalloc.c)

    The memory that the allocator has is cut into segments: blocks of the
    clients, free blocks of each list, nodes of huge blocks, the rest of the
    current chunk.  [inv] says that they do not overlap, that the lists run
    through the free ones, and what the clients have written.  The lemmas [wp_]
    say what the functions for small blocks, chunks and big blocks do to it. *)

From S2P Require Import Prelude Lalloc.

(** ** Bytes of memory *)

Definition agree (m m' : mem) (a n : Z) : Prop := forall x, a <= x < a + n -> byte_at m' x = byte_at m x.

Lemma agree_sub m m' a n b k : agree m m' a n -> a <= b -> b + k <= a + n -> agree m m' b k.
Proof. intros H H1 H2 x Hx. apply H. lia. Qed.

Lemma agree_refl m a n : agree m m a n.
Proof. done. Qed.

Lemma agree_trans m1 m2 m3 a n : agree m1 m2 a n -> agree m2 m3 a n -> agree m1 m3 a n.
Proof. intros H1 H2 x Hx. by rewrite H2, H1. Qed.

Lemma get_bytes_length m p n : zlen (get_bytes m p n) = Z.max 0 n.
Proof. unfold get_bytes. rewrite length_map, length_seqZ. lia. Qed.

Lemma get_bytes_lookup m p n (i : nat) : Z.of_nat i < n -> get_bytes m p n !! i = Some (byte_at m (p + Z.of_nat i)).
Proof. intros Hi. unfold get_bytes. rewrite list_lookup_fmap, lookup_seqZ_lt by lia. by cbn. Qed.

Lemma get_bytes_agree m m' p n : agree m m' p n -> get_bytes m' p n = get_bytes m p n.
Proof. intros H. apply map_ext_in. intros i Hi. apply list_elem_of_In, elem_of_seqZ in Hi. apply H. lia. Qed.

Lemma byte_put_ne m p l a : a < p \/ p + zlen l <= a -> byte_at (put_bytes m p l) a = byte_at m a.
Proof.
  revert p. induction l as [|b l IH]; intros p Ha; [done|]. cbn [put_bytes length] in *. unfold byte_at in *.
  rewrite lookup_insert_ne by lia. apply IH. lia.
Qed.

Lemma byte_put_eq m p l (i : nat) b : l !! i = Some b -> byte_at (put_bytes m p l) (p + Z.of_nat i) = b.
Proof.
  revert p i. induction l as [|b0 l IH]; intros p [|i] Hi; cbn in Hi; simplify_eq; cbn [put_bytes]; unfold byte_at in *.
  - by rewrite Z.add_0_r, lookup_insert_eq.
  - rewrite lookup_insert_ne by lia. replace (p + Z.of_nat (S i)) with (p + 1 + Z.of_nat i) by lia. by apply IH.
Qed.

Lemma get_put_bytes m p l : get_bytes (put_bytes m p l) p (zlen l) = l.
Proof.
  apply list_eq. intros i. destruct (l !! i) as [b|] eqn:E.
  - rewrite get_bytes_lookup by (apply lookup_lt_Some in E; lia). f_equal. by apply byte_put_eq.
  - apply lookup_ge_None in E. apply lookup_ge_None. pose proof (get_bytes_length (put_bytes m p l) p (zlen l)). lia.
Qed.

Lemma put_agree m p l a n : a + n <= p \/ p + zlen l <= a -> agree m (put_bytes m p l) a n.
Proof. intros H x Hx. apply byte_put_ne. lia. Qed.

Lemma load_agree m m' p : agree m m' p 8 -> load m' p = load m p.
Proof. intros H. unfold load. by rewrite (get_bytes_agree m m'). Qed.

Lemma load_store m p v : 0 <= v < 2 ^ 64 -> load (store m p v) p = v.
Proof.
  intros Hv. unfold load, store. pose proof (get_put_bytes m p (put_le 8 v)) as E. rewrite put_le_length in E.
  change (Z.of_nat 8) with 8 in E. rewrite E, get_put_le. apply Z.mod_small. done.
Qed.

Lemma store_agree m p v a n : a + n <= p \/ p + 8 <= a -> agree m (store m p v) a n.
Proof. intros H. apply put_agree. rewrite put_le_length. lia. Qed.

Lemma load_store_ne m p q v : p + 8 <= q \/ q + 8 <= p -> load (store m p v) q = load m q.
Proof. intros H. apply load_agree, store_agree. lia. Qed.

Lemma byte_zero_fill m p n a : byte_at (zero_fill m p n) a = if (p <=? a) && (a <? p + n) then 0 else byte_at m a.
Proof.
  unfold byte_at, zero_fill. destruct (m !! a) as [b|] eqn:E.
  - destruct (decide (a < p \/ p + n <= a)) as [H|H].
    + rewrite (map_lookup_filter_Some_2 _ _ _ b) by done. cbn. case_match; [lia|done].
    + rewrite map_lookup_filter_None_2; [case_match; [done|lia]|]. right. by intros x Hx.
  - rewrite map_lookup_filter_None_2 by (by left). by case_match.
Qed.

Lemma zero_fill_agree m p n a k : a + k <= p \/ p + n <= a -> agree m (zero_fill m p n) a k.
Proof. intros H x Hx. rewrite byte_zero_fill. case_match; [lia|done]. Qed.

(** ** Segments *)

Abbreviation seg := (Z * Z)%type.

(** Segments that share no byte; an empty one shares none. *)
Definition apart (x y : seg) : Prop := x.2 <= 0 \/ y.2 <= 0 \/ x.1 + x.2 <= y.1 \/ y.1 + y.2 <= x.1.

Fixpoint disj (l : list seg) : Prop := match l with [] => True | x :: l => Forall (apart x) l /\ disj l end.

Lemma seg_apart_sym x y : apart x y -> apart y x.
Proof. unfold apart. lia. Qed.

#[export] Instance disj_perm : Proper (Permutation ==> iff) disj.
Proof.
  assert (H : forall l l', l ≡ₚ l' -> disj l -> disj l').
  { induction 1 as [|x l l' E IH|x y l|l1 l2 l3 _ IH1 _ IH2]; cbn [disj].
    - done.
    - intros [H1 H2]. split; [by rewrite <- E|by apply IH].
    - intros [[H1 H2]%Forall_cons [H3 H4]]. split; [apply Forall_cons; split; [by apply seg_apart_sym|done]|done].
    - auto. }
  intros l l' E. split; apply H; [done|by symmetry].
Qed.

Lemma disj_app_r l1 l2 : disj (l1 ++ l2) -> disj l2.
Proof. induction l1 as [|x l1 IH]; [done|]. intros [_ ?]. by apply IH. Qed.

Lemma disj_cons_inv x l : disj (x :: l) -> Forall (apart x) l /\ disj l.
Proof. done. Qed.

Lemma apart_sub a n b k y : apart (a, n) y -> 0 <= n -> a <= b -> b + k <= a + n -> apart (b, k) y.
Proof. unfold apart. cbn. lia. Qed.

Lemma disj_sub a n b k l : 0 <= n -> a <= b -> b + k <= a + n -> disj ((a, n) :: l) -> disj ((b, k) :: l).
Proof. intros Hn H1 H2 [H3 H4]. split; [|done]. eapply Forall_impl; [exact H3|]. intros y Hy. by eapply apart_sub. Qed.

Lemma disj_split a n k l : 0 <= k <= n -> disj ((a, n) :: l) -> disj ((a, k) :: (a + k, n - k) :: l).
Proof.
  intros Hk H. split.
  - apply Forall_cons. split; [unfold apart; cbn; lia|]. apply (disj_sub a n a k) in H; [by destruct H|lia..].
  - apply (disj_sub a n); [lia..|done].
Qed.

(** What is written into one segment leaves the others alone. *)
Lemma disj_put_agree m p w a n l : disj ((a, n) :: l) -> a <= p -> p + zlen w <= a + n ->
  Forall (fun x => agree m (put_bytes m p w) x.1 x.2) l.
Proof.
  intros [H _] H1 H2. eapply Forall_impl; [exact H|]. intros [b k] Hb. cbn [fst snd]. unfold apart in Hb. cbn [fst snd] in Hb.
  destruct (decide (k <= 0)); [intros x Hx; lia|]. destruct (decide (zlen w = 0)) as [E|].
  - destruct w; [done|cbn in E; lia].
  - apply put_agree. lia.
Qed.

Definition region_ok (r : seg) : Prop := 0 < r.1 /\ 0 < r.2 /\ r.1 + r.2 <= 2 ^ 63 /\ r.1 mod 4096 = 0 /\ r.2 mod 4096 = 0.

(** A segment lies in a region, and starts at a multiple of eight. *)
Definition seg_ok (rs : list seg) (x : seg) : Prop :=
  0 <= x.2 /\ (0 < x.2 -> x.1 mod 8 = 0 /\ exists r, r ∈ rs /\ within x.1 x.2 r = true).

Lemma within_sub a n b k r : within a n r = true -> a <= b -> b + k <= a + n -> within b k r = true.
Proof. unfold within. lia. Qed.

Lemma seg_ok_sub rs a n b k : seg_ok rs (a, n) -> a <= b -> b + k <= a + n -> 0 <= k -> (b - a) mod 8 = 0 -> seg_ok rs (b, k).
Proof.
  intros [H1 H2] Hab Hbk Hk Hm. cbn [fst snd] in *. split; [done|]. cbn [fst snd]. intros Hk'. destruct H2 as (Ha & r & Hr & Hw); [lia|].
  split; [zdiv|]. exists r. split; [done|]. by eapply within_sub.
Qed.

Lemma seg_ok_mapped A a n p k : seg_ok (regions A) (a, n) -> 0 < n -> a <= p -> p + k <= a + n -> mapped A p k = true.
Proof.
  intros [_ H] Hn H1 H2. destruct (H Hn) as (_ & r & Hr & Hw). unfold mapped. apply existsb_exists.
  exists r. split; [by apply list_elem_of_In|]. by eapply within_sub.
Qed.

Lemma seg_ok_range rs a n : seg_ok rs (a, n) -> Forall region_ok rs -> 0 < n -> 0 < a /\ a + n <= 2 ^ 63 /\ a mod 8 = 0.
Proof.
  intros [_ H] Hrs Hn. destruct (H Hn) as (Hm & [b k] & Hr & Hw). rewrite Forall_forall in Hrs. specialize (Hrs _ Hr).
  unfold region_ok, within in *. cbn [fst snd] in *. lia.
Qed.

(** Segments laid out in regions. *)
Definition laid (rs : list seg) (l : list seg) : Prop := disj l /\ Forall (seg_ok rs) l.

#[export] Instance laid_perm rs : Proper (Permutation ==> iff) (laid rs).
Proof. intros l l' E. unfold laid. by rewrite E. Qed.

Lemma laid_tail rs x l : laid rs (x :: l) -> laid rs l.
Proof. intros [[_ H1] H2%Forall_cons_1]. split; [done|by destruct H2]. Qed.

Lemma laid_app_r rs l1 l2 : laid rs (l1 ++ l2) -> laid rs l2.
Proof. induction l1 as [|x l1 IH]; [done|]. intros H%laid_tail. by apply IH. Qed.

Lemma laid_sub rs a n b k l :
  laid rs ((a, n) :: l) -> a <= b -> b + k <= a + n -> 0 <= k -> (b - a) mod 8 = 0 -> laid rs ((b, k) :: l).
Proof.
  intros [H1 [H2 H3]%Forall_cons] Hab Hbk Hk Hm. destruct H2 as [Hn ?] eqn:E. cbn [snd] in Hn. split; [by apply (disj_sub a n)|].
  apply Forall_cons. split; [by eapply seg_ok_sub|done].
Qed.

Lemma laid_split rs a n k l : laid rs ((a, n) :: l) -> 0 <= k <= n -> k mod 8 = 0 -> laid rs ((a, k) :: (a + k, n - k) :: l).
Proof.
  intros [H1 [H2 H3]%Forall_cons] Hk Hm. split; [by apply disj_split|]. apply Forall_cons. split; [|apply Forall_cons; split; [|done]].
  - eapply seg_ok_sub; [exact H2|lia..|]. by rewrite Z.sub_diag.
  - eapply seg_ok_sub; [exact H2|lia..|]. by replace (a + k - a) with k by lia.
Qed.

Lemma laid_head rs a n l : laid rs ((a, n) :: l) -> seg_ok rs (a, n).
Proof. by intros [_ [? _]%Forall_cons]. Qed.

(** Writing into one of the segments. *)
Lemma laid_agree rs m p w a n l : laid rs ((a, n) :: l) -> a <= p -> p + zlen w <= a + n ->
  Forall (fun x => agree m (put_bytes m p w) x.1 x.2) l.
Proof. intros [H _]. by apply (disj_put_agree m p w a n). Qed.

Lemma laid_store rs m p v a n l : laid rs ((a, n) :: l) -> a <= p -> p + 8 <= a + n ->
  Forall (fun x => agree m (store m p v) x.1 x.2) l.
Proof. intros H H1 H2. eapply laid_agree; [exact H|done|]. by rewrite put_le_length. Qed.

(** ** The lists in memory *)

Definition round8 (n : Z) : Z := (n + 7) / 8 * 8.

(** A list of free blocks, linked by their first words. *)
Fixpoint chain (m : mem) (hd : Z) (l : list Z) : Prop :=
  match l with [] => hd = 0 | a :: l => hd = a /\ chain m (load m a) l end.

(** A list of big blocks, linked by their second words. *)
Fixpoint big_chain (m : mem) (hd : Z) (l : list Z) : Prop :=
  match l with [] => hd = 0 | a :: l => hd = a /\ big_chain m (load m (big_next a)) l end.

(** Neighbours in the ring of huge blocks. *)
Definition linked (m : mem) (l : list Z) : Prop :=
  forall (i : nat) x y, l !! i = Some x -> l !! S i = Some y -> load m (huge_next x) = y /\ load m (huge_prev y) = x.

Lemma chain_agree m m' hd l : chain m hd l -> (forall a, a ∈ l -> agree m m' a 8) -> chain m' hd l.
Proof.
  revert hd. induction l as [|a l IH]; intros hd Hc Ha; [done|]. destruct Hc as [-> Hc]. split; [done|].
  rewrite (load_agree m m') by (apply Ha; by left). apply IH; [done|]. intros b Hb. apply Ha. by right.
Qed.

Lemma big_chain_agree m m' hd l : big_chain m hd l -> (forall a, a ∈ l -> agree m m' a 16) -> big_chain m' hd l.
Proof.
  revert hd. induction l as [|a l IH]; intros hd Hc Ha; [done|]. destruct Hc as [-> Hc]. split; [done|].
  rewrite (load_agree m m'); [apply IH; [done|]; intros b Hb; apply Ha; by right|].
  apply (agree_sub _ _ a 16); [apply Ha; by left|unfold big_next; lia..].
Qed.

Lemma linked_agree m m' l : linked m l -> (forall a, a ∈ l -> agree m m' a 16) -> linked m' l.
Proof.
  intros Hl Ha i x y Hx Hy. destruct (Hl i x y Hx Hy) as [H1 H2].
  rewrite !(load_agree m m'); [done| |].
  - apply (agree_sub _ _ y 16); [apply Ha; by eapply list_elem_of_lookup_2|unfold huge_prev; lia..].
  - apply (agree_sub _ _ x 16); [apply Ha; by eapply list_elem_of_lookup_2|unfold huge_next; lia..].
Qed.

(** ** What the allocator has *)

Inductive kind := KSmall | KHead (z : Z) | KHuge.

(** A block of the client: its address and contents, and the segment it is in. *)
Record user := User { u_ptr : Z; u_data : list Z; u_lo : Z; u_len : Z; u_kind : kind }.
Abbreviation u_size u := (zlen (u_data u)).

(** A block is freed by its size: small blocks need the room of their class, big
    ones a size in front of them, huge ones their node. *)
Definition user_ok (m : mem) (rs : list seg) (hs : list Z) (u : user) : Prop :=
  0 < u_size u /\ get_bytes m (u_ptr u) (u_size u) = u_data u /\
  match u_kind u with
  | KSmall => u_ptr u = u_lo u /\ u_len u <= 256 /\ round8 (u_size u) <= u_len u
  | KHead z => u_ptr u = u_lo u + 8 /\ load m (u_lo u) = z /\ 256 < z < 2 ^ 31 /\ round8 z <= u_len u /\
      u_size u <= HUGESIZE /\ round8 (u_size u) + 8 <= u_len u
  | KHuge => u_ptr u = u_lo u + 8 /\ load m (u_lo u) = u_size u /\ HUGESIZE < u_size u < 2 ^ 31 /\
      u_len u = page_up (u_size u + 24) - 16 /\ u_lo u - 16 ∈ hs /\ (u_lo u - 16, page_up (u_size u + 24)) ∈ rs
  end.

(** A free big block: address, size field and length of its segment. *)
Record big := Big { b_at : Z; b_sz : Z; b_len : Z }.
Definition big_ok (m : mem) (b : big) : Prop :=
  load m (big_sz (b_at b)) = b_sz b /\ 256 < b_sz b < 2 ^ 31 /\ round8 (b_sz b) <= b_len b.

Record ghost := Ghost { g_small : list (list Z); g_big : list big; g_user : list user; g_huge : list Z }.

Fixpoint small_segs (w : Z) (ls : list (list Z)) : list seg :=
  match ls with [] => [] | l :: ls => map (fun a => (a, w)) l ++ small_segs (w + 8) ls end.

Definition set_small ls G := Ghost ls (g_big G) (g_user G) (g_huge G).
Definition set_big l G := Ghost (g_small G) l (g_user G) (g_huge G).
Definition set_user l G := Ghost (g_small G) (g_big G) l (g_huge G).
Definition set_huge l G := Ghost (g_small G) (g_big G) (g_user G) l.

Definition user_seg (u : user) : seg := (u_lo u, u_len u).
Definition big_seg (b : big) : seg := (b_at b, b_len b).

Definition bump (A : allocator) : seg := (chunk_list A + chunk_used A, CHUNKSIZE - chunk_used A).

Definition segs (G : ghost) (A : allocator) : list seg :=
  small_segs 8 (g_small G) ++ map big_seg (g_big G) ++ map user_seg (g_user G) ++
  map (fun h => (h, 16)) (huge_list A :: g_huge G) ++ [bump A].

(** The state of the allocator, with segments [hs] in the hands of the running
    function. *)
Record inv (hs : list seg) (G : ghost) (A : allocator) : Prop := {
  iv_laid : laid (regions A) (hs ++ segs G A);
  iv_regions : Forall region_ok (regions A) /\ disj (regions A);
  iv_small : Forall2 (chain (memory A)) (small_list A) (g_small G);
  iv_classes : length (g_small G) = 33%nat;
  iv_big : big_chain (memory A) (big_head A) (map b_at (g_big G));
  iv_tail : g_big G <> [] -> last (map b_at (g_big G)) = Some (big_tail A);
  iv_bigs : Forall (big_ok (memory A)) (g_big G);
  iv_users : Forall (user_ok (memory A) (regions A) (g_huge G)) (g_user G);
  iv_huge : linked (memory A) (huge_list A :: g_huge G ++ [huge_list A]);
  iv_used : 0 <= chunk_used A <= CHUNKSIZE /\ chunk_used A mod 8 = 0
}.

Lemma small_segs_insert w ls n l : ls !! n = Some l -> exists rest, forall l',
  small_segs w (<[n := l']> ls) ≡ₚ map (fun a => (a, w + 8 * Z.of_nat n)) l' ++ rest.
Proof.
  revert w n. induction ls as [|l0 ls IH]; intros w [|n] Hn; cbn in Hn; simplify_eq.
  - exists (small_segs (w + 8) ls). intros l'. cbn [small_segs insert list_insert]. by rewrite Z.add_0_r.
  - destruct (IH (w + 8) n Hn) as [rest Hr]. exists (map (fun a => (a, w)) l0 ++ rest). intros l'.
    change (<[S n := l']> (l0 :: ls)) with (l0 :: <[n := l']> ls). cbn [small_segs]. rewrite Hr.
    replace (w + 8 + 8 * Z.of_nat n) with (w + 8 * Z.of_nat (S n)) by lia. solve_Permutation.
Qed.

Lemma small_segs_lookup w ls n l : ls !! n = Some l -> exists rest,
  small_segs w ls ≡ₚ map (fun a => (a, w + 8 * Z.of_nat n)) l ++ rest /\
  forall l', small_segs w (<[n := l']> ls) ≡ₚ map (fun a => (a, w + 8 * Z.of_nat n)) l' ++ rest.
Proof.
  intros Hn. destruct (small_segs_insert w ls n l Hn) as [rest Hr]. exists rest. split; [|done].
  rewrite <- (Hr l). by rewrite list_insert_id.
Qed.

Lemma small_seg_in ls w n l a : ls !! n = Some l -> a ∈ l -> (a, w + 8 * Z.of_nat n) ∈ small_segs w ls.
Proof.
  intros Hn Ha. destruct (small_segs_lookup w ls n l Hn) as (rest & E & _). rewrite E. apply elem_of_app. left.
  apply list_elem_of_fmap. by exists a.
Qed.

Lemma round8_le n : n <= round8 n.
Proof. unfold round8. zdiv. Qed.

Lemma round8_mono n k : n <= k -> round8 n <= round8 k.
Proof. unfold round8. intros. zdiv. Qed.

Lemma page_up_le n : n <= page_up n.
Proof. unfold page_up. zdiv. Qed.

Lemma user_ok_fits m rs hs u : user_ok m rs hs u -> u_lo u <= u_ptr u /\ u_ptr u + u_size u <= u_lo u + u_len u /\ 0 < u_size u.
Proof.
  intros (H0 & _ & H). pose proof (round8_le (u_size u)). pose proof (page_up_le (u_size u + 24)). destruct (u_kind u); lia.
Qed.

Lemma user_ok_agree m m' rs hs u : user_ok m rs hs u -> agree m m' (u_lo u) (u_len u) -> user_ok m' rs hs u.
Proof.
  intros Hu Ha. pose proof (user_ok_fits _ _ _ _ Hu) as (F1 & F2 & F3). destruct Hu as (H0 & Hd & H).
  assert (Hh : u_ptr u = u_lo u + 8 -> load m' (u_lo u) = load m (u_lo u)).
  { intros E. apply load_agree. eapply agree_sub; [exact Ha|lia|lia]. }
  split; [done|]. split; [rewrite (get_bytes_agree m m'); [done|]; eapply agree_sub; [exact Ha|lia|lia]|].
  destruct (u_kind u); [done|rewrite Hh by tauto; done|rewrite Hh by tauto; done].
Qed.

Lemma big_ok_agree m m' b : big_ok m b -> agree m m' (b_at b) (b_len b) -> big_ok m' b.
Proof.
  intros (H1 & H2 & H3) Ha. split; [|done]. rewrite (load_agree m m'); [done|]. pose proof (round8_le (b_sz b)).
  eapply agree_sub; [exact Ha|unfold big_sz; lia..].
Qed.

Section Memory.
Implicit Types (G : ghost) (A : allocator) (hs : list seg) (m : mem).

Lemma forall_segs (P : seg -> Prop) G A : Forall P (segs G A) <->
  Forall P (small_segs 8 (g_small G)) /\ Forall (fun b => P (big_seg b)) (g_big G) /\ Forall (fun u => P (user_seg u)) (g_user G) /\
  Forall (fun h => P (h, 16)) (huge_list A :: g_huge G) /\ P (bump A).
Proof.
  unfold segs. rewrite !Forall_app, !Forall_map, Forall_singleton. done.
Qed.

(** Other memory, other regions and another ring of huge blocks. *)
Lemma inv_rebuild hs hs' l rs G A m : inv hs G A -> laid rs (hs' ++ segs (set_huge l G) A) -> Forall region_ok rs /\ disj rs ->
  Forall (fun x => agree (memory A) m x.1 x.2) (small_segs 8 (g_small G) ++ map big_seg (g_big G) ++ map user_seg (g_user G)) ->
  Forall (user_ok (memory A) rs l) (g_user G) -> linked m (huge_list A :: l ++ [huge_list A]) ->
  inv hs' (set_huge l G) (up_regions rs (up_memory m A)).
Proof.
  intros [I1 I2 I3 I4 I5 I6 I7 I8 I9 I10] Hl Hrs [F1 [F2 F3]%Forall_app]%Forall_app Hu Hlk. rewrite Forall_map in F2. rewrite Forall_map in F3.
  rewrite Forall_forall in F1. rewrite Forall_forall in F2. rewrite Forall_forall in F3.
  cbn [fst snd] in *. split; try done; cbn [up_regions up_memory memory small_list big_head regions set_huge g_small g_big g_user g_huge].
  - apply Forall2_same_length_lookup. split; [by eapply Forall2_length|]. intros n hd l' Hh Hl'.
    rewrite Forall2_lookup in I3. specialize (I3 n). rewrite Hh, Hl' in I3. invc I3.
    eapply chain_agree; [done|]. intros a Ha. pose proof (small_seg_in _ 8 _ _ _ Hl' Ha) as Hin. specialize (F1 _ Hin). cbn [fst snd] in F1.
    eapply agree_sub; [exact F1|lia..].
  - eapply big_chain_agree; [exact I5|]. intros a Ha. apply list_elem_of_fmap in Ha as (b & -> & Hb).
    specialize (F2 _ Hb). cbn [big_seg fst snd] in F2. rewrite Forall_forall in I7. destruct (I7 _ Hb) as (_ & ? & ?).
    pose proof (round8_le (b_sz b)). eapply agree_sub; [exact F2|lia..].
  - rewrite Forall_forall in I7 |- *. intros b Hb. eapply big_ok_agree; [by apply I7|by apply (F2 _ Hb)].
  - rewrite Forall_forall in Hu |- *. intros u Hin. eapply user_ok_agree; [by apply Hu|by apply (F3 _ Hin)].
Qed.

Lemma inv_relink hs hs' l G A m : inv hs G A -> laid (regions A) (hs' ++ segs (set_huge l G) A) ->
  Forall (fun x => agree (memory A) m x.1 x.2) (small_segs 8 (g_small G) ++ map big_seg (g_big G) ++ map user_seg (g_user G)) ->
  Forall (user_ok (memory A) (regions A) l) (g_user G) -> linked m (huge_list A :: l ++ [huge_list A]) ->
  inv hs' (set_huge l G) (up_memory m A).
Proof. intros HI Hl Hag Hu Hlk. by apply (inv_rebuild hs hs' l (regions A) G A m HI Hl (iv_regions _ _ _ HI)). Qed.

Lemma set_huge_id G : set_huge (g_huge G) G = G.
Proof. by destruct G. Qed.

Lemma inv_memory hs hs' G A m : inv hs G A -> laid (regions A) (hs' ++ segs G A) ->
  Forall (fun x => agree (memory A) m x.1 x.2) (segs G A) -> inv hs' G (up_memory m A).
Proof.
  intros HI Hl Hag. rewrite <- (set_huge_id G). pose proof Hag as (F1 & F2 & F3 & F4 & _)%forall_segs.
  apply (inv_relink hs); [done|by rewrite set_huge_id| |apply HI|].
  - apply Forall_app. split; [done|]. apply Forall_app. rewrite !Forall_map. done.
  - rewrite Forall_forall in F4. cbn [fst snd] in F4. eapply linked_agree; [apply HI|]. intros a Ha. apply F4.
    rewrite app_comm_cons, elem_of_app, list_elem_of_singleton in Ha. destruct Ha as [Ha| ->]; [done|by left].
Qed.

Lemma inv_laid_eq hs hs' G A : inv hs G A -> laid (regions A) (hs' ++ segs G A) -> inv hs' G A.
Proof. intros [I1 I2 I3 I4 I5 I6 I7 I8 I9 I10] Hl. by split. Qed.

Lemma inv_perm hs hs' G A : inv hs G A -> hs ≡ₚ hs' -> inv hs' G A.
Proof. intros HI E. eapply inv_laid_eq; [exact HI|]. rewrite <- E. apply HI. Qed.

Lemma inv_sub a n b k hs G A : inv ((a, n) :: hs) G A -> a <= b -> b + k <= a + n -> 0 <= k -> (b - a) mod 8 = 0 -> inv ((b, k) :: hs) G A.
Proof. intros HI H1 H2 H3 H4. eapply inv_laid_eq; [exact HI|]. apply (laid_sub _ a n); [apply HI|done..]. Qed.

Lemma inv_split a n k hs G A : inv ((a, n) :: hs) G A -> 0 <= k <= n -> k mod 8 = 0 -> inv ((a, k) :: (a + k, n - k) :: hs) G A.
Proof. intros HI H1 H2. eapply inv_laid_eq; [exact HI|]. apply laid_split; [apply HI|done..]. Qed.

Lemma inv_drop x hs G A : inv (x :: hs) G A -> inv hs G A.
Proof. intros HI. eapply inv_laid_eq; [exact HI|]. eapply laid_tail, HI. Qed.

Lemma inv_head_range a n hs G A : inv ((a, n) :: hs) G A -> 0 < n -> 0 < a /\ a + n <= 2 ^ 63 /\ a mod 8 = 0.
Proof. intros HI Hn. eapply seg_ok_range; [eapply laid_head, HI|apply (iv_regions _ _ _ HI)|done]. Qed.

(** A word is written into a segment in hand. *)
Lemma wp_write a n p v hs G A (Q : unit -> allocator -> Prop) :
  inv ((a, n) :: hs) G A -> a <= p -> p + 8 <= a + n ->
  (inv ((a, n) :: hs) G (up_memory (store (memory A) p v) A) -> Q tt (up_memory (store (memory A) p v) A)) ->
  wp (wr p v) A Q.
Proof.
  intros HI H1 H2 HQ. unfold wp, wr. rewrite (seg_ok_mapped A a n) by (lia || eapply laid_head, HI). apply HQ.
  eapply inv_memory; [exact HI|apply HI|].
  pose proof (laid_store _ (memory A) p v a n (hs ++ segs G A) (iv_laid _ _ _ HI) H1 H2) as [_ H]%Forall_app. done.
Qed.

Lemma wp_read p A (Q : Z -> allocator -> Prop) : mapped A p 8 = true -> Q (load (memory A) p) A -> wp (rd p) A Q.
Proof. intros H HQ. unfold wp, rd. by rewrite H. Qed.

Lemma seg_mapped x p k hs G A : inv hs G A -> x ∈ segs G A -> 0 < x.2 -> x.1 <= p -> p + k <= x.1 + x.2 -> mapped A p k = true.
Proof.
  intros HI Hx H0 H1 H2. destruct x as [a n]. eapply seg_ok_mapped; [|done..].
  destruct (iv_laid _ _ _ HI) as [_ Hs]. rewrite Forall_forall in Hs. apply Hs, elem_of_app. by right.
Qed.

Lemma inv_mapped a n p k hs G A : inv ((a, n) :: hs) G A -> 0 < n -> a <= p -> p + k <= a + n -> mapped A p k = true.
Proof. intros HI. apply seg_ok_mapped. eapply laid_head, HI. Qed.

End Memory.

(** ** Small blocks *)

Section Steps.
Implicit Types (G : ghost) (A : allocator) (hs : list seg) (m : mem).

Lemma wp_uget {X} (f : allocator -> X) A (Q : X -> allocator -> Prop) : Q (f A) A -> wp (uget f) A Q.
Proof. done. Qed.
Lemma wp_umod (f : allocator -> allocator) A (Q : unit -> allocator -> Prop) : Q tt (f A) -> wp (umod f) A Q.
Proof. done. Qed.
Lemma wp_small_get n p A (Q : Z -> allocator -> Prop) : aget (small_list A) n = Some p -> Q p A -> wp (small_get n) A Q.
Proof. intros H HQ. unfold wp, small_get. by rewrite H. Qed.
Lemma wp_small_set n p A (Q : unit -> allocator -> Prop) : 0 <= n < zlen (small_list A) ->
  Q tt (up_small (<[Z.to_nat n := p]> (small_list A)) A) -> wp (small_set n p) A Q.
Proof. intros H HQ. unfold wp, small_set. by rewrite aset_Some. Qed.

Lemma small_length hs G A : inv hs G A -> zlen (small_list A) = 33.
Proof. intros HI. rewrite (Forall2_length _ _ _ (iv_small _ _ _ HI)), (iv_classes _ _ _ HI). done. Qed.

Lemma small_lookup hs G A n l : inv hs G A -> g_small G !! n = Some l ->
  exists hd, small_list A !! n = Some hd /\ aget (small_list A) (Z.of_nat n) = Some hd /\ chain (memory A) hd l.
Proof.
  intros HI Hl. pose proof (iv_small _ _ _ HI) as H. rewrite Forall2_lookup in H. specialize (H n). rewrite Hl in H.
  destruct (small_list A !! n) as [hd|] eqn:E; invc H. exists hd. by rewrite aget_nat.
Qed.

Lemma segs_small G A n l : g_small G !! n = Some l -> exists rest,
  segs G A ≡ₚ map (fun a => (a, 8 + 8 * Z.of_nat n)) l ++ rest /\
  forall l' A', bump A' = bump A -> base A' = base A ->
    segs (set_small (<[n := l']> (g_small G)) G) A' ≡ₚ map (fun a => (a, 8 + 8 * Z.of_nat n)) l' ++ rest.
Proof.
  intros Hl. destruct (small_segs_lookup 8 _ _ _ Hl) as (rest & E1 & E2).
  exists (rest ++ map big_seg (g_big G) ++ map user_seg (g_user G) ++ map (fun h => (h, 16)) (huge_list A :: g_huge G) ++ [bump A]).
  split; [unfold segs; rewrite E1; by rewrite <- (assoc (++))|]. intros l' A' Eb Es. unfold segs, set_small, huge_list. cbn [g_small g_big g_user g_huge].
  by rewrite E2, Eb, Es, <- (assoc (++)).
Qed.

(** The first block of a class is taken. *)
Lemma inv_small_pop hs G A n a l : inv hs G A -> g_small G !! n = Some (a :: l) ->
  aget (small_list A) (Z.of_nat n) = Some a /\ 0 < a /\ mapped A a 8 = true /\
  inv ((a, 8 + 8 * Z.of_nat n) :: hs) (set_small (<[n := l]> (g_small G)) G) (up_small (<[n := load (memory A) a]> (small_list A)) A).
Proof.
  intros HI Hl. destruct (small_lookup _ _ _ _ _ HI Hl) as (hd & Hhd & Hget & [-> Hc]).
  destruct (segs_small G A n _ Hl) as (rest & E1 & E2).
  assert (Hlaid : laid (regions A) ((a, 8 + 8 * Z.of_nat n) :: hs ++ segs (set_small (<[n := l]> (g_small G)) G) A)).
  { rewrite E2 by done. pose proof (iv_laid _ _ _ HI) as H. rewrite E1 in H. cbn [map app] in H. by rewrite <- Permutation_middle in H. }
  destruct HI as [I1 [I2 I2'] I3 I4 I5 I6 I7 I8 I9 I10].
  pose proof (laid_head _ _ _ _ Hlaid) as Hs. destruct (seg_ok_range _ _ _ Hs I2) as (Ha & _); [lia|].
  split; [done|]. split; [done|]. split; [by eapply seg_ok_mapped; [exact Hs|lia..]|].
  split; try done; cbn [up_small memory small_list set_small g_small g_big g_huge regions].
  - by apply Forall2_insert.
  - by rewrite length_insert.
Qed.

(** A block joins a class. *)
Lemma inv_small_push hs G A n a l : inv ((a, 8 + 8 * Z.of_nat n) :: hs) G A -> g_small G !! n = Some l ->
  chain (memory A) (load (memory A) a) l ->
  inv hs (set_small (<[n := a :: l]> (g_small G)) G) (up_small (<[n := a]> (small_list A)) A).
Proof.
  intros HI Hl Hc. destruct (segs_small G A n _ Hl) as (rest & E1 & E2).
  destruct HI as [I1 [I2 I2'] I3 I4 I5 I6 I7 I8 I9 I10].
  split; try done; cbn [up_small memory small_list set_small g_small g_big g_huge regions].
  - rewrite (E2 (a :: l)) by done. cbn [map app]. rewrite <- Permutation_middle, <- E1. exact I1.
  - by apply Forall2_insert.
  - by rewrite length_insert.
Qed.

Lemma small_class hs G A n : inv hs G A -> 0 <= n < 33 -> exists k l, n = Z.of_nat k /\ g_small G !! k = Some l.
Proof.
  intros HI Hn. exists (Z.to_nat n). destruct (lookup_lt_is_Some_2 (g_small G) (Z.to_nat n)) as [l Hl]; [rewrite (iv_classes _ _ _ HI); lia|].
  exists l. split; [lia|done].
Qed.

Lemma wp_free_small a len n hs G A (Q : unit -> allocator -> Prop) :
  inv ((a, len) :: hs) G A -> 0 <= n < 33 -> 8 + 8 * n <= len ->
  (forall ls v A', memory A' = store (memory A) a v -> big_tail A' = big_tail A -> inv hs (set_small ls G) A' -> Q tt A') ->
  wp (memory_free_small a n) A Q.
Proof.
  intros HI Hn Hlen HQ. apply (inv_sub a len a (8 + 8 * n)) in HI; [|lia..|by rewrite Z.sub_diag].
  destruct (small_class _ _ _ _ HI Hn) as (k & l & -> & Hl).
  destruct (small_lookup _ _ _ _ _ HI Hl) as (hd & Hhd & Hget & Hc).
  assert (Hhd64 : 0 <= hd < 2 ^ 64).
  { destruct l as [|b l]; [cbn in Hc; lia|]. destruct Hc as [-> _].
    destruct (inv_small_pop _ _ _ _ _ _ HI Hl) as (_ & ? & _ & HI'). destruct (inv_head_range _ _ _ _ _ HI'); lia. }
  unfold memory_free_small. apply wp_bind, (wp_small_get _ hd); [done|]. apply wp_bind.
  apply (wp_write a (8 + 8 * Z.of_nat k) (next_ a) hd hs G A); [done|unfold next_; lia..|]. intros HI'.
  apply wp_small_set; [cbn [up_memory small_list]; rewrite (small_length _ _ _ HI); lia|].
  rewrite Nat2Z.id. eapply (HQ _ hd); [done|done|]. apply (inv_small_push _ _ _ k a l HI' Hl). cbn [up_memory memory]. unfold next_.
  rewrite load_store by done. destruct (small_lookup _ _ _ _ _ HI' Hl) as (hd' & Hhd' & _ & Hc'). cbn [up_memory memory small_list] in *.
  rewrite Hhd in Hhd'. by injection Hhd' as <-.
Qed.

(** ** The current chunk *)

Definition body (G : ghost) (hl : Z) : list seg :=
  small_segs 8 (g_small G) ++ map big_seg (g_big G) ++ map user_seg (g_user G) ++ map (fun h => (h, 16)) (hl :: g_huge G).

Lemma segs_body G A : segs G A ≡ₚ bump A :: body G (huge_list A).
Proof. unfold segs, body. rewrite !(assoc (++)). rewrite (comm (++) _ [bump A]). by rewrite <- !(assoc (++)). Qed.

(** Another rest of a chunk. *)
Lemma inv_new_bump c u hs G A : inv ((c + u, CHUNKSIZE - u) :: hs) G A -> 0 <= u <= CHUNKSIZE -> u mod 8 = 0 ->
  inv hs G (up_used u (up_chunk c A)).
Proof.
  intros [I1 I2 I3 I4 I5 I6 I7 I8 I9 I10] Hu Hm. split; try done; cbn [up_used up_chunk regions].
  rewrite (segs_body G A) in I1. rewrite (segs_body G (up_used u (up_chunk c A))).
  change (bump (up_used u (up_chunk c A))) with (c + u, CHUNKSIZE - u).
  apply laid_perm with (y := bump A :: ((c + u, CHUNKSIZE - u) :: hs) ++ body G (huge_list A)) in I1; [|cbn [app]; solve_Permutation].
  apply laid_tail in I1. change (huge_list (up_used u (up_chunk c A))) with (huge_list A).
  apply laid_perm with (y := ((c + u, CHUNKSIZE - u) :: hs) ++ body G (huge_list A)); [cbn [app]; solve_Permutation|done].
Qed.

(** The rest of the chunk is in hand. *)
Lemma inv_take_bump hs G A : inv hs G A -> inv (bump A :: hs) G (up_used CHUNKSIZE A).
Proof.
  intros [I1 I2 I3 I4 I5 I6 I7 I8 I9 I10]. split; try done; cbn [up_used regions].
  rewrite (segs_body G A) in I1. rewrite (segs_body G (up_used CHUNKSIZE A)).
  change (huge_list (up_used CHUNKSIZE A)) with (huge_list A).
  apply laid_perm with (y := (bump (up_used CHUNKSIZE A)) :: bump A :: hs ++ body G (huge_list A)); [cbn [app]; solve_Permutation|].
  apply laid_perm with (y := bump A :: hs ++ body G (huge_list A)) in I1; [|solve_Permutation].
  assert (Hb : (bump (up_used CHUNKSIZE A)).2 = 0) by (unfold bump; cbn [up_used chunk_used snd]; lia).
  split.
  - split; [|apply I1]. apply Forall_forall. intros x _. unfold apart. lia.
  - apply Forall_cons. split; [|apply I1]. split; lia.
Qed.

Lemma inv_bump hs G A sz : inv hs G A -> 0 <= sz -> sz mod 8 = 0 -> chunk_used A + sz <= CHUNKSIZE ->
  inv ((chunk_list A + chunk_used A, sz) :: hs) G (up_used (chunk_used A + sz) A).
Proof.
  intros HI H0 Hm Hs. pose proof (iv_used _ _ _ HI) as [Hu Hu8]. apply inv_take_bump in HI. unfold bump in HI.
  apply (inv_split _ _ sz) in HI; [|lia|done]. apply (inv_perm _ ((chunk_list A + (chunk_used A + sz), CHUNKSIZE - (chunk_used A + sz)) ::
    (chunk_list A + chunk_used A, sz) :: hs)) in HI.
  - apply inv_new_bump in HI; [|lia|zdiv]. by destruct A.
  - replace (chunk_list A + (chunk_used A + sz)) with (chunk_list A + chunk_used A + sz) by lia.
    replace (CHUNKSIZE - (chunk_used A + sz)) with (CHUNKSIZE - chunk_used A - sz) by lia. apply Permutation_swap.
Qed.

End Steps.

(** ** The system *)

(** A region that the system gives lies apart from the others. *)
Class OsOk (os : Os) := {
  mmap_ok rs sz : Forall region_ok rs -> 0 < sz -> mmap rs sz <> MAP_FAILED ->
    region_ok (mmap rs sz, page_up sz) /\ Forall (apart (mmap rs sz, page_up sz)) rs;
  mremap_ok rs rs' p osz nsz : Forall region_ok rs -> disj rs -> rs ≡ₚ (p, page_up osz) :: rs' -> 0 < nsz ->
    mremap rs p osz nsz <> MAP_FAILED ->
    region_ok (mremap rs p osz nsz, page_up nsz) /\ Forall (apart (mremap rs p osz nsz, page_up nsz)) rs' /\
    (mremap rs p osz nsz = p \/ apart (mremap rs p osz nsz, page_up nsz) (p, page_up osz))
}.

(** The system has memory for any call. *)
Definition memory_left {os : Os} (rs : list seg) : Prop :=
  (forall sz, 0 < sz < 2 ^ 32 -> mmap rs sz <> MAP_FAILED) /\
  forall p osz nsz, 0 < nsz < 2 ^ 32 -> mremap rs p osz nsz <> MAP_FAILED.

Section Alloc.
Context {os : Os} {ok : OsOk os}.
Implicit Types (G : ghost) (A : allocator) (hs : list seg) (m : mem).

Lemma seg_ok_more rs r x : seg_ok rs x -> seg_ok (r :: rs) x.
Proof. intros [H1 H2]. split; [done|]. intros H. destruct (H2 H) as (? & r' & ? & ?). split; [done|]. exists r'. split; [by right|done]. Qed.

Lemma seg_apart rs r x : Forall (apart r) rs -> 0 < r.2 -> seg_ok rs x -> apart r x.
Proof.
  intros Hr H0 [Hn Hx]. destruct (decide (0 < x.2)) as [Hp|]; [|right; left; lia]. destruct (Hx Hp) as (_ & r' & Hin & Hw).
  rewrite Forall_forall in Hr. specialize (Hr _ Hin). unfold apart, within in *. lia.
Qed.

Lemma user_ok_more m rs r (l : list Z) u : user_ok m rs l u -> user_ok m (r :: rs) l u.
Proof. intros (H0 & Hd & H). split; [done|]. split; [done|]. destruct (u_kind u); [done..|]. destruct H as (? & ? & ? & ? & ? & ?). split_and!; try done; try lia. by right. Qed.

Lemma wp_alloc_page sz hs G A (Q : Z -> allocator -> Prop) :
  inv hs G A -> 0 < sz -> mmap (regions A) sz <> MAP_FAILED ->
  (forall p A', 0 < p < 2 ^ 63 -> base A' = base A -> chunk_list A' = chunk_list A ->
     regions A' = (p, page_up sz) :: regions A -> inv ((p, page_up sz) :: hs) G A' -> Q p A') ->
  wp (alloc_page sz) A Q.
Proof.
  intros HI Hsz Hmm HQ. destruct (iv_regions _ _ _ HI) as [Hr Hd].
  destruct (mmap_ok (regions A) sz Hr Hsz Hmm) as [Hok Hap]. set (p := mmap (regions A) sz) in *.
  unfold wp, alloc_page. fold p. rewrite (proj2 (Z.eqb_neq p MAP_FAILED)) by done.
  pose proof Hok as (Hp0 & Hl0 & Hle & _). cbn [fst snd] in *. apply HQ; [lia|done..|].
  set (m := zero_fill (memory A) p (page_up sz)).
  assert (Hsegs : Forall (apart (p, page_up sz)) (hs ++ segs G A)).
  { destruct (iv_laid _ _ _ HI) as [_ Hs]. eapply Forall_impl; [exact Hs|]. intros x. by apply seg_apart. }
  assert (HI' : inv hs G (up_memory m A)).
  { eapply inv_memory; [exact HI|apply HI|]. apply Forall_app in Hsegs as [_ Hsegs]. eapply Forall_impl; [exact Hsegs|].
    intros x Hx. unfold apart in Hx. cbn [fst snd] in Hx. destruct (decide (0 < x.2)); [|intros y Hy; lia]. apply zero_fill_agree. lia. }
  destruct HI' as [I1 I2 I3 I4 I5 I6 I7 I8 I9 I10]. destruct I1 as [J1 J2].
  split; try done; cbn [up_regions up_memory regions].
  - split; [split; done|]. apply Forall_cons. split.
    + split; [cbn [snd]; lia|]. cbn [fst snd]. intros _. split; [destruct Hok as (_ & _ & _ & ? & _); cbn [fst] in *; zdiv|].
      exists (p, page_up sz). split; [by left|]. unfold within. cbn. lia.
    + eapply Forall_impl; [exact J2|]. intros x. apply seg_ok_more.
  - split; [apply Forall_cons; split; [done|apply I2]|split; [done|apply I2]].
  - eapply Forall_impl; [exact I8|]. intros u. apply user_ok_more.
Qed.

Lemma wp_chunk_new sz hs G A (Q : Z -> allocator -> Prop) :
  inv hs G A -> 0 < sz <= CHUNKSIZE - 8 -> sz mod 8 = 0 -> memory_left (regions A) ->
  (forall p A', 0 < p -> inv ((p, sz) :: hs) G A' -> Q p A') -> wp (chunk_new sz) A Q.
Proof.
  intros HI Hsz Hm [Hml _] HQ. unfold chunk_new. apply wp_bind.
  apply (wp_alloc_page _ hs G); [done|done|by apply Hml|]. intros nc A1 Hnc Hb Hc Hr HI1.
  change (page_up CHUNKSIZE) with CHUNKSIZE in *. rewrite (proj2 (Z.eqb_neq nc 0)) by lia. apply wp_bind, wp_uget, wp_bind.
  apply (wp_write nc CHUNKSIZE (next_ nc) _ hs G A1); [done|unfold next_, CHUNKSIZE in *; lia..|]. intros HI2.
  apply wp_bind, wp_umod, wp_bind, wp_umod. apply HQ; [unfold sizeof_chunk; lia|]. unfold sizeof_chunk in *.
  apply (inv_split nc CHUNKSIZE 8) in HI2; [|unfold CHUNKSIZE in *; lia|done]. apply inv_drop in HI2.
  apply (inv_split (nc + 8) _ sz) in HI2; [|lia|done]. apply (inv_new_bump nc (8 + sz)); [|unfold CHUNKSIZE in *; lia|zdiv].
  replace (nc + (8 + sz)) with (nc + 8 + sz) by lia. replace (CHUNKSIZE - (8 + sz)) with (CHUNKSIZE - 8 - sz) by lia.
  eapply inv_perm; [exact HI2|]. apply Permutation_swap.
Qed.

(** ** Small blocks *)

Lemma set_small_id G : set_small (g_small G) G = G.
Proof. by destruct G. Qed.

Lemma free_small_inline a n (k : prog Z) A Q : wp (_ ← memory_free_small a n; k) A Q ->
  wp (p ← small_get n; _ ← wr (next_ a) p; _ ← small_set n a; k) A Q.
Proof.
  unfold wp, memory_free_small. rewrite !ust_bind_run. destruct (small_get n A) as [[p A1]|]; [|done].
  rewrite !ust_bind_run. destruct (wr (next_ a) p A1) as [[[] A2]|]; [|done]. rewrite !ust_bind_run.
  by destruct (small_set n a A2) as [[[] A3]|].
Qed.

Lemma wp_small_search k n i hs G A (Q : Z -> allocator -> Prop) :
  inv hs G A -> 0 <= n < i -> i + Z.of_nat k = 33 -> memory_left (regions A) ->
  (forall p ls A', 0 < p -> inv ((p, 8 + 8 * n) :: hs) (set_small ls G) A' -> Q p A') ->
  wp (small_search k n ((n + 1) * SMALLSIZE) i) A Q.
Proof.
  unfold SMALLSIZE. revert i. induction k as [|k IH]; intros i HI Hn Hik Hml HQ; cbn [small_search].
  - replace ((n + 1) * 8) with (8 + 8 * n) by lia. apply (wp_chunk_new _ hs G); [done|unfold CHUNKSIZE; lia|zdiv|done|].
    intros p A' Hp HI'. apply (HQ p (g_small G)); [done|]. by rewrite set_small_id.
  - destruct (small_class _ _ _ i HI) as (c & l & -> & Hl); [lia|].
    destruct (small_lookup _ _ _ _ _ HI Hl) as (hd & Hhd & Hget & Hc).
    apply wp_bind, (wp_small_get _ hd); [done|]. destruct l as [|a l].
    + cbn in Hc. subst hd. cbn [Z.eqb negb]. apply IH; [done|lia|lia|done|done].
    + destruct (inv_small_pop _ _ _ _ _ _ HI Hl) as (Hget' & Ha & Hma & HI1). rewrite Hget in Hget'. injection Hget' as ->.
      rewrite (proj2 (Z.eqb_neq a 0)) by lia. cbn [negb]. apply wp_bind, wp_read; [done|].
      apply wp_bind, wp_small_set; [rewrite (small_length _ _ _ HI); lia|]. rewrite Nat2Z.id. apply free_small_inline, wp_bind.
      apply (inv_split _ _ (8 + 8 * n)) in HI1; [|lia|zdiv]. apply (inv_perm _ _ _ _ ) with (2 := Permutation_swap _ _ _) in HI1.
      replace (a + (n + 1) * 8) with (a + (8 + 8 * n)) by lia.
      eapply (wp_free_small (a + (8 + 8 * n)) _ (Z.of_nat c - n - 1) ((a, 8 + 8 * n) :: hs)); [exact HI1|lia|lia|].
      intros ls v A' _ _ HI'. apply (HQ a ls); [done|]. exact HI'.
Qed.

Lemma wp_alloc_small n hs G A (Q : Z -> allocator -> Prop) :
  inv hs G A -> 0 <= n < 32 -> memory_left (regions A) ->
  (forall p ls A', 0 < p -> inv ((p, 8 + 8 * n) :: hs) (set_small ls G) A' -> Q p A') ->
  wp (memory_alloc_small n) A Q.
Proof.
  intros HI Hn Hml HQ. unfold memory_alloc_small. destruct (small_class _ _ _ n HI) as (c & l & -> & Hl); [lia|].
  destruct (small_lookup _ _ _ _ _ HI Hl) as (hd & Hhd & Hget & Hc). apply wp_bind, (wp_small_get _ hd); [done|]. destruct l as [|a l].
  - cbn in Hc. subst hd. cbn [Z.eqb negb]. apply wp_bind, wp_uget. destruct (Z.leb_spec (chunk_used A + (Z.of_nat c + 1) * SMALLSIZE) CHUNKSIZE).
    + apply wp_bind, wp_uget, wp_bind, wp_umod. unfold SMALLSIZE in *.
      apply (inv_bump _ _ _ ((Z.of_nat c + 1) * 8)) in HI; [|lia|zdiv|done].
      apply (HQ _ (g_small G)); [|rewrite set_small_id; by replace (8 + 8 * Z.of_nat c) with ((Z.of_nat c + 1) * 8) by lia].
      destruct (inv_head_range _ _ _ _ _ HI); lia.
    + apply (wp_small_search _ _ _ hs G); [done|lia|unfold SMALLLEVEL; lia|done|done].
  - destruct (inv_small_pop _ _ _ _ _ _ HI Hl) as (Hget' & Ha & Hma & HI1). rewrite Hget in Hget'. injection Hget' as ->.
    rewrite (proj2 (Z.eqb_neq a 0)) by lia. cbn [negb]. apply wp_bind, wp_read; [done|].
    apply wp_bind, wp_small_set; [rewrite (small_length _ _ _ HI); lia|]. rewrite Nat2Z.id. by eapply HQ.
Qed.

(** ** Big blocks *)

Lemma segs_big l G A : segs (set_big l G) A ≡ₚ map big_seg l ++ segs (set_big [] G) A.
Proof. unfold segs, set_big. cbn [g_small g_big g_user g_huge map app]. rewrite (assoc (++)), (comm (++) (small_segs _ _)). by rewrite <- (assoc (++)). Qed.

Lemma set_big_id G : set_big (g_big G) G = G.
Proof. by destruct G. Qed.

(** The list of big blocks is taken off, and put on again. *)
Lemma inv_detach hs G A : inv hs G A -> inv hs (set_big [] G) (up_head 0 A).
Proof.
  intros [I1 I2 I3 I4 I5 I6 I7 I8 I9 I10]. split; try done; cbn [up_head regions].
  rewrite <- (set_big_id G), segs_big in I1. rewrite (assoc (++)), (comm (++) hs), <- (assoc (++)) in I1. by apply laid_app_r in I1.
Qed.

Lemma inv_attach hs hs' l G A h t : inv hs (set_big [] G) A -> laid (regions A) (hs' ++ segs (set_big l G) A) ->
  big_chain (memory A) h (map b_at l) -> (l <> [] -> last (map b_at l) = Some t) -> Forall (big_ok (memory A)) l ->
  inv hs' (set_big l G) (up_tail t (up_head h A)).
Proof. intros [I1 I2 I3 I4 I5 I6 I7 I8 I9 I10] H1 H2 H3 H4. by split. Qed.

(** The segments of the big blocks, beside those in hand. *)
Lemma inv_big_laid hs G A : inv hs G A -> laid (regions A) (map big_seg (g_big G) ++ hs ++ segs (set_big [] G) A).
Proof.
  intros HI. pose proof (iv_laid _ _ _ HI) as H. rewrite <- (set_big_id G), segs_big in H.
  by rewrite (assoc (++)), (comm (++) (map _ _)), <- (assoc (++)).
Qed.

(** The first block of the list. *)
Lemma inv_big_head hs G A b l : inv hs G A -> g_big G = b :: l ->
  big_head A = b_at b /\ 0 < b_at b /\ 16 <= b_len b /\ load (memory A) (b_at b) = b_sz b /\ 256 < b_sz b < 2 ^ 31 /\ round8 (b_sz b) <= b_len b /\
  mapped A (b_at b) 16 = true.
Proof.
  intros HI E. pose proof (iv_big _ _ _ HI) as H. rewrite E in H. destruct H as [H _].
  pose proof (inv_big_laid _ _ _ HI) as HL. rewrite E in HL. cbn [map app] in HL. pose proof (laid_head _ (b_at b) (b_len b) _ HL) as Hs.
  pose proof (iv_bigs _ _ _ HI) as Hb. rewrite E in Hb. apply Forall_cons_1 in Hb as [(Hz & ? & ?) _]. pose proof (round8_le (b_sz b)).
  destruct (seg_ok_range _ _ _ Hs (proj1 (iv_regions _ _ _ HI))); [lia|]. split_and!; try done; try lia.
  eapply seg_ok_mapped; [exact Hs|lia..].
Qed.

(** A block joins the list, in front. *)
Lemma inv_big_cons a z len hs G A : inv ((a, len) :: hs) G A -> load (memory A) a = z -> 256 < z < 2 ^ 31 -> round8 z <= len ->
  load (memory A) (big_next a) = big_head A ->
  inv hs (set_big (Big a z len :: g_big G) G) (up_tail (if big_head A =? 0 then a else big_tail A) (up_head a A)).
Proof.
  intros HI Hz Hz' Hlen Hn.
  assert (Hd : inv ((a, len) :: hs) (set_big [] (set_big (g_big G) G)) (up_head 0 A)) by (apply inv_detach; by rewrite set_big_id).
  change (set_big [] (set_big (g_big G) G)) with (set_big [] G) in Hd. apply inv_drop in Hd.
  change (inv hs (set_big (Big a z len :: g_big G) G) (up_tail (if big_head A =? 0 then a else big_tail A) (up_head a (up_head 0 A)))).
  eapply inv_attach; [exact Hd| | | |]; cbn [up_head memory regions].
  - rewrite segs_big. cbn [map app]. pose proof (inv_big_laid _ _ _ HI) as HL. cbn [app] in HL.
    eapply laid_perm; [|exact HL]. change (segs (set_big [] G) (up_head 0 A)) with (segs (set_big [] G) A). cbn [big_seg b_at b_len]. solve_Permutation.
  - cbn [map big_chain b_at]. split; [done|]. rewrite Hn. apply HI.
  - intros _. cbn [map b_at]. destruct (g_big G) as [|b l] eqn:E.
    + pose proof (iv_big _ _ _ HI) as H. rewrite E in H. cbn in H. by rewrite H.
    + assert (Hh : big_head A <> 0) by (destruct (inv_big_head _ _ _ _ _ HI E) as (-> & ? & _); lia).
      rewrite (proj2 (Z.eqb_neq _ _) Hh). cbn [map]. rewrite last_cons_cons. pose proof (iv_tail _ _ _ HI) as Ht. rewrite E in Ht. by apply Ht.
  - apply Forall_cons. split; [done|]. apply HI.
Qed.

Lemma inv_big_uncons hs G A b l : inv hs G A -> g_big G = b :: l ->
  inv ((b_at b, b_len b) :: hs) (set_big l G) (up_head (load (memory A) (big_next (b_at b))) A).
Proof.
  intros HI E. pose proof (inv_detach _ _ _ HI) as Hd. pose proof (inv_big_laid _ _ _ HI) as HL. rewrite E in HL. cbn [map app] in HL.
  pose proof (iv_big _ _ _ HI) as Hc. rewrite E in Hc. destruct Hc as [_ Hc].
  replace (up_head (load (memory A) (big_next (b_at b))) A) with
    (up_tail (big_tail A) (up_head (load (memory A) (big_next (b_at b))) (up_head 0 A))) by done.
  eapply inv_attach; [exact Hd| |exact Hc| |]; cbn [up_head memory regions].
  - rewrite segs_big. eapply laid_perm; [|exact HL]. change (segs (set_big [] G) (up_head 0 A)) with (segs (set_big [] G) A).
    unfold big_seg at 2. cbn [app]. solve_Permutation.
  - intros Hl. pose proof (iv_tail _ _ _ HI) as Ht. rewrite E in Ht. specialize (Ht ltac:(done)). cbn [map] in Ht. destruct l as [|b' l]; [done|]. cbn [map] in *. by rewrite last_cons_cons in Ht.
  - pose proof (iv_bigs _ _ _ HI) as Hb. rewrite E in Hb. by apply Forall_cons_1 in Hb as [_ ?].
Qed.

(** The head of the list is an address. *)
Lemma inv_big_word hs G A : inv hs G A -> 0 <= big_head A < 2 ^ 64.
Proof.
  intros HI. destruct (g_big G) as [|b l] eqn:E; [pose proof (iv_big _ _ _ HI) as H; rewrite E in H; cbn in H; lia|].
  destruct (inv_big_head _ _ _ _ _ HI E) as (-> & ? & ? & _). pose proof (inv_big_uncons _ _ _ _ _ HI E) as HI'.
  destruct (inv_head_range _ _ _ _ _ HI'); lia.
Qed.

Lemma big_chain_snoc m m' h xs t a : big_chain m h (xs ++ [t]) -> (forall x, x ∈ xs -> load m' (big_next x) = load m (big_next x)) ->
  load m' (big_next t) = a -> load m' (big_next a) = 0 -> big_chain m' h (xs ++ [t; a]).
Proof.
  revert h. induction xs as [|x xs IH]; intros h Hc Hx Ht Ha; cbn [app big_chain] in *.
  - destruct Hc as [-> _]. by rewrite Ht.
  - destruct Hc as [-> Hc]. split; [done|]. rewrite Hx by (by left). apply IH; [done| |done|done]. intros y Hy. apply Hx. by right.
Qed.

Lemma wp_big_append a z len hs G A (Q : unit -> allocator -> Prop) :
  inv ((a, len) :: hs) G A -> g_big G <> [] -> load (memory A) a = z -> 256 < z < 2 ^ 31 -> round8 z <= len ->
  (forall A', regions A' = regions A -> Forall (fun x => agree (memory A) (memory A') x.1 x.2) hs ->
     inv hs (set_big (g_big G ++ [Big a z len]) G) A' -> Q tt A') ->
  wp (big_append a) A Q.
Proof.
  intros HI Hne Hz Hz' Hlen HQ. pose proof (round8_le z) as Hr8. pose proof (inv_head_range _ _ _ _ _ HI ltac:(lia)) as (Ha0 & Ha1 & _).
  destruct (exists_last Hne) as (l & bt & El). unfold big_append. apply wp_bind.
  apply (wp_write a len (big_next a) 0 hs G A); [done|unfold big_next; lia..|]. intros HI1. set (A1 := up_memory _ A) in *.
  assert (Hz1 : load (memory A1) a = z) by (cbn [A1 up_memory memory]; rewrite load_store_ne; [done|unfold big_next; lia]).
  assert (Hn1 : load (memory A1) (big_next a) = 0) by (cbn [A1 up_memory memory]; apply load_store; lia).
  apply wp_bind, wp_uget. assert (Et : big_tail A1 = b_at bt).
  { pose proof (iv_tail _ _ _ HI1 Hne) as H. rewrite El, map_app in H. cbn [map] in H. rewrite last_snoc in H. by injection H. }
  pose proof (inv_big_laid _ _ _ HI1) as HL. rewrite El, map_app in HL. cbn [map] in HL.
  apply laid_perm with (y := big_seg bt :: map big_seg l ++ ((a, len) :: hs) ++ segs (set_big [] G) A1) in HL; [|solve_Permutation].
  pose proof (iv_bigs _ _ _ HI1) as Hb. rewrite El in Hb. apply Forall_app in Hb as [Hbl Hbt]. apply Forall_singleton in Hbt as (Hbz & Hbz' & Hblen).
  pose proof (round8_le (b_sz bt)) as Hbr.
  pose proof (laid_store _ (memory A1) (big_next (b_at bt)) a _ _ _ HL ltac:(unfold big_next; lia) ltac:(unfold big_next; lia)) as Hag.
  apply Forall_app in Hag as [Hagl Hag]. cbn [app] in Hag. apply Forall_cons in Hag as [Haga Hag]. apply Forall_app in Hag as [Haghs Hags]. cbn [fst snd] in *.
  set (m2 := store (memory A1) (big_next (b_at bt)) a) in *. rewrite Et. apply wp_bind.
  unfold wp, wr. rewrite (seg_ok_mapped A1 (b_at bt) (b_len bt)); [|by eapply laid_head, HL|unfold big_next; lia..]. fold m2.
  change (up_tail a (up_memory m2 A1)) with (up_tail a (up_head (big_head A1) (up_memory m2 (up_head 0 A1)))). apply HQ; [done| |].
  { rewrite Forall_forall in *. intros [b k] Hx. eapply agree_trans; [|exact (Haghs _ Hx)].
    pose proof (laid_store _ (memory A) (big_next a) 0 a len (hs ++ segs G A) (iv_laid _ _ _ HI) ltac:(unfold big_next; lia) ltac:(unfold big_next; lia)) as Hag.
    rewrite Forall_forall in Hag. apply (Hag (b, k)). apply elem_of_app. by left. }
  apply (inv_attach hs hs (g_big G ++ [Big a z len]) G (up_memory m2 (up_head 0 A1)) (big_head A1) a).
  - eapply inv_memory; [apply (inv_detach hs G A1); by eapply inv_drop| |].
    + eapply iv_laid, inv_detach. by eapply inv_drop.
    + change (segs (set_big [] G) (up_head 0 A1)) with (segs (set_big [] G) A1). exact Hags.
  - cbn [up_memory regions]. rewrite segs_big, map_app, El, map_app. cbn [map big_seg b_at b_len].
    eapply laid_perm; [|exact HL]. change (segs (set_big [] G) (up_memory m2 (up_head 0 A1))) with (segs (set_big [] G) A1). unfold big_seg at 2. cbn [app]. solve_Permutation.
  - cbn [up_memory memory]. rewrite El, !map_app. cbn [map b_at app]. rewrite <- (assoc (++)). cbn [app]. apply (big_chain_snoc (memory A1)).
    + pose proof (iv_big _ _ _ HI1) as Hc. by rewrite El, map_app in Hc.
    + intros x (b & -> & Hx)%list_elem_of_fmap. apply load_agree. rewrite Forall_forall in Hbl. destruct (Hbl _ Hx) as (_ & ? & ?). pose proof (round8_le (b_sz b)).
      rewrite Forall_forall in Hagl. pose proof (Hagl (big_seg b) ltac:(apply list_elem_of_fmap; by exists b)) as Hg. cbn [big_seg fst snd] in Hg.
      eapply agree_sub; [exact Hg|unfold big_next; lia..].
    + apply load_store. lia.
    + rewrite (load_agree (memory A1)); [done|]. eapply agree_sub; [exact Haga|unfold big_next; lia..].
  - intros _. rewrite map_app. cbn [map b_at]. by rewrite last_snoc.
  - cbn [up_memory memory]. rewrite El, !Forall_app, !Forall_singleton. split_and!.
    + apply Forall_forall. intros b Hx. rewrite Forall_forall in Hbl. rewrite Forall_forall in Hagl. eapply big_ok_agree; [by apply Hbl|]. apply (Hagl (big_seg b)). apply list_elem_of_fmap. by exists b.
    + unfold big_ok. split; [|done]. unfold m2. rewrite load_store_ne; [done|unfold big_sz, big_next; lia].
    + unfold big_ok. cbn [b_at b_sz b_len]. split; [|done]. unfold big_sz. rewrite (load_agree (memory A1)); [done|]. eapply agree_sub; [exact Haga|lia..].
Qed.

(** What is left of a block when [sz] bytes are cut from one with size [z]. *)
Lemma rest_fits z sz len : sz mod 8 = 0 -> 0 < sz < z -> round8 z <= len ->
  8 + 8 * rest_class (z - sz) <= len - sz /\ 0 <= rest_class (z - sz) /\ round8 (z - sz) <= len - sz /\
  (SMALLLEVEL <= rest_class (z - sz) -> 256 < z - sz).
Proof.
  unfold rest_class, SMALLSIZE, SMALLLEVEL, round8. intros Hm Hz Hl. rewrite Z.quot_div_nonneg by lia. zdiv.
Qed.

(** A block that fits is cut to the size. *)
Definition takes_big hs G sz (Q : Z -> allocator -> Prop) : Prop := forall p ls l A', 0 < p -> load (memory A') p = sz ->
  inv ((p, sz) :: hs) (set_small ls (set_big l G)) A' -> Q p A'.

Lemma wp_big_cut b sz l hs G A (Q : Z -> allocator -> Prop) :
  inv ((b_at b, b_len b) :: hs) (set_big l G) A -> l <> [] -> sz mod 8 = 0 -> 0 < sz < b_sz b -> b_sz b < 2 ^ 31 -> round8 (b_sz b) <= b_len b ->
  takes_big hs G sz Q ->
  wp (_ ← wr (big_sz (b_at b)) sz;
      let f := b_sz b - sz in let idx := rest_class f in let ptr := b_at b + sz in
      if idx <? SMALLLEVEL then _ ← memory_free_small ptr idx; mret (b_at b)
      else
        _ ← wr (big_sz ptr) f;
        _ ← (if f >? sz then h ← uget big_head; _ ← wr (big_next ptr) h; umod (up_head ptr) else big_append ptr);
        mret (b_at b)) A Q.
Proof.
  intros HI Hl Hm Hsz Hz Hlen HQ. destruct (rest_fits _ _ _ Hm Hsz Hlen) as (R1 & R2 & R3 & R4). pose proof (round8_le (b_sz b)).
  assert (Hsz8 : 8 <= sz) by zdiv. apply wp_bind.
  apply (wp_write (b_at b) (b_len b) (big_sz (b_at b)) sz hs (set_big l G) A); [done|unfold big_sz; lia..|]. intros HI1.
  set (A1 := up_memory _ A) in *. assert (Hb1 : load (memory A1) (b_at b) = sz) by (apply load_store; lia).
  apply (inv_split _ _ sz) in HI1; [|lia|done]. apply (inv_perm _ _ _ _) with (2 := Permutation_swap _ _ _) in HI1.
  pose proof (inv_head_range _ _ _ _ _ HI ltac:(lia)) as (Hb0 & Hb2 & _). cbv zeta. destruct (Z.ltb_spec (rest_class (b_sz b - sz)) SMALLLEVEL) as [Hi|Hi].
  - apply wp_bind. eapply (wp_free_small _ _ _ ((b_at b, sz) :: hs)); [exact HI1|unfold SMALLLEVEL in *; lia|lia|].
    intros ls v A2 Em _ HI2. apply (HQ _ ls l); [done| |done]. rewrite Em, load_store_ne; [done|lia].
  - specialize (R4 Hi). apply wp_bind.
    eapply (wp_write (b_at b + sz)); [exact HI1|unfold big_sz; lia..|]. intros HI2. set (A2 := up_memory _ A1) in *.
    assert (Hb2' : load (memory A2) (b_at b) = sz) by (cbn [A2 up_memory memory]; rewrite load_store_ne; [done|unfold big_sz; lia]).
    assert (Hp2 : load (memory A2) (b_at b + sz) = b_sz b - sz) by (apply load_store; lia).
    apply wp_bind. destruct (Z.gtb_spec (b_sz b - sz) sz).
    + apply wp_bind, wp_uget, wp_bind. eapply (wp_write (b_at b + sz)); [exact HI2|unfold big_next; lia..|]. intros HI3. set (A3 := up_memory _ A2) in *.
      apply wp_umod. assert (Hne : big_head A3 <> 0) by (destruct l as [|b' l]; [done|]; destruct (inv_big_head _ _ _ b' l HI3 eq_refl) as (-> & ? & _); lia).
      pose proof (inv_big_word _ _ _ HI3) as H64.
      eapply (inv_big_cons _ (b_sz b - sz)) in HI3.
      * rewrite (proj2 (Z.eqb_neq _ _) Hne) in HI3. apply (HQ _ (g_small G) (Big (b_at b + sz) (b_sz b - sz) (b_len b - sz) :: l)); [done| |exact HI3].
        cbn [up_head memory A3 up_memory]. rewrite load_store_ne; [done|unfold big_next; lia].
      * cbn [A3 up_memory memory]. rewrite load_store_ne; [done|unfold big_next; lia].
      * lia.
      * done.
      * cbn [A3 up_memory memory]. rewrite load_store; done.
    + eapply (wp_big_append _ (b_sz b - sz)); [exact HI2|done|done|lia|done|]. intros A3 _ Hag HI3.
      apply (HQ _ (g_small G) (l ++ [Big (b_at b + sz) (b_sz b - sz) (b_len b - sz)])); [done| |exact HI3].
      apply Forall_cons_1 in Hag as [Hag _]. cbn [fst snd] in Hag. rewrite (load_agree (memory A2)); [done|]. eapply agree_sub; [exact Hag|lia..].
Qed.

Lemma wp_big_loop k term sz hs G A (Q : Z -> allocator -> Prop) :
  inv hs G A -> (2 <= length (g_big G))%nat -> sz mod 8 = 0 -> 0 < sz ->
  takes_big hs G sz Q -> (forall l A', regions A' = regions A -> inv hs (set_big l G) A' -> Q 0 A') ->
  wp (big_loop k term (big_head A) sz) A Q.
Proof.
  revert G A. induction k as [|k IH]; intros G A HI Hl Hm Hsz HQ HQ0; cbn [big_loop].
  - apply (HQ0 (g_big G) A); [done|]. by rewrite set_big_id.
  - destruct (g_big G) as [|b l] eqn:E; [cbn in Hl; lia|]. assert (Hne : l <> []) by (destruct l; [cbn in Hl; lia|done]).
    destruct (inv_big_head _ _ _ _ _ HI E) as (-> & Hb0 & Hb16 & Hbz & Hz & Hlen & Hmap).
    assert (Hm1 : mapped A (b_at b) 8 = true /\ mapped A (big_next (b_at b)) 8 = true).
    { pose proof (inv_big_uncons _ _ _ b l HI E) as HI0. split; eapply (inv_mapped _ _ _ _ _ _ _ HI0); unfold big_next; lia. }
    apply wp_bind, wp_read; [apply Hm1|]. apply wp_bind, wp_umod. pose proof (inv_big_uncons _ _ _ _ _ HI E) as HI1.
    set (A1 := up_head _ A) in *. apply wp_bind, wp_read; [apply Hm1|]. change (load (memory A1) (big_sz (b_at b))) with (load (memory A) (b_at b)). rewrite Hbz.
    destruct (Z.geb_spec (b_sz b) sz) as [Hge|Hlt].
    + destruct (Z.eqb_spec (b_sz b) sz) as [Heq|Hneq].
      * apply (HQ _ (g_small G) l); [done| |].
        -- change (memory A1) with (memory A). by rewrite Hbz.
        -- pose proof (round8_le (b_sz b)). apply (inv_sub _ _ (b_at b) sz) in HI1; [|lia..|by rewrite Z.sub_diag]. exact HI1.
      * rewrite i32_id by lia. apply (wp_big_cut b sz l hs G A1); [exact HI1|done|done|lia|lia|done|done].
    + apply wp_bind. eapply (wp_big_append _ (b_sz b)); [exact HI1|done|done|done|done|]. intros A2 Hr _ HI2.
      apply wp_bind, wp_uget. destruct (negb (big_head A2 =? term)).
      * apply (IH _ A2 HI2); [cbn [set_big g_big]; rewrite length_app; cbn in *; lia|done|done|exact HQ|].
        intros l' A' Hr' HI'. apply (HQ0 l'); [by rewrite Hr', Hr|exact HI'].
      * eapply HQ0; [exact Hr|exact HI2].
Qed.

(** The only free big block is larger than what is asked for. *)
Definition lone_split (A : allocator) (nsize : Z) : bool :=
  (SMALLLEVEL * SMALLSIZE <? nsize) && (nsize <=? HUGESIZE) && (CHUNKSIZE <? chunk_used A + big_round nsize) &&
  negb (big_head A =? 0) && (big_head A =? big_tail A) && (big_round nsize <? load (memory A) (big_head A)).

Lemma wp_lookup sz hs G A (Q : Z -> allocator -> Prop) :
  inv hs G A -> sz mod 8 = 0 -> 0 < sz ->
  (big_head A <> 0 -> big_head A = big_tail A -> load (memory A) (big_head A) <= sz) ->
  takes_big hs G sz Q -> (forall l A', regions A' = regions A -> inv hs (set_big l G) A' -> Q 0 A') ->
  wp (lookup_biglist sz) A Q.
Proof.
  intros HI Hm Hsz Hlone HQ HQ0. unfold lookup_biglist. apply wp_bind, wp_uget. destruct (Z.eqb_spec (big_head A) 0) as [H0|H0].
  { apply (HQ0 (g_big G) A); [done|]. by rewrite set_big_id. }
  apply wp_bind, wp_uget. destruct (g_big G) as [|b l] eqn:E; [pose proof (iv_big _ _ _ HI) as H; rewrite E in H; by cbn in H|].
  destruct (inv_big_head _ _ _ _ _ HI E) as (Eh & Hb0 & Hb16 & Hbz & Hz & Hlen & Hmap). pose proof (inv_big_uncons _ _ _ _ _ HI E) as HI1.
  destruct (Z.eqb_spec (big_head A) (big_tail A)) as [Ht|Ht].
  - specialize (Hlone H0 Ht). rewrite Eh, Hbz in Hlone. apply wp_bind, wp_read.
    { rewrite Eh. eapply (inv_mapped _ _ _ _ _ _ _ HI1); unfold big_sz; lia. }
    unfold big_sz. rewrite Eh, Hbz. destruct (Z.geb_spec (b_sz b) sz).
    + assert (Esz : b_sz b = sz) by lia. rewrite Esz in *. rewrite Z.sub_diag. cbn [Z.eqb]. change (i32 0 =? 0) with true. cbv iota.
      apply wp_bind, wp_umod, wp_bind, wp_umod. apply (HQ _ (g_small G) []); [done|done|].
      apply (inv_sub _ _ (b_at b) sz) in HI1; [|pose proof (round8_le sz); lia..|by rewrite Z.sub_diag].
      assert (El : l = []).
      { destruct l as [|b' l]; [done|]. exfalso. pose proof (iv_tail _ _ _ HI) as Htl. rewrite E in Htl. specialize (Htl ltac:(done)).
        rewrite <- Ht, Eh in Htl. cbn [map] in Htl. rewrite last_cons_cons in Htl. change (last (map b_at (b' :: l)) = Some (b_at b)) in Htl.
        apply last_Some in Htl as [l0 El0]. assert (Hin : b_at b ∈ map b_at (b' :: l)) by (rewrite El0; apply elem_of_app; right; by left).
        apply list_elem_of_fmap in Hin as (b1 & Eb1 & Hin). pose proof (inv_big_laid _ _ _ HI) as HL. rewrite E in HL. cbn [map app] in HL.
        destruct HL as [[HL _] _]. pose proof (iv_bigs _ _ _ HI) as Hbs. rewrite E in Hbs. apply Forall_cons_1 in Hbs as [_ Hbs].
        rewrite Forall_forall in Hbs. destruct (Hbs _ Hin) as (_ & ? & ?). pose proof (round8_le (b_sz b1)).
        rewrite Forall_forall in HL. specialize (HL (big_seg b1)). unfold apart, big_seg in HL. cbn [fst snd] in HL. rewrite <- Eb1 in HL.
        enough (Hx : (b_at b, b_len b1) ∈ map big_seg (b' :: l) ++ hs ++ segs (set_big [] G) A) by (specialize (HL Hx); lia).
        apply elem_of_app. left. apply list_elem_of_fmap. exists b1. unfold big_seg. by rewrite Eb1. }
      subst l. pose proof (iv_big _ _ _ HI1) as H1. cbn [set_big g_big map big_chain up_head big_head] in H1. rewrite H1 in HI1.
      destruct HI1 as [I1 I2 I3 I4 I5 I6 I7 I8 I9 I10]. by split.
    + apply (HQ0 (g_big G) A); [done|]. by rewrite set_big_id.
  - apply (wp_big_loop _ _ sz hs G A); [done| |done|done|done|done].
    rewrite E. destruct l as [|b' l]; [|cbn; lia]. exfalso. apply Ht. pose proof (iv_tail _ _ _ HI) as Htl. rewrite E in Htl. specialize (Htl ltac:(done)).
    cbn in Htl. injection Htl as Htl. congruence.
Qed.

Lemma big_round_spec n : 0 <= n -> big_round n = round8 (n + 8).
Proof.
  intros Hn. unfold big_round, sizeof_size_t, round8. change (Z.land (n + 8 + 7) (Z.lnot 7)) with (Z.ldiff (n + 8 + 7) (Z.ones 3)).
  rewrite Z.ldiff_ones_r, Z.shiftl_mul_pow2, Z.shiftr_div_pow2 by lia. done.
Qed.

Lemma round8_mod n : round8 n mod 8 = 0.
Proof. unfold round8. zdiv. Qed.

Lemma wp_alloc_big n hs G A (Q : Z -> allocator -> Prop) :
  inv hs G A -> 256 < n <= HUGESIZE -> lone_split A n = false -> memory_left (regions A) ->
  (forall p ls l A', 0 < p -> load (memory A') p = big_round n -> inv ((p, big_round n) :: hs) (set_small ls (set_big l G)) A' -> Q (p + 8) A') ->
  wp (memory_alloc_big n) A Q.
Proof.
  intros HI Hn Hlone Hml HQ. unfold memory_alloc_big. pose proof (big_round_spec n ltac:(lia)) as Er. pose proof (round8_mod (n + 8)) as Hm.
  assert (Hr : n + 8 <= big_round n <= CHUNKSIZE - 8) by (rewrite Er; unfold round8, HUGESIZE, CHUNKSIZE in *; zdiv). rewrite <- Er in Hm.
  set (sz := big_round n) in *. apply wp_bind, wp_uget. unfold sizeof_size_t. destruct (Z.leb_spec (chunk_used A + sz) CHUNKSIZE) as [Hle|Hgt].
  - apply wp_bind, wp_uget, wp_bind, wp_umod. apply (inv_bump _ _ _ sz) in HI; [|lia|done|done]. apply wp_bind.
    eapply (wp_write _ sz); [exact HI|unfold big_sz; lia..|]. intros HI'. apply (HQ _ (g_small G) (g_big G)); [|apply load_store; unfold CHUNKSIZE in *; lia|].
    + destruct (inv_head_range _ _ _ _ _ HI); lia.
    + rewrite set_big_id, set_small_id. exact HI'.
  - apply wp_bind, (wp_lookup sz hs G); [done|done|lia| | |].
    + intros H0 Ht. unfold lone_split in Hlone. fold sz in Hlone. unfold SMALLLEVEL, SMALLSIZE in Hlone.
      rewrite (proj2 (Z.ltb_lt (32 * 8) n)), (proj2 (Z.leb_le n HUGESIZE)), (proj2 (Z.ltb_lt CHUNKSIZE _)), (proj2 (Z.eqb_neq _ 0) H0), (proj2 (Z.eqb_eq _ _) Ht) in Hlone by lia.
      cbn [andb negb] in Hlone. lia.
    + intros p ls l A' Hp Hl HI'. rewrite (proj2 (Z.eqb_neq p 0)) by lia. by eapply HQ.
    + intros l A' Hreg HI'. cbn [Z.eqb]. apply wp_bind, (wp_chunk_new sz hs (set_big l G)); [done|lia|done|by rewrite Hreg|].
      intros p A2 Hp HI2. rewrite (proj2 (Z.eqb_neq p 0)) by lia. apply wp_bind. eapply (wp_write p sz); [exact HI2|unfold big_sz; lia..|]. intros HI3.
      eapply (HQ _ (g_small G) l); [done|apply load_store; unfold CHUNKSIZE in *; lia|]. exact HI3.
Qed.

Lemma wp_free_big p z len hs G A (Q : unit -> allocator -> Prop) :
  inv ((p - 8, len) :: hs) G A -> load (memory A) (p - 8) = z -> 256 < z < 2 ^ 31 -> round8 z <= len ->
  (forall l A', inv hs (set_big l G) A' -> Q tt A') -> wp (memory_free_big p) A Q.
Proof.
  intros HI Hz Hz' Hlen HQ. unfold memory_free_big, sizeof_size_t. pose proof (round8_le z). set (b := p - 8) in *.
  destruct (inv_head_range _ _ _ _ _ HI) as (Hb0 & Hb1 & _); [lia|]. apply wp_bind, wp_uget.
  pose proof (inv_big_word _ _ _ HI) as H64.
  assert (Hcons : forall A1, inv ((b, len) :: hs) G A1 -> load (memory A1) b = z -> load (memory A1) (big_next b) = big_head A1 ->
    inv hs (set_big (Big b z len :: g_big G) G) (up_tail (if big_head A1 =? 0 then b else big_tail A1) (up_head b A1)))
    by (intros A1 HA1 Hz1 Hn1; by apply inv_big_cons).
  destruct (Z.eqb_spec (big_head A) 0) as [H0|H0].
  - apply wp_bind, wp_umod, wp_bind, wp_umod. unfold wp, wr. change (mapped (up_tail b (up_head b A)) (big_next b) 8) with (mapped A (big_next b) 8).
    rewrite (inv_mapped _ _ _ _ _ _ _ HI) by (unfold big_next; lia). eapply HQ.
    assert (HI1 : wp (wr (big_next b) 0) A (fun _ A1 => A1 = up_memory (store (memory A) (big_next b) 0) A /\ inv ((b, len) :: hs) G A1))
      by (apply (wp_write b len (big_next b) 0 hs G A); [done|unfold big_next; lia..|done]).
    unfold wp, wr in HI1. rewrite (inv_mapped _ _ _ _ _ _ _ HI) in HI1 by (unfold big_next; lia). destruct HI1 as [_ HI1].
    apply Hcons in HI1; [|cbn [up_memory memory]; rewrite load_store_ne; [done|unfold big_next; lia]|cbn [up_memory memory]; rewrite load_store; done].
    cbn [up_memory big_head] in HI1. rewrite H0 in HI1. exact HI1.
  - apply wp_bind. apply (wp_write b len (big_next b) (big_head A) hs G A); [done|unfold big_next; lia..|]. intros HI1. apply wp_umod. eapply HQ.
    apply Hcons in HI1; [|cbn [up_memory memory]; rewrite load_store_ne; [done|unfold big_next; lia]|cbn [up_memory memory]; rewrite load_store; done].
    cbn [up_memory big_head] in HI1. rewrite (proj2 (Z.eqb_neq _ 0) H0) in HI1. exact HI1.
Qed.

End Alloc.
