(* ===== verification/LallocHuge.v ===== *)
(** * The allocator of Lua services: huge blocks (src/service/lalloc.c)

    Blocks of the clients in the invariant of [LallocInv], the ring of huge
    blocks, and what [memory_alloc_huge], [memory_free_huge] and
    [memory_realloc_huge] do to it. *)

From S2P Require Import Prelude Lalloc LallocInv.

Section Alloc.
Context {os : Os} {ok : OsOk os}.
Implicit Types (G : ghost) (A : allocator) (hs : list seg) (m : mem).

(** ** Blocks of the client *)

Lemma segs_user l G A : segs (set_user l G) A ≡ₚ map user_seg l ++ segs (set_user [] G) A.
Proof. unfold segs, set_user. cbn [g_small g_big g_user g_huge map app]. solve_Permutation. Qed.

Lemma set_user_id G : set_user (g_user G) G = G.
Proof. by destruct G. Qed.

Lemma inv_users hs hs' us G A : inv hs G A -> map user_seg us ++ hs' ≡ₚ map user_seg (g_user G) ++ hs ->
  Forall (user_ok (memory A) (regions A) (g_huge G)) us -> inv hs' (set_user us G) A.
Proof.
  intros [I1 I2 I3 I4 I5 I6 I7 I8 I9 I10] E Hu. split; try done. rewrite segs_user, (assoc (++)), (comm (++) hs'), E.
  rewrite <- (set_user_id G), segs_user, (assoc (++)), (comm (++) hs) in I1. exact I1.
Qed.

(** A segment in hand becomes a block of the client, and the other way round. *)
Lemma inv_give u hs G A : inv (user_seg u :: hs) G A -> user_ok (memory A) (regions A) (g_huge G) u -> inv hs (set_user (u :: g_user G) G) A.
Proof.
  intros HI Hu. eapply inv_users; [exact HI|cbn [map app]; solve_Permutation|]. apply Forall_cons. split; [done|apply HI].
Qed.

Lemma inv_take u us hs G A : inv hs G A -> g_user G ≡ₚ u :: us ->
  user_ok (memory A) (regions A) (g_huge G) u /\ inv (user_seg u :: hs) (set_user us G) A.
Proof.
  intros HI E. pose proof (iv_users _ _ _ HI) as Hu. rewrite E in Hu. apply Forall_cons in Hu as [Hu Hus]. split; [done|].
  eapply inv_users; [exact HI| |done]. rewrite E. cbn [map app]. solve_Permutation.
Qed.

(** ** The ring of huge blocks *)

Lemma segs_huge l G A : segs (set_huge l G) A ≡ₚ map (fun h => (h, 16)) (huge_list A :: l) ++
  (small_segs 8 (g_small G) ++ map big_seg (g_big G) ++ map user_seg (g_user G)) ++ [bump A].
Proof. unfold segs, set_huge. cbn [g_small g_big g_user g_huge]. solve_Permutation. Qed.

(** Nodes that lie apart from each other. *)
Definition spaced (l : list Z) : Prop := NoDup l /\ forall x y, x ∈ l -> y ∈ l -> x = y \/ x + 16 <= y \/ y + 16 <= x.

Lemma disj_spaced l rest : disj (map (fun h => (h, 16)) l ++ rest) -> spaced l.
Proof.
  induction l as [|x l IH]; cbn [map app disj]; [split; [constructor|by intros ? ? ?%elem_of_nil]|]. intros [Hx Hd].
  destruct (IH Hd) as [Hn Hs]. apply Forall_app in Hx as [Hx _]. rewrite Forall_map, Forall_forall in Hx. unfold apart in Hx. cbn [fst snd] in Hx. split.
  - constructor; [|done]. intros Hin. specialize (Hx x Hin). lia.
  - intros a b [->|Ha]%elem_of_cons [->|Hb]%elem_of_cons; [by left| | |by apply Hs]; right; [specialize (Hx b Hb)|specialize (Hx a Ha)]; lia.
Qed.

Lemma inv_spaced hs G A : inv hs G A -> spaced (huge_list A :: g_huge G).
Proof.
  intros HI. pose proof (iv_laid _ _ _ HI) as [Hd _]. apply disj_app_r in Hd. rewrite <- (set_huge_id G), segs_huge in Hd. by eapply disj_spaced.
Qed.

Lemma linked_app m l1 x l2 : linked m (l1 ++ x :: l2) <-> linked m (l1 ++ [x]) /\ linked m (x :: l2).
Proof.
  split.
  - intros H. split; intros i y z Hy Hz.
    + assert (Hi : (S i < length (l1 ++ [x]))%nat) by (by apply lookup_lt_Some in Hz). rewrite length_app in Hi. cbn in Hi.
      apply (H i); [|].
      * destruct (decide (i < length l1)%nat); [rewrite lookup_app_l in Hy |- * by lia; done|lia].
      * destruct (decide (S i < length l1)%nat); [rewrite lookup_app_l in Hz |- * by lia; done|].
        rewrite lookup_app_r in Hz |- * by lia. replace (S i - length l1)%nat with 0%nat in * by lia. done.
    + apply (H (length l1 + i)%nat); [|replace (S (length l1 + i)) with (length l1 + S i)%nat by lia]; by rewrite lookup_app_r, Nat.add_comm, Nat.add_sub by lia.
  - intros [H1 H2] i y z Hy Hz. destruct (decide (S i <= length l1)%nat).
    + apply (H1 i).
      * rewrite lookup_app_l in Hy |- * by lia. done.
      * destruct (decide (S i < length l1)%nat); [rewrite lookup_app_l in Hz |- * by lia; done|].
        rewrite lookup_app_r in Hz |- * by lia. replace (S i - length l1)%nat with 0%nat in * by lia. done.
    + apply (H2 (i - length l1)%nat); [rewrite lookup_app_r in Hy by lia; done|].
      rewrite lookup_app_r in Hz by lia. by replace (S (i - length l1)) with (S i - length l1)%nat by lia.
Qed.

Lemma linked_cons m x y l : linked m (x :: y :: l) <-> (load m (huge_next x) = y /\ load m (huge_prev y) = x) /\ linked m (y :: l).
Proof.
  split.
  - intros H. split; [by apply (H 0%nat)|]. intros i a b. apply (H (S i)).
  - intros [H1 H2] [|i] a b Ha Hb; [cbn in *; by simplify_eq|]. by apply (H2 i).
Qed.

Lemma linked_one m x : linked m [x].
Proof. intros i y z _ Hz. destruct i; done. Qed.

(** Only the links between neighbours count. *)
Lemma linked_words m m' l : linked m l ->
  (forall (i : nat) x, l !! i = Some x -> (S i < length l)%nat -> load m' (huge_next x) = load m (huge_next x)) ->
  (forall (i : nat) x, l !! S i = Some x -> load m' (huge_prev x) = load m (huge_prev x)) -> linked m' l.
Proof.
  intros Hl Hn Hp i x y Hx Hy. destruct (Hl i x y Hx Hy) as [<- H2]. split.
  - apply (Hn i); [done|]. by apply lookup_lt_Some in Hy.
  - rewrite (Hp i); [done|]. by rewrite Hy.
Qed.

(** Writes to the links of nodes. *)
Section Links.
Context (l : list Z) (Hs : spaced l) (m : mem) (x y v : Z) (Hx : x ∈ l) (Hy : y ∈ l) (Hv : 0 <= v < 2 ^ 64).

Lemma next_next : load (store m (huge_next x) v) (huge_next y) = if decide (y = x) then v else load m (huge_next y).
Proof.
  destruct (proj2 Hs x y Hx Hy) as [->|]; [by rewrite decide_True, load_store|].
  rewrite decide_False by lia. apply load_store_ne. unfold huge_next. lia.
Qed.
Lemma next_prev : load (store m (huge_next x) v) (huge_prev y) = load m (huge_prev y).
Proof. apply load_store_ne. unfold huge_next, huge_prev. destruct (proj2 Hs x y Hx Hy); lia. Qed.
Lemma prev_prev : load (store m (huge_prev x) v) (huge_prev y) = if decide (y = x) then v else load m (huge_prev y).
Proof.
  destruct (proj2 Hs x y Hx Hy) as [->|]; [by rewrite decide_True, load_store|].
  rewrite decide_False by lia. apply load_store_ne. unfold huge_prev. lia.
Qed.
Lemma prev_next : load (store m (huge_prev x) v) (huge_next y) = load m (huge_next y).
Proof. apply load_store_ne. unfold huge_next, huge_prev. destruct (proj2 Hs x y Hx Hy); lia. Qed.
End Links.

(** The ring is open between [p] and [nx]: their links there may change. *)
Lemma linked_open m m' H l1 l2 p nx : NoDup (H :: l1 ++ l2) -> last (H :: l1) = Some p -> (l2 ++ [H]) !! 0%nat = Some nx ->
  linked m (H :: l1) -> linked m (l2 ++ [H]) ->
  (forall x, x ∈ H :: l1 ++ l2 -> x <> p -> load m' (huge_next x) = load m (huge_next x)) ->
  (forall x, x ∈ H :: l1 ++ l2 -> x <> nx -> load m' (huge_prev x) = load m (huge_prev x)) ->
  linked m' (H :: l1) /\ linked m' (l2 ++ [H]).
Proof.
  intros Hnd Hp Hnx Hl1 Hl2 Hn Hpr.
  assert (Hnd1 : NoDup (H :: l1)) by (rewrite app_comm_cons in Hnd; by apply NoDup_app in Hnd as [? _]).
  assert (Hnd2 : NoDup (l2 ++ [H])).
  { apply NoDup_cons in Hnd as [HH Hnd]. apply NoDup_app in Hnd as (_ & _ & Hnd). apply NoDup_app. split_and!; [done| |by apply NoDup_singleton].
    intros x Hx ->%list_elem_of_singleton. apply HH, elem_of_app. by right. }
  assert (Hsep : forall x, x ∈ H :: l1 -> x ∉ l2) by (rewrite app_comm_cons in Hnd; by apply NoDup_app in Hnd as (_ & ? & _)).
  assert (Hin1 : forall x, x ∈ H :: l1 -> x ∈ H :: l1 ++ l2) by (intros x Hx; rewrite app_comm_cons, elem_of_app; by left).
  assert (Hin2 : forall x, x ∈ l2 ++ [H] -> x ∈ H :: l1 ++ l2).
  { intros x [Hx| ->%list_elem_of_singleton]%elem_of_app; [|by left]. rewrite app_comm_cons, elem_of_app. by right. }
  rewrite last_lookup in Hp. split.
  - eapply linked_words; [exact Hl1| |].
    + intros i x Hx Hi. apply Hn; [by apply Hin1; eapply list_elem_of_lookup_2|]. intros ->.
      pose proof (NoDup_lookup _ _ _ _ Hnd1 Hx Hp). cbn in *. lia.
    + intros i x Hx. apply Hpr; [by apply Hin1; eapply list_elem_of_lookup_2|]. intros ->. cbn in Hx. apply list_elem_of_lookup_2 in Hx, Hnx.
      apply elem_of_app in Hnx as [Hnx| ->%list_elem_of_singleton]; [by eapply (Hsep nx); [by right|]|]. by apply NoDup_cons in Hnd1 as [? _].
  - eapply linked_words; [exact Hl2| |].
    + intros i x Hx Hi. rewrite length_app in Hi. cbn in Hi. rewrite lookup_app_l in Hx by lia. apply list_elem_of_lookup_2 in Hx.
      apply Hn; [apply Hin2, elem_of_app; by left|]. intros ->. apply list_elem_of_lookup_2 in Hp. by eapply Hsep.
    + intros i x Hx. apply Hpr; [by apply Hin2; eapply list_elem_of_lookup_2|]. intros ->.
      by pose proof (NoDup_lookup _ _ _ _ Hnd2 Hx Hnx).
Qed.

(** Two stretches of a ring that point at each other. *)
Lemma linked_glue m l1 p nx l2 : last l1 = Some p -> l2 !! 0%nat = Some nx -> linked m l1 -> linked m l2 ->
  load m (huge_next p) = nx -> load m (huge_prev nx) = p -> linked m (l1 ++ l2).
Proof.
  intros Hp Hnx H1 H2 Hn Hpr. apply last_Some in Hp as [l1' ->]. destruct l2 as [|nx' l2]; [done|]. injection Hnx as ->.
  rewrite <- (assoc (++)). cbn [app]. apply linked_app. split; [done|]. by apply linked_cons.
Qed.

(** The links at the opening are set. *)
Lemma linked_set m m' H l1 l2 p nx v w : NoDup (H :: l1 ++ l2) -> last (H :: l1) = Some p -> (l2 ++ [H]) !! 0%nat = Some nx ->
  linked m (H :: l1) -> linked m (l2 ++ [H]) ->
  (forall x, x ∈ H :: l1 ++ l2 -> load m' (huge_next x) = if decide (x = p) then v else load m (huge_next x)) ->
  (forall x, x ∈ H :: l1 ++ l2 -> load m' (huge_prev x) = if decide (x = nx) then w else load m (huge_prev x)) ->
  linked m' (H :: l1) /\ linked m' (l2 ++ [H]) /\ load m' (huge_next p) = v /\ load m' (huge_prev nx) = w.
Proof.
  intros Hnd Hp Hnx Hl1 Hl2 Hn Hpr. destruct (linked_open m m' H l1 l2 p nx) as [H1 H2]; try done.
  - intros x Hx Hne. by rewrite Hn, decide_False.
  - intros x Hx Hne. by rewrite Hpr, decide_False.
  - split_and!; [done|done| |].
    + rewrite Hn, decide_True; [done|done|]. rewrite last_lookup in Hp. apply list_elem_of_lookup_2 in Hp. rewrite app_comm_cons, elem_of_app. by left.
    + rewrite Hpr, decide_True; [done|done|]. apply list_elem_of_lookup_2 in Hnx.
      apply elem_of_app in Hnx as [?| ->%list_elem_of_singleton]; [rewrite app_comm_cons, elem_of_app; by right|by left].
Qed.

(** A node between its neighbours. *)
Lemma linked_insert m H l1 l2 p nx h : last (H :: l1) = Some p -> (l2 ++ [H]) !! 0%nat = Some nx ->
  linked m (H :: l1) -> linked m (l2 ++ [H]) -> load m (huge_next p) = h -> load m (huge_prev nx) = h ->
  load m (huge_prev h) = p -> load m (huge_next h) = nx -> linked m (H :: (l1 ++ h :: l2) ++ [H]).
Proof.
  intros Hp Hnx H1 H2 Hn Hpr Hh1 Hh2. rewrite <- (assoc (++)), app_comm_cons. apply (linked_glue _ _ p h); [done|done|done| |done|done].
  apply (linked_glue _ [h] h nx); [done|done|apply linked_one|done|done|done].
Qed.

(** ** Regions *)

Lemma laid_join rs a k n l : laid rs ((a, k) :: (a + k, n - k) :: l) -> 0 < k < n -> seg_ok rs (a, n) -> laid rs ((a, n) :: l).
Proof.
  intros [[H1%Forall_cons_1 [H2 H3]] H4%Forall_cons_1] Hk Hs. split.
  - split; [|done]. destruct H1 as [_ H1]. rewrite Forall_forall in *. intros x Hx. specialize (H1 x Hx). specialize (H2 x Hx).
    unfold apart in *. cbn [fst snd] in *. lia.
  - apply Forall_cons. split; [done|]. destruct H4 as [_ [_ ?]%Forall_cons_1]. done.
Qed.

(** A region that is one segment can be given back. *)
Lemma laid_remove rs rs' r l : laid rs (r :: l) -> rs ≡ₚ r :: rs' -> 0 < r.2 -> laid rs' l.
Proof.
  intros [[H1 H2] [H3 H4]%Forall_cons_1] E Hr. split; [done|]. rewrite Forall_forall in *. intros x Hx. destruct (H4 x Hx) as [Hn Hw].
  split; [done|]. intros Hx0. destruct (Hw Hx0) as (Hm & r' & Hin & Hwi). split; [done|]. exists r'. split; [|done].
  rewrite E in Hin. apply elem_of_cons in Hin as [->|]; [|done]. exfalso. specialize (H1 x Hx). unfold apart, within in *. lia.
Qed.

Lemma cut_region_exact p n rs : Forall region_ok rs -> disj rs -> (p, page_up n) ∈ rs ->
  exists rs', cut_region p (page_up n) rs = Some rs' /\ rs ≡ₚ (p, page_up n) :: rs'.
Proof.
  induction rs as [|[a len] rs IH]; intros Hok Hd Hin; [by apply elem_of_nil in Hin|]. apply Forall_cons in Hok as [Ha Hok]. destruct Hd as [Hd1 Hd2].
  cbn [cut_region]. apply elem_of_cons in Hin as [[= <- <-]|Hin].
  - rewrite !Z.eqb_refl. by exists rs.
  - assert (a <> p).
    { rewrite Forall_forall in Hd1. specialize (Hd1 _ Hin). rewrite Forall_forall in Hok. specialize (Hok _ Hin).
      unfold apart, region_ok in *. cbn [fst snd] in *. lia. }
    rewrite (proj2 (Z.eqb_neq a p)) by done. destruct (IH Hok Hd2 Hin) as (rs' & -> & E). exists ((a, len) :: rs'). split; [done|].
    rewrite E. apply Permutation_swap.
Qed.

(** ** Huge blocks *)

Definition parts (G : ghost) : list seg := small_segs 8 (g_small G) ++ map big_seg (g_big G) ++ map user_seg (g_user G).

Lemma node_laid hs G A : inv hs G A -> laid (regions A) (map (fun h => (h, 16)) (huge_list A :: g_huge G) ++ hs ++ parts G ++ [bump A]).
Proof.
  intros HI. pose proof (iv_laid _ _ _ HI) as H. rewrite <- (set_huge_id G), segs_huge in H.
  eapply laid_perm; [|exact H]. unfold parts. solve_Permutation.
Qed.

(** Writes to a node leave the blocks alone. *)
Lemma nodes_agree rs l rest m x q v : laid rs (map (fun h => (h, 16)) l ++ rest) -> x ∈ l -> x <= q -> q + 8 <= x + 16 ->
  Forall (fun y => agree m (store m q v) y.1 y.2) rest.
Proof.
  intros HL (l1 & l2 & ->)%list_elem_of_split H1 H2.
  eapply (laid_perm _ _ ((x, 16) :: map (fun h => (h, 16)) l1 ++ map (fun h => (h, 16)) l2 ++ rest)) in HL;
    [|rewrite map_app; cbn [map]; solve_Permutation].
  pose proof (laid_store _ m q v _ _ _ HL H1 H2) as Hag. rewrite !Forall_app in Hag. tauto.
Qed.

Lemma node_agree hs G A m x q v : inv hs G A -> x ∈ huge_list A :: g_huge G -> x <= q -> q + 8 <= x + 16 ->
  Forall (fun y => agree m (store m q v) y.1 y.2) (hs ++ parts G).
Proof.
  intros HI Hx H1 H2. pose proof (nodes_agree _ _ _ m x q v (node_laid _ _ _ HI) Hx H1 H2) as Hag. rewrite (assoc (++)) in Hag.
  by apply Forall_app in Hag as [? _].
Qed.

Lemma node_mapped hs G A x q : inv hs G A -> x ∈ huge_list A :: g_huge G -> x <= q -> q + 8 <= x + 16 -> mapped A q 8 = true.
Proof.
  intros HI Hx H1 H2. eapply (seg_mapped (x, 16)); [exact HI| |done..]. rewrite <- (set_huge_id G), segs_huge.
  apply elem_of_app. left. apply list_elem_of_fmap. by exists x.
Qed.

Lemma wp_write_at p v A (Q : unit -> allocator -> Prop) : mapped A p 8 = true -> Q tt (up_memory (store (memory A) p v) A) -> wp (wr p v) A Q.
Proof. intros H HQ. unfold wp, wr. by rewrite H. Qed.

Lemma user_ok_ring m rs l l' u : user_ok m rs l u -> (forall h, h ∈ l -> h ∈ l') -> user_ok m rs l' u.
Proof.
  intros (H0 & Hd & H) Hin. split; [done|]. split; [done|]. destruct (u_kind u); [done..|]. destruct H as (? & ? & ? & ? & Hl & ?). split_and!; try done; try lia. by apply Hin.
Qed.

(** The first neighbour in the ring. *)
Lemma ring_first hs G A : inv hs G A -> exists nx, (g_huge G ++ [huge_list A]) !! 0%nat = Some nx /\ nx ∈ huge_list A :: g_huge G /\
  load (memory A) (huge_next (huge_list A)) = nx /\ linked (memory A) (g_huge G ++ [huge_list A]).
Proof.
  intros HI. pose proof (iv_huge _ _ _ HI) as Hl. destruct (g_huge G ++ [huge_list A]) as [|nx N] eqn:E; [by destruct (g_huge G)|].
  apply linked_cons in Hl as [[Hn _] Hl]. exists nx. split; [done|]. split; [|done].
  assert (Hin : nx ∈ g_huge G ++ [huge_list A]) by (rewrite E; by left). apply elem_of_app in Hin as [?| ->%list_elem_of_singleton]; [by right|by left].
Qed.

Definition with_user (u : user) (G : ghost) : ghost := set_user (u :: g_user G) G.

Lemma inv_node_in h L hs G A m : inv ((h, L) :: hs) G A -> 24 <= L ->
  Forall (fun y => agree (memory A) m y.1 y.2) (hs ++ parts G) ->
  linked m (huge_list A :: (h :: g_huge G) ++ [huge_list A]) -> inv ((h + 16, L - 16) :: hs) (set_huge (h :: g_huge G) G) (up_memory m A).
Proof.
  intros HI HL Hag Hlk. eapply inv_relink; [exact HI| | |by eapply Forall_impl; [apply HI|]; intros u Hu; eapply user_ok_ring; [exact Hu|]; by right|done].
  - pose proof (iv_laid _ _ _ HI) as Hl. cbn [app] in Hl. apply (laid_split _ _ _ 16) in Hl; [|lia|done]. rewrite <- (set_huge_id G), segs_huge in Hl.
    rewrite segs_huge. cbn [map app]. eapply laid_perm; [|exact Hl]. cbn [map]. solve_Permutation.
  - apply Forall_app in Hag as [_ Hag]. exact Hag.
Qed.

Lemma inv_node_links h L hs G A : inv ((h, L) :: hs) G A -> 24 <= L -> spaced (h :: huge_list A :: g_huge G).
Proof.
  intros HI HL. apply (inv_sub h L h 16) in HI; [|lia..|by rewrite Z.sub_diag]. pose proof (node_laid _ _ _ HI) as [Hd _].
  eapply (disj_spaced _ (hs ++ parts G ++ [bump A])). eapply disj_perm; [|exact Hd]. cbn [map app]. solve_Permutation.
Qed.

Lemma inv_word hs G A x : inv hs G A -> x ∈ huge_list A :: g_huge G -> 0 <= x < 2 ^ 64.
Proof.
  intros HI Hx. pose proof (node_laid _ _ _ HI) as [_ Hs]. apply Forall_app in Hs as [Hs _]. rewrite Forall_map, Forall_forall in Hs.
  destruct (seg_ok_range _ _ _ (Hs x Hx) (proj1 (iv_regions _ _ _ HI))); lia.
Qed.

Lemma wp_alloc_huge sz hs G A (Q : Z -> allocator -> Prop) :
  inv hs G A -> HUGESIZE < sz < 2 ^ 31 -> memory_left (regions A) ->
  (forall u l A', 0 < u_ptr u -> u_size u = sz -> inv hs (with_user u (set_huge l G)) A' -> Q (u_ptr u) A') ->
  wp (memory_alloc_huge sz) A Q.
Proof.
  intros HI Hsz [Hml _] HQ. unfold memory_alloc_huge, sizeof_hugeblock. assert (Hsz0 : 0 < sz) by (unfold HUGESIZE, CHUNKSIZE in *; lia).
  apply wp_bind. apply (wp_alloc_page _ hs G); [done|lia|apply Hml; lia|].
  intros h A1 Hh Hb _ Hreg HI1. rewrite (proj2 (Z.eqb_neq h 0)) by lia. rewrite (Z.add_comm 24 sz) in *.
  pose proof (page_up_le (sz + 24)) as HL. set (L := page_up (sz + 24)) in *. assert (HL24 : 24 <= L) by (unfold HUGESIZE, CHUNKSIZE in *; lia).
  apply wp_bind, wp_uget, wp_bind. set (H := huge_list A1) in *.
  apply (wp_write h L (huge_prev h) H hs G A1); [done|unfold huge_prev; lia..|]. intros HI2. set (A2 := up_memory _ A1) in *.
  destruct (ring_first _ _ _ HI2) as (nx & Hnx & Hnxin & Hld & _).
  apply wp_bind, wp_read; [eapply (node_mapped _ _ _ H); [exact HI2|by left|unfold huge_next; lia..]|]. change (huge_list A2) with H in *. rewrite Hld.
  apply wp_bind, (wp_write h L (huge_next h) nx hs G A2); [done|unfold huge_next; lia..|]. intros HI3. set (A3 := up_memory _ A2) in *.
  apply wp_bind, (wp_write h L (huge_sz h) sz hs G A3); [done|unfold huge_sz; lia..|]. intros HI4. set (A4 := up_memory _ A3) in *.
  destruct (ring_first _ _ _ HI4) as (nx' & Hnx' & _ & Hld4 & Hlk4). change (huge_list A4) with H in *. rewrite Hnx in Hnx'. injection Hnx' as <-.
  apply wp_bind, wp_read; [eapply (node_mapped _ _ _ H); [exact HI4|by left|unfold huge_next; lia..]|]. rewrite Hld4.
  apply wp_bind, wp_write_at; [eapply (node_mapped _ _ _ nx); [exact HI4|done|unfold huge_prev; lia..]|]. set (m5 := store (memory A4) (huge_prev nx) h) in *.
  apply wp_bind, wp_write_at; [change (mapped A4 (huge_next H) 8 = true); eapply (node_mapped _ _ _ H); [exact HI4|by left|unfold huge_next; lia..]|].
  cbn [up_memory memory]. set (m6 := store m5 (huge_next H) h) in *. change (up_memory m6 (up_memory m5 A4)) with (up_memory m6 A4).
  pose proof (inv_node_links _ _ _ _ _ HI4 HL24) as Hsp. change (huge_list A4) with H in Hsp.
  assert (Hag : Forall (fun y => agree (memory A4) m6 y.1 y.2) (((h, L) :: hs) ++ parts G)).
  { pose proof (node_agree _ _ _ (memory A4) nx (huge_prev nx) h HI4 Hnxin ltac:(unfold huge_prev; lia) ltac:(unfold huge_prev; lia)) as Hg1.
    pose proof (node_agree _ _ _ m5 H (huge_next H) h HI4 ltac:(by left) ltac:(unfold huge_next; lia) ltac:(unfold huge_next; lia)) as Hg2.
    rewrite Forall_forall in Hg1. rewrite Forall_forall in Hg2. apply Forall_forall. intros y Hy. eapply agree_trans; [by apply Hg1|by apply Hg2]. }
  apply Forall_cons_1 in Hag as [Hagh Hag]. cbn [fst snd] in Hagh.
  assert (Hh1 : load m6 (huge_prev h) = H /\ load m6 (huge_next h) = nx /\ load m6 (huge_sz h) = sz).
  { rewrite !(load_agree (memory A4) m6) by (eapply agree_sub; [exact Hagh|unfold huge_prev, huge_next, huge_sz; lia..]).
    cbn [A4 A3 A2 up_memory memory]. unfold huge_prev, huge_next, huge_sz.
    pose proof (inv_word _ _ _ _ HI1 Hnxin) as Hw1. pose proof (inv_word _ _ _ H HI1 ltac:(by left)) as Hw2.
    split_and!; [rewrite 2!load_store_ne by lia|rewrite load_store_ne by lia|]; apply load_store; unfold HUGESIZE, CHUNKSIZE in *; (done || lia). }
  destruct Hh1 as (Hh1 & Hh2 & Hh3).
  assert (Hlk : linked m6 (H :: (h :: g_huge G) ++ [H])).
  { assert (Hin : forall x, x ∈ H :: g_huge G -> x ∈ h :: H :: g_huge G) by (intros x Hx; by right).
    destruct (linked_set (memory A4) m6 H [] (g_huge G) H nx h h) as (K1 & K2 & K3 & K4); try done.
    - by destruct Hsp as [[_ ?]%NoDup_cons _].
    - intros x Hx. cbn [app] in Hx. unfold m6, m5. rewrite (next_next _ Hsp), (prev_next _ Hsp) by (lia || apply Hin; (done || by left)). done.
    - intros x Hx. cbn [app] in Hx. unfold m6, m5. rewrite (next_prev _ Hsp), (prev_prev _ Hsp) by (lia || apply Hin; (done || by left)). done.
    - by apply (linked_insert m6 H [] (g_huge G) H nx h). }
  assert (HI6 : inv ((h + 16, L - 16) :: hs) (set_huge (h :: g_huge G) G) (up_memory m6 A4)) by (eapply inv_node_in; [exact HI4|done|exact Hag|exact Hlk]).
  apply wp_ret. set (u := User (h + 24) (get_bytes m6 (h + 24) sz) (h + 16) (L - 16) KHuge).
  assert (Hus : u_size u = sz) by (cbn [u u_data]; rewrite get_bytes_length; lia).
  apply (HQ u (h :: g_huge G)); [cbn; lia|done|]. apply (inv_give u _ _ _ HI6). split; [lia|]. split; [by rewrite Hus|]. cbn [u_kind u u_ptr u_lo u_len set_huge g_huge up_memory memory regions].
  fold u. rewrite Hus. split_and!; try lia; [done| |].
  - replace (h + 16 - 16) with h by lia. by left.
  - replace (h + 16 - 16) with h by lia. change (regions A4) with (regions A1). rewrite Hreg. by left.
Qed.

(** A region that the system gives is a segment in hand. *)
Lemma laid_more rs r l : laid rs l -> region_ok r -> Forall (apart r) rs -> laid (r :: rs) (r :: l).
Proof.
  intros [Hd Hs] (H1 & H2 & H3 & H4 & H5) Hr. split; [split; [|done]|apply Forall_cons; split].
  - eapply Forall_impl; [exact Hs|]. intros x. by apply seg_apart.
  - split; [lia|]. intros _. split; [zdiv|]. exists r. split; [by left|]. unfold within. lia.
  - eapply Forall_impl; [exact Hs|]. intros x. apply seg_ok_more.
Qed.

(** A huge block in hand with its node out of the ring. *)
Lemma node_out x l1 l2 L hs G A : inv ((x + 16, L - 16) :: hs) G A -> g_huge G = l1 ++ x :: l2 -> 16 < L -> (x, L) ∈ regions A ->
  laid (regions A) ((x, L) :: hs ++ segs (set_huge (l1 ++ l2) G) A).
Proof.
  intros HI E HL Hin. pose proof (iv_laid _ _ _ HI) as Hl. rewrite <- (set_huge_id G), E, segs_huge in Hl. rewrite segs_huge.
  apply (laid_join _ _ 16); [|lia|].
  - eapply laid_perm; [|exact Hl]. cbn [map app]. rewrite !map_app. cbn [map]. solve_Permutation.
  - destruct (iv_regions _ _ _ HI) as [Hr _]. rewrite Forall_forall in Hr. destruct (Hr _ Hin) as (? & ? & ? & ? & ?). cbn [fst snd] in *.
    split; cbn [fst snd]; [lia|]. intros _. split; [zdiv|]. exists (x, L). split; [done|]. unfold within. cbn [fst snd]. lia.
Qed.

(** The other huge blocks have other nodes. *)
Lemma users_without x l1 l2 L rs rs' hs G A : inv ((x + 16, L - 16) :: hs) G A -> g_huge G = l1 ++ x :: l2 -> 16 < L ->
  regions A ≡ₚ (x, L) :: rs' -> (forall r, r ∈ rs' -> r ∈ rs) -> Forall (user_ok (memory A) rs (l1 ++ l2)) (g_user G).
Proof.
  intros HI E HL Er Hsub. pose proof (iv_users _ _ _ HI) as Hu. rewrite Forall_forall in Hu. apply Forall_forall. intros u Hin.
  pose proof (user_ok_fits _ _ _ _ (Hu _ Hin)) as Hf. destruct (Hu _ Hin) as (H0 & Hd & H). split; [done|]. split; [done|]. destruct (u_kind u); [done..|].
  destruct H as (? & ? & ? & ? & Hh & Hreg). assert (Hne : u_lo u - 16 <> x).
  { pose proof (iv_laid _ _ _ HI) as [[Ha _] _]. apply Forall_app in Ha as [_ Ha]. apply forall_segs in Ha as (_ & _ & Ha & _).
    rewrite Forall_forall in Ha. specialize (Ha _ Hin). unfold apart, user_seg in Ha. cbn [fst snd] in Ha. lia. }
  split_and!; try done; try lia.
  - rewrite E in Hh. set_solver.
  - apply Hsub. rewrite Er in Hreg. apply elem_of_cons in Hreg as [[= ? ?]|?]; [lia|done].
Qed.

(** What is around a node of the ring. *)
Lemma linked_around m H l1 h l2 : linked m (H :: (l1 ++ h :: l2) ++ [H]) -> exists p nx,
  last (H :: l1) = Some p /\ (l2 ++ [H]) !! 0%nat = Some nx /\ load m (huge_prev h) = p /\ load m (huge_next h) = nx /\
  load m (huge_next p) = h /\ load m (huge_prev nx) = h /\ linked m (H :: l1) /\ linked m (l2 ++ [H]).
Proof.
  rewrite <- (assoc (++)), app_comm_cons. intros Hl. pose proof Hl as Hl0. apply linked_app in Hl as [H1 H2]. change (linked m (h :: l2 ++ [H])) in H2.
  destruct (last (H :: l1)) as [p|] eqn:Ep; [|by apply last_None in Ep]. pose proof Ep as Ep'. apply last_Some in Ep' as [l1' El]. rewrite El in H1.
  destruct (l2 ++ [H]) as [|nx l2'] eqn:E2; [by destruct l2|]. exists p, nx. rewrite <- (assoc (++)) in H1. cbn [app] in H1.
  apply linked_app in H1 as [H1 [[Hp Hh] _]%linked_cons]. apply linked_cons in H2 as [[Hn Hpr] H2]. rewrite El. by split_and!.
Qed.

Lemma huge_taken u us hs G A : inv hs G A -> g_user G ≡ₚ u :: us -> u_kind u = KHuge -> exists x l1 l2,
  x = u_lo u - 16 /\ u_ptr u = x + 24 /\ g_huge G = l1 ++ x :: l2 /\ load (memory A) (x + 16) = u_size u /\
  HUGESIZE < u_size u < 2 ^ 31 /\ u_len u = page_up (u_size u + 24) - 16 /\ (x, page_up (u_size u + 24)) ∈ regions A /\
  get_bytes (memory A) (u_ptr u) (u_size u) = u_data u /\ inv ((x + 16, page_up (u_size u + 24) - 16) :: hs) (set_user us G) A.
Proof.
  intros HI E Hk. destruct (inv_take u us hs G A HI E) as [(H0 & Hd & Hu) HI']. rewrite Hk in Hu. destruct Hu as (Hp & Hl & Hsz & Hlen & Hin & Hr).
  apply list_elem_of_split in Hin as (l1 & l2 & El). exists (u_lo u - 16), l1, l2. unfold user_seg in HI'. rewrite Hlen in HI'.
  replace (u_lo u - 16 + 16) with (u_lo u) by lia. split_and!; try done; lia.
Qed.

Lemma wp_free_huge u us hs G A (Q : unit -> allocator -> Prop) :
  inv hs G A -> g_user G ≡ₚ u :: us -> u_kind u = KHuge ->
  (forall l A', inv hs (set_user us (set_huge l G)) A' -> Q tt A') -> wp (memory_free_huge (u_ptr u)) A Q.
Proof.
  intros HI E Hk HQ. destruct (huge_taken _ _ _ _ _ HI E Hk) as (x & l1 & l2 & _ & -> & El & Hsz & Hn & _ & Hreg & _ & HI1).
  clear HI. set (L := page_up (u_size u + 24)) in *. pose proof (page_up_le (u_size u + 24)) as HL. fold L in HL.
  assert (HL16 : 40 <= L) by (unfold HUGESIZE, CHUNKSIZE in *; lia).
  change (g_huge (set_user us G)) with (g_huge G) in *. set (G1 := set_user us G) in *. change (g_huge G) with (g_huge G1) in El.
  pose proof (iv_huge _ _ _ HI1) as Hlk. rewrite El in Hlk. set (H := huge_list A) in *.
  destruct (linked_around _ _ _ _ _ Hlk) as (p & nx & Hp & Hnx & Hxp & Hxn & _ & _ & Hlk1 & Hlk2). pose proof (inv_spaced _ _ _ HI1) as Hsp. rewrite El in Hsp. fold H in Hsp.
  pose proof (proj1 Hsp) as Hnd. rewrite app_comm_cons, <- Permutation_middle, <- app_comm_cons in Hnd. apply NoDup_cons in Hnd as [Hxni Hnd].
  assert (Hpin : p ∈ H :: l1 ++ l2) by (apply last_Some_elem_of in Hp; set_solver).
  assert (Hnin : nx ∈ H :: l1 ++ l2) by (apply list_elem_of_lookup_2 in Hnx; set_solver).
  assert (Hsub : forall y, y ∈ H :: l1 ++ l2 -> y ∈ H :: l1 ++ x :: l2) by set_solver.
  assert (Hw : forall y, y ∈ H :: l1 ++ l2 -> 0 <= y < 2 ^ 64) by (intros y Hy; apply (inv_word _ _ _ _ HI1); fold H; rewrite El; by apply Hsub).
  assert (Hxin : x ∈ H :: l1 ++ x :: l2) by set_solver.
  assert (Hmap : forall y q A', y ∈ H :: l1 ++ x :: l2 -> y <= q -> q + 8 <= y + 16 -> regions A' = regions A -> mapped A' q 8 = true).
  { intros y q A' Hy H1 H2 Er. unfold mapped. rewrite Er. apply (node_mapped _ _ _ y q HI1); fold H; by rewrite ?El. }
  unfold memory_free_huge, sizeof_hugeblock. replace (x + 24 - 24) with x by lia.
  apply wp_bind, wp_read; [by apply (Hmap x); [|unfold huge_prev; lia..|]|]. rewrite Hxp.
  apply wp_bind, wp_read; [by apply (Hmap x); [|unfold huge_next; lia..|]|]. rewrite Hxn.
  apply wp_bind, wp_write_at; [apply (Hmap p); [by apply Hsub|unfold huge_next; lia..|done]|]. set (m1 := store (memory A) (huge_next p) nx).
  assert (Hxne : forall y, y ∈ H :: l1 ++ l2 -> x <> y) by (by intros y Hy ->).
  cbn [up_memory memory]. fold m1. apply wp_bind, wp_read; [by apply (Hmap x); [|unfold huge_next; lia..|]|]. cbn [up_memory memory].
  unfold m1 at 1. rewrite (next_next _ Hsp), decide_False, Hxn by auto.
  apply wp_bind, wp_read; [by apply (Hmap x); [|unfold huge_prev; lia..|]|]. cbn [up_memory memory]. unfold m1 at 1. rewrite (next_prev _ Hsp), Hxp by auto.
  apply wp_bind, wp_write_at; [apply (Hmap nx); [by apply Hsub|unfold huge_prev; lia..|done]|]. cbn [up_memory memory]. set (m2 := store m1 (huge_prev nx) p).
  change (up_memory m2 (up_memory m1 A)) with (up_memory m2 A).
  assert (Hag : Forall (fun y => agree (memory A) m2 y.1 y.2) (((x + 16, L - 16) :: hs) ++ parts G1)).
  { pose proof (node_agree _ _ _ (memory A) p (huge_next p) nx HI1) as Hg1. pose proof (node_agree _ _ _ m1 nx (huge_prev nx) p HI1) as Hg2. fold H in Hg1, Hg2.
    rewrite El in Hg1, Hg2. specialize (Hg1 (Hsub _ Hpin) ltac:(unfold huge_next; lia) ltac:(unfold huge_next; lia)).
    specialize (Hg2 (Hsub _ Hnin) ltac:(unfold huge_prev; lia) ltac:(unfold huge_prev; lia)).
    rewrite Forall_forall in Hg1. rewrite Forall_forall in Hg2. apply Forall_forall. intros y Hy. eapply agree_trans; [by apply Hg1|by apply Hg2]. }
  apply Forall_cons_1 in Hag as [Hagx Hag]. cbn [fst snd] in Hagx.
  apply wp_bind, wp_read; [apply (inv_mapped _ _ _ _ _ _ _ HI1); unfold huge_sz; lia|]. cbn [up_memory memory]. unfold huge_sz.
  rewrite (load_agree (memory A)), Hsz by (eapply agree_sub; [exact Hagx|lia..]).
  destruct (cut_region_exact x (u_size u + 24) (regions A)) as (rs' & Hcut & Er); [apply (iv_regions _ _ _ HI1)|apply (iv_regions _ _ _ HI1)|done|].
  unfold wp, munmap. cbn [up_memory regions]. rewrite Hcut. cbn [mbind option_bind]. apply (HQ (l1 ++ l2)).
  change (inv hs (set_huge (l1 ++ l2) G1) (up_regions rs' (up_memory m2 A))).
  eapply inv_rebuild; [exact HI1| | | | |].
  - eapply laid_remove; [eapply node_out; [exact HI1|done|lia|done]|exact Er|cbn [snd]; lia].
  - pose proof (iv_regions _ _ _ HI1) as [R1 R2]. rewrite Er in R1, R2. apply Forall_cons_1 in R1 as [_ R1]. destruct R2 as [_ R2]. done.
  - apply Forall_app in Hag as [_ Hag]. exact Hag.
  - eapply users_without; [exact HI1|exact El|lia|exact Er|done].
  - fold H. destruct (linked_set (memory A) m2 H l1 l2 p nx nx p) as (K1 & K2 & K3 & K4); try done.
    + intros y Hy. unfold m2, m1. by rewrite (prev_next _ Hsp), (next_next _ Hsp) by auto.
    + intros y Hy. unfold m2, m1. by rewrite (prev_prev _ Hsp), (next_prev _ Hsp) by auto.
    + rewrite <- (assoc (++)), app_comm_cons. by apply (linked_glue _ _ p nx).
Qed.

Lemma take_bytes m p n k : k <= n -> take (Z.to_nat k) (get_bytes m p n) = get_bytes m p k.
Proof. intros Hk. unfold get_bytes. rewrite <- fmap_take. f_equal. unfold seqZ. rewrite <- fmap_take, take_seq. f_equal. f_equal. lia. Qed.

(** Bytes that moved from [p] to [q]. *)
Definition moved (m m' : mem) (p q n : Z) : Prop := forall i, 0 <= i < n -> byte_at m' (q + i) = byte_at m (p + i).

Lemma moved_bytes m m' p q n : moved m m' p q n -> get_bytes m' q n = get_bytes m p n.
Proof. intros H. apply map_ext_in. intros i Hi. apply list_elem_of_In, elem_of_seqZ in Hi. apply H. lia. Qed.

Lemma moved_sub m m' p q n a k : moved m m' p q n -> 0 <= a -> a + k <= n -> moved m m' (p + a) (q + a) k.
Proof. intros H H1 H2 i Hi. rewrite <- !(Z.add_assoc _ a i). apply H. lia. Qed.

Lemma moved_load m m' p q n a : moved m m' p q n -> 0 <= a -> a + 8 <= n -> load m' (q + a) = load m (p + a).
Proof. intros H H1 H2. unfold load. f_equal. apply moved_bytes. by eapply moved_sub. Qed.

Lemma moved_agree m m1 m2 p q n k : moved m m1 p q n -> agree m1 m2 q k -> n <= k -> moved m m2 p q n.
Proof. intros H Ha Hk i Hi. rewrite Ha by lia. by apply H. Qed.

Lemma wp_mremap x osz nsz l1 l2 hs G A (Q : Z -> allocator -> Prop) :
  let L := page_up osz in let NL := page_up nsz in
  inv ((x + 16, L - 16) :: hs) G A -> g_huge G = l1 ++ x :: l2 -> 16 < L -> (x, L) ∈ regions A ->
  0 < nsz < 2 ^ 32 -> memory_left (regions A) ->
  (forall q rs m, 0 < q < 2 ^ 63 -> (q, NL) ∈ rs -> laid rs ((q, NL) :: hs ++ segs (set_huge (l1 ++ l2) G) A) ->
     Forall region_ok rs /\ disj rs -> Forall (user_ok (memory A) rs (l1 ++ l2)) (g_user G) ->
     Forall (fun y => agree (memory A) m y.1 y.2) (hs ++ segs (set_huge (l1 ++ l2) G) A) -> moved (memory A) m x q (Z.min L NL) ->
     Q q (up_regions rs (up_memory m A))) ->
  wp (mremap_ x osz nsz) A Q.
Proof.
  intros L NL HI El HL Hin Hn [_ Hml] HQ. destruct (iv_regions _ _ _ HI) as [R1 R2].
  destruct (cut_region_exact x osz (regions A) R1 R2 Hin) as (rs' & Hcut & Er).
  destruct (mremap_ok _ _ _ _ nsz R1 R2 Er ltac:(lia) (Hml _ _ _ Hn)) as (Hok & Hap & Hpl). set (q := mremap _ _ _ _) in *.
  unfold wp, mremap_. fold q. rewrite (proj2 (Z.eqb_neq q MAP_FAILED)) by (by apply Hml). rewrite Hcut. cbn [mbind option_bind]. fold L NL.
  pose proof Hok as (Hq0 & HNL & Hq1 & _). fold NL in HNL, Hq1. cbn [fst snd] in *.
  pose proof (node_out x l1 l2 L hs G A HI El HL Hin) as Hl. eapply (laid_remove _ rs') in Hl; [|exact Er|cbn [snd]; lia].
  rewrite Er in R1, R2. apply Forall_cons_1 in R1 as [_ R1]. destruct R2 as [_ R2].
  pose proof (laid_more _ _ _ Hl Hok Hap) as Hl2. fold NL in Hl2, Hap, Hok.
  set (l := get_bytes (memory A) x (Z.min L NL)). assert (Hlen : zlen l = Z.max 0 (Z.min L NL)) by apply get_bytes_length.
  apply HQ; [lia|by left|done| | | |].
  - split; [by apply Forall_cons|]. by split.
  - eapply users_without; [exact HI|done|lia|exact Er|]. intros r Hr. by right.
  - pose proof (laid_agree _ (zero_fill (memory A) q NL) q l _ _ _ Hl2 ltac:(lia) ltac:(lia)) as Hg.
    destruct Hl2 as [[Hd _] _]. rewrite Forall_forall in Hg, Hd |- *. intros [b k] Hy. eapply agree_trans; [|by apply (Hg _ Hy)].
    specialize (Hd _ Hy). unfold apart in Hd. cbn [fst snd] in *. destruct (decide (0 < k)); [|intros z Hz; lia]. apply zero_fill_agree. lia.
  - intros i Hi. rewrite <- (Z2Nat.id i) by lia. apply byte_put_eq. apply get_bytes_lookup. lia.
Qed.

Lemma inv_node_back x q NL rs l1 l2 L hs G A m :
  inv ((x + 16, L - 16) :: hs) G A -> 24 <= NL -> laid rs ((q, NL) :: hs ++ segs (set_huge (l1 ++ l2) G) A) ->
  Forall region_ok rs /\ disj rs -> Forall (user_ok (memory A) rs (l1 ++ l2)) (g_user G) ->
  Forall (fun y => agree (memory A) m y.1 y.2) (parts G) -> linked m (huge_list A :: (l1 ++ q :: l2) ++ [huge_list A]) ->
  inv ((q + 16, NL - 16) :: hs) (set_huge (l1 ++ q :: l2) G) (up_regions rs (up_memory m A)).
Proof.
  intros HI HNL Hl Hrs Hu Hag Hlk. eapply inv_rebuild; [exact HI| |done|exact Hag| |done].
  - apply (laid_split _ _ _ 16) in Hl; [|lia|done]. rewrite segs_huge in Hl |- *. cbn [map app] in Hl |- *.
    rewrite !map_app in Hl |- *. cbn [map] in Hl |- *. eapply laid_perm; [|exact Hl]. solve_Permutation.
  - eapply Forall_impl; [exact Hu|]. intros u Hu'. eapply user_ok_ring; [exact Hu'|]. intros y. rewrite !elem_of_app, elem_of_cons. tauto.
Qed.

(** The block after the move. *)
Lemma huge_moved x q u us nsz l1 l2 rs hs G A m m1 :
  let L := page_up (u_size u + 24) in let NL := page_up (nsz + 24) in
  inv ((x + 16, L - 16) :: hs) (set_user us G) A -> HUGESIZE < u_size u < 2 ^ 31 -> HUGESIZE < nsz < 2 ^ 31 ->
  0 < q < 2 ^ 63 -> (q, NL) ∈ rs -> laid rs ((q, NL) :: hs ++ segs (set_huge (l1 ++ l2) (set_user us G)) A) ->
  Forall region_ok rs /\ disj rs -> Forall (user_ok (memory A) rs (l1 ++ l2)) us ->
  get_bytes (memory A) (x + 24) (u_size u) = u_data u -> moved (memory A) m x q (Z.min L NL) ->
  agree (store m (q + 16) nsz) m1 q NL -> Forall (fun y => agree (memory A) m1 y.1 y.2) (parts (set_user us G)) ->
  linked m1 (huge_list A :: (l1 ++ q :: l2) ++ [huge_list A]) ->
  exists u', u_ptr u' = q + 24 /\ u_size u' = nsz /\
    take (Z.to_nat (Z.min nsz (u_size u))) (u_data u') = take (Z.to_nat (Z.min nsz (u_size u))) (u_data u) /\
    inv hs (with_user u' (set_user us (set_huge (l1 ++ q :: l2) G))) (up_regions rs (up_memory m1 A)).
Proof.
  intros L NL HI Hsz Hn Hq Hin Hl Hrs Hu Hd Hmv Hag Hagp Hlk.
  pose proof (page_up_le (nsz + 24)) as HNL. fold NL in HNL. pose proof (page_up_le (u_size u + 24)) as HL. fold L in HL.
  assert (Hpos : 0 < nsz /\ 0 < u_size u) by (unfold HUGESIZE, CHUNKSIZE in *; lia).
  exists (User (q + 24) (get_bytes m1 (q + 24) nsz) (q + 16) (NL - 16) KHuge). cbn [u_ptr u_data].
  assert (Hz : zlen (get_bytes m1 (q + 24) nsz) = nsz) by (rewrite get_bytes_length; lia). split_and!; [done|done| |].
  - assert (Hk : Z.min nsz (u_size u) <= nsz /\ Z.min nsz (u_size u) <= u_size u) by lia. revert Hk. generalize (Z.min nsz (u_size u)) as c. intros c Hc.
    rewrite <- Hd, !take_bytes by lia. apply moved_bytes. apply (moved_agree _ (store m (q + 16) nsz) _ _ _ _ (NL - 24)); [|eapply agree_sub; [exact Hag|lia..]|lia].
    apply (moved_agree _ m _ _ _ _ (NL - 24)); [eapply moved_sub; [exact Hmv|lia..]|apply store_agree; lia|lia].
  - assert (HI' : inv ((q + 16, NL - 16) :: hs) (set_huge (l1 ++ q :: l2) (set_user us G)) (up_regions rs (up_memory m1 A)))
      by (eapply inv_node_back; [exact HI|lia|exact Hl|done|exact Hu|exact Hagp|exact Hlk]).
    refine (inv_give (User (q + 24) (get_bytes m1 (q + 24) nsz) (q + 16) (NL - 16) KHuge) _ _ _ HI' _).
    split; cbn [u_data u_ptr u_kind u_lo u_len]; [lia|]. rewrite Hz. split; [done|]. replace (q + 16 - 16) with q by lia.
    split_and!; [lia| |lia|lia|done| |done].
    + cbn [up_regions up_memory memory]. rewrite (load_agree (store m (q + 16) nsz)) by (eapply agree_sub; [exact Hag|lia..]). apply load_store. lia.
    + cbn [set_huge g_huge]. set_solver.
Qed.

Lemma wp_realloc_huge u us nsz hs G A (Q : Z -> allocator -> Prop) :
  inv hs G A -> g_user G ≡ₚ u :: us -> u_kind u = KHuge -> HUGESIZE < nsz < 2 ^ 31 -> memory_left (regions A) ->
  (forall u' l A', 0 < u_ptr u' -> u_size u' = nsz ->
     take (Z.to_nat (Z.min nsz (u_size u))) (u_data u') = take (Z.to_nat (Z.min nsz (u_size u))) (u_data u) ->
     inv hs (with_user u' (set_user us (set_huge l G))) A' -> Q (u_ptr u') A') ->
  wp (memory_realloc_huge (u_ptr u) nsz) A Q.
Proof.
  intros HI E Hk Hn Hml HQ. destruct (huge_taken _ _ _ _ _ HI E Hk) as (x & l1 & l2 & _ & Hptr & El & Hsz & Hu & _ & Hreg & Hd & HI1). rewrite Hptr in *.
  clear HI. set (L := page_up (u_size u + 24)) in *. pose proof (page_up_le (u_size u + 24)) as HL. fold L in HL. pose proof (page_up_le (nsz + 24)) as HNL.
  set (NL := page_up (nsz + 24)) in *. set (G1 := set_user us G) in *. change (g_huge G) with (g_huge G1) in El.
  assert (Hpos : 32000 < nsz /\ 32000 < u_size u) by (unfold HUGESIZE, CHUNKSIZE in *; lia).
  pose proof (iv_huge _ _ _ HI1) as Hlk. rewrite El in Hlk. set (H := huge_list A) in *.
  destruct (linked_around _ _ _ _ _ Hlk) as (p & nx & Hp & Hnx & Hxp & Hxn & Hpx & Hnxx & Hlk1 & Hlk2).
  assert (Hpin : p ∈ H :: l1 ++ l2) by (apply last_Some_elem_of in Hp; set_solver).
  assert (Hnin : nx ∈ H :: l1 ++ l2) by (apply list_elem_of_lookup_2 in Hnx; set_solver).
  unfold memory_realloc_huge, sizeof_hugeblock. replace (x + 24 - 24) with x by lia.
  apply wp_bind, wp_read; [apply (inv_mapped _ _ _ _ _ _ _ HI1); unfold huge_sz; lia|]. change (load (memory A) (huge_sz x)) with (load (memory A) (x + 16)). rewrite Hsz.
  apply wp_bind, (wp_mremap x (u_size u + 24) (nsz + 24) l1 l2 hs G1 A); [done|done|fold L; lia|done|lia|done|].
  fold L NL. intros q rs m Hq Hin Hl Hrs Hus Hag Hmv. rewrite (proj2 (Z.eqb_neq q 0)) by lia.
  set (m1 := store m (q + 16) nsz).
  assert (Hfin : forall mF, agree m1 mF q NL -> Forall (fun y => agree (memory A) mF y.1 y.2) (parts G1) ->
    linked mF (H :: (l1 ++ q :: l2) ++ [H]) -> Q (q + 24) (up_regions rs (up_memory mF A))).
  { intros mF H1 H2 H3. destruct (huge_moved x q u us nsz l1 l2 rs hs G A m mF) as (u' & Hp' & Hz & Htk & HIF); try done. rewrite <- Hp'. eapply HQ; [lia|done..|exact HIF]. }
  assert (Hmq : forall mF a k, q <= a -> a + k <= q + NL -> mapped (up_regions rs (up_memory mF A)) a k = true).
  { intros mF a k H1 H2. eapply (seg_ok_mapped (up_regions rs (up_memory mF A)) q NL); [by eapply laid_head|lia..]. }
  pose proof Hag as [_ (_ & _ & _ & Hagn & _)%forall_segs]%Forall_app. cbn [set_huge g_huge fst snd] in Hagn. rewrite Forall_forall in Hagn. fold H in Hagn.
  apply Forall_app in Hag as [Haghs Hag]. unfold segs in Hag. cbn [set_huge g_small g_big g_user] in Hag.
  assert (Hagp : Forall (fun y => agree (memory A) m y.1 y.2) (parts G1)) by (rewrite !Forall_app in Hag; unfold parts; rewrite !Forall_app; destruct Hag as (? & ? & ? & _); by split_and!).
  apply laid_perm with (y := (q, NL) :: map (fun h => (h, 16)) (H :: l1 ++ l2) ++ hs ++ parts G1 ++ [bump A]) in Hl;
    [|rewrite segs_huge; unfold parts; solve_Permutation].
  pose proof (laid_store rs m (q + 16) nsz q NL _ Hl ltac:(lia) ltac:(lia)) as Hg1. fold m1 in Hg1. rewrite !Forall_app, Forall_map in Hg1.
  destruct Hg1 as (Hg1n & _ & Hg1p & _). cbn [fst snd] in Hg1n. rewrite Forall_forall in Hg1n.
  assert (Hagp1 : Forall (fun y => agree (memory A) m1 y.1 y.2) (parts G1)).
  { rewrite Forall_forall in Hagp, Hg1p |- *. intros y Hy. eapply agree_trans; [by apply Hagp|by apply Hg1p]. }
  assert (Hagn1 : forall y, y ∈ H :: l1 ++ l2 -> agree (memory A) m1 y 16) by (intros y Hy; eapply agree_trans; [by apply Hagn|by apply Hg1n]).
  assert (Hq1 : load m1 (huge_prev q) = p /\ load m1 (huge_next q) = nx).
  { unfold m1. rewrite !load_store_ne by (unfold huge_prev, huge_next; lia). unfold huge_prev, huge_next in *.
    rewrite <- (Z.add_0_r q), <- Z.add_assoc, !(moved_load (memory A) _ x q _ _ Hmv) by lia. by rewrite Z.add_0_r. }
  assert (HlkA : linked m1 (H :: l1) /\ linked m1 (l2 ++ [H])).
  { split; (eapply linked_agree; [done|]); intros y Hy; apply Hagn1; set_solver. }
  apply wp_bind, wp_write_at; [apply Hmq; unfold huge_sz; lia|].
  change (up_memory _ (up_regions rs (up_memory m A))) with (up_regions rs (up_memory m1 A)). destruct Hq1 as [Hq1 Hq2].
  destruct (Z.eqb_spec x q) as [<-|Hne].
  - apply wp_ret, Hfin; [apply agree_refl|done|]. apply (linked_insert m1 H l1 l2 p nx x); try tauto.
    + rewrite (load_agree (memory A)); [done|]. apply (agree_sub _ _ p 16); [by apply Hagn1|unfold huge_next; lia..].
    + rewrite (load_agree (memory A)); [done|]. apply (agree_sub _ _ nx 16); [by apply Hagn1|unfold huge_prev; lia..].
  - assert (Hmn : forall mF y a, y ∈ H :: l1 ++ l2 -> y <= a -> a + 8 <= y + 16 -> mapped (up_regions rs (up_memory mF A)) a 8 = true).
    { intros mF y a Hy H1 H2. apply laid_tail in Hl as [_ Hok]. apply Forall_app in Hok as [Hok _]. rewrite Forall_map, Forall_forall in Hok.
      eapply (seg_ok_mapped (up_regions rs (up_memory mF A)) y 16); [by apply Hok|lia..]. }
    assert (Hsp : spaced (q :: H :: l1 ++ l2)).
    { apply (laid_sub _ _ _ q 16) in Hl; [|lia..|by rewrite Z.sub_diag]. destruct Hl as [Hd' _]. exact (disj_spaced (q :: H :: l1 ++ l2) _ Hd'). }
    assert (Hin' : forall y, y ∈ H :: l1 ++ l2 -> y ∈ q :: H :: l1 ++ l2) by (intros y Hy; by right).
    assert (Hnq : forall y, y ∈ H :: l1 ++ l2 -> q <> y) by (intros y Hy ->; by destruct Hsp as [[? _]%NoDup_cons _]).
    set (m2 := store m1 (huge_next p) q). set (m3 := store m2 (huge_prev nx) q).
    apply wp_bind, wp_read; [apply Hmq; unfold huge_prev; lia|]. cbn [up_regions up_memory memory]. rewrite Hq1.
    apply wp_bind, wp_write_at; [apply (Hmn m1 p); [done|unfold huge_next; lia..]|]. change (up_memory _ (up_regions rs _)) with (up_regions rs (up_memory m2 A)).
    apply wp_bind, wp_read; [apply Hmq; unfold huge_next; lia|]. cbn [up_regions up_memory memory]. unfold m2 at 1.
    rewrite (next_next _ Hsp), decide_False, Hq2 by (auto || lia || by left).
    apply wp_bind, wp_write_at; [apply (Hmn m2 nx); [done|unfold huge_prev; lia..]|]. change (up_memory _ (up_regions rs _)) with (up_regions rs (up_memory m3 A)).
    assert (Hw : Forall (fun z => agree m1 m3 z.1 z.2) ((q, NL) :: parts G1)).
    { eapply (laid_perm _ _ (map (fun h => (h, 16)) (H :: l1 ++ l2) ++ ((q, NL) :: parts G1) ++ hs ++ [bump A])) in Hl; [|solve_Permutation].
      pose proof (nodes_agree _ _ _ m1 p (huge_next p) q Hl Hpin) as W1. pose proof (nodes_agree _ _ _ m2 nx (huge_prev nx) q Hl Hnin) as W2.
      specialize (W1 ltac:(unfold huge_next; lia) ltac:(unfold huge_next; lia)). specialize (W2 ltac:(unfold huge_prev; lia) ltac:(unfold huge_prev; lia)).
      apply Forall_app in W1 as [W1 _]. apply Forall_app in W2 as [W2 _]. rewrite Forall_forall in W1, W2 |- *.
      intros z Hz. eapply agree_trans; [by apply W1|by apply W2]. }
    apply Forall_cons_1 in Hw as [Hwq Hwp]. apply wp_ret, Hfin; [exact Hwq| |].
    + rewrite Forall_forall in Hagp1, Hwp |- *. intros z Hz. eapply agree_trans; [by apply Hagp1|by apply Hwp].
    + destruct (linked_set m1 m3 H l1 l2 p nx q q) as (K1 & K2 & K3 & K4); try tauto; try done.
      * by destruct Hsp as [[_ ?]%NoDup_cons _].
      * intros y Hy. unfold m3, m2. by rewrite (prev_next _ Hsp), (next_next _ Hsp) by (auto || lia).
      * intros y Hy. unfold m3, m2. by rewrite (prev_prev _ Hsp), (next_prev _ Hsp) by (auto || lia).
      * apply (linked_insert m3 H l1 l2 p nx q); try done.
        -- unfold m3, m2. rewrite (prev_prev _ Hsp), decide_False, (next_prev _ Hsp) by (auto || lia || by left). done.
        -- unfold m3, m2. rewrite (prev_next _ Hsp), (next_next _ Hsp), decide_False by (auto || lia || by left). done.
Qed.

End Alloc.
