(* ===== verification/LallocOk.v ===== *)
(** * The allocator of Lua services: its contract (src/service/lalloc.c)

    [pixel_lalloc] against a map of blocks: [lalloc_refines]. *)

From S2P Require Import Prelude Lalloc LallocInv LallocHuge.

Section Alloc.
Context {os : Os} {ok : OsOk os}.
Implicit Types (G : ghost) (A : allocator) (hs : list seg) (m : mem).

(** ** Allocating and freeing *)

Lemma class_round n : 0 < n -> 8 + 8 * ((n - 1) / 8) = round8 n.
Proof. unfold round8. intros. zdiv. Qed.

Lemma get_bytes_zlen m p n : 0 <= n -> zlen (get_bytes m p n) = n.
Proof. intros. rewrite get_bytes_length. lia. Qed.

Lemma wp_memory_alloc n hs G A (Q : Z -> allocator -> Prop) :
  inv hs G A -> 0 < n < 2 ^ 31 -> lone_split A n = false -> memory_left (regions A) ->
  (forall u G' A', 0 < u_ptr u -> u_size u = n -> g_user G' = g_user G -> inv hs (with_user u G') A' -> Q (u_ptr u) A') ->
  wp (memory_alloc n) A Q.
Proof.
  intros HI Hn Hlone Hml HQ. unfold memory_alloc. change (SMALLLEVEL * SMALLSIZE) with 256. destruct (Z.leb_spec n 256) as [Hs|Hs].
  { rewrite (proj2 (Z.eqb_neq n 0)) by lia. apply (wp_alloc_small _ hs G); [done|unfold SMALLSIZE; zdiv|done|]. unfold SMALLSIZE.
    rewrite class_round by lia. intros p ls A' Hp HI'. set (u := User p (get_bytes (memory A') p n) p (round8 n) KSmall).
    assert (Hz : u_size u = n) by (apply get_bytes_zlen; lia).
    apply (HQ u (set_small ls G)); [done|done|done|]. apply (inv_give u); [exact HI'|]. split; [lia|]. rewrite Hz. split; [done|].
    cbn [u u_kind u_ptr u_lo u_len]. split_and!; [done|unfold round8; zdiv|done]. }
  destruct (Z.leb_spec n HUGESIZE) as [Hb|Hb]; [|apply (wp_alloc_huge _ hs G); [done|lia|done|]; intros u l A' Hp Hz HI'; by apply (HQ u (set_huge l G))].
  apply (wp_alloc_big _ hs G); [done|lia|done|done|]. rewrite big_round_spec by lia. intros p ls l A' Hp Hw HI'.
  pose proof (round8_le (n + 8)). assert (Hr : round8 n + 8 = round8 (n + 8)) by (unfold round8; zdiv).
  assert (Hr2 : round8 (round8 (n + 8)) = round8 (n + 8)) by (unfold round8; zdiv).
  assert (Hr3 : round8 (n + 8) < 2 ^ 31) by (unfold round8, HUGESIZE, CHUNKSIZE in *; zdiv).
  set (u := User (p + 8) (get_bytes (memory A') (p + 8) n) p (round8 (n + 8)) (KHead (round8 (n + 8)))).
  assert (Hz : u_size u = n) by (apply get_bytes_zlen; lia).
  apply (HQ u (set_small ls (set_big l G))); [cbn; lia|done|done|]. apply (inv_give u); [exact HI'|]. split; [lia|]. rewrite Hz. split; [done|].
  cbn [u u_kind u_ptr u_lo u_len]. split_and!; (done || lia).
Qed.

Lemma wp_memory_free u us hs G A (Q : unit -> allocator -> Prop) :
  inv hs G A -> g_user G ≡ₚ u :: us -> (forall G' A', g_user G' = us -> inv hs G' A' -> Q tt A') ->
  wp (memory_free (u_ptr u) (u_size u)) A Q.
Proof.
  intros HI E HQ. destruct (inv_take u us hs G A HI E) as [(H0 & Hd & Hu) HI1]. unfold memory_free. change (SMALLLEVEL * SMALLSIZE) with 256.
  pose proof (class_round (u_size u) H0) as Hc. pose proof (round8_le (u_size u)) as Hr.
  assert (Hsmall : forall a len, inv ((a, len) :: hs) (set_user us G) A -> u_size u <= 256 -> round8 (u_size u) <= len ->
    wp (memory_free_small a ((u_size u - 1) / SMALLSIZE)) A Q).
  { intros a len HI2 Hs Hl. unfold SMALLSIZE. apply (wp_free_small a len _ hs (set_user us G)); [done|zdiv|lia|].
    intros ls v A' _ _ HI3. by eapply HQ; [|exact HI3]. }
  unfold user_seg in HI1. destruct (u_kind u) as [|z|] eqn:Ek.
  - destruct Hu as (Hp & Hl & Hlen). rewrite (proj2 (Z.leb_le _ 256)) by lia. rewrite Hp. apply (Hsmall _ (u_len u)); [done|lia|done].
  - destruct Hu as (Hp & Hw & Hz & Hlen & Hsz & Hlen'). destruct (Z.leb_spec (u_size u) 256).
    + apply (Hsmall _ (u_len u - 8)); [|done|lia]. eapply inv_sub; [exact HI1|lia..|by replace (u_ptr u - u_lo u) with 8 by lia].
    + rewrite (proj2 (Z.leb_le _ HUGESIZE)) by done. replace (u_lo u) with (u_ptr u - 8) in * by lia.
      eapply wp_free_big; [exact HI1|exact Hw|done|done|]. intros l A' HI2. by eapply HQ; [|exact HI2].
  - assert (256 < u_size u) by (unfold HUGESIZE, CHUNKSIZE in *; lia).
    rewrite (proj2 (Z.leb_gt _ 256)), (proj2 (Z.leb_gt _ HUGESIZE)) by (done || lia).
    eapply (wp_free_huge u us); [exact HI|done|done|]. intros l A' HI2. by eapply HQ; [|exact HI2].
Qed.

(** ** Writes of the client *)

Definition with_data (d : list Z) (u : user) : user := User (u_ptr u) d (u_lo u) (u_len u) (u_kind u).

Lemma put_inside m p n o w : 0 <= o -> o + zlen w <= n -> get_bytes (put_bytes m (p + o) w) p n = list_inserts (Z.to_nat o) w (get_bytes m p n).
Proof.
  intros Ho Hw. pose proof (get_bytes_zlen m p n ltac:(lia)) as Hl. apply list_eq. intros i. destruct (decide (Z.of_nat i < n)) as [Hi|Hi].
  - rewrite get_bytes_lookup by done. destruct (decide (Z.to_nat o <= i < Z.to_nat o + length w)%nat) as [Hin|Hout].
    + rewrite list_lookup_inserts by lia. destruct (lookup_lt_is_Some_2 w (i - Z.to_nat o)) as [b Hb]; [lia|]. rewrite Hb. f_equal.
      replace (p + Z.of_nat i) with (p + o + Z.of_nat (i - Z.to_nat o)) by lia. by apply byte_put_eq.
    + rewrite byte_put_ne by lia. destruct (decide (i < Z.to_nat o)%nat).
      * rewrite list_lookup_inserts_lt by lia. by rewrite get_bytes_lookup.
      * rewrite list_lookup_inserts_ge by lia. by rewrite get_bytes_lookup.
  - rewrite (lookup_ge_None_2 (get_bytes _ _ _)) by (pose proof (get_bytes_length (put_bytes m (p + o) w) p n); lia).
    rewrite lookup_ge_None_2; [done|]. rewrite length_inserts. lia.
Qed.

Lemma inv_put u us o w hs G A : inv hs G A -> g_user G ≡ₚ u :: us -> 0 <= o -> o + zlen w <= u_size u ->
  inv hs (set_user (with_data (list_inserts (Z.to_nat o) w (u_data u)) u :: us) G) (up_memory (put_bytes (memory A) (u_ptr u + o) w) A).
Proof.
  intros HI E Ho Hw. destruct (inv_take u us hs G A HI E) as [Hu HI1]. pose proof (user_ok_fits _ _ _ _ Hu) as (F1 & F2 & F3).
  set (m := put_bytes (memory A) (u_ptr u + o) w).
  pose proof (laid_agree _ (memory A) (u_ptr u + o) w _ _ _ (iv_laid _ _ _ HI1)) as Hag. specialize (Hag ltac:(lia) ltac:(lia)). fold m in Hag.
  apply Forall_app in Hag as [_ Hag]. assert (HI2 : inv (user_seg u :: hs) (set_user us G) (up_memory m A)) by (eapply inv_memory; [exact HI1|apply HI1|exact Hag]).
  refine (inv_give (with_data _ u) _ _ _ HI2 _). destruct Hu as (H0 & Hd & Hu). unfold user_ok, with_data. cbn [u_ptr u_data u_lo u_len u_kind].
  rewrite length_inserts. split; [done|]. split; [cbn [up_memory memory]; unfold m; by rewrite put_inside, Hd|]. cbn [up_memory memory regions set_user g_huge].
  assert (Hld : u_ptr u = u_lo u + 8 -> load m (u_lo u) = load (memory A) (u_lo u)) by (intros Hp; apply load_agree, put_agree; lia).
  destruct (u_kind u); [done|rewrite Hld by tauto; done|rewrite Hld by tauto; done].
Qed.

(** [memcpy] from one block to the start of another. *)
Lemma user_mapped u p n hs G A : inv hs G A -> u ∈ g_user G -> u_ptr u <= p -> p + n <= u_ptr u + u_size u -> mapped A p n = true.
Proof.
  intros HI Hu H1 H2. pose proof (iv_users _ _ _ HI) as Hok. rewrite Forall_forall in Hok. destruct (user_ok_fits _ _ _ _ (Hok _ Hu)) as (F1 & F2 & F3).
  eapply (seg_mapped (user_seg u)); [exact HI| |cbn [user_seg fst snd]; lia..]. rewrite <- (set_user_id G), segs_user. apply elem_of_app. left.
  apply list_elem_of_fmap. by exists u.
Qed.

Lemma users_apart u v us hs G A : inv hs G A -> g_user G ≡ₚ u :: v :: us -> u_ptr u + u_size u <= u_ptr v \/ u_ptr v + u_size v <= u_ptr u.
Proof.
  intros HI E. destruct (inv_take u _ hs G A HI E) as [Hu HI1]. destruct (inv_take v us _ _ _ HI1 (reflexivity _)) as [Hv HI2].
  pose proof (user_ok_fits _ _ _ _ Hu) as (F1 & F2 & F3). pose proof (user_ok_fits _ _ _ _ Hv) as (F4 & F5 & F6).
  pose proof (iv_laid _ _ _ HI2) as [[Ha _] _]. cbn [app] in Ha. apply Forall_cons_1 in Ha as [Ha _]. unfold apart, user_seg in Ha. cbn [fst snd] in Ha. lia.
Qed.

Lemma wp_copy v u us hs G A (Q : unit -> allocator -> Prop) : inv hs G A -> g_user G ≡ₚ v :: u :: us -> u_size u <= u_size v ->
  (forall A', inv hs (set_user (with_data (list_inserts 0 (u_data u) (u_data v)) v :: u :: us) G) A' -> Q tt A') ->
  wp (copy_bytes (u_ptr v) (u_ptr u) (u_size u)) A Q.
Proof.
  intros HI E Hsz HQ. unfold wp, copy_bytes. rewrite (user_mapped v _ _ hs G A), (user_mapped u _ _ hs G A) by first [exact HI|rewrite E; set_solver|lia]. cbn [andb].
  pose proof (users_apart v u us hs G A HI E). replace ((u_ptr v + u_size u <=? u_ptr u) || (u_ptr u + u_size u <=? u_ptr v)) with true by lia.
  pose proof (iv_users _ _ _ HI) as Hok. rewrite E in Hok. apply Forall_cons_1 in Hok as [_ [(H0 & Hd & _) _]%Forall_cons_1]. rewrite Hd. apply HQ.
  pose proof (inv_put v (u :: us) 0 (u_data u) hs G A HI E ltac:(lia) ltac:(lia)) as HI1. by rewrite Z.add_0_r in HI1.
Qed.

(** A block that is given a smaller size where it is. *)
Definition shrink (n : Z) (u : user) : user :=
  User (u_ptr u) (take (Z.to_nat n) (u_data u)) (u_lo u) (u_len u)
    (match u_kind u with KHuge => KHead (u_size u) | k => k end).

Lemma inv_shrink u us n hs G A : inv hs G A -> g_user G ≡ₚ u :: us -> 0 < n <= u_size u -> n <= HUGESIZE \/ u_kind u <> KHuge ->
  inv hs (set_user (shrink n u :: us) G) A.
Proof.
  intros HI E Hn Hk. destruct (inv_take u us hs G A HI E) as [(H0 & Hd & Hu) HI1]. apply (inv_give (shrink n u) _ _ _ HI1).
  unfold user_ok, shrink. cbn [u_ptr u_data u_lo u_len u_kind]. assert (Hz : zlen (take (Z.to_nat n) (u_data u)) = n) by (rewrite length_take; lia).
  rewrite Hz. split; [lia|]. split; [by rewrite <- Hd, take_bytes by lia|]. cbn [set_user g_huge].
  pose proof (round8_mono n (u_size u) ltac:(lia)). destruct (u_kind u) as [|z|]; [lia|split_and!; try tauto; lia|].
  destruct Hk as [Hk|[]]; [|done]. destruct Hu as (Hp & Hl & Hs & Hlen & _). pose proof (page_up_le (u_size u + 24)).
  split_and!; try done; try (unfold HUGESIZE, CHUNKSIZE in *; lia); rewrite Hlen; unfold round8, page_up, HUGESIZE, CHUNKSIZE in *; zdiv.
Qed.

(** ** [pixel_lalloc] *)

(** The call would split the only free big block. *)
Definition lone_call (A : allocator) (ptr osize nsize : Z) : bool := ((ptr =? 0) || (osize <? nsize)) && lone_split A nsize.

Lemma user_positive u us hs G A : inv hs G A -> g_user G ≡ₚ u :: us -> 0 < u_ptr u /\ u_ptr u mod 8 = 0 /\ u_ptr u + u_size u <= 2 ^ 63.
Proof.
  intros HI E. destruct (inv_take u us hs G A HI E) as [Hu HI1]. pose proof (user_ok_fits _ _ _ _ Hu) as (F1 & F2 & F3).
  destruct (inv_head_range _ _ _ _ _ HI1) as (H1 & H2 & H3); [lia|]. destruct Hu as (_ & _ & Hu).
  assert (Hp : u_ptr u = u_lo u \/ u_ptr u = u_lo u + 8) by (destruct (u_kind u); lia). split_and!; [lia| |lia]. zdiv.
Qed.

Lemma inserts_take (w d : list Z) : (length w <= length d)%nat -> take (length w) (list_inserts 0 w d) = w.
Proof.
  intros Hl. apply list_eq. intros i. destruct (decide (i < length w)%nat).
  - rewrite lookup_take_lt, list_lookup_inserts by lia. by rewrite Nat.sub_0_r.
  - rewrite !lookup_ge_None_2; [done|lia|]. rewrite length_take. lia.
Qed.

Lemma wp_resize u us n hs G A (Q : Z -> allocator -> Prop) :
  inv hs G A -> g_user G ≡ₚ u :: us -> 0 < n < 2 ^ 31 -> lone_call A (u_ptr u) (u_size u) n = false -> memory_left (regions A) ->
  (forall u' G' A', u_size u' = n -> take (Z.to_nat (Z.min n (u_size u))) (u_data u') = take (Z.to_nat (Z.min n (u_size u))) (u_data u) ->
     g_user G' = u' :: us -> inv hs G' A' -> Q (u_ptr u') A') ->
  wp (pixel_lalloc (u_ptr u) (u_size u) n) A Q.
Proof.
  intros HI E Hn Hlone Hml HQ. destruct (user_positive u us hs G A HI E) as (Hp & _ & _). unfold pixel_lalloc.
  rewrite (proj2 (Z.eqb_neq (u_ptr u) 0)), (proj2 (Z.eqb_neq n 0)) by lia. destruct (inv_take u us hs G A HI E) as [(H0 & Hd & Hu) _].
  destruct ((u_size u >? HUGESIZE) && (n >? HUGESIZE)) eqn:Eh.
  { apply andb_true_iff in Eh as [E1 E2]. assert (Hk : u_kind u = KHuge).
    { destruct (u_kind u); [|lia|done]. pose proof (round8_le (u_size u)). unfold HUGESIZE, CHUNKSIZE in *. lia. }
    apply (wp_realloc_huge u us n hs G A); [done|done|done|lia|done|]. intros u' l A' Hp' Hz Htk HI'.
    apply (HQ u' (with_user u' (set_user us (set_huge l G)))); done. }
  destruct (Z.leb_spec n (u_size u)) as [Hle|Hgt].
  { apply wp_ret. change (u_ptr u) with (u_ptr (shrink n u)). apply (HQ _ (set_user (shrink n u :: us) G)); [| |done|].
    - cbn [shrink u_data]. rewrite length_take. lia.
    - cbn [shrink u_data]. rewrite take_take. f_equal. lia.
    - apply inv_shrink; [done|done|lia|]. destruct (Z.le_gt_cases n HUGESIZE); [by left|]. right. intros Hk. rewrite Hk in Hu. lia. }
  unfold lone_call in Hlone. rewrite (proj2 (Z.ltb_lt _ _) Hgt), orb_true_r in Hlone. cbn [andb] in Hlone.
  apply wp_bind, (wp_memory_alloc n hs G); [done|done|done|done|]. intros v G' A' Hv Hz Eg HI'. rewrite (proj2 (Z.eqb_neq (u_ptr v) 0)) by lia.
  assert (E' : g_user (with_user v G') ≡ₚ v :: u :: us) by (cbn; by rewrite Eg, E).
  apply wp_bind, (wp_copy v u us hs (with_user v G')); [done|done|lia|]. intros A2 HI2. set (v' := with_data _ v) in *.
  apply wp_bind, (wp_memory_free u (v' :: us) hs _ _ _ HI2); [apply Permutation_swap|]. intros G3 A3 Eg3 HI3. change (u_ptr v) with (u_ptr v').
  apply (HQ v' G3); [by cbn; rewrite length_inserts| |done|done]. cbn [v' with_data u_data]. replace (Z.to_nat (Z.min n (u_size u))) with (length (u_data u)) by lia.
  rewrite inserts_take by lia. by rewrite firstn_all.
Qed.

End Alloc.

(** ** Start *)

Section Start.
Context {os : Os} {ok : OsOk os}.

Lemma small_segs_empty w k : small_segs w (replicate k []) = [].
Proof. revert w. induction k as [|k IH]; intros w; [done|apply IH]. Qed.

Lemma wp_allocator_new m rs : Forall region_ok rs -> disj rs -> mmap rs CHUNKSIZE <> MAP_FAILED ->
  exists A, allocator_new m rs = Some A /\ inv [] (Ghost (replicate 33 []) [] [] []) A.
Proof.
  intros Hr Hd Hmm. destruct (mmap_ok rs CHUNKSIZE Hr ltac:(done) Hmm) as [Hok Hap]. unfold allocator_new, alloc_page. cbn [regions].
  set (p := mmap rs CHUNKSIZE) in *. rewrite (proj2 (Z.eqb_neq _ _) Hmm). cbn [mbind option_bind].
  change (page_up CHUNKSIZE) with CHUNKSIZE in *. pose proof Hok as (Hp & _ & Hp2 & Hp3 & _). cbn [fst snd] in *.
  assert (Hl : laid ((p, CHUNKSIZE) :: rs) [(p, CHUNKSIZE)]) by (apply laid_more; [by split|done|done]).
  assert (Hmap : forall A a n, regions A = (p, CHUNKSIZE) :: rs -> p <= a -> a + n <= p + CHUNKSIZE -> mapped A a n = true).
  { intros A a n Er H1 H2. eapply (seg_ok_mapped A p CHUNKSIZE); [rewrite Er; by eapply laid_head|done|done|done]. }
  rewrite Hmap by (done || unfold sizeof_allocator, CHUNKSIZE; cbn; lia). unfold wr. cbv beta. rewrite Hmap by (done || unfold huge_next, huge_list, CHUNKSIZE; cbn; lia).
  cbn [mbind option_bind]. rewrite Hmap by (done || unfold huge_prev, huge_list, CHUNKSIZE; cbn; lia). cbn [mbind option_bind].
  eexists. split; [done|]. change (replicate (Z.to_nat (SMALLLEVEL + 1)) 0) with (replicate 33 0). set (hl := p + 296).
  assert (Hhl : 0 <= hl < 2 ^ 64) by (unfold hl, CHUNKSIZE in *; lia).
  split; cbn [up_memory memory regions small_list big_head big_tail chunk_used g_small g_big g_user g_huge set_small].
  - unfold segs, bump, huge_list. cbn [g_small g_big g_user g_huge up_memory base chunk_list chunk_used]. rewrite small_segs_empty. cbn [map app]. fold hl. unfold sizeof_allocator.
    apply (laid_split _ _ _ 296) in Hl; [|done|done]. apply laid_tail in Hl. fold hl in Hl. apply (laid_split _ _ _ 32) in Hl; [|done|done].
    replace (hl + 32) with (p + 328) in Hl by (unfold hl; lia). apply (laid_sub _ hl 32 hl 16) in Hl; [exact Hl|lia..|by rewrite Z.sub_diag].
  - split; [by apply Forall_cons|by split].
  - apply Forall2_replicate. done.
  - by rewrite length_replicate.
  - done.
  - done.
  - constructor.
  - constructor.
  - change (huge_list _) with hl. cbn [app]. apply linked_cons. split; [|apply linked_one]. split.
    + rewrite load_store_ne by (unfold huge_prev, huge_next; lia). by apply load_store.
    + by apply load_store.
  - unfold sizeof_allocator, CHUNKSIZE. split; [lia|done].
Qed.

End Start.

(** ** What the clients see *)

(** The blocks that the clients hold, by address, with their contents. *)
Abbreviation heap := (gmap Z (list Z)).

Section Heap.
Context {os : Os} {ok : OsOk os}.
Implicit Types (h : heap) (A : allocator).

(** Blocks are aligned and mapped, memory has their contents, and they do not
    overlap. *)
Definition holds h A : Prop :=
  (forall p d, h !! p = Some d -> 0 < p /\ p mod 8 = 0 /\ mapped A p (zlen d) = true /\ get_bytes (memory A) p (zlen d) = d) /\
  (forall p q d e, h !! p = Some d -> h !! q = Some e -> p <> q -> p + zlen d <= q \/ q + zlen e <= p).

(** A call names no block, or one that the clients hold, with its size. *)
Definition call_ok h (ptr osize nsize : Z) : Prop :=
  0 <= nsize < 2 ^ 31 /\ (ptr = 0 \/ exists d, h !! ptr = Some d /\ zlen d = osize).

Definition heap_after h (ptr nsize r : Z) A' : heap :=
  if nsize =? 0 then delete ptr h else <[r := get_bytes (memory A') r nsize]> (delete ptr h).

(** The states that calls and writes of the clients lead to. *)
Inductive reach : heap -> allocator -> Prop :=
  | reach_new m rs A : Forall region_ok rs -> disj rs -> mmap rs CHUNKSIZE <> MAP_FAILED ->
      allocator_new m rs = Some A -> reach ∅ A
  | reach_call h A ptr osize nsize r A' : reach h A -> call_ok h ptr osize nsize -> memory_left (regions A) ->
      lone_call A ptr osize nsize = false -> pixel_lalloc ptr osize nsize A = Some (r, A') -> reach (heap_after h ptr nsize r A') A'
  | reach_write h A p d o w : reach h A -> h !! p = Some d -> 0 <= o -> o + zlen w <= zlen d ->
      reach (<[p := list_inserts (Z.to_nat o) w d]> h) (up_memory (put_bytes (memory A) (p + o) w) A).

(** The result of a call. *)
Definition call_spec h (ptr nsize r : Z) (h' : heap) : Prop :=
  if nsize =? 0 then r = 0
  else delete ptr h !! r = None /\ exists d, h' !! r = Some d /\ zlen d = nsize /\
    forall old, h !! ptr = Some old -> take (Z.to_nat (Z.min nsize (zlen old))) d = take (Z.to_nat (Z.min nsize (zlen old))) old.

Definition block (u : user) : Z * list Z := (u_ptr u, u_data u).

Definition rep h A : Prop := exists G, inv [] G A /\ map block (g_user G) ≡ₚ map_to_list h.

Lemma rep_lookup h A G p d : map block (g_user G) ≡ₚ map_to_list h -> h !! p = Some d ->
  exists u us, g_user G ≡ₚ u :: us /\ p = u_ptr u /\ d = u_data u /\ map block us ≡ₚ map_to_list (delete p h).
Proof.
  intros E Hp. assert (Hin : (p, d) ∈ map block (g_user G)) by (rewrite E; by apply elem_of_map_to_list).
  apply list_elem_of_fmap in Hin as (u & [= -> ->] & Hin). apply elem_of_Permutation in Hin as [us Eu]. exists u, us. split_and!; try done.
  rewrite Eu in E. rewrite <- (map_to_list_delete h _ _ Hp) in E. cbn [map] in E. by apply Permutation_cons_inv in E.
Qed.

Lemma rep_holds h A : rep h A -> holds h A.
Proof.
  intros (G & HI & E). split.
  - intros p d Hp. destruct (rep_lookup h A G p d E Hp) as (u & us & Eu & -> & -> & _).
    destruct (user_positive u us [] G A HI Eu) as (H1 & H2 & _). destruct (inv_take u us [] G A HI Eu) as [(_ & Hd & _) _].
    split_and!; try done. eapply user_mapped; [exact HI|rewrite Eu; by left|lia..].
  - intros p q d e Hp Hq Hne. destruct (rep_lookup h A G p d E Hp) as (u & us & Eu & -> & -> & Ed).
    destruct (rep_lookup (delete (u_ptr u) h) A (set_user us G) q e) as (v & vs & Ev & -> & -> & _); [done|by rewrite lookup_delete_ne|].
    cbn [set_user g_user] in Ev. eapply users_apart; [exact HI|]. by rewrite Eu, Ev.
Qed.

(** A block with a new address. *)
Lemma rep_new u us h G A : inv [] G A -> g_user G = u :: us -> map block us ≡ₚ map_to_list h ->
  h !! u_ptr u = None /\ rep (<[u_ptr u := get_bytes (memory A) (u_ptr u) (u_size u)]> h) A.
Proof.
  intros HI Eu E. assert (Hn : h !! u_ptr u = None).
  { destruct (h !! u_ptr u) as [d|] eqn:Hd; [|done]. exfalso. destruct (rep_lookup h A (set_user us G) _ d E Hd) as (v & vs & Ev & Hp & _).
    cbn [set_user g_user] in Ev. assert (Ev' : g_user G ≡ₚ u :: v :: vs) by (by rewrite Eu, Ev). pose proof (users_apart u v vs [] G A HI Ev').
    pose proof (iv_users _ _ _ HI) as Hok. rewrite Ev' in Hok. apply Forall_cons_1 in Hok as [[? _] [[? _] _]%Forall_cons_1]. lia. }
  split; [done|]. exists G. split; [done|]. rewrite Eu, map_to_list_insert by done. cbn [map].
  destruct (inv_take u us [] G A HI) as [(_ & Hd & _) _]; [by rewrite Eu|]. rewrite E. unfold block at 1. by rewrite Hd.
Qed.

Lemma rep_zero h A : rep h A -> delete 0 h = h.
Proof.
  intros Hr. apply delete_id. destruct (h !! 0) as [d|] eqn:E; [|done]. destruct (proj1 (rep_holds h A Hr) 0 d E). lia.
Qed.

Lemma rep_call h A ptr osize nsize : rep h A -> call_ok h ptr osize nsize -> memory_left (regions A) -> lone_call A ptr osize nsize = false ->
  wp (pixel_lalloc ptr osize nsize) A (fun r A' => rep (heap_after h ptr nsize r A') A' /\ call_spec h ptr nsize r (heap_after h ptr nsize r A')).
Proof.
  intros Hr [Hn Hptr] Hml Hlone. unfold heap_after, call_spec. destruct Hptr as [->|(old & Hold & <-)].
  - rewrite (rep_zero h A Hr). unfold pixel_lalloc. cbn [Z.eqb]. destruct Hr as (G & HI & E). destruct (Z.eqb_spec nsize 0) as [->|H0].
    { apply wp_ret. split; [by exists G|done]. }
    apply (wp_memory_alloc nsize [] G); [done|lia|done|done|]. intros u G' A' Hp Hz Eg HI'.
    destruct (rep_new u (g_user G') h (with_user u G') A' HI') as [Hnew Hrep]; [done|by rewrite Eg|]. rewrite Hz in Hrep.
    split; [done|]. split; [done|]. eexists. rewrite lookup_insert_eq. split; [done|]. split; [apply get_bytes_zlen; lia|].
    intros old Hold. destruct (rep_lookup h A G 0 old E Hold) as (v & vs & Ev & Hv & _). destruct (user_positive v vs [] G A HI Ev); lia.
  - destruct Hr as (G & HI & E). destruct (rep_lookup h A G ptr old E Hold) as (u & us & Eu & -> & -> & Ed).
    destruct (user_positive u us [] G A HI Eu) as (Hp & _ & _). destruct (Z.eqb_spec nsize 0) as [->|H0].
    { unfold pixel_lalloc. rewrite (proj2 (Z.eqb_neq (u_ptr u) 0)) by lia. cbn [Z.eqb]. apply wp_bind, (wp_memory_free u us [] G); [done|done|].
      intros G' A' Eg HI'. apply wp_ret. split; [|done]. exists G'. split; [done|]. by rewrite Eg. }
    apply (wp_resize u us nsize [] G); [done|done|lia|done|done|]. intros u' G' A' Hz Htk Eg HI'.
    destruct (rep_new u' us (delete (u_ptr u) h) G' A' HI') as [Hnew Hrep]; [done|done|]. rewrite Hz in Hrep.
    split; [done|]. split; [done|]. eexists. rewrite lookup_insert_eq. split; [done|]. split; [apply get_bytes_zlen; lia|].
    intros d Hd. rewrite Hold in Hd. injection Hd as <-. rewrite <- Htk. f_equal.
    destruct (inv_take u' us [] G' A' HI') as [(_ & Hdu & _) _]; [by rewrite Eg|]. by rewrite <- Hz.
Qed.

Lemma reach_rep h A : reach h A -> rep h A.
Proof.
  induction 1 as [m rs A Hr Hd Hmm HA|h A ptr osize nsize r A' _ IH Hok Hml Hlone HA|h A p d o w _ IH Hp Ho Hw].
  - destruct (wp_allocator_new m rs Hr Hd Hmm) as (A0 & HA0 & HI). rewrite HA in HA0. injection HA0 as <-. eexists. split; [exact HI|]. by rewrite map_to_list_empty.
  - pose proof (rep_call h A ptr osize nsize IH Hok Hml Hlone) as Hw. unfold wp in Hw. rewrite HA in Hw. apply Hw.
  - destruct IH as (G & HI & E). destruct (rep_lookup h A G p d E Hp) as (u & us & Eu & -> & -> & Ed).
    exists (set_user (with_data (list_inserts (Z.to_nat o) w (u_data u)) u :: us) G). split; [by apply inv_put|]. cbn [set_user g_user map].
    rewrite <- insert_delete_eq, map_to_list_insert, <- Ed by apply lookup_delete_eq. done.
Qed.

End Heap.

(** C29: in every state that calls of [pixel_lalloc] and writes of the clients
    lead to, the blocks that the clients hold are apart from each other, have
    addresses that are multiples of eight and the contents that were written; a
    call that frees a block, allocates one or changes its size succeeds without
    an access outside of the mapped regions, while the system has memory and no
    lone big block is split: the new block has the size asked for, an address
    that no other block has, and what the old one held as far as it goes. *)
Theorem lalloc_refines {os : Os} {ok : OsOk os} h A ptr osize nsize :
  reach h A -> call_ok h ptr osize nsize -> memory_left (regions A) -> lone_call A ptr osize nsize = false ->
  holds h A /\ exists r A', pixel_lalloc ptr osize nsize A = Some (r, A') /\
    let h' := heap_after h ptr nsize r A' in reach h' A' /\ holds h' A' /\ call_spec h ptr nsize r h'.
Proof.
  intros Hre Hok Hml Hlone. pose proof (reach_rep h A Hre) as Hr. split; [by apply rep_holds|].
  pose proof (rep_call h A ptr osize nsize Hr Hok Hml Hlone) as Hw. unfold wp in Hw.
  destruct (pixel_lalloc ptr osize nsize A) as [[r A']|] eqn:E; [|done]. destruct Hw as [Hr' Hs]. exists r, A'. split; [done|].
  split_and!; [|by apply rep_holds|done]. by eapply reach_call.
Qed.

(** ** A system and a state *)

Lemma demo_end_spec rs : Forall region_ok rs ->
  65536 <= demo_end rs /\ demo_end rs mod 4096 = 0 /\ Forall (fun r => r.1 + r.2 <= demo_end rs) rs.
Proof.
  induction rs as [|r rs IH]; intros Hok; [done|]. apply Forall_cons_1 in Hok as [(H1 & H2 & H3 & H4 & H5) Hok].
  destruct (IH Hok) as (I1 & I2 & I3). cbn [demo_end foldr] in *. fold (demo_end rs). set (e := demo_end rs) in *.
  split; [lia|]. split; [destruct (Z.max_spec (r.1 + r.2) e) as [[_ ->]|[_ ->]]; [done|zdiv]|]. apply Forall_cons. split; [lia|].
  eapply Forall_impl; [exact I3|]. intros x Hx. cbn in Hx. lia.
Qed.

Lemma demo_map_spec rs sz : Forall region_ok rs -> 0 < sz -> demo_map rs sz <> MAP_FAILED ->
  region_ok (demo_map rs sz, page_up sz) /\ Forall (apart (demo_map rs sz, page_up sz)) rs.
Proof.
  intros Hok Hsz. destruct (demo_end_spec rs Hok) as (H1 & H2 & H3). pose proof (page_up_le sz) as Hp. unfold demo_map.
  destruct (Z.leb_spec (demo_end rs + page_up sz) (2 ^ 47)); [|done]. intros _. split.
  - unfold region_ok. cbn [fst snd]. split_and!; [lia..|done|]. unfold page_up. apply Z.mod_mul. lia.
  - eapply Forall_impl; [exact H3|]. intros r Hr. cbn in Hr. unfold apart. cbn [fst snd]. lia.
Qed.

#[export] Instance demo_os_ok : OsOk demo_os.
Proof.
  split; [apply demo_map_spec|]. intros rs rs' p osz nsz Hok Hd E Hn Hm. cbn [mremap demo_os] in *.
  destruct (demo_map_spec rs nsz Hok Hn Hm) as [H1 H2]. set (q := demo_map rs nsz) in *. clearbody q. rewrite E in H2. apply Forall_cons_1 in H2 as [H2 H3]. auto.
Qed.

Lemma demo_left rs : 0 <= demo_end rs <= 2 ^ 46 -> memory_left (os := demo_os) rs.
Proof.
  intros He. assert (Hm : forall sz, 0 < sz < 2 ^ 32 -> demo_map rs sz <> MAP_FAILED).
  { intros sz Hsz. unfold demo_map. rewrite (proj2 (Z.leb_le _ _)) by (unfold page_up; zdiv). unfold MAP_FAILED. lia. }
  split; [exact Hm|]. intros p osz nsz Hn. by apply Hm.
Qed.

Definition demo_run (cs : list (option nat * Z * Z)) : list Z * allocator :=
  default ([], Allocator ∅ [] 0 [] 0 0 0 0) (A ← allocator_new (os := demo_os) ∅ []; lalloc_calls A cs []).

Definition demo_block : Z := 65536 + 328.
Definition demo_A0 : allocator := (demo_run []).2.
Definition demo_A1 : allocator := (demo_run [(None, 0, 100)]).2.
Definition demo_A2 : allocator := up_memory (put_bytes (memory demo_A1) (demo_block + 2) [7; 9]) demo_A1.

Lemma demo_reach : exists d, zlen d = 100 /\ reach (os := demo_os) {[demo_block := d]} demo_A2.
Proof.
  assert (H0 : reach (os := demo_os) ∅ demo_A0).
  { apply (reach_new ∅ []); [constructor|done|by vm_compute|]. vm_compute. reflexivity. }
  eassert (H1 : reach (os := demo_os) _ demo_A1).
  { apply (reach_call ∅ demo_A0 0 0 100 demo_block demo_A1); [exact H0|split; [lia|by left]| |by vm_compute|vm_compute; reflexivity].
    apply demo_left. vm_compute. done. }
  unfold heap_after in H1. cbn [Z.eqb] in H1. rewrite delete_empty in H1.
  replace (insert (M := gmap Z (list Z)) _ _ _) with ({[demo_block := get_bytes (memory demo_A1) demo_block 100]} : gmap Z (list Z)) in H1 by done.
  assert (Hz : zlen (get_bytes (memory demo_A1) demo_block 100) = 100) by (apply get_bytes_zlen; lia).
  exists (list_inserts (Z.to_nat 2) [7; 9] (get_bytes (memory demo_A1) demo_block 100)). split; [by rewrite length_inserts|].
  rewrite <- (insert_singleton_eq demo_block _ (get_bytes (memory demo_A1) demo_block 100)).
  apply (reach_write _ demo_A1 demo_block _ 2 [7; 9] H1); [apply lookup_singleton_eq|lia|rewrite Hz; cbn; lia].
Qed.

Lemma lalloc_refines_witness : exists h r A', pixel_lalloc (os := demo_os) demo_block 100 300 demo_A2 = Some (r, A') /\
  holds h A' /\ exists d, h !! r = Some d /\ zlen d = 300.
Proof.
  destruct demo_reach as (d & Hd & Hre).
  destruct (lalloc_refines (os := demo_os) _ demo_A2 demo_block 100 300 Hre) as (_ & r & A' & Hrun & _ & Hh & Hs).
  - split; [lia|]. right. exists d. split; [apply lookup_singleton_eq|exact Hd].
  - apply demo_left. vm_compute. done.
  - vm_compute. reflexivity.
  - eexists _, r, A'. split; [exact Hrun|]. split; [exact Hh|]. destruct Hs as (_ & d' & Hd' & Hz & _). by exists d'.
Defined.
