(* ===== verification/Lshare.v ===== *)
(** * Shared tables (src/lualib/lsharedata.c)

    [lnewconf] copies a Lua table into memory that many services read: an array
    for the keys from 1 to the length of the table and a hash for the others,
    with collisions chained inside of the same array of nodes; strings are
    numbers of a common list.  [LshareOk] shows that the copy answers
    like the table.

    Lua decides how many calls may be nested ([calls]), whether its stack has
    room for the strings ([checkstack]) and in which order [lua_next] gives the
    pairs of a table; the three are parameters.

    A table is the index of its cell in [tbls], a string is its place on the
    stack of the Lua state, from 2 on.  A node or an element whose
    [valuetype] is [VALUETYPE_NIL] is [None]; the rest of it is not
    initialised, so to read it is undefined behaviour, like a read outside of
    an array.  [LErr] is a Lua error. *)

From S2P Require Import Prelude.

#[local] Open Scope eff_scope.

(** ** Lua values *)

(** A key may be anything; an integer of Lua has 64 bits. *)
Inductive lkey := KInt (z : Z) | KStr (s : list Z) | KReal (n : Z) | KTable | KOther.

(** A table has its length (as [lua_rawlen] finds it) and its pairs in the
    order of [lua_next]. *)
Inductive lval :=
  | LInt (d : Z) | LReal (n : Z) | LStr (s : list Z) | LBool (b : bool)
  | LTable (len : Z) (es : list (lkey * lval)) | LOther.

(** ** Shared data *)

Definition KEYTYPE_INTEGER : Z := 0.
Definition KEYTYPE_STRING : Z := 1.

Inductive value := VReal (n : Z) | VString (i : Z) | VBoolean (b : bool) | VTable (p : nat) | VInteger (d : Z).

Record node := Node { v : value; key : Z; next : Z; keyhash : Z; keytype : Z; nocolliding : Z }.
Record table := Table { sizearray : Z; array : list (option value); sizehash : Z; hash : list (option node) }.
Record context := Ctx { tbls : list table; strings : list (list Z) }.

Definition set_tbl (c : context) (p : nat) (t : table) : context := Ctx (<[p := t]> (tbls c)) (strings c).

(** ** Hashes and strings *)

Fixpoint calchash_loop (fuel : nat) (str : list Z) (l1 step h : Z) : option Z :=
  match fuel with
  | O => None
  | S fuel =>
      if l1 >=? step then
        x ← aget str (l1 - 1);
        calchash_loop fuel str (l1 - step) step (Z.lxor h (u32 (shl h 5 + Z.shiftr h 2 + x)))
      else Some h
  end.

Definition calchash (str : list Z) : option Z :=
  calchash_loop (S (length str)) str (zlen str) (Z.shiftr (zlen str) 5 + 1) (u32 (zlen str)).

Definition stringindex (c : context) (s : list Z) : Z * context :=
  match list_find (eq s) (strings c) with
  | Some (i, _) => (Z.of_nat i + 2, c)
  | None => (zlen (strings c) + 2, Ctx (tbls c) (strings c ++ [s]))
  end.

(** [lua_tolstring] on the Lua state of the table. *)
Definition tostring (c : context) (i : Z) : option (list Z) := aget (strings c) (i - 2).

(** ** Conversion *)

(** The keys that do not go to the array; other keys than integers, strings
    and tables raise an error. *)
Fixpoint countsize (es : list (lkey * lval)) (sizearray : Z) : lua Z :=
  match es with
  | [] => LOk 0
  | (k, _) :: es =>
      match (match k with
             | KInt z => LOk (if (z >? 0) && (z <=? sizearray) then 0 else 1)
             | KStr _ | KTable => LOk 1
             | KReal _ | KOther => LErr
             end), countsize es sizearray with
      | LOk n, LOk m => LOk (n + m)
      | _, _ => LErr
      end
  end.

Section Conv.
(** [convtable] for a nested table. *)
Context (conv : nat -> Z -> list (lkey * lval) -> context -> eff context).

Definition setvalue (c : context) (x : lval) : eff (value * context) :=
  match x with
  | LInt d => eret (VInteger d, c)
  | LReal n => eret (VReal n, c)
  | LStr s => let (i, c) := stringindex c s in eret (VString i, c)
  | LBool b => eret (VBoolean b, c)
  | LTable len es =>
      let p := length (tbls c) in
      let* c := conv p len es (Ctx (tbls c ++ [Table 0 [] 0 []]) (strings c)) in eret (VTable p, c)
  | LOther => Some LErr
  end.

(** [x] is [None] for nil. *)
Definition setarray (p : nat) (c : context) (x : option lval) (k : Z) : eff context :=
  let* ' (u, c) := (match x with None => eret (None, c) | Some x => let* ' (u, c) := setvalue c x in eret (Some u, c) end) in
  let* t := elift (tbls c !! p) in
  let* arr := elift (aset (array t) (k - 1) u) in
  eret (set_tbl c p (Table (sizearray t) arr (sizehash t) (hash t))).

(** An index of the array, or the key, its hash and its type in the hash. *)
Definition ishashkey (p : nat) (c : context) (k : lkey) : option (Z + Z * Z * Z * context) :=
  t ← tbls c !! p;
  match k with
  | KInt z =>
      let k := i32 z in
      if (k >? 0) && (k <=? sizearray t) then Some (inl k) else Some (inr (k, u32 k, KEYTYPE_INTEGER, c))
  | KStr s => h ← calchash s; let (i, c) := stringindex c s in Some (inr (i, h, KEYTYPE_STRING, c))
  | KTable => h ← calchash []; let (i, c) := stringindex c [] in Some (inr (i, h, KEYTYPE_STRING, c))
  | KReal _ | KOther => None
  end.

Definition set_node (c : context) (p : nat) (i : Z) (n : node) : option context :=
  t ← tbls c !! p;
  hs ← aset (hash t) i (Some n);
  Some (set_tbl c p (Table (sizearray t) (array t) (sizehash t) hs)).

Fixpoint fillnocolliding (p : nat) (es : list (lkey * lval)) (c : context) : eff context :=
  match es with
  | [] => eret c
  | (k, x) :: es =>
      let* r := elift (ishashkey p c k) in
      let* c := (match r with
                 | inl key => setarray p c (Some x) key
                 | inr (key, keyhash, keytype, c) =>
                     let* t := elift (tbls c !! p) in
                     let i := keyhash mod sizehash t in
                     let* n := elift (aget (hash t) i) in
                     match n with
                     | None =>
                         let* ' (u, c) := setvalue c x in
                         elift (set_node c p i (Node u key (-1) keyhash keytype 1))
                     | Some _ => eret c
                     end
                 end) in
      fillnocolliding p es c
  end.

(** The first empty slot. *)
Fixpoint empty_slot (hs : list (option node)) (i : Z) : option Z :=
  match hs with [] => None | None :: _ => Some i | Some _ :: hs => empty_slot hs (i + 1) end.

Fixpoint fillcolliding (p : nat) (es : list (lkey * lval)) (c : context) : eff context :=
  match es with
  | [] => eret c
  | (k, x) :: es =>
      let* r := elift (ishashkey p c k) in
      let* c := (match r with
                 | inl _ => eret c
                 | inr (key_, keyhash_, keytype_, c) =>
                     let* t := elift (tbls c !! p) in
                     let m := keyhash_ mod sizehash t in
                     let* mainpos := elift (mjoin (aget (hash t) m)) in
                     if (keytype mainpos =? keytype_) && (key mainpos =? key_) then eret c
                     else
                       let* i := elift (empty_slot (hash t) 0) in
                       let* c := elift (set_node c p m (Node (v mainpos) (key mainpos) i (keyhash mainpos) (keytype mainpos) 0)) in
                       let* ' (u, c) := setvalue c x in
                       elift (set_node c p i (Node u key_ (next mainpos) keyhash_ keytype_ 0))
                 end) in
      fillcolliding p es c
  end.

(** [lua_rawgeti]. *)
Definition rawget (es : list (lkey * lval)) (z : Z) : option lval :=
  snd <$> find (fun e => match e.1 with KInt z' => z' =? z | _ => false end) es.

(** The loop over an array when there is no hash. *)
Fixpoint fillarray (p : nat) (es : list (lkey * lval)) (n : nat) (i : Z) (c : context) : eff context :=
  match n with
  | O => eret c
  | S n => let* c := setarray p c (rawget es i) i in fillarray p es n (i + 1) c
  end.

End Conv.

(** [calls]: how many calls [lua_call] may still nest; it raises an error for
    one more. *)
Fixpoint convtable (calls : nat) (p : nat) (len : Z) (es : list (lkey * lval)) (c : context) : eff context :=
  match calls with
  | O => Some LErr
  | S calls =>
      let* n := Some (countsize es len) in
      let arr := replicate (Z.to_nat len) None in
      if n =? 0 then fillarray (convtable calls) p es (Z.to_nat len) 1 (set_tbl c p (Table len arr 0 []))
      else
        let* c := fillnocolliding (convtable calls) p es (set_tbl c p (Table len arr n (replicate (Z.to_nat n) None))) in
        fillcolliding (convtable calls) p es c
  end.

(** [struct state] without its table. *)
Record state := State { dirty : bool; ref : Z }.

Definition state_init : state := State false 0.

(** The stack of the Lua state that holds the strings. *)
Inductive slot := SNil | SString (s : list Z) | SMap | SState (s : state).

(** The string map: each string with its place. *)
Definition stringmap (c : context) : list (list Z * Z) := imap (fun i s => (s, Z.of_nat i + 2)) (strings c).

(** The loop of [convert_stringmap]: [lua_replace] puts each string in its
    place; the places count from 1. *)
Fixpoint place_strings (pairs : list (list Z * Z)) (stack : list slot) : option (list slot) :=
  match pairs with
  | [] => Some stack
  | (s, idx) :: pairs => stack ← aset stack (idx - 1) (SString s); place_strings pairs stack
  end.

Definition convert_stringmap (string_index : Z) (pairs : list (list Z * Z)) : option (list slot) :=
  let stack := SMap :: replicate (Z.to_nat string_index) SNil in   (* [lua_settop] *)
  let stack := stack ++ [SMap] in                                 (* [lua_pushvalue] *)
  stack ← aset stack 0 (SState state_init);                       (* the new state, [lua_replace(L, 1)] *)
  let map := default SNil (last stack) in
  let stack := removelast stack in
  stack ← aset stack (zlen stack - 1) map;                        (* [lua_replace(L, -2)] *)
  stack ← place_strings pairs stack;
  Some (removelast stack).                                        (* [lua_pop] *)

(** The root is the first table; [pconv] asks for the stack. *)
Definition lnewconf (checkstack : Z -> bool) (order : list (list Z * Z) -> list (list Z * Z)) (calls : nat) (len : Z)
    (es : list (lkey * lval)) : eff (context * list slot) :=
  let* c := convtable calls 0 len es (Ctx [Table 0 [] 0 []] []) in
  let string_index := zlen (strings c) + 1 in
  if checkstack (string_index + 3) then
    let* stack := elift (convert_stringmap string_index (order (stringmap c))) in eret (c, stack)
  else Some LErr.

(** The tables that are freed, in this order. *)
Fixpoint delete_tbl (fuel : nat) (tbls : list table) (p : nat) : option (list nat) :=
  match fuel with
  | O => None
  | S fuel =>
      t ← tbls !! p;
      let sub u := match u with Some (VTable q) => delete_tbl fuel tbls q | _ => Some [] end in
      ls ← mapM sub (array t ++ fmap (M := list) (fmap (M := option) v) (hash t));
      Some (mjoin ls ++ [p])
  end.

(** ** Access *)

(** The chain from slot [i] on: the slot of the key. *)
Fixpoint lookup_chain (fuel : nat) (c : context) (t : table) (i kh k kt : Z) (str : list Z) : option (option Z) :=
  match fuel with
  | O => None
  | S fuel =>
      n ← mjoin (aget (hash t) i);
      found ← (if kh =? keyhash n then
                 if keytype n =? KEYTYPE_INTEGER then Some ((kt =? KEYTYPE_INTEGER) && (key n =? k))
                 else if kt =? KEYTYPE_STRING then str2 ← tostring c (key n); Some (bool_decide (str = str2))
                 else Some false
               else Some false);
      if (found : bool) then Some (Some i)
      else if next n <? 0 then Some None
      else lookup_chain fuel c t (next n) kh k kt str
  end.

Definition lookup_key (c : context) (t : table) (kh k kt : Z) (str : list Z) : option (option Z) :=
  if sizehash t =? 0 then Some None
  else
    let i := kh mod sizehash t in
    n ← mjoin (aget (hash t) i);
    if negb (kh =? keyhash n) && negb (nocolliding n =? 0) then Some None
    else lookup_chain (S (length (hash t))) c t i kh k kt str.

(** What is given to Lua. *)
Inductive pushed := PNil | PReal (n : Z) | PInt (d : Z) | PStr (s : list Z) | PBool (b : bool) | PTable (p : nat).

Definition pushvalue (c : context) (u : option value) : option pushed :=
  match u with
  | None => Some PNil
  | Some (VReal n) => Some (PReal n)
  | Some (VInteger d) => Some (PInt d)
  | Some (VString i) => s ← tostring c i; Some (PStr s)
  | Some (VBoolean b) => Some (PBool b)
  | Some (VTable q) => Some (PTable q)
  end.

(** A key given by Lua: its place in the array, or what is looked up. *)
Definition getkey (t : table) (k : lkey) : eff (Z + Z * Z * Z * list Z) :=
  match k with
  | KInt z =>
      let k := i32 z in
      if (k >? 0) && (k <=? sizearray t) then eret (inl k) else eret (inr (u32 k, k, KEYTYPE_INTEGER, []))
  | KStr s => let* h := elift (calchash s) in eret (inr (h, 0, KEYTYPE_STRING, s))
  | KReal _ | KTable | KOther => Some LErr
  end.

(** [None]: nothing is pushed. *)
Definition lindexconf (c : context) (p : nat) (k : lkey) : eff (option pushed) :=
  let* t := elift (tbls c !! p) in
  let* r := getkey t k in
  match r with
  | inl k => let* u := elift (aget (array t) (k - 1)) in let* x := elift (pushvalue c u) in eret (Some x)
  | inr (kh, k, kt, str) =>
      let* i := elift (lookup_key c t kh k kt str) in
      match i with
      | None => eret None
      | Some i => let* n := elift (mjoin (aget (hash t) i)) in let* x := elift (pushvalue c (Some (v n))) in eret (Some x)
      end
  end.

Definition pushkey (c : context) (n : node) : option pushed :=
  if keytype n =? KEYTYPE_INTEGER then Some (PInt (key n)) else s ← tostring c (key n); Some (PStr s).

Definition pushfirsthash (c : context) (t : table) : option (option pushed) :=
  if negb (sizehash t =? 0) then n ← mjoin (aget (hash t) 0); x ← pushkey c n; Some (Some x) else Some None.

(** The first element of the array from [i] on that is not nil. *)
Fixpoint next_array (n : nat) (t : table) (i : Z) : option (option Z) :=
  match n with
  | O => Some None
  | S n => u ← aget (array t) i; match u with Some _ => Some (Some i) | None => next_array n t (i + 1) end
  end.

Definition array_or_hash (c : context) (t : table) (i : Z) : option (option pushed) :=
  r ← next_array (Z.to_nat (sizearray t - i)) t i;
  match r with Some i => Some (Some (PInt (i + 1))) | None => pushfirsthash c t end.

(** [k] is [None] for nil. *)
Definition lnextkey (c : context) (p : nat) (k : option lkey) : eff (option pushed) :=
  let* t := elift (tbls c !! p) in
  match k with
  | None => elift (array_or_hash c t 0)
  | Some (KReal _) => eret None
  | Some k =>
      let* r := getkey t k in
      match r with
      | inl k => elift (array_or_hash c t k)
      | inr (kh, k, kt, str) =>
          let* i := elift (lookup_key c t kh k kt str) in
          match i with
          | None => eret None
          | Some i =>
              if i + 1 =? sizehash t then eret None
              else let* n := elift (mjoin (aget (hash t) (i + 1))) in let* x := elift (pushkey c n) in eret (Some x)
          end
      end
  end.

Definition llen (c : context) (p : nat) : option Z := sizearray <$> tbls c !! p.
Definition lhashlen (c : context) (p : nat) : option Z := sizehash <$> tbls c !! p.

(** ** The state of a shared table and its users *)

(** [struct ctrl]; [root] is [None] after [releaseobj]. *)
Record ctrl := Ctrl { root : option nat; update : option nat }.

Definition lboxconf (s : state) (p : nat) : ctrl * state := (Ctrl (Some p) None, State (dirty s) (ref s + 1)).
Definition releaseobj (s : state) (x : ctrl) : ctrl * state := (Ctrl None None, State (dirty s) (ref s - 1)).
Definition lmarkdirty (s : state) : state := State true (ref s).
Definition lisdirty (s : state) : bool := dirty s.
Definition lgetref (s : state) : Z := ref s.
Definition lincref (s : state) : Z * state := (ref s + 1, State (dirty s) (ref s + 1)).
Definition ldecref (s : state) : Z * state := (ref s - 1, State (dirty s) (ref s - 1)).
Definition lneedupdate (x : ctrl) : option nat := update x.
Definition lupdate (x : ctrl) (n : nat) : lua ctrl := if decide (root x = Some n) then LErr else LOk (Ctrl (root x) (Some n)).

(** ** Examples *)

Definition demo : list (lkey * lval) :=
  [(KInt 1, LInt 10); (KInt 2, LStr [97]); (KStr [97], LBool true); (KInt 7, LReal 5); (KStr [98; 99], LTable 1 [(KInt 1, LStr [97])]);
   (KInt (-3), LTable 0 [(KStr [97], LInt 1); (KStr [100], LInt 2)]); (KInt 11, LInt 4)].

Example demo_index :
  match lnewconf (fun _ => true) (@rev _) 3 2 demo with
  | Some (LOk (c, _)) =>
      lindexconf c 0 (KInt 2) = eret (Some (PStr [97])) /\ lindexconf c 0 (KStr [97]) = eret (Some (PBool true)) /\
      lindexconf c 0 (KInt 11) = eret (Some (PInt 4)) /\ lindexconf c 0 (KInt 8) = eret None /\
      lindexconf c 0 (KStr [98; 99]) = eret (Some (PTable 1)) /\ lindexconf c 1 (KInt 1) = eret (Some (PStr [97])) /\
      lindexconf c 2 (KStr [100]) = eret (Some (PInt 2)) /\ delete_tbl 3 (tbls c) 0 = Some [2%nat; 1%nat; 0%nat] /\
      lnextkey c 0 None = eret (Some (PInt 1)) /\ lnextkey c 0 (Some (KInt 2)) <> eret None
  | _ => False
  end.
Proof. vm_compute. split_and!; try reflexivity; discriminate. Qed.

(** Keys that [int] cannot hold: the two keys meet in the same place, and one
    slot of the hash is never filled. *)
Example large_key :
  match lnewconf (fun _ => true) id 1 0 [(KInt 1, LInt 10); (KInt (2 ^ 32 + 1), LInt 20)] with
  | Some (LOk (c, _)) => lindexconf c 0 (KInt 1) = eret (Some (PInt 10)) /\ lindexconf c 0 (KInt (2 ^ 32 + 1)) = eret (Some (PInt 10)) /\
      lindexconf c 0 (KInt 2) = None
  | _ => False
  end.
Proof. vm_compute. split_and!; reflexivity. Qed.

(** A table is accepted as a key, and becomes the empty string. *)
Example table_key :
  match lnewconf (fun _ => true) id 1 0 [(KTable, LInt 10)] with
  | Some (LOk (c, _)) => lindexconf c 0 (KStr []) = eret (Some (PInt 10))
  | _ => False
  end.
Proof. vm_compute. reflexivity. Qed.
