(* ===== verification/LshareOk.v ===== *)
(** * Shared tables: construction

    The hash of a shared table as a list of chains of slots ([hinv]), lookup in
    it, and what [lnewconf] builds ([conv_spec_all]): each key of the table is in
    the array or in one chain, and each table of the copy is freed once. *)

From S2P Require Import Prelude Lshare.

#[local] Open Scope eff_scope.

(** ** Hashes and strings *)

Lemma calchash_loop_ok fuel : forall str l1 step h, 0 < step -> 0 <= l1 <= zlen str -> l1 < Z.of_nat fuel -> word h ->
  exists h', calchash_loop fuel str l1 step h = Some h' /\ word h'.
Proof.
  induction fuel as [|fuel IH]; intros str l1 step h Hs Hl Hf Hh; [lia|]. cbn [calchash_loop]. rewrite Z.geb_leb.
  destruct (Z.leb_spec step l1); [|by exists h]. destruct (aget_is_Some str (l1 - 1)) as [x ->]; [lia|]. cbn [mbind option_bind].
  apply IH; [done|lia|lia|]. apply word_lxor; [done|apply word_u32].
Qed.

Lemma calchash_ok str : exists h, calchash str = Some h /\ word h.
Proof.
  apply calchash_loop_ok; [|lia|lia|apply word_u32]. enough (0 <= Z.shiftr (zlen str) 5) by lia. apply Z.shiftr_nonneg. lia.
Qed.

(** A key of the hash. *)
Inductive hkey := HInt (z : Z) | HStr (s : list Z).
#[export] Instance hkey_dec : EqDecision hkey.
Proof. solve_decision. Defined.

Definition hash_of (k : hkey) : Z := match k with HInt z => u32 z | HStr s => default 0 (calchash s) end.

Lemma hash_of_word k : word (hash_of k).
Proof. destruct k as [z|s]; [apply word_u32|]. destruct (calchash_ok s) as (h & E & W). cbn [hash_of]. by rewrite E. Qed.

Lemma calchash_hash s : calchash s = Some (hash_of (HStr s)).
Proof. destruct (calchash_ok s) as (h & E & W). cbn [hash_of]. by rewrite E. Qed.

(** The string with a number. *)
Definition names (ss : list (list Z)) (i : Z) (s : list Z) : Prop := aget ss (i - 2) = Some s.

Lemma names_prefix ss ss' i s : ss `prefix_of` ss' -> names ss i s -> names ss' i s.
Proof. intros [l ->] H. unfold names in *. pose proof (aget_Some _ _ _ H). by rewrite aget_app_l by lia. Qed.

Lemma names_inj ss i s s' : names ss i s -> names ss i s' -> s = s'.
Proof. unfold names. congruence. Qed.

Lemma names_unique ss i j s : NoDup ss -> names ss i s -> names ss j s -> i = j.
Proof.
  unfold names. intros Hn Hi Hj. pose proof (aget_Some _ _ _ Hi). pose proof (aget_Some _ _ _ Hj).
  unfold aget in *. rewrite (proj2 (Z.leb_le 0 (i - 2))) in Hi by lia. rewrite (proj2 (Z.leb_le 0 (j - 2))) in Hj by lia. pose proof (NoDup_lookup _ _ _ _ Hn Hi Hj). lia.
Qed.

Lemma stringindex_ok c s : NoDup (strings c) -> exists i ss, stringindex c s = (i, Ctx (tbls c) ss) /\
  strings c `prefix_of` ss /\ NoDup ss /\ names ss i s.
Proof.
  intros Hn. unfold stringindex. destruct (list_find (eq s) (strings c)) as [[j s']|] eqn:E.
  - apply list_find_Some in E as (Hj & -> & _). exists (Z.of_nat j + 2), (strings c). split; [by destruct c|]. split_and!; [done|done|].
    unfold names. replace (Z.of_nat j + 2 - 2) with (Z.of_nat j) by lia. by rewrite aget_nat.
  - apply list_find_None in E. exists (zlen (strings c) + 2), (strings c ++ [s]). split_and!; [done|by exists [s]| |].
    + apply NoDup_app. split; [done|]. split; [|apply NoDup_singleton]. intros x Hx ->%list_elem_of_singleton.
      by apply (proj1 (Forall_forall _ _) E s).
    + unfold names. replace (zlen (strings c) + 2 - 2) with (zlen (strings c)) by lia. rewrite aget_app_r by lia. by rewrite Z.sub_diag.
Qed.

(** ** Chains of slots *)

(** The node stands for the key. *)
Definition denotes (ss : list (list Z)) (n : node) (k : hkey) : Prop :=
  keyhash n = hash_of k /\
  match k with HInt z => keytype n = KEYTYPE_INTEGER /\ key n = z | HStr s => keytype n = KEYTYPE_STRING /\ names ss (key n) s end.

Definition head_slot (c : list (nat * hkey)) : Z := match c with [] => -1 | (s, _) :: _ => Z.of_nat s end.

Fixpoint linked (ss : list (list Z)) (hs : list (option node)) (c : list (nat * hkey)) : Prop :=
  match c with
  | [] => True
  | (s, k) :: c' => (exists n, hs !! s = Some (Some n) /\ denotes ss n k /\ next n = head_slot c' /\ (c' <> [] -> nocolliding n = 0)) /\ linked ss hs c'
  end.

(** [chains] has the chain of each main position. *)
Record hinv (ss : list (list Z)) (hs : list (option node)) (chains : list (list (nat * hkey))) : Prop := {
  hi_size : length chains = length hs;
  hi_pos : (0 < length hs)%nat;
  hi_linked : forall i c, chains !! i = Some c -> linked ss hs c;
  hi_head : forall i c, chains !! i = Some c -> c = [] \/ head_slot c = Z.of_nat i;
  hi_main : forall i c s k, chains !! i = Some c -> (s, k) ∈ c -> hash_of k mod zlen hs = Z.of_nat i;
  hi_occupied : forall s n, hs !! s = Some (Some n) -> s ∈ (mjoin chains).*1;
  hi_slots : NoDup (mjoin chains).*1;
  hi_keys : NoDup (mjoin chains).*2
}.

Lemma denotes_prefix ss ss' n k : ss `prefix_of` ss' -> denotes ss n k -> denotes ss' n k.
Proof. intros Hp [H1 H2]. split; [done|]. destruct k; [done|]. destruct H2. split; [done|]. by apply (names_prefix ss). Qed.

Lemma linked_mono ss ss' hs hs' c : ss `prefix_of` ss' -> (forall s k, (s, k) ∈ c -> hs' !! s = hs !! s) -> linked ss hs c -> linked ss' hs' c.
Proof.
  intros Hp. induction c as [|[s k] c IH]; intros Hf; [done|]. intros [(n & H1 & H2 & H3) H]. split.
  - exists n. rewrite (Hf s k) by left. split; [done|]. split; [by apply (denotes_prefix ss)|done].
  - apply IH; [|done]. intros s' k' Hk. apply (Hf s' k'). by right.
Qed.

Lemma linked_node ss hs c s k : linked ss hs c -> (s, k) ∈ c -> exists n, hs !! s = Some (Some n) /\ denotes ss n k.
Proof.
  induction c as [|[s' k'] c IH]; intros H Hk; [by apply elem_of_nil in Hk|]. destruct H as [(n & H1 & H2 & _) H].
  apply elem_of_cons in Hk as [[= -> ->]|Hk]; [by exists n|by apply IH].
Qed.

Lemma hinv_prefix ss ss' hs chains : ss `prefix_of` ss' -> hinv ss hs chains -> hinv ss' hs chains.
Proof. intros Hp [H1 H2 H3 H4 H5 H6 H7 H8]. split; try done. intros i c Hc. apply (linked_mono ss _ hs); [done|done|]. by apply (H3 i). Qed.

Lemma in_chain {A} (chains : list (list A)) i c x : chains !! i = Some c -> x ∈ c -> x ∈ mjoin chains.
Proof. intros Hi Hx. apply list_elem_of_join. exists c. split; [done|]. apply list_elem_of_lookup. by exists i. Qed.

Lemma of_chain {A} (chains : list (list A)) x : x ∈ mjoin chains -> exists i c, chains !! i = Some c /\ x ∈ c.
Proof. intros (c & Hx & [i Hi]%list_elem_of_lookup)%list_elem_of_join. by exists i, c. Qed.

Lemma hinv_node ss hs chains s k : hinv ss hs chains -> (s, k) ∈ mjoin chains -> exists n, hs !! s = Some (Some n) /\ denotes ss n k.
Proof. intros H (i & c & Hi & Hc)%of_chain. apply (linked_node ss hs c); [by apply (hi_linked _ _ _ H i)|done]. Qed.

(** The main position of a key. *)
Definition main_pos (hs : list (option node)) (k : hkey) : nat := Z.to_nat (hash_of k mod zlen hs).

Lemma main_pos_ok ss hs chains k : hinv ss hs chains -> hash_of k mod zlen hs = Z.of_nat (main_pos hs k) /\ (main_pos hs k < length hs)%nat.
Proof. intros H. pose proof (hi_pos _ _ _ H). unfold main_pos. pose proof (Z.mod_pos_bound (hash_of k) (zlen hs)). lia. Qed.

Lemma main_chain ss hs chains s k : hinv ss hs chains -> (s, k) ∈ mjoin chains ->
  exists c, chains !! main_pos hs k = Some c /\ (s, k) ∈ c.
Proof.
  intros H (i & c & Hi & Hc)%of_chain. exists c. split; [|done]. pose proof (hi_main _ _ _ H i c s k Hi Hc) as E. unfold main_pos. rewrite E.
  by rewrite Nat2Z.id.
Qed.

Lemma slot_unique ss hs chains s k k' : hinv ss hs chains -> (s, k) ∈ mjoin chains -> (s, k') ∈ mjoin chains -> k = k'.
Proof.
  intros H H1 H2. apply list_elem_of_lookup in H1 as [i Hi]. apply list_elem_of_lookup in H2 as [j Hj].
  assert (i = j) as ->; [|congruence]. apply (NoDup_lookup _ _ _ s (hi_slots _ _ _ H)); by rewrite list_lookup_fmap, ?Hi, ?Hj.
Qed.

(** ** Looking up *)

(** What is looked up for a key. *)
Definition query (k : hkey) : Z * Z * Z * list Z :=
  match k with HInt z => (hash_of k, z, KEYTYPE_INTEGER, []) | HStr s => (hash_of k, 0, KEYTYPE_STRING, s) end.

Lemma found_ok c n k k' : denotes (strings c) n k' ->
  let '(kh, ky, kt, str) := query k in
  (if kh =? keyhash n then
     if keytype n =? KEYTYPE_INTEGER then Some ((kt =? KEYTYPE_INTEGER) && (key n =? ky))
     else if kt =? KEYTYPE_STRING then str2 ← tostring c (key n); Some (bool_decide (str = str2))
     else Some false
   else Some false) = Some (bool_decide (k = k')).
Proof.
  intros [Hh Hk].
  destruct (Z.eqb_spec (hash_of k) (keyhash n)) as [E|E].
  - destruct k as [z|s], k' as [z'|s']; cbn [query]; rewrite E, Z.eqb_refl; destruct Hk as [Ht Hk]; rewrite Ht; cbn [Z.eqb KEYTYPE_STRING KEYTYPE_INTEGER andb Pos.eqb].
    + f_equal. subst z'. destruct (Z.eqb_spec (key n) z) as [-> |]; [by rewrite bool_decide_eq_true_2|rewrite bool_decide_eq_false_2; congruence].
    + done.
    + done.
    + unfold tostring. unfold names in Hk. rewrite Hk. cbn [mbind option_bind]. f_equal. apply bool_decide_ext. split; [by intros ->|by intros [= ->]].
  - assert (k <> k') by congruence. rewrite bool_decide_eq_false_2 by done.
    destruct k as [z|s]; cbn [query]; by rewrite (proj2 (Z.eqb_neq _ _)).
Qed.

(** A chain from one of its slots on. *)
Lemma lookup_chain_ok cx t k ch : forall fuel, (length ch < fuel)%nat -> linked (strings cx) (hash t) ch -> NoDup ch.*2 -> ch <> [] ->
  let '(kh, ky, kt, str) := query k in
  lookup_chain fuel cx t (head_slot ch) kh ky kt str = Some (match find (fun e => bool_decide (k = e.2)) ch with Some (s, _) => Some (Z.of_nat s) | None => None end).
Proof.
  induction ch as [|[s k'] ch IH]; intros [|fuel] Hf Hl Hn Hne; cbn [length] in Hf; try lia; [done|]. destruct Hl as [(n & Hs & Hd & Hnx & _) Hl].
  pose proof (found_ok cx n k k' Hd) as Hfd. destruct (query k) as [[[kh ky] kt] str] eqn:Eq. cbn [lookup_chain head_slot find snd].
  rewrite aget_nat, Hs. cbn [mjoin option_join mbind option_bind]. rewrite Hfd. cbn [mbind option_bind].
  case_bool_decide; [done|]. destruct ch as [|[s2 k2] ch]; [by rewrite Hnx|]. rewrite Hnx, (proj2 (Z.ltb_ge _ 0)) by (cbn; lia).
  apply NoDup_cons in Hn as [_ Hn]. apply (IH fuel); [cbn [length] in *; lia|done|done|done].
Qed.

Lemma find_absent (k : hkey) (ch : list (nat * hkey)) : k ∉ ch.*2 -> find (fun e => bool_decide (k = e.2)) ch = None.
Proof.
  induction ch as [|[s k'] ch IH]; intros H; [done|]. cbn [find snd]. cbn in H. apply not_elem_of_cons in H as [H1 H2].
  rewrite bool_decide_eq_false_2 by done. by apply IH.
Qed.

Lemma find_present (k : hkey) s (ch : list (nat * hkey)) : NoDup ch.*2 -> (s, k) ∈ ch -> find (fun e => bool_decide (k = e.2)) ch = Some (s, k).
Proof.
  induction ch as [|[s' k'] ch IH]; intros Hn H; [by apply elem_of_nil in H|]. cbn in Hn. apply NoDup_cons in Hn as [Hk Hn]. cbn [find snd].
  apply elem_of_cons in H as [[= -> ->]|H]; [by rewrite bool_decide_eq_true_2|]. rewrite bool_decide_eq_false_2; [by apply IH|].
  intros ->. apply Hk. by apply (list_elem_of_fmap_2' _ _ (s, k')).
Qed.

Lemma nodup_join {A B} (f : A -> B) (cs : list (list A)) i c : NoDup (f <$> mjoin cs) -> cs !! i = Some c -> NoDup (f <$> c).
Proof.
  intros Hn Hi. rewrite <- (take_drop_middle cs i c Hi), join_app, fmap_app in Hn. apply NoDup_app in Hn as (_ & _ & Hn).
  cbn [mjoin list_join concat] in Hn. rewrite fmap_app in Hn. by apply NoDup_app in Hn as (Hn & _).
Qed.

Lemma linked_suffix ss hs pre c : linked ss hs (pre ++ c) -> linked ss hs c.
Proof. induction pre as [|[s k] pre IH]; [done|]. intros [_ H]. by apply IH. Qed.

Definition filled (hs : list (option node)) : Prop := forall s, (s < length hs)%nat -> exists n, hs !! s = Some (Some n).

Lemma lookup_key_ok cx t chains k : hinv (strings cx) (hash t) chains -> filled (hash t) -> sizehash t = zlen (hash t) ->
  let '(kh, ky, kt, str) := query k in
  (forall s, (s, k) ∈ mjoin chains -> lookup_key cx t kh ky kt str = Some (Some (Z.of_nat s))) /\
  (k ∉ (mjoin chains).*2 -> lookup_key cx t kh ky kt str = Some None).
Proof.
  intros H Hfull Hsz. destruct (main_pos_ok _ _ _ k H) as [Em Hm]. remember (main_pos (hash t) k) as m eqn:Emp. destruct (Hfull m Hm) as [n Hn].
  assert (exists pre post k0 j, chains !! j = Some (pre ++ (m, k0) :: post) /\ (forall s, (s, k) ∈ mjoin chains -> pre = [] /\ (s, k) ∈ (m, k0) :: post))
    as (pre & post & k0 & j & Hj & Hin).
  { pose proof (hi_occupied _ _ _ H m n Hn) as Hocc. apply list_elem_of_fmap in Hocc as ([m' k0] & Em' & Hocc). cbn [fst] in Em'. subst m'.
    destruct (of_chain _ _ Hocc) as (j & c & Hj & Hc). apply list_elem_of_split in Hc as (pre & post & ->).
    exists pre, post, k0, j. split; [done|]. intros s Hs. destruct (main_chain _ _ _ _ _ H Hs) as (c & Hc & Hsc). rewrite <- Emp in Hc.
    destruct (hi_head _ _ _ H m c Hc) as [-> |Hh]; [by apply elem_of_nil in Hsc|]. destruct c as [|[m2 k1] c]; [by apply elem_of_nil in Hsc|].
    cbn in Hh. apply Nat2Z.inj in Hh. subst m2.
    assert (k0 = k1) as <- by (apply (slot_unique _ _ _ m _ _ H Hocc); apply (in_chain _ _ _ _ Hc); left).
    assert (j = m) as ->.
    { assert ((m, k0) ∈ pre ++ (m, k0) :: post) as H1 by (apply elem_of_app; right; left).
      assert ((m, k0) ∈ (m, k0) :: c) as H2 by left.
      pose proof (hi_main _ _ _ H _ _ _ _ Hj H1). pose proof (hi_main _ _ _ H _ _ _ _ Hc H2). lia. }
    rewrite Hc in Hj. injection Hj as Ej. pose proof (nodup_join fst _ _ _ (hi_slots _ _ _ H) Hc) as Hnd.
    destruct pre as [|[m3 k3] pre]; [cbn [app] in Ej; by rewrite <- Ej|]. injection Ej as <- <- ->. cbn in Hnd. apply NoDup_cons in Hnd as [Hnd _].
    exfalso. apply Hnd. rewrite fmap_app. apply elem_of_app. right. by left. }
  pose proof (hi_linked _ _ _ H _ _ Hj) as Hl. apply linked_suffix in Hl.
  pose proof (nodup_join snd _ _ _ (hi_keys _ _ _ H) Hj) as Hnd. rewrite fmap_app in Hnd. apply NoDup_app in Hnd as (_ & _ & Hnd).
  pose proof (nodup_join fst _ _ _ (hi_slots _ _ _ H) Hj) as Hnd1. rewrite fmap_app in Hnd1. apply NoDup_app in Hnd1 as (_ & _ & Hnd1).
  assert (length ((m, k0) :: post) <= length (hash t))%nat as Hlen.
  { rewrite <- (length_fmap fst). rewrite <- (length_seq (length (hash t)) 0). apply submseteq_length, NoDup_submseteq; [done|].
    intros x Hx. apply elem_of_seq. apply list_elem_of_fmap in Hx as ([s kx] & -> & Hx). cbn.
    destruct (linked_node _ _ _ _ _ Hl Hx) as (n' & Hn' & _). apply lookup_lt_Some in Hn'. lia. }
  pose proof (lookup_chain_ok cx t k ((m, k0) :: post) (S (length (hash t))) ltac:(lia) Hl Hnd ltac:(done)) as Hch.
  destruct Hl as [(n' & Hn' & Hd & _ & Hnc) _]. rewrite Hn in Hn'. injection Hn' as <-.
  destruct (query k) as [[[kh ky] kt] str] eqn:Eq. assert (kh = hash_of k) as Ekh by (destruct k; by injection Eq as <- _ _ _).
  unfold lookup_key. rewrite Hsz, (proj2 (Z.eqb_neq _ _)) by lia. rewrite Ekh, Em, aget_nat, Hn. cbn [mjoin option_join mbind option_bind].
  rewrite <- Ekh. cbn [head_slot] in Hch. rewrite Hch. split.
  - intros s Hs. destruct (Hin s Hs) as [_ Hs2].
    assert (negb (kh =? keyhash n) && negb (nocolliding n =? 0) = false) as ->.
    { apply elem_of_cons in Hs2 as [E|Hs2]; [injection E as _ <-; destruct Hd as [-> _]; by rewrite Ekh, Z.eqb_refl|].
      rewrite Hnc by (intros ->; by apply elem_of_nil in Hs2). by rewrite andb_false_r. }
    by rewrite (find_present k s).
  - intros Hk. destruct (_ && _); [done|]. rewrite find_absent; [done|]. intros Hx. apply Hk. apply list_elem_of_fmap in Hx as (e & -> & He).
    apply list_elem_of_fmap. exists e. split; [done|]. apply (in_chain _ _ _ _ Hj), elem_of_app. by right.
Qed.

(** ** Inserting *)

Lemma slot_ne ss hs chains s k i : hinv ss hs chains -> hs !! i = Some None -> (s, k) ∈ mjoin chains -> s <> i.
Proof. intros H Hi Hk ->. destruct (hinv_node _ _ _ _ _ H Hk) as (n & Hn & _). congruence. Qed.

Lemma put_main ss hs chains k n : hinv ss hs chains -> let i := main_pos hs k in
  chains !! i = Some [] -> hs !! i = Some None -> k ∉ (mjoin chains).*2 -> denotes ss n k -> next n = -1 ->
  hinv ss (<[i := Some n]> hs) (<[i := [(i, k)]]> chains) /\ mjoin (<[i := [(i, k)]]> chains) ≡ₚ (i, k) :: mjoin chains.
Proof.
  intros H i Hc Hs Hk Hd Hnx. destruct (join_split chains i [] Hc) as (others & Hj1 & Hj2 & Hj3).
  assert (mjoin (<[i := [(i, k)]]> chains) ≡ₚ (i, k) :: mjoin chains) as Hp by (by rewrite Hj2, Hj1).
  pose proof (lookup_lt_Some _ _ _ Hs) as Hi. pose proof (lookup_lt_Some _ _ _ Hc) as Hic. split; [|done]. split; rewrite ?length_insert; try apply H.
  - intros j c Hj. destruct (decide (j = i)) as [-> |Hne].
    + rewrite list_lookup_insert_eq in Hj by done. injection Hj as <-. split; [|done]. exists n. by rewrite list_lookup_insert_eq by done.
    + rewrite list_lookup_insert_ne in Hj by done. apply (linked_mono ss _ hs); [done| |by apply (hi_linked _ _ _ H j)].
      intros s kx Hx. apply list_lookup_insert_ne. intros <-. by apply (slot_ne _ _ _ i kx i H Hs); [apply (in_chain _ _ _ _ Hj)|].
  - intros j c Hj. destruct (decide (j = i)) as [-> |Hne].
    + rewrite list_lookup_insert_eq in Hj by done. injection Hj as <-. by right.
    + rewrite list_lookup_insert_ne in Hj by done. by apply (hi_head _ _ _ H j).
  - intros j c s kx Hj Hx. destruct (decide (j = i)) as [-> |Hne].
    + rewrite list_lookup_insert_eq in Hj by done. injection Hj as <-. apply list_elem_of_singleton in Hx as [= -> ->]. apply (main_pos_ok _ _ _ _ H).
    + rewrite list_lookup_insert_ne in Hj by done. by apply (hi_main _ _ _ H j c s).
  - intros s m Hm. rewrite Hp. destruct (decide (s = i)) as [-> |Hne]; [by left|]. right.
    rewrite list_lookup_insert_ne in Hm by done. by apply (hi_occupied _ _ _ H s m).
  - rewrite Hp. cbn. apply NoDup_cons. split; [|apply H]. intros Hx. apply list_elem_of_fmap in Hx as ([s kx] & E & Hx). cbn in E. subst s.
    by apply (slot_ne _ _ _ i kx i H Hs).
  - rewrite Hp. cbn. apply NoDup_cons. split; [done|apply H].
Qed.

Lemma linked_put ss hs i k0 rest m n e k : linked ss hs ((i, k0) :: rest) -> NoDup ((i, k0) :: rest).*1 -> hs !! i = Some (Some m) ->
  hs !! e = Some None -> denotes ss n k -> next n = next m -> nocolliding n = 0 ->
  linked ss (<[e := Some n]> (<[i := Some (Node (v m) (key m) (Z.of_nat e) (keyhash m) (keytype m) 0)]> hs)) ((i, k0) :: (e, k) :: rest).
Proof.
  intros [(m0 & Hm & Hdm & Hnm & _) Hl] Hnd Hi He Hd Hn Hnc. rewrite Hi in Hm. injection Hm as <-. pose proof (lookup_lt_Some _ _ _ Hi). pose proof (lookup_lt_Some _ _ _ He).
  assert (i <> e) as Hie by congruence. split; [|split].
  - eexists. rewrite list_lookup_insert_ne, list_lookup_insert_eq by done. split; [done|]. split; [done|]. done.
  - exists n. rewrite list_lookup_insert_eq by (by rewrite length_insert). split_and!; [done|done|by rewrite Hn|done].
  - apply (linked_mono ss _ hs); [done| |done]. intros s kx Hx. rewrite !list_lookup_insert_ne; [done| |].
    + intros <-. apply NoDup_cons in Hnd as [Hnd _]. apply Hnd. by apply (list_elem_of_fmap_2' _ _ (i, kx)).
    + intros <-. destruct (linked_node _ _ _ _ _ Hl Hx) as (n' & Hn' & _). congruence.
Qed.

Lemma put_coll ss hs chains k n m k0 rest e : hinv ss hs chains -> let i := main_pos hs k in
  chains !! i = Some ((i, k0) :: rest) -> hs !! i = Some (Some m) -> hs !! e = Some None -> k ∉ (mjoin chains).*2 ->
  denotes ss n k -> next n = next m -> nocolliding n = 0 ->
  let hs' := <[e := Some n]> (<[i := Some (Node (v m) (key m) (Z.of_nat e) (keyhash m) (keytype m) 0)]> hs) in
  hinv ss hs' (<[i := (i, k0) :: (e, k) :: rest]> chains) /\ mjoin (<[i := (i, k0) :: (e, k) :: rest]> chains) ≡ₚ (e, k) :: mjoin chains.
Proof.
  intros H i Hc Hs He Hk Hd Hnx Hnc hs'. destruct (join_split chains i _ Hc) as (others & Hj1 & Hj2 & Hj3).
  assert (mjoin (<[i := (i, k0) :: (e, k) :: rest]> chains) ≡ₚ (e, k) :: mjoin chains) as Hp.
  { rewrite Hj2, Hj1. solve_Permutation. }
  pose proof (lookup_lt_Some _ _ _ Hs) as Hi. pose proof (lookup_lt_Some _ _ _ Hc) as Hic. assert (i <> e) as Hie by congruence.
  pose proof (nodup_join fst _ _ _ (hi_slots _ _ _ H) Hc) as Hnd.
  split; [|done]. split; subst hs'; rewrite ?length_insert; try apply H.
  - intros j c Hj. destruct (decide (j = i)) as [-> |Hne].
    + rewrite list_lookup_insert_eq in Hj by done. injection Hj as <-. apply linked_put; try done. by apply (hi_linked _ _ _ H i).
    + rewrite list_lookup_insert_ne in Hj by done. apply (linked_mono ss _ hs); [done| |by apply (hi_linked _ _ _ H j)].
      intros s kx Hx. assert ((s, kx) ∈ mjoin chains) as Hx' by (by apply (in_chain _ _ _ _ Hj)).
      rewrite !list_lookup_insert_ne; [done| |].
      * intros <-. apply Hne. assert (kx = k0) as -> by (apply (slot_unique _ _ _ i _ _ H Hx'); apply (in_chain _ _ _ _ Hc); by left).
        pose proof (hi_main _ _ _ H _ _ _ _ Hj Hx). pose proof (hi_main _ _ _ H _ _ i k0 Hc ltac:(by left)). lia.
      * intros <-. by apply (slot_ne _ _ _ e kx e H He).
  - intros j c Hj. destruct (decide (j = i)) as [-> |Hne].
    + rewrite list_lookup_insert_eq in Hj by done. injection Hj as <-. by right.
    + rewrite list_lookup_insert_ne in Hj by done. by apply (hi_head _ _ _ H j).
  - intros j c s kx Hj Hx. destruct (decide (j = i)) as [-> |Hne].
    + rewrite list_lookup_insert_eq in Hj by done. injection Hj as <-. apply elem_of_cons in Hx as [E|Hx]; [|apply elem_of_cons in Hx as [E|Hx]].
      * injection E as -> ->. apply (hi_main _ _ _ H _ _ i k0 Hc). by left.
      * injection E as -> ->. apply (main_pos_ok _ _ _ _ H).
      * apply (hi_main _ _ _ H _ _ s kx Hc). by right.
    + rewrite list_lookup_insert_ne in Hj by done. by apply (hi_main _ _ _ H j c s).
  - intros s x Hx. rewrite Hp. destruct (decide (s = e)) as [-> |Hne]; [by left|]. right.
    rewrite list_lookup_insert_ne in Hx by done. destruct (decide (s = i)) as [-> |Hni]; [by apply (hi_occupied _ _ _ H i m)|].
    rewrite list_lookup_insert_ne in Hx by done. by apply (hi_occupied _ _ _ H s x).
  - rewrite Hp. cbn. apply NoDup_cons. split; [|apply H]. intros Hx. apply list_elem_of_fmap in Hx as ([s kx] & E & Hx). cbn in E. subst s.
    by apply (slot_ne _ _ _ e kx e H He).
  - rewrite Hp. cbn. apply NoDup_cons. split; [done|apply H].
Qed.

(** A slot is free while fewer keys than slots are there. *)
Lemma empty_slot_ok hs : forall i, (exists s, hs !! s = Some None) -> exists s, empty_slot hs i = Some (i + Z.of_nat s) /\ hs !! s = Some None.
Proof.
  induction hs as [|[n|] hs IH]; intros i (s & Hs); [done| |].
  - destruct s as [|s]; [done|]. destruct (IH (i + 1)) as (s' & E & Hs'); [by exists s|]. exists (S s'). cbn [empty_slot]. rewrite E. split; [f_equal; lia|done].
  - exists O. cbn. split; [f_equal; lia|done].
Qed.

Lemma room ss hs chains : hinv ss hs chains -> (length (mjoin chains) < length hs)%nat -> exists s, hs !! s = Some None.
Proof.
  intros H Hl. destruct (decide (Exists (fun o => o = None) hs)) as [E|E].
  - apply Exists_exists in E as (o & [s Hs]%list_elem_of_lookup & ->). by exists s.
  - exfalso. assert (length hs <= length (mjoin chains))%nat; [|lia]. rewrite <- (length_fmap fst (mjoin chains)), <- (length_seq (length hs) 0).
    apply submseteq_length, NoDup_submseteq; [apply NoDup_seq|]. intros s Hs%elem_of_seq.
    destruct (lookup_lt_is_Some_2 hs s) as [[n|] Hn]; [lia|by apply (hi_occupied _ _ _ H s n)|].
    exfalso. apply E, Exists_exists. exists None. split; [|done]. apply list_elem_of_lookup. by exists s.
Qed.

Lemma full_filled ss hs chains : hinv ss hs chains -> (length hs <= length (mjoin chains))%nat -> filled hs.
Proof.
  intros H Hl s Hs. destruct (lookup_lt_is_Some_2 hs s Hs) as [[n|] Hn]; [by exists n|]. exfalso.
  assert (length (s :: (mjoin chains).*1) <= length hs)%nat as Hb; [|cbn [length] in Hb; rewrite length_fmap in Hb; lia].
  rewrite <- (length_seq (length hs) 0). apply submseteq_length, NoDup_submseteq.
  - apply NoDup_cons. split; [|apply H]. intros Hx. apply list_elem_of_fmap in Hx as ([s' kx] & E & Hx). cbn in E. subst s'.
    by apply (slot_ne _ _ _ s kx s H Hn).
  - intros x Hx. apply elem_of_seq. apply elem_of_cons in Hx as [-> |Hx]; [lia|]. apply list_elem_of_fmap in Hx as ([s' kx] & -> & Hx).
    destruct (hinv_node _ _ _ _ _ H Hx) as (n' & Hn' & _). apply lookup_lt_Some in Hn'. cbn. lia.
Qed.

Lemma mjoin_nils {A} (n : nat) : mjoin (replicate n (@nil A)) = [].
Proof. induction n as [|n IH]; [done|]. cbn. exact IH. Qed.

Lemma hinv_init ss n : (0 < n)%nat -> hinv ss (replicate n None) (replicate n []).
Proof.
  intros Hn. split; rewrite ?length_replicate; try done.
  - intros i c [-> _]%lookup_replicate. done.
  - intros i c [-> _]%lookup_replicate. by left.
  - intros i c s k [-> _]%lookup_replicate Hk. by apply elem_of_nil in Hk.
  - intros s m [? _]%lookup_replicate. done.
  - rewrite mjoin_nils. constructor.
  - rewrite mjoin_nils. constructor.
Qed.

(** ** Tables *)

#[export] Instance lkey_dec : EqDecision lkey.
Proof. solve_decision. Defined.

(** Keys that the code holds as [int], and strings. *)
Definition key_ok (k : lkey) : Prop := match k with KInt z => - 2 ^ 31 <= z < 2 ^ 31 | KStr _ => True | _ => False end.

(** Tables of depth [d] at most, as Lua has them. *)
Fixpoint wf (d : nat) (x : lval) : Prop :=
  match x with
  | LTable len es => match d with O => False | S d => 0 <= len < 2 ^ 31 /\ NoDup es.*1 /\ Forall (fun e => key_ok e.1 /\ wf d e.2) es end
  | LOther => False
  | _ => True
  end.

(** The place of a key: in the array, or in the hash. *)
Definition place (len : Z) (k : lkey) : Z + hkey :=
  match k with KInt z => if (z >? 0) && (z <=? len) then inl z else inr (HInt z) | KStr s => inr (HStr s) | _ => inr (HStr []) end.
Definition unkey (k : hkey) : lkey := match k with HInt z => KInt z | HStr s => KStr s end.
Definition hash_key (len : Z) (k : lkey) : option hkey := match place len k with inr k => Some k | inl _ => None end.
Definition hash_keys (len : Z) (es : list (lkey * lval)) : list hkey := omap (fun e => hash_key len e.1) es.

Definition slots (t : table) : list (option value) := array t ++ fmap (M := list) (fmap (M := option) v) (hash t).

(** A table under construction: the array has the keys [done], the hash those
    of [chains]; [R] relates the values. *)
Record table_ok (R : value -> lval -> Prop) (ss : list (list Z)) (len : Z) (es : list (lkey * lval)) (done : Z -> Prop)
    (t : table) (chains : list (list (nat * hkey))) : Prop := {
  tk_sizearray : sizearray t = len /\ length (array t) = Z.to_nat len;
  tk_sizehash : sizehash t = zlen (hash t);
  tk_array : forall z o, 1 <= z <= len -> array t !! Z.to_nat (z - 1) = Some o ->
    match o with Some u => done z /\ exists x, (KInt z, x) ∈ es /\ R u x | None => ~ (done z /\ KInt z ∈ es.*1) end;
  tk_hash : hash t = [] /\ chains = [] \/ hinv ss (hash t) chains;
  tk_vals : forall s k n, (s, k) ∈ mjoin chains -> hash t !! s = Some (Some n) -> exists x, (unkey k, x) ∈ es /\ R (v n) x;
  tk_keys : forall k, k ∈ (mjoin chains).*2 -> k ∈ hash_keys len es
}.

Definition complete (len : Z) (es : list (lkey * lval)) (t : table) (chains : list (list (nat * hkey))) : Prop :=
  (mjoin chains).*2 ≡ₚ hash_keys len es /\ length (hash t) = length (hash_keys len es).

(** The value is a copy; its tables are at [lo] or above. *)
Fixpoint shares (d lo : nat) (c : context) (u : value) (x : lval) : Prop :=
  match x, u with
  | LInt z, VInteger z' => z' = z
  | LReal n, VReal n' => n' = n
  | LBool b, VBoolean b' => b' = b
  | LStr s, VString i => names (strings c) i s
  | LTable len es, VTable p =>
      match d with
      | O => False
      | S d => (lo <= p)%nat /\ exists t chains, tbls c !! p = Some t /\ table_ok (shares d (S p) c) (strings c) len es (fun _ => True) t chains /\ complete len es t chains
      end
  | _, _ => False
  end.

(** Strings are only added; the tables from [lo] on stay. *)
Definition agree (lo : nat) (c c' : context) : Prop :=
  strings c `prefix_of` strings c' /\ forall q t, (lo <= q)%nat -> tbls c !! q = Some t -> tbls c' !! q = Some t.

Lemma agree_le lo lo' c c' : (lo <= lo')%nat -> agree lo c c' -> agree lo' c c'.
Proof. intros Hl [H1 H2]. split; [done|]. intros q t Hq. apply H2. lia. Qed.

Lemma table_ok_mono (R R' : value -> lval -> Prop) ss ss' len es done t chains : ss `prefix_of` ss' ->
  (forall u x, R u x -> R' u x) -> table_ok R ss len es done t chains -> table_ok R' ss' len es done t chains.
Proof.
  intros Hp HR [H2 H3 H4 H5 H6 H7]. split; try done.
  - intros z o Hz Ho. specialize (H4 z o Hz Ho). destruct o as [u|]; [|done]. destruct H4 as (Hd & x & Hx & Hr). split; [done|]. exists x. auto.
  - destruct H5 as [?|H5]; [by left|right]. by apply (hinv_prefix ss).
  - intros s k n Hk Hn. destruct (H6 s k n Hk Hn) as (x & Hx & Hr). exists x. auto.
Qed.

Lemma shares_mono d : forall lo lo' c c' u x, agree lo c c' -> (lo' <= lo)%nat -> shares d lo c u x -> shares d lo' c' u x.
Proof.
  induction d as [|d IH]; intros lo lo' c c' u x Hag Hlo; destruct x, u; cbn [shares]; try done; try (by apply names_prefix, Hag).
  intros [Hp (t & chains & Ht & Htab & Hc)]. split; [lia|]. exists t, chains. split; [apply Hag; [lia|done]|]. split; [|done].
  apply (table_ok_mono (shares d (S p) c) _ (strings c)); [apply Hag| |done]. intros u x. apply IH; [|lia]. by apply (agree_le lo); [lia|].
Qed.

(** ** Freeing *)

Definition frees (d : nat) (tb : list table) (o : option value) : option (list nat) :=
  match o with Some (VTable q) => delete_tbl d tb q | _ => Some [] end.

Lemma delete_tbl_S d tb p : delete_tbl (S d) tb p = t ← tb !! p; ls ← mapM (frees d tb) (slots t); Some (mjoin ls ++ [p]).
Proof. done. Qed.

Lemma delete_mono d : forall tb tb' p l, delete_tbl d tb p = Some l -> (forall r, r ∈ l -> tb' !! r = tb !! r) -> delete_tbl d tb' p = Some l.
Proof.
  induction d as [|d IH]; intros tb tb' p l; [done|]. rewrite !delete_tbl_S. intros (t & Ht & Hl)%bind_Some Hr.
  apply bind_Some in Hl as (ls & Hls & [= <-]). rewrite Hr, Ht by (apply elem_of_app; right; by left). cbn [mbind option_bind].
  apply mapM_Some in Hls. assert (mapM (frees d tb') (slots t) = Some ls) as ->; [|done]. apply mapM_Some.
  assert (forall l, l ∈ ls -> forall r, r ∈ l -> tb' !! r = tb !! r) as Hr'.
  { intros l Hl r Hrl. apply Hr, elem_of_app. left. apply list_elem_of_join. by exists l. }
  clear - Hls Hr' IH. induction Hls as [|o l os ls Ho _ IHl]; constructor.
  - destruct o as [[]|]; cbn [frees] in *; try done. apply (IH tb); [done|]. apply Hr'. by left.
  - apply IHl. intros l' Hl'. apply Hr'. by right.
Qed.

(** ** Construction *)

(** [c'] has more strings and tables; the old tables are the same. *)
Record grows (c c' : context) : Prop := {
  gr_strings : strings c `prefix_of` strings c';
  gr_nodup : NoDup (strings c');
  gr_length : (length (tbls c) <= length (tbls c'))%nat;
  gr_same : forall q, (q < length (tbls c))%nat -> tbls c' !! q = tbls c !! q
}.

Lemma grows_agree lo c c' : grows c c' -> agree lo c c'.
Proof. intros [H1 H2 H3 H4]. split; [done|]. intros q t _ Hq. rewrite H4; [done|]. by apply lookup_lt_Some in Hq. Qed.

(** What [convtable] promises for the last table. *)
Definition conv_spec (d : nat) : Prop := forall len es c p, wf d (LTable len es) -> NoDup (strings c) -> length (tbls c) = S p ->
  exists c' l, convtable d p len es c = eret c' /\ strings c `prefix_of` strings c' /\ NoDup (strings c') /\
    (length (tbls c) <= length (tbls c'))%nat /\ (forall q, (q < p)%nat -> tbls c' !! q = tbls c !! q) /\
    shares d p c' (VTable p) (LTable len es) /\ delete_tbl d (tbls c') p = Some l /\ l ≡ₚ seq p (length (tbls c') - p).

Lemma setvalue_ok d c x : conv_spec d -> wf d x -> NoDup (strings c) ->
  exists u c' l, setvalue (convtable d) c x = eret (u, c') /\ grows c c' /\ shares d (length (tbls c)) c' u x /\
    frees d (tbls c') (Some u) = Some l /\ l ≡ₚ seq (length (tbls c)) (length (tbls c') - length (tbls c)).
Proof.
  intros Hconv Hx Hn. assert (grows c c) as Hgr by by split. destruct x as [z|r|s|b|len es|]; cbn [setvalue].
  - exists (VInteger z), c, []. rewrite Nat.sub_diag. split_and!; try done. by destruct d.
  - exists (VReal r), c, []. rewrite Nat.sub_diag. split_and!; try done. by destruct d.
  - destruct (stringindex_ok c s Hn) as (i & ss & -> & Hp & Hn' & Hi). exists (VString i), (Ctx (tbls c) ss), []. cbn [tbls]. rewrite Nat.sub_diag.
    split_and!; try done. by destruct d.
  - exists (VBoolean b), c, []. rewrite Nat.sub_diag. split_and!; try done. by destruct d.
  - set (c0 := Ctx (tbls c ++ [Table 0 [] 0 []]) (strings c)). assert (length (tbls c0) = S (length (tbls c))) as Hl by (cbn; rewrite length_app; cbn; lia).
    destruct (Hconv len es c0 (length (tbls c)) Hx Hn Hl) as (c' & l & -> & H1 & H2 & H3 & H4 & H5 & H6 & H7). cbn [ebind eret].
    exists (VTable (length (tbls c))), c', l. split_and!; [done| |done|done|done]. split; [done|done|lia|]. intros q Hq. rewrite H4 by done. cbn. by apply lookup_app_l.
  - by destruct d.
Qed.

(** ** Keys *)

Lemma ishashkey_ok c p t len k : tbls c !! p = Some t -> sizearray t = len -> NoDup (strings c) -> key_ok k ->
  match place len k with
  | inl z => ishashkey p c k = Some (inl z) /\ k = KInt z /\ 1 <= z <= len
  | inr h => unkey h = k /\ exists ky kt ss, ishashkey p c k = Some (inr (ky, hash_of h, kt, Ctx (tbls c) ss)) /\ strings c `prefix_of` ss /\ NoDup ss /\
      forall u nx nc, denotes ss (Node u ky nx (hash_of h) kt nc) h
  end.
Proof.
  intros Ht Hs Hn Hk. unfold ishashkey, place. rewrite Ht. cbn [mbind option_bind]. destruct k as [z|s|r| |]; try done; cbn [key_ok] in Hk.
  - rewrite i32_id, Hs by lia. destruct ((z >? 0) && (z <=? len)) eqn:E.
    + apply andb_true_iff in E as [E1 E2%Z.leb_le]. rewrite Z.gtb_ltb in E1. apply Z.ltb_lt in E1. split_and!; [done|done|lia|lia].
    + split; [done|]. exists z, KEYTYPE_INTEGER, (strings c). split; [by destruct c|]. split_and!; done.
  - split; [done|]. rewrite calchash_hash. cbn [mbind option_bind]. destruct (stringindex_ok c s Hn) as (i & ss & -> & H1 & H2 & H3).
    exists i, KEYTYPE_STRING, ss. done.
Qed.

Lemma hash_key_unkey len k h : key_ok k -> hash_key len k = Some h -> unkey h = k.
Proof.
  unfold hash_key, place. destruct k as [z|s|r| |]; try done; intros _; [|by intros [= <-]].
  destruct ((z >? 0) && (z <=? len)); [done|]. by intros [= <-].
Qed.

Lemma elem_hash_keys len es h : Forall (fun e => key_ok e.1) es -> h ∈ hash_keys len es -> exists x, (unkey h, x) ∈ es /\ hash_key len (unkey h) = Some h.
Proof.
  intros Hk Hh. unfold hash_keys in Hh. apply list_elem_of_omap in Hh as ([k x] & He & Hh). cbn in Hh.
  pose proof (proj1 (Forall_forall _ _) Hk _ He) as Hkk. cbn in Hkk. pose proof (hash_key_unkey len k h Hkk Hh) as <-. by exists x.
Qed.

Lemma hash_keys_nodup len es : Forall (fun e => key_ok e.1) es -> NoDup es.*1 -> NoDup (hash_keys len es).
Proof.
  induction es as [|[k x] es IH]; intros Hk Hn; [constructor|]. apply Forall_cons in Hk as [Hk Hks]. cbn in Hn. apply NoDup_cons in Hn as [Hkn Hn].
  unfold hash_keys. cbn [omap list_omap fst]. destruct (hash_key len k) as [h|] eqn:E; [|by apply IH]. apply NoDup_cons. split; [|by apply IH].
  intros (y & Hy & _)%elem_hash_keys; [|done]. rewrite (hash_key_unkey len k h Hk E) in Hy. apply Hkn. by apply (list_elem_of_fmap_2' _ _ (k, y)).
Qed.

Lemma hash_keys_app len l1 l2 : hash_keys len (l1 ++ l2) = hash_keys len l1 ++ hash_keys len l2.
Proof. apply omap_app. Qed.

Lemma countsize_ok es len : Forall (fun e => key_ok e.1) es -> countsize es len = LOk (zlen (hash_keys len es)).
Proof.
  induction 1 as [|[k x] es Hk _ IH]; [done|]. cbn [countsize]. rewrite IH.
  change (hash_keys len ((k, x) :: es)) with (match hash_key len k with Some h => h :: hash_keys len es | None => hash_keys len es end).
  unfold hash_key, place. destruct k as [z|s|r| |]; try done; [destruct ((z >? 0) && (z <=? len))|]; f_equal; cbn [length]; lia.
Qed.

Section Build.
Context (d p : nat) (len : Z) (es : list (lkey * lval)).
Context (Hconv : conv_spec d) (Hlen : 0 <= len < 2 ^ 31) (Hes : NoDup es.*1) (Hwf : Forall (fun e => key_ok e.1 /\ wf d e.2) es).

Definition freeable (c : context) (t : table) : Prop :=
  exists ls, Forall2 (fun o l => frees d (tbls c) o = Some l) (slots t) ls /\ mjoin ls ≡ₚ seq (S p) (length (tbls c) - S p).

Record building (c : context) (done : Z -> Prop) (t : table) (chains : list (list (nat * hkey))) : Prop := {
  bd_tbl : tbls c !! p = Some t;
  bd_table : table_ok (shares d (S p) c) (strings c) len es done t chains;
  bd_nodup : NoDup (strings c);
  bd_free : freeable c t
}.

Lemma bd_bound c done t chains : building c done t chains -> (p < length (tbls c))%nat.
Proof. intros H. by apply (lookup_lt_Some _ _ t), (bd_tbl _ _ _ _ H). Qed.

(** More strings. *)
Lemma building_strings c done t chains ss : building c done t chains -> strings c `prefix_of` ss -> NoDup ss -> building (Ctx (tbls c) ss) done t chains.
Proof.
  intros [H0 H1 H2 H3] Hp Hn. split; [done| |done|done]. apply (table_ok_mono (shares d (S p) c) _ (strings c)); [done| |done].
  intros u x. by apply shares_mono.
Qed.

(** The freeing of a table with one more value. *)
Lemma free_update c c' t t' j u l : freeable c t ->
  (p < length (tbls c))%nat -> grows c c' -> slots t !! j = Some None -> slots t' = <[j := Some u]> (slots t) ->
  frees d (tbls c') (Some u) = Some l -> l ≡ₚ seq (length (tbls c)) (length (tbls c') - length (tbls c)) ->
  freeable (set_tbl c' p t') t'.
Proof.
  unfold freeable. cbn [set_tbl tbls]. rewrite length_insert. intros (ls & Hf & Hls) Hp [G1 G2 G3 G4] Hj -> Hu Hl.
  destruct (Forall2_lookup_l _ _ _ _ _ Hf Hj) as (lj & Hlj & E). cbn in E. injection E as <-.
  exists (<[j := l]> ls). split.
  - apply Forall2_insert.
    + assert (forall l, l ∈ ls -> forall r, r ∈ l -> <[p := t']> (tbls c') !! r = tbls c !! r) as Hr.
      { intros l' Hl' r Hr. assert (r ∈ mjoin ls) as Hm by (apply list_elem_of_join; by exists l'). rewrite Hls in Hm. apply elem_of_seq in Hm.
        rewrite list_lookup_insert_ne by lia. apply G4. lia. }
      clear - Hf Hr. induction Hf as [|o l os ls Ho _ IH]; constructor.
      * destruct o as [[]|]; cbn [frees] in *; try done. apply (delete_mono _ (tbls c)); [done|]. apply Hr. by left.
      * apply IH. intros l' Hl'. apply Hr. by right.
    + destruct u; cbn [frees] in *; try done. apply (delete_mono _ (tbls c')); [done|]. intros r Hr. rewrite Hl in Hr. apply elem_of_seq in Hr.
      apply list_lookup_insert_ne. lia.
  - pose proof (join_insert ls j l [] Hlj) as Hji. rewrite app_nil_r in Hji. rewrite Hji, Hls, Hl.
    replace (length (tbls c') - S p)%nat with ((length (tbls c) - S p) + (length (tbls c') - length (tbls c)))%nat by lia.
    rewrite seq_app. by replace (S p + (length (tbls c) - S p))%nat with (length (tbls c)) by lia.
Qed.

(** What a step keeps. *)
Definition stepped (c c' : context) : Prop :=
  strings c `prefix_of` strings c' /\ (length (tbls c) <= length (tbls c'))%nat /\ (forall q, (q < p)%nat -> tbls c' !! q = tbls c !! q).

Lemma stepped_trans c1 c2 c3 : stepped c1 c2 -> stepped c2 c3 -> stepped c1 c3.
Proof. intros (A1 & A2 & A3) (B1 & B2 & B3). split_and!; [by etrans|lia|]. intros q Hq. by rewrite B3, A3. Qed.

Lemma stepped_set c c' t : (p < length (tbls c))%nat -> grows c c' -> stepped c (set_tbl c' p t).
Proof.
  intros Hp [G1 G2 G3 G4]. split_and!; [done|cbn; by rewrite length_insert|]. intros q Hq. cbn. rewrite list_lookup_insert_ne by lia. apply G4. lia.
Qed.

Lemma set_agree c c' t : agree (S p) c c' -> agree (S p) c (set_tbl c' p t).
Proof. intros [H1 H2]. split; [done|]. intros q tq Hq Htq. cbn. rewrite list_lookup_insert_ne by lia. by apply H2. Qed.

(** A free element or slot gets a value. *)
Lemma store c t x : tbls c !! p = Some t -> NoDup (strings c) -> freeable c t -> wf d x ->
  exists u c', setvalue (convtable d) c x = eret (u, c') /\ grows c c' /\ tbls c' !! p = Some t /\
    forall t', shares d (S p) (set_tbl c' p t') u x /\ stepped c (set_tbl c' p t') /\ agree (S p) c (set_tbl c' p t') /\
      forall j done' chains', slots t !! j = Some None -> slots t' = <[j := Some u]> (slots t) ->
        table_ok (shares d (S p) (set_tbl c' p t')) (strings c') len es done' t' chains' -> building (set_tbl c' p t') done' t' chains'.
Proof.
  intros Ht0 Hnd Hfr Hx. pose proof (lookup_lt_Some _ _ _ Ht0) as Hp. destruct (setvalue_ok d c x Hconv Hx Hnd) as (u & c' & l & E & G & Hs & Hu & Hl).
  assert (tbls c' !! p = Some t) as Ht by (by rewrite (gr_same _ _ G)).
  exists u, c'. split_and!; [done..|]. intros t'. pose proof (set_agree c c' t' (grows_agree _ _ _ G)) as Hag.
  split; [|split; [|split; [done|]]].
  - apply (shares_mono d (length (tbls c)) (S p) c'); [|lia|done]. split; [done|]. intros q tq Hq Htq. cbn. by rewrite list_lookup_insert_ne by lia.
  - by apply stepped_set.
  - intros j done' chains' Hj Hsl Htab. split; [cbn; apply list_lookup_insert_eq; by apply lookup_lt_Some in Ht|done|apply G|].
    by apply (free_update c c' t t' j u l).
Qed.

Lemma step_array c done t chains z x : building c done t chains -> 1 <= z <= len -> (KInt z, x) ∈ es -> ~ done z -> wf d x ->
  exists c' t', setarray (convtable d) p c (Some x) z = eret c' /\ stepped c c' /\ building c' (fun y => done y \/ y = z) t' chains /\ hash t' = hash t.
Proof.
  intros [B1 B2 B3 B4] Hz Hin Hd Hx. destruct (store c t x B1 B3 B4 Hx) as (u & c' & E & G & Ht & Hst). unfold setarray. rewrite E. cbn [ebind eret]. rewrite Ht. cbn [elift ebind].
  destruct B2 as [[T1 T1'] T3 T4 T5 T6 T7].
  rewrite aset_Some by lia. cbn [elift ebind]. set (t' := Table _ _ _ _). destruct (Hst t') as (H1 & H3 & H2 & H4). exists (set_tbl c' p t'), t'. split_and!; [done|done| |done].
  assert (array t !! Z.to_nat (z - 1) = Some None) as Hnone.
  { destruct (lookup_lt_is_Some_2 (array t) (Z.to_nat (z - 1))) as [o Ho]; [lia|]. pose proof (T4 z o Hz Ho) as Hc. destruct o; [by destruct Hc|done]. }
  apply (H4 (Z.to_nat (z - 1))).
  - unfold slots. by apply lookup_app_l_Some.
  - unfold slots. cbn [t' array hash]. rewrite insert_app_l by lia. done.
  - assert (table_ok (shares d (S p) (set_tbl c' p t')) (strings c') len es done t chains) as [_ _ T4' T5' T6' _].
    { apply (table_ok_mono (shares d (S p) c) _ (strings c)); [apply G| |by split]. intros v0 x0. by apply shares_mono. }
    split; try done.
    + cbn. by rewrite length_insert.
    + intros y o Hy Ho. cbn in Ho. destruct (decide (y = z)) as [-> |Hne].
      * rewrite list_lookup_insert_eq in Ho by lia. injection Ho as <-. split; [by right|]. by exists x.
      * rewrite list_lookup_insert_ne in Ho by lia. specialize (T4' y o Hy Ho). destruct o as [w|].
        -- destruct T4' as (? & ?). split; [by left|done].
        -- intros [[?| ->] ?]; [by apply T4'|done].
Qed.

Lemma step_main c done t chains k x ky kt : building c done t chains -> (unkey k, x) ∈ es -> wf d x -> k ∈ hash_keys len es -> k ∉ (mjoin chains).*2 ->
  (forall u nx nc, denotes (strings c) (Node u ky nx (hash_of k) kt nc) k) -> hinv (strings c) (hash t) chains ->
  let i := main_pos (hash t) k in chains !! i = Some [] -> hash t !! i = Some None ->
  exists u c' c'' t', setvalue (convtable d) c x = eret (u, c') /\
    set_node c' p (Z.of_nat i) (Node u ky (-1) (hash_of k) kt 1) = Some c'' /\ stepped c c'' /\
    building c'' done t' (<[i := [(i, k)]]> chains) /\ mjoin (<[i := [(i, k)]]> chains) ≡ₚ (i, k) :: mjoin chains /\
    length (hash t') = length (hash t) /\ hinv (strings c'') (hash t') (<[i := [(i, k)]]> chains).
Proof.
  intros [B1 B2 B3 B4] Hin Hx Hk Hnk Hden Hh i Hc Hs. destruct (store c t x B1 B3 B4 Hx) as (u & c' & E & G & Ht & Hst).
  pose proof (lookup_lt_Some _ _ _ Hs) as Hi. set (n := Node u ky (-1) (hash_of k) kt 1).
  destruct (put_main _ _ _ k n (hinv_prefix _ _ _ _ (gr_strings _ _ G) Hh)) as [Hh' Hp']; [done|done|done|apply (denotes_prefix (strings c)); [apply G|apply Hden]|done|].
  fold i in Hh', Hp'. set (t' := Table (sizearray t) (array t) (sizehash t) (<[i := Some n]> (hash t))).
  assert (set_node c' p (Z.of_nat i) n = Some (set_tbl c' p t')) as Eset.
  { unfold set_node. rewrite Ht. cbn [mbind option_bind]. rewrite aset_Some by lia. by rewrite Nat2Z.id. }
  destruct (Hst t') as (H1 & H3 & H2 & H4). exists u, c', (set_tbl c' p t'), t'.
  split_and!; [done|done|done| |done|cbn; apply length_insert|done].
  apply (H4 (length (array t) + i)%nat).
  - unfold slots. rewrite lookup_app_r by lia. replace (length (array t) + i - length (array t))%nat with i by lia. by rewrite list_lookup_fmap, Hs.
  - unfold slots. cbn [t' array hash]. rewrite insert_app_r. by rewrite list_fmap_insert.
  - assert (table_ok (shares d (S p) (set_tbl c' p t')) (strings c') len es done t chains) as [T1 T3 T4 T5 T6 T7].
    { apply (table_ok_mono (shares d (S p) c) _ (strings c)); [apply G| |done]. intros v0 x0. by apply shares_mono. }
    split; try done.
    + cbn. by rewrite length_insert.
    + by right.
    + intros s ks m Hsk Hm. rewrite Hp' in Hsk. cbn in Hm. apply elem_of_cons in Hsk as [[= -> ->]|Hsk].
      * rewrite list_lookup_insert_eq in Hm by done. injection Hm as <-. by exists x.
      * rewrite list_lookup_insert_ne in Hm by (intros <-; by apply (slot_ne _ _ _ i ks i Hh Hs)). by apply (T6 s ks m).
    + intros ks Hks. rewrite Hp' in Hks. cbn in Hks. apply elem_of_cons in Hks as [-> |Hks]; [done|by apply T7].
Qed.

(** The table under construction itself does not matter. *)
Lemma freeable_self c t t' : freeable c t -> (p < length (tbls c))%nat -> slots t' = slots t -> freeable (set_tbl c p t') t'.
Proof.
  intros (ls & Hf & Hls) Hp Hsl. exists ls. cbn [set_tbl tbls]. rewrite length_insert, Hsl. split; [|done].
  assert (forall l, l ∈ ls -> forall r, r ∈ l -> <[p := t']> (tbls c) !! r = tbls c !! r) as Hr.
  { intros l' Hl' r Hr. assert (r ∈ mjoin ls) as Hm by (apply list_elem_of_join; by exists l'). rewrite Hls in Hm. apply elem_of_seq in Hm.
    rewrite list_lookup_insert_ne by lia. done. }
  clear - Hf Hr. induction Hf as [|o l os ls Ho _ IH]; constructor.
  - destruct o as [[]|]; cbn [frees] in *; try done. apply (delete_mono _ (tbls c)); [done|]. apply Hr. by left.
  - apply IH. intros l' Hl'. apply Hr. by right.
Qed.

Lemma step_coll c done t chains k x ky kt m k0 rest e : building c done t chains -> (unkey k, x) ∈ es -> wf d x -> k ∈ hash_keys len es -> k ∉ (mjoin chains).*2 ->
  (forall u nx nc, denotes (strings c) (Node u ky nx (hash_of k) kt nc) k) -> hinv (strings c) (hash t) chains ->
  let i := main_pos (hash t) k in chains !! i = Some ((i, k0) :: rest) -> hash t !! i = Some (Some m) -> hash t !! e = Some None ->
  exists c1 u c' c'' t', set_node c p (Z.of_nat i) (Node (v m) (key m) (Z.of_nat e) (keyhash m) (keytype m) 0) = Some c1 /\
    setvalue (convtable d) c1 x = eret (u, c') /\
    set_node c' p (Z.of_nat e) (Node u ky (next m) (hash_of k) kt 0) = Some c'' /\ stepped c c'' /\
    building c'' done t' (<[i := (i, k0) :: (e, k) :: rest]> chains) /\ mjoin (<[i := (i, k0) :: (e, k) :: rest]> chains) ≡ₚ (e, k) :: mjoin chains /\
    length (hash t') = length (hash t) /\ hinv (strings c'') (hash t') (<[i := (i, k0) :: (e, k) :: rest]> chains).
Proof.
  intros Hb Hin Hx Hk Hnk Hden Hh i Hc Hm He. pose proof Hb as [B1 B2 B3 B4]. pose proof (lookup_lt_Some _ _ _ Hm) as Hi. pose proof (lookup_lt_Some _ _ _ He) as Hel.
  assert (i <> e) as Hie by congruence. pose proof (bd_bound _ _ _ _ Hb) as Hp.
  set (m1 := Node (v m) (key m) (Z.of_nat e) (keyhash m) (keytype m) 0). set (t1 := Table (sizearray t) (array t) (sizehash t) (<[i := Some m1]> (hash t))).
  assert (set_node c p (Z.of_nat i) m1 = Some (set_tbl c p t1)) as Es1.
  { unfold set_node. rewrite B1. cbn [mbind option_bind]. rewrite aset_Some by lia. by rewrite Nat2Z.id. }
  assert (slots t1 = slots t) as Esl.
  { unfold slots. cbn [t1 array hash]. f_equal. rewrite list_fmap_insert. apply list_insert_id. by rewrite list_lookup_fmap, Hm. }
  assert (tbls (set_tbl c p t1) !! p = Some t1) as Ht1 by (cbn; by apply list_lookup_insert_eq).
  destruct (store (set_tbl c p t1) t1 x Ht1 B3 (freeable_self c t t1 B4 Hp Esl) Hx) as (u & c' & E & G & Ht & Hst).
  pose proof (gr_strings _ _ G) as Hpre. cbn [set_tbl strings] in Hpre.
  set (n := Node u ky (next m) (hash_of k) kt 0).
  destruct (put_coll _ _ _ k n m k0 rest e (hinv_prefix _ _ _ _ Hpre Hh)) as [Hh' Hp']; [done|done|done|done|apply (denotes_prefix (strings c)); [done|apply Hden]|done|done|].
  fold i m1 in Hh', Hp'. set (t' := Table (sizearray t) (array t) (sizehash t) (<[e := Some n]> (<[i := Some m1]> (hash t)))).
  assert (set_node c' p (Z.of_nat e) n = Some (set_tbl c' p t')) as Eset.
  { unfold set_node. rewrite Ht. cbn [mbind option_bind t1 hash]. rewrite aset_Some by (rewrite length_insert; lia). by rewrite Nat2Z.id. }
  destruct (Hst t') as (H1 & H3 & H2 & H4). exists (set_tbl c p t1), u, c', (set_tbl c' p t'), t'.
  split_and!; [done|done|done| | |done|cbn; by rewrite !length_insert|done].
  { apply (stepped_trans _ (set_tbl c p t1)); [|done]. split_and!; [done|cbn; by rewrite length_insert|]. intros q Hq. cbn. by rewrite list_lookup_insert_ne by lia. }
  apply (H4 (length (array t) + e)%nat).
  - rewrite Esl. unfold slots. rewrite lookup_app_r by lia. replace (length (array t) + e - length (array t))%nat with e by lia. by rewrite list_lookup_fmap, He.
  - unfold slots. cbn [t' t1 array hash]. rewrite insert_app_r. by rewrite (list_fmap_insert _ (<[i := Some m1]> (hash t))).
  - assert (agree (S p) c (set_tbl c' p t')) as Hag.
    { destruct H2 as [A1 A2]. split; [done|]. intros q tq Hq Htq. apply A2; [done|]. cbn. by rewrite list_lookup_insert_ne by lia. }
    assert (table_ok (shares d (S p) (set_tbl c' p t')) (strings c') len es done t chains) as [T1 T3 T4 T5 T6 T7].
    { apply (table_ok_mono (shares d (S p) c) _ (strings c)); [done| |done]. intros v0 x0. by apply shares_mono. }
    split; try done.
    + cbn. by rewrite !length_insert.
    + by right.
    + intros s ks w Hsk Hw. rewrite Hp' in Hsk. cbn in Hw. apply elem_of_cons in Hsk as [[= -> ->]|Hsk].
      * rewrite list_lookup_insert_eq in Hw by (by rewrite length_insert). injection Hw as <-. by exists x.
      * rewrite list_lookup_insert_ne in Hw by (intros <-; by apply (slot_ne _ _ _ e ks e Hh He)). destruct (decide (s = i)) as [-> |Hsi].
        -- rewrite list_lookup_insert_eq in Hw by done. injection Hw as <-. by apply (T6 i ks m).
        -- rewrite list_lookup_insert_ne in Hw by done. by apply (T6 s ks w).
    + intros ks Hks. rewrite Hp' in Hks. cbn in Hks. apply elem_of_cons in Hks as [-> |Hks]; [done|by apply T7].
Qed.

Lemma building_done c done done' t chains : (forall z, 1 <= z <= len -> KInt z ∈ es.*1 -> done z <-> done' z) -> building c done t chains -> building c done' t chains.
Proof.
  intros Hd [B1 [T1 T2 T3 T4 T5 T6] B3 B4]. split; try done. split; try done. intros z o Hz Ho. specialize (T3 z o Hz Ho). destruct o as [u|].
  - destruct T3 as (? & x & Hx & ?). split; [apply Hd; try done; by apply (list_elem_of_fmap_2' _ _ (KInt z, x))|by exists x].
  - intros [H1 H2]. apply T3. split; [by apply Hd|done].
Qed.

Lemma main_pos_length (hs hs' : list (option node)) k : length hs' = length hs -> main_pos hs' k = main_pos hs k.
Proof. unfold main_pos. by intros ->. Qed.

Let keys_ok : Forall (fun e => key_ok e.1) es.
Proof. eapply Forall_impl; [exact Hwf|]. by intros e [? _]. Qed.

(** The first pass: each main position has the first key that belongs there. *)
Record pass1 (pre : list (lkey * lval)) (c : context) (t : table) (chains : list (list (nat * hkey))) : Prop := {
  p1_build : building c (fun z => KInt z ∈ pre.*1) t chains;
  p1_hinv : hinv (strings c) (hash t) chains;
  p1_single : forall j ch, chains !! j = Some ch -> ch = [] \/ exists k, ch = [(j, k)];
  p1_main : forall k, k ∈ hash_keys len pre -> chains !! main_pos (hash t) k <> Some [];
  p1_keys : forall k, k ∈ (mjoin chains).*2 -> k ∈ hash_keys len pre
}.

Lemma pass1_ok suf : forall pre c t chains, es = pre ++ suf -> pass1 pre c t chains ->
  exists c' t' chains', fillnocolliding (convtable d) p suf c = eret c' /\ stepped c c' /\ pass1 es c' t' chains' /\ length (hash t') = length (hash t).
Proof.
  induction suf as [|[k x] suf IH]; intros pre c t chains Ees P.
  { rewrite app_nil_r in Ees. subst pre. exists c, t, chains. split_and!; done. }
  destruct P as [Hb Hh Hsing Hmain Hkeys]. pose proof Hb as [B1 B2 B3 B4].
  assert ((k, x) ∈ es) as Hin by (rewrite Ees; apply elem_of_app; right; left).
  pose proof (proj1 (Forall_forall _ _) Hwf _ Hin) as [Hk Hx]. cbn [fst snd] in Hk, Hx.
  assert (k ∉ pre.*1) as Hkpre.
  { rewrite Ees, fmap_app in Hes. cbn in Hes. apply NoDup_app in Hes as (_ & Hdis & _). intros Hkp. apply (Hdis k Hkp). by left. }
  assert (es = (pre ++ [(k, x)]) ++ suf) as Ees' by (by rewrite <- app_assoc).
  pose proof (ishashkey_ok c p t len k B1 (proj1 (tk_sizearray _ _ _ _ _ _ _ B2)) B3 Hk) as Hish. cbn [fillnocolliding].
  assert (hash_keys len (pre ++ [(k, x)]) = hash_keys len pre ++ match place len k with inl _ => [] | inr h => [h] end) as Ekeys.
  { rewrite hash_keys_app. f_equal. unfold hash_keys. cbn [omap list_omap fst]. unfold hash_key. by destruct (place len k). }
  destruct (place len k) as [z|h].
  - destruct Hish as (-> & -> & Hz). cbn [elift ebind].
    destruct (step_array c _ t chains z x Hb Hz Hin Hkpre Hx) as (c1 & t1 & -> & Hst & Hb1 & Eh). cbn [ebind eret].
    destruct (IH (pre ++ [(KInt z, x)]) c1 t1 chains Ees') as (c2 & t2 & ch2 & E & Hst2 & P2 & L2).
    { rewrite app_nil_r in Ekeys. split; rewrite ?Ekeys, ?Eh; try done.
      - apply (building_done _ (fun y => KInt y ∈ pre.*1 \/ y = z)); [|done]. intros y _ _. rewrite fmap_app. cbn.
        rewrite elem_of_app, list_elem_of_singleton. naive_solver.
      - apply (hinv_prefix (strings c)); [apply Hst|done]. }
    exists c2, t2, ch2. split_and!; [done|by apply (stepped_trans _ c1)|done|congruence].
  - destruct Hish as (Huk & ky & kt & ss & -> & Hp1 & Hp2 & Hden). cbn [elift ebind tbls]. rewrite B1. cbn [elift ebind].
    set (c0 := Ctx (tbls c) ss). assert (building c0 (fun z => KInt z ∈ pre.*1) t chains) as Hb0 by (by apply building_strings).
    pose proof (hinv_prefix _ ss _ _ Hp1 Hh) as Hh0. destruct (main_pos_ok _ _ _ h Hh0) as [Em Hm].
    rewrite (tk_sizehash _ _ _ _ _ _ _ B2), Em, aget_nat. destruct (lookup_lt_is_Some_2 (hash t) _ Hm) as [o Ho]. rewrite Ho. cbn [elift ebind].
    assert (h ∈ hash_keys len es) as Hhk by (rewrite Ees', hash_keys_app, Ekeys; apply elem_of_app; left; apply elem_of_app; right; by left).
    assert (h ∉ (mjoin chains).*2) as Hnk.
    { intros Hx2. apply Hkeys in Hx2. apply elem_hash_keys in Hx2 as (y & Hy & _).
      - rewrite Huk in Hy. apply Hkpre. by apply (list_elem_of_fmap_2' _ _ (k, y)).
      - rewrite Ees in keys_ok. by apply Forall_app in keys_ok as [? _]. }
    destruct (lookup_lt_is_Some_2 chains (main_pos (hash t) h)) as [ch Hch]; [rewrite (hi_size _ _ _ Hh); done|].
    assert (forall z, 1 <= z <= len -> KInt z ∈ es.*1 -> KInt z ∈ pre.*1 <-> KInt z ∈ (pre ++ [(k, x)]).*1) as Hdone.
    { intros z Hz _. rewrite fmap_app. cbn. rewrite elem_of_app, list_elem_of_singleton. split; [by left|]. intros [?|E]; [done|]. exfalso.
      rewrite <- E in Huk. destruct h as [z'|]; [|done]. cbn in Huk. injection Huk as ->.
      apply elem_hash_keys in Hhk as (_ & _ & E2); [|done]. unfold hash_key, place in E2. cbn in E2.
      rewrite Z.gtb_ltb, (proj2 (Z.ltb_lt _ _)), (proj2 (Z.leb_le _ _)) in E2 by lia. done. }
    destruct o as [n|].
    + destruct (IH (pre ++ [(k, x)]) c0 t chains Ees') as (c2 & t2 & ch2 & E & Hst2 & P2 & L2).
      { split; rewrite ?Ekeys; try done.
        - by apply (building_done _ (fun z => KInt z ∈ pre.*1)).
        - intros k' [Hk'|Hk']%elem_of_app; [by apply Hmain|]. apply list_elem_of_singleton in Hk' as ->. intros Hemp.
          pose proof (hi_occupied _ _ _ Hh _ _ Ho) as Hocc. apply list_elem_of_fmap in Hocc as ([s k2] & Es & Hocc). cbn in Es. subst s.
          destruct (of_chain _ _ Hocc) as (j & chj & Hj & Hin2). destruct (Hsing j chj Hj) as [-> |[k3 ->]]; [by apply elem_of_nil in Hin2|].
          apply list_elem_of_singleton in Hin2. injection Hin2 as Ej _. rewrite Ej in Hemp. congruence.
        - intros k' Hk'. apply elem_of_app. left. by apply Hkeys. }
      exists c2, t2, ch2. split_and!; [done| |done|done]. apply (stepped_trans _ c0); [|done]. by split_and!.
    + assert (chains !! main_pos (hash t) h = Some []) as Hemp.
      { rewrite Hch. destruct (Hsing _ _ Hch) as [-> |[k3 ->]]; [done|]. destruct (hi_linked _ _ _ Hh _ _ Hch) as [(n & Hn & _) _]. congruence. }
      destruct (step_main c0 _ t chains h x ky kt Hb0) as (u & c1 & c2 & t2 & E1 & E2 & Hst & Hb2 & Hp & Hl2 & Hh2); [by rewrite Huk|done..|].
      rewrite E1. cbn [ebind eret]. rewrite E2. cbn [elift ebind].
      destruct (IH (pre ++ [(k, x)]) c2 t2 (<[main_pos (hash t) h := [(main_pos (hash t) h, h)]]> chains) Ees') as (c3 & t3 & ch3 & E & Hst3 & P3 & L3).
      { split; rewrite ?Ekeys; [by apply (building_done _ (fun z => KInt z ∈ pre.*1))|exact Hh2| | |].
        - intros j c' Hj. destruct (decide (j = main_pos (hash t) h)) as [-> |Hne].
          + rewrite list_lookup_insert_eq in Hj by (by apply lookup_lt_Some in Hch). injection Hj as <-. right. by exists h.
          + rewrite list_lookup_insert_ne in Hj by done. by apply Hsing.
        - intros k' Hk'. rewrite (main_pos_length (hash t)) by done. destruct (decide (main_pos (hash t) k' = main_pos (hash t) h)) as [-> |Hne].
          + rewrite list_lookup_insert_eq by (by apply lookup_lt_Some in Hch). done.
          + rewrite list_lookup_insert_ne by done. apply elem_of_app in Hk' as [Hk'|Hk']; [by apply Hmain|]. apply list_elem_of_singleton in Hk' as ->. done.
        - intros k' Hk'. rewrite Hp in Hk'. cbn in Hk'. apply elem_of_app. apply elem_of_cons in Hk' as [-> |Hk']; [right; by left|left; by apply Hkeys]. }
      exists c3, t3, ch3. split_and!; [done| |done|congruence]. apply (stepped_trans _ c0); [by split_and!|]. by apply (stepped_trans _ c2).
Qed.

(** The second pass: the other keys are chained behind. *)
Definition heads (chains : list (list (nat * hkey))) (i : nat) (k : hkey) : Prop := exists rest, chains !! i = Some ((i, k) :: rest).

Record pass2 (pre : list (lkey * lval)) (c : context) (t : table) (chains : list (list (nat * hkey))) : Prop := {
  p2_build : building c (fun z => KInt z ∈ es.*1) t chains;
  p2_hinv : hinv (strings c) (hash t) chains;
  p2_length : length (hash t) = length (hash_keys len es);
  p2_main : forall k, k ∈ hash_keys len es -> exists k0, heads chains (main_pos (hash t) k) k0;
  p2_keys : forall k, k ∈ (mjoin chains).*2 -> k ∈ hash_keys len pre \/ heads chains (main_pos (hash t) k) k;
  p2_done : forall k, k ∈ hash_keys len pre -> k ∈ (mjoin chains).*2
}.

Lemma pass1_pass2 c t chains : pass1 es c t chains -> length (hash t) = length (hash_keys len es) -> pass2 [] c t chains.
Proof.
  intros [H1 H2 H3 H4 H5] Hl. split; try done.
  - intros k Hk. specialize (H4 k Hk). destruct (main_pos_ok _ _ _ k H2) as [_ Hm]. destruct (lookup_lt_is_Some_2 chains (main_pos (hash t) k)) as [ch Hch]; [by rewrite (hi_size _ _ _ H2)|].
    destruct (H3 _ _ Hch) as [-> |[k0 ->]]; [done|]. exists k0. by exists [].
  - intros k Hk. right. apply list_elem_of_fmap in Hk as ([s k'] & -> & Hk). cbn. destruct (main_chain _ _ _ _ _ H2 Hk) as (ch & Hch & Hin).
    destruct (H3 _ _ Hch) as [-> |[k0 ->]]; [by apply elem_of_nil in Hin|]. apply list_elem_of_singleton in Hin as [= Es <-]. by exists [].
  - intros k Hk. by apply elem_of_nil in Hk.
Qed.

Lemma pass2_ok suf : forall pre c t chains, es = pre ++ suf -> pass2 pre c t chains ->
  exists c' t' chains', fillcolliding (convtable d) p suf c = eret c' /\ stepped c c' /\ pass2 es c' t' chains'.
Proof.
  induction suf as [|[k x] suf IH]; intros pre c t chains Ees P.
  { rewrite app_nil_r in Ees. subst pre. exists c, t, chains. split_and!; done. }
  destruct P as [Hb Hh Hlh Hmain Hkeys Hdone]. pose proof Hb as [B1 B2 B3 B4].
  assert ((k, x) ∈ es) as Hin by (rewrite Ees; apply elem_of_app; right; left).
  pose proof (proj1 (Forall_forall _ _) Hwf _ Hin) as [Hk Hx]. cbn [fst snd] in Hk, Hx.
  assert (k ∉ pre.*1) as Hkpre.
  { rewrite Ees, fmap_app in Hes. cbn in Hes. apply NoDup_app in Hes as (_ & Hdis & _). intros Hkp. apply (Hdis k Hkp). by left. }
  assert (es = (pre ++ [(k, x)]) ++ suf) as Ees' by (by rewrite <- app_assoc).
  pose proof (ishashkey_ok c p t len k B1 (proj1 (tk_sizearray _ _ _ _ _ _ _ B2)) B3 Hk) as Hish. cbn [fillcolliding].
  assert (hash_keys len (pre ++ [(k, x)]) = hash_keys len pre ++ match place len k with inl _ => [] | inr h => [h] end) as Ekeys.
  { rewrite hash_keys_app. f_equal. unfold hash_keys. cbn [omap list_omap fst]. unfold hash_key. by destruct (place len k). }
  destruct (place len k) as [z|h].
  - destruct Hish as (-> & -> & Hz). cbn [elift ebind eret]. apply (IH (pre ++ [(KInt z, x)]) c t chains Ees').
    rewrite app_nil_r in Ekeys. split; rewrite ?Ekeys; done.
  - destruct Hish as (Huk & ky & kt & ss & -> & Hp1 & Hp2 & Hden). cbn [elift ebind tbls]. rewrite B1. cbn [elift ebind].
    set (c0 := Ctx (tbls c) ss). assert (building c0 (fun z => KInt z ∈ es.*1) t chains) as Hb0 by (by apply building_strings).
    pose proof (hinv_prefix _ ss _ _ Hp1 Hh) as Hh0. destruct (main_pos_ok _ _ _ h Hh0) as [Em Hm].
    assert (h ∈ hash_keys len es) as Hhk by (rewrite Ees', hash_keys_app, Ekeys; apply elem_of_app; left; apply elem_of_app; right; by left).
    destruct (Hmain h Hhk) as (k0 & rest & Hch). set (i := main_pos (hash t) h) in *.
    destruct (hi_linked _ _ _ Hh0 _ _ Hch) as [(m & Hmn & Hdm & _) _].
    rewrite (tk_sizehash _ _ _ _ _ _ _ B2), Em, aget_nat, Hmn. cbn [mjoin option_join elift ebind].
    assert ((keytype m =? kt) && (key m =? ky) = bool_decide (k0 = h)) as ->.
    { pose proof (Hden (v m) (next m) (nocolliding m)) as [_ Hd2]. destruct Hdm as [_ Hd1]. cbn [keytype key] in Hd2.
      destruct k0 as [z0|s0], h as [z1|s1]; destruct Hd1 as [-> Hd1], Hd2 as [-> Hd2]; cbn [Z.eqb KEYTYPE_INTEGER KEYTYPE_STRING andb]; try done.
      - subst z0 z1. destruct (Z.eqb_spec (key m) ky) as [-> |]; [by rewrite bool_decide_eq_true_2|rewrite bool_decide_eq_false_2; congruence].
      - destruct (Z.eqb_spec (key m) ky) as [E|E].
        + rewrite E in Hd1. pose proof (names_inj _ _ _ _ Hd1 Hd2) as ->. by rewrite bool_decide_eq_true_2.
        + rewrite bool_decide_eq_false_2; [done|]. intros [= ->]. apply E. by apply (names_unique ss _ _ s1). }
    case_bool_decide as E0.
    + subst k0. destruct (IH (pre ++ [(k, x)]) c0 t chains Ees') as (c2 & t2 & ch2 & E & Hst2 & P2).
      { split; rewrite ?Ekeys; try done.
        - intros k' Hk'. destruct (Hkeys k' Hk') as [?|?]; [left; apply elem_of_app; by left|by right].
        - intros k' [Hk'|Hk']%elem_of_app; [by apply Hdone|]. apply list_elem_of_singleton in Hk' as ->.
          apply (list_elem_of_fmap_2' _ _ (i, h)); [|done]. apply (in_chain _ _ _ _ Hch). by left. }
      exists c2, t2, ch2. split_and!; [done| |done]. apply (stepped_trans _ c0); [|done]. by split_and!.
    + assert (h ∉ (mjoin chains).*2) as Hnk.
      { intros Hx2. apply Hkeys in Hx2 as [Hx2|[rest' Hx2]].
        - apply elem_hash_keys in Hx2 as (y & Hy & _).
          + rewrite Huk in Hy. apply Hkpre. by apply (list_elem_of_fmap_2' _ _ (k, y)).
          + rewrite Ees in keys_ok. by apply Forall_app in keys_ok as [? _].
        - fold i in Hx2. rewrite Hch in Hx2. by injection Hx2 as ->. }
      assert (length (mjoin chains) < length (hash t))%nat as Hroom.
      { rewrite Hlh, <- (length_fmap snd (mjoin chains)). assert (length (h :: (mjoin chains).*2) <= length (hash_keys len es))%nat as Hb'; [|cbn in Hb'; lia].
        apply submseteq_length, NoDup_submseteq.
        - apply NoDup_cons. split; [done|apply Hh].
        - intros y [-> |Hy]%elem_of_cons; [done|by apply B2]. }
      destruct (room _ _ _ Hh Hroom) as (e0 & He0). destruct (empty_slot_ok (hash t) 0) as (e & Ee & He); [by exists e0|].
      rewrite Ee, Z.add_0_l. cbn [elift ebind].
      destruct (step_coll c0 _ t chains h x ky kt m k0 rest e Hb0) as (c1 & u & c2 & c3 & t3 & E1 & E2 & E3 & Hst & Hb3 & Hp & Hl3 & Hh3); [by rewrite Huk|done..|].
      fold i in E1, E3, Hb3, Hp, Hh3. rewrite E1. cbn [elift ebind]. rewrite E2. cbn [eret ebind]. rewrite E3. cbn [elift ebind].
      pose proof (lookup_lt_Some _ _ _ Hch) as Hic.
      assert (forall j k1, heads chains j k1 -> heads (<[i := (i, k0) :: (e, h) :: rest]> chains) j k1) as Hheads.
      { intros j k1 [r1 Hr1]. destruct (decide (j = i)) as [-> |Hne].
        - rewrite Hch in Hr1. injection Hr1 as <- <-. exists ((e, h) :: rest). by apply list_lookup_insert_eq.
        - exists r1. by rewrite list_lookup_insert_ne. }
      destruct (IH (pre ++ [(k, x)]) c3 t3 (<[i := (i, k0) :: (e, h) :: rest]> chains) Ees') as (c4 & t4 & ch4 & E & Hst4 & P4).
      { split; rewrite ?Ekeys; [done|exact Hh3|congruence| | |].
        - intros k' Hk'. rewrite (main_pos_length (hash t)) by done. destruct (Hmain k' Hk') as (k1 & Hk1). exists k1. by apply Hheads.
        - intros k' Hk'. rewrite (main_pos_length (hash t)) by done. rewrite Hp in Hk'. cbn in Hk'. apply elem_of_cons in Hk' as [-> |Hk'].
          + left. apply elem_of_app. right. by left.
          + destruct (Hkeys k' Hk') as [?|?]; [left; apply elem_of_app; by left|right; by apply Hheads].
        - intros k' Hk'. rewrite Hp. cbn. apply elem_of_cons. apply elem_of_app in Hk' as [Hk'|Hk']; [right; by apply Hdone|left; by apply list_elem_of_singleton in Hk']. }
      exists c4, t4, ch4. split_and!; [done| |done]. apply (stepped_trans _ c0); [by split_and!|]. by apply (stepped_trans _ c3).
Qed.

Lemma pass2_complete c t chains : pass2 es c t chains -> complete len es t chains.
Proof.
  intros [H1 H2 H3 H4 H5 H6]. split; [|done]. apply NoDup_Permutation; [apply H2|by apply hash_keys_nodup|].
  intros k. split; [by apply H1|by apply H6].
Qed.

(** The whole table when there are no keys for a hash. *)
Lemma rawget_ok i : match rawget es i with Some x => (KInt i, x) ∈ es | None => KInt i ∉ es.*1 end.
Proof.
  clear -es. unfold rawget. induction es as [|[k x] l IH]; [by apply not_elem_of_nil|]. cbn [find fst].
  destruct (match k with KInt z' => z' =? i | _ => false end) eqn:E.
  - cbn. destruct k as [z| | | |]; try done. apply Z.eqb_eq in E as ->. by left.
  - destruct (find _ l) as [[k' x']|]; cbn in *; [by right|]. intros [<-|Hin]%elem_of_cons; [by rewrite Z.eqb_refl in E|done].
Qed.

Lemma fillarray_ok n : forall i c t, building c (fun z => z < i) t [] -> 1 <= i -> i + Z.of_nat n = len + 1 -> hash t = [] ->
  exists c' t', fillarray (convtable d) p es n i c = eret c' /\ stepped c c' /\ building c' (fun _ => True) t' [] /\ hash t' = [].
Proof.
  induction n as [|n IH]; intros i c t Hb Hi Hn Hh.
  - exists c, t. split_and!; [done|by split_and!| |done]. apply (building_done _ (fun z => z < i)); [|done]. intros z Hz _. split; [done|lia].
  - cbn [fillarray]. pose proof (rawget_ok i) as Hg. destruct (rawget es i) as [x|].
    + destruct (step_array c _ t [] i x Hb) as (c1 & t1 & -> & Hs1 & Hb1 & Eh); [lia|done|lia| |].
      { by apply (proj1 (Forall_forall _ _) Hwf) in Hg as [_ ?]. }
      cbn [ebind eret]. destruct (IH (i + 1) c1 t1) as (c2 & t2 & E & Hs2 & Hb2 & Eh2); [|lia|lia|congruence|].
      * apply (building_done _ (fun y => y < i \/ y = i)); [|done]. intros; lia.
      * exists c2, t2. split_and!; [done| |done|done]. by apply (stepped_trans _ c1).
    + pose proof Hb as [B1 B2 _ _]. destruct (tk_sizearray _ _ _ _ _ _ _ B2) as [_ Ha].
      assert (array t !! Z.to_nat (i - 1) = Some None) as Hnone.
      { destruct (lookup_lt_is_Some_2 (array t) (Z.to_nat (i - 1))) as [o Ho]; [lia|].
        pose proof (tk_array _ _ _ _ _ _ _ B2 i o ltac:(lia) Ho) as Hc. destruct o; [|done]. destruct Hc as [Hc _]. lia. }
      assert (setarray (convtable d) p c None i = eret c) as ->.
      { unfold setarray. cbn [ebind eret]. rewrite B1. cbn [elift ebind]. rewrite aset_Some by lia. rewrite list_insert_id by done. cbn [elift ebind].
        unfold set_tbl. replace (Table _ _ _ _) with t by (by destruct t). rewrite list_insert_id by done. by destruct c. }
      cbn [ebind eret]. apply (IH (i + 1) c t); [|lia|lia|done].
      apply (building_done _ (fun z => z < i)); [|done]. intros z Hz Hz'. split; [lia|]. intros ?. destruct (decide (z = i)) as [->|]; [done|lia].
Qed.

Lemma building_init c n : length (tbls c) = S p -> NoDup (strings c) ->
  let t := Table len (replicate (Z.to_nat len) None) (Z.of_nat n) (replicate n None) in
  building (set_tbl c p t) (fun _ => False) t (replicate n []).
Proof.
  intros Hl Hn t. split.
  - cbn. apply list_lookup_insert_eq. lia.
  - split.
    + cbn. by rewrite length_replicate.
    + cbn. by rewrite length_replicate.
    + intros z o Hz [-> _]%lookup_replicate. naive_solver.
    + cbn. destruct n as [|n]; [by left|]. right. apply hinv_init. lia.
    + intros s k m Hk. rewrite mjoin_nils in Hk. by apply elem_of_nil in Hk.
    + intros k Hk. rewrite mjoin_nils in Hk. by apply elem_of_nil in Hk.
  - done.
  - exists ((fun _ => []) <$> slots t). cbn [set_tbl tbls]. rewrite length_insert, Hl, Nat.sub_diag. split.
    + apply Forall2_fmap_r, Forall_Forall2_diag, Forall_forall. intros o Ho.
      assert (o = None) as ->; [|done]. unfold slots in Ho. cbn [t array hash] in Ho.
      rewrite fmap_replicate in Ho. apply elem_of_app in Ho as [[? _]%elem_of_replicate|[? _]%elem_of_replicate]; done.
    + replace ((λ _ : option value, []) <$> slots t) with (replicate (length (slots t)) (@nil nat)) by (generalize (slots t) as l; induction l as [|o l IH]; cbn; congruence). by rewrite mjoin_nils.
Qed.

Lemma convtable_builds c : length (tbls c) = S p -> NoDup (strings c) ->
  exists c' t chains, convtable (S d) p len es c = eret c' /\ stepped c c' /\ building c' (fun _ => True) t chains /\ complete len es t chains.
Proof.
  intros Hl Hn. cbn [convtable]. rewrite (countsize_ok es len keys_ok). cbn [ebind eret].
  assert (forall t, stepped c (set_tbl c p t)) as Hset by (intros t; apply stepped_set; [lia|by split]).
  destruct (hash_keys len es) as [|h hs] eqn:Eh.
  - cbn [length Z.of_nat Z.eqb]. pose proof (building_init c 0 Hl Hn) as Hb. cbn [replicate] in Hb. change (Z.of_nat 0) with 0 in Hb.
    apply (building_done _ _ (fun z => z < 1)) in Hb; [|intros z Hz _; lia].
    destruct (fillarray_ok (Z.to_nat len) 1 _ _ Hb) as (c' & t' & E & Hs & Hb' & Eh'); [lia|lia|done|].
    exists c', t', []. split_and!; [done| |done|by unfold complete; rewrite Eh, Eh']. by eapply stepped_trans.
  - set (n := S (length hs)). assert (zlen (h :: hs) = Z.of_nat n) as -> by done. rewrite (proj2 (Z.eqb_neq _ _)) by lia. rewrite Nat2Z.id.
    pose proof (building_init c n Hl Hn) as Hb. cbv zeta in Hb. set (t0 := Table _ _ _ _) in *.
    destruct (pass1_ok es [] (set_tbl c p t0) t0 (replicate n [])) as (c1 & t1 & ch1 & E1 & Hs1 & P1 & L1); [done| |].
    { split.
      - apply (building_done _ (fun _ => False)); [|done]. intros z _ _. split; [done|]. cbn. intros Hz. by apply elem_of_nil in Hz.
      - apply (hinv_init _ n). lia.
      - intros j ch [-> _]%lookup_replicate. by left.
      - intros k Hk. by apply elem_of_nil in Hk.
      - intros k Hk. rewrite mjoin_nils in Hk. by apply elem_of_nil in Hk. }
    rewrite E1. cbn [ebind eret].
    destruct (pass2_ok es [] c1 t1 ch1) as (c2 & t2 & ch2 & E2 & Hs2 & P2); [done|apply pass1_pass2; [done|]|].
    { rewrite L1, Eh. cbn. by rewrite length_replicate. }
    exists c2, t2, ch2. split_and!; [done| | |by apply (pass2_complete c2 t2)].
    + apply (stepped_trans _ (set_tbl c p t0)); [done|]. by apply (stepped_trans _ c1).
    + apply (building_done _ (fun z => KInt z ∈ es.*1)); [done|]. apply P2.
Qed.

End Build.

Lemma conv_spec_all d : conv_spec d.
Proof.
  induction d as [|d IH]; intros len es c p Hx Hn Hl; [done|]. destruct Hx as (Hlen & Hes & Hwf).
  destruct (convtable_builds d p len es IH Hlen Hes Hwf c Hl Hn) as (c' & t & chains & E & (S1 & S2 & S3) & [B1 B2 B3 (ls & Hf & Hls)] & Hcomp).
  pose proof (lookup_lt_Some _ _ _ B1) as Hp.
  exists c', (mjoin ls ++ [p]). split_and!; [done..| | |].
  - split; [done|]. by exists t, chains.
  - rewrite delete_tbl_S, B1. cbn [mbind option_bind]. by rewrite (proj2 (mapM_Some _ _ _) Hf).
  - rewrite Hls. replace (length (tbls c') - p)%nat with (S (length (tbls c') - S p)) by lia. cbn [seq]. by rewrite Permutation_app_comm.
Qed.
