(* ===== verification/LshareRead.v ===== *)
(** * Shared tables: the copy answers like the table

    [lindexconf] and [lnextkey] on what [lnewconf] has built
    ([sharedata_copy]). *)

From S2P Require Import Prelude Lshare LshareOk.

#[local] Open Scope eff_scope.

(** ** Reading *)

(** A key as it is pushed, and the key that Lua passes back. *)
Definition key_of (x : pushed) : option lkey := match x with PInt z => Some (KInt z) | PStr s => Some (KStr s) | _ => None end.

(** A loop over the keys with [lnextkey]. *)
Definition cont (walk : option lkey -> eff (list lkey)) (r : option pushed) : eff (list lkey) :=
  match r with None => eret [] | Some x => let* k := elift (key_of x) in let* ks := walk (Some k) in eret (k :: ks) end.

Fixpoint walk (fuel : nat) (c : context) (p : nat) (k : option lkey) : eff (list lkey) :=
  match fuel with
  | O => None
  | S fuel => let* r := lnextkey c p k in cont (walk fuel c p) r
  end.

(** The table at [p] answers like the Lua table: its length, the value of each
    key, nothing or nil for other keys, and each key once in a loop.  [same]
    compares values. *)
Record reads (same : pushed -> lval -> Prop) (c : context) (p : nat) (len : Z) (es : list (lkey * lval)) : Prop := {
  rd_len : llen c p = Some len;
  rd_hashlen : lhashlen c p = Some (zlen (hash_keys len es));
  rd_present : forall k x, (k, x) ∈ es -> exists r, lindexconf c p k = eret (Some r) /\ same r x;
  rd_absent : forall k, key_ok k -> k ∉ es.*1 -> lindexconf c p k = eret None \/ lindexconf c p k = eret (Some PNil);
  rd_walk : exists ks, walk (S (length es)) c p None = eret ks /\ ks ≡ₚ es.*1
}.

Fixpoint same (d : nat) (c : context) (r : pushed) (x : lval) : Prop :=
  match x, r with
  | LInt z, PInt z' => z' = z
  | LReal n, PReal n' => n' = n
  | LBool b, PBool b' => b' = b
  | LStr s, PStr s' => s' = s
  | LTable len es, PTable p => match d with O => False | S d => reads (same d c) c p len es end
  | _, _ => False
  end.

Lemma pushvalue_ok (R : pushed -> lval -> Prop) d lo c u x : shares d lo c u x ->
  (forall p len es, x = LTable len es -> u = VTable p -> R (PTable p) x) -> (forall r, same 0 c r x -> R r x) ->
  exists r, pushvalue c (Some u) = Some r /\ R r x.
Proof.
  intros Hs Ht HR. destruct x, u; try (by destruct d); cbn [pushvalue].
  - eexists. split; [done|]. apply HR. by destruct d.
  - eexists. split; [done|]. apply HR. by destruct d.
  - assert (names (strings c) i s) as Hn by by destruct d. unfold tostring. rewrite Hn. cbn [mbind option_bind]. eexists. split; [done|]. by apply HR.
  - eexists. split; [done|]. apply HR. by destruct d.
  - eexists. split; [done|]. by eapply Ht.
Qed.

Section Read.
Context (R : value -> lval -> Prop) (c : context) (p : nat) (t : table) (len : Z) (es : list (lkey * lval)) (chains : list (list (nat * hkey))).
Context (Ht : tbls c !! p = Some t) (Htab : table_ok R (strings c) len es (fun _ => True) t chains) (Hcomp : complete len es t chains).
Context (Hlen : 0 <= len < 2 ^ 31) (Hes : NoDup es.*1) (Hkeys : Forall (fun e => key_ok e.1) es).

Lemma hash_length : length (hash t) = length (hash_keys len es) /\ (hash t = [] \/ hinv (strings c) (hash t) chains /\ filled (hash t)).
Proof.
  destruct Hcomp as [Hk Hl]. split; [done|]. destruct (tk_hash _ _ _ _ _ _ _ Htab) as [[E1 E2]|Hh]; [by left|right].
  split; [done|]. apply (full_filled _ _ _ Hh). by rewrite Hl, <- Hk, length_fmap.
Qed.

Lemma unkey_place k h : key_ok k -> place len k = inr h -> unkey h = k.
Proof. intros Hk E. apply (hash_key_unkey len k h Hk). unfold hash_key. by rewrite E. Qed.

(** A key of Lua is looked up at its place. *)
Lemma getkey_ok k : key_ok k -> getkey t k = eret (match place len k with inl z => inl z | inr h => inr (query h) end).
Proof.
  intros Hk. destruct (tk_sizearray _ _ _ _ _ _ _ Htab) as [Hs _]. destruct k as [z|s| | |]; try done; cbn [getkey place key_ok] in *.
  - rewrite i32_id, Hs by lia. by destruct ((z >? 0) && (z <=? len)).
  - by rewrite calchash_hash.
Qed.

(** What a lookup in the hash finds. *)
Lemma lookup_hash h :
  let '(kh, ky, kt, str) := query h in
  (forall x, (unkey h, x) ∈ es -> h ∈ hash_keys len es -> exists s n, lookup_key c t kh ky kt str = Some (Some (Z.of_nat s)) /\
     hash t !! s = Some (Some n) /\ R (v n) x /\ (s, h) ∈ mjoin chains) /\
  (h ∉ hash_keys len es -> lookup_key c t kh ky kt str = Some None).
Proof.
  destruct hash_length as [Hl [E|[Hh Hf]]].
  - assert (hash_keys len es = []) as Ek by (rewrite E in Hl; by destruct (hash_keys len es)). destruct (query h) as [[[kh ky] kt] str]. split.
    + intros x _ Hx. rewrite Ek in Hx. by apply elem_of_nil in Hx.
    + intros _. unfold lookup_key. by rewrite (tk_sizehash _ _ _ _ _ _ _ Htab), E.
  - pose proof (lookup_key_ok c t chains h Hh Hf (tk_sizehash _ _ _ _ _ _ _ Htab)) as Hlk. destruct (query h) as [[[kh ky] kt] str].
    destruct Hlk as [H1 H2]. destruct Hcomp as [Hk _]. split.
    + intros x Hx Hhk. rewrite <- Hk in Hhk. apply list_elem_of_fmap in Hhk as ([s h'] & -> & Hs). cbn [snd] in *.
      destruct (hinv_node _ _ _ _ _ Hh Hs) as (n & Hn & _). exists s, n. split_and!; [by apply H1|done| |done].
      destruct (tk_vals _ _ _ _ _ _ _ Htab s h' n Hs Hn) as (x' & Hx' & Hr).
      apply list_elem_of_lookup in Hx as [i Hi]. apply list_elem_of_lookup in Hx' as [j Hj].
      assert (i = j) as ->; [|congruence]. apply (NoDup_lookup _ _ _ (unkey h') Hes); by rewrite list_lookup_fmap, ?Hi, ?Hj.
    + intros Hn. apply H2. by rewrite Hk.
Qed.

Lemma place_hash k x h : (k, x) ∈ es -> place len k = inr h -> h ∈ hash_keys len es.
Proof. intros Hx Hp. unfold hash_keys. apply list_elem_of_omap. exists (k, x). split; [done|]. cbn. unfold hash_key. by rewrite Hp. Qed.

Lemma place_inl k z : place len k = inl z -> k = KInt z /\ 1 <= z <= len.
Proof.
  unfold place. destruct k as [z'|s| | |]; try done. rewrite Z.gtb_ltb. destruct (Z.ltb_spec 0 z'), (Z.leb_spec z' len); try done. intros [= <-]. split; [done|lia].
Qed.

Lemma array_elem z : 1 <= z <= len -> exists o, aget (array t) (z - 1) = Some o /\
  match o with Some u => exists x, (KInt z, x) ∈ es /\ R u x | None => KInt z ∉ es.*1 end.
Proof.
  intros Hz. destruct (tk_sizearray _ _ _ _ _ _ _ Htab) as [_ Ha]. destruct (aget_is_Some (array t) (z - 1)) as [o Ho]; [lia|]. exists o. split; [done|].
  pose proof (tk_array _ _ _ _ _ _ _ Htab z o Hz) as Hc. unfold aget in Ho. rewrite (proj2 (Z.leb_le _ _)) in Ho by lia. specialize (Hc Ho).
  destruct o as [u|]; [by destruct Hc|]. naive_solver.
Qed.

Lemma lindexconf_present (S : pushed -> lval -> Prop) k x : (forall u, R u x -> exists r, pushvalue c (Some u) = Some r /\ S r x) -> (k, x) ∈ es ->
  exists r, lindexconf c p k = eret (Some r) /\ S r x.
Proof.
  intros HS Hx. pose proof (proj1 (Forall_forall _ _) Hkeys _ Hx) as Hk. cbn [fst] in Hk. unfold lindexconf. rewrite Ht. cbn [elift ebind].
  rewrite getkey_ok by done. cbn [ebind eret]. destruct (place len k) as [z|h] eqn:Ep.
  - apply place_inl in Ep as [-> Hz]. destruct (array_elem z Hz) as (o & -> & Ho). cbn [elift ebind]. destruct o as [u|].
    + destruct Ho as (x' & Hx' & Hu). assert (x' = x) as ->.
      { apply list_elem_of_lookup in Hx as [i Hi]. apply list_elem_of_lookup in Hx' as [j Hj].
        assert (i = j) as ->; [|congruence]. apply (NoDup_lookup _ _ _ (KInt z) Hes); by rewrite list_lookup_fmap, ?Hi, ?Hj. }
      destruct (HS u Hu) as (r & -> & Hr). exists r. by split.
    + exfalso. apply Ho. by apply (list_elem_of_fmap_2' _ _ (KInt z, x)).
  - pose proof (lookup_hash h) as Hh. pose proof (unkey_place k h Hk Ep) as <-. destruct (query h) as [[[kh ky] kt] str].
    destruct Hh as [Hh _]. destruct (Hh x Hx (place_hash _ x h Hx Ep)) as (s & n & -> & Hn & Hu & _). cbn [elift ebind]. rewrite aget_nat, Hn. cbn [mjoin option_join elift ebind].
    destruct (HS _ Hu) as (r & -> & Hr). exists r. by split.
Qed.

Lemma lindexconf_absent k : key_ok k -> k ∉ es.*1 -> lindexconf c p k = eret None \/ lindexconf c p k = eret (Some PNil).
Proof.
  intros Hk Hx. unfold lindexconf. rewrite Ht. cbn [elift ebind]. rewrite getkey_ok by done. cbn [ebind eret]. destruct (place len k) as [z|h] eqn:Ep.
  - apply place_inl in Ep as [-> Hz]. destruct (array_elem z Hz) as (o & -> & Ho). cbn [elift ebind]. destruct o as [u|]; [|by right].
    destruct Ho as (x & Hx' & _). exfalso. apply Hx. by apply (list_elem_of_fmap_2' _ _ (KInt z, x)).
  - left. pose proof (lookup_hash h) as Hh. pose proof (unkey_place k h Hk Ep) as <-. destruct (query h) as [[[kh ky] kt] str].
    destruct Hh as [_ Hh]. rewrite Hh; [done|]. intros (x & Hx' & _)%elem_hash_keys; [|done]. apply Hx. by apply (list_elem_of_fmap_2' _ _ (unkey h, x)).
Qed.

(** *** The loop over the keys *)

Definition push_key (h : hkey) : pushed := match h with HInt z => PInt z | HStr s => PStr s end.
Definition at_slot (s : nat) (h : hkey) : Prop := (s, h) ∈ mjoin chains.
Definition array_keys (i : Z) (m : Z) : list Z := filter (fun z => KInt z ∈ es.*1) (seqZ i m).

Lemma slot_key s : (s < length (hash t))%nat -> exists n h, hash t !! s = Some (Some n) /\ at_slot s h /\ pushkey c n = Some (push_key h).
Proof.
  destruct hash_length as [_ [E|[Hh Hf]]]; intros Hs; [rewrite E in Hs; cbn in Hs; lia|]. destruct (Hf s Hs) as (n & Hn).
  pose proof (hi_occupied _ _ _ Hh s n Hn) as Ho. apply list_elem_of_fmap in Ho as ([s' h] & E & Ho). cbn in E. subst s'. exists n, h.
  split_and!; [done|done|]. destruct (hinv_node _ _ _ _ _ Hh Ho) as (n' & Hn' & [_ Hd]). rewrite Hn in Hn'. injection Hn' as <-. unfold pushkey.
  destruct h as [z|str]; destruct Hd as [-> Hd]; cbn [Z.eqb KEYTYPE_INTEGER KEYTYPE_STRING]; [by rewrite Hd|]. unfold tostring. unfold names in Hd. by rewrite Hd.
Qed.

Lemma slot_facts s h : at_slot s h -> hinv (strings c) (hash t) chains /\ filled (hash t) /\ (s < length (hash t))%nat /\ key_ok (unkey h) /\ place len (unkey h) = inr h.
Proof.
  intros Hs. destruct hash_length as [Hl [E|[Hh Hf]]].
  - destruct Hcomp as [Hk _]. exfalso. assert (h ∈ (mjoin chains).*2) as Hx by (by apply (list_elem_of_fmap_2' _ _ (s, h))).
    rewrite Hk in Hx. rewrite E in Hl. destruct (hash_keys len es); [by apply elem_of_nil in Hx|done].
  - destruct (hinv_node _ _ _ _ _ Hh Hs) as (n & Hn & _). apply lookup_lt_Some in Hn.
    assert (h ∈ hash_keys len es) as Hx by (apply (tk_keys _ _ _ _ _ _ _ Htab); by apply (list_elem_of_fmap_2' _ _ (s, h))).
    apply elem_hash_keys in Hx as (x & Hx & Hp); [|done]. pose proof (proj1 (Forall_forall _ _) Hkeys _ Hx) as Hk. split_and!; [done..|].
    unfold hash_key in Hp. destruct (place len (unkey h)); congruence.
Qed.

Lemma next_hash s h : at_slot s h -> lnextkey c p (Some (unkey h)) =
  if decide (S s = length (hash t)) then eret None else elift (n ← mjoin (hash t !! S s); x ← pushkey c n; Some (Some x)).
Proof.
  intros Hs. destruct (slot_facts s h Hs) as (Hh & Hf & Hlt & Hk & Hp).
  pose proof (lookup_key_ok c t chains h Hh Hf (tk_sizehash _ _ _ _ _ _ _ Htab)) as Hlk. pose proof (getkey_ok _ Hk) as Hg. rewrite Hp in Hg.
  destruct (query h) as [[[kh ky] kt] str]. destruct Hlk as [Hlk _].
  assert (lnextkey c p (Some (unkey h)) = let* i := elift (lookup_key c t kh ky kt str) in match i with None => eret None | Some i =>
    if i + 1 =? sizehash t then eret None else let* n := elift (mjoin (aget (hash t) (i + 1))) in let* x := elift (pushkey c n) in eret (Some x) end) as ->.
  { unfold lnextkey. rewrite Ht. cbn [elift ebind]. destruct h; cbn [unkey] in *; by rewrite Hg. }
  rewrite (Hlk s Hs). cbn [elift ebind]. rewrite (tk_sizehash _ _ _ _ _ _ _ Htab). replace (Z.of_nat s + 1) with (Z.of_nat (S s)) by lia.
  rewrite aget_nat. destruct (decide (S s = length (hash t))) as [E|E]; [by rewrite E, Z.eqb_refl|]. rewrite (proj2 (Z.eqb_neq _ _)) by lia.
  destruct (mjoin (hash t !! S s)) as [n|]; [|done]. cbn [elift ebind mbind option_bind]. by destruct (pushkey c n).
Qed.

Lemma key_of_push h : key_of (push_key h) = Some (unkey h).
Proof. by destruct h. Qed.

Lemma hash_walk m : forall s h fuel, at_slot s h -> (S s + m = length (hash t))%nat -> (m < fuel)%nat ->
  exists hs, walk fuel c p (Some (unkey h)) = eret (unkey <$> hs) /\ Forall2 at_slot (seq (S s) m) hs.
Proof.
  induction m as [|m IH]; intros s h [|fuel] Hs Hl Hf; try lia; cbn [walk]; rewrite (next_hash s h Hs); case_decide; try lia.
  - exists []. by split.
  - destruct (slot_key (S s)) as (n & h' & Hn & Hs' & Hp); [lia|]. rewrite Hn. cbn [mjoin option_join mbind option_bind]. rewrite Hp. cbn [mbind option_bind elift ebind cont].
    rewrite key_of_push. cbn [elift ebind]. destruct (IH (S s) h' fuel Hs') as (hs & -> & Hhs); [lia|lia|]. exists (h' :: hs). split; [done|]. by constructor.
Qed.

(** The loop over the hash. *)
Lemma first_walk : exists r hs, pushfirsthash c t = Some r /\ Forall2 at_slot (seq 0 (length (hash t))) hs /\
  forall fuel, (length (hash t) <= fuel)%nat -> cont (walk fuel c p) r = eret (unkey <$> hs).
Proof.
  unfold pushfirsthash. rewrite (tk_sizehash _ _ _ _ _ _ _ Htab). destruct (decide (length (hash t) = 0%nat)) as [E|E].
  - rewrite E. cbn. exists None, []. split_and!; try done.
  - rewrite (proj2 (Z.eqb_neq _ _)) by lia. cbn [negb]. destruct (slot_key 0) as (n & h & Hn & Hs & Hp); [lia|]. change 0 with (Z.of_nat 0).
    rewrite aget_nat, Hn. cbn [mjoin option_join mbind option_bind]. rewrite Hp. cbn [mbind option_bind].
    destruct (length (hash t)) as [|m] eqn:El; [done|].
    assert (exists hs, Forall2 at_slot (seq 1 m) hs /\ forall fuel, (m < fuel)%nat -> walk fuel c p (Some (unkey h)) = eret (unkey <$> hs)) as (hs & Hhs & Hw).
    { destruct (hash_walk m 0 h (S m) Hs) as (hs & _ & Hhs); [lia|lia|]. exists hs. split; [done|]. intros fuel Hf.
      destruct (hash_walk m 0 h fuel Hs) as (hs' & -> & Hhs'); [lia|lia|]. do 2 f_equal. destruct hash_length as [_ [E0|[Hh _]]]; [by rewrite E0 in El|].
      clear - Hhs Hhs' Hh. revert hs' Hhs'. induction Hhs as [|s k ss hs Hk _ IH]; intros hs' Hhs'; inversion Hhs'; subst; [done|]. f_equal; [|by apply IH].
      by apply (slot_unique _ _ _ s _ _ Hh). }
    exists (Some (push_key h)), (h :: hs). split_and!; [done|by constructor|]. intros fuel Hf. cbn [cont]. rewrite key_of_push. cbn [elift ebind]. by rewrite Hw by lia.
Qed.

Lemma array_walk m : forall i, 0 <= i -> i + Z.of_nat m = len -> exists r hs, array_or_hash c t i = Some r /\ Forall2 at_slot (seq 0 (length (hash t))) hs /\
  forall fuel, (length (array_keys (i + 1) (len - i)) + length (hash t) <= fuel)%nat ->
    cont (walk fuel c p) r = eret ((KInt <$> array_keys (i + 1) (len - i)) ++ (unkey <$> hs)).
Proof.
  destruct (tk_sizearray _ _ _ _ _ _ _ Htab) as [Hsz _].
  induction m as [|m IH]; intros i Hi Hm.
  - unfold array_keys. replace (len - i) with 0 by lia. cbn [seqZ Z.to_nat seq fmap list_fmap]. unfold array_or_hash. rewrite Hsz. replace (Z.to_nat (len - i)) with O by lia.
    exact first_walk.
  - destruct (IH (i + 1)) as (r & hs & Er & Hhs & Hw); [lia|lia|].
    assert (array_keys (i + 1) (len - i) = (if decide (KInt (i + 1) ∈ es.*1) then [i + 1] else []) ++ array_keys (i + 1 + 1) (len - (i + 1))) as Ek.
    { unfold array_keys. rewrite (seqZ_cons (i + 1)) by lia. replace (Z.pred (len - i)) with (len - (i + 1)) by lia. change (Z.succ (i + 1)) with (i + 1 + 1).
      rewrite filter_cons. by case_decide. }
    destruct (array_elem (i + 1)) as (o & Ho & Hc); [lia|]. replace (i + 1 - 1) with i in Ho by lia.
    assert (array_or_hash c t i = match o with Some _ => Some (Some (PInt (i + 1))) | None => array_or_hash c t (i + 1) end) as ->.
    { unfold array_or_hash. rewrite Hsz. replace (Z.to_nat (len - i)) with (S (Z.to_nat (len - (i + 1)))) by lia. cbn [next_array]. rewrite Ho.
      cbn [mbind option_bind]. by destruct o. }
    rewrite Ek. destruct o as [u|].
    + destruct Hc as (x & Hx & _). rewrite decide_True by (by apply (list_elem_of_fmap_2' _ _ (KInt (i + 1), x))).
      exists (Some (PInt (i + 1))), hs. split_and!; [done|done|]. intros [|fuel] Hf; cbn [length app] in Hf; [lia|]. cbn [cont key_of elift ebind].
      assert (walk (S fuel) c p (Some (KInt (i + 1))) = cont (walk fuel c p) r) as ->.
      { cbn [walk]. unfold lnextkey. rewrite Ht. cbn [elift ebind]. pose proof (proj1 (Forall_forall _ _) Hkeys _ Hx) as Hk. rewrite (getkey_ok (KInt (i + 1)) Hk).
        unfold place. rewrite Z.gtb_ltb, (proj2 (Z.ltb_lt _ _)), (proj2 (Z.leb_le _ _)) by lia. cbn [andb ebind eret]. by rewrite Er. }
      rewrite Hw by lia. done.
    + rewrite decide_False by done. by exists r, hs.
Qed.

Lemma slots_keys hs : Forall2 at_slot (seq 0 (length (hash t))) hs -> hs ≡ₚ hash_keys len es.
Proof.
  intros Hf. destruct Hcomp as [Hk Hl]. pose proof (Forall2_length _ _ _ Hf) as Hlen2. rewrite <- Hk.
  assert (zip (seq 0 (length (hash t))) hs ≡ₚ mjoin chains) as Hp.
  { apply submseteq_length_Permutation.
    - apply NoDup_submseteq.
      + apply (NoDup_fmap_1 fst). rewrite fst_zip by lia. apply NoDup_seq.
      + intros [s h] Hin. clear - Hf Hin. revert Hin. induction Hf as [|s' h' ss hs H _ IH]; cbn; intros Hin; [by apply elem_of_nil in Hin|].
        apply elem_of_cons in Hin as [[= -> ->]|Hin]; [done|by apply IH].
    - rewrite length_zip_with_l_eq by done. rewrite length_seq, Hl, <- Hk. by rewrite length_fmap. }
  rewrite <- Hp. by rewrite snd_zip by lia.
Qed.

Lemma keys_split : es.*1 ≡ₚ (KInt <$> array_keys 1 len) ++ (unkey <$> hash_keys len es).
Proof.
  apply NoDup_Permutation; [done| |].
  - apply NoDup_app. split_and!.
    + apply NoDup_fmap_2; [by intros ? ? [= ->]|]. apply NoDup_filter, NoDup_seqZ.
    + intros k (z & -> & [_ Hz%elem_of_seqZ]%list_elem_of_filter)%list_elem_of_fmap (h & E & Hh)%list_elem_of_fmap.
      apply elem_hash_keys in Hh as (_ & _ & Hh); [|done]. rewrite <- E in Hh. unfold hash_key, place in Hh.
      rewrite Z.gtb_ltb, (proj2 (Z.ltb_lt _ _)), (proj2 (Z.leb_le _ _)) in Hh by lia. done.
    + apply NoDup_fmap_2; [by intros [] [] [= ->]|]. by apply hash_keys_nodup.
  - intros k. rewrite elem_of_app. split.
    + intros Hk. apply list_elem_of_fmap in Hk as ([k' x] & -> & Hx). cbn [fst]. pose proof (proj1 (Forall_forall _ _) Hkeys _ Hx) as Hk.
      destruct (place len k') as [z|h] eqn:Ep.
      * apply place_inl in Ep as [-> Hz]. left. apply list_elem_of_fmap_2, list_elem_of_filter. split; [by apply (list_elem_of_fmap_2' _ _ (KInt z, x))|apply elem_of_seqZ; lia].
      * right. rewrite <- (unkey_place k' h Hk Ep). apply list_elem_of_fmap_2. by apply (place_hash k' x).
    + intros [(z & -> & [Hz _]%list_elem_of_filter)%list_elem_of_fmap|(h & -> & (x & Hx & _)%elem_hash_keys)%list_elem_of_fmap]; [done| |done].
      by apply (list_elem_of_fmap_2' _ _ (unkey h, x)).
Qed.

Lemma walk_ok : exists ks, walk (S (length es)) c p None = eret ks /\ ks ≡ₚ es.*1.
Proof.
  destruct (array_walk (Z.to_nat len) 0) as (r & hs & Er & Hhs & Hw); [lia|lia|]. rewrite Z.sub_0_r in Hw. change (0 + 1) with 1 in Hw.
  exists ((KInt <$> array_keys 1 len) ++ (unkey <$> hs)). split.
  - cbn [walk]. unfold lnextkey. rewrite Ht. cbn [elift ebind]. rewrite Er. cbn [elift ebind]. apply Hw.
    pose proof (Permutation_length keys_split) as Hl. rewrite length_app, !length_fmap in Hl. destruct Hcomp as [_ Hl2]. lia.
  - rewrite (slots_keys hs Hhs). by rewrite <- keys_split.
Qed.

Lemma reads_ok (S : pushed -> lval -> Prop) : (forall k x u, (k, x) ∈ es -> R u x -> exists r, pushvalue c (Some u) = Some r /\ S r x) -> reads S c p len es.
Proof.
  intros HS. destruct (tk_sizearray _ _ _ _ _ _ _ Htab) as [Hs _]. destruct Hcomp as [_ Hl]. split.
  - unfold llen. rewrite Ht. by cbn; rewrite Hs.
  - unfold lhashlen. rewrite Ht. cbn. by rewrite (tk_sizehash _ _ _ _ _ _ _ Htab), Hl.
  - intros k x Hx. apply lindexconf_present; [|done]. intros u. by apply (HS k).
  - apply lindexconf_absent.
  - apply walk_ok.
Qed.

End Read.

Lemma shares_same d : forall c u x, wf d x -> forall lo, shares d lo c u x -> exists r, pushvalue c (Some u) = Some r /\ same d c r x.
Proof.
  induction d as [|d IH]; intros c u x Hx lo Hs; apply (pushvalue_ok _ _ _ _ _ _ Hs).
  - intros p len es -> ->. done.
  - done.
  - intros p len es -> ->. destruct Hs as (_ & t & chains & Ht & Htab & Hc). destruct Hx as (Hlen & Hes & Hwf). cbn [same].
    apply (reads_ok (shares d (S p) c) c p t len es chains Ht Htab Hc Hlen Hes).
    + eapply Forall_impl; [exact Hwf|]. by intros e [? _].
    + intros k x u Hx Hu. apply (IH c u x) with (S p); [|done]. by apply (proj1 (Forall_forall _ _) Hwf) in Hx as [_ ?].
  - intros r Hr. by destruct x, r.
Qed.

(** ** The strings on their stack *)

Lemma place_strings_ok pairs : forall stack,
  NoDup pairs.*2 -> (forall s i, (s, i) ∈ pairs -> 1 <= i <= zlen stack) ->
  exists stack', place_strings pairs stack = Some stack' /\ length stack' = length stack /\
    (forall s i, (s, i) ∈ pairs -> stack' !! Z.to_nat (i - 1) = Some (SString s)) /\
    forall k, (forall s i, (s, i) ∈ pairs -> Z.to_nat (i - 1) <> k) -> stack' !! k = stack !! k.
Proof.
  induction pairs as [|[s i] pairs IH]; intros stack Hn Hi; cbn [place_strings].
  - exists stack. split_and!; try done. by intros s i ?%elem_of_nil.
  - apply NoDup_cons in Hn as [Hni Hn]. pose proof (Hi s i ltac:(by left)) as Hr.
    unfold aset. rewrite (proj2 (Z.leb_le _ _)), (proj2 (Z.ltb_lt _ _)) by lia. cbn [andb mbind option_bind].
    destruct (IH (<[Z.to_nat (i - 1) := SString s]> stack)) as (st & E & El & H1 & H2); [done| |].
    { intros s' i' Hin. rewrite length_insert. apply (Hi s'). by right. }
    exists st. rewrite length_insert in El. split_and!; [done|done| |].
    + intros s' i' [[= -> ->]|Hin]%elem_of_cons; [|by apply H1]. rewrite H2; [apply list_lookup_insert_eq; lia|].
      intros s' i' Hin E'. apply Hni. pose proof (Hi s' i' ltac:(by right)). replace i with i' by lia.
      apply list_elem_of_fmap. by exists (s', i').
    + intros k Hk. rewrite H2 by (intros s' i' Hin; apply (Hk s'); by right).
      apply list_lookup_insert_ne, (Hk s). by left.
Qed.

Lemma stringmap_in c s i : (s, i) ∈ stringmap c <-> exists k, strings c !! k = Some s /\ i = Z.of_nat k + 2.
Proof.
  unfold stringmap. rewrite list_elem_of_lookup. split.
  - intros [k Hk]. rewrite list_lookup_imap in Hk. apply fmap_Some in Hk as (x & Hx & [= -> ->]). by exists k.
  - intros (k & Hk & ->). exists k. by rewrite list_lookup_imap, Hk.
Qed.

Lemma stringmap_nodup c : NoDup (stringmap c).*2.
Proof.
  unfold stringmap. apply NoDup_alt. intros i j x. rewrite !list_lookup_fmap, !list_lookup_imap.
  destruct (strings c !! i), (strings c !! j); cbn; try done. intros [= <-] [= ?]. lia.
Qed.

(** The places of the strings are what [stringindex] gave them, in whatever
    order the map is read. *)
Lemma convert_stringmap_ok c pairs : pairs ≡ₚ stringmap c ->
  convert_stringmap (zlen (strings c) + 1) pairs = Some (SState state_init :: (SString <$> strings c)).
Proof.
  intros Hp. set (n := length (strings c)). unfold convert_stringmap.
  replace (Z.to_nat (Z.of_nat n + 1)) with (S n) by lia. cbn [replicate app].
  rewrite aset_Some by (cbn; lia). cbn [mbind option_bind].
  change (<[Z.to_nat 0 := SState state_init]> (SMap :: SNil :: replicate n SNil ++ [SMap]))
    with (SState state_init :: SNil :: replicate n SNil ++ [SMap]).
  set (stack := SState state_init :: replicate n SNil ++ [SMap]).
  assert (E1 : last (SState state_init :: SNil :: replicate n SNil ++ [SMap]) = Some SMap)
    by (rewrite !app_comm_cons; apply last_snoc).
  assert (E2 : removelast (SState state_init :: SNil :: replicate n SNil ++ [SMap]) = SState state_init :: SNil :: replicate n SNil)
    by (rewrite !app_comm_cons; apply removelast_last).
  rewrite E1, E2. cbn [default from_option id].
  assert (E3 : aset (SState state_init :: SNil :: replicate n SNil) (zlen (SState state_init :: SNil :: replicate n SNil) - 1) SMap = Some stack).
  { change (SNil :: replicate n SNil) with (replicate (S n) SNil). rewrite replicate_S_end.
    rewrite aset_Some by (cbn [length]; rewrite length_app, length_replicate; cbn [length]; lia).
    cbn [length]. rewrite length_app, length_replicate. cbn [length].
    replace (Z.to_nat (Z.of_nat (S (n + 1)) - 1)) with (S n) by lia. f_equal. subst stack.
    change (SState state_init :: <[n := SMap]> (replicate n SNil ++ [SNil]) = SState state_init :: replicate n SNil ++ [SMap]).
    f_equal. rewrite insert_app_r_alt by (rewrite length_replicate; lia). by rewrite length_replicate, Nat.sub_diag. }
  rewrite E3. cbn [mbind option_bind].
  assert (Hin : forall s i, (s, i) ∈ pairs <-> exists k, strings c !! k = Some s /\ i = Z.of_nat k + 2)
    by (intros s i; rewrite Hp; apply stringmap_in).
  assert (Hlen : length stack = S (S n)) by (subst stack; cbn; rewrite length_app, length_replicate; cbn; lia).
  destruct (place_strings_ok pairs stack) as (st & E & El & H1 & H2).
  { rewrite Hp. apply stringmap_nodup. }
  { intros s i (k & Hk & ->)%Hin. apply lookup_lt_Some in Hk. lia. }
  rewrite E. cbn [mbind option_bind]. f_equal. rewrite removelast_firstn_len, El, Hlen. cbn [pred].
  apply list_eq. intros [|k].
  - rewrite lookup_take_lt by lia. rewrite H2; [done|]. intros s i (k & _ & ->)%Hin. lia.
  - change ((SState state_init :: (SString <$> strings c)) !! S k) with ((SString <$> strings c) !! k).
    rewrite list_lookup_fmap. destruct (strings c !! k) as [s|] eqn:Ek.
    + pose proof (lookup_lt_Some _ _ _ Ek). rewrite lookup_take_lt by lia. cbn [fmap option_fmap option_map].
      rewrite <- (H1 s (Z.of_nat k + 2)) by (apply Hin; by exists k). f_equal. lia.
    + apply lookup_ge_None in Ek. rewrite lookup_take_ge by lia. done.
Qed.

(** [lua_tolstring] on that stack. *)
Definition string_at (stack : list slot) (i : Z) : option (list Z) :=
  match aget stack (i - 1) with Some (SString s) => Some s | _ => None end.

Lemma string_at_ok c i :
  string_at (SState state_init :: (SString <$> strings c)) i = tostring c i.
Proof.
  unfold string_at, tostring, aget. destruct (Z.leb_spec 0 (i - 2)) as [H|H].
  - rewrite (proj2 (Z.leb_le _ _)) by lia. replace (Z.to_nat (i - 1)) with (S (Z.to_nat (i - 2))) by lia.
    change ((SState state_init :: (SString <$> strings c)) !! S ?k) with ((SString <$> strings c) !! k).
    rewrite list_lookup_fmap. by destruct (strings c !! Z.to_nat (i - 2)).
  - destruct (Z.leb_spec 0 (i - 1)); [|done]. by replace (Z.to_nat (i - 1)) with 0%nat by lia.
Qed.


(** ** The property *)

(** C31: Copying a Lua table to a shared table. Whatever the keys are (32-bit
    integers, strings), with values that can be copied ([wf]) and tables nested
    not deeper than Lua allows calls, the conversion succeeds; [lnewconf] then
    returns the copy and the stack of its strings, each in the place by which
    the copy knows it, if the Lua state has stack for them, and raises an error
    otherwise. The copy answers like the table, in each nested table too:
    [lindexconf] returns the value of each key and nothing or nil for other keys
    of 32 bits, whatever collisions the hash has; [llen] and [lhashlen] are the
    lengths; a loop with [lnextkey] ends, and gives each key once. [delete_tbl]
    frees each table of the copy once. *)
Theorem sharedata_copy checkstack order d len es : (forall l, order l ≡ₚ l) -> wf d (LTable len es) ->
  exists c l stack,
    lnewconf checkstack order d len es = (if checkstack (zlen (strings c) + 4) then eret (c, stack) else Some LErr) /\
    (forall i, string_at stack i = tostring c i) /\ same d c (PTable 0) (LTable len es) /\
    delete_tbl d (tbls c) 0 = Some l /\ l ≡ₚ seq 0 (length (tbls c)).
Proof.
  intros Ho Hx. destruct (conv_spec_all d len es (Ctx [Table 0 [] 0 []] []) 0%nat Hx ltac:(constructor) eq_refl) as (c & l & E & _ & _ & _ & _ & Hs & Hd & Hl).
  exists c, l, (SState state_init :: (SString <$> strings c)). split_and!; [|by apply string_at_ok| |done|by rewrite Nat.sub_0_r in Hl].
  - unfold lnewconf. rewrite E. cbn [ebind eret]. rewrite (convert_stringmap_ok c) by apply Ho.
    by replace (zlen (strings c) + 1 + 3) with (zlen (strings c) + 4) by lia.
  - destruct (shares_same d c _ _ Hx _ Hs) as (r & Er & Hr). by injection Er as <-.
Qed.

(** Nested tables, and a collision in the hash. *)
Lemma sharedata_copy_witness : exists c l stack,
  lnewconf (fun n => n <? 1000000) (@rev _) 2 2 demo = (if zlen (strings c) + 4 <? 1000000 then eret (c, stack) else Some LErr) /\
  (forall i, string_at stack i = tostring c i) /\ same 2 c (PTable 0) (LTable 2 demo) /\
  delete_tbl 2 (tbls c) 0 = Some l /\ l ≡ₚ seq 0 (length (tbls c)).
Proof.
  apply (sharedata_copy (fun n => n <? 1000000) (@rev _) 2 2 demo).
  - intros l. symmetry. apply Permutation_rev.
  - split_and!; [done|done|by apply (bool_decide_unpack _); vm_compute|].
    repeat constructor; try done; by apply (bool_decide_unpack _); vm_compute.
Defined.
