(* ===== verification/Serial.v ===== *)
(** * Serialising Lua values (src/lserial.c)

    [lpack] writes values into a chain of 128-byte nodes and copies the chain
    into one block; [lunpack] reads the block.  A Lua table is what [rawlen],
    [rawgeti] and [next] show of it: the elements 1 to [rawlen] and all its
    pairs in the order of [next] (the elements among them, which [skipped]
    passes over); a table with a [__pairs] metamethod is the pairs that the
    iteration yields.  A table that is read back is the elements and the pairs
    that were stored in it.  The release of the nodes is not modelled.  A number is its 64 bits.  In a result, [None] is
    undefined behaviour and [LErr] a Lua error. *)

From S2P Require Import Prelude.

#[local] Set Warnings "-register-all".

Definition TYPE_NIL : Z := 0.
Definition TYPE_BOOL : Z := 1.
Definition TYPE_INTEGER : Z := 2.
Definition TYPE_NUMBER : Z := 3.
Definition TYPE_STRING : Z := 4.
Definition TYPE_USERDATA : Z := 5.
Definition TYPE_TABLE : Z := 6.
Definition DATA_SIZE : Z := 128.
Definition MAX_DEPTH : Z := 32.

(** A Lua value; [VOther] stands for functions, threads and full userdata. *)
Inductive value :=
  | VNil
  | VBool (b : bool)
  | VInteger (v : Z)
  | VNumber (bits : Z)
  | VString (s : list Z)
  | VPointer (p : Z)
  | VTable (array : list value) (hash : list (value * value))
  | VPairs (pairs : list (value * value))
  | VOther.

(** [struct buffer]: the nodes before [cur], and [cur]. *)
Record buffer := Buffer {
  b_nodes : list (list Z);
  b_cur : list Z;
  b_size : Z;
  b_offset : Z
}.

Definition node0 : list Z := replicate (Z.to_nat DATA_SIZE) 0.
Definition buffer_init : buffer := Buffer [] node0 0 0.

(** [b->cur = b->cur->next = ...; b->offset = 0]. *)
Definition buffer_grow (b : buffer) : buffer :=
  Buffer (b_nodes b ++ [b_cur b]) node0 (b_size b) 0.

(** The part from the test of the room on; [_again] is the next turn.  Each
    turn but the first copies 128 bytes. *)
Fixpoint chunk_loop (fuel : nat) (b : buffer) (data : list Z) : option buffer :=
  match fuel with
  | O => None
  | S fuel =>
      let size := zlen data in
      if b_offset b <=? DATA_SIZE - size then
        cur ← memcpy (b_cur b) (b_offset b) data 0 size;
        Some (Buffer (b_nodes b) cur (b_size b + size) (b_offset b + size))
      else
        let n := DATA_SIZE - b_offset b in
        cur ← memcpy (b_cur b) (b_offset b) data 0 n;
        chunk_loop fuel (buffer_grow (Buffer (b_nodes b) cur (b_size b + n) DATA_SIZE))
                  (drop (Z.to_nat n) data)
  end.

Definition buffer_push (b : buffer) (data : list Z) : option buffer :=
  let b := if b_offset b =? DATA_SIZE then buffer_grow b else b in
  chunk_loop (S (S (length data))) b data.


Definition push_type (type : Z) (b : buffer) : option buffer := buffer_push b [type].
Definition buffer_push_nil (b : buffer) : option buffer := push_type TYPE_NIL b.
Definition buffer_push_integer (v : Z) (b : buffer) : option buffer :=
  b ← push_type TYPE_INTEGER b; buffer_push b (put_le 8 (u64 v)).
Definition buffer_push_number (bits : Z) (b : buffer) : option buffer :=
  b ← push_type TYPE_NUMBER b; buffer_push b (put_le 8 bits).
Definition buffer_push_boolean (v : bool) (b : buffer) : option buffer :=
  b ← push_type TYPE_BOOL b; buffer_push b [Z.b2z v].
Definition buffer_push_string (str : list Z) (b : buffer) : option buffer :=
  b ← push_type TYPE_STRING b;
  b ← buffer_push b (put_le 4 (u32 (zlen str)));
  buffer_push b str.
Definition buffer_push_pointer (p : Z) (b : buffer) : option buffer :=
  b ← push_type TYPE_USERDATA b; buffer_push b (put_le 8 p).
Definition push_table_head (array_size : Z) (b : buffer) : option buffer :=
  b ← push_type TYPE_TABLE b; buffer_push b (put_le 8 (u64 array_size)).

(** Programs on the buffer that may raise. *)
Definition pack := buffer -> option (lua buffer).
Definition ok (f : buffer -> option buffer) : pack := fun b => b ← f b; Some (LOk b).
Definition seq (f g : pack) : pack :=
  fun b => r ← f b; match r with LOk b => g b | LErr => Some LErr end.

(** [for] over a list. *)
Fixpoint each {A} (f : A -> pack) (l : list A) : pack :=
  match l with [] => ok Some | x :: l => seq (f x) (each f l) end.

Definition buffer_push_array (one : value -> pack) (array : list value) : pack :=
  seq (ok (push_table_head (zlen array))) (each one array).

(** The integer keys that [buffer_push_array] has written. *)
Definition skipped (array_size : Z) (k : value) : bool :=
  match k with VInteger x => (x >? 0) && (x <=? array_size) | _ => false end.

Definition buffer_push_hash (one : value -> pack) (hash : list (value * value)) (array_size : Z) : pack :=
  seq (each (fun kv => if skipped array_size kv.1 then ok Some else seq (one kv.1) (one kv.2)) hash)
      (ok buffer_push_nil).

Definition buffer_push_metapairs (one : value -> pack) (pairs : list (value * value)) : pack :=
  seq (ok (push_table_head 0))
      (seq (each (fun kv => seq (one kv.1) (one kv.2)) pairs) (ok buffer_push_nil)).

Fixpoint lpack_one (v : value) (depth : Z) {struct v} : pack :=
  if depth >? MAX_DEPTH then fun _ => Some LErr
  else
    match v with
    | VNil => ok buffer_push_nil
    | VInteger v => ok (buffer_push_integer v)
    | VNumber v => ok (buffer_push_number v)
    | VBool v => ok (buffer_push_boolean v)
    | VString s => ok (buffer_push_string s)
    | VPointer p => ok (buffer_push_pointer p)
    | VTable array hash =>
        seq (buffer_push_array (fun v => lpack_one v (depth + 1)) array)
            (buffer_push_hash (fun v => lpack_one v (depth + 1)) hash (zlen array))
    | VPairs pairs => buffer_push_metapairs (fun v => lpack_one v (depth + 1)) pairs
    | VOther => fun _ => Some LErr
    end.

(** The copy of [len] bytes out of the chain. *)
Fixpoint lpack_ret (nodes : list (list Z)) (len : Z) : option (list Z) :=
  if len >? 0 then
    match nodes with
    | [] => None
    | node :: nodes =>
        if len >=? DATA_SIZE then
          rest ← lpack_ret nodes (len - DATA_SIZE); Some (take (Z.to_nat DATA_SIZE) node ++ rest)
        else Some (take (Z.to_nat len) node)
    end
  else Some [].

Definition lpack (vs : list value) : option (lua (list Z)) :=
  r ← each (fun v => lpack_one v 0) vs buffer_init;
  match r with
  | LErr => Some LErr
  | LOk b => data ← lpack_ret (b_nodes b ++ [b_cur b]) (b_size b); Some (LOk data)
  end.

(** ** Reading

    The buffer is the bytes that are left. *)

(** [None] is the null pointer. *)
Definition buffer_pop (size : Z) (l : list Z) : option (list Z * list Z) :=
  if zlen l <? size then None else Some (take (Z.to_nat size) l, drop (Z.to_nat size) l).

Definition pop_bool (l : list Z) : option (value * list Z) :=
  '(v, l) ← buffer_pop 1 l; Some (VBool (negb (get_le v =? 0)), l).
Definition pop_integer (l : list Z) : option (value * list Z) :=
  '(v, l) ← buffer_pop 8 l; Some (VInteger (i64 (get_le v)), l).
Definition pop_number (l : list Z) : option (value * list Z) :=
  '(v, l) ← buffer_pop 8 l; Some (VNumber (get_le v), l).
Definition pop_string (l : list Z) : option (value * list Z) :=
  '(n, l) ← buffer_pop 4 l;
  let size := i32 (get_le n) in
  if size <? 0 then None else '(s, l) ← buffer_pop size l; Some (VString s, l).
Definition pop_userdata (l : list Z) : option (value * list Z) :=
  match buffer_pop 8 l with
  | None => Some (VNil, l)
  | Some (v, l) => Some (VPointer (get_le v), l)
  end.

(** [lunpack_one] and [lunpack_value]: a value, or [inr] when nothing is pushed
    on the Lua stack. *)
Definition reader := list Z -> option ((value + unit) * list Z).

(** [lunpack_one] for an element of a table; with nothing pushed the stack is
    corrupted. *)
Definition element (one : reader) (l : list Z) : option (value * list Z) :=
  '(r, l) ← one l; match r with inl v => Some (v, l) | inr _ => None end.

Fixpoint array_loop (fuel : nat) (one : reader) (n : Z) (l : list Z) : option (list value * list Z) :=
  if n <=? 0 then Some ([], l)
  else
    match fuel with
    | O => None
    | S fuel =>
        '(v, l) ← element one l; '(vs, l) ← array_loop fuel one (n - 1) l; Some (v :: vs, l)
    end.

Fixpoint hash_loop (fuel : nat) (one : reader) (l : list Z) : option (list (value * value) * list Z) :=
  match fuel with
  | O => None
  | S fuel =>
      '(k, l) ← element one l;
      match k with
      | VNil => Some ([], l)
      | _ => '(v, l) ← element one l; '(kvs, l) ← hash_loop fuel one l; Some ((k, v) :: kvs, l)
      end
  end.

Definition buffer_pop_table (one : reader) (l : list Z) : option (value * list Z) :=
  '(v, l) ← buffer_pop 8 l;
  let array_size := i32 (get_le v) in
  '(array, l) ← array_loop (S (length l)) one array_size l;
  '(hash, l) ← hash_loop (S (length l)) one l;
  Some (VTable array hash, l).

Definition pushed (r : option (value * list Z)) : option ((value + unit) * list Z) :=
  '(v, l) ← r; Some (inl v, l).

Definition lunpack_value (one : reader) (type : Z) (l : list Z) : option ((value + unit) * list Z) :=
  if type =? TYPE_NIL then Some (inl VNil, l)
  else if type =? TYPE_BOOL then pushed (pop_bool l)
  else if type =? TYPE_INTEGER then pushed (pop_integer l)
  else if type =? TYPE_NUMBER then pushed (pop_number l)
  else if type =? TYPE_STRING then pushed (pop_string l)
  else if type =? TYPE_USERDATA then pushed (pop_userdata l)
  else if type =? TYPE_TABLE then pushed (buffer_pop_table one l)
  else Some (inr tt, l).

(** Every nested value takes a byte, so the length of the data is enough. *)
Fixpoint lunpack_one (fuel : nat) (l : list Z) : option ((value + unit) * list Z) :=
  match fuel with
  | O => None
  | S fuel =>
      match buffer_pop 1 l with
      | None => Some (inr tt, l)
      | Some (t, l) => lunpack_value (lunpack_one fuel) (get_le t) l
      end
  end.

Fixpoint unpack_loop (fuel : nat) (l : list Z) : option (list value) :=
  match fuel with
  | O => None
  | S fuel =>
      match buffer_pop 1 l with
      | None => Some []
      | Some (t, l) =>
          '(r, l) ← lunpack_value (lunpack_one (S (length l))) (get_le t) l;
          vs ← unpack_loop fuel l;
          Some (match r with inl v => v :: vs | inr _ => vs end)
      end
  end.

Definition lunpack (data : list Z) : option (list value) := unpack_loop (S (length data)) data.

(** ** The format *)

(** The values that [lpack] accepts at a depth: nothing below 32 tables. *)
Fixpoint packable (depth : Z) (v : value) : bool :=
  (depth <=? MAX_DEPTH) &&
  match v with
  | VTable array hash =>
      forallb (packable (depth + 1)) array &&
      forallb (fun kv => skipped (zlen array) kv.1 ||
        (packable (depth + 1) kv.1 && packable (depth + 1) kv.2)) hash
  | VPairs pairs => forallb (fun kv => packable (depth + 1) kv.1 && packable (depth + 1) kv.2) pairs
  | VOther => false
  | _ => true
  end.

Fixpoint encode (v : value) : list Z :=
  match v with
  | VNil | VOther => [TYPE_NIL]
  | VBool b => [TYPE_BOOL; Z.b2z b]
  | VInteger z => TYPE_INTEGER :: put_le 8 (u64 z)
  | VNumber bits => TYPE_NUMBER :: put_le 8 bits
  | VString s => TYPE_STRING :: put_le 4 (u32 (zlen s)) ++ s
  | VPointer p => TYPE_USERDATA :: put_le 8 p
  | VTable array hash =>
      (TYPE_TABLE :: put_le 8 (u64 (zlen array))) ++ concat (map encode array) ++
      concat (map (fun kv => if skipped (zlen array) kv.1 then [] else encode kv.1 ++ encode kv.2) hash) ++
      [TYPE_NIL]
  | VPairs pairs =>
      (TYPE_TABLE :: put_le 8 (u64 0)) ++
      concat (map (fun kv => encode kv.1 ++ encode kv.2) pairs) ++ [TYPE_NIL]
  end.

(** What is read back: a table with [__pairs] comes back as a plain table. *)
Fixpoint norm (v : value) : value :=
  match v with
  | VTable array hash =>
      VTable (map norm array)
        (concat (map (fun kv => if skipped (zlen array) kv.1 then [] else [(norm kv.1, norm kv.2)]) hash))
  | VPairs pairs => VTable [] (map (fun kv => (norm kv.1, norm kv.2)) pairs)
  | v => v
  end.

Definition not_nil (v : value) : Prop := match v with VNil | VOther => False | _ => True end.

(** Values as Lua has them: 64-bit integers and floats, sizes that fit an int,
    and no nil key. *)
Fixpoint lua_value (v : value) : Prop :=
  match v with
  | VInteger z => - 2 ^ 63 <= z < 2 ^ 63
  | VNumber bits | VPointer bits => 0 <= bits < 2 ^ 64
  | VString s => zlen s < 2 ^ 31
  | VTable array hash =>
      zlen array < 2 ^ 31 /\
      (fix all (l : list value) := match l with [] => True | v :: l => lua_value v /\ all l end) array /\
      (fix all (l : list (value * value)) := match l with [] => True
         | kv :: l => (not_nil kv.1 /\ lua_value kv.1 /\ lua_value kv.2) /\ all l end) hash
  | VPairs pairs =>
      (fix all (l : list (value * value)) := match l with [] => True
         | kv :: l => (not_nil kv.1 /\ lua_value kv.1 /\ lua_value kv.2) /\ all l end) pairs
  | VOther => False
  | _ => True
  end.

(** Induction on nested values. *)
Section ValueInd.
Context (Q : value -> Prop).
Hypothesis Hnil : Q VNil.
Hypothesis Hbool : forall b, Q (VBool b).
Hypothesis Hint : forall z, Q (VInteger z).
Hypothesis Hnum : forall z, Q (VNumber z).
Hypothesis Hstr : forall s, Q (VString s).
Hypothesis Hptr : forall p, Q (VPointer p).
Hypothesis Htab : forall array hash, Forall Q array -> Forall (fun kv => Q kv.1 /\ Q kv.2) hash ->
  Q (VTable array hash).
Hypothesis Hpairs : forall pairs, Forall (fun kv => Q kv.1 /\ Q kv.2) pairs -> Q (VPairs pairs).
Hypothesis Hother : Q VOther.

Fixpoint value_ind' (v : value) : Q v :=
  let pair_all := fix pair_all (l : list (value * value)) : Forall (fun kv => Q kv.1 /\ Q kv.2) l :=
    match l with
    | [] => Forall_nil_2 _
    | kv :: l => Forall_cons_2 _ kv l (conj (value_ind' kv.1) (value_ind' kv.2)) (pair_all l)
    end in
  match v with
  | VNil => Hnil
  | VBool b => Hbool b
  | VInteger z => Hint z
  | VNumber z => Hnum z
  | VString s => Hstr s
  | VPointer p => Hptr p
  | VTable array hash =>
      Htab array hash
        ((fix all (l : list value) : Forall Q l :=
            match l with [] => Forall_nil_2 _ | v :: l => Forall_cons_2 _ v l (value_ind' v) (all l) end) array)
        (pair_all hash)
  | VPairs pairs => Hpairs pairs (pair_all pairs)
  | VOther => Hother
  end.
End ValueInd.

(** ** The chain of nodes *)

(** [b] holds the bytes [xs]. *)
Record buf_rep (b : buffer) (xs : list Z) : Prop := {
  br_nodes : Forall (fun n => zlen n = DATA_SIZE) (b_nodes b);
  br_cur : zlen (b_cur b) = DATA_SIZE;
  br_offset : 0 <= b_offset b <= DATA_SIZE;
  br_data : xs = concat (b_nodes b) ++ take (Z.to_nat (b_offset b)) (b_cur b);
  br_size : b_size b = zlen xs
}.

Lemma buffer_init_rep : buf_rep buffer_init [].
Proof. split; done. Qed.

Lemma node0_length : zlen node0 = DATA_SIZE.
Proof. done. Qed.

(** A full node makes room. *)
Lemma buffer_grow_rep b xs : buf_rep b xs -> b_offset b = DATA_SIZE -> buf_rep (buffer_grow b) xs.
Proof.
  intros [Hn Hc Ho Hd Hs] E. split; cbn [buffer_grow b_nodes b_cur b_offset b_size].
  - apply Forall_app. split; [done|]. by constructor.
  - done.
  - done.
  - rewrite Hd, E, take_ge by lia. rewrite concat_app. cbn. by rewrite !app_nil_r.
  - done.
Qed.

(** Writing what fits. *)
Lemma buffer_write_rep b xs data n :
  buf_rep b xs -> 0 <= n -> n <= zlen data -> b_offset b + n <= DATA_SIZE ->
  exists cur, memcpy (b_cur b) (b_offset b) data 0 n = Some cur /\
    buf_rep (Buffer (b_nodes b) cur (b_size b + n) (b_offset b + n)) (xs ++ take (Z.to_nat n) data).
Proof.
  intros [Hn Hc Ho Hd Hs] H0 Hl Hfit. rewrite memcpy_Some by lia. eexists. split; [done|].
  rewrite drop_0. split; cbn [b_nodes b_cur b_offset b_size].
  - done.
  - rewrite !length_app, !length_take, length_drop. lia.
  - lia.
  - rewrite Hd, <- app_assoc. f_equal. rewrite app_assoc, take_app_le by (rewrite length_app, !length_take; lia).
    rewrite (take_ge (take _ _ ++ _)); [done|]. rewrite length_app, !length_take. lia.
  - rewrite length_app, length_take. lia.
Qed.

Lemma chunk_loop_spec fuel b xs data :
  buf_rep b xs -> (length data + (if Z.eqb (b_offset b) DATA_SIZE then 1 else 0) < fuel)%nat ->
  exists b', chunk_loop fuel b data = Some b' /\ buf_rep b' (xs ++ data).
Proof.
  revert b xs data. induction fuel as [|fuel IH]; intros b xs data Hb Hf; [lia|].
  pose proof (br_offset _ _ Hb) as Ho. cbn [chunk_loop]. destruct (Z.leb_spec (b_offset b) (DATA_SIZE - zlen data)).
  - destruct (buffer_write_rep b xs data (zlen data) Hb) as (cur & -> & Hr); [lia|lia|lia|].
    cbn [mbind option_bind]. eexists. split; [done|]. rewrite Nat2Z.id, take_ge in Hr by lia. exact Hr.
  - destruct (buffer_write_rep b xs data (DATA_SIZE - b_offset b) Hb) as (cur & -> & Hr); [lia|lia|lia|].
    cbn [mbind option_bind]. replace (b_offset b + (DATA_SIZE - b_offset b)) with DATA_SIZE in Hr by lia.
    apply buffer_grow_rep in Hr; [|done].
    destruct (IH _ _ (drop (Z.to_nat (DATA_SIZE - b_offset b)) data) Hr) as (b' & E & Hr').
    { cbn [buffer_grow b_offset]. rewrite length_drop. change (0 =? DATA_SIZE) with false. cbn [Z.eqb].
      destruct (Z.eqb_spec (b_offset b) DATA_SIZE); lia. }
    exists b'. split; [exact E|]. by rewrite <- app_assoc, take_drop in Hr'.
Qed.

Lemma buffer_push_spec b xs data :
  buf_rep b xs -> exists b', buffer_push b data = Some b' /\ buf_rep b' (xs ++ data).
Proof.
  intros Hb. unfold buffer_push. destruct (Z.eqb_spec (b_offset b) DATA_SIZE) as [E|E].
  - apply chunk_loop_spec; [by apply buffer_grow_rep|]. cbn [buffer_grow b_offset]. cbn. lia.
  - apply chunk_loop_spec; [done|]. rewrite (proj2 (Z.eqb_neq _ _) E). lia.
Qed.

(** The copy out of the chain. *)
Lemma lpack_ret_spec nodes cur len xs :
  Forall (fun n => zlen n = DATA_SIZE) nodes -> zlen cur = DATA_SIZE ->
  xs = take (Z.to_nat len) (concat nodes ++ cur) -> 0 <= len <= zlen (concat nodes ++ cur) ->
  lpack_ret (nodes ++ [cur]) len = Some xs.
Proof.
  revert len xs. induction nodes as [|n nodes IH]; intros len xs Hn Hc -> Hl.
  - cbn [app lpack_ret concat] in *. destruct (Z.gtb_spec len 0); [|by replace len with 0 by lia].
    destruct (Z.geb_spec len DATA_SIZE); [|done].
    assert (len = DATA_SIZE) as -> by lia. rewrite Z.sub_diag. cbn [lpack_ret]. cbn [Z.gtb Z.compare].
    change (0 >? 0) with false. cbn [mbind option_bind]. by rewrite app_nil_r.
  - apply Forall_cons in Hn as [Hn Hns]. cbn [app lpack_ret concat] in *.
    destruct (Z.gtb_spec len 0); [|by replace len with 0 by lia].
    rewrite <- app_assoc in *. rewrite !length_app in *. destruct (Z.geb_spec len DATA_SIZE).
    + rewrite (IH (len - DATA_SIZE) _ Hns Hc eq_refl) by (rewrite ?length_app; lia).
      cbn [mbind option_bind]. rewrite take_ge by lia.
      replace (Z.to_nat len) with (length n + Z.to_nat (len - DATA_SIZE))%nat by lia.
      by rewrite take_app_add.
    + rewrite take_app_le by lia. done.
Qed.

(** ** Packing *)

(** [f] adds the bytes [out]. *)
Definition pushes (f : buffer -> option buffer) (out : list Z) : Prop :=
  forall b xs, buf_rep b xs -> exists b', f b = Some b' /\ buf_rep b' (xs ++ out).

Lemma push_pushes data : pushes (fun b => buffer_push b data) data.
Proof. intros b xs Hb. by apply buffer_push_spec. Qed.

Lemma bind_pushes f g out1 out2 : pushes f out1 -> pushes g out2 ->
  pushes (fun b => b ← f b; g b) (out1 ++ out2).
Proof.
  intros Hf Hg b xs Hb. destruct (Hf b xs Hb) as (b1 & E1 & Hb1).
  destruct (Hg b1 _ Hb1) as (b2 & E2 & Hb2). exists b2. rewrite E1. cbn [mbind option_bind].
  by rewrite app_assoc.
Qed.

(** [f] adds the bytes [out] when [p], and raises otherwise. *)
Definition packs (f : pack) (p : bool) (out : list Z) : Prop :=
  forall b xs, buf_rep b xs ->
  if p then exists b', f b = Some (LOk b') /\ buf_rep b' (xs ++ out) else f b = Some LErr.

Lemma ok_packs f out : pushes f out -> packs (ok f) true out.
Proof.
  intros Hf b xs Hb. destruct (Hf b xs Hb) as (b' & E & Hb'). exists b'. unfold ok. by rewrite E.
Qed.

Lemma skip_packs : packs (ok Some) true [].
Proof. intros b xs Hb. exists b. by rewrite app_nil_r. Qed.

Lemma seq_packs f g p q out1 out2 :
  packs f p out1 -> packs g q out2 -> packs (seq f g) (p && q) (out1 ++ out2).
Proof.
  intros Hf Hg b xs Hb. specialize (Hf b xs Hb). unfold seq. destruct p; cbn [andb].
  - destruct Hf as (b1 & -> & Hb1). cbn [mbind option_bind]. specialize (Hg b1 _ Hb1).
    by rewrite app_assoc.
  - by rewrite Hf.
Qed.

Lemma each_packs {A} (f : A -> pack) (p : A -> bool) (out : A -> list Z) l :
  Forall (fun x => packs (f x) (p x) (out x)) l ->
  packs (each f l) (forallb p l) (concat (map out l)).
Proof.
  induction 1 as [|x l Hx Hl IH]; cbn [each forallb map concat]; [apply skip_packs|].
  by apply seq_packs.
Qed.

Lemma array_packs (one : value -> pack) (p : value -> bool) array :
  Forall (fun v => packs (one v) (p v) (encode v)) array ->
  packs (buffer_push_array one array) (forallb p array)
        ((TYPE_TABLE :: put_le 8 (u64 (zlen array))) ++ concat (map encode array)).
Proof.
  intros H. unfold buffer_push_array. change (forallb p array) with (true && forallb p array).
  apply seq_packs; [|by apply each_packs]. apply ok_packs.
  exact (bind_pushes _ _ [_] _ (push_pushes _) (push_pushes _)).
Qed.

Lemma pairs_packs (one : value -> pack) (p : value -> bool) (sk : value -> bool) hash :
  Forall (fun kv => packs (one kv.1) (p kv.1) (encode kv.1) /\ packs (one kv.2) (p kv.2) (encode kv.2)) hash ->
  packs (seq (each (fun kv => if sk kv.1 then ok Some else seq (one kv.1) (one kv.2)) hash)
             (ok buffer_push_nil))
        (forallb (fun kv => sk kv.1 || (p kv.1 && p kv.2)) hash)
        (concat (map (fun kv => if sk kv.1 then [] else encode kv.1 ++ encode kv.2) hash) ++ [TYPE_NIL]).
Proof.
  intros H. rewrite <- (andb_true_r (forallb _ _)).
  apply seq_packs; [|by apply ok_packs, push_pushes]. apply each_packs.
  apply (Forall_impl _ _ _ H). intros kv [Hk Hv]. destruct (sk kv.1); [apply skip_packs|].
  by apply seq_packs.
Qed.

(** Every value is written as [encode] says, or refused. *)
Lemma lpack_one_packs v d : packs (lpack_one v d) (packable d v) (encode v).
Proof.
  revert d. induction v as [|b|z|z|str|p|array hash IHa IHh|pairs IH|] using value_ind'; intros d;
    cbn [lpack_one packable]; rewrite Z.gtb_ltb, Z.ltb_antisym;
    destruct (Z.leb_spec d MAX_DEPTH); cbn [negb andb]; try by intros b' xs _.
  - by apply ok_packs, push_pushes.
  - apply ok_packs. exact (bind_pushes _ _ [_] _ (push_pushes _) (push_pushes _)).
  - apply ok_packs. exact (bind_pushes _ _ [_] _ (push_pushes _) (push_pushes _)).
  - apply ok_packs. exact (bind_pushes _ _ [_] _ (push_pushes _) (push_pushes _)).
  - apply ok_packs. exact (bind_pushes _ _ [_] _ (push_pushes _)
      (bind_pushes _ _ _ _ (push_pushes _) (push_pushes _))).
  - apply ok_packs. exact (bind_pushes _ _ [_] _ (push_pushes _) (push_pushes _)).
  - cbn [encode]. rewrite app_assoc. apply seq_packs.
    + apply array_packs. apply (Forall_impl _ _ _ IHa). intros v Hv. apply Hv.
    + apply (pairs_packs _ (packable (d + 1))). apply (Forall_impl _ _ _ IHh).
      intros kv [Hk Hv]. split; [apply Hk|apply Hv].
  - cbn [encode]. change (forallb _ pairs) with (true && forallb (fun kv : value * value =>
      false || (packable (d + 1) kv.1 && packable (d + 1) kv.2)) pairs).
    apply seq_packs.
    + apply ok_packs. exact (bind_pushes _ _ [_] _ (push_pushes _) (push_pushes _)).
    + apply (pairs_packs (fun v => lpack_one v (d + 1)) (packable (d + 1)) (fun _ => false)). apply (Forall_impl _ _ _ IH).
      intros kv [Hk Hv]. split; [apply Hk|apply Hv].
Qed.

Lemma serial_lpack vs :
  lpack vs = Some (if forallb (packable 0) vs then LOk (concat (map encode vs)) else LErr).
Proof.
  unfold lpack. pose proof (each_packs (fun v => lpack_one v 0) (packable 0) encode vs) as H.
  specialize (H (Forall_true _ _ (fun v => lpack_one_packs v 0)) _ _ buffer_init_rep).
  destruct (forallb (packable 0) vs).
  - destruct H as (b & -> & [Hn Hc Ho Hd Hs]). cbn [mbind option_bind].
    rewrite app_nil_l in Hd, Hs. rewrite (lpack_ret_spec _ _ _ (concat (map encode vs))); [done|done|done| |].
    + rewrite Hs, Nat2Z.id, Hd at 1. rewrite Hd. rewrite length_app, length_take.
      rewrite take_app. rewrite (take_ge (concat _)) by lia. do 2 f_equal. lia.
    + rewrite Hs, Hd, !length_app, length_take. lia.
  - by rewrite H.
Qed.

(** ** Unpacking *)

Lemma buffer_pop_app a l n : n = zlen a -> buffer_pop n (a ++ l) = Some (a, l).
Proof.
  intros ->. unfold buffer_pop. rewrite length_app. destruct (Z.ltb_spec (Z.of_nat (length a + length l)) (zlen a)); [lia|].
  by rewrite Nat2Z.id, take_app_length, drop_app_length.
Qed.

Lemma buffer_pop_le n v l :
  buffer_pop (Z.of_nat n) (put_le n v ++ l) = Some (put_le n v, l).
Proof. apply buffer_pop_app. by rewrite put_le_length. Qed.

Lemma i64_u64 z : - 2 ^ 63 <= z < 2 ^ 63 -> i64 (u64 z mod 256 ^ Z.of_nat 8) = z.
Proof. intros Hz. change (256 ^ Z.of_nat 8) with (2 ^ 64). unfold u64. rewrite Z.mod_mod by lia. by apply i64_wrap. Qed.

Lemma pop_integer_le z l : - 2 ^ 63 <= z < 2 ^ 63 ->
  pop_integer (put_le 8 (u64 z) ++ l) = Some (VInteger z, l).
Proof.
  intros Hz. unfold pop_integer. rewrite (buffer_pop_le 8). cbn [mbind option_bind].
  by rewrite get_put_le, i64_u64.
Qed.

Lemma get_le_64 bits : 0 <= bits < 2 ^ 64 -> get_le (put_le 8 bits) = bits.
Proof. intros. rewrite get_put_le. apply Z.mod_small. done. Qed.

Lemma pop_string_le str l : zlen str < 2 ^ 31 ->
  pop_string ((put_le 4 (u32 (zlen str)) ++ str) ++ l) = Some (VString str, l).
Proof.
  intros Hl. unfold pop_string. rewrite <- app_assoc, (buffer_pop_le 4). cbn [mbind option_bind].
  assert (i32 (get_le (put_le 4 (u32 (zlen str)))) = zlen str) as ->.
  { rewrite get_put_le. change (256 ^ Z.of_nat 4) with (2 ^ 32). unfold i32, u32.
    rewrite Z.mod_mod by lia. rewrite (Z.mod_small (zlen str)) by lia. zdiv. }
  destruct (Z.ltb_spec (zlen str) 0); [lia|]. by rewrite buffer_pop_app.
Qed.

(** [one] reads the value [v] back as [norm v]. *)
Definition reads (one : reader) (v : value) : Prop :=
  forall l, one (encode v ++ l) = Some (inl (norm v), l).

Lemma encode_cons v : exists t rest, encode v = t :: rest.
Proof. destruct v; eexists _, _; reflexivity. Qed.

Lemma norm_not_nil {A} v (x y : A) : not_nil v -> match norm v with VNil => x | _ => y end = y.
Proof. by destruct v. Qed.

Lemma array_loop_reads one array fuel l :
  Forall (reads one) array -> (length array <= fuel)%nat ->
  array_loop fuel one (zlen array) (concat (map encode array) ++ l) = Some (map norm array, l).
Proof.
  intros H. revert fuel. induction H as [|v array Hv Ha IH]; intros fuel Hf.
  - by destruct fuel.
  - destruct fuel as [|fuel]; [cbn in Hf; lia|]. cbn [array_loop].
    destruct (Z.leb_spec (zlen (v :: array)) 0) as [Hx|_]; [cbn in Hx; lia|].
    cbn [map concat]. rewrite <- app_assoc. unfold element. rewrite Hv. cbn [mbind option_bind].
    replace (zlen (v :: array) - 1) with (zlen array) by (cbn [length]; lia).
    rewrite IH by (cbn in Hf; lia). done.
Qed.

Lemma hash_loop_reads one (sk : value -> bool) hash fuel l :
  (forall l, one (TYPE_NIL :: l) = Some (inl VNil, l)) ->
  Forall (fun kv => sk kv.1 = false -> not_nil kv.1 /\ reads one kv.1 /\ reads one kv.2) hash ->
  (length (concat (map (fun kv => if sk kv.1 then [] else encode kv.1 ++ encode kv.2) hash)) < fuel)%nat ->
  hash_loop fuel one
    ((concat (map (fun kv => if sk kv.1 then [] else encode kv.1 ++ encode kv.2) hash) ++ [TYPE_NIL]) ++ l) =
  Some (concat (map (fun kv => if sk kv.1 then [] else [(norm kv.1, norm kv.2)]) hash), l).
Proof.
  intros Hnil H. revert fuel. induction H as [|[k v] hash Hkv Hh IH]; intros fuel Hf;
    (destruct fuel as [|fuel]; [cbn in Hf; lia|]).
  - cbn [hash_loop map concat app]. unfold element. by rewrite Hnil.
  - cbn [map concat fst snd] in *. destruct (sk k).
    + by apply IH.
    + destruct (Hkv eq_refl) as (Hk & Hrk & Hrv). destruct (encode_cons k) as (t & rest & Ek).
      cbn [hash_loop]. unfold element. rewrite <- !app_assoc. rewrite Hrk. cbn [mbind option_bind].
      rewrite norm_not_nil by done. rewrite Hrv. cbn [mbind option_bind].
      rewrite app_assoc, IH by (rewrite !length_app, Ek in Hf; cbn in Hf; lia). done.
Qed.

Definition pair_value (kv : value * value) : Prop := not_nil kv.1 /\ lua_value kv.1 /\ lua_value kv.2.

Lemma lua_value_hash hash :
  (fix all (l : list (value * value)) := match l with [] => True
     | kv :: l => (not_nil kv.1 /\ lua_value kv.1 /\ lua_value kv.2) /\ all l end) hash ->
  Forall pair_value hash.
Proof. induction hash as [|kv hash IH]; [by constructor|]. intros [Hkv Hh]. constructor; [exact Hkv|auto]. Qed.

Lemma lua_value_table array hash : lua_value (VTable array hash) ->
  zlen array < 2 ^ 31 /\ Forall lua_value array /\ Forall pair_value hash.
Proof.
  cbn [lua_value]. intros (Hl & Ha & Hh%lua_value_hash). split; [done|]. split; [|done]. clear Hl Hh.
  induction array as [|v array IH]; [by constructor|]. destruct Ha as [Hv Ha]. constructor; [done|auto].
Qed.

Lemma concat_map_length {A B} (f : A -> list B) x l :
  x ∈ l -> (length (f x) <= length (concat (map f l)))%nat.
Proof.
  induction 1 as [y l|y z l _ IH]; cbn [map concat]; rewrite length_app; lia.
Qed.

Lemma encode_length_ge array : (length array <= length (concat (map encode array)))%nat.
Proof.
  induction array as [|v array IH]; [done|]. cbn [map concat length]. rewrite length_app.
  destruct (encode_cons v) as (t & rest & ->). cbn. lia.
Qed.

Lemma table_reads one (sk : value -> bool) array hash l :
  zlen array < 2 ^ 31 ->
  (forall l, one (TYPE_NIL :: l) = Some (inl VNil, l)) ->
  Forall (reads one) array ->
  Forall (fun kv => sk kv.1 = false -> not_nil kv.1 /\ reads one kv.1 /\ reads one kv.2) hash ->
  buffer_pop_table one ((put_le 8 (u64 (zlen array)) ++ concat (map encode array) ++
    concat (map (fun kv => if sk kv.1 then [] else encode kv.1 ++ encode kv.2) hash) ++ [TYPE_NIL]) ++ l) =
  Some (VTable (map norm array)
    (concat (map (fun kv => if sk kv.1 then [] else [(norm kv.1, norm kv.2)]) hash)), l).
Proof.
  intros Hl Hnil Ha Hh. unfold buffer_pop_table. rewrite <- app_assoc, (buffer_pop_le 8).
  cbn [mbind option_bind].
  assert (i32 (get_le (put_le 8 (u64 (zlen array)))) = zlen array) as ->.
  { rewrite get_put_le. change (256 ^ Z.of_nat 8) with (2 ^ 64). unfold i32, u64.
    rewrite Z.mod_mod by lia. rewrite (Z.mod_small (zlen array)) by lia. zdiv. }
  rewrite <- app_assoc. rewrite array_loop_reads; [|done|pose proof (encode_length_ge array); rewrite length_app; lia].
  cbn [mbind option_bind]. rewrite hash_loop_reads; [done|done|done|]. rewrite !length_app. cbn. lia.
Qed.

Lemma concat_singleton {A B} (f : A -> B) l : concat (map (fun x => [f x]) l) = map f l.
Proof. induction l as [|x l IH]; [done|]. cbn. by rewrite IH. Qed.

Lemma buffer_pop_1 t l : buffer_pop 1 (t :: l) = Some ([t], l).
Proof. exact (buffer_pop_app [t] l 1 eq_refl). Qed.

Lemma lunpack_one_cons fuel t l :
  lunpack_one (S fuel) (t :: l) = lunpack_value (lunpack_one fuel) t l.
Proof. cbn [lunpack_one]. rewrite buffer_pop_1. cbn [get_le]. by rewrite Z.add_0_r. Qed.

Lemma lunpack_one_nil fuel l : lunpack_one (S fuel) (TYPE_NIL :: l) = Some (inl VNil, l).
Proof. by rewrite lunpack_one_cons. Qed.

Lemma table_value fuel (v : value) r l :
  buffer_pop_table (lunpack_one fuel) (r ++ l) = Some (norm v, l) -> encode v = TYPE_TABLE :: r ->
  lunpack_one (S fuel) (encode v ++ l) = Some (inl (norm v), l).
Proof.
  intros H ->. cbn [app]. rewrite lunpack_one_cons.
  change (pushed (buffer_pop_table (lunpack_one fuel) (r ++ l)) = Some (inl (norm v), l)).
  by rewrite H.
Qed.

Lemma lunpack_one_reads v fuel :
  lua_value v -> (length (encode v) <= fuel)%nat -> reads (lunpack_one fuel) v.
Proof.
  revert fuel. induction v as [|b|z|z|str|p|array hash IHa IHh|pairs IH|] using value_ind'; intros fuel Hv Hf l;
    (destruct fuel as [|fuel]; [cbn in Hf; lia|]).
  - apply lunpack_one_nil.
  - cbn [encode app]. rewrite lunpack_one_cons.
    change (pushed (pop_bool ([Z.b2z b] ++ l)) = Some (inl (VBool b), l)).
    unfold pop_bool. rewrite buffer_pop_app by done. by destruct b.
  - cbn [encode app]. rewrite lunpack_one_cons.
    change (pushed (pop_integer (put_le 8 (u64 z) ++ l)) = Some (inl (VInteger z), l)).
    by rewrite pop_integer_le.
  - cbn [encode app]. rewrite lunpack_one_cons.
    change (pushed (pop_number (put_le 8 z ++ l)) = Some (inl (VNumber z), l)).
    unfold pop_number. rewrite (buffer_pop_le 8). cbn [mbind option_bind]. by rewrite get_le_64.
  - cbn [encode app]. rewrite lunpack_one_cons.
    change (pushed (pop_string ((put_le 4 (u32 (zlen str)) ++ str) ++ l)) = Some (inl (VString str), l)).
    by rewrite pop_string_le.
  - cbn [encode app]. rewrite lunpack_one_cons.
    change (pushed (pop_userdata (put_le 8 p ++ l)) = Some (inl (VPointer p), l)).
    unfold pop_userdata. rewrite (buffer_pop_le 8). by rewrite get_le_64.
  - apply lua_value_table in Hv as (Hl & Ha & Hh). cbn [encode app length] in Hf. rewrite !length_app in Hf.
    cbn [length] in Hf.
    eapply table_value; [|reflexivity]. destruct fuel as [|fuel]; [lia|].
    apply table_reads; [done|apply lunpack_one_nil| |].
    + apply Forall_forall. intros v Hin. rewrite Forall_forall in IHa, Ha. apply IHa; [done|auto|].
      pose proof (concat_map_length encode v array Hin). lia.
    + apply Forall_forall. intros kv Hin Hsk. rewrite Forall_forall in IHh, Hh.
      destruct (Hh _ Hin) as (Hk & Hlk & Hlv). destruct (IHh _ Hin) as [IHk IHv].
      pose proof (concat_map_length (fun kv => if skipped (zlen array) kv.1 then [] else encode kv.1 ++ encode kv.2)
        kv hash Hin) as Hlen. cbn beta in Hlen. rewrite Hsk, length_app in Hlen.
      split; [done|]. split; [apply IHk|apply IHv]; (done || lia).
  - cbn [lua_value] in Hv. apply lua_value_hash in Hv as Hh. cbn [encode app length] in Hf.
    rewrite !length_app in Hf. cbn [length] in Hf. destruct fuel as [|fuel]; [lia|].
    apply (table_value _ (VPairs pairs) (put_le 8 (u64 0) ++
      concat (map (fun kv => encode kv.1 ++ encode kv.2) pairs) ++ [TYPE_NIL])); [|reflexivity].
    cbn [norm]. rewrite <- (concat_singleton (fun kv => (norm kv.1, norm kv.2)) pairs).
    apply (table_reads _ (fun _ => false) []); [done|apply lunpack_one_nil|by constructor|].
    apply Forall_forall. intros kv Hin _. rewrite Forall_forall in IH, Hh.
    destruct (Hh _ Hin) as (Hk & Hlk & Hlv). destruct (IH _ Hin) as [IHk IHv].
    pose proof (concat_map_length (fun kv => encode kv.1 ++ encode kv.2) kv pairs Hin) as Hlen.
    cbn beta in Hlen. rewrite length_app in Hlen.
    split; [done|]. split; [apply IHk|apply IHv]; (done || lia).
  - done.
Qed.

Lemma unpack_loop_reads vs fuel :
  Forall lua_value vs -> (length vs < fuel)%nat ->
  unpack_loop fuel (concat (map encode vs)) = Some (map norm vs).
Proof.
  intros H. revert fuel. induction H as [|v vs Hv _ IH]; intros fuel Hf; (destruct fuel as [|fuel]; [lia|]).
  - done.
  - cbn [map concat length] in *. destruct (encode_cons v) as (t & rest & E).
    pose proof (lunpack_one_reads v (S (S (length (rest ++ concat (map encode vs))))) Hv) as Hr.
    rewrite E, length_app in Hr. specialize (Hr ltac:(cbn [length]; lia) (concat (map encode vs))).
    rewrite E in Hr |- *. cbn [app] in *. rewrite lunpack_one_cons in Hr. cbn [unpack_loop].
    rewrite buffer_pop_1. cbn [get_le]. rewrite Z.mul_0_r, Z.add_0_r, length_app.
    setoid_rewrite Hr. cbn [mbind option_bind]. by rewrite IH by lia.
Qed.

(** ** Claims *)

(** C23: [lpack] writes the values one after the other in the format that
    [encode] describes, across the 128-byte nodes; it raises exactly when a
    value is below 32 tables or of a type that cannot be packed, and never has
    undefined behaviour. *)
Theorem serial_format vs :
  lpack vs = Some (if forallb (packable 0) vs then LOk (concat (map encode vs)) else LErr).
Proof. apply serial_lpack. Qed.

(** C24: unpacking what was packed gives the values back: nested tables with
    their elements and pairs, [__pairs] tables as plain tables. *)
Theorem serial_roundtrip vs data :
  Forall lua_value vs -> lpack vs = Some (LOk data) -> lunpack data = Some (map norm vs).
Proof.
  intros Hvs Hp. rewrite serial_lpack in Hp. destruct (forallb _ _); [|done]. simplify_eq.
  apply unpack_loop_reads; [done|]. pose proof (encode_length_ge vs). lia.
Qed.

Definition demo_values : list value :=
  [VInteger (-5); VString (replicate 200 65);
   VTable [VBool true; VNumber 7]
          [(VInteger 1, VBool true); (VInteger 2, VNumber 7); (VString [107], VPairs [(VInteger 9, VNil)])]].

Lemma serial_roundtrip_witness :
  exists data, lpack demo_values = Some (LOk data) /\ lunpack data =
    Some [VInteger (-5); VString (replicate 200 65);
          VTable [VBool true; VNumber 7] [(VString [107], VTable [] [(VInteger 9, VNil)])]].
Proof.
  eexists. split; [vm_compute; reflexivity|]. apply (serial_roundtrip demo_values).
  - unfold demo_values. repeat constructor; cbn; try lia; done.
  - vm_compute. reflexivity.
Defined.

(** Truncated data: the null pointer of [buffer_pop] is read. *)
Lemma lunpack_truncated_fault : lunpack [TYPE_STRING] = None /\ lunpack [TYPE_INTEGER; 1] = None.
Proof. done. Qed.
