(* ===== verification/Socket.v ===== *)
(** * The socket server (src/socket.c, src/epoll.c)

    One thread runs [socket_poll]: it takes the requests that the other threads
    write into a pipe and the events of epoll, changes the slots and dispatches
    a message.  [world] is the server's [S], the requests in the pipe, the
    kernel's table of registered descriptors and a log of what the server did:
    bytes written, descriptors closed, data released, messages dispatched.

    System calls are a parameter ([Os]): an [answer] is the value that the call
    returns, with [errno] and the data it fills in; the memory of the data to
    send ([mem]) and the interface of send objects are parameters too. *)

From S2P Require Import Prelude.

Definition MAX_EVENT : Z := 64.
Definition MAX_SOCKET_P : Z := 16.
Definition MIN_SOCK_BUFF : Z := 64.
Definition MAX_SOCKET : Z := Z.shiftl 1 MAX_SOCKET_P.
Definition PROTOCOL_TCP : Z := 0.
Definition PROTOCOL_UDP : Z := 1.
Definition PROTOCOL_UDPv6 : Z := 2.
Definition UDP_ADDRESS_SIZE : Z := 19.
Definition MAX_UDP_PACKAGE : Z := 65535.

Definition SOCKET_EXIT : Z := 0.
Definition SOCKET_CLOSE : Z := 1.
Definition SOCKET_OPEN : Z := 2.
Definition SOCKET_DATA : Z := 3.
Definition SOCKET_ACCEPT : Z := 4.
Definition SOCKET_ERR : Z := 5.
Definition SOCKET_UDP : Z := 6.
Definition SOCKET_WARNING : Z := 7.
Definition SOCKET_PRIORITY_HIGH : Z := 0.
Definition SOCKET_PRIORITY_LOW : Z := 1.

(** [HASH_ID]; C's remainder, negative for a negative id. *)
Definition HASH_ID (id : Z) : Z := Z.rem id MAX_SOCKET.

(** SOCKET_TYPE_... *)
Inductive stype :=
  | INVALID | RESERVE | OPENING | OPENED | LISTEN | PLISTEN | PACCEPT | BIND | HALFCLOSE.

#[export] Instance stype_eq_dec : EqDecision stype.
Proof. solve_decision. Defined.

(** [struct buffer]; the lists [high] and [low] are the nodes from [head]. *)
Record buffer := Buffer {
  buff : Z;
  ptr : Z;
  len : Z;
  send_object : bool;
  udp_address : list Z
}.

(** [struct socket]; the union [p] is [p_size] for TCP and [p_udp] for UDP. *)
Record socket := Socket {
  s_fd : Z;
  s_id : Z;
  s_ud : Z;
  wb_size : Z;
  high : list buffer;
  low : list buffer;
  type : stype;
  protocol : Z;
  p_size : Z;
  p_udp : list Z
}.

Definition socket0 : socket := Socket 0 0 0 0 [] [] INVALID 0 0 [].

(** [struct socket_message] without its type; [data]: null, a text, the text of
    an error number, bytes read. *)
Inductive mdata := DNull | DText (s : string) | DErrno | DBytes (l : list Z).
Record msg := Msg { m_id : Z; m_ud : Z; m_data : mdata; m_size : Z }.

(** [struct _send_req] *)
Record send_req := SendReq { r_id : Z; r_priority : Z; r_size : Z; r_data : Z }.

(** [struct socket_req] *)
Inductive req :=
  | ReqOpen (id port ud : Z) (host : string)
  | ReqListen (id fd ud : Z)
  | ReqClose (id ud : Z)
  | ReqExit
  | ReqBind (id fd ud : Z)
  | ReqStart (id ud : Z)
  | ReqSend (r : send_req)
  | ReqOpt (id : Z)
  | ReqUdp (id fd : Z) (inet6 : bool) (ud : Z)
  | ReqSetudp (id : Z) (address : list Z)
  | ReqSendudp (r : send_req) (address : list Z).

(** [struct event]: [e_ud] is the slot; none for the pipe. *)
Record event := Event { e_read : bool; e_write : bool; e_ud : option Z }.

(** What the server does. *)
Inductive out :=
  | OWrite (fd : Z) (data : list Z)
  | OSendto (fd : Z) (addr data : list Z)
  | OClose (fd : Z)
  | OFree (object : bool) (data : Z)
  | OWait
  | ODispatch (type : Z) (m : msg).

Inductive errno := EINTR | EAGAIN | EINPROGRESS | EMFILE | ENFILE | EOTHER.

#[export] Instance errno_eq_dec : EqDecision errno.
Proof. solve_decision. Defined.

(** An address that [getaddrinfo] found, with its text. *)
Record ainfo := Ainfo { ai_inet6 : bool; ai_text : option string; ai_bytes : list Z }.

Inductive syscall :=
  | CWrite (fd : Z) (data : list Z)
  | CSendto (fd : Z) (addr data : list Z)
  | CRead (fd size : Z)
  | CRecvfrom (fd size : Z)
  | CAccept (fd : Z)
  | CSocket (inet6 : bool)
  | CConnect (fd : Z) (addr : ainfo)
  | CBind (fd : Z) (addr : ainfo)
  | CReuse (fd : Z)
  | CListen (fd : Z)
  | CSoError (fd : Z)
  | CEpollAdd (fd : Z)
  | CPipe
  | CPipeWrite
  | CPipeRead
  | CGetaddrinfo (host : string) (port : Z)
  | CPeer (fd : Z)
  | CWait.

(** [a_intr]: how often the call fails with EINTR before it answers, for the
    loops that try again; [a_val] is the integer it fills in. *)
Record answer := Answer {
  a_intr : nat;
  a_ret : Z;
  a_errno : errno;
  a_data : list Z;
  a_val : Z;
  a_inet6 : bool;
  a_text : option string;
  a_addrs : list ainfo;
  a_ready : list (Z * bool * bool)
}.

Class Os := {
  os : Type;
  sys : syscall -> os -> answer * os;
  mem : Z -> Z;
  soi_data : Z -> Z;
  soi_size : Z -> Z
}.

(** A call that is not retried sees the first answer. *)
Definition first (a : answer) : answer :=
  match a_intr a with
  | O => a
  | S _ => Answer O (-1) EINTR (a_data a) (a_val a) (a_inet6 a) (a_text a) (a_addrs a) (a_ready a)
  end.

(** ** Buffers of a socket *)

Definition set_lists (h l : list buffer) (wb : Z) (s : socket) : socket :=
  Socket (s_fd s) (s_id s) (s_ud s) wb h l (type s) (protocol s) (p_size s) (p_udp s).
Definition set_type (t : stype) (s : socket) : socket :=
  Socket (s_fd s) (s_id s) (s_ud s) (wb_size s) (high s) (low s) t (protocol s) (p_size s) (p_udp s).
Definition set_ud (ud : Z) (s : socket) : socket :=
  Socket (s_fd s) (s_id s) ud (wb_size s) (high s) (low s) (type s) (protocol s) (p_size s) (p_udp s).
Definition set_size (n : Z) (s : socket) : socket :=
  Socket (s_fd s) (s_id s) (s_ud s) (wb_size s) (high s) (low s) (type s) (protocol s) n (p_udp s).
Definition set_udp (a : list Z) (s : socket) : socket :=
  Socket (s_fd s) (s_id s) (s_ud s) (wb_size s) (high s) (low s) (type s) (protocol s) (p_size s) a.

(** One of the two lists of a socket. *)
Definition queue_of (hi : bool) (s : socket) : list buffer := if hi then high s else low s.
Definition set_queue (hi : bool) (l : list buffer) (wb : Z) (s : socket) : socket :=
  if hi then set_lists l (low s) wb s else set_lists (high s) l wb s.

Definition no_pending (s : socket) : bool :=
  match high s, low s with [], [] => true | _, _ => false end.

Definition socket_buffer_list_complete (l : list buffer) : bool :=
  match l with [] => true | wb :: _ => ptr wb =? buff wb end.

Section Server.
Context `{Os}.

(** [ctl_fds]: [recvctl_fd] and [sendctl_fd]. [events]: [ev] from [ev_idx] to
    [ev_n]. [w_epoll]: the descriptors registered with epoll, their slot (none for
    the pipe) and whether writability is asked for. *)
Record world := World {
  next_id : Z;
  slot : gmap Z socket;
  pipe : list req;
  check_ctrl : bool;
  ctl_fds : Z * Z;
  events : list event;
  w_epoll : gmap Z (option Z * bool);
  log : list out;
  w_os : os
}.

Abbreviation sk := (ust world).

Definition with_next x w := World x (slot w) (pipe w) (check_ctrl w) (ctl_fds w) (events w) (w_epoll w) (log w) (w_os w).
Definition with_slot x w := World (next_id w) x (pipe w) (check_ctrl w) (ctl_fds w) (events w) (w_epoll w) (log w) (w_os w).
Definition with_pipe x w := World (next_id w) (slot w) x (check_ctrl w) (ctl_fds w) (events w) (w_epoll w) (log w) (w_os w).
Definition with_check x w := World (next_id w) (slot w) (pipe w) x (ctl_fds w) (events w) (w_epoll w) (log w) (w_os w).
Definition with_ctl x w := World (next_id w) (slot w) (pipe w) (check_ctrl w) x (events w) (w_epoll w) (log w) (w_os w).
Definition with_events x w := World (next_id w) (slot w) (pipe w) (check_ctrl w) (ctl_fds w) x (w_epoll w) (log w) (w_os w).
Definition with_epoll x w := World (next_id w) (slot w) (pipe w) (check_ctrl w) (ctl_fds w) (events w) x (log w) (w_os w).
Definition with_log x w := World (next_id w) (slot w) (pipe w) (check_ctrl w) (ctl_fds w) (events w) (w_epoll w) x (w_os w).
Definition with_os x w := World (next_id w) (slot w) (pipe w) (check_ctrl w) (ctl_fds w) (events w) (w_epoll w) (log w) x.

(** The slots: [memset] makes the sockets that were never used. *)
Definition slot_at (k : Z) (w : world) : socket := default socket0 (slot w !! k).
Definition get (k : Z) : sk socket := uget (slot_at k).
Definition put (k : Z) (s : socket) : sk unit := umod (fun w => with_slot (<[k := s]> (slot w)) w).

(** [&S.slot[HASH_ID(id)]]: out of the array for a negative id. *)
Definition slot_of (id : Z) : sk Z :=
  ulift (if 0 <=? HASH_ID id then Some (HASH_ID id) else None).

Definition emit (o : out) : sk unit := umod (fun w => with_log (log w ++ [o]) w).
Definition call (c : syscall) : sk answer :=
  fun w => let '(a, o) := sys c (w_os w) in Some (a, with_os o w).
Definition call1 (c : syscall) : sk answer := a ← call c; mret (first a).

(** The bytes at an address. *)
Definition bytes (a n : Z) : list Z := map (fun i => mem (a + Z.of_nat i)) (seq 0 (Z.to_nat n)).

(** ** epoll.c *)

Definition event_add (fd : Z) (ud : option Z) : sk bool :=
  a ← call1 (CEpollAdd fd);
  if a_ret a =? -1 then mret true
  else _ ← umod (fun w => with_epoll (<[fd := (ud, false)]> (w_epoll w)) w); mret false.

Definition event_del (fd : Z) : sk unit := umod (fun w => with_epoll (delete fd (w_epoll w)) w).

(** EPOLL_CTL_MOD fails for a descriptor that is not registered. *)
Definition event_write (fd k : Z) (enable : bool) : sk unit :=
  umod (fun w =>
    match w_epoll w !! fd with
    | Some _ => with_epoll (<[fd := (Some k, enable)]> (w_epoll w)) w
    | None => w
    end).

(** The kernel reports registered descriptors, and as writable only those for
    which that is asked. *)
Definition ready_events (ep : gmap Z (option Z * bool)) (l : list (Z * bool * bool)) : list event :=
  omap (fun '(fd, rd, wr) => '(ud, want) ← ep !! fd; Some (Event rd (wr && want) ud)) l.

(** The number of events, -1 for an error. *)
Definition event_wait : sk (Z * list event) :=
  a ← call1 CWait;
  _ ← emit OWait;
  if a_ret a <? 0 then mret (-1, [])
  else
    ep ← uget w_epoll;
    let l := take (Z.to_nat MAX_EVENT) (ready_events ep (a_ready a)) in
    mret (zlen l, l).

(** ** Identifiers and slots *)

(** One turn of the loop takes an id and its slot, when that is free.  The
    counter wraps to 0 after 2^31 - 1. *)
Fixpoint next_id_loop (n : nat) : sk Z :=
  match n with
  | O => mret (-1)
  | S n =>
      _ ← umod (fun w => with_next (i32 (next_id w + 1)) w);
      id ← uget next_id;
      _ ← uwhen (id <? 0) (umod (fun w => with_next (Z.land (next_id w) 0x7fffffff) w));
      id ← uget next_id;
      k ← slot_of id;
      s ← get k;
      if decide (type s = INVALID) then
        _ ← put k (Socket (-1) id (s_ud s) (wb_size s) (high s) (low s) RESERVE (protocol s) (p_size s) (p_udp s));
        mret id
      else next_id_loop n
  end.

Definition socket_next_id : sk Z := next_id_loop (Z.to_nat MAX_SOCKET).

(** [None] is the null pointer. *)
Definition socket_new (fd id proto ud : Z) (add : bool) : sk (option Z) :=
  k ← slot_of id;
  s ← get k;
  _ ← uassert (bool_decide (type s = RESERVE));
  _ ← put k (Socket fd id ud 0 [] [] RESERVE proto MIN_SOCK_BUFF (p_udp s));
  if add then
    e ← event_add fd (Some k);
    if e : bool then
      s ← get k; _ ← put k (set_type INVALID s); mret None
    else mret (Some k)
  else mret (Some k).

Definition close_fd (fd : Z) : sk unit := emit (OClose fd).

(** [S.alloc(tmp->buff, 0)] for each buffer, whatever it is. *)
Fixpoint socket_free_buffer_list (l : list buffer) : sk unit :=
  match l with
  | [] => mret tt
  | wb :: l => _ ← emit (OFree false (buff wb)); socket_free_buffer_list l
  end.

Definition socket_force_close (k : Z) : sk msg :=
  s ← get k;
  let ret := Msg (s_id s) (s_ud s) DNull 0 in
  if decide (type s = INVALID) then mret ret
  else
    _ ← uassert (bool_decide (type s <> RESERVE));
    _ ← socket_free_buffer_list (high s);
    _ ← socket_free_buffer_list (low s);
    _ ← uwhen (bool_decide (type s <> PACCEPT /\ type s <> PLISTEN)) (event_del (s_fd s));
    _ ← uwhen (bool_decide (type s <> BIND)) (close_fd (s_fd s));
    _ ← put k (set_type INVALID (set_lists [] [] (wb_size s) s));
    mret ret.

(** ** Sending *)

(** [struct socket_send_object]: the data, its size, and whether [free] is the
    interface's. *)
Definition socket_send_object_init (data size : Z) : Z * Z * bool :=
  if size <? 0 then (soi_data data, soi_size data, true) else (data, size, false).

(** [so.free(data)] *)
Definition free_data (data size : Z) : sk unit :=
  let '(_, _, o) := socket_send_object_init data size in emit (OFree o data).

(** [write], tried again after EINTR. *)
Definition write_buffer (fd : Z) (b : buffer) : sk answer :=
  a ← call (CWrite fd (bytes (ptr b) (len b)));
  _ ← uwhen (0 <=? a_ret a) (emit (OWrite fd (bytes (ptr b) (a_ret a))));
  mret a.

(** [l] is the list [hi] of the socket. *)
Fixpoint socket_send_buffer_list (k : Z) (hi : bool) (l : list buffer) (m : msg) : sk (Z * msg) :=
  match l with
  | [] => mret (-1, m)
  | tmp :: next =>
      s ← get k;
      a ← write_buffer (s_fd s) tmp;
      if a_ret a <? 0 then
        if decide (a_errno a = EAGAIN) then mret (-1, m)
        else m ← socket_force_close k; mret (SOCKET_CLOSE, m)
      else
        let sz := a_ret a in
        if negb (sz =? len tmp) then
          let rest := Buffer (buff tmp) (ptr tmp + sz) (len tmp - sz) (send_object tmp) (udp_address tmp) in
          _ ← put k (set_queue hi (rest :: next) (wb_size s - sz) s); mret (-1, m)
        else
          _ ← put k (set_queue hi next (wb_size s - sz) s);
          _ ← emit (OFree false (buff tmp));
          socket_send_buffer_list k hi next m
  end.

(** What follows when the list [high] is empty. *)
Definition send_low (k : Z) (m : msg) : sk (Z * msg) :=
  s ← get k;
  match low s with
  | _ :: _ =>
      '(r, m) ← socket_send_buffer_list k false (low s) m;
      if r =? SOCKET_CLOSE then mret (SOCKET_CLOSE, m)
      else
        s ← get k;
        match low s with
        | tmp :: next =>
            if socket_buffer_list_complete (low s) then mret (-1, m)
            else
              _ ← uassert (match high s with [] => true | _ => false end);
              _ ← put k (set_lists [tmp] next (wb_size s) s); mret (-1, m)
        | [] => mret (-1, m)
        end
  | [] =>
      _ ← event_write (s_fd s) k false;
      if decide (type s = HALFCLOSE) then m ← socket_force_close k; mret (SOCKET_CLOSE, m)
      else mret (-1, m)
  end.

Definition socket_send_buffer (k : Z) (m : msg) : sk (Z * msg) :=
  s ← get k;
  _ ← uassert (socket_buffer_list_complete (low s));
  '(r, m) ← socket_send_buffer_list k true (high s) m;
  if r =? SOCKET_CLOSE then mret (SOCKET_CLOSE, m)
  else
    s ← get k;
    match high s with [] => send_low k m | _ => mret (-1, m) end.

(** ** Receiving *)

(** [p.size] doubles when the buffer was filled and halves when it was less
    than half full. *)
Definition next_size (sz n : Z) : Z :=
  if n =? sz then sz * 2 else if (sz >? MIN_SOCK_BUFF) && (n * 2 <? sz) then sz / 2 else sz.

Definition with_data (d : mdata) (m : msg) : msg := Msg (m_id m) (m_ud m) d (m_size m).

Definition socket_forward_tcp (k : Z) (m : msg) : sk (Z * msg) :=
  s ← get k;
  a ← call1 (CRead (s_fd s) (p_size s));
  let n := a_ret a in
  if n <? 0 then
    if decide (a_errno a = EINTR \/ a_errno a = EAGAIN) then mret (-1, m)
    else m ← socket_force_close k; mret (SOCKET_ERR, with_data DErrno m)
  else if n =? 0 then m ← socket_force_close k; mret (SOCKET_CLOSE, m)
  else if decide (type s = HALFCLOSE) then mret (-1, m)
  else
    _ ← put k (set_size (next_size (p_size s) n) s);
    mret (SOCKET_DATA, Msg (s_id s) (s_ud s) (DBytes (a_data a)) n).

(** The protocol, then the port and the address as the kernel wrote them. *)
Definition gen_udp_address (proto : Z) (sa : list Z) : list Z := proto :: sa.

(** The address follows the data in the block; [m_size] is the data's. *)
Definition socket_forward_udp (k : Z) (m : msg) : sk (Z * msg) :=
  s ← get k;
  a ← call1 (CRecvfrom (s_fd s) MAX_UDP_PACKAGE);
  let n := a_ret a in
  if n <? 0 then
    if decide (a_errno a = EINTR \/ a_errno a = EAGAIN) then mret (-1, m)
    else m ← socket_force_close k; mret (SOCKET_ERR, with_data DErrno m)
  else
    let proto := if a_inet6 a then PROTOCOL_UDPv6 else PROTOCOL_UDP in
    if negb (protocol s =? proto) then mret (-1, m)
    else
      sa ← ulift (head (a_addrs a));
      mret (SOCKET_UDP, Msg (s_id s) (s_ud s) (DBytes (a_data a ++ gen_udp_address proto (ai_bytes sa))) n).

(** ** Requests *)

(** The node that [socket_append_buffer_list] adds at the end. *)
Definition new_buffer (r : send_req) (n : Z) (addr : list Z) : buffer :=
  let '(data, size, o) := socket_send_object_init (r_data r) (r_size r) in
  Buffer (r_data r) (data + n) (size - n) o addr.

Definition append_buffer (k : Z) (hi : bool) (b : buffer) : sk unit :=
  s ← get k; put k (set_queue hi (queue_of hi s ++ [b]) (wb_size s + len b) s).

(** A priority that is neither high nor low: nothing is queued. *)
Definition append_priority (k : Z) (r : send_req) (b : buffer) : sk unit :=
  if r_priority r =? SOCKET_PRIORITY_HIGH then append_buffer k true b
  else if r_priority r =? SOCKET_PRIORITY_LOW then append_buffer k false b
  else mret tt.

Definition socket_append_sendbuffer (k : Z) (r : send_req) (n : Z) : sk unit :=
  append_priority k r (new_buffer r n []).

Definition socket_append_udp_sendbuffer (k : Z) (r : send_req) (addr : list Z) : sk unit :=
  append_priority k r (new_buffer r 0 addr).

Definition valid_id (s : socket) (id : Z) : bool :=
  negb (bool_decide (type s = INVALID)) && (s_id s =? id).

Definition socket_req_close (id ud : Z) (m : msg) : sk (Z * msg) :=
  k ← slot_of id;
  s ← get k;
  if negb (valid_id s id) then mret (SOCKET_CLOSE, Msg id ud (DText "closed") (m_size m))
  else
    '(r, m) ← (if no_pending s then mret (-1, m) else socket_send_buffer k m);
    if negb (r =? -1) then mret (r, m)
    else
      s ← get k;
      if no_pending s then
        _ ← socket_force_close k;
        mret (SOCKET_CLOSE, Msg id ud (DText "closed") 0)
      else
        _ ← put k (set_type HALFCLOSE s); mret (-1, m).

(** [socket_new] without [add] succeeds. *)
Definition socket_req_listen (id fd ud : Z) (m : msg) : sk (Z * msg) :=
  r ← socket_new fd id PROTOCOL_TCP ud false;
  match r with
  | Some k => s ← get k; _ ← put k (set_type PLISTEN s); mret (-1, m)
  | None =>
      _ ← close_fd fd;
      k ← slot_of id; s ← get k; _ ← put k (set_type INVALID s);
      mret (SOCKET_ERR, Msg id ud (DText "socket limit") (m_size m))
  end.

(** The first address to which a connection is made or under way: the
    descriptor, whether it is made, and the address. *)
Fixpoint connect_loop (l : list ainfo) : sk (option (Z * bool * ainfo)) :=
  match l with
  | [] => mret None
  | ai :: l =>
      a ← call1 (CSocket (ai_inet6 ai));
      let fd := a_ret a in
      if fd <? 0 then connect_loop l
      else
        c ← call1 (CConnect fd ai);
        if negb (a_ret c =? 0) && negb (bool_decide (a_errno c = EINPROGRESS)) then
          _ ← close_fd fd; connect_loop l
        else mret (Some (fd, a_ret c =? 0, ai))
  end.

(** [_failed] *)
Definition open_failed (id ud : Z) (d : mdata) (m : msg) : sk (Z * msg) :=
  k ← slot_of id; s ← get k; _ ← put k (set_type INVALID s);
  mret (SOCKET_ERR, Msg id ud d (m_size m)).

(** [inet_ntop]: without a text [data] stays as it was. *)
Definition text_data (t : option string) (d : mdata) : mdata :=
  match t with Some t => DText t | None => d end.

Definition socket_req_open (id port ud : Z) (host : string) (m : msg) : sk (Z * msg) :=
  g ← call1 (CGetaddrinfo host port);
  if negb (a_ret g =? 0) then open_failed id ud DErrno m
  else
    c ← connect_loop (a_addrs g);
    match c with
    | None => open_failed id ud DErrno m
    | Some (fd, made, ai) =>
        r ← socket_new fd id PROTOCOL_TCP ud true;
        match r with
        | None => _ ← close_fd fd; open_failed id ud (DText "socket limit") m
        | Some k =>
            s ← get k;
            if made : bool then
              _ ← put k (set_type OPENED s);
              mret (SOCKET_OPEN, Msg id ud (text_data (ai_text ai) (m_data m)) (m_size m))
            else
              _ ← put k (set_type OPENING s);
              _ ← event_write fd k true;
              mret (-1, Msg id ud (m_data m) (m_size m))
        end
    end.

Definition socket_req_start (id ud : Z) (m : msg) : sk (Z * msg) :=
  k ← slot_of id;
  s ← get k;
  if negb (valid_id s id) then mret (SOCKET_ERR, Msg id ud (DText "socket invalid id") (m_size m))
  else if decide (type s = PACCEPT \/ type s = PLISTEN) then
    e ← event_add (s_fd s) (Some k);
    if e : bool then
      _ ← put k (set_type INVALID s); mret (SOCKET_ERR, Msg id ud DErrno (m_size m))
    else
      _ ← put k (set_ud ud (set_type (if decide (type s = PACCEPT) then OPENED else LISTEN) s));
      mret (SOCKET_OPEN, Msg id ud (DText "start") (m_size m))
  else if decide (type s = OPENED) then
    _ ← put k (set_ud ud s);
    mret (SOCKET_OPEN, Msg id ud (DText "transfer") (m_size m))
  else mret (-1, Msg id ud (m_data m) (m_size m)).

Definition socket_req_bind (id fd ud : Z) (m : msg) : sk (Z * msg) :=
  r ← socket_new fd id PROTOCOL_TCP ud true;
  match r with
  | None => mret (SOCKET_ERR, Msg id ud (DText "socket limit") 0)
  | Some k =>
      s ← get k; _ ← put k (set_type BIND s);
      mret (SOCKET_OPEN, Msg id ud (DText "binding") 0)
  end.

(** The kernel's address from [udp_address]; empty when the protocols differ. *)
Definition udp_socket_address (s : socket) (addr : list Z) : list Z :=
  if negb (bool_decide (head addr = Some (protocol s))) then []
  else if protocol s =? PROTOCOL_UDP then take 6 (tail addr)
  else if protocol s =? PROTOCOL_UDPv6 then take 18 (tail addr)
  else [].

(** The last part of [socket_req_send]. *)
Definition send_warning (k : Z) (m : msg) : sk (Z * msg) :=
  s ← get k;
  if wb_size s >? 1024 * 1024 then
    mret (SOCKET_WARNING, Msg (s_id s) (s_ud s) DNull (wb_size s / 1024))
  else mret (-1, m).

(** [address] is null for a request without one. *)
Definition dest (s : socket) (address : option (list Z)) : list Z :=
  match address with Some a => a | None => p_udp s end.

(** The write of [socket_req_send] for TCP: [inl] is an early return. *)
Definition send_tcp (k : Z) (r : send_req) (m : msg) : sk (option (Z * msg)) :=
  let '(data, size, _) := socket_send_object_init (r_data r) (r_size r) in
  s ← get k;
  a ← call1 (CWrite (s_fd s) (bytes data size));
  _ ← uwhen (0 <=? a_ret a) (emit (OWrite (s_fd s) (bytes data (a_ret a))));
  if (a_ret a <? 0) && negb (bool_decide (a_errno a = EINTR \/ a_errno a = EAGAIN)) then
    m ← socket_force_close k;
    _ ← free_data (r_data r) (r_size r);
    mret (Some (SOCKET_CLOSE, m))
  else
    let n := if a_ret a <? 0 then 0 else a_ret a in
    if n =? size then _ ← free_data (r_data r) (r_size r); mret (Some (-1, m))
    else _ ← socket_append_sendbuffer k r n; mret None.

(** The [sendto] of [socket_req_send]: its result is compared with the size in
    the request. *)
Definition send_udp (k : Z) (r : send_req) (address : option (list Z)) (m : msg) : sk (option (Z * msg)) :=
  let '(data, size, _) := socket_send_object_init (r_data r) (r_size r) in
  s ← get k;
  let addr := dest s address in
  a ← call1 (CSendto (s_fd s) (udp_socket_address s addr) (bytes data size));
  _ ← uwhen (0 <=? a_ret a) (emit (OSendto (s_fd s) (udp_socket_address s addr) (bytes data size)));
  if negb (a_ret a =? r_size r) then _ ← socket_append_udp_sendbuffer k r addr; mret None
  else _ ← free_data (r_data r) (r_size r); mret (Some (-1, m)).

Definition socket_req_send (r : send_req) (m : msg) (address : option (list Z)) : sk (Z * msg) :=
  k ← slot_of (r_id r);
  s ← get k;
  if negb (valid_id s (r_id r)) || bool_decide (type s = HALFCLOSE \/ type s = PACCEPT) then
    _ ← free_data (r_data r) (r_size r); mret (-1, m)
  else if decide (type s = PLISTEN \/ type s = LISTEN) then
    _ ← free_data (r_data r) (r_size r); mret (-1, m)
  else if no_pending s && bool_decide (type s = OPENED) then
    e ← (if protocol s =? PROTOCOL_TCP then send_tcp k r m else send_udp k r address m);
    match e with
    | Some res => mret res
    | None => _ ← event_write (s_fd s) k true; send_warning k m
    end
  else
    _ ← (if protocol s =? PROTOCOL_TCP then socket_append_sendbuffer k r 0
         else socket_append_udp_sendbuffer k r (dest s address));
    send_warning k m.

(** [setsockopt] leaves the server's state alone. *)
Definition socket_req_opt (id : Z) (m : msg) : sk (Z * msg) :=
  _ ← slot_of id; mret (-1, m).

Definition udp_length (proto : Z) : Z := if proto =? PROTOCOL_UDP then 7 else 19.

Definition socket_req_setudp (id : Z) (address : list Z) (m : msg) : sk (Z * msg) :=
  k ← slot_of id;
  s ← get k;
  if negb (valid_id s id) then mret (-1, m)
  else if negb (bool_decide (head address = Some (protocol s))) then
    mret (SOCKET_ERR, Msg id (s_ud s) (DText "socket protocol mismatch") (m_size m))
  else
    a ← ulift (memcpy (p_udp s) 0 address 0 (udp_length (protocol s)));
    _ ← put k (set_udp a s); mret (-1, m).

Definition socket_req_udp (id fd : Z) (inet6 : bool) (ud : Z) (m : msg) : sk (Z * msg) :=
  r ← socket_new fd id (if inet6 then PROTOCOL_UDPv6 else PROTOCOL_UDP) ud true;
  match r with
  | None =>
      _ ← close_fd fd;
      k ← slot_of id; s ← get k; _ ← put k (set_type INVALID s); mret (-1, m)
  | Some k =>
      s ← get k;
      _ ← put k (set_udp (replicate (Z.to_nat UDP_ADDRESS_SIZE) 0) (set_type OPENED s)); mret (-1, m)
  end.

(** [None] is an error of [read]; the pipe is read after [select] found it
    readable. *)
Definition socket_recv_req : sk (option req) :=
  a ← call CPipeRead;
  if a_ret a <? 0 then mret None
  else
    p ← uget pipe;
    match p with
    | r :: p => _ ← umod (with_pipe p); mret (Some r)
    | [] => ulift None
    end.

Definition socket_handle_req (m : msg) : sk (Z * msg) :=
  r ← socket_recv_req;
  match r with
  | None => mret (-1, m)
  | Some ReqExit => mret (SOCKET_EXIT, Msg 0 0 DNull 0)
  | Some (ReqClose id ud) => socket_req_close id ud m
  | Some (ReqListen id fd ud) => socket_req_listen id fd ud m
  | Some (ReqOpen id port ud host) => socket_req_open id port ud host m
  | Some (ReqStart id ud) => socket_req_start id ud m
  | Some (ReqBind id fd ud) => socket_req_bind id fd ud m
  | Some (ReqSend r) => socket_req_send r m None
  | Some (ReqOpt id) => socket_req_opt id m
  | Some (ReqSetudp id a) => socket_req_setudp id a m
  | Some (ReqUdp id fd inet6 ud) => socket_req_udp id fd inet6 ud m
  | Some (ReqSendudp r a) => socket_req_send r m (Some a)
  end.

(** ** Events *)

Definition socket_try_open (k : Z) (m : msg) : sk (Z * msg) :=
  s ← get k;
  a ← call1 (CSoError (s_fd s));
  if (a_ret a <? 0) || negb (a_val a =? 0) then
    m ← socket_force_close k; mret (SOCKET_ERR, with_data DErrno m)
  else
    _ ← put k (set_type OPENED s);
    _ ← uwhen (no_pending s) (event_write (s_fd s) k false);
    p ← call1 (CPeer (s_fd s));
    mret (SOCKET_OPEN, with_data (if a_ret p =? 0 then text_data (a_text p) (m_data m) else m_data m) m).

Definition socket_try_accept (k : Z) (m : msg) : sk (Z * msg) :=
  s ← get k;
  a ← call1 (CAccept (s_fd s));
  let client_fd := a_ret a in
  if client_fd <? 0 then
    if decide (a_errno a = EMFILE \/ a_errno a = ENFILE) then
      mret (SOCKET_ERR, Msg (s_id s) (s_ud s) DErrno (m_size m))
    else mret (-1, m)
  else
    id ← socket_next_id;
    if id <? 0 then _ ← close_fd client_fd; mret (-1, m)
    else
      r ← socket_new client_fd id PROTOCOL_TCP (s_ud s) false;
      match r with
      | None => _ ← close_fd client_fd; mret (-1, m)
      | Some k' =>
          s' ← get k';
          _ ← put k' (set_type PACCEPT s');
          mret (SOCKET_ACCEPT, Msg (m_id m) (m_ud m) (text_data (a_text a) DNull) (s_id s'))
      end.

(** The events that are left of a socket that was closed. *)
Definition clear_event (w : world) (id : Z) (e : event) : event :=
  match e_ud e with
  | Some k =>
      if bool_decide (type (slot_at k w) = INVALID) && (s_id (slot_at k w) =? id)
      then Event (e_read e) (e_write e) None else e
  | None => e
  end.

Definition clear_closed (id r : Z) : sk unit :=
  uwhen ((r =? SOCKET_CLOSE) || (r =? SOCKET_ERR))
    (umod (fun w => with_events (map (clear_event w id) (events w)) w)).

(** [select] with no time to wait: whether the pipe can be read. *)
Definition _socket_has_ctrl : sk bool :=
  p ← uget pipe; mret (match p with [] => false | _ => true end).

(** One event; [-1] goes on with the loop of [socket_poll]. [ev] is not in
    [events] any more: [--S.ev_idx] puts it back. *)
Definition socket_event (k : Z) (ev : event) (m : msg) : sk (Z * msg) :=
  s ← get k;
  match type s with
  | OPENING => socket_try_open k m
  | LISTEN => socket_try_accept k m
  | INVALID => mret (-1, m)
  | _ =>
      if e_read ev then
        '(r, m) ← (if protocol s =? PROTOCOL_TCP then socket_forward_tcp k m else socket_forward_udp k m);
        if negb (protocol s =? PROTOCOL_TCP) && (r =? SOCKET_UDP) then
          _ ← umod (fun w => with_events (ev :: events w) w); mret (r, m)
        else
          _ ← uwhen (e_write ev) (umod (fun w => with_events (Event false true (e_ud ev) :: events w) w));
          s ← get k;
          _ ← uwhen (negb (r =? -1)) (clear_closed (s_id s) r);
          mret (r, m)
      else if e_write ev then
        '(r, m) ← socket_send_buffer k m;
        s ← get k;
        _ ← uwhen (negb (r =? -1)) (clear_closed (s_id s) r);
        mret (r, m)
      else mret (-1, m)
  end.

(** One turn of the loop of [socket_poll]; [None] goes on. *)
Inductive turn := TNext (m : msg) | TRet (r : Z) (m : msg) | TFail.

Definition take_event (m : msg) : sk turn :=
  evs ← uget events;
  match evs with
  | [] => ulift None
  | ev :: rest =>
      _ ← umod (with_events rest);
      match e_ud ev with
      | None => mret (TNext m)
      | Some k =>
          s ← get k;
          '(r, m) ← socket_event k ev (Msg (s_id s) (s_ud s) DNull 0);
          mret (if r =? -1 then TNext m else TRet r m)
      end
  end.

Definition poll_events (m : msg) : sk turn :=
  evs ← uget events;
  match evs with
  | [] =>
      '(n, l) ← event_wait;
      _ ← umod (with_check true);
      _ ← umod (with_events l);
      if n <=? 0 then mret TFail else take_event m
  | _ => take_event m
  end.

Definition poll_turn (m : msg) : sk turn :=
  c ← uget check_ctrl;
  if c : bool then
    h ← _socket_has_ctrl;
    if h : bool then
      '(r, m) ← socket_handle_req m;
      if negb (r =? -1) then _ ← clear_closed (m_id m) r; mret (TRet r m)
      else mret (TNext m)
    else _ ← umod (with_check false); poll_events m
  else poll_events m.

(** At most [fuel] turns; [None] when the loop is still running. *)
Fixpoint poll_loop (fuel : nat) (m : msg) : sk (option Z) :=
  match fuel with
  | O => mret None
  | S fuel =>
      t ← poll_turn m;
      match t with
      | TNext m => poll_loop fuel m
      | TRet r m => _ ← emit (ODispatch r m); mret (Some r)
      | TFail => mret (Some (-1))
      end
  end.

Definition socket_poll (fuel : nat) : sk (option Z) := poll_loop fuel (Msg 0 0 DNull 0).

(** ** The interface *)

(** A request that [write] cannot put into the pipe is lost. *)
Definition socket_send_req (r : req) : sk unit :=
  a ← call CPipeWrite;
  if a_ret a <? 0 then mret tt else umod (fun w => with_pipe (pipe w ++ [r]) w).

Definition socket_exit : sk unit := socket_send_req ReqExit.
Definition socket_start (id ud : Z) : sk unit := socket_send_req (ReqStart id ud).
Definition socket_close (id ud : Z) : sk unit := socket_send_req (ReqClose id ud).
Definition socket_nodelay (id : Z) : sk unit := socket_send_req (ReqOpt id).

(** [strcpy] into the field [host] of [struct _open_req], which has 128 bytes. *)
Definition strcpy_host (host : string) : option string := if Z.of_nat (String.length host) <? 128 then Some host else None.

(** The id is sent even when it is -1. *)
Definition socket_open (host : string) (port ud : Z) : sk Z :=
  id ← socket_next_id; host ← ulift (strcpy_host host); _ ← socket_send_req (ReqOpen id port ud host); mret id.

(** A host name of 128 characters or more is copied behind the field. *)
Lemma open_long_host host port ud w : 128 <= Z.of_nat (String.length host) -> socket_open host port ud w = None.
Proof.
  intros Hl. unfold socket_open, mbind, ust_bind. destruct (socket_next_id w) as [[id w']|]; [|done].
  unfold ulift, strcpy_host. by rewrite (proj2 (Z.ltb_ge _ _)).
Qed.

(** The descriptor, or -1, and whether the family is AF_INET6. *)
Definition _socket_bind (host : string) (port : Z) : sk (Z * bool) :=
  g ← call1 (CGetaddrinfo (if decide (host = EmptyString) then "0.0.0.0"%string else host) port);
  if negb (a_ret g =? 0) then mret (-1, false)
  else
    ai ← ulift (head (a_addrs g));
    a ← call1 (CSocket (ai_inet6 ai));
    let fd := a_ret a in
    if fd <? 0 then mret (-1, ai_inet6 ai)
    else
      o ← call1 (CReuse fd);
      if a_ret o =? -1 then _ ← close_fd fd; mret (-1, ai_inet6 ai)
      else
        b ← call1 (CBind fd ai);
        if negb (a_ret b =? 0) then _ ← close_fd fd; mret (-1, ai_inet6 ai)
        else mret (fd, ai_inet6 ai).

Definition _socket_listen (host : string) (port : Z) : sk Z :=
  '(fd, _) ← _socket_bind host port;
  if fd <? 0 then mret (-1)
  else
    a ← call1 (CListen fd);
    if a_ret a =? -1 then _ ← close_fd fd; mret (-1) else mret fd.

Definition socket_listen (host : string) (port ud : Z) : sk Z :=
  fd ← _socket_listen host port;
  if fd <? 0 then mret (-1)
  else id ← socket_next_id; _ ← socket_send_req (ReqListen id fd ud); mret id.

Definition socket_bind (fd ud : Z) : sk Z :=
  id ← socket_next_id; _ ← socket_send_req (ReqBind id fd ud); mret id.

(** The test of [socket_send] and [socket_udpsend]. *)
Definition sendable (s : socket) (id : Z) : bool :=
  (s_id s =? id) && negb (bool_decide (type s = INVALID)).

Definition socket_send (id data size priority : Z) : sk Z :=
  k ← slot_of id;
  s ← get k;
  if negb (sendable s id) then _ ← free_data data size; mret (-1)
  else
    _ ← socket_send_req (ReqSend (SendReq id priority size data));
    s ← get k; mret (wb_size s).

(** [host] is none for a null pointer. *)
Definition socket_udp (host : option string) (port ud : Z) : sk Z :=
  '(fd, inet6) ←
    (if negb (port =? 0) || bool_decide (host <> None) then _socket_bind (default EmptyString host) port
     else a ← call1 (CSocket false); mret (a_ret a, false));
  if fd <? 0 then mret (-1)
  else id ← socket_next_id; _ ← socket_send_req (ReqUdp id fd inet6 ud); mret id.

Definition socket_udpopen (id : Z) (host : string) (port : Z) : sk Z :=
  g ← call1 (CGetaddrinfo host port);
  if negb (a_ret g =? 0) then mret (-1)
  else
    ai ← ulift (head (a_addrs g));
    let address := gen_udp_address (if ai_inet6 ai then PROTOCOL_UDPv6 else PROTOCOL_UDP) (ai_bytes ai) in
    let address := address ++ replicate (Z.to_nat UDP_ADDRESS_SIZE - length address) 0 in
    _ ← socket_send_req (ReqSetudp id address); mret 0.

(** The length of an address by its first byte. *)
Definition address_size (address : list Z) : option Z :=
  match head address with
  | Some p => if p =? PROTOCOL_UDP then Some 7 else if p =? PROTOCOL_UDPv6 then Some 19 else None
  | None => None
  end.

Definition socket_udpsend (id : Z) (address : list Z) (data size : Z) : sk Z :=
  k ← slot_of id;
  s ← get k;
  if negb (sendable s id) then _ ← free_data data size; mret (-1)
  else
    match address_size address with
    | None => _ ← free_data data size; mret (-1)
    | Some n =>
        a ← ulift (memcpy (replicate (Z.to_nat UDP_ADDRESS_SIZE) 0) 0 address 0 n);
        _ ← socket_send_req (ReqSendudp (SendReq id SOCKET_PRIORITY_HIGH size data) a);
        s ← get k; mret (wb_size s)
    end.

(** The address that follows the data of a message. *)
Definition socket_udpaddress (m : msg) : option (list Z) :=
  match m_data m with
  | DBytes l =>
      let a := drop (Z.to_nat (m_size m)) l in
      match address_size a with Some n => Some (take (Z.to_nat n) a) | None => None end
  | _ => None
  end.

(** [a_data] is the two ends of the pipe. *)
Definition socket_init : sk Z :=
  _ ← umod (fun w => World 0 ∅ [] false (0, 0) [] ∅ (log w) (w_os w));
  p ← call1 CPipe;
  if negb (a_ret p =? 0) then mret (-1)
  else
    match a_data p with
    | [rfd; sfd] =>
        e ← event_add rfd None;
        if e : bool then _ ← close_fd rfd; _ ← close_fd sfd; mret (-1)
        else _ ← umod (with_ctl (rfd, sfd)); _ ← umod (with_check true); mret 0
    | _ => ulift None
    end.

Fixpoint unit_loop (n : nat) (k : Z) : sk unit :=
  match n with
  | O => mret tt
  | S n =>
      s ← get k;
      _ ← uwhen (bool_decide (type s <> RESERVE)) (_ ← socket_force_close k; mret tt);
      unit_loop n (k + 1)
  end.

Definition socket_unit : sk unit :=
  _ ← unit_loop (Z.to_nat MAX_SOCKET) 0;
  fds ← uget ctl_fds;
  _ ← close_fd fds.2;
  _ ← close_fd fds.1;
  umod (with_epoll ∅).

End Server.

(** A system that answers from a script; data lies at its own address. *)
Definition answer0 : answer := Answer 0 0 EOTHER [] 0 false None [] [].
Definition at_most (n : Z) (a : answer) : answer :=
  Answer (a_intr a) (Z.min n (a_ret a)) (a_errno a) (a_data a) (a_val a) (a_inet6 a) (a_text a) (a_addrs a)
         (a_ready a).
Definition demo_os : Os := {|
  os := list answer;
  sys c o :=
    match c with
    | CWrite _ d => (at_most (zlen d) (hd answer0 o), tail o)
    | CPipeRead => (answer0, o)
    | _ => (hd answer0 o, tail o)
    end;
  mem a := a mod 256;
  soi_data p := p + 16;
  soi_size _ := 100
|}.

Definition ans (n : Z) : answer := Answer 0 n EOTHER [] 0 false None [] [].
Definition demo_world (l : list answer) : @world demo_os :=
  @World demo_os 7 {[8 := Socket 5 8 77 0 [] [] OPENED PROTOCOL_TCP 64 []]} [] true (3, 4) []
    {[5 := (Some 8, false)]} [] l.
