(* ===== verification/SocketOk.v ===== *)
(** * The socket server: proofs

    The data of a connection is sent once, in order and then released, whatever
    the system answers ([socket_stream]). *)

From S2P Require Import Prelude Socket.

(** [write] does not claim more than it was given. *)
Class OsOk `(Os) : Prop := {
  sys_write fd d o : a_ret (sys (CWrite fd d) o).1 <= zlen d
}.

Section Facts.
Context `{Os}.

Lemma wp_get k w (Q : socket -> world -> Prop) : Q (slot_at k w) w -> wp (get k) w Q.
Proof. done. Qed.
Lemma wp_put k s w (Q : unit -> world -> Prop) :
  Q tt (with_slot (<[k := s]> (slot w)) w) -> wp (put k s) w Q.
Proof. done. Qed.
Lemma wp_emit o w (Q : unit -> world -> Prop) : Q tt (with_log (log w ++ [o]) w) -> wp (emit o) w Q.
Proof. done. Qed.
Lemma wp_mod f w (Q : unit -> world -> Prop) : Q tt (f w) -> wp (umod f) w Q.
Proof. done. Qed.
Lemma wp_assert b w (Q : unit -> world -> Prop) : b = true -> Q tt w -> wp (uassert b) w Q.
Proof. by intros ->. Qed.
Lemma wp_when b m w (Q : unit -> world -> Prop) :
  (b = true -> wp m w Q) -> (b = false -> Q tt w) -> wp (uwhen b m) w Q.
Proof. destruct b; cbn; auto. Qed.
Lemma wp_call c w (Q : answer -> world -> Prop) :
  (forall a o, (a, o) = sys c (w_os w) -> Q a (with_os o w)) -> wp (call c) w Q.
Proof. intros HQ. unfold wp, call. destruct (sys c (w_os w)) eqn:E. by apply HQ. Qed.
Lemma wp_call1 c w (Q : answer -> world -> Prop) :
  (forall a o, (a, o) = sys c (w_os w) -> Q (first a) (with_os o w)) -> wp (call1 c) w Q.
Proof. intros HQ. apply wp_bind, wp_call. intros a o E. by apply wp_ret, HQ. Qed.

Lemma wp_slot_of id w (Q : Z -> world -> Prop) :
  0 <= HASH_ID id -> Q (HASH_ID id) w -> wp (slot_of id) w Q.
Proof. intros Hk HQ. unfold wp, slot_of. by rewrite (proj2 (Z.leb_le _ _)). Qed.

Lemma slot_at_insert k j s w :
  slot_at j (with_slot (<[k := s]> (slot w)) w) = if decide (k = j) then s else slot_at j w.
Proof. unfold slot_at. cbn. rewrite lookup_insert. by case_decide. Qed.

Lemma slot_at_put k s w : slot_at k (with_slot (<[k := s]> (slot w)) w) = s.
Proof. rewrite slot_at_insert. by rewrite decide_True. Qed.

(** The parts of the world that an operation leaves alone. *)
Lemma slot_at_log k l w : slot_at k (with_log l w) = slot_at k w.
Proof. done. Qed.
Lemma slot_at_os k o w : slot_at k (with_os o w) = slot_at k w.
Proof. done. Qed.
Lemma log_slot s w : log (with_slot s w) = log w.
Proof. done. Qed.
Lemma log_log l w : log (with_log l w) = l.
Proof. done. Qed.
Lemma log_os o w : log (with_os o w) = log w.
Proof. done. Qed.

Lemma bytes_length a n : 0 <= n -> zlen (bytes a n) = n.
Proof. intros Hn. unfold bytes. rewrite length_map, length_seq. lia. Qed.

Lemma bytes_app a n m : 0 <= n -> 0 <= m -> bytes a (n + m) = bytes a n ++ bytes (a + n) m.
Proof.
  intros Hn Hm. unfold bytes. rewrite Z2Nat.inj_add, seq_app, map_app by done. f_equal.
  rewrite Nat.add_0_l, <- (Nat.add_0_r (Z.to_nat n)), <- fmap_add_seq.
  rewrite <- list_fmap_compose. apply list_fmap_ext. intros i x _. cbn. f_equal. lia.
Qed.
End Facts.

Create Rewrite HintDb sock.
#[export] Hint Rewrite @slot_at_put @slot_at_log @slot_at_os @log_slot @log_log @log_os : sock.

(** One step of a program; [wp_steps] stops at the calls of other functions. *)
Ltac wp_step :=
  match goal with
  | |- wp (_ ≫= _) _ _ => apply wp_bind
  | |- wp (mret _) _ _ => apply wp_ret
  | |- wp (get _) _ _ => apply wp_get
  | |- wp (put _ _) _ _ => apply wp_put
  | |- wp (emit _) _ _ => apply wp_emit
  | |- wp (umod _) _ _ => apply wp_mod
  end; cbv beta match.
Ltac wp_steps := repeat wp_step.

(** ** A connection *)

Section Stream.
Context `{OsOk}.

(** The bytes written to a descriptor, and the data released. *)
Definition sent_of (fd : Z) (o : out) : list Z :=
  match o with OWrite f d => if f =? fd then d else [] | _ => [] end.
Definition sent (fd : Z) (l : list out) : list Z := concat (map (sent_of fd) l).
Definition freed_of (o : out) : list Z := match o with OFree _ p => [p] | _ => [] end.
Definition freed (l : list out) : list Z := concat (map freed_of l).

Lemma sent_app fd l1 l2 : sent fd (l1 ++ l2) = sent fd l1 ++ sent fd l2.
Proof. unfold sent. by rewrite map_app, concat_app. Qed.
Lemma freed_app l1 l2 : freed (l1 ++ l2) = freed l1 ++ freed l2.
Proof. unfold freed. by rewrite map_app, concat_app. Qed.

(** What a request asks to send. *)
Definition payload (r : send_req) : list Z :=
  let '(data, size, _) := socket_send_object_init (r_data r) (r_size r) in bytes data size.
Definition payloads (rs : list send_req) : list Z := concat (map payload rs).

Definition pend (l : list buffer) : list Z := concat (map (fun b => bytes (ptr b) (len b)) l).

#[local] Arguments pend : simpl never.

(** A request to connection [id]: high priority, and a size that is no error. *)
Definition request (id : Z) (r : send_req) : Prop :=
  r_id r = id /\ r_priority r = SOCKET_PRIORITY_HIGH /\
  0 <= (socket_send_object_init (r_data r) (r_size r)).1.2.

Definition connected (t : stype) : Prop := t = OPENING \/ t = OPENED.

(** The connection after the requests [rs]: [X] was written and [F] released.
    Until it is closed nothing is lost; then what was written is a prefix. *)
Record stream (id fd : Z) (s : socket) (X F : list Z) (rs : list send_req) : Prop := {
  st_own : F ++ map buff (high s) ≡ₚ map r_data rs;
  st_prefix : X ++ pend (high s) `prefix_of` payloads rs;
  st_open : connected (type s) -> X ++ pend (high s) = payloads rs;
  st_type : connected (type s) \/ type s = HALFCLOSE \/ (type s = INVALID /\ high s = []);
  st_low : low s = [];
  st_len : Forall (fun b => 0 <= len b) (high s);
  st_id : s_id s = id;
  st_fd : s_fd s = fd;
  st_proto : protocol s = PROTOCOL_TCP
}.

Context (k id fd : Z) (Hk : HASH_ID id = k) (Hk0 : 0 <= k) (w0 : world).

Definition J (rs : list send_req) (w : world) : Prop :=
  exists X F, sent fd (log w) = sent fd (log w0) ++ X /\ freed (log w) = freed (log w0) ++ F /\
    stream id fd (slot_at k w) X F rs.

Implicit Types (w : world) (rs : list send_req) (m : msg).

Lemma J_frame rs w w' : slot_at k w' = slot_at k w -> log w' = log w -> J rs w -> J rs w'.
Proof. intros Es El (X & F & H1 & H2 & H3). exists X, F. by rewrite Es, El. Qed.

Lemma J_live rs w : J rs w -> type (slot_at k w) <> RESERVE.
Proof. intros (X & F & _ & _ & Hs). destruct (st_type _ _ _ _ _ _ Hs) as [[->| ->]|[->|[-> _]]]; done. Qed.

Lemma wp_free_list l w (Q : unit -> world -> Prop) :
  Q tt (with_log (log w ++ map (fun b => OFree false (buff b)) l) w) ->
  wp (socket_free_buffer_list l) w Q.
Proof.
  revert w. induction l as [|b l IH]; intros w HQ; cbn [socket_free_buffer_list map] in *.
  - apply wp_ret. rewrite app_nil_r in HQ. by destruct w.
  - wp_steps. apply IH. cbn. by rewrite <- app_assoc.
Qed.

Lemma freed_frees l : freed (map (fun b => OFree false (buff b)) l) = map buff l.
Proof. unfold freed. rewrite map_map. cbn. induction l as [|b l IH]; [done|]. cbn. by rewrite IH. Qed.
Lemma sent_frees f l : sent f (map (fun b => OFree false (buff b)) l) = [].
Proof. unfold sent. rewrite map_map. cbn. induction l as [|b l IH]; [done|]. cbn. by rewrite IH. Qed.

(** Closing releases what is queued. *)
Lemma force_close_J rs w :
  J rs w ->
  wp (socket_force_close k) w (fun _ w' => J rs w' /\ type (slot_at k w') = INVALID).
Proof.
  intros HJ. pose proof (J_live _ _ HJ) as Hlive. destruct HJ as (X & F & HX & HF & Hs).
  unfold socket_force_close. wp_steps. case_decide as Hty; wp_steps; [split; [by exists X, F|done]|].
  apply wp_assert; [by rewrite bool_decide_true|]. wp_steps. apply wp_free_list. wp_steps. apply wp_free_list.
  rewrite (st_low _ _ _ _ _ _ Hs). cbn [map]. rewrite app_nil_r. wp_steps.
  set (w1 := with_log _ (with_log _ w)).
  assert (forall w2 l2, log w2 = log w1 ++ l2 -> sent fd l2 = [] -> freed l2 = [] ->
    slot_at k w2 = set_type INVALID (set_lists [] [] (wb_size (slot_at k w)) (slot_at k w)) ->
    J rs w2 /\ type (slot_at k w2) = INVALID) as Hend.
  { intros w2 l2 El E1 E2 E. rewrite E. split; [|done].
    exists X, (F ++ map buff (high (slot_at k w))). rewrite E, El.
    subst w1. cbn [log with_log]. rewrite !sent_app, !freed_app, E1, E2, sent_frees, freed_frees, !app_nil_r.
    rewrite HX, HF, app_assoc. do 2 (split; [done|]). destruct Hs. split; cbn; try done.
    - by rewrite app_nil_r.
    - unfold pend. cbn. rewrite app_nil_r. etrans; [|done]. by eexists.
    - by intros [|].
    - auto.
  }
  apply wp_when; intros _; [unfold event_del|]; wp_steps;
    (apply wp_when; intros _; [unfold close_fd|]; wp_steps).
  all: first [by eapply (Hend _ []); rewrite ?app_nil_r, ?slot_at_put
             |by eapply (Hend _ [_]); rewrite ?slot_at_put].
Qed.

(** The state after a function that returned [r]: the connection is closed, or
    of the same type. *)
Definition J_post rs (t : stype) (r : Z) w : Prop :=
  J rs w /\ if r =? SOCKET_CLOSE then type (slot_at k w) = INVALID else type (slot_at k w) = t.

Lemma write_law w fd' d a o : (a, o) = sys (CWrite fd' d) (w_os w) -> a_ret a <= zlen d.
Proof. intros E. pose proof (sys_write fd' d (w_os w)). by rewrite <- E in *. Qed.

Lemma sent_write f d : sent f [OWrite f d] = d.
Proof. unfold sent. cbn. by rewrite Z.eqb_refl, app_nil_r. Qed.

Lemma pend_cons b l : pend (b :: l) = bytes (ptr b) (len b) ++ pend l.
Proof. done. Qed.

Lemma send_list_J rs l w m :
  J rs w -> type (slot_at k w) <> INVALID -> high (slot_at k w) = l ->
  wp (socket_send_buffer_list k true l m) w (fun x w' => J_post rs (type (slot_at k w)) x.1 w').
Proof.
  revert w m. induction l as [|tmp next IH]; intros w m HJ Hinv Hl; cbn [socket_send_buffer_list].
  { wp_steps. by split. }
  wp_steps. unfold write_buffer. wp_steps. apply wp_call. intros a o Ea. pose proof (write_law _ _ _ _ _ Ea) as Hlen.
  destruct HJ as (X & F & HX & HF & Hs). pose proof (st_len _ _ _ _ _ _ Hs) as Hlens.
  rewrite Hl in Hlens. apply Forall_cons in Hlens as [Ht Hlens]. rewrite bytes_length in Hlen by done.
  wp_steps. apply wp_when; intros Hret.
  - wp_steps.
    rewrite (proj2 (Z.ltb_ge _ _)) by lia.
    assert (bytes (ptr tmp) (len tmp) =
      bytes (ptr tmp) (a_ret a) ++ bytes (ptr tmp + a_ret a) (len tmp - a_ret a)) as Hsplit.
    { rewrite <- bytes_app by lia. f_equal. lia. }
    destruct (Z.eqb_spec (a_ret a) (len tmp)) as [E|E]; cbn [negb]; wp_steps.
    + eapply wp_mono; [apply IH|].
      * exists (X ++ bytes (ptr tmp) (a_ret a)), (F ++ [buff tmp]).
        autorewrite with sock.
        rewrite (st_fd _ _ _ _ _ _ Hs), !sent_app, !freed_app, sent_write. cbn. rewrite HX, HF, !app_nil_r, <- !app_assoc.
        do 2 (split; [done|]). destruct Hs. rewrite Hl, pend_cons in *. split; cbn; try done.
        -- by rewrite <- app_assoc.
        -- by rewrite <- app_assoc, E.
        -- intros Hc. rewrite <- app_assoc, E. auto.
        -- by destruct st_type0 as [|[|[? ?]]]; auto.
      * by autorewrite with sock.
      * by autorewrite with sock.
      * intros x w'. by autorewrite with sock.
    + split; [|by autorewrite with sock].
      exists (X ++ bytes (ptr tmp) (a_ret a)), F.
      autorewrite with sock.
      rewrite (st_fd _ _ _ _ _ _ Hs), !sent_app, !freed_app, sent_write. cbn. rewrite HX, HF, app_nil_r, <- app_assoc.
      do 2 (split; [done|]). destruct Hs. rewrite Hl, pend_cons in *. split; cbn; try done.
      * rewrite pend_cons. cbn. by rewrite <- app_assoc, (app_assoc (bytes _ _)), <- Hsplit.
      * intros Hc. rewrite pend_cons. cbn. rewrite <- app_assoc, (app_assoc (bytes _ _)), <- Hsplit. auto.
      * by destruct st_type0 as [|[|[? ?]]]; auto.
      * constructor; [cbn; lia|done].
  - wp_steps. rewrite (proj2 (Z.ltb_lt _ _)) by lia.
    assert (J rs (with_os o w)) as HJ by (by exists X, F).
    case_decide; wp_steps; [by split|].
    eapply wp_mono; [by apply force_close_J|]. intros m' w' [HJ' Hty]. wp_steps. by split.
Qed.

Lemma J_put rs w s' :
  J rs w -> high s' = high (slot_at k w) -> low s' = low (slot_at k w) ->
  s_id s' = s_id (slot_at k w) -> s_fd s' = s_fd (slot_at k w) -> protocol s' = protocol (slot_at k w) ->
  (connected (type s') -> connected (type (slot_at k w))) ->
  connected (type s') \/ type s' = HALFCLOSE \/ (type s' = INVALID /\ high s' = []) ->
  J rs (with_slot (<[k := s']> (slot w)) w).
Proof.
  intros (X & F & HX & HF & Hs) E1 E2 E3 E4 E5 Hc Ht. exists X, F. autorewrite with sock.
  do 2 (split; [done|]). destruct Hs. split; rewrite ?E1, ?E2, ?E3, ?E4, ?E5; auto.
  by rewrite <- E1.
Qed.

Lemma J_type rs w :
  J rs w -> type (slot_at k w) <> INVALID ->
  type (slot_at k w) = OPENING \/ type (slot_at k w) = OPENED \/ type (slot_at k w) = HALFCLOSE.
Proof.
  intros (X & F & _ & _ & Hs) Hi. destruct (st_type _ _ _ _ _ _ Hs) as [[|]|[|[? _]]]; auto. done.
Qed.

Lemma J_low rs w : J rs w -> low (slot_at k w) = [].
Proof. intros (X & F & _ & _ & Hs). apply Hs. Qed.

Lemma wp_event_write f j b w (Q : unit -> world -> Prop) :
  (forall w', slot_at k w' = slot_at k w -> log w' = log w -> Q tt w') -> wp (event_write f j b) w Q.
Proof. intros HQ. apply wp_mod. destruct (w_epoll w !! f); by apply HQ. Qed.

(** Closing as the end of a function. *)
Lemma close_J rs w (f : msg -> Z * msg) (Q : Z * msg -> world -> Prop) :
  J rs w -> (forall m w', J rs w' -> type (slot_at k w') = INVALID -> Q (f m) w') ->
  wp (socket_force_close k ≫= fun m => mret (f m)) w Q.
Proof.
  intros HJ HQ. wp_steps. eapply wp_mono; [by apply force_close_J|]. intros m w' [HJ' Ht]. wp_steps.
  by apply HQ.
Qed.

Lemma send_low_J rs w m :
  J rs w -> type (slot_at k w) <> INVALID ->
  wp (send_low k m) w (fun x w' => J_post rs (type (slot_at k w)) x.1 w').
Proof.
  intros HJ Hi. unfold send_low. wp_steps. rewrite (J_low _ _ HJ). wp_steps.
  apply wp_event_write. intros w' Es El. apply (J_frame _ _ _ Es El) in HJ. case_decide.
  - by eapply close_J.
  - wp_steps. split; [done|]. cbn. by rewrite Es.
Qed.

Lemma send_buffer_J rs w m :
  J rs w -> type (slot_at k w) <> INVALID ->
  wp (socket_send_buffer k m) w (fun x w' => J_post rs (type (slot_at k w)) x.1 w').
Proof.
  intros HJ Hi. unfold socket_send_buffer. wp_steps.
  apply wp_assert; [by rewrite (J_low _ _ HJ)|]. wp_steps.
  eapply wp_mono; [by apply send_list_J|]. intros [r m'] w' [HJ' Hr]. cbn [fst] in *.
  destruct (r =? SOCKET_CLOSE); [by wp_steps|]. wp_steps.
  destruct (high (slot_at k w')) eqn:Eh; [|by wp_steps].
  rewrite <- Hr. apply send_low_J; [done|by rewrite Hr].
Qed.

(** Any other reason to close. *)
Lemma try_open_J rs w m :
  J rs w -> type (slot_at k w) = OPENING -> wp (socket_try_open k m) w (fun _ w' => J rs w').
Proof.
  intros HJ Ht. unfold socket_try_open. wp_steps. apply wp_call1. intros a o _.
  apply (J_frame _ _ (with_os o w)) in HJ; [|done|done]. case_match; [by eapply close_J|].
  wp_steps. assert (J rs (with_slot (<[k:=set_type OPENED (slot_at k w)]> (slot (with_os o w))) (with_os o w))) as HJ'.
  { apply J_put; try done; [intros _; by left|left; by right]. }
  apply wp_when; intros _; [apply wp_event_write; intros w' Es El; apply (J_frame _ _ _ Es El) in HJ'|];
    wp_steps; apply wp_call1; intros p o' _; wp_steps; by apply (J_frame _ _ _ eq_refl eq_refl HJ').
Qed.

Lemma forward_tcp_J rs w m :
  J rs w -> type (slot_at k w) <> INVALID -> wp (socket_forward_tcp k m) w (fun _ w' => J rs w').
Proof.
  intros HJ Ht. unfold socket_forward_tcp. wp_steps. apply wp_call1. intros a o _.
  apply (J_frame _ _ (with_os o w)) in HJ; [|done|done].
  repeat case_match; first [by eapply close_J|wp_steps]; try done.
  apply J_put; try done. cbn. destruct (J_type _ _ HJ Ht) as [E|[E|E]]; rewrite slot_at_os in E; rewrite E;
    [left; by left|left; by right|auto].
Qed.

Lemma event_J rs w ev m :
  J rs w -> wp (socket_event k ev m) w (fun _ w' => J rs w').
Proof.
  intros HJ. unfold socket_event. wp_steps. destruct (decide (type (slot_at k w) = INVALID)) as [Hi|Hi].
  { rewrite Hi. by wp_steps. }
  assert (protocol (slot_at k w) = PROTOCOL_TCP) as -> by (destruct HJ as (X & F & _ & _ & Hs); apply Hs).
  assert (forall (r i : Z) m w', J rs w' -> wp (uwhen (negb (r =? -1)) (clear_closed i r)) w'
    (fun _ w'' => wp (mret (r, m)) w'' (fun _ w' => J rs w'))) as Hend.
  { intros r i m' w' HJ'. apply wp_when; intros _; [|by wp_steps]. unfold clear_closed.
    apply wp_when; intros _; by wp_steps. }
  assert (wp (if e_read ev then
    '(r, m) ← socket_forward_tcp k m;
    _ ← uwhen (e_write ev) (umod (fun w => with_events (Event false true (e_ud ev) :: events w) w));
    s ← get k; _ ← uwhen (negb (r =? -1)) (clear_closed (s_id s) r); mret (r, m)
    else if e_write ev then
      '(r, m) ← socket_send_buffer k m;
      s ← get k; _ ← uwhen (negb (r =? -1)) (clear_closed (s_id s) r); mret (r, m)
    else mret (-1, m)) w (fun _ w' => J rs w')) as Hio.
  { destruct (e_read ev); [|destruct (e_write ev); [|by wp_steps]]; wp_steps.
    - eapply wp_mono; [by apply forward_tcp_J|]. intros [r m'] w' HJ'. wp_steps.
      apply wp_when; intros _; wp_steps; by apply Hend.
    - eapply wp_mono; [by apply send_buffer_J|]. intros [r m'] w' [HJ' _]. wp_steps. by apply Hend. }
  destruct (J_type _ _ HJ Hi) as [E|[E|E]]; rewrite E; [by apply try_open_J|exact Hio|exact Hio].
Qed.

(** ** Requests *)

Lemma wp_slot w (Q : Z -> world -> Prop) : Q k w -> wp (slot_of id) w Q.
Proof. intros HQ. apply wp_slot_of; by rewrite Hk. Qed.

Lemma J_valid rs w : J rs w -> valid_id (slot_at k w) id = negb (bool_decide (type (slot_at k w) = INVALID)).
Proof.
  intros (X & F & _ & _ & Hs). unfold valid_id. by rewrite (st_id _ _ _ _ _ _ Hs), Z.eqb_refl, andb_true_r.
Qed.

Lemma req_close_J rs w ud m :
  J rs w -> wp (socket_req_close id ud m) w (fun _ w' => J rs w').
Proof.
  intros HJ. unfold socket_req_close. wp_steps. apply wp_slot. wp_steps. rewrite (J_valid _ _ HJ), negb_involutive.
  case_bool_decide as Hi; wp_steps; [done|].
  eapply wp_mono with (Q := fun x w' => J_post rs (type (slot_at k w)) x.1 w').
  { destruct (no_pending _); [by wp_steps|by apply send_buffer_J]. }
  intros [r m'] w' [HJ' Hr]. cbn [fst] in Hr. destruct (Z.eqb_spec r (-1)) as [->|]; cbn [negb]; [|by wp_steps].
  change (type (slot_at k w') = type (slot_at k w)) in Hr. wp_steps. case_match; wp_steps.
  - eapply wp_mono; [by apply force_close_J|]. intros ? ? [? _]. by wp_steps.
  - apply J_put; try done; [by intros [|]|auto].
Qed.

Lemma payloads_snoc rs r : payloads (rs ++ [r]) = payloads rs ++ payload r.
Proof. unfold payloads. rewrite map_app, concat_app. cbn. by rewrite app_nil_r. Qed.

Lemma wp_free_data r w (Q : unit -> world -> Prop) :
  (forall o, Q tt (with_log (log w ++ [OFree o (r_data r)]) w)) -> wp (free_data (r_data r) (r_size r)) w Q.
Proof. intros HQ. unfold free_data. destruct (socket_send_object_init _ _) as [[? ?] ?]. apply HQ. Qed.

(** A request that comes too late: its data is released. *)
Lemma J_refuse rs w r o :
  J rs w -> ~ connected (type (slot_at k w)) ->
  J (rs ++ [r]) (with_log (log w ++ [OFree o (r_data r)]) w).
Proof.
  intros (X & F & HX & HF & Hs) Hc. exists X, (F ++ [r_data r]). autorewrite with sock.
  rewrite sent_app, freed_app, HX, HF. cbn. rewrite app_nil_r, app_assoc. do 2 (split; [done|]).
  destruct Hs. split; try done.
  - rewrite map_app, <- st_own0, <- !app_assoc. cbn. apply Permutation_app_head, Permutation_cons_append.
  - rewrite payloads_snoc. etrans; [done|]. by eexists.
Qed.

(** A request that is taken: [Y] is written at once, [q] is queued. *)
Lemma J_take rs w w' r Y f q :
  J rs w -> connected (type (slot_at k w)) -> high (slot_at k w) = [] \/ Y = [] ->
  Y ++ pend q = payload r -> f ++ map buff q = [r_data r] -> Forall (fun b => 0 <= len b) q ->
  sent fd (log w') = sent fd (log w) ++ Y -> freed (log w') = freed (log w) ++ f ->
  (exists wb, slot_at k w' = set_queue true (high (slot_at k w) ++ q) wb (slot_at k w)) ->
  J (rs ++ [r]) w'.
Proof.
  intros (X & F & HX & HF & Hs) Hc HY Hpay Hown Hq HX' HF' [wb Ew]. exists (X ++ Y), (F ++ f).
  rewrite HX', HF', HX, HF, Ew, !app_assoc. do 2 (split; [done|]).
  destruct Hs. assert ((X ++ Y) ++ pend (high (slot_at k w) ++ q) = payloads (rs ++ [r])) as Hall.
  { unfold pend at 1. rewrite payloads_snoc, <- (st_open0 Hc), <- Hpay, map_app, concat_app.
    fold (pend (high (slot_at k w))). fold (pend q). rewrite <- !app_assoc. f_equal.
    destruct HY as [-> | ->]; done. }
  split; cbn; try done.
  - rewrite !map_app, <- st_own0. cbn. rewrite <- Hown, <- !app_assoc.
    apply Permutation_app_head. rewrite !app_assoc. apply Permutation_app_tail, Permutation_app_comm.
  - by rewrite Hall.
  - auto.
  - by apply Forall_app.
Qed.

Lemma send_warning_J rs w m : J rs w -> wp (send_warning k m) w (fun _ w' => J rs w').
Proof. intros HJ. unfold send_warning. wp_steps. by case_match; wp_steps. Qed.

Lemma new_buffer_spec r n addr :
  buff (new_buffer r n addr) = r_data r /\
  ptr (new_buffer r n addr) = (socket_send_object_init (r_data r) (r_size r)).1.1 + n /\
  len (new_buffer r n addr) = (socket_send_object_init (r_data r) (r_size r)).1.2 - n.
Proof. unfold new_buffer. by destruct (socket_send_object_init _ _) as [[? ?] ?]. Qed.

(** Queueing what was not written. *)
Lemma append_J rs w w1 r n addr :
  J rs w -> request id r -> connected (type (slot_at k w)) -> high (slot_at k w) = [] \/ n = 0 ->
  0 <= n <= (socket_send_object_init (r_data r) (r_size r)).1.2 ->
  slot_at k w1 = slot_at k w -> freed (log w1) = freed (log w) ->
  sent fd (log w1) = sent fd (log w) ++ bytes (socket_send_object_init (r_data r) (r_size r)).1.1 n ->
  wp (append_priority k r (new_buffer r n addr)) w1 (fun _ w' => J (rs ++ [r]) w').
Proof.
  intros HJ (_ & Hp & Hsz) Hc Hn Hle Es Ef Ex. unfold append_priority. rewrite Hp. cbn [Z.eqb].
  change (SOCKET_PRIORITY_HIGH =? SOCKET_PRIORITY_HIGH) with true. cbv beta match.
  unfold append_buffer. wp_steps. destruct (new_buffer_spec r n addr) as (Eb & Ep & El).
  eapply (J_take _ _ _ r _ [] [new_buffer r n addr] HJ Hc); [| | | |exact Ex| |].
  - destruct Hn as [| ->]; [by left|by right].
  - unfold pend, payload. cbn. rewrite Ep, El, app_nil_r. destruct (socket_send_object_init _ _) as [[d sz] o].
    cbn in *. rewrite <- bytes_app by lia. f_equal. lia.
  - cbn. by rewrite Eb.
  - constructor; [lia|done].
  - by rewrite app_nil_r.
  - eexists. rewrite slot_at_put, Es. done.
Qed.

Lemma first_nonneg a : 0 <= a_ret (first a) -> first a = a.
Proof. unfold first. destruct (a_intr a); [done|cbn; lia]. Qed.

Lemma send_tcp_J rs w r m :
  J rs w -> request id r -> connected (type (slot_at k w)) -> high (slot_at k w) = [] ->
  wp (send_tcp k r m) w (fun _ w' => J (rs ++ [r]) w').
Proof.
  intros HJ Hr Hc Hh. unfold send_tcp. pose proof Hr as (_ & _ & Hsz).
  pose proof (append_J rs w) as Happ. pose proof (J_take rs w) as Htake.
  unfold payload in Htake. specialize (fun w1 n addr => Happ w1 r n addr HJ Hr Hc (or_introl Hh)).
  specialize (fun w' => Htake w' r). 
  destruct (socket_send_object_init (r_data r) (r_size r)) as [[data size] obj] eqn:Ei. cbn [fst snd] in *.
  wp_steps. apply wp_call1. intros a o Ea. pose proof (write_law _ _ _ _ _ Ea) as Hlen.
  rewrite bytes_length in Hlen by done. wp_steps.
  assert (s_fd (slot_at k w) = fd) as -> by (destruct HJ as (X & F & _ & _ & Hs); apply Hs).
  assert (0 <= a_ret (first a) -> a_ret (first a) <= size) as Hle by (intros Hn; by rewrite (first_nonneg _ Hn)).
  apply wp_when; intros Hn; wp_steps.
  - rewrite (proj2 (Z.ltb_ge _ _)) by lia. cbn [andb].
    destruct (Z.eqb_spec (a_ret (first a)) size) as [E|E].
    + wp_steps. apply wp_free_data. intros f. wp_steps.
      eapply (Htake _ (bytes data size) [r_data r] []); auto.
      * by rewrite app_nil_r.
      * autorewrite with sock. by rewrite sent_app, sent_app, E, sent_write, app_nil_r.
      * autorewrite with sock. by rewrite freed_app, freed_app, app_nil_r.
      * exists (wb_size (slot_at k w)). rewrite app_nil_r. autorewrite with sock. by destruct (slot_at k w).
    + wp_steps. unfold socket_append_sendbuffer. eapply wp_mono; [apply Happ|]; auto.
      * lia.
      * autorewrite with sock. by rewrite freed_app, app_nil_r.
      * autorewrite with sock. by rewrite sent_app, sent_write.
  - rewrite (proj2 (Z.ltb_lt _ _)) by lia. cbn [andb].
    apply (J_frame _ _ (with_os o w) eq_refl eq_refl) in HJ as HJo. case_bool_decide as Herr; cbn [negb].
    + destruct (Z.eqb_spec 0 size) as [E|E].
      * wp_steps. apply wp_free_data. intros f. wp_steps.
        eapply (Htake _ [] [r_data r] []); auto.
        -- by rewrite <- E.
        -- autorewrite with sock. by rewrite sent_app, !app_nil_r.
        -- autorewrite with sock. by rewrite freed_app.
        -- exists (wb_size (slot_at k w)). rewrite app_nil_r. autorewrite with sock. by destruct (slot_at k w).
      * wp_steps. unfold socket_append_sendbuffer. eapply wp_mono; [apply Happ|]; auto.
        -- lia.
        -- autorewrite with sock. by rewrite app_nil_r.
    + wp_steps. eapply wp_mono; [by apply force_close_J|]. intros m' w' [HJ' Ht]. wp_steps.
      apply wp_free_data. intros f. wp_steps. apply J_refuse; [done|]. rewrite Ht. by intros [|].
Qed.

Lemma req_send_J rs w r m :
  J rs w -> request id r -> wp (socket_req_send r m None) w (fun _ w' => J (rs ++ [r]) w').
Proof.
  intros HJ Hr. pose proof Hr as (Hid & _ & Hsz). unfold socket_req_send. rewrite Hid. wp_steps. apply wp_slot. wp_steps.
  rewrite (J_valid _ _ HJ), negb_involutive.
  destruct (decide (type (slot_at k w) = INVALID)) as [Hi|Hi].
  { rewrite bool_decide_true by done. cbn [orb]. wp_steps. apply wp_free_data. intros o. wp_steps.
    apply J_refuse; [done|]. rewrite Hi. by intros [|]. }
  rewrite (bool_decide_false _ Hi). cbn [orb].
  assert (protocol (slot_at k w) = PROTOCOL_TCP) as -> by (destruct HJ as (X & F & _ & _ & Hs); apply Hs).
  change (PROTOCOL_TCP =? PROTOCOL_TCP) with true; cbv beta match.
  assert (connected (type (slot_at k w)) -> wp (_ ← socket_append_sendbuffer k r 0; send_warning k m) w
    (fun _ w' => J (rs ++ [r]) w')) as Hqueue.
  { intros Hc. wp_steps. eapply wp_mono.
    - apply (append_J rs w); auto; [lia|by rewrite app_nil_r].
    - intros ? w' HJ'. by apply send_warning_J. }
  destruct (J_type _ _ HJ Hi) as [E|[E|E]]; rewrite E.
  - rewrite andb_false_r. apply Hqueue. rewrite E. by left.
  - rewrite bool_decide_false by (by intros [|]). rewrite decide_False by (by intros [|]).
    rewrite bool_decide_true, andb_true_r by done. unfold no_pending. rewrite (J_low _ _ HJ).
    destruct (high (slot_at k w)) eqn:Eh; [|apply Hqueue; rewrite E; by right].
    wp_steps. eapply wp_mono; [apply send_tcp_J; [done|done|rewrite E; by right|done]|].
    intros [[r' m']|] w' HJ'; wp_steps; [done|]. apply wp_event_write. intros w'' Es El.
    by apply send_warning_J, (J_frame _ _ _ Es El).
  - rewrite bool_decide_true by auto. wp_steps. apply wp_free_data. intros o. wp_steps.
    apply J_refuse; [done|]. rewrite E. by intros [|].
Qed.
End Stream.

(** ** The claims *)

(** What happens to a connection: a request to send or to close, or an event of
    epoll. *)
Inductive action := ASend (r : send_req) | AClose (ud : Z) | AEvent (ev : event).

Definition act `{Os} (id : Z) (a : action) : ust world unit :=
  '(_, _) ← (match a with
   | ASend r => socket_req_send r (Msg 0 0 DNull 0) None
   | AClose ud => socket_req_close id ud (Msg 0 0 DNull 0)
   | AEvent ev => socket_event (HASH_ID id) ev (Msg 0 0 DNull 0)
   end);
  mret tt.

Fixpoint acts `{Os} (id : Z) (l : list action) : ust world unit :=
  match l with [] => mret tt | a :: l => _ ← act id a; acts id l end.

Definition requests (l : list action) : list send_req :=
  omap (fun a => match a with ASend r => Some r | _ => None end) l.

(** C25: a TCP connection under any sequence of send requests (of high
    priority and of a size that is not negative, see [request]), close requests
    and epoll events, whatever the system calls answer: the server never fails an assertion; the bytes written to the
    descriptor followed by those queued are the data of the requests, in order
    (when the connection was closed, a prefix of it was written); and the data
    of every request is either still queued or was released, exactly once. *)
Theorem socket_stream `{OsOk} id l w :
  0 <= HASH_ID id ->
  stream id (s_fd (slot_at (HASH_ID id) w)) (slot_at (HASH_ID id) w) [] [] [] ->
  Forall (request id) (requests l) ->
  exists w' X F, acts id l w = Some (tt, w') /\
    sent (s_fd (slot_at (HASH_ID id) w)) (log w') = sent (s_fd (slot_at (HASH_ID id) w)) (log w) ++ X /\
    freed (log w') = freed (log w) ++ F /\
    stream id (s_fd (slot_at (HASH_ID id) w)) (slot_at (HASH_ID id) w') X F (requests l).
Proof.
  intros Hk Hs Hreq. set (k := HASH_ID id) in *. set (fd := s_fd (slot_at k w)) in *.
  assert (forall l rs w1, Forall (request id) (requests l) -> J k id fd w rs w1 ->
    wp (acts id l) w1 (fun _ w' => J k id fd w (rs ++ requests l) w')) as Hrun.
  { clear l Hreq Hs. induction l as [|a l IH]; intros rs w1 Hreq HJ; cbn [acts].
    - apply wp_ret. by rewrite app_nil_r.
    - unfold act. wp_steps. assert (wp (match a with
       | ASend r => socket_req_send r (Msg 0 0 DNull 0) None
       | AClose ud => socket_req_close id ud (Msg 0 0 DNull 0)
       | AEvent ev => socket_event (HASH_ID id) ev (Msg 0 0 DNull 0)
       end) w1 (fun _ w' => J k id fd w (rs ++ requests [a]) w')) as Ha.
      { destruct a as [r|ud|ev]; cbn; rewrite ?app_nil_r.
        - apply Forall_cons in Hreq as [Hr _]. by apply req_send_J.
        - by apply req_close_J.
        - by apply event_J. }
      eapply wp_mono; [exact Ha|]. intros [r' m'] w2 HJ2. wp_steps.
      replace (rs ++ requests (a :: l)) with ((rs ++ requests [a]) ++ requests l).
      + apply IH; [|done]. destruct a; [by apply Forall_cons in Hreq as [_ Hreq]|done|done].
      + rewrite <- app_assoc. by destruct a. }
  destruct (wp_run _ _ _ (Hrun l [] w Hreq ltac:(by exists [], []; rewrite !app_nil_r))) as ([] & w' & Er & X & F & HX & HF & Hs').
  by exists w', X, F.
Qed.

#[export] Instance demo_os_ok : OsOk demo_os.
Proof. split. intros fd d o. cbn. lia. Qed.

(** Three requests; the first is cut, then a call fails with EAGAIN. *)
Definition demo_acts : list action :=
  [ASend (SendReq 8 SOCKET_PRIORITY_HIGH 10 1000); ASend (SendReq 8 SOCKET_PRIORITY_HIGH 3 2000);
   AEvent (Event false true (Some 8)); AEvent (Event false true (Some 8)); AClose 0;
   ASend (SendReq 8 SOCKET_PRIORITY_HIGH 2 3000)].

Lemma socket_stream_witness :
  exists w' X F, acts (H := demo_os) 8 demo_acts
      (demo_world [ans 4; Answer 0 (-1) EAGAIN [] 0 false None [] []; ans 6; ans 3]) = Some (tt, w') /\
    sent 5 (log w') = [] ++ X /\ freed (log w') = [] ++ F /\
    stream (H := demo_os) 8 5 (slot_at (H := demo_os) 8 w') X F (requests demo_acts).
Proof.
  apply (socket_stream (H := demo_os) 8 demo_acts (demo_world _)).
  - vm_compute. discriminate.
  - split; try reflexivity; [left; right; reflexivity|constructor].
  - repeat constructor; cbn; lia.
Defined.

Section Low.
Context `{Os}.

(** C26: a request of low priority that the system writes only in part is put
    back into the low list, with its head cut, although the server asserts that
    this never happens: the next event that the connection is writable, and the
    request to close it, fail the assertion. *)
Theorem socket_low_asserts id w r m a o :
  let s := slot_at (HASH_ID id) w in
  0 <= HASH_ID id -> type s = OPENED -> protocol s = PROTOCOL_TCP -> s_id s = id ->
  high s = [] -> low s = [] -> r_id r = id -> r_priority r = SOCKET_PRIORITY_LOW -> 0 <= r_size r ->
  sys (CWrite (s_fd s) (bytes (r_data r) (r_size r))) (w_os w) = (a, o) -> a_intr a = O ->
  0 < a_ret a < r_size r ->
  exists x w', socket_req_send r m None w = Some (x, w') /\
    socket_event (HASH_ID id) (Event false true (Some (HASH_ID id))) m w' = None /\
    forall ud, socket_req_close id ud m w' = None.
Proof.
  intros s Hk Ht Hp Hid Hh Hl Hr Hpr Hsz Hsys Hintr Hret. set (k := HASH_ID id) in *.
  pose (b := new_buffer r (a_ret a) []). assert (ptr b <> buff b) as Hb.
  { subst b. unfold new_buffer, socket_send_object_init. rewrite (proj2 (Z.ltb_ge _ _)) by done. cbn. lia. }
  assert (first a = a) as Hfirst by (unfold first; by rewrite Hintr).
  assert (wp (socket_req_send r m None) w (fun _ w' => type (slot_at k w') = OPENED /\
    s_id (slot_at k w') = id /\ low (slot_at k w') = [b] /\ high (slot_at k w') = [])) as Hsend.
  { unfold socket_req_send. rewrite Hr. wp_steps. apply wp_slot_of; [done|]. wp_steps. fold k s.
    unfold valid_id, no_pending. rewrite Hid, Z.eqb_refl, Hh, Hl, Ht, Hp.
    rewrite (bool_decide_false (OPENED = INVALID)), bool_decide_false, decide_False by (done || by intros [|]).
    rewrite bool_decide_true by done. cbn [negb andb orb]. change (PROTOCOL_TCP =? PROTOCOL_TCP) with true.
    unfold send_tcp, socket_send_object_init. rewrite (proj2 (Z.ltb_ge _ _)) by done.
    cbv beta iota zeta. wp_steps. fold s.
    apply wp_call1. intros a' o' Ea. rewrite Hsys in Ea. injection Ea as -> ->. rewrite Hfirst.
    wp_steps. apply wp_when; intros Hn; [|lia]. wp_steps. rewrite (proj2 (Z.ltb_ge (a_ret a) 0)) by lia. cbn [andb].
    rewrite (proj2 (Z.eqb_neq _ _)) by lia. unfold socket_append_sendbuffer, append_priority. rewrite Hpr.
    change (SOCKET_PRIORITY_LOW =? SOCKET_PRIORITY_HIGH) with false.
    change (SOCKET_PRIORITY_LOW =? SOCKET_PRIORITY_LOW) with true. cbv beta match. unfold append_buffer. wp_steps.
    fold b. apply (wp_event_write k). intros w' Es El. rewrite slot_at_put, slot_at_log, slot_at_os in Es. fold s in Es.
    unfold send_warning. wp_steps. assert (type (slot_at k w') = OPENED /\
      s_id (slot_at k w') = id /\ low (slot_at k w') = [b] /\ high (slot_at k w') = []) as Hend.
    { rewrite Es. cbn. by rewrite Hl. }
    by case_match; wp_steps. }
  destruct (wp_run _ _ _ Hsend) as (x & w' & Hrun & Ht' & Hid' & Hl' & Hh'). exists x, w'.
  assert (forall m, socket_send_buffer k m w' = None) as Hfault.
  { intros m'. unfold socket_send_buffer. rewrite ust_bind_run. cbn [get uget]. unfold get, uget.
    rewrite ust_bind_run. unfold uassert. rewrite Hl'. cbn [socket_buffer_list_complete].
    by rewrite (proj2 (Z.eqb_neq _ _)). }
  split; [done|]. split.
  - unfold socket_event. rewrite ust_bind_run. unfold get, uget. rewrite Ht'. cbn [e_read e_write].
    by rewrite ust_bind_run, Hfault.
  - intros ud. unfold socket_req_close. rewrite ust_bind_run. unfold slot_of, ulift. fold k.
    rewrite (proj2 (Z.leb_le _ _)) by done. cbn [mbind option_bind]. rewrite ust_bind_run. unfold get, uget.
    unfold valid_id, no_pending. rewrite Ht', Hid', Z.eqb_refl, Hl', Hh'.
    rewrite (bool_decide_false (OPENED = INVALID)) by done. cbn [negb andb].
    by rewrite ust_bind_run, Hfault.
Qed.
End Low.

Lemma socket_low_asserts_witness :
  exists x w', socket_req_send (H := demo_os) (SendReq 8 SOCKET_PRIORITY_LOW 10 1000) (Msg 0 0 DNull 0) None
      (demo_world [ans 4]) = Some (x, w') /\
    socket_event (H := demo_os) 8 (Event false true (Some 8)) (Msg 0 0 DNull 0) w' = None /\
    forall ud, socket_req_close (H := demo_os) 8 ud (Msg 0 0 DNull 0) w' = None.
Proof.
  apply (socket_low_asserts (H := demo_os) 8 (demo_world [ans 4]) (SendReq 8 SOCKET_PRIORITY_LOW 10 1000)
    (Msg 0 0 DNull 0) (at_most 10 (ans 4)) []); try reflexivity; vm_compute; try discriminate. split; reflexivity.
Defined.
