(* ===== verification/SocketInv.v ===== *)
(** * The socket server: invariant and termination

    Every slot stays well formed in every reachable state
    ([socket_invariant]), and [socket_poll] does a bounded number of turns
    between two waits for events ([socket_poll_terminates]). *)

From S2P Require Import Prelude Socket SocketOk.

Section Wlp.
Context `{Os}.

Lemma wlp_get k w (Q : socket -> world -> Prop) : Q (slot_at k w) w -> wlp (get k) w Q.
Proof. done. Qed.
Lemma wlp_put k s w (Q : unit -> world -> Prop) :
  Q tt (with_slot (<[k := s]> (slot w)) w) -> wlp (put k s) w Q.
Proof. done. Qed.
Lemma wlp_emit o w (Q : unit -> world -> Prop) : Q tt (with_log (log w ++ [o]) w) -> wlp (emit o) w Q.
Proof. done. Qed.
Lemma wlp_mod f w (Q : unit -> world -> Prop) : Q tt (f w) -> wlp (umod f) w Q.
Proof. done. Qed.
Lemma wlp_uget {A} (f : world -> A) w (Q : A -> world -> Prop) : Q (f w) w -> wlp (uget f) w Q.
Proof. done. Qed.
Lemma wlp_assert b w (Q : unit -> world -> Prop) : (b = true -> Q tt w) -> wlp (uassert b) w Q.
Proof. intros HQ. unfold wlp, uassert. destruct b; auto. Qed.
Lemma wlp_lift {A} (x : option A) w (Q : A -> world -> Prop) :
  (forall a, x = Some a -> Q a w) -> wlp (ulift x) w Q.
Proof. intros HQ. unfold wlp, ulift. destruct x; cbn; auto. Qed.
Lemma wlp_when b m w (Q : unit -> world -> Prop) :
  (b = true -> wlp m w Q) -> (b = false -> Q tt w) -> wlp (uwhen b m) w Q.
Proof. destruct b; cbn; auto. Qed.
Lemma wlp_call c w (Q : answer -> world -> Prop) :
  (forall a o, Q a (with_os o w)) -> wlp (call c) w Q.
Proof. intros HQ. unfold wlp, call. destruct (sys c (w_os w)). apply HQ. Qed.
Lemma wlp_call1 c w (Q : answer -> world -> Prop) :
  (forall a o, Q (first a) (with_os o w)) -> wlp (call1 c) w Q.
Proof. intros HQ. apply wlp_bind, wlp_call. intros a o. by apply wlp_ret, HQ. Qed.
End Wlp.

Ltac wlp_step :=
  match goal with
  | |- wlp (_ ≫= _) _ _ => apply wlp_bind
  | |- wlp (mret _) _ _ => apply wlp_ret
  | |- wlp (get _) _ _ => apply wlp_get
  | |- wlp (put _ _) _ _ => apply wlp_put
  | |- wlp (emit _) _ _ => apply wlp_emit
  | |- wlp (umod _) _ _ => apply wlp_mod
  | |- wlp (uget _) _ _ => apply wlp_uget
  | |- wlp (uassert _) _ _ => apply wlp_assert; intros ?
  | |- wlp (ulift _) _ _ => apply wlp_lift; intros ? ?
  | |- wlp (call _) _ _ => apply wlp_call; intros ? ?
  | |- wlp (call1 _) _ _ => apply wlp_call1; intros ? ?
  | |- wlp (uwhen _ _) _ _ => apply wlp_when; intros ?
  | |- wlp (if ?b then _ else _) _ _ => destruct b eqn:?
  | |- wlp (match ?x with _ => _ end) _ _ => destruct x eqn:?
  end; cbv beta match.
Ltac wlp_steps := repeat wlp_step.

Create HintDb keep.

(** A call of a function with the lemma [L]. *)
Ltac wlp_use L := eapply wlp_mono; [by eapply L; eauto with keep|]; cbv beta.

(** ** Well-formed slots *)

Section Inv.
Context `{Os}.

(** The types of a socket that is in use and not closing.  (A slot that is
    only reserved has nothing of its own yet; a closing socket is only written
    out.) *)
Definition live (t : stype) : Prop :=
  match t with INVALID | RESERVE | HALFCLOSE => False | _ => True end.

(** The types of a socket that never has anything to send. *)
Definition idle (t : stype) : bool :=
  match t with LISTEN | PLISTEN | PACCEPT => true | _ => false end.

Definition sum_len (l : list buffer) : Z := foldr (fun b n => len b + n) 0 l.

Record slot_ok (k : Z) (s : socket) : Prop := {
  so_idle : idle (type s) = true -> high s = [] /\ low s = [];
  so_wb : live (type s) -> wb_size s = sum_len (high s) + sum_len (low s);
  so_id : live (type s) -> HASH_ID (s_id s) = k;
  so_size : live (type s) -> exists i, 0 <= i /\ p_size s = MIN_SOCK_BUFF * 2 ^ i;
  so_udp : live (type s) -> protocol s <> PROTOCOL_TCP -> zlen (p_udp s) = UDP_ADDRESS_SIZE
}.

Definition sinv (w : world) : Prop := forall k, slot_ok k (slot_at k w).

(** How often the server has waited for events. *)
Definition is_wait (o : out) : bool := match o with OWait => true | _ => false end.
Definition waits (w : world) : nat := length (List.filter is_wait (log w)).

(** What the handlers do to the server from the state [w0]. *)
Definition keeps (w0 w : world) : Prop :=
  sinv w /\ pipe w = pipe w0 /\ events w = events w0 /\ check_ctrl w = check_ctrl w0 /\ waits w = waits w0.

Implicit Types (w : world) (m : msg).

Lemma socket0_ok k : slot_ok k socket0.
Proof. by split. Qed.

Lemma keeps_refl w : sinv w -> keeps w w.
Proof. by split. Qed.
Lemma keeps_frame w0 w w' :
  (forall j, slot_at j w' = slot_at j w) -> pipe w' = pipe w -> events w' = events w ->
  check_ctrl w' = check_ctrl w -> waits w' = waits w -> keeps w0 w -> keeps w0 w'.
Proof.
  intros Es E1 E2 E3 E4 (Hs & Hr). split; [|by rewrite E1, E2, E3, E4]. intros j. rewrite Es. apply Hs.
Qed.
Lemma keeps_os w0 w o : keeps w0 w -> keeps w0 (with_os o w).
Proof. by apply keeps_frame. Qed.
Lemma waits_emit o w : waits (with_log (log w ++ [o]) w) = (waits w + (if is_wait o then 1 else 0))%nat.
Proof. unfold waits. cbn. rewrite List.filter_app, length_app. cbn. by destruct (is_wait o). Qed.
Lemma keeps_log w0 w o : is_wait o = false -> keeps w0 w -> keeps w0 (with_log (log w ++ [o]) w).
Proof. intros Ho. apply keeps_frame; try done. rewrite waits_emit, Ho. lia. Qed.
Lemma keeps_next w0 w n : keeps w0 w -> keeps w0 (with_next n w).
Proof. by apply keeps_frame. Qed.
Lemma keeps_epoll w0 w n : keeps w0 w -> keeps w0 (with_epoll n w).
Proof. by apply keeps_frame. Qed.
Lemma keeps_put w0 w k s : keeps w0 w -> slot_ok k s -> keeps w0 (with_slot (<[k := s]> (slot w)) w).
Proof.
  intros (Hs & Hr) Hok. split; [|done]. intros j. rewrite slot_at_insert. case_decide; [by subst|apply Hs].
Qed.
Lemma keeps_slot w0 w k : keeps w0 w -> slot_ok k (slot_at k w).
Proof. intros [Hs _]. apply Hs. Qed.
#[local] Hint Resolve keeps_refl keeps_os keeps_log keeps_next keeps_epoll keeps_put keeps_slot : keep.

Lemma keeps_event_write w0 w f j b : keeps w0 w -> wlp (event_write f j b) w (fun _ w' => keeps w0 w').
Proof. intros Hk. apply wlp_mod. destruct (w_epoll w !! f); auto with keep. Qed.

Lemma keeps_event_add w0 w f j :
  keeps w0 w -> wlp (event_add f j) w (fun _ w' => keeps w0 w' /\ forall i, slot_at i w' = slot_at i w).
Proof. intros Hk. unfold event_add. wlp_steps; auto with keep. Qed.

Lemma wlp_slot_of id w (Q : Z -> world -> Prop) :
  (0 <= HASH_ID id -> Q (HASH_ID id) w) -> wlp (slot_of id) w Q.
Proof. intros HQ. unfold slot_of. wlp_steps. destruct (Z.leb_spec 0 (HASH_ID id)); by simplify_eq; auto. Qed.

(** Changes of one slot. *)
Lemma ok_type k s t :
  slot_ok k s -> live (type s) -> live t -> (idle t = true -> high s = [] /\ low s = []) ->
  slot_ok k (set_type t s).
Proof. intros [] Hl Ht Hi. split; cbn; auto. Qed.

Lemma ok_invalid k s : slot_ok k (set_type INVALID s).
Proof. by split. Qed.

Lemma ok_half k s : slot_ok k (set_type HALFCLOSE s).
Proof. by split. Qed.

Lemma ok_ud k s ud : slot_ok k s -> slot_ok k (set_ud ud s).
Proof. by intros []. Qed.

Lemma ok_size k s n : slot_ok k s -> slot_ok k (set_size (next_size (p_size s) n) s).
Proof.
  intros []. split; cbn; try done. intros Hl. destruct (so_size0 Hl) as (i & Hi & E). unfold next_size. rewrite E.
  change MIN_SOCK_BUFF with 64. case_match.
  - exists (i + 1). split; [lia|]. rewrite Z.pow_add_r by lia. lia.
  - case_match eqn:Ec; [|by exists i]. exists (i - 1).
    assert (1 <= i) by (destruct (Z.eq_dec i 0) as [->|]; [change (2 ^ 0) with 1 in Ec|]; lia).
    split; [lia|]. replace (2 ^ i) with (2 ^ (i - 1) * 2) by (rewrite Z.mul_comm, <- Z.pow_succ_r by lia; f_equal; lia).
    rewrite Z.mul_assoc, Z.div_mul by lia. done.
Qed.

Lemma ok_lists k s h l wb :
  slot_ok k s -> idle (type s) = false -> (live (type s) -> wb = sum_len h + sum_len l) ->
  slot_ok k (set_lists h l wb s).
Proof. intros [] Hi Hw. split; cbn; try done. by rewrite Hi. Qed.

Lemma ok_udp k s a : slot_ok k s -> zlen a = UDP_ADDRESS_SIZE -> slot_ok k (set_udp a s).
Proof. intros [] Ha. by split. Qed.

Lemma sum_len_app l1 l2 : sum_len (l1 ++ l2) = sum_len l1 + sum_len l2.
Proof. induction l1 as [|b l1 IH]; [done|]. unfold sum_len in *. cbn. lia. Qed.

Lemma ok_reserve k s id :
  slot_ok k s -> type s = INVALID -> HASH_ID id = k ->
  slot_ok k (Socket (-1) id (s_ud s) (wb_size s) (high s) (low s) RESERVE (protocol s) (p_size s) (p_udp s)).
Proof. intros [] Ht Hi. rewrite Ht in *. by split. Qed.

(** ** Operations *)

Lemma next_id_keeps w0 w :
  keeps w0 w -> wlp socket_next_id w (fun _ w' => keeps w0 w').
Proof.
  unfold socket_next_id. generalize (Z.to_nat MAX_SOCKET). intros n. revert w.
  induction n as [|n IH]; intros w Hk; cbn [next_id_loop]; [by wlp_steps|].
  wlp_steps; (apply wlp_slot_of; intros Hh; wlp_steps;
    [|apply IH; by auto with keep]).
  all: apply keeps_put; [by auto with keep|].
  all: apply ok_reserve; [|done|done]; eapply keeps_slot; by auto with keep.
Qed.

(** A slot that [socket_new] has just filled in. *)
Definition fresh (id proto : Z) (s : socket) : Prop :=
  type s = RESERVE /\ s_id s = id /\ high s = [] /\ low s = [] /\ wb_size s = 0 /\
  p_size s = MIN_SOCK_BUFF /\ protocol s = proto.

Lemma fresh_ok id proto s t :
  fresh id proto s -> proto = PROTOCOL_TCP -> slot_ok (HASH_ID id) (set_type t s).
Proof.
  intros (Ht & Hid & Hh & Hl & Hw & Hs & Hp) ->. split; cbn; try done.
  - by rewrite Hw, Hh, Hl.
  - by rewrite Hid.
  - intros _. exists 0. by rewrite Hs.
Qed.

Lemma new_keeps w0 w fd id proto ud add :
  keeps w0 w ->
  wlp (socket_new fd id proto ud add) w (fun r w' => keeps w0 w' /\
    match r with Some k => 0 <= HASH_ID id /\ k = HASH_ID id /\ fresh id proto (slot_at k w')
    | None => True end).
Proof.
  intros Hk. unfold socket_new. wlp_step. apply wlp_slot_of. intros H0. do 6 wlp_step.
  set (w1 := with_slot _ w).
  assert (keeps w0 w1) as Hk1 by (apply keeps_put; [done|]; by split).
  assert (fresh id proto (slot_at (HASH_ID id) w1)) as Hf by (subst w1; by rewrite slot_at_put).
  destruct add.
  - apply wlp_bind. wlp_use keeps_event_add. intros e w2 [Hk2 Es]. rewrite <- Es in Hf.
    wlp_steps; [|done]. split; [|done]. apply keeps_put; [done|]. apply ok_invalid.
  - wlp_steps. done.
Qed.

Lemma free_list_keeps w0 w l :
  keeps w0 w -> wlp (socket_free_buffer_list l) w (fun _ w' => keeps w0 w').
Proof.
  revert w. induction l as [|b l IH]; intros w Hk; cbn [socket_free_buffer_list]; wlp_steps; auto with keep.
Qed.

Lemma force_close_keeps w0 w k :
  keeps w0 w -> wlp (socket_force_close k) w (fun _ w' => keeps w0 w').
Proof.
  intros Hk. unfold socket_force_close. do 2 wlp_step. wlp_step; [by wlp_steps|].
  do 3 wlp_step. wlp_use free_list_keeps. intros _ w1 Hk1.
  wlp_step. wlp_use free_list_keeps. intros _ w2 Hk2.
  unfold event_del, close_fd. wlp_steps; auto 6 using ok_invalid with keep.
Qed.
#[local] Hint Resolve force_close_keeps : keep.

(** Closing as the end of a function. *)
Lemma close_keeps w0 w k (f : msg -> Z * msg) :
  keeps w0 w -> wlp (socket_force_close k ≫= fun m => mret (f m)) w (fun _ w' => keeps w0 w').
Proof. intros Hk. wlp_step. wlp_use force_close_keeps. intros m w' Hk'. by wlp_steps. Qed.

Lemma ok_queue k s hi l wb :
  slot_ok k s -> idle (type s) = false ->
  (live (type s) -> wb = sum_len l + sum_len (queue_of (negb hi) s)) ->
  slot_ok k (set_queue hi l wb s).
Proof.
  intros Hok Hi Hw. destruct hi; apply ok_lists; try done; intros Hl; rewrite (Hw Hl); cbn [negb queue_of]; lia.
Qed.

Lemma write_buffer_keeps w0 w fd b :
  keeps w0 w -> wlp (write_buffer fd b) w (fun _ w' => keeps w0 w' /\ forall j, slot_at j w' = slot_at j w).
Proof. intros Hk. unfold write_buffer. wlp_steps; auto with keep. Qed.

Lemma queue_set hi l wb s : queue_of hi (set_queue hi l wb s) = l.
Proof. by destruct hi. Qed.
Lemma queue_set_other hi l wb s : queue_of (negb hi) (set_queue hi l wb s) = queue_of (negb hi) s.
Proof. by destruct hi. Qed.
Lemma type_set hi l wb s : type (set_queue hi l wb s) = type s.
Proof. by destruct hi. Qed.

(** The size of what is queued, seen from one of the lists. *)
Lemma ok_wb k hi s :
  slot_ok k s -> live (type s) ->
  wb_size s = sum_len (queue_of hi s) + sum_len (queue_of (negb hi) s).
Proof. intros Hok Hi. rewrite (so_wb _ _ Hok Hi). destruct hi; cbn [queue_of negb]; lia. Qed.

Lemma send_list_keeps w0 w k hi l m :
  keeps w0 w -> idle (type (slot_at k w)) = false -> queue_of hi (slot_at k w) = l ->
  wlp (socket_send_buffer_list k hi l m) w (fun x w' => keeps w0 w' /\
    (x.1 <> SOCKET_CLOSE -> type (slot_at k w') = type (slot_at k w) /\
       queue_of (negb hi) (slot_at k w') = queue_of (negb hi) (slot_at k w))).
Proof.
  revert w. induction l as [|tmp next IH]; intros w Hk Hi Hl; cbn [socket_send_buffer_list]; [by wlp_steps|].
  do 3 wlp_step. wlp_use write_buffer_keeps. intros a w1 [Hk1 Es]. rewrite <- (Es k) in *.
  pose proof (ok_wb k hi _ (keeps_slot _ _ k Hk1)) as Hwb. rewrite Hl in Hwb.
  change (sum_len (tmp :: next)) with (len tmp + sum_len next) in Hwb.
  wlp_step.
  { wlp_step; [by wlp_steps|]. wlp_step. wlp_use force_close_keeps. intros m' w2 Hk2. by wlp_steps. }
  cbv zeta. wlp_step.
  - wlp_steps. split; [|by rewrite slot_at_put, type_set, queue_set_other]. apply keeps_put; [done|].
    apply ok_queue; [by eapply keeps_slot|done|]. intros Hlive. rewrite (Hwb Hlive).
    cbn -[queue_of]. fold (sum_len next). lia.
  - do 4 wlp_step. eapply wlp_mono; [apply IH|].
    + apply keeps_log, keeps_put; [done|done|]. apply ok_queue; [by eapply keeps_slot|done|]. intros Hlive. rewrite (Hwb Hlive).
      destruct (Z.eqb_spec (a_ret a) (len tmp)); [lia|done].
    + by rewrite slot_at_log, slot_at_put, type_set.
    + by rewrite slot_at_log, slot_at_put, queue_set.
    + cbv beta. intros x w'. by rewrite slot_at_log, slot_at_put, type_set, queue_set_other.
Qed.

Lemma send_low_keeps w0 w k m :
  keeps w0 w -> high (slot_at k w) = [] -> wlp (send_low k m) w (fun _ w' => keeps w0 w').
Proof.
  intros Hk Hh. unfold send_low. do 2 wlp_step. wlp_step.
  - wlp_step. wlp_use keeps_event_write. intros _ w1 Hk1. wlp_step; [by apply close_keeps|by wlp_steps].
  - wlp_step. destruct (idle (type (slot_at k w))) eqn:Hi.
    { destruct (so_idle _ _ (keeps_slot _ _ k Hk) Hi). congruence. }
    rewrite <- Heql. eapply wlp_mono; [by apply send_list_keeps|]. cbv beta. intros [r m'] w1 [Hk1 Hq]. cbn [fst] in Hq.
    destruct (Z.eqb_spec r SOCKET_CLOSE); [by wlp_steps|]. destruct (Hq n) as [Ht Hh1]. cbn [queue_of negb] in Hh1.
    do 2 wlp_step. destruct (low (slot_at k w1)) as [|tmp next] eqn:El; [by wlp_steps|]. wlp_steps; try done.
    apply keeps_put; [done|]. apply ok_lists; [by eapply keeps_slot|by rewrite Ht|].
    intros Hlive. rewrite (ok_wb k false _ (keeps_slot _ _ k Hk1) Hlive). cbn [queue_of negb].
    rewrite Hh1, Hh, El. unfold sum_len. cbn. lia.
Qed.

Lemma send_buffer_keeps w0 w k m :
  keeps w0 w -> wlp (socket_send_buffer k m) w (fun _ w' => keeps w0 w').
Proof.
  intros Hk. unfold socket_send_buffer. do 5 wlp_step.
  destruct (idle (type (slot_at k w))) eqn:Hi.
  - destruct (so_idle _ _ (keeps_slot _ _ k Hk) Hi) as [Eh _]. rewrite Eh. cbn [socket_send_buffer_list]. wlp_steps; try done.
    by apply send_low_keeps.
  - eapply wlp_mono; [by apply send_list_keeps|]. cbv beta. intros [r m'] w1 [Hk1 _]. wlp_steps; try done.
    by apply send_low_keeps.
Qed.
#[local] Hint Resolve send_buffer_keeps : keep.

Lemma forward_tcp_keeps w0 w k m :
  keeps w0 w -> wlp (socket_forward_tcp k m) w (fun _ w' => keeps w0 w').
Proof.
  intros Hk. unfold socket_forward_tcp. do 3 wlp_step. wlp_step. cbv zeta.
  repeat case_match; first [apply close_keeps; by auto with keep|wlp_steps; auto with keep].
  apply keeps_put; [by auto with keep|]. apply ok_size. by eapply keeps_slot.
Qed.

Lemma forward_udp_keeps w0 w k m :
  keeps w0 w -> wlp (socket_forward_udp k m) w (fun _ w' => keeps w0 w').
Proof.
  intros Hk. unfold socket_forward_udp. do 3 wlp_step. wlp_step. cbv zeta.
  repeat case_match; first [apply close_keeps; by auto with keep|wlp_steps; auto with keep].
Qed.

(** A live slot stays well formed with another live type. *)
Lemma keeps_type w0 w k t :
  keeps w0 w -> live (type (slot_at k w)) -> live t -> (idle t = true -> idle (type (slot_at k w)) = true) ->
  keeps w0 (with_slot (<[k := set_type t (slot_at k w)]> (slot w)) w).
Proof.
  intros Hk Hl Ht Hi. apply keeps_put; [done|]. apply ok_type; auto; [by eapply keeps_slot|].
  intros H1. apply (so_idle k); [by eapply keeps_slot|auto].
Qed.

Lemma try_open_keeps w0 w k m :
  keeps w0 w -> type (slot_at k w) = OPENING -> wlp (socket_try_open k m) w (fun _ w' => keeps w0 w').
Proof.
  intros Hk Ht. unfold socket_try_open. do 3 wlp_step. wlp_step. wlp_step; [apply close_keeps; by auto with keep|].
  do 2 wlp_step. set (w1 := with_slot _ _). assert (keeps w0 w1) as Hk1.
  { apply (keeps_type w0 (with_os _ w)); [by auto with keep|..]; rewrite ?slot_at_os, ?Ht; done. }
  wlp_step. wlp_step; [wlp_use keeps_event_write; intros _ w2 Hk2|]; wlp_steps; auto with keep.
Qed.

Lemma try_accept_keeps w0 w k m :
  keeps w0 w -> wlp (socket_try_accept k m) w (fun _ w' => keeps w0 w').
Proof.
  intros Hk. unfold socket_try_accept. do 3 wlp_step. wlp_step. cbv zeta. wlp_step; [wlp_steps; auto with keep|].
  wlp_step. wlp_use next_id_keeps. intros id w1 Hk1. wlp_step; [unfold close_fd; wlp_steps; auto with keep|].
  wlp_step. wlp_use new_keeps. intros [k'|] w2 [Hk2 Hr]; [|unfold close_fd; wlp_steps; auto with keep].
  destruct Hr as (_ & -> & Hf). wlp_steps. apply keeps_put; [done|]. by eapply fresh_ok.
Qed.

Lemma req_listen_keeps w0 w id fd ud m :
  keeps w0 w -> wlp (socket_req_listen id fd ud m) w (fun _ w' => keeps w0 w').
Proof.
  intros Hk. unfold socket_req_listen. wlp_step. wlp_use new_keeps. intros [k|] w1 [Hk1 Hr].
  - destruct Hr as (_ & -> & Hf). wlp_steps. apply keeps_put; [done|]. by eapply fresh_ok.
  - unfold close_fd. do 3 wlp_step. apply wlp_slot_of. intros H0. wlp_steps.
    apply keeps_put; [by auto with keep|]. apply ok_invalid.
Qed.

Lemma req_bind_keeps w0 w id fd ud m :
  keeps w0 w -> wlp (socket_req_bind id fd ud m) w (fun _ w' => keeps w0 w').
Proof.
  intros Hk. unfold socket_req_bind. wlp_step. wlp_use new_keeps. intros [k|] w1 [Hk1 Hr]; [|by wlp_steps].
  destruct Hr as (_ & -> & Hf). wlp_steps. apply keeps_put; [done|]. by eapply fresh_ok.
Qed.

Lemma req_udp_keeps w0 w id fd inet6 ud m :
  keeps w0 w -> wlp (socket_req_udp id fd inet6 ud m) w (fun _ w' => keeps w0 w').
Proof.
  intros Hk. unfold socket_req_udp. wlp_step. wlp_use new_keeps. intros [k|] w1 [Hk1 Hr].
  - destruct Hr as (_ & -> & Hf). wlp_steps. apply keeps_put; [done|]. 
    destruct Hf as (Ht & Hid & Hh & Hl & Hw & Hs & Hp). split; cbn; try done.
    + by rewrite Hw, Hh, Hl.
    + by rewrite Hid.
    + intros _. exists 0. by rewrite Hs.
  - unfold close_fd. do 3 wlp_step. apply wlp_slot_of. intros H0. wlp_steps.
    apply keeps_put; [by auto with keep|]. apply ok_invalid.
Qed.

Lemma req_close_keeps w0 w id ud m :
  keeps w0 w -> wlp (socket_req_close id ud m) w (fun _ w' => keeps w0 w').
Proof.
  intros Hk. unfold socket_req_close. wlp_step. apply wlp_slot_of. intros H0. do 2 wlp_step.
  wlp_step; [by wlp_steps|]. wlp_step. apply (wlp_mono _ _ (fun _ w' => keeps w0 w')).
  { wlp_step; [by wlp_steps|by apply send_buffer_keeps]. }
  intros [r m'] w1 Hk1. wlp_step; [by wlp_steps|]. do 2 wlp_step. wlp_step.
  - wlp_step. wlp_use force_close_keeps. intros _ w2 Hk2. by wlp_steps.
  - wlp_steps. apply keeps_put; [done|]. apply ok_half.
Qed.

Lemma connect_keeps w0 w l :
  keeps w0 w -> wlp (connect_loop l) w (fun _ w' => keeps w0 w').
Proof.
  revert w. induction l as [|ai l IH]; intros w Hk; cbn [connect_loop]; [by wlp_steps|].
  wlp_step. wlp_step. cbv zeta. wlp_step; [apply IH; by auto with keep|]. wlp_step. wlp_step. wlp_step.
  - unfold close_fd. wlp_steps. apply IH. by auto with keep.
  - wlp_steps. by auto with keep.
Qed.

Lemma open_failed_keeps w0 w id ud d m :
  keeps w0 w -> wlp (open_failed id ud d m) w (fun _ w' => keeps w0 w').
Proof.
  intros Hk. unfold open_failed. wlp_step. apply wlp_slot_of. intros H0. wlp_steps.
  apply keeps_put; [done|]. apply ok_invalid.
Qed.

Lemma req_start_keeps w0 w id ud m :
  keeps w0 w -> wlp (socket_req_start id ud m) w (fun _ w' => keeps w0 w').
Proof.
  intros Hk. unfold socket_req_start. wlp_step. apply wlp_slot_of. intros H0. do 2 wlp_step.
  wlp_step; [by wlp_steps|]. wlp_step.
  - assert (idle (type (slot_at (HASH_ID id) w)) = true /\ live (type (slot_at (HASH_ID id) w))) as [Hi Hl]
      by (destruct o as [-> | ->]; done).
    destruct (so_idle _ _ (keeps_slot _ _ _ Hk) Hi) as [Eh El].
    wlp_step. wlp_use keeps_event_add. intros e w1 [Hk1 Es]. wlp_step; wlp_steps.
    + apply keeps_put; [done|]. apply ok_invalid.
    + apply keeps_put; [done|]. apply ok_ud. rewrite <- (Es (HASH_ID id)) in *.
      apply ok_type; [by eapply keeps_slot|done|by destruct (decide (type (slot_at (HASH_ID id) w1) = PACCEPT))|done].
  - wlp_steps; try done. apply keeps_put; [done|]. apply ok_ud. by eapply keeps_slot.
Qed.

Lemma append_keeps w0 w k r b :
  keeps w0 w -> idle (type (slot_at k w)) = false ->
  wlp (append_priority k r b) w (fun _ w' => keeps w0 w').
Proof.
  intros Hk Hi. assert (forall hi, wlp (append_buffer k hi b) w (fun _ w' => keeps w0 w')) as Happ.
  { intros hi. unfold append_buffer. wlp_steps. apply keeps_put; [done|].
    apply ok_queue; [by eapply keeps_slot|done|]. intros Hl.
    rewrite sum_len_app, (ok_wb k hi _ (keeps_slot _ _ _ Hk) Hl).
    unfold sum_len. cbn. lia. }
  unfold append_priority. wlp_steps; auto.
Qed.

Lemma free_data_keeps w0 w d n :
  keeps w0 w -> wlp (free_data d n) w (fun _ w' => keeps w0 w').
Proof. intros Hk. unfold free_data. destruct (socket_send_object_init d n) as [[? ?] ?]. wlp_steps. by auto with keep. Qed.

Lemma send_warning_keeps w0 w k m :
  keeps w0 w -> wlp (send_warning k m) w (fun _ w' => keeps w0 w').
Proof. intros Hk. unfold send_warning. by wlp_steps. Qed.

Lemma send_tcp_keeps w0 w k r m :
  keeps w0 w -> idle (type (slot_at k w)) = false -> wlp (send_tcp k r m) w (fun _ w' => keeps w0 w').
Proof.
  intros Hk Hi. unfold send_tcp. destruct (socket_send_object_init _ _) as [[data size] ?].
  do 3 wlp_step. wlp_step. wlp_step. apply (wlp_mono _ _ (fun _ w' => keeps w0 w' /\ slot_at k w' = slot_at k w)).
  { wlp_steps; auto with keep. }
  cbv beta. intros _ w1 [Hk1 Es]. wlp_step.
  - wlp_step. wlp_use force_close_keeps. intros m' w2 Hk2. wlp_step. wlp_use free_data_keeps. intros _ w3 Hk3.
    by wlp_steps.
  - cbv zeta. wlp_step.
    + wlp_step. wlp_use free_data_keeps. intros _ w2 Hk2. by wlp_steps.
    + wlp_step. unfold socket_append_sendbuffer. eapply wlp_mono; [apply append_keeps; [done|by rewrite Es]|].
      cbv beta. intros _ w2 Hk2. by wlp_steps.
Qed.

Lemma send_udp_keeps w0 w k r address m :
  keeps w0 w -> idle (type (slot_at k w)) = false -> wlp (send_udp k r address m) w (fun _ w' => keeps w0 w').
Proof.
  intros Hk Hi. unfold send_udp. destruct (socket_send_object_init _ _) as [[data size] ?].
  do 3 wlp_step. cbv zeta. do 2 wlp_step. apply (wlp_mono _ _ (fun _ w' => keeps w0 w' /\ slot_at k w' = slot_at k w)).
  { wlp_steps; auto with keep. }
  cbv beta. intros _ w1 [Hk1 Es]. wlp_step.
  - wlp_step. unfold socket_append_udp_sendbuffer. eapply wlp_mono; [apply append_keeps; [done|by rewrite Es]|].
    cbv beta. intros _ w2 Hk2. by wlp_steps.
  - wlp_step. wlp_use free_data_keeps. intros _ w2 Hk2. by wlp_steps.
Qed.

Lemma req_open_keeps w0 w id port ud host m :
  keeps w0 w -> wlp (socket_req_open id port ud host m) w (fun _ w' => keeps w0 w').
Proof.
  intros Hk. unfold socket_req_open. do 2 wlp_step. wlp_step; [apply open_failed_keeps; by auto with keep|].
  wlp_step. wlp_use connect_keeps. intros [[[fd made] ai]|] w1 Hk1; [|by apply open_failed_keeps].
  wlp_step. wlp_use new_keeps. intros [k|] w2 [Hk2 Hr].
  - destruct Hr as (_ & -> & Hf). do 2 wlp_step. wlp_step.
    + wlp_steps. apply keeps_put; [done|]. by eapply fresh_ok.
    + do 3 wlp_step. set (w3 := with_slot _ _). assert (keeps w0 w3) as Hk3.
      { apply keeps_put; [done|]. by eapply fresh_ok. }
      wlp_use keeps_event_write. intros _ w4 Hk4. by wlp_steps.
  - unfold close_fd. do 2 wlp_step. apply open_failed_keeps. by auto with keep.
Qed.

Lemma req_send_keeps w0 w r m address :
  keeps w0 w -> wlp (socket_req_send r m address) w (fun _ w' => keeps w0 w').
Proof.
  intros Hk. unfold socket_req_send. wlp_step. apply wlp_slot_of. intros H0. do 2 wlp_step.
  wlp_step; [wlp_step; wlp_use free_data_keeps; intros _ w1 Hk1; by wlp_steps|].
  wlp_step; [wlp_step; wlp_use free_data_keeps; intros _ w1 Hk1; by wlp_steps|].
  assert (idle (type (slot_at (HASH_ID (r_id r)) w)) = false) as Hi.
  { apply orb_false_iff in Heqb as [_ Hn%bool_decide_eq_false]. 
    destruct (type (slot_at (HASH_ID (r_id r)) w)) eqn:E; try done; exfalso; auto. }
  wlp_step.
  - wlp_step. apply (wlp_mono _ _ (fun _ w' => keeps w0 w')).
    { wlp_step; [by apply send_tcp_keeps|by apply send_udp_keeps]. }
    intros [res|] w1 Hk1; wlp_steps; [done|]. wlp_use keeps_event_write. intros _ w2 Hk2. by apply send_warning_keeps.
  - wlp_step. apply (wlp_mono _ _ (fun _ w' => keeps w0 w')).
    { wlp_step; by apply append_keeps. }
    cbv beta. intros _ w1 Hk1. by apply send_warning_keeps.
Qed.

Lemma req_setudp_keeps w0 w id address m :
  keeps w0 w -> wlp (socket_req_setudp id address m) w (fun _ w' => keeps w0 w').
Proof.
  intros Hk. unfold socket_req_setudp. wlp_step. apply wlp_slot_of. intros H0. wlp_steps; try done.
  apply keeps_put; [done|]. 
  pose proof (keeps_slot _ _ (HASH_ID id) Hk) as Hok. destruct Hok. split; cbn; auto. intros Hl Hp.
  rewrite <- (so_udp0 Hl Hp). f_equal. by eapply memcpy_length.
Qed.

Lemma req_opt_keeps w0 w id m : keeps w0 w -> wlp (socket_req_opt id m) w (fun _ w' => keeps w0 w').
Proof. intros Hk. unfold socket_req_opt. wlp_step. apply wlp_slot_of. intros H0. by wlp_steps. Qed.

(** ** The loop *)

Lemma handle_keeps w0 w r m :
  keeps w0 w ->
  wlp (match r with
   | ReqExit => mret (SOCKET_EXIT, Msg 0 0 DNull 0)
   | ReqClose id ud => socket_req_close id ud m
   | ReqListen id fd ud => socket_req_listen id fd ud m
   | ReqOpen id port ud host => socket_req_open id port ud host m
   | ReqStart id ud => socket_req_start id ud m
   | ReqBind id fd ud => socket_req_bind id fd ud m
   | ReqSend r => socket_req_send r m None
   | ReqOpt id => socket_req_opt id m
   | ReqSetudp id a => socket_req_setudp id a m
   | ReqUdp id fd inet6 ud => socket_req_udp id fd inet6 ud m
   | ReqSendudp r a => socket_req_send r m (Some a)
   end) w (fun _ w' => keeps w0 w').
Proof.
  intros Hk. destruct r; auto using req_open_keeps, req_listen_keeps, req_close_keeps, req_bind_keeps,
    req_start_keeps, req_send_keeps, req_opt_keeps, req_udp_keeps, req_setudp_keeps.
Qed.

(** The pipe loses a request, unless reading it failed. *)
Lemma handle_req_spec w m :
  sinv w ->
  wlp (socket_handle_req m) w (fun _ w' => sinv w' /\ events w' = events w /\ waits w' = waits w /\
    (0 <= a_ret (sys CPipeRead (w_os w)).1 -> length (pipe w) = S (length (pipe w')))).
Proof.
  intros Hs. unfold socket_handle_req, socket_recv_req. apply wlp_bind, wlp_bind. unfold wlp at 1, call.
  destruct (sys CPipeRead (w_os w)) as [a o] eqn:Esys. cbn [fst].
  assert (keeps w (with_os o w)) as Hk by auto with keep.
  destruct (a_ret a <? 0) eqn:Ha.
  - wlp_steps. destruct Hk as (? & ? & ? & ? & ?). split_and!; try done. cbn. intros. lia.
  - wlp_step. wlp_step. cbn [pipe with_os]. destruct (pipe w) as [|r p] eqn:Ep; [wlp_steps; done|].
    wlp_step. wlp_step. wlp_step. set (w1 := with_pipe p (with_os o w)).
    assert (sinv w1) as Hs1 by done. apply keeps_refl in Hs1 as Hk1.
    eapply wlp_mono; [by apply (handle_keeps _ _ r m Hk1)|]. cbv beta.
    intros x w2 (? & E1 & E2 & _ & E4). split_and!; try done.
    intros _. by rewrite E1.
Qed.

(** How many turns an event can still take. *)
Definition weight (e : event) : nat := if e_read e && e_write e then 2 else 1.
Definition total (l : list event) : nat := sum_list (map weight l).
#[local] Arguments total : simpl never.
Definition measure (w : world) : nat := (length (pipe w) + total (events w))%nat.

Lemma total_clear w id l : total (map (clear_event w id) l) = total l.
Proof.
  unfold total. rewrite map_map. f_equal. apply map_ext. intros e. unfold clear_event.
  destruct (e_ud e); [|done]. by case_match.
Qed.

Lemma clear_closed_spec w id r :
  sinv w ->
  wlp (clear_closed id r) w (fun _ w' => sinv w' /\ total (events w') = total (events w) /\
    pipe w' = pipe w /\ waits w' = waits w).
Proof. intros Hs. unfold clear_closed. wlp_steps; split_and!; try done. cbn. apply total_clear. Qed.

Lemma event_spec w k ev m :
  sinv w ->
  wlp (socket_event k ev m) w (fun x w' => sinv w' /\ pipe w' = pipe w /\ waits w' = waits w /\
    (x.1 = -1 -> (total (events w') < total (events w) + weight ev)%nat)).
Proof.
  intros Hs. apply keeps_refl in Hs as Hk.
  assert (1 <= weight ev)%nat as Hwt by (unfold weight; case_match; lia).
  assert (forall (f : ust world (Z * msg)), wlp f w (fun _ w' => keeps w w') ->
    wlp f w (fun x w' => sinv w' /\ pipe w' = pipe w /\ waits w' = waits w /\
    (x.1 = -1 -> (total (events w') < total (events w) + weight ev)%nat))) as Hplain.
  { intros f Hf. eapply wlp_mono; [exact Hf|]. cbv beta. intros x w' (? & ? & E & ? & ?). rewrite E.
    split_and!; try done. intros _. lia. }
  assert (forall (r : Z) (m : msg) w1, sinv w1 -> pipe w1 = pipe w -> waits w1 = waits w ->
    (r = -1 -> (total (events w1) < total (events w) + weight ev)%nat) ->
    wlp (s ← get k; _ ← uwhen (negb (r =? -1)) (clear_closed (s_id s) r); mret (r, m)) w1
     (fun x w' => sinv w' /\ pipe w' = pipe w /\ waits w' = waits w /\
    (x.1 = -1 -> (total (events w') < total (events w) + weight ev)%nat))) as Hend.
  { intros r m1 w1 Hs1 Hp1 Hw1 Ht1. do 3 wlp_step. wlp_step.
    - eapply wlp_mono; [by apply clear_closed_spec|]. cbv beta. intros _ w2 (? & E & E1 & E2). wlp_steps.
      rewrite E, E1, E2. done.
    - wlp_steps. done. }
  assert (forall (r : Z) (m : msg) w1 (b : bool), keeps w w1 ->
    (b = true -> e_read ev = true /\ e_write ev = true) ->
    wlp (_ ← uwhen b (umod (fun w => with_events (Event false true (e_ud ev) :: events w) w));
      s ← get k; _ ← uwhen (negb (r =? -1)) (clear_closed (s_id s) r); mret (r, m)) w1
     (fun x w' => sinv w' /\ pipe w' = pipe w /\ waits w' = waits w /\
    (x.1 = -1 -> (total (events w') < total (events w) + weight ev)%nat))) as Htail.
  { intros r m1 w1 b (? & E1 & E2 & ? & E4) Hb. wlp_step. wlp_step.
    - wlp_step. apply Hend; try done. intros _. unfold total, weight in *. cbn. rewrite E2.
      destruct Hb as [-> ->]; [done|]. cbn. lia.
    - apply Hend; try done. rewrite E2. intros _. lia. }
  unfold socket_event. do 2 wlp_step. destruct (type (slot_at k w)) eqn:Et.
  all: try (apply Hplain; by wlp_steps).
  all: try (apply Hplain; by apply try_accept_keeps).
  all: try (apply Hplain; by apply try_open_keeps).
  all: destruct (e_read ev) eqn:Er; [|destruct (e_write ev) eqn:Ew; [|by apply Hplain; wlp_steps]].
  all: wlp_step; apply (wlp_mono _ _ (fun _ w' => keeps w w')); cbv beta.
  all: try (by apply send_buffer_keeps).
  all: try (wlp_step; [by apply forward_tcp_keeps|by apply forward_udp_keeps]).
  all: intros [r m1] w1 Hk1.
  all: try (apply (Htail r m1 w1 false); done).
  all: wlp_step; [|by apply Htail].
  all: destruct Hk1 as (? & E1 & E2 & ? & E4); wlp_steps; split_and!; try done.
  all: match goal with E : _ && _ = true |- _ => apply andb_true_iff in E as [_ E] end.
  all: intros E; cbn [fst] in E; subst; done.
Qed.

(** The pipe can be read. *)
Definition pipe_reads : Prop := forall o, 0 <= a_ret (sys CPipeRead o).1.

(** A turn that goes on has used up something, or waited for events. *)
Definition turn_post (w : world) (t : turn) (w' : world) : Prop :=
  sinv w' /\ (waits w <= waits w')%nat /\
  forall m, t = TNext m -> pipe_reads -> (waits w < waits w')%nat \/ (measure w' < measure w)%nat.

Lemma take_event_spec w m :
  sinv w -> wlp (take_event m) w (fun t w' => sinv w' /\ (waits w <= waits w')%nat /\
    forall m', t = TNext m' -> (measure w' < measure w)%nat).
Proof.
  intros Hs. unfold take_event. do 2 wlp_step. destruct (events w) as [|ev rest] eqn:Ee; [by wlp_steps|].
  do 2 wlp_step. set (w1 := with_events rest w). assert (sinv w1) as Hs1 by done.
  assert (measure w = length (pipe w) + (weight ev + total rest))%nat as Hm by (unfold measure; by rewrite Ee).
  assert (1 <= weight ev)%nat as Hwt by (unfold weight; case_match; lia).
  destruct (e_ud ev) as [k|].
  - do 3 wlp_step. eapply wlp_mono; [by apply event_spec|]. cbv beta. intros [r m1] w2 (Hs2 & Ep & Ew & Et).
    wlp_steps; split_and!; [done|by rewrite Ew|].
    intros m' Em. destruct (Z.eqb_spec r (-1)); [|done]. rewrite Hm. unfold measure. rewrite Ep. cbn [fst] in Et. specialize (Et ltac:(lia)).
    subst w1. cbn [events pipe with_events] in Et |- *. lia.
  - wlp_steps. split_and!; try done. intros m' _. rewrite Hm. unfold measure. cbn. lia.
Qed.

Lemma poll_events_spec w m : sinv w -> wlp (poll_events m) w (turn_post w).
Proof.
  intros Hs. unfold poll_events. do 2 wlp_step. destruct (events w) as [|ev rest] eqn:Ee.
  - unfold event_wait. do 3 wlp_step. do 2 wlp_step. 
    apply (wlp_mono _ _ (fun _ w' => sinv w' /\ waits w' = S (waits w))).
    { wlp_steps; (split; [done|]); unfold waits; cbn; rewrite List.filter_app, length_app; cbn; lia. }
    intros [n l] w1 [Hs1 Hw1]. do 4 wlp_step. wlp_step.
    + wlp_steps. split_and!; [done| |done]. change (waits w <= waits w1)%nat. lia.
    + eapply wlp_mono; [by apply take_event_spec|]. cbv beta. intros t w2 (? & Hw2 & _).
      change (waits w1 <= waits w2)%nat in Hw2. split_and!; [done|lia|]. intros. left. lia.
  - eapply wlp_mono; [by apply take_event_spec|]. cbv beta. intros t w2 (? & ? & Hm). split_and!; [done|done|].
    intros m' E _. right. by eapply Hm.
Qed.

Lemma poll_turn_spec w m : sinv w -> wlp (poll_turn m) w (turn_post w).
Proof.
  intros Hs. unfold poll_turn, _socket_has_ctrl. do 2 wlp_step. wlp_step; [|by apply poll_events_spec].
  do 4 wlp_step. destruct (pipe w) as [|r p] eqn:Ep.
  - do 2 wlp_step. apply (poll_events_spec (with_check false w)). done.
  - wlp_step. eapply wlp_mono; [by apply handle_req_spec|]. cbv beta. intros [r' m1] w1 (Hs1 & Ee & Ew & Hp).
    wlp_step.
    + wlp_step. eapply wlp_mono; [by apply clear_closed_spec|]. cbv beta. intros _ w2 (Hs2 & _ & _ & Ew2). wlp_steps.
      split_and!; [done|rewrite Ew2, Ew; lia|done].
    + wlp_steps. split_and!; [done|rewrite Ew; lia|]. intros m2 _ Hr. right. specialize (Hp (Hr _)).
      unfold measure. rewrite Ee, Hp. lia.
Qed.

Lemma poll_loop_spec fuel w m :
  sinv w -> wlp (poll_loop fuel m) w (fun x w' => sinv w' /\ (waits w <= waits w')%nat /\
    (pipe_reads -> (measure w < fuel)%nat -> x = None -> (waits w < waits w')%nat)).
Proof.
  revert w m. induction fuel as [|fuel IH]; intros w m Hs; cbn [poll_loop].
  { wlp_steps. split_and!; try done. lia. }
  wlp_step. eapply wlp_mono; [by apply poll_turn_spec|]. cbv beta. intros t w1 (Hs1 & Hw1 & Ht).
  destruct t as [m1|r m1|].
  - eapply wlp_mono; [by apply IH|]. cbv beta. intros x w2 (Hs2 & Hw2 & Hf). split_and!; [done|lia|].
    intros Hr Hm Hx. destruct (Ht m1 eq_refl Hr) as [|]; [lia|]. specialize (Hf Hr ltac:(lia) Hx). lia.
  - wlp_steps. split_and!; try done. rewrite waits_emit. lia.
  - wlp_steps. by split_and!.
Qed.
End Inv.

(** ** The interface *)

Section Api.
Context `{Os}.

(** A call of the interface, from any thread, or of [socket_poll]. *)
Inductive api :=
  | APoll (fuel : nat)
  | AOpen (host : string) (port ud : Z)
  | AListen (host : string) (port ud : Z)
  | ABind (fd ud : Z)
  | AUdp (host : option string) (port ud : Z)
  | AStart (id ud : Z)
  | ACloseApi (id ud : Z)
  | ASendApi (id data size priority : Z)
  | AUdpopen (id : Z) (host : string) (port : Z)
  | AUdpsend (id : Z) (address : list Z) (data size : Z)
  | ANodelay (id : Z)
  | AExit
  | AUnit.

Definition run_api (a : api) : ust world unit :=
  match a with
  | APoll fuel => _ ← socket_poll fuel; mret tt
  | AOpen host port ud => _ ← socket_open host port ud; mret tt
  | AListen host port ud => _ ← socket_listen host port ud; mret tt
  | ABind fd ud => _ ← socket_bind fd ud; mret tt
  | AUdp host port ud => _ ← socket_udp host port ud; mret tt
  | AStart id ud => socket_start id ud
  | ACloseApi id ud => socket_close id ud
  | ASendApi id data size priority => _ ← socket_send id data size priority; mret tt
  | AUdpopen id host port => _ ← socket_udpopen id host port; mret tt
  | AUdpsend id address data size => _ ← socket_udpsend id address data size; mret tt
  | ANodelay id => socket_nodelay id
  | AExit => socket_exit
  | AUnit => socket_unit
  end.

Definition api_step (w w' : world) : Prop := exists a, run_api a w = Some (tt, w').

Implicit Types w : world.

Lemma send_req_inv w r : sinv w -> wlp (socket_send_req r) w (fun _ w' => sinv w').
Proof. intros Hs. unfold socket_send_req. by wlp_steps. Qed.

Lemma next_id_inv w : sinv w -> wlp socket_next_id w (fun _ w' => sinv w').
Proof. intros Hs. eapply wlp_mono; [by apply next_id_keeps, keeps_refl|]. by intros ? ? [? _]. Qed.

(** An id is taken and a request is sent. *)
Lemma request_inv w (r : Z -> req) :
  sinv w -> wlp (id ← socket_next_id; _ ← socket_send_req (r id); mret id) w (fun _ w' => sinv w').
Proof.
  intros Hs. wlp_step. eapply wlp_mono; [by apply next_id_inv|]. cbv beta. intros id w1 Hs1.
  wlp_step. eapply wlp_mono; [by apply send_req_inv|]. cbv beta. intros _ w2 Hs2. by wlp_steps.
Qed.

Lemma bind_inv w host port : sinv w -> wlp (_socket_bind host port) w (fun _ w' => sinv w').
Proof. intros Hs. unfold _socket_bind, close_fd. by wlp_steps. Qed.

Lemma listen_inv w host port : sinv w -> wlp (_socket_listen host port) w (fun _ w' => sinv w').
Proof.
  intros Hs. unfold _socket_listen, close_fd. wlp_step. eapply wlp_mono; [by apply bind_inv|]. cbv beta.
  intros [fd b] w1 Hs1. by wlp_steps.
Qed.

Lemma free_data_inv w d n : sinv w -> wlp (free_data d n) w (fun _ w' => sinv w').
Proof. intros Hs. eapply wlp_mono; [by apply free_data_keeps, keeps_refl|]. by intros ? ? [? _]. Qed.

Lemma unit_loop_inv n k w : sinv w -> wlp (unit_loop n k) w (fun _ w' => sinv w').
Proof.
  revert k w. induction n as [|n IH]; intros k w Hs; cbn [unit_loop]; [by wlp_steps|].
  do 3 wlp_step. wlp_step; [|by apply IH]. wlp_step.
  eapply wlp_mono; [by apply force_close_keeps, keeps_refl|]. cbv beta. intros m w1 [Hs1 _]. wlp_step. by apply IH.
Qed.

Lemma api_inv a w : sinv w -> wlp (run_api a) w (fun _ w' => sinv w').
Proof.
  intros Hs. assert (forall {A} (f : ust world A), wlp f w (fun _ w' => sinv w') ->
    wlp (_ ← f; mret tt) w (fun _ w' => sinv w')) as Hret.
  { intros A f Hf. wlp_step. eapply wlp_mono; [exact Hf|]. cbv beta. intros x w1 Hs1. by wlp_steps. }
  destruct a; cbn [run_api]; try (by apply send_req_inv); try apply Hret.
  - eapply wlp_mono; [by apply poll_loop_spec|]. by intros ? ? [? _].
  - unfold socket_open. wlp_step. eapply wlp_mono; [by apply next_id_inv|]. cbv beta. intros id w1 Hs1.
    unfold strcpy_host. destruct (_ <? 128); [|by wlp_steps]. wlp_step. wlp_step. wlp_step.
    eapply wlp_mono; [by apply send_req_inv|]. cbv beta. intros _ w2 Hs2. by wlp_steps.
  - unfold socket_listen. wlp_step. eapply wlp_mono; [by apply listen_inv|]. cbv beta. intros fd w1 Hs1.
    wlp_step; [by wlp_steps|]. by apply (request_inv w1 (fun id => ReqListen id fd ud)).
  - by apply (request_inv w (fun id => ReqBind id fd ud)).
  - unfold socket_udp. wlp_step. apply (wlp_mono _ _ (fun _ w' => sinv w')).
    { wlp_step; [by apply bind_inv|by wlp_steps]. }
    cbv beta. intros [fd b] w1 Hs1. wlp_step; [by wlp_steps|]. by apply (request_inv w1 (fun id => ReqUdp id fd b ud)).
  - unfold socket_send. wlp_step. apply wlp_slot_of. intros H0. do 2 wlp_step. wlp_step; wlp_step.
    + eapply wlp_mono; [by apply free_data_inv|]. cbv beta. intros _ w1 Hs1. by wlp_steps.
    + eapply wlp_mono; [by apply send_req_inv|]. cbv beta. intros _ w1 Hs1. by wlp_steps.
  - unfold socket_udpopen. do 2 wlp_step. wlp_step; [by wlp_steps|]. wlp_step. wlp_step. cbv zeta. wlp_step.
    eapply wlp_mono; [by apply send_req_inv|]. cbv beta. intros _ w1 Hs1. by wlp_steps.
  - unfold socket_udpsend. wlp_step. apply wlp_slot_of. intros H0. do 2 wlp_step. wlp_step.
    + wlp_step. eapply wlp_mono; [by apply free_data_inv|]. cbv beta. intros _ w1 Hs1. by wlp_steps.
    + wlp_step.
      * do 3 wlp_step. eapply wlp_mono; [by apply send_req_inv|]. cbv beta. intros _ w1 Hs1. by wlp_steps.
      * wlp_step. eapply wlp_mono; [by apply free_data_inv|]. cbv beta. intros _ w1 Hs1. by wlp_steps.
  - unfold socket_unit. wlp_step. eapply wlp_mono; [by apply unit_loop_inv|]. cbv beta. intros _ w1 Hs1.
    unfold close_fd. by wlp_steps.
Qed.

Lemma init_inv w : wlp socket_init w (fun _ w' => sinv w').
Proof.
  unfold socket_init. do 2 wlp_step. set (w1 := World _ _ _ _ _ _ _ _ _).
  assert (sinv w1) as Hs1 by (intros k; apply socket0_ok). do 2 wlp_step. wlp_step; [by wlp_steps|].
  destruct (a_data (first a)) as [|rfd [|sfd [|? ?]]]; try by wlp_steps.
  wlp_step. eapply wlp_mono; [by apply keeps_event_add, keeps_refl|]. cbv beta. intros e w2 [[Hs2 _] _].
  unfold close_fd. by wlp_steps.
Qed.

(** ** Claims *)

(** C27: from [socket_init] on, whatever the threads call and the system
    answers, as long as no assertion fails and no array is left, every socket in use is in the slot of its id, its [wb_size] is the
    number of bytes that are queued, its read size is 64 times a power of two,
    sockets that listen or wait to be started have nothing queued, and UDP
    sockets have an address of 19 bytes. *)
Theorem socket_invariant w0 w1 w :
  socket_init w0 = Some (0, w1) -> rtc api_step w1 w -> forall k, slot_ok k (slot_at k w).
Proof.
  intros Hi Hr. assert (sinv w1) as Hs by apply (wlp_run _ _ _ _ _ (init_inv w0) Hi).
  clear Hi. change (sinv w). induction Hr as [|w1 w2 w [a Ha] _ IH]; [done|].
  apply IH. exact (wlp_run _ _ _ _ _ (api_inv a w1 Hs) Ha).
Qed.

(** C28: the loop of [socket_poll] cannot run on its own: once it has done as
    many turns as there are requests in the pipe and events left (two for an
    event that is both readable and writable), it has returned or waited for
    new events. *)
Theorem socket_poll_terminates fuel w :
  sinv w -> pipe_reads -> (measure w < fuel)%nat ->
  match socket_poll fuel w with
  | Some (None, w') => (waits w < waits w')%nat
  | _ => True
  end.
Proof.
  intros Hs Hr Hm. pose proof (poll_loop_spec fuel w (Msg 0 0 DNull 0) Hs) as H1. unfold wlp in H1.
  unfold socket_poll. destruct (poll_loop _ _ _) as [[[r|] w']|]; [done| |done].
  destruct H1 as (_ & _ & H1). by apply H1.
Qed.
End Api.

(** The pipe gives the descriptors 3 and 4; a socket is opened and bytes are
    sent on it; the second poll waits for events and finds none. *)
Definition demo_start : @world demo_os :=
  @World demo_os 0 ∅ [] false (0, 0) [] ∅ []
    [Answer 0 0 EOTHER [3; 4] 0 false None [] []; ans 0; ans 0;
     Answer 0 0 EOTHER [] 0 false None [Ainfo false (Some "1.2.3.4:80"%string) [0; 80; 1; 2; 3; 4]] [];
     ans 5; ans 0; ans 0; ans 0; ans 7; ans (-1)].
Definition demo_calls : list api :=
  [AOpen "host" 80 9; APoll 5; ASendApi 1 1000 10 0; APoll 5].

Definition exec (w : @world demo_os) (a : api) : @world demo_os :=
  match run_api (H := demo_os) a w with Some (_, w) => w | None => w end.
Definition demo_w1 : @world demo_os :=
  match socket_init (H := demo_os) demo_start with Some (_, w) => w | None => demo_start end.
Definition demo_final : @world demo_os := foldl exec demo_w1 demo_calls.

Lemma demo_init : socket_init (H := demo_os) demo_start = Some (0, demo_w1).
Proof. vm_compute. reflexivity. Qed.

Fixpoint runs (l : list api) (w : @world demo_os) : bool :=
  match l with
  | [] => true
  | a :: l => match run_api (H := demo_os) a w with Some (_, w) => runs l w | None => false end
  end.

Lemma runs_rtc l w : runs l w = true -> rtc (api_step (H := demo_os)) w (foldl exec w l).
Proof.
  revert w. induction l as [|a l IH]; intros w E; cbn [foldl runs] in *; [apply rtc_refl|].
  apply (rtc_l _ _ (exec w a)).
  - exists a. unfold exec. destruct (run_api a w) as [[[] w']|]; [done|discriminate E].
  - apply IH. unfold exec. by destruct (run_api a w) as [[[] w']|].
Qed.

Lemma demo_run : rtc (api_step (H := demo_os)) demo_w1 demo_final.
Proof. apply runs_rtc. vm_compute. reflexivity. Qed.

Lemma socket_invariant_witness :
  slot_at (H := demo_os) 1 demo_final = Socket 5 1 9 3 [Buffer 1000 1007 3 false []] [] OPENED 0 64 [] /\
  slot_ok 1 (slot_at (H := demo_os) 1 demo_final).
Proof.
  split; [vm_compute; reflexivity|].
  exact (socket_invariant (H := demo_os) demo_start demo_w1 demo_final demo_init demo_run 1).
Defined.

Lemma demo_sinv : sinv (H := demo_os) (foldl exec demo_w1 (take 3 demo_calls)).
Proof.
  pose proof (wlp_run _ _ _ _ _ (init_inv (H := demo_os) demo_start) demo_init) as Hs.
  cbn [take demo_calls foldl].
  assert (forall a w, sinv (H := demo_os) w -> sinv (H := demo_os) (exec w a)) as Hexec.
  { intros a w Hw. pose proof (api_inv (H := demo_os) a w Hw) as Ha. unfold wlp in Ha. unfold exec.
    by destruct (run_api a w) as [[? ?]|]. }
  auto.
Qed.

Lemma socket_poll_terminates_witness :
  measure (H := demo_os) (foldl exec demo_w1 (take 3 demo_calls)) = 1%nat /\
  match socket_poll (H := demo_os) 2 (foldl exec demo_w1 (take 3 demo_calls)) with
  | Some (None, w') => (waits (H := demo_os) (foldl exec demo_w1 (take 3 demo_calls)) < waits (H := demo_os) w')%nat
  | _ => True
  end.
Proof.
  assert (measure (H := demo_os) (foldl exec demo_w1 (take 3 demo_calls)) = 1%nat) as Hm
    by (vm_compute; reflexivity).
  split; [exact Hm|].
  apply (socket_poll_terminates (H := demo_os) 2 (foldl exec demo_w1 (take 3 demo_calls)) demo_sinv).
  - intros o. reflexivity.
  - rewrite Hm. constructor.
Defined.
